(* ===== verification/_CoqProject ===== *)
-Q . S2P
Prelude.v
Dfsan.v
HashTable.v
Runtime.v
LabelSem.v
RuntimeSpec.v
TotalSpec.v
InputSpec.v
ShadowSpec.v
BoundsSpec.v
LProbe.v
Cstr.v
UnionFind.v
Ast.v
Formula.v
Task.v
TaskSpec.v
Parser.v
ScanSpec.v
ConsSpec.v
UtaSpec.v
Jit.v
JitSpec.v
Gd.v
GdSpec.v
SolveSpec.v
I2S.v
I2SSpec.v
JitSolver.v
CacheSpec.v
JitSolverSpec.v
Z3.v
Z3Ts.v
Z3Spec.v
Z3PathSpec.v
Z3Solver.v
Z3SolverSpec.v
Pipe.v
Fastgen.v
FastgenSpec.v
TraceSpec.v
Fgtest.v
FgtestSpec.v
Z3Backend.v
Libc.v
Custom.v
CustomSys.v
Printf.v
LibcSpec.v
CustomSpec.v
CustomSysSpec.v
PrintfSpec.v
Launcher.v
LauncherSpec.v
Aflpp.v
AflppSpec.v
Rl.v
RlSpec.v
