(* ===== verification/Prelude.v ===== *)
(** * A Rocq model of SymSan

    SymSan is a concolic execution engine. A compiler pass instruments a program so
    that every value carries a label; the runtime keeps a table of labels, each the
    record of an operation on smaller labels, on input bytes and on constants. At
    branches, comparisons, selects, switches, address computations and memory
    errors the back end of the instrumented program writes messages to a pipe. A
    driver reads them, turns the labels of the table into constraints, and asks
    solvers for inputs that take the other side of a branch.

    ** Files and sources

    - This file: machine integers, outcomes, the state and error monad, and lemmas
      on them.
    - [Dfsan.v]: [runtime/dfsan/dfsan.h], [dfsan_platform.h]; label records,
      operators, predicates, flags and the memory layout.
    - [HashTable.v]: [taint_allocator.cpp], [union_hashtable.cpp], [union_util.cpp];
      the bump allocator and the table that finds a record's label.
    - [Runtime.v]: [dfsan.cpp]; [__taint_union] with its simplifications and queries,
      shadow loads and stores, bounds labels, input labels, start-up.
    - [LabelSem.v]: the meaning of a label on an input ([eval]), which every theorem
      about labels refers to. [RuntimeSpec.v], [TotalSpec.v], [InputSpec.v],
      [ShadowSpec.v], [BoundsSpec.v]: what the runtime guarantees.
    - [Cstr.v]: numbers in text and words of bytes, as libc and the CPU have them.
    - [UnionFind.v] ([union_find.h]), [Ast.v] ([include/ast.h]), [Task.v] ([task.h],
      [cov.h], [task_mgr.h]), [Parser.v] and [Formula.v] ([include/parse-rgd.h],
      [parsers/rgd-parser.cpp]): input bytes that occur together, constraint trees,
      search tasks, and the parser that makes tasks of labels. [TaskSpec.v],
      [ScanSpec.v], [ConsSpec.v], [UtaSpec.v] hold their theorems.
    - [Jit.v] ([solvers/jigsaw/jit.cc]): compilation of constraint trees to
      LLVM functions; [Gd.v] ([jigsaw/gd.cc], [grad.cc], [input.cc]): gradient search; [LProbe.v]
      ([wheels/lockfreehash]): the table of compiled functions; [JitSolver.v]
      ([solvers/jit-solver.cpp]); [I2S.v] ([solvers/i2s-solver.cpp]). Theorems in
      [JitSpec.v], [GdSpec.v], [SolveSpec.v], [CacheSpec.v], [JitSolverSpec.v], [I2SSpec.v].
    - [Z3.v]: what the sources use of the Z3 library; [Z3Ts.v] ([include/parse-z3.h],
      [parse.h], [solvers/z3-ts.cpp]): the parser and solver that the driver uses;
      [Z3Solver.v] ([solvers/z3-solver.cpp]): the solver of constraint trees.
      Theorems in [Z3Spec.v], [Z3PathSpec.v], [Z3SolverSpec.v].
    - [Pipe.v] ([dfsan.h]): the messages as bytes; [Fastgen.v]
      ([backend/fastgen.cpp]): the back end; [Fgtest.v] ([driver/fgtest.cpp], the read
      of [launcher/launch.c]): the driver. Theorems in [FastgenSpec.v],
      [TraceSpec.v], [FgtestSpec.v]. [Z3Backend.v] ([solvers/z3.cpp]): the back end
      that solves inside the traced process.
    - [Libc.v] ([sanitizer_common/sanitizer_libc.cpp], the taint sources of
      [dfsan.cpp]): memory, C strings, the input file and socket; [Custom.v],
      [CustomSys.v] and [Printf.v] ([dfsan/dfsan_custom.cpp]): the wrappers that take
      the place of libc functions in an instrumented program. Theorems in
      [LibcSpec.v], [CustomSpec.v], [CustomSysSpec.v], [PrintfSpec.v].
    - [Launcher.v] ([driver/launcher/launch.c]): the process of the program and its
      pipe; [Aflpp.v] ([driver/aflpp/symsan.cpp], [include/solver.h]): the mutator for
      AFL++, which gives the tasks of the parser to the solvers; [Rl.v]
      ([driver/rl/main.cpp]): the driver that answers trace requests. Theorems in
      [LauncherSpec.v], [AflppSpec.v], [RlSpec.v].

    A definition has the name of the function it models; a function that modifies
    an object is a state transformer in [M] over the record of that object, an
    exception or failed assertion is an [Err], and unsigned integers are [Z] with
    the wrap-around of their width written out. A loop with a bound that is known
    beforehand is structural, any other has fuel.

    ** Theorems

    - Labels: a union means the operation it was asked for, always returns, and finds
      earlier records (C1, C3, C5); start-up labels the input (C4); shadow memory
      gives back what was stored (C6); bounds labels detect what leaves an object and
      are given back by calls (C8, C9), which can nest only as deep as an array that
      is not guarded (C10). One simplification changes the value: C1 says which, and
      [trunc_of_sext_icmp] is an example.
    - Wrappers: what the program reads of its input means those bytes of the input
      (C7); a comparison of memory is reported with both sides (C21); a heap block
      has clean labels and bounds that end with its life (C27); copies move labels
      with the bytes, overlap included (C33), and [memset] is the loop over bytes
      (C34). C40 is a copy past the end of a block; lemmas of [CustomSpec.v],
      [CustomSysSpec.v] and [PrintfSpec.v] show the other cases in which a wrapper
      does something else than the function it replaces, and what the sockets
      deliver.
    - Parsing to search tasks: connected components (C2), the clauses of a condition
      (C11), finalisation (C12), the scan of the labels and the input bytes it
      records (C13, C14). [add_constraints_never_adds] is about a function that never
      succeeds.
    - Search: compiled constraints store the operands of their comparison (C16), the
      search returns and is sound (C18, C19), and with the parser and the function
      cache a solution makes every branch of the task go the wanted way (C20). The
      cache is a map from trees, and trees that it finds equal compile to one
      function if no operand repeats a label and nothing is extracted above bit 0
      (C22). [overlapping_reads_miscompiled], [function_cache_confuses],
      [function_cache_confuses_extracts], [narrow_signed_misjudged] and
      [gd_strict_match_misses] are the cases in which code of this part computes
      another function. The input-to-state solver solves comparisons with direct
      copies of input bytes, numbers in text and compared memory (C23, C25, C26); the
      operators it inverts, and when it gives up, are those of C24.
    - Z3: expressions have the sorts and values of their labels (C29, C30); a solution
      keeps the earlier branches (C31), for which the set of dependent bytes is
      closed (C32); the solver of constraint trees answers from the tasks that a task
      extends, or decides it, or says that Z3 gave up (C35);
      [unsupported_label_blocks] and [long_memcmp_diverges] are conditions that are
      never parsed and a loop that never ends.
    - The whole: the driver handles exactly the messages that were sent (C36), a
      traced run gives a new input for every branch that can go the other way (C37),
      selects and switches are reported as they were computed (C38, C39), except for
      a select of two symbolic arms ([select_symbolic_false]).
    - Drivers: the mutator tries every task with every solver in as many calls as it
      announces (C15), and makes no task for a direction that was taken
      ([handle_cond_covered]); the launcher closes only its own descriptors (C17), if
      a run is not terminated early ([terminated_pipe_closed_twice]); a trace
      request is one task that asks for all its branches, and what each answer says of
      them is C28;
      [concrete_trace_fails] and [symbolic_memcmp_desyncs] are requests and messages
      that are mishandled.

    ** Fuel

    [__taint_union] calls itself to depth 2 (C3). [find] of the union-find has one
    more than the greatest rank and [get_set] the number of elements (C2), the table
    of functions one more than its size (C22), code generation and the
    serialisations the number of labels or nodes (C16, C29, C35), chains of base
    tasks the number of tasks, the worklist of dependencies the number of bytes in it
    (C32), the drivers the number of bytes in the pipe (C36, [trace_loop_fuel],
    [event_loop_fuel]). The loops of the gradient
    search multiply their step or count executions against a limit of the source:
    8 rounds for [probe], 40 for [repick_loop] and 2000 for the others are more than
    they can make, which is part of C18. Numbers print in at most 64 digits, their
    width in base 2. [concrete_loop] has 256, the range of its counter, and
    [long_memcmp_diverges] is about the inputs for which no fuel is enough. The scan
    for the end of a C string has one more than the bytes of memory, of which one
    must be the end ([strlen_spec]); the walk over a format string has the length of
    the format ([format_buffer_fuel]).

    ** Parameters

    Code that is not part of the repository is a class or an argument: the operator
    numbers of LLVM with the order of its [Instruction.def] ([InstructionDef], LLVM 14
    is an instance); the meaning of LLVM instructions and the machine code made of a
    function ([LLVMSemantics], [NativeCode], [MachineCode]); [log2] ([Libm]) and the
    results that C leaves open ([Unspecified]); Z3's [simplify] and [check]
    ([z3.Library], with [z3.LibraryLaws] for what they promise); what a call of libc
    or the system returns and writes ([Libc], and [render] for the text of one
    directive of [snprintf]); the answers of the system and the traced program
    ([launcher.Posix]), and the memory that the search allocates
    ([aflpp.SearchMemory]). Each theorem that uses one has a witness with an
    instance.

    ** Not modelled

    Of the libc wrappers: [write] and its callback, thread creation, [dlopen] and
    [dl_iterate_phdr], [mbrtowc] and the weak hooks; the interceptors, which call libc
    around label operations that are modelled; the compiler pass, which is written
    against LLVM's classes, but for the calls it makes for a switch; the gRPC service,
    the line tables and the configuration file of the RL driver; the Python bindings;
    reading of options, and printing. The code under [FILTER_WRONG_AST] is switched
    off in the source. Threads, a failing allocation in a driver, a reader that
    closes the pipe between messages, reads that return fewer bytes than there are,
    the capacity of the coverage tables and the size of the stack are left out. *)

From Stdlib Require Export ZArith Lia Bool.
From stdpp Require Export base gmap list sets.

#[global] Open Scope Z_scope.
#[global] Set Default Goal Selector "!".

#[global] Arguments Z.eqb : simpl never.
#[global] Arguments Z.ltb : simpl never.
#[global] Arguments Z.leb : simpl never.

(** ** Machine integers

    A [w]-bit C++ integer is a [Z] in [[0, 2^w)]; every arithmetic operation of
    the source that can leave that range is followed by one of the casts below. *)

Definition wrap (w x : Z) : Z := x mod 2 ^ w.

Abbreviation u8 := (wrap 8).
Abbreviation u16 := (wrap 16).
Abbreviation u32 := (wrap 32).
Abbreviation u64 := (wrap 64).

(** The value of the two's complement reading of a [w]-bit pattern
    ([(int64_t)x] in the source for [w = 64]). *)
Definition signed (w x : Z) : Z :=
  if x <? 2 ^ (w - 1) then x else x - 2 ^ w.

Abbreviation s64 := (signed 64).

(** [x] is a [w]-bit pattern. *)
Definition is_u (w x : Z) : Prop := 0 <= x < 2 ^ w.

(** C's [x << n] and [x >> n] on 64-bit operands. The source sometimes shifts by
    64 or more, which C++ leaves undefined; the x86-64 instruction the compiler
    emits takes the count modulo 64, and so do these. *)
Definition shl64 (x n : Z) : Z := u64 (Z.shiftl x (n mod 64)).
Definition shr64 (x n : Z) : Z := Z.shiftr x (n mod 64).

(** ** Outcomes

    What a C++ call can do besides returning: throw one of the exceptions the
    source mentions, fail an [assert], call [Die()], or run into undefined
    behaviour that the model does not give a meaning to (an unchecked index out
    of bounds, a read through a dangling reference). [NoFuel] marks a loop whose
    fuel ran out; every use of fuel comes with a theorem that it does not. *)
Inductive exn :=
  | OutOfRange
  | RuntimeError
  | InvalidArgument
  | AssertFailure
  | Z3Exception
  | Died
  | Undefined
  | NoFuel.

Inductive res (A : Type) :=
  | Ok (a : A)
  | Err (e : exn).
Arguments Ok {A} a.
Arguments Err {A} e.

#[global] Instance exn_eq_dec : EqDecision exn.
Proof. solve_decision. Defined.

(** A computation over a mutable state [S]. The state survives an exception, as
    it does in C++, so that [catch] sees the effects made before the throw. *)
Definition M (S A : Type) : Type := S -> res A * S.

Section monad.
Context {S : Type}.

Definition ret {A} (a : A) : M S A := fun s => (Ok a, s).
Definition throw {A} (e : exn) : M S A := fun s => (Err e, s).
Definition bind {A B} (m : M S A) (k : A -> M S B) : M S B :=
  fun s => match m s with
           | (Ok a, s') => k a s'
           | (Err e, s') => (Err e, s')
           end.
Definition gets {A} (f : S -> A) : M S A := fun s => (Ok (f s), s).
Definition modify (f : S -> S) : M S unit := fun s => (Ok tt, f s).
Definition lift {A} (r : res A) : M S A := fun s => (r, s).
Definition catch {A} (m : M S A) (h : exn -> M S A) : M S A :=
  fun s => match m s with
           | (Err e, s') => h e s'
           | r => r
           end.
Definition assert_ (b : bool) : M S unit :=
  if b then ret tt else throw AssertFailure.

(** [for (x : l) body(x);] *)
Fixpoint for_each {A} (l : list A) (body : A -> M S unit) : M S unit :=
  match l with
  | [] => ret tt
  | x :: l' => bind (body x) (fun _ => for_each l' body)
  end.

End monad.

(** [v.at(i)], [map.at(k)]: throws when there is nothing there. *)
Definition at_ {A} (o : option A) : res A :=
  match o with Some a => Ok a | None => Err OutOfRange end.

(** [v[i]] on a vector, [*p] through a pointer: undefined when out of range. *)
Definition idx {A} (o : option A) : res A :=
  match o with Some a => Ok a | None => Err Undefined end.

Declare Scope prog_scope.
Delimit Scope prog_scope with prog.
Notation "'let!' p := m 'in' k" := (bind m (fun x => match x with p => k end))
  (at level 10, p pattern, m at level 100, k at level 200) : prog_scope.
Notation "m ;;; k" := (bind m (fun _ => k))
  (at level 100, right associativity) : prog_scope.
Notation "'let?' p := r 'in' k" := (match r with Ok p => k | Err e => Err e end)
  (at level 10, p pattern, r at level 100, k at level 200) : prog_scope.

(** ** Lemmas on machine integers *)

Create HintDb machine.

Lemma pow2_pos w : 0 <= w -> 0 < 2 ^ w.
Proof. intros. by apply Z.pow_pos_nonneg. Qed.

Lemma wrap_bound w x : 0 <= w -> is_u w (wrap w x).
Proof. intros. apply Z.mod_pos_bound, pow2_pos; lia. Qed.

Lemma wrap_small w x : is_u w x -> wrap w x = x.
Proof. intros. by apply Z.mod_small. Qed.

Lemma wrap_wrap w x : 0 <= w -> wrap w (wrap w x) = wrap w x.
Proof. intros. apply wrap_small, wrap_bound; lia. Qed.

(** Two's complement reading and back. *)
Lemma wrap_signed w x : 0 < w -> is_u w x -> wrap w (signed w x) = x.
Proof.
  unfold wrap, signed, is_u. intros Hw Hx. destruct (Z.ltb_spec x (2 ^ (w - 1))).
  - by apply Z.mod_small.
  - replace (x - 2 ^ w) with (x + (-1) * 2 ^ w) by lia.
    rewrite Z_mod_plus_full. by apply Z.mod_small.
Qed.

Lemma signed_bound w x : 0 < w -> is_u w x ->
  - 2 ^ (w - 1) <= signed w x < 2 ^ (w - 1).
Proof.
  unfold signed, is_u. intros Hw Hx.
  assert (2 ^ w = 2 * 2 ^ (w - 1)).
  { rewrite <- Z.pow_succ_r by lia. f_equal. lia. }
  destruct (Z.ltb_spec x (2 ^ (w - 1))); lia.
Qed.

Lemma signed_inj w x y : 0 < w -> is_u w x -> is_u w y ->
  signed w x = signed w y -> x = y.
Proof.
  intros Hw Hx Hy E. rewrite <- (wrap_signed w x), <- (wrap_signed w y) by done.
  by rewrite E.
Qed.

Lemma is_u_testbit w x : 0 <= w -> 0 <= x ->
  (forall i, w <= i -> Z.testbit x i = false) -> is_u w x.
Proof.
  intros Hw Hx Hi. split; [done|].
  destruct (Z.lt_ge_cases x (2 ^ w)) as [|Hge]; [done|exfalso].
  assert (0 < x) by (pose proof (pow2_pos w Hw); lia).
  assert (w <= Z.log2 x) by (apply Z.log2_le_pow2; lia).
  specialize (Hi (Z.log2 x) ltac:(lia)). by rewrite Z.bit_log2 in Hi by lia.
Qed.

Lemma testbit_high w x i : is_u w x -> 0 <= w -> w <= i -> Z.testbit x i = false.
Proof.
  intros [H0 H1] Hw Hi. rewrite <- (Z.mod_small x (2 ^ w)) by lia.
  by apply Z.mod_pow2_bits_high.
Qed.

Section bitwise_bounds.
Context (w x y : Z) (Hw : 0 <= w) (Hx : is_u w x) (Hy : is_u w y).

Lemma land_bound : is_u w (Z.land x y).
Proof.
  apply is_u_testbit; [done| |].
  - apply Z.land_nonneg. left. apply Hx.
  - intros i Hi. by rewrite Z.land_spec, (testbit_high w x) by done.
Qed.

Lemma lor_bound : is_u w (Z.lor x y).
Proof.
  apply is_u_testbit; [done| |].
  - apply Z.lor_nonneg. split; [apply Hx|apply Hy].
  - intros i Hi. by rewrite Z.lor_spec, (testbit_high w x), (testbit_high w y).
Qed.

Lemma lxor_bound : is_u w (Z.lxor x y).
Proof.
  apply is_u_testbit; [done| |].
  - apply Z.lxor_nonneg. split; intros; [apply Hy|apply Hx].
  - intros i Hi. by rewrite Z.lxor_spec, (testbit_high w x), (testbit_high w y).
Qed.

Lemma ones_land : Z.land (2 ^ w - 1) x = x.
Proof.
  replace (2 ^ w - 1) with (Z.ones w) by (rewrite Z.ones_equiv; lia).
  rewrite Z.land_comm, Z.land_ones by done. by apply Z.mod_small.
Qed.

Lemma ones_lor : Z.lor (2 ^ w - 1) x = 2 ^ w - 1.
Proof.
  replace (2 ^ w - 1) with (Z.ones w) by (rewrite Z.ones_equiv; lia).
  apply Z.bits_inj'. intros i Hi. rewrite Z.lor_spec.
  destruct (Z.lt_ge_cases i w).
  - by rewrite Z.ones_spec_low by lia.
  - by rewrite Z.ones_spec_high, (testbit_high w x) by (done || lia).
Qed.

End bitwise_bounds.

Lemma shiftr_bound w x n : 0 <= n -> is_u w x -> is_u w (Z.shiftr x n).
Proof.
  intros Hn [H0 H1]. rewrite Z.shiftr_div_pow2 by done.
  pose proof (pow2_pos n Hn). split; [apply Z.div_pos; lia|].
  apply Z.le_lt_trans with x; [|done]. apply Z.div_le_upper_bound; nia.
Qed.

Lemma wrap_wrap_le v w x : 0 <= v <= w -> wrap v (wrap w x) = wrap v x.
Proof.
  intros H. unfold wrap. apply Z.mod_mod_divide.
  exists (2 ^ (w - v)). rewrite <- Z.pow_add_r by lia. f_equal. lia.
Qed.

Lemma concat_bound a b x y : 0 <= a -> 0 <= b -> is_u a x -> is_u b y ->
  is_u (a + b) (x + 2 ^ a * y).
Proof.
  unfold is_u. intros Ha Hb Hx Hy. rewrite Z.pow_add_r by done.
  pose proof (Z.mul_le_mono_nonneg_l y (2 ^ b - 1) (2 ^ a)). lia.
Qed.

#[export] Hint Resolve wrap_bound land_bound lor_bound lxor_bound shiftr_bound
  pow2_pos : machine.

(** ** Reasoning about computations *)

Section monad_lemmas.
Context {S : Type}.

Lemma bind_ok {A B} (m : M S A) (k : A -> M S B) s b s' :
  bind m k s = (Ok b, s') ->
  exists a s1, m s = (Ok a, s1) /\ k a s1 = (Ok b, s').
Proof. unfold bind. destruct (m s) as [[a|e] s1]; [eauto|discriminate]. Qed.

Lemma bind_eq {A B} (m : M S A) (k : A -> M S B) s a s' :
  m s = (Ok a, s') -> bind m k s = k a s'.
Proof. unfold bind. by intros ->. Qed.

Lemma ret_ok {A} (a b : A) (s s' : S) : ret a s = (Ok b, s') -> b = a /\ s' = s.
Proof. unfold ret. by intros [= -> ->]. Qed.

Lemma gets_ok {A} (f : S -> A) b s s' : gets f s = (Ok b, s') -> b = f s /\ s' = s.
Proof. unfold gets. by intros [= -> ->]. Qed.

Lemma modify_ok (f : S -> S) u s s' : modify f s = (Ok u, s') -> s' = f s.
Proof. unfold modify. by intros [= _ <-]. Qed.

Lemma assert_ok b u (s s' : S) : assert_ b s = (Ok u, s') -> b = true /\ s' = s.
Proof. unfold assert_. by destruct b; intros [= _ <-]. Qed.

End monad_lemmas.

(** Take a successful run apart: [run_simple] finishes a primitive step,
    [run_step] splits one bind and finishes what is primitive, [run] goes on as
    long as the computation is a sequence of binds. *)
Ltac run_simple H :=
  match type of H with
  | ret _ _ = (Ok _, _) => apply ret_ok in H as [? ?]; subst
  | gets _ _ = (Ok _, _) => apply gets_ok in H as [? ?]; subst
  | modify _ _ = (Ok _, _) => apply modify_ok in H; subst
  | assert_ _ _ = (Ok _, _) => apply assert_ok in H as [H ?]; subst
  | throw _ _ = (Ok _, _) => discriminate H
  end.

Ltac run_step H :=
  match type of H with
  | bind _ _ _ = (Ok _, _) =>
      let a := fresh "a" in let s := fresh "s" in let Hr := fresh "Hr" in
      apply bind_ok in H as (a & s & Hr & H); try run_simple Hr
  | _ => run_simple H
  end.

Ltac run H := repeat run_step H.

(** Split on the first boolean test of the goal. *)
Ltac case_if :=
  match goal with
  | |- context [if ?b then _ else _] =>
      lazymatch b with
      | context [if _ then _ else _] => fail
      | _ => let E := fresh "E" in destruct b eqn:E
      end
  end.

(** Turn boolean tests among the hypotheses into propositions. *)
Ltac bool_hyps :=
  rewrite ?andb_true_iff, ?andb_false_iff, ?orb_true_iff, ?orb_false_iff,
    ?negb_true_iff, ?negb_false_iff, ?Z.eqb_eq, ?Z.eqb_neq, ?Z.ltb_lt, ?Z.ltb_ge,
    ?Z.leb_le, ?Z.leb_gt in *.
