(* ===== verification/Dfsan.v ===== *)
(** * The shared label format: [runtime/dfsan/dfsan.h] and [dfsan_platform.h]

    Label records, operator numbers, predicates, and the arithmetic that maps
    application memory to shadow memory. Both sides of the system use this file:
    the runtime fills the label table and the parsers read it. *)

From S2P Require Import Prelude.

(** ** LLVM's opcode numbers

    [enum operators] takes its numbers from [llvm/IR/Instruction.def], which is
    LLVM's file. The opcodes the source names are the fields; the laws are that
    file's order, that the two unary pseudo opcodes ([Not = 1], [Neg = 2]) lie
    below the first binary instruction, and that the whole range, with the ten
    opcodes SymSan adds after it, fits in the low byte of the [op] field. *)
Class InstructionDef := {
  Add : Z; Sub : Z; Mul : Z; UDiv : Z; SDiv : Z; URem : Z; SRem : Z;
  Shl : Z; LShr : Z; AShr : Z; And : Z; Or : Z; Xor : Z;
  Alloca : Z; Load : Z;
  Trunc : Z; ZExt : Z; SExt : Z; PtrToInt : Z; IntToPtr : Z; BitCast : Z;
  ICmp : Z;
  last_llvm_op : Z;
  instruction_order :
    2 < Add < Sub /\ Sub < Mul < UDiv /\ UDiv < SDiv < URem /\
    URem < SRem < Shl /\ Shl < LShr < AShr /\ AShr < And < Or /\
    Or < Xor < Alloca /\ Alloca < Load < Trunc /\ Trunc < ZExt < SExt /\
    SExt < PtrToInt < IntToPtr /\ IntToPtr < BitCast < ICmp /\ ICmp <= last_llvm_op /\
    last_llvm_op + 10 < 256
}.

(** The numbers of LLVM 14, the version the build asks for. *)
Definition llvm14 : InstructionDef.
Proof.
  refine {| Add := 13; Sub := 15; Mul := 17; UDiv := 19; SDiv := 20;
            URem := 22; SRem := 23; Shl := 25; LShr := 26; AShr := 27;
            And := 28; Or := 29; Xor := 30; Alloca := 31; Load := 32;
            Trunc := 38; ZExt := 39; SExt := 40; PtrToInt := 47; IntToPtr := 48;
            BitCast := 49; ICmp := 53; last_llvm_op := 67 |}.
  abstract lia.
Defined.

Section opcodes.
Context {LLVM : InstructionDef}.

Definition Not : Z := 1.
Definition Neg : Z := 2.
Definition Free : Z := last_llvm_op + 3.
Definition Extract : Z := last_llvm_op + 4.
Definition Concat : Z := last_llvm_op + 5.
Definition Arg : Z := last_llvm_op + 6.
Definition fmemcmp : Z := last_llvm_op + 7.
Definition fsize : Z := last_llvm_op + 8.
Definition fatoi : Z := last_llvm_op + 9.
Definition LastOp : Z := last_llvm_op + 10.

(** [is_commutative(unsigned char op)]: the argument is cut to a byte. *)
Definition is_commutative (op : Z) : bool :=
  let op := u8 op in
  (op =? Not) || (op =? And) || (op =? Or) || (op =? Xor) ||
  (op =? Add) || (op =? Mul) || (op =? fmemcmp).

End opcodes.

(** ** Predicates *)

Definition bveq : Z := 32.
Definition bvneq : Z := 33.
Definition bvugt : Z := 34.
Definition bvuge : Z := 35.
Definition bvult : Z := 36.
Definition bvule : Z := 37.
Definition bvsgt : Z := 38.
Definition bvsge : Z := 39.
Definition bvslt : Z := 40.
Definition bvsle : Z := 41.

Definition get_const_result (c1 c2 predicate : Z) : Z :=
  if predicate =? bveq then Z.b2z (c1 =? c2)
  else if predicate =? bvneq then Z.b2z (negb (c1 =? c2))
  else if predicate =? bvugt then Z.b2z (c2 <? c1)
  else if predicate =? bvuge then Z.b2z (c2 <=? c1)
  else if predicate =? bvult then Z.b2z (c1 <? c2)
  else if predicate =? bvule then Z.b2z (c1 <=? c2)
  else if predicate =? bvsgt then Z.b2z (s64 c2 <? s64 c1)
  else if predicate =? bvsge then Z.b2z (s64 c2 <=? s64 c1)
  else if predicate =? bvslt then Z.b2z (s64 c1 <? s64 c2)
  else if predicate =? bvsle then Z.b2z (s64 c1 <=? s64 c2)
  else 0.

(** ** Labels

    Field [f] of the source is [i_f] here. *)

Definition CONST_OFFSET : Z := 1.
Definition CONST_LABEL : Z := 0.
Definition kInitializingLabel : Z := 2 ^ 32 - 1.

Record dfsan_label_info := mk_info {
  i_l1 : Z;      (* dfsan_label *)
  i_l2 : Z;      (* dfsan_label *)
  i_op1 : Z;     (* data.i, 64 bits *)
  i_op2 : Z;     (* data.i, 64 bits *)
  i_op : Z;      (* uint16_t *)
  i_size : Z;    (* uint16_t *)
  i_hash : Z     (* uint32_t *)
}.

#[global] Instance dfsan_label_info_eq_dec : EqDecision dfsan_label_info.
Proof. solve_decision. Defined.

(** A label record of untouched (zero filled) memory. *)
Definition zero_info : dfsan_label_info := mk_info 0 0 0 0 0 0 0.

(** The label table, a sparse array over zero filled memory. *)
Definition info_at (t : gmap Z dfsan_label_info) (l : Z) : dfsan_label_info :=
  default zero_info (t !! l).

Definition uniontable_size : Z := 0xc00000000.
Definition sizeof_label_info : Z := 32.

(** ** Memory layout (Linux/x86_64) *)

Definition kKernelAddr : Z := 0x10000.
Definition kShadowAddr : Z := 0x100000.
Definition kHashTableAddr : Z := 0x400000000000.
Definition kUnionTableAddr : Z := 0x400100000000.
Definition kAppAddr : Z := 0x700000040000.
Definition kAppBaseAddr : Z := 0x700000000000.
Definition kShadowMask : Z := u64 (Z.lnot 0x700000000000).

Definition UnusedAddr : Z := kUnionTableAddr + uniontable_size.

Definition shadow_for (ptr : Z) : Z :=
  u64 (Z.shiftl (Z.land ptr kShadowMask) 2).

Definition app_for (l : Z) : Z :=
  Z.lor (Z.shiftr l 2) kAppBaseAddr.

(** ** Messages to an out of process solver *)

Inductive pipe_msg_type :=
  cond_type | gep_type | memcmp_type | fsize_type | memerr_type | cover_type.

Definition TrueBranchLoopLatch : Z := 0x8.
Definition FalseBranchLoopLatch : Z := 0x4.
Definition TrueBranchLoopExit : Z := 0x2.
Definition FalseBranchLoopExit : Z := 0x1.
Definition LoopFlagMask : Z := 0xF.
Definition UndefinedCheck : Z := 0x10.

(** [enum undefined_check_ids] *)
Definition ub_integer_overflow : Z := 1.
Definition ub_division_by_zero : Z := 2.
Definition ub_shift_exponent : Z := 3.
Definition ub_shift_overflow : Z := 4.
Definition ub_shift_base : Z := 5.
Definition ub_index_underflow : Z := 6.
Definition ub_index_overflow : Z := 7.
Definition ub_integer_to_buffer_overflow : Z := 8.
Definition ub_null_pointer : Z := 9.
Definition ub_unsigned_integer_truncation : Z := 10.
Definition ub_signed_integer_truncation : Z := 11.

Definition F_MEMERR_UAF : Z := 0x1.
Definition F_MEMERR_OLB : Z := 0x2.
Definition F_MEMERR_OUB : Z := 0x4.
Definition F_MEMERR_UBI : Z := 0x8.
Definition F_MEMERR_NULL : Z := 0x10.
Definition F_MEMERR_FREE : Z := 0x20.

(** ** Deciding operator tests

    [ops] evaluates every test between two known operator numbers, from the
    order of the opcodes. *)

Ltac unfold_ops :=
  unfold Not, Neg, Free, Extract, Concat, Arg, fmemcmp, fsize, fatoi, LastOp in *.

Ltac ops_step :=
  match goal with
  | |- context [?a =? ?a] => rewrite (Z.eqb_refl a)
  | |- context [?a =? ?b] =>
      replace (a =? b) with false
        by (symmetry; apply Z.eqb_neq; unfold_ops; lia)
  | H : context [?a =? ?a] |- _ => rewrite (Z.eqb_refl a) in H
  end.

Ltac ops := pose proof instruction_order as Hops; repeat ops_step; simpl; clear Hops.
