(* ===== verification/HashTable.v ===== *)
(** * The deduplication table: [taint_allocator.cpp], [union_util.cpp] and
      [union_hashtable.cpp]

    A chained hash table from label records to labels. An entry does not hold a
    copy of its key but a pointer into the label table, so [lookup] compares with
    what the label table holds at that moment. One thread uses the table: the
    compare-and-swap of [insert] succeeds at once. *)

From S2P Require Import Prelude Dfsan.
Local Open Scope prog_scope.

(** ** The bump allocator *)

Record allocator := mk_alloc {
  begin_addr : Z;
  next_usable_byte : Z;
  end_addr : Z
}.

Definition allocator_init (begin end_ : Z) : allocator :=
  mk_alloc begin begin end_.

Definition allocator_alloc (sz : Z) : M allocator Z := fun a =>
  if begin_addr a =? 0 then (Err Died, a)
  else
    let retval := next_usable_byte a in
    let a' := mk_alloc (begin_addr a) (u64 (retval + sz)) (end_addr a) in
    if end_addr a <=? u64 (retval + sz) then (Err Died, a') else (Ok retval, a').

(** ** Keys *)

(** [operator==(const dfsan_label_info&, const dfsan_label_info&)]: everything
    but the hash. *)
Definition info_eqb (lhs rhs : dfsan_label_info) : bool :=
  (i_l1 lhs =? i_l1 rhs) && (i_l2 lhs =? i_l2 rhs) && (i_op lhs =? i_op rhs) &&
  (i_size lhs =? i_size rhs) && (i_op1 lhs =? i_op1 rhs) &&
  (i_op2 lhs =? i_op2 rhs).

(** ** The table *)

Record union_hashtable_entry := mk_entry {
  e_key : Z;     (* index of the label record [key] points to *)
  e_entry : Z    (* dfsan_label *)
}.

(** A bucket is the chain its head pointer starts, first entry first. *)
Record union_hashtable := mk_ht {
  bucket_size : Z;
  bucket : gmap Z (list union_hashtable_entry)
}.

Definition sizeof_bucket : Z := 8.

(** The constructor: the array of buckets comes from the allocator. *)
Definition hashtable_new (n : Z) : M allocator union_hashtable :=
  let! _ := allocator_alloc (u64 (n * sizeof_bucket)) in
  ret (mk_ht n ∅).

Definition ht_hash (h : union_hashtable) (key : dfsan_label_info) : Z :=
  Z.land (i_hash key) (bucket_size h - 1).

Definition chain (h : union_hashtable) (i : Z) : list union_hashtable_entry :=
  default [] (bucket h !! i).

Definition ht_insert (t : gmap Z dfsan_label_info) (key entry : Z)
    (h : union_hashtable) : union_hashtable :=
  let index := ht_hash h (info_at t key) in
  mk_ht (bucket_size h)
        (<[index := mk_entry key entry :: chain h index]> (bucket h)).

Fixpoint chain_lookup (t : gmap Z dfsan_label_info) (key : dfsan_label_info)
    (c : list union_hashtable_entry) : option Z :=
  match c with
  | [] => None
  | e :: c' => if info_eqb (info_at t (e_key e)) key then Some (e_entry e)
               else chain_lookup t key c'
  end.

Definition ht_lookup (t : gmap Z dfsan_label_info) (key : dfsan_label_info)
    (h : union_hashtable) : option Z :=
  chain_lookup t key (chain h (ht_hash h key)).
