(* ===== verification/Runtime.v ===== *)
(** * The label runtime: [runtime/dfsan/dfsan.cpp]

    The functions instrumented code calls: label creation and deduplication
    ([__taint_union]), loads and stores of labels in shadow memory, the stack of
    bounds labels, bounds checking and solving, and the taint sources. *)

From S2P Require Import Prelude Dfsan HashTable.
Local Open Scope prog_scope.

(** ** State *)

(** The flags of [dfsan_flags.inc] the runtime's behaviour depends on. *)
Record Flags := mk_flags {
  trace_bounds : bool;
  solve_ub : bool;
  exit_on_memerror : bool;
  force_stdin : bool
}.

(** Calls out of the runtime into the tracing back end, in order. *)
Inductive event :=
  | trace_cond (label r flag cid : Z)
  | trace_memerr (addr_label addr size_label sz flag : Z).

Record runtime := mk_rt {
  last_label : Z;                       (* __dfsan_last_label *)
  infos : gmap Z dfsan_label_info;      (* __dfsan_label_info *)
  alloca_stack_bottom : Z;
  alloca_stack_top : Z;
  saved_alloca_stack_top : gmap Z Z;    (* array of MAX_SAVED_STACK_ENTRIES *)
  current_saved_stack_index : Z;
  union_table : union_hashtable;
  alloc : allocator;
  shadow : gmap Z Z;                    (* shadow address -> dfsan_label *)
  app : gmap Z Z;                       (* application address -> byte *)
  events : list event                   (* newest first *)
}.

Definition MAX_SAVED_STACK_ENTRIES : Z := 1024.
Definition hashtable_size : Z := 2 ^ 32.
Definition hashtable_buckets : Z := 2 ^ 20.
Definition sizeof_entry : Z := 24.

Definition set_last x s := mk_rt x (infos s) (alloca_stack_bottom s)
  (alloca_stack_top s) (saved_alloca_stack_top s) (current_saved_stack_index s)
  (union_table s) (alloc s) (shadow s) (app s) (events s).
Definition set_infos x s := mk_rt (last_label s) x (alloca_stack_bottom s)
  (alloca_stack_top s) (saved_alloca_stack_top s) (current_saved_stack_index s)
  (union_table s) (alloc s) (shadow s) (app s) (events s).
Definition set_top x s := mk_rt (last_label s) (infos s) (alloca_stack_bottom s)
  x (saved_alloca_stack_top s) (current_saved_stack_index s)
  (union_table s) (alloc s) (shadow s) (app s) (events s).
Definition set_saved x i s := mk_rt (last_label s) (infos s)
  (alloca_stack_bottom s) (alloca_stack_top s) x i
  (union_table s) (alloc s) (shadow s) (app s) (events s).
Definition set_table x s := mk_rt (last_label s) (infos s)
  (alloca_stack_bottom s) (alloca_stack_top s) (saved_alloca_stack_top s)
  (current_saved_stack_index s) x (alloc s) (shadow s) (app s) (events s).
Definition set_alloc x s := mk_rt (last_label s) (infos s)
  (alloca_stack_bottom s) (alloca_stack_top s) (saved_alloca_stack_top s)
  (current_saved_stack_index s) (union_table s) x (shadow s) (app s) (events s).
Definition set_shadow x s := mk_rt (last_label s) (infos s)
  (alloca_stack_bottom s) (alloca_stack_top s) (saved_alloca_stack_top s)
  (current_saved_stack_index s) (union_table s) (alloc s) x (app s) (events s).
Definition add_event e s := mk_rt (last_label s) (infos s)
  (alloca_stack_bottom s) (alloca_stack_top s) (saved_alloca_stack_top s)
  (current_saved_stack_index s) (union_table s) (alloc s) (shadow s) (app s)
  (e :: events s).

(** The state before any taint source is set up: [dfsan_init], which runs before
    the constructors, and the constructor of [__union_table], which has memory
    enough. *)
Definition dfsan_init : runtime :=
  let num_of_labels := uniontable_size / sizeof_label_info in
  let alloc := allocator_init kHashTableAddr (kHashTableAddr + hashtable_size) in
  mk_rt 0 {[ CONST_LABEL := mk_info 0 0 0 0 0 8 0 ]}
    (num_of_labels - 2) (num_of_labels - 2) ∅ 0
    (match fst (hashtable_new hashtable_buckets alloc) with Ok h => h | Err _ => mk_ht 0 ∅ end)
    (snd (hashtable_new hashtable_buckets alloc)) ∅ ∅ [].

Definition get_label_info (l : Z) (s : runtime) : dfsan_label_info :=
  info_at (infos s) l.

Definition label_at (addr : Z) (s : runtime) : Z := default 0 (shadow s !! addr).
Definition byte_at (addr : Z) (s : runtime) : Z := default 0 (app s !! addr).

(** [ls[i]] for a label pointer [ls]; labels are four bytes wide. *)
Definition ls_at (ls i : Z) (s : runtime) : Z := label_at (ls + 4 * i) s.
Definition ls_set (ls i v : Z) (s : runtime) : runtime :=
  set_shadow (<[ls + 4 * i := v]> (shadow s)) s.

Definition is_constant_label (label : Z) : bool := label =? CONST_LABEL.

Definition xxhash (h1 h2 h3 : Z) : Z :=
  let PRIME32_2 := 2246822519 in
  let PRIME32_3 := 3266489917 in
  let PRIME32_4 := 668265263 in
  let PRIME32_5 := 374761393 in
  let rotl32 x r := Z.lor (u32 (Z.shiftl x r)) (Z.shiftr x (32 - r)) in
  let h32 := PRIME32_5 in
  let h32 := u32 (h32 + u32 (h1 * PRIME32_3)) in
  let h32 := u32 (rotl32 h32 17 * PRIME32_4) in
  let h32 := u32 (h32 + u32 (h2 * PRIME32_3)) in
  let h32 := u32 (rotl32 h32 17 * PRIME32_4) in
  let h32 := u32 (h32 + u32 (h3 * PRIME32_3)) in
  let h32 := u32 (rotl32 h32 17 * PRIME32_4) in
  let h32 := Z.lxor h32 (Z.shiftr h32 15) in
  let h32 := u32 (h32 * PRIME32_2) in
  let h32 := Z.lxor h32 (Z.shiftr h32 13) in
  let h32 := u32 (h32 * PRIME32_3) in
  Z.lxor h32 (Z.shiftr h32 16).

(** [internal_memcpy(&dst, (void* )addr, len)] into a 64-bit variable, [len <= 8]:
    the low [len] bytes are replaced, the others keep what they held. *)
Fixpoint load_le (addr : Z) (len : nat) (s : runtime) : Z :=
  match len with
  | O => 0
  | S n => byte_at addr s + 256 * load_le (addr + 1) n s
  end.
Definition memcpy_var (dst addr len : Z) (s : runtime) : Z :=
  Z.shiftl (Z.shiftr dst (8 * len)) (8 * len) + load_le addr (Z.to_nat len) s.

(** [__builtin_clzl] on a non-zero argument. *)
Definition clzl (x : Z) : Z := 63 - Z.log2 x.

Section runtime.
Context {LLVM : InstructionDef} (flags : Flags).

Definition is_kind_of_label (label kind : Z) (s : runtime) : bool :=
  i_op (get_label_info label s) =? kind.

Definition is_valid_op (op : Z) : bool :=
  let op := Z.land op 0xff in
  ((Add <=? op) && (op <? LastOp)) || (op =? Not).

(** Dies when labels run out. *)
Definition dfsan_check_label (label : Z) : M runtime unit := fun s =>
  if label =? kInitializingLabel then (Err Died, s)
  else if alloca_stack_top s <=? label then (Err Died, s)
  else (Ok tt, s).

(** [atomic_fetch_add(&__dfsan_last_label, 1) + 1], then the check. *)
Definition fresh_label : M runtime Z :=
  let! last := gets last_label in
  modify (set_last (u32 (last + 1))) ;;;
  let label := u32 (last + 1) in
  dfsan_check_label label ;;;
  ret label.

Definition table_insert (label : Z) : M runtime unit := fun s =>
  match allocator_alloc sizeof_entry (alloc s) with
  | (Err e, a) => (Err e, set_alloc a s)
  | (Ok _, a) =>
      (Ok tt, set_table (ht_insert (infos s) label label (union_table s))
                        (set_alloc a s))
  end.

Definition emit (e : event) : M runtime unit := modify (add_event e).

Definition Die {A} : M runtime A := throw Died.

(** ** [__taint_union] *)

(** "special handling for bounds": what the function returns when an operand is
    a bounds label, or nothing if it goes on. *)
Definition union_bounds (s : runtime) (l1 l2 op : Z) : option Z :=
  if is_kind_of_label l1 Alloca s ||
     (negb (op =? Load) && is_kind_of_label l2 Alloca s)
  then
    if op =? BitCast then Some l1
    else if op =? PtrToInt then Some 0
    else if Z.land op 0xff =? ICmp then Some 0
    else if negb (op =? Extract) then Some 0
    else None
  else None.

(** The concrete operands as they are recorded in the label. *)
Definition union_operands (s : runtime) (l1 l2 op size op1 op2 : Z) : Z * Z :=
  if op =? fmemcmp then
    let len := if 8 <? size then 8 else size in
    (if CONST_OFFSET <=? l1 then memcpy_var op1 op1 len s else op1,
     if CONST_OFFSET <=? l2 then memcpy_var op2 op2 len s else op2)
  else if negb (op =? Alloca) && negb (Z.land op 0xff =? ICmp) &&
          negb (op =? fatoi) then
    (if CONST_OFFSET <=? l1 then 0 else op1,
     if CONST_OFFSET <=? l2 then 0 else op2)
  else (op1, op2).

(** "try simple simplifications, from qsym": [inl l] when the function returns
    [l], [inr op'] when it goes on with operator [op']. First the tests of a
    constant left operand. *)
Definition simplify_left (l1 l2 op size op1 : Z) : Z + Z :=
  let op1_is_zero := (l1 =? 0) && (op1 =? 0) in
  let op1_is_all_one := (l1 =? 0) && (op1 =? u64 (shl64 1 size - 1)) in
  if op1_is_zero then
    if (op =? And) || (op =? Mul) || (op =? Shl) then inl 0
    else if (op =? Or) || (op =? Xor) || (op =? Add) then inl l2
    else inr op
  else if op1_is_all_one then
    if op =? And then inl l2
    else if op =? Or then inl 0
    else if (op =? Xor) && (size =? 1) then inr Not
    else inr op
  else inr op.

(** Then a zero right operand, casts that undo each other, [x ^ x]. *)
Definition simplify_right (s : runtime) (l1 l2 op size op2 : Z) : Z + Z :=
  let op2_is_zero := (l2 =? 0) && (op2 =? 0) in
  if op2_is_zero &&
     ((op =? Sub) || (op =? Shl) || (op =? LShr) || (op =? AShr))
  then inl l1
  else if op =? Trunc then
    let i1 := get_label_info l1 s in
    if ((i_op i1 =? ZExt) || (i_op i1 =? SExt)) &&
       (size =? i_size (get_label_info (i_l1 i1) s))
    then inl (i_l1 i1)
    else inr op
  else if (op =? Xor) && (l1 =? l2) then inl 0
  else inr op.

Definition union_simplify (s : runtime) (l1 l2 op size op1 op2 : Z) : Z + Z :=
  match simplify_left l1 l2 op size op1 with
  | inl l => inl l
  | inr op => simplify_right s l1 l2 op size op2
  end.

(** The record a new label is given. *)
Definition union_info (s : runtime) (l1 l2 op size op1 op2 : Z)
    : dfsan_label_info :=
  let h1 := if l1 =? 0 then 0 else i_hash (get_label_info l1 s) in
  let h2 := if l2 =? 0 then 0 else i_hash (get_label_info l2 s) in
  let h3 := Z.lor (u32 (Z.shiftl op 16)) size in
  mk_info l1 l2 op1 op2 op size (xxhash h1 h2 h3).

Definition icmp (pred : Z) : Z := Z.lor (Z.shiftl pred 8) ICmp.

Section with_recursion.
(** The recursive call of [__taint_union]. *)
Variable recur : Z -> Z -> Z -> Z -> Z -> Z -> M runtime Z.

(** One undefined-behaviour query: union a condition, hand it to the tracer. *)
Definition ub_query (guard : bool) (l1 op size op1 op2 cid : Z)
    : M runtime unit :=
  if guard then
    let! cond := recur l1 0 op size op1 op2 in
    emit (trace_cond cond 0 UndefinedCheck cid)
  else ret tt.

Definition union_ub_checks (l1 l2 op size orig_op1 orig_op2 : Z)
    : M runtime unit :=
  let! op_size := gets (fun s => i_size (get_label_info l2 s)) in
  let o := Z.land op 0xff in
  if (o =? UDiv) || (o =? SDiv) || (o =? URem) || (o =? SRem) then
    ub_query (negb (orig_op2 =? 0)) l2 (icmp bveq) size orig_op2 0
      ub_division_by_zero
  else if (o =? Shl) || (o =? LShr) || (o =? AShr) then
    let headroom := u64 (clzl orig_op1 - (64 - size)) in
    ub_query (orig_op2 <? size) l2 (icmp bvuge) op_size orig_op2 size
      ub_shift_exponent ;;;
    ub_query (0 <=? s64 orig_op2) l2 (icmp bvslt) op_size orig_op2 0
      ub_shift_exponent ;;;
    ub_query ((op =? Shl) && negb (orig_op1 =? 0) && (orig_op2 <=? headroom))
      l2 (icmp bvugt) op_size orig_op2 headroom ub_shift_overflow ;;;
    let! size1 := gets (fun s => i_size (get_label_info l1 s)) in
    ub_query (negb (l1 =? 0) && (0 <=? s64 orig_op1)) l1 (icmp bvslt) size1
      orig_op1 0 ub_shift_base
  else ret tt.

Definition union_trunc_checks (l1 size orig_op1 : Z) : M runtime unit :=
  let! old_size := gets (fun s => i_size (get_label_info l1 s)) in
  ub_query (orig_op1 <? shl64 1 size) l1 (icmp bvuge) old_size orig_op1
    (shl64 1 size) ub_unsigned_integer_truncation ;;;
  let target := shl64 (shr64 (2 ^ 64 - 1) (size - 1)) (size - 1) in
  let target' := if old_size <? 64
                 then Z.land target (u64 (Z.lnot (shl64 1 old_size)))
                 else target in
  ub_query (s64 target <=? s64 orig_op1) l1 (icmp bvslt) old_size orig_op1
    target' ub_signed_integer_truncation.

(** From the deduplication lookup to the end: the new label's record is
    [info]; [orig_op1], [orig_op2] are the operands before they were reduced. *)
Definition union_intern (info : dfsan_label_info) (orig_op1 orig_op2 : Z)
    : M runtime Z :=
  let! found := gets (fun s => ht_lookup (infos s) info (union_table s)) in
  match found with
  | Some label => ret label
  | None =>
      (if negb (i_l2 info =? 0) && solve_ub flags
       then union_ub_checks (i_l1 info) (i_l2 info) (i_op info) (i_size info)
              orig_op1 orig_op2
       else ret tt) ;;;
      let! label := fresh_label in
      assert_ ((i_l1 info <? label) && (i_l2 info <? label)) ;;;
      modify (fun s => set_infos (<[label := info]> (infos s)) s) ;;;
      table_insert label ;;;
      (if negb (i_l1 info =? 0) && (i_op info =? Trunc) && solve_ub flags
       then union_trunc_checks (i_l1 info) (i_size info) orig_op1
       else ret tt) ;;;
      ret label
  end.

Definition taint_union_with (l1 l2 op size op1 op2 : Z) : M runtime Z :=
  if negb (is_valid_op op) then ret 0 else
  let '(l1, l2, op1, op2) :=
    if (l2 <? l1) && is_commutative op then (l2, l1, op2, op1)
    else (l1, l2, op1, op2) in
  if (l1 =? 0) && (l2 <? CONST_OFFSET) && negb (op =? fsize) &&
     negb (op =? Alloca)
  then ret 0
  else if (l1 =? kInitializingLabel) || (l2 =? kInitializingLabel)
  then ret kInitializingLabel
  else
    let! s := gets id in
    match union_bounds s l1 l2 op with
    | Some r => ret r
    | None =>
        let '(rop1, rop2) := union_operands s l1 l2 op size op1 op2 in
        match union_simplify s l1 l2 op size rop1 rop2 with
        | inl r => ret r
        | inr op' =>
            union_intern (union_info s l1 l2 op' size rop1 rop2) op1 op2
        end
    end.

End with_recursion.

(** [__taint_union] calls itself only to build the conditions of its
    undefined-behaviour queries, which are comparisons and make no queries of
    their own: two levels are enough ([taint_union_total]). *)
Fixpoint taint_union_fuel (fuel : nat) (l1 l2 op size op1 op2 : Z)
    : M runtime Z :=
  match fuel with
  | O => throw NoFuel
  | S n => taint_union_with (taint_union_fuel n) l1 l2 op size op1 op2
  end.

Definition taint_union : Z -> Z -> Z -> Z -> Z -> Z -> M runtime Z :=
  taint_union_fuel 2.

(** ** Shadow memory *)

(** The loop of "fast path 1": [Some true] when every label from [i] on equals
    [label0], [Some false] when one differs first, [None] when an uninitialised
    label comes first. *)
Fixpoint load_same (s : runtime) (ls label0 i : Z) (k : nat) : option bool :=
  match k with
  | O => Some true
  | S k' =>
      if ls_at ls i s =? kInitializingLabel then None
      else if negb (ls_at ls i s =? label0) then Some false
      else load_same s ls label0 (i + 1) k'
  end.

(** The loop of the shape test: the labels from [i] on record the offsets that
    follow [offset]. *)
Fixpoint load_shape (s : runtime) (ls offset i : Z) (k : nat) : option bool :=
  match k with
  | O => Some true
  | S k' =>
      if ls_at ls i s =? kInitializingLabel then None
      else if negb (i_op1 (get_label_info (ls_at ls i s) s) =? u64 (offset + i))
      then Some false
      else load_shape s ls offset (i + 1) k'
  end.

(** The loop of "fast path 2": how many bits of [parent] the labels from [i] on
    extract in order, starting from [offset]. *)
Fixpoint load_extracts (s : runtime) (ls parent offset i : Z) (k : nat)
    : option Z :=
  match k with
  | O => Some offset
  | S k' =>
      if ls_at ls i s =? kInitializingLabel then None
      else
        let info := get_label_info (ls_at ls i s) s in
        if negb (i_op info =? Extract) || negb (offset =? i_op2 info) ||
           negb (parent =? i_l1 info)
        then Some offset
        else load_extracts s ls parent (offset + i_size info) (i + 1) k'
  end.

(** [*c] for a [char *c], widened to the [uint64_t] parameter. *)
Definition char_at (addr : Z) (s : runtime) : Z :=
  u64 (signed 8 (byte_at addr s)).

(** The slow path: concatenate what the bytes hold. *)
Fixpoint load_slow (fuel : nat) (ls n i label : Z) : M runtime Z :=
  if n <=? i then ret label else
  match fuel with
  | O => throw NoFuel
  | S fuel' =>
      let! next_label := gets (ls_at ls i) in
      if next_label =? kInitializingLabel then ret kInitializingLabel
      else
        let! next_size := gets (fun s => i_size (get_label_info next_label s)) in
        if negb (is_constant_label next_label) then
          if next_size <=? u64 ((n - i) * 8) then
            let i' := i + next_size / 8 in
            let! label' := taint_union label next_label Concat (u16 (i' * 8)) 0 0 in
            load_slow fuel' ls n i' label'
          else
            let! trunc := taint_union next_label CONST_LABEL Trunc
                            (u16 ((n - i) * 8)) 0 0 in
            taint_union label trunc Concat (u16 (n * 8)) 0 0
        else
          let! c := gets (char_at (app_for (ls + 4 * i))) in
          let! label' := taint_union label 0 Concat (u16 ((i + 1) * 8)) 0 c in
          load_slow fuel' ls n (i + 1) label'
  end.

Definition taint_union_load (ls n : Z) : M runtime Z :=
  if ls <? 4096 then ret 0 else
  let! s := gets id in
  let label0 := ls_at ls 0 s in
  if label0 =? kInitializingLabel then ret kInitializingLabel else
  assert_ (if CONST_OFFSET <=? label0
           then negb (i_size (get_label_info label0 s) =? 0) else true) ;;;
  let rest := Z.to_nat (n - 1) in
  (* the counter of the shape loop passes an [n] of 0: the loop goes on to the first
     label that does not fit, at the latest the one behind the labels in memory *)
  let shape_rest := if n =? 0 then S (size (shadow s)) else rest in
  (* fast path 1: constant and bounds *)
  match (if is_constant_label label0 || is_kind_of_label label0 Alloca s
         then load_same s ls label0 1 rest else Some false) with
  | None => ret kInitializingLabel
  | Some true => ret label0
  | Some false =>
  (* shape *)
  match (if negb (i_op (get_label_info label0 s) =? 0) then Some false
         else load_shape s ls (i_op1 (get_label_info label0 s)) 1 shape_rest) with
  | None => ret kInitializingLabel
  | Some true =>
      if n =? 1 then ret label0
      else taint_union label0 (u32 n) Load (u16 (n * 8)) 0 0
  | Some false =>
  (* fast path 2: all labels are extracted from a n-size label *)
  match (if is_kind_of_label label0 Extract s
         then
           let parent := i_l1 (get_label_info label0 s) in
           match load_extracts s ls parent 0 0 (Z.to_nat n) with
           | None => None
           | Some offset =>
               Some (if (i_size (get_label_info parent s) =? offset) &&
                        (offset =? n * 8)
                     then Some parent else None)
           end
         else Some None) with
  | None => ret kInitializingLabel
  | Some (Some parent) => ret parent
  | Some None =>
      (* slowpath *)
      load_slow (Z.to_nat n) ls n (i_size (get_label_info label0 s) / 8) label0
  end end end.

(** [for (i = 0; i < n; ++i) ls[i] = f(i);] *)
Fixpoint store_loop (ls i : Z) (k : nat) (f : Z -> M runtime Z) : M runtime unit :=
  match k with
  | O => ret tt
  | S k' =>
      let! v := f i in
      modify (ls_set ls i v) ;;;
      store_loop ls (i + 1) k' f
  end.

Definition taint_union_store (l ls n : Z) : M runtime unit :=
  if ls <? 4096 then ret tt else
  let! s := gets id in
  let count := Z.to_nat n in
  if l =? kInitializingLabel then store_loop ls 0 count (fun _ => ret l)
  else
    assert_ ((l <=? last_label s) || (alloca_stack_top s <=? l)) ;;;
    (* fast path 1: constant and bounds *)
    if (l =? 0) || is_kind_of_label l Alloca s
    then store_loop ls 0 count (fun _ => ret l)
    else
      let info := get_label_info l s in
      (* fast path 2: single byte *)
      if (n =? 1) && (i_size info =? 8) then modify (ls_set ls 0 l)
      (* fast path 3: load *)
      else if is_kind_of_label l Load s
      then store_loop ls 0 count (fun i => ret (u32 (i_l1 info + i)))
      (* default fall through *)
      else store_loop ls 0 count
             (fun i => taint_union l CONST_LABEL Extract 8 0 (i * 8)).

(** A label is not written over an equal one. *)
Fixpoint set_label_loop (label labelp : Z) (k : nat) : M runtime unit :=
  match k with
  | O => ret tt
  | S k' =>
      let! old := gets (label_at labelp) in
      (if label =? old then ret tt
       else modify (fun s => set_shadow (<[labelp := label]> (shadow s)) s)) ;;;
      set_label_loop label (labelp + 4) k'
  end.

Definition dfsan_set_label (label addr sz : Z) : M runtime unit :=
  if addr =? 0 then ret tt
  else set_label_loop label (shadow_for addr) (Z.to_nat sz).

Definition dfsan_add_label (label op addr sz : Z) : M runtime unit :=
  let ls := shadow_for addr in
  store_loop ls 0 (Z.to_nat sz)
    (fun i => let! l := gets (ls_at ls i) in taint_union l label op 1 0 0).

Definition dfsan_store_label (l addr sz : Z) : M runtime unit :=
  if l =? 0 then ret tt else taint_union_store l (shadow_for addr) sz.

Definition dfsan_read_label (addr sz : Z) : M runtime Z :=
  if sz =? 0 then ret 0 else taint_union_load (shadow_for addr) sz.

Definition dfsan_get_label (addr : Z) : M runtime Z :=
  gets (label_at (shadow_for addr)).

(** [dfsan_has_label], with fuel for the walk down the label graph. *)
Fixpoint dfsan_has_label (fuel : nat) (label elem : Z) : M runtime bool :=
  match fuel with
  | O => throw NoFuel
  | S n =>
      if (label =? kInitializingLabel) || (elem =? kInitializingLabel)
      then ret false
      else if label =? elem then ret true
      else
        dfsan_check_label label ;;;
        let! info := gets (get_label_info label) in
        if negb (i_l1 info =? 0) then dfsan_has_label n (i_l1 info) elem
        else if negb (i_l2 info =? 0) then dfsan_has_label n (i_l2 info) elem
        else ret false
  end.

(** ** Input labels *)

Definition dfsan_create_label (offset : Z) : M runtime Z :=
  let! label := fresh_label in
  modify (fun s =>
    set_infos (<[label := mk_info 0 0 (u64 offset) 0 0 8 (xxhash (u32 offset) 0 8)]>
                 (infos s)) s) ;;;
  ret label.

(** The loop at the end of [InitializeTaintFile]: one label for each byte of
    the input. *)
Fixpoint create_labels (i : Z) (k : nat) : M runtime unit :=
  match k with
  | O => ret tt
  | S k' =>
      let! label := dfsan_create_label i in
      dfsan_check_label label ;;;
      create_labels (i + 1) k'
  end.

(** ** Bounds *)

(** Reading and writing element [i] of an array of [n] words, of which the map has
    those that were written; outside the array both are undefined. *)
Definition array_get (n i : Z) (a : gmap Z Z) : res Z :=
  if (0 <=? i) && (i <? n) then Ok (default 0 (a !! i)) else Err Undefined.
Definition array_set (n i v : Z) (a : gmap Z Z) : res (gmap Z Z) :=
  if (0 <=? i) && (i <? n) then Ok (<[i := v]> a) else Err Undefined.

Definition taint_push_stack_frame : M runtime unit :=
  if trace_bounds flags then
    let! s := gets id in
    if current_saved_stack_index s <? MAX_SAVED_STACK_ENTRIES then
      let i := current_saved_stack_index s + 1 in
      let! saved := lift (array_set MAX_SAVED_STACK_ENTRIES i (alloca_stack_top s)
                            (saved_alloca_stack_top s)) in
      modify (set_saved saved i)
    else ret tt
  else ret tt.

Definition taint_pop_stack_frame : M runtime unit :=
  if trace_bounds flags then
    let! s := gets id in
    let i := current_saved_stack_index s in
    let! top := lift (array_get MAX_SAVED_STACK_ENTRIES i (saved_alloca_stack_top s)) in
    modify (fun s => set_saved (saved_alloca_stack_top s) (i - 1) (set_top top s))
  else ret tt.

Definition taint_trace_alloca (l sz elem_size base : Z) : M runtime Z :=
  if trace_bounds flags then
    let! old := gets alloca_stack_top in
    let top := u32 (old - 1) in
    let bytes := u64 (sz * elem_size) in
    modify (set_top top) ;;;
    modify (fun s => set_infos
      (<[top := mk_info 0 l base (u64 (base + bytes)) Alloca 64 0]> (infos s)) s) ;;;
    dfsan_set_label kInitializingLabel base bytes ;;;
    ret top
  else ret 0.

Definition taint_trace_global (addr sz : Z) : M runtime Z :=
  if trace_bounds flags then
    let info := mk_info 0 0 addr (u64 (addr + sz)) Alloca 64
                  (xxhash (u32 addr) (u32 (Z.shiftr addr 32)) Alloca) in
    let! found := gets (fun s => ht_lookup (infos s) info (union_table s)) in
    match found with
    | Some label => ret label
    | None =>
        let! label := fresh_label in
        modify (fun s => set_infos (<[label := info]> (infos s)) s) ;;;
        table_insert label ;;;
        ret label
    end
  else ret 0.

(** Report a memory error, then stop or carry on. *)
Definition memerr (addr_label addr size_label sz flag : Z) : M runtime unit :=
  emit (trace_memerr addr_label addr size_label sz flag) ;;;
  if exit_on_memerror flags then Die else ret tt.

Definition taint_check_bounds (addr_label addr size_label sz : Z)
    : M runtime unit :=
  if trace_bounds flags then
    if addr =? 0 then memerr addr_label addr size_label sz F_MEMERR_NULL
    else if addr_label =? kInitializingLabel
    then memerr addr_label addr size_label sz F_MEMERR_UBI
    else
      let! info := gets (get_label_info addr_label) in
      if i_op info =? Free
      then memerr addr_label addr size_label sz F_MEMERR_UAF
      else if i_op info =? Alloca then
        if addr <? i_op1 info
        then memerr addr_label addr size_label sz F_MEMERR_OLB
        else if (i_op2 info <? u64 (addr + sz)) || (u64 (addr + sz) <? i_op1 info)
        then memerr addr_label addr size_label sz F_MEMERR_OUB
        else ret tt
      else ret tt
  else ret tt.

(** Union a condition over an index and hand it to the tracer. *)
Definition solve_query (l1 l2 op size op1 op2 cid : Z) : M runtime unit :=
  let! cond := taint_union l1 l2 op size op1 op2 in
  emit (trace_cond cond 0 UndefinedCheck cid).

Definition taint_solve_bounds (ptr_label ptr index_label index num_elems
    elem_size current_offset : Z) : M runtime unit :=
  if (index_label =? 0) || negb (solve_ub flags) then ret tt
  else if index_label =? kInitializingLabel
  then memerr ptr_label ptr index_label index F_MEMERR_UBI
  else if ptr_label =? kInitializingLabel
  then memerr ptr_label ptr index_label index F_MEMERR_UBI
  else
    let! index_bits := gets (fun s => i_size (get_label_info index_label s)) in
    if 0 <? num_elems then
      (* array with known size *)
      solve_query index_label 0 (icmp bvslt) index_bits index 0
        ub_index_underflow ;;;
      solve_query index_label 0 (icmp bvsge) index_bits index num_elems
        ub_index_overflow
    else
      let! bounds_info := gets (get_label_info ptr_label) in
      if i_op bounds_info =? Alloca then
        let! index_label :=
          if index_bits <? 64 then taint_union index_label 0 ZExt 64 index 0
          else ret index_label in
        if i_l2 bounds_info =? 0 then
          (* concrete allocation size *)
          let rel x := u64 (u64 (x - current_offset) - ptr) in
          let! lower_bound :=
            if elem_size =? 0 then throw Undefined
            else ret (rel (i_op1 bounds_info) / elem_size) in
          solve_query index_label 0 (icmp bvult) 64 index lower_bound
            ub_index_underflow ;;;
          solve_query index_label 0 (icmp bvuge) 64 index
            (rel (i_op2 bounds_info) / elem_size) ub_index_overflow
        else
          let! size_label :=
            if elem_size =? 1 then ret index_label
            else taint_union index_label 0 Mul 64 index elem_size in
          let sz := u64 (index * elem_size) in
          let offset := u64 (u64 (current_offset + ptr) - i_op1 bounds_info) in
          (* the source assigns the concrete size here, not the size's label *)
          let! size_label :=
            if offset =? 0 then ret (u32 sz)
            else taint_union size_label 0 Add 64 sz offset in
          let alloc_size := u64 (i_op2 bounds_info - i_op1 bounds_info) in
          solve_query size_label (i_l2 bounds_info) (icmp bvugt) 64
            (u64 (sz + offset)) alloc_size ub_integer_to_buffer_overflow
      else
        (* the source passes the bare predicate number as the operator *)
        solve_query ptr_label 0 bveq 64 ptr 0 ub_null_pointer.

End runtime.
