(* ===== verification/LabelSem.v ===== *)
(** * What a label means

    A label names a bit-vector expression over the input bytes. [eval] is that
    meaning, for the operators the solvers give a meaning to
    ([solvers/z3-ts.cpp], [Z3AstParser::serialize]). It is the specification the
    runtime's simplifications, its shadow memory and the parsers are checked
    against. *)

From S2P Require Import Prelude Dfsan.

(** The bytes of the input, by offset. *)
Definition input_env := Z -> Z.

(** [n] bytes from [off] on, least significant first. *)
Fixpoint le_bytes (env : input_env) (off : Z) (n : nat) : Z :=
  match n with
  | O => 0
  | S n' => env off mod 256 + 256 * le_bytes env (off + 1) n'
  end.

Section sem.
Context {LLVM : InstructionDef}.

(** [get_cmd] of [z3-ts.cpp], on [w]-bit operands. *)
Definition cmp_value (pred w v1 v2 : Z) : Z :=
  if pred =? bveq then Z.b2z (v1 =? v2)
  else if pred =? bvneq then Z.b2z (negb (v1 =? v2))
  else if pred =? bvugt then Z.b2z (v2 <? v1)
  else if pred =? bvuge then Z.b2z (v2 <=? v1)
  else if pred =? bvult then Z.b2z (v1 <? v2)
  else if pred =? bvule then Z.b2z (v1 <=? v2)
  else if pred =? bvsgt then Z.b2z (signed w v2 <? signed w v1)
  else if pred =? bvsge then Z.b2z (signed w v2 <=? signed w v1)
  else if pred =? bvslt then Z.b2z (signed w v1 <? signed w v2)
  else if pred =? bvsle then Z.b2z (signed w v1 <=? signed w v2)
  else 0.

(** An operator of result size [sz] on operands [v1], of [w1] bits, and [v2].
    Division by zero follows SMT-LIB; shifts by the width or more too. *)
Definition op_value (op sz w1 v1 v2 : Z) : Z :=
  if op =? ZExt then v1
  else if op =? SExt then wrap sz (signed w1 v1)
  else if op =? Trunc then wrap sz v1
  else if op =? Extract then wrap sz (Z.shiftr v1 v2)
  else if op =? Concat then v1 + 2 ^ w1 * v2
  else if op =? Not then wrap sz (Z.lnot v2)
  else if op =? Add then wrap sz (v1 + v2)
  else if op =? Sub then wrap sz (v1 - v2)
  else if op =? Mul then wrap sz (v1 * v2)
  else if op =? UDiv then if v2 =? 0 then 2 ^ sz - 1 else v1 / v2
  else if op =? SDiv then
    if v2 =? 0 then (if signed sz v1 <? 0 then 1 mod 2 ^ sz else 2 ^ sz - 1)
    else wrap sz (Z.quot (signed sz v1) (signed sz v2))
  else if op =? URem then if v2 =? 0 then v1 else v1 mod v2
  else if op =? SRem then
    if v2 =? 0 then v1 else wrap sz (Z.rem (signed sz v1) (signed sz v2))
  else if op =? Shl then if sz <=? v2 then 0 else wrap sz (Z.shiftl v1 v2)
  else if op =? LShr then if sz <=? v2 then 0 else Z.shiftr v1 v2
  else if op =? AShr then wrap sz (Z.shiftr (signed sz v1) (Z.min v2 sz))
  else if op =? And then Z.land v1 v2
  else if op =? Or then Z.lor v1 v2
  else if op =? Xor then Z.lxor v1 v2
  else if Z.land op 0xff =? ICmp then cmp_value (Z.shiftr op 8) sz v1 v2
  else 0.

(** How many bits the value of a label has: a comparison is one bit wide
    although its record keeps the size of its operands. *)
Definition width (i : dfsan_label_info) : Z :=
  if Z.land (i_op i) 0xff =? ICmp then 1 else i_size i.

Definition label_width (t : gmap Z dfsan_label_info) (l : Z) : Z :=
  width (info_at t l).

(** The operands of a record. A zero label stands for the recorded constant, cut
    to the width the operator gives it; [Extract] keeps its bit offset there. *)
Definition width1 (t : gmap Z dfsan_label_info) (i : dfsan_label_info) : Z :=
  if i_l1 i =? 0
  then (if i_op i =? Concat then i_size i - label_width t (i_l2 i) else i_size i)
  else label_width t (i_l1 i).

Definition width2 (t : gmap Z dfsan_label_info) (i : dfsan_label_info) : Z :=
  if i_op i =? Concat then i_size i - label_width t (i_l1 i) else i_size i.

Definition operand1 (t : gmap Z dfsan_label_info) (ev : Z -> Z)
    (i : dfsan_label_info) : Z :=
  if i_l1 i =? 0 then wrap (width1 t i) (i_op1 i) else ev (i_l1 i).

Definition operand2 (t : gmap Z dfsan_label_info) (ev : Z -> Z)
    (i : dfsan_label_info) : Z :=
  if i_l2 i =? 0 then
    (if i_op i =? Extract then i_op2 i else wrap (width2 t i) (i_op2 i))
  else ev (i_l2 i).

(** The value of a record, given the values of the labels below it. *)
Definition info_value (t : gmap Z dfsan_label_info) (env : input_env)
    (ev : Z -> Z) (i : dfsan_label_info) : Z :=
  if i_op i =? 0 then env (i_op1 i) mod 256
  else if i_op i =? Load then
    le_bytes env (i_op1 (info_at t (i_l1 i))) (Z.to_nat (i_l2 i))
  else op_value (i_op i) (i_size i) (width1 t i) (operand1 t ev i)
         (operand2 t ev i).

Fixpoint eval_fuel (t : gmap Z dfsan_label_info) (env : input_env) (fuel : nat)
    (l : Z) : Z :=
  match fuel with
  | O => 0
  | S n => info_value t env (eval_fuel t env n) (info_at t l)
  end.

(** The value of label [l]: operands have smaller labels, so [l] is fuel enough
    ([eval_unfold]). *)
Definition eval_def (t : gmap Z dfsan_label_info) (env : input_env) (l : Z) : Z :=
  eval_fuel t env (S (Z.to_nat l)) l.
Definition eval_aux : seal eval_def.
Proof. by eexists. Qed.
Definition eval : gmap Z dfsan_label_info -> input_env -> Z -> Z :=
  unseal eval_aux.
Lemma eval_eq : eval = eval_def.
Proof. exact (seal_eq eval_aux). Qed.

(** Values depend on the bytes of the input only. *)
#[global] Instance le_bytes_proper : Proper (pointwise_relation Z eq ==> eq ==> eq ==> eq) le_bytes.
Proof.
  intros env env' He off ? <- n ? <-. revert off. induction n as [|n IH]; intros off; simpl; [done|].
  by rewrite He, IH.
Qed.

#[global] Instance eval_proper t : Proper (pointwise_relation Z eq ==> eq ==> eq) (eval t).
Proof.
  intros env env' He l ? <-. rewrite eval_eq. unfold eval_def. generalize (S (Z.to_nat l)). intros n.
  revert l. induction n as [|n IH]; intros l; simpl; [done|]. unfold info_value, operand1, operand2.
  by rewrite He, (le_bytes_proper _ _ He _ _ eq_refl _ _ eq_refl), !IH.
Qed.

(** ** Acyclic tables *)

Definition dag (t : gmap Z dfsan_label_info) (last : Z) : Prop :=
  forall l, 1 <= l <= last ->
    0 <= i_l1 (info_at t l) < l /\ 0 <= i_l2 (info_at t l) < l.

(** [t'] has the records of [t] up to label [last]. *)
Definition agree (t t' : gmap Z dfsan_label_info) (last : Z) : Prop :=
  forall l, 0 <= l <= last -> info_at t' l = info_at t l.

Lemma info_value_ext t t' env ev ev' i last :
  agree t t' last ->
  0 <= i_l1 i <= last -> 0 <= i_l2 i <= last ->
  (i_l1 i <> 0 -> ev (i_l1 i) = ev' (i_l1 i)) ->
  (i_l2 i <> 0 -> i_op i <> Load -> ev (i_l2 i) = ev' (i_l2 i)) ->
  info_value t env ev i = info_value t' env ev' i.
Proof.
  intros Ha H1 H2 He1 He2. unfold info_value, operand1, operand2, width1, width2,
    label_width.
  rewrite !(Ha (i_l1 i)), !(Ha (i_l2 i)) by lia.
  destruct (Z.eqb_spec (i_op i) Load) as [->|HL].
  { destruct (Load =? 0); reflexivity. }
  destruct (Z.eqb_spec (i_l1 i) 0) as [E1|E1], (Z.eqb_spec (i_l2 i) 0) as [E2|E2];
    rewrite ?He1, ?He2 by done; reflexivity.
Qed.

Lemma eval_fuel_stable t env last : dag t last ->
  forall n m l, 0 <= l <= last -> (Z.to_nat l < n)%nat -> (Z.to_nat l < m)%nat ->
  0 < l -> eval_fuel t env n l = eval_fuel t env m l.
Proof.
  intros Hd. induction n as [|n IH]; intros m l Hl Hn Hm Hpos; [lia|].
  destruct m as [|m]; [lia|]. simpl.
  destruct (Hd l ltac:(lia)) as [H1 H2].
  eapply (info_value_ext _ _ _ _ _ _ last); [done|lia|lia| |];
    intros; apply IH; lia.
Qed.

Lemma eval_unfold t env last l : dag t last -> 1 <= l <= last ->
  eval t env l = info_value t env (eval t env) (info_at t l).
Proof.
  intros Hd Hl. rewrite eval_eq. unfold eval_def at 1. simpl.
  destruct (Hd l Hl) as [H1 H2].
  eapply (info_value_ext _ _ _ _ _ _ last); [done|lia|lia| |];
    intros; eapply eval_fuel_stable; eauto; lia.
Qed.

Lemma eval_agree t t' env last : dag t last -> agree t t' last ->
  forall l, 1 <= l <= last -> eval t' env l = eval t env l.
Proof.
  intros Hd Ha.
  assert (Hd' : dag t' last).
  { intros l Hl. rewrite (Ha l) by lia. by apply Hd. }
  intros l. induction l as [l IH] using (well_founded_induction (Z.lt_wf 0)).
  intros Hl. rewrite (eval_unfold t' env last l), (eval_unfold t env last l) by done.
  rewrite (Ha l) by lia. destruct (Hd l Hl) as [H1 H2].
  symmetry. eapply (info_value_ext _ _ _ _ _ _ last); [done|lia|lia| |];
    intros; symmetry; apply IH; lia.
Qed.

(** ** Well-sized tables

    The sizes the instrumentation passes: the operands of an arithmetic operator
    or comparison are as wide as it says, casts go the right way. *)

Definition is_binary (op : Z) : bool :=
  (op =? Add) || (op =? Sub) || (op =? Mul) || (op =? UDiv) || (op =? SDiv) ||
  (op =? URem) || (op =? SRem) || (op =? Shl) || (op =? LShr) || (op =? AShr) ||
  (op =? And) || (op =? Or) || (op =? Xor).

Definition is_icmp (op : Z) : bool := Z.land op 0xff =? ICmp.

Definition well_sized (t : gmap Z dfsan_label_info) (i : dfsan_label_info)
    : Prop :=
  0 < i_size i < 2 ^ 16 /\
  if i_op i =? 0 then i_l1 i = 0 /\ i_l2 i = 0 /\ i_size i = 8
  else if i_op i =? Load then
    i_l1 i <> 0 /\ i_op (info_at t (i_l1 i)) = 0 /\ i_size i = 8 * i_l2 i
  else if (i_op i =? ZExt) || (i_op i =? SExt) then
    i_l1 i <> 0 /\ i_l2 i = 0 /\ label_width t (i_l1 i) <= i_size i
  else if i_op i =? Trunc then
    i_l1 i <> 0 /\ i_l2 i = 0 /\ i_size i <= label_width t (i_l1 i)
  else if i_op i =? Extract then
    i_l1 i <> 0 /\ i_l2 i = 0 /\ 0 <= i_op2 i /\
    i_op2 i + i_size i <= label_width t (i_l1 i)
  else if i_op i =? Concat then
    (i_l1 i <> 0 \/ i_l2 i <> 0) /\ 0 < width1 t i < i_size i /\
    (i_l2 i <> 0 -> i_size i = width1 t i + label_width t (i_l2 i))
  else if i_op i =? Not then
    i_l1 i = 0 /\ i_l2 i <> 0 /\ i_size i = 1 /\ label_width t (i_l2 i) = 1
  else if is_binary (i_op i) || is_icmp (i_op i) then
    (i_l1 i <> 0 -> label_width t (i_l1 i) = i_size i) /\
    (i_l2 i <> 0 -> label_width t (i_l2 i) = i_size i)
  else True.

Definition sized (t : gmap Z dfsan_label_info) (last : Z) : Prop :=
  forall l, 1 <= l <= last -> well_sized t (info_at t l).

Lemma le_bytes_bound env n : forall off,
  is_u (8 * Z.of_nat n) (le_bytes env off n).
Proof.
  induction n as [|n IH]; intros off; [done|]. unfold is_u in *.
  specialize (IH (off + 1)). simpl le_bytes.
  pose proof (Z.mod_pos_bound (env off) 256).
  replace (8 * Z.of_nat (S n)) with (8 + 8 * Z.of_nat n) by lia.
  rewrite Z.pow_add_r by lia. lia.
Qed.

Lemma cmp_value_bound p w v1 v2 : is_u 1 (cmp_value p w v1 v2).
Proof.
  unfold cmp_value, is_u.
  repeat case_match; try lia;
    match goal with |- context [Z.b2z ?b] => destruct b; simpl; lia end.
Qed.

Lemma icmp_not_arith op : is_icmp op = true -> op <> 0 /\
  op <> Load /\ op <> ZExt /\ op <> SExt /\ op <> Trunc /\ op <> Extract /\
  op <> Concat /\ op <> Not /\ is_binary op = false.
Proof.
  unfold is_icmp. rewrite Z.eqb_eq. change 0xff with (Z.ones 8).
  rewrite Z.land_ones by lia. intros E. pose proof instruction_order as HO.
  unfold is_binary, Extract, Concat, Not.
  assert (forall c, 0 <= c < 256 -> c <> ICmp -> op <> c) as Hne.
  { intros c Hc Hi ->. change (2 ^ 8) with 256 in E.
    by rewrite Z.mod_small in E by lia. }
  repeat split; try (apply Hne; lia).
  rewrite !orb_false_iff, !Z.eqb_neq. repeat split; apply Hne; lia.
Qed.

(** [op_value] at each operator. *)
Section op_value_at.
Context (sz w1 v1 v2 : Z).

Lemma op_value_ZExt : op_value ZExt sz w1 v1 v2 = (v1).
Proof. unfold op_value. by ops. Qed.
Lemma op_value_SExt : op_value SExt sz w1 v1 v2 = (wrap sz (signed w1 v1)).
Proof. unfold op_value. by ops. Qed.
Lemma op_value_Trunc : op_value Trunc sz w1 v1 v2 = (wrap sz v1).
Proof. unfold op_value. by ops. Qed.
Lemma op_value_Extract : op_value Extract sz w1 v1 v2 = (wrap sz (Z.shiftr v1 v2)).
Proof. unfold op_value. by ops. Qed.
Lemma op_value_Concat : op_value Concat sz w1 v1 v2 = (v1 + 2 ^ w1 * v2).
Proof. unfold op_value. by ops. Qed.
Lemma op_value_Not : op_value Not sz w1 v1 v2 = (wrap sz (Z.lnot v2)).
Proof. unfold op_value. by ops. Qed.
Lemma op_value_Add : op_value Add sz w1 v1 v2 = (wrap sz (v1 + v2)).
Proof. unfold op_value. by ops. Qed.
Lemma op_value_Sub : op_value Sub sz w1 v1 v2 = (wrap sz (v1 - v2)).
Proof. unfold op_value. by ops. Qed.
Lemma op_value_Mul : op_value Mul sz w1 v1 v2 = (wrap sz (v1 * v2)).
Proof. unfold op_value. by ops. Qed.
Lemma op_value_Shl : op_value Shl sz w1 v1 v2 = (if sz <=? v2 then 0 else wrap sz (Z.shiftl v1 v2)).
Proof. unfold op_value. by ops. Qed.
Lemma op_value_LShr : op_value LShr sz w1 v1 v2 = (if sz <=? v2 then 0 else Z.shiftr v1 v2).
Proof. unfold op_value. by ops. Qed.
Lemma op_value_AShr : op_value AShr sz w1 v1 v2 = (wrap sz (Z.shiftr (signed sz v1) (Z.min v2 sz))).
Proof. unfold op_value. by ops. Qed.
Lemma op_value_And : op_value And sz w1 v1 v2 = (Z.land v1 v2).
Proof. unfold op_value. by ops. Qed.
Lemma op_value_Or : op_value Or sz w1 v1 v2 = (Z.lor v1 v2).
Proof. unfold op_value. by ops. Qed.
Lemma op_value_Xor : op_value Xor sz w1 v1 v2 = (Z.lxor v1 v2).
Proof. unfold op_value. by ops. Qed.

Lemma op_value_icmp op : is_icmp op = true ->
  op_value op sz w1 v1 v2 = cmp_value (Z.shiftr op 8) sz v1 v2.
Proof.
  intros Hi. pose proof (icmp_not_arith op Hi) as (? & ? & ? & ? & ? & ? & ? & ? & Hb).
  unfold is_binary in Hb. rewrite !orb_false_iff, !Z.eqb_neq in Hb. unfold op_value.
  unfold is_icmp in Hi. rewrite Hi.
  repeat match goal with |- context [op =? ?b] =>
    replace (op =? b) with false by (symmetry; apply Z.eqb_neq; tauto) end.
  done.
Qed.

End op_value_at.

Lemma op_value_binary_bound op sz w1 v1 v2 : is_binary op = true -> 0 < sz ->
  is_u sz v1 -> is_u sz v2 -> is_u sz (op_value op sz w1 v1 v2).
Proof.
  intros Hb Hs H1 H2. pose proof (pow2_pos sz ltac:(lia)) as Hp.
  assert (Hz : is_u sz 0) by (unfold is_u; lia).
  assert (Hu : forall v, 0 <= v <= v1 -> is_u sz v) by (unfold is_u in *; lia).
  unfold is_binary in Hb. rewrite !orb_true_iff, !Z.eqb_eq in Hb.
  destruct_or! Hb; subst op; unfold op_value; ops; repeat case_match;
    auto with machine lia; try (unfold is_u in *; lia).
  - apply Hu. split; [apply Z.div_pos; unfold is_u in *; lia|].
    apply Z.div_le_upper_bound; unfold is_u in *; nia.
  - unfold is_u. pose proof (Z.mod_pos_bound 1 (2 ^ sz)). lia.
  - apply Hu. pose proof (Z.mod_pos_bound v1 v2). pose proof (Z.mod_le v1 v2).
    unfold is_u in *. lia.
  - apply shiftr_bound; [unfold is_u in *; lia|done].
Qed.

Lemma width_icmp i : is_icmp (i_op i) = true -> width i = 1.
Proof. unfold width, is_icmp. by intros ->. Qed.

Lemma width_other i : is_icmp (i_op i) = false -> width i = i_size i.
Proof. unfold width, is_icmp. by intros ->. Qed.

Lemma small_not_icmp op : 0 <= op < 256 -> op <> ICmp -> is_icmp op = false.
Proof.
  intros Ho Hn. unfold is_icmp. change 0xff with (Z.ones 8).
  rewrite Z.land_ones by lia. change (2 ^ 8) with 256.
  rewrite Z.mod_small by lia. by apply Z.eqb_neq.
Qed.

Ltac not_icmp := apply small_not_icmp; pose proof instruction_order; unfold_ops; lia.

(** An operator outside those [op_value] knows has the value zero. *)
Lemma op_value_other op sz w1 v1 v2 :
  op <> ZExt -> op <> SExt -> op <> Trunc -> op <> Extract -> op <> Concat ->
  op <> Not -> is_binary op = false -> is_icmp op = false ->
  op_value op sz w1 v1 v2 = 0.
Proof.
  intros. unfold is_icmp in *.
  match goal with H : is_binary op = false |- _ =>
    unfold is_binary in H; rewrite !orb_false_iff, !Z.eqb_neq in H end.
  unfold op_value.
  repeat match goal with |- context [op =? ?b] =>
    replace (op =? b) with false by (symmetry; apply Z.eqb_neq; tauto) end.
  by case_match.
Qed.

Lemma binary_iff op : is_binary op = true <->
  op = Add \/ op = Sub \/ op = Mul \/ op = UDiv \/ op = SDiv \/ op = URem \/
  op = SRem \/ op = Shl \/ op = LShr \/ op = AShr \/ op = And \/ op = Or \/ op = Xor.
Proof. unfold is_binary. rewrite !orb_true_iff, !Z.eqb_eq. tauto. Qed.

Lemma binary_small op : is_binary op = true ->
  0 <= op < 256 /\ op <> ICmp /\ op <> 0 /\ op <> Load /\ op <> ZExt /\ op <> SExt /\
  op <> Trunc /\ op <> Extract /\ op <> Concat /\ op <> Not.
Proof.
  unfold is_binary. rewrite !orb_true_iff, !Z.eqb_eq. intros Hb.
  pose proof instruction_order. unfold_ops. destruct_or! Hb; subst; lia.
Qed.

Lemma binary_not_icmp op : is_binary op = true -> is_icmp op = false.
Proof. intros Hb. pose proof (binary_small op Hb). apply small_not_icmp; tauto. Qed.

Lemma operand1_bound t ev i :
  0 <= width1 t i ->
  (i_l1 i <> 0 -> is_u (label_width t (i_l1 i)) (ev (i_l1 i))) ->
  is_u (width1 t i) (operand1 t ev i).
Proof.
  intros Hw He. unfold operand1. destruct (Z.eqb_spec (i_l1 i) 0) as [E|E].
  - by apply wrap_bound.
  - unfold width1. rewrite (proj2 (Z.eqb_neq _ _) E). by apply He.
Qed.

Lemma well_sized_size t i : well_sized t i -> 0 < i_size i < 2 ^ 16.
Proof. by intros [? _]. Qed.

(** A well-sized record has a value of its width. *)
Lemma info_value_bound t env ev i : well_sized t i ->
  (i_l1 i <> 0 -> is_u (label_width t (i_l1 i)) (ev (i_l1 i))) ->
  (i_l2 i <> 0 -> i_op i <> Load -> is_u (label_width t (i_l2 i)) (ev (i_l2 i))) ->
  is_u (width i) (info_value t env ev i).
Proof.
  intros [Hs Hw] H1 H2. unfold info_value. pose proof instruction_order as HO.
  destruct (Z.eqb_spec (i_op i) 0) as [E|Hn0].
  { destruct Hw as (_ & _ & Hsz). rewrite width_other by (rewrite E; not_icmp).
    rewrite Hsz. apply Z.mod_pos_bound. lia. }
  destruct (Z.eqb_spec (i_op i) Load) as [E|HnL].
  { destruct Hw as (_ & _ & Hsz). rewrite width_other by (rewrite E; not_icmp).
    pose proof (le_bytes_bound env (Z.to_nat (i_l2 i)) (i_op1 (info_at t (i_l1 i)))).
    by rewrite Z2Nat.id, <- Hsz in H by lia. }
  destruct (is_icmp (i_op i)) eqn:Hic.
  { rewrite width_icmp, op_value_icmp by done. apply cmp_value_bound. }
  rewrite width_other by done.
  pose proof (operand1_bound t ev i) as Ho1.
  destruct (Z.eqb_spec (i_op i) ZExt) as [E|HnZ].
  { destruct Hw as (Hl & _ & Hle). rewrite E, op_value_ZExt.
    unfold operand1. apply Z.eqb_neq in Hl as Hl'. rewrite Hl'. specialize (H1 Hl).
    pose proof (Z.pow_le_mono_r 2 _ _ ltac:(lia) Hle). unfold is_u in *. lia. }
  destruct (Z.eqb_spec (i_op i) SExt) as [E|HnS].
  { rewrite E, op_value_SExt. apply wrap_bound. lia. }
  simpl in Hw.
  destruct (Z.eqb_spec (i_op i) Trunc) as [E|HnT].
  { rewrite E, op_value_Trunc. apply wrap_bound. lia. }
  destruct (Z.eqb_spec (i_op i) Extract) as [E|HnE].
  { rewrite E, op_value_Extract. apply wrap_bound. lia. }
  destruct (Z.eqb_spec (i_op i) Concat) as [E|HnC].
  { destruct Hw as (Hl & Hw1 & Hw2). rewrite E, op_value_Concat.
    specialize (Ho1 ltac:(lia) H1).
    assert (is_u (i_size i - width1 t i) (operand2 t ev i)) as Ho2.
    { unfold operand2. rewrite E. ops. destruct (Z.eqb_spec (i_l2 i) 0) as [E2|E2].
      - unfold width2. rewrite E, Z.eqb_refl. destruct Hl as [Hl|Hl]; [|done].
        unfold width1 in *. apply Z.eqb_neq in Hl. rewrite Hl in *.
        apply wrap_bound. lia.
      - rewrite (Hw2 E2). replace (_ - _) with (label_width t (i_l2 i)) by lia.
        by apply H2. }
    replace (i_size i) with (width1 t i + (i_size i - width1 t i)) by lia.
    apply concat_bound; [lia|lia|done|done]. }
  destruct (Z.eqb_spec (i_op i) Not) as [E|HnN].
  { rewrite E, op_value_Not. apply wrap_bound. lia. }
  destruct (is_binary (i_op i)) eqn:Hb.
  2:{ rewrite op_value_other by done. unfold is_u. pose proof (pow2_pos (i_size i)).
      lia. }
  destruct Hw as [Hw1 Hw2].
  assert (width1 t i = i_size i) as Ew1.
  { unfold width1. apply Z.eqb_neq in HnC. rewrite HnC.
    destruct (Z.eqb_spec (i_l1 i) 0); auto. }
  rewrite Ew1 in *. apply op_value_binary_bound; [done|lia|apply Ho1; [lia|done]|].
  unfold operand2, width2. apply Z.eqb_neq in HnE, HnC. rewrite HnE, HnC.
  destruct (Z.eqb_spec (i_l2 i) 0) as [E2|E2].
  - apply wrap_bound. lia.
  - rewrite <- Hw2 by done. by apply H2.
Qed.

Lemma eval_bound t env last : dag t last -> sized t last ->
  forall l, 1 <= l <= last -> is_u (label_width t l) (eval t env l).
Proof.
  intros Hd Hs l. induction l as [l IH] using (well_founded_induction (Z.lt_wf 0)).
  intros Hl. rewrite (eval_unfold t env last) by done. destruct (Hd l Hl).
  apply info_value_bound; [by apply Hs| |]; intros; apply IH; lia.
Qed.

End sem.

(** An operator number that is not that of a comparison. *)
Ltac plain_op := apply small_not_icmp; pose proof instruction_order; unfold_ops; lia.

Lemma le_bytes_snoc env off n :
  le_bytes env off (S n) = le_bytes env off n + 2 ^ (8 * Z.of_nat n) * (env (off + Z.of_nat n) mod 256).
Proof.
  revert off. induction n as [|n IH]; intros off.
  { simpl. rewrite Z.add_0_r, Z.mul_1_l, Z.add_0_r. lia. }
  rewrite Nat2Z.inj_succ. change (le_bytes env off (S (S n))) with
    (env off mod 256 + 256 * le_bytes env (off + 1) (S n)). rewrite IH. simpl le_bytes.
  replace (8 * Z.succ (Z.of_nat n)) with (8 + 8 * Z.of_nat n) by lia. rewrite Z.pow_add_r by lia.
  replace (off + 1 + Z.of_nat n) with (off + Z.succ (Z.of_nat n)) by lia. lia.
Qed.

Lemma label_width_bounds {LLVM : InstructionDef} t l : well_sized t (info_at t l) -> 1 <= label_width t l < 2 ^ 16.
Proof.
  intros [Hs _]. unfold label_width, width. destruct (_ =? ICmp); lia.
Qed.

Lemma land_byte x : 0 <= x < 256 -> Z.land x 0xff = x.
Proof.
  intros Hx. change 0xff with (Z.ones 8). rewrite Z.land_ones by lia. apply Z.mod_small. lia.
Qed.
