(* ===== verification/RuntimeSpec.v ===== *)
(** * Correctness of [__taint_union]

    The invariant of the label table, that every successful call keeps it and
    never touches an existing label, that equal requests share a label, and that
    a label's meaning is the meaning of the request it answered, simplifications
    included. *)

From S2P Require Import Prelude Dfsan HashTable Runtime LabelSem.

Section spec.
Context {LLVM : InstructionDef}.

(** ** The invariant *)

(** The record of label 0. *)
Definition const_info : dfsan_label_info := mk_info 0 0 0 0 0 8 0.

Record rt_wf (s : runtime) : Prop := {
  wf_last : 0 <= last_label s < alloca_stack_top s;
  wf_top : alloca_stack_top s <= 2 ^ 32 - 2;
  wf_const : info_at (infos s) 0 = const_info;
  wf_dag : dag (infos s) (last_label s);
  wf_table : forall i e, e ∈ chain (union_table s) i ->
    e_key e = e_entry e /\ 1 <= e_entry e <= last_label s /\
    ht_hash (union_table s) (info_at (infos s) (e_key e)) = i
}.

(** What a call may do to the state: add labels, touch nothing below. *)
Record extends (s s' : runtime) : Prop := {
  ext_last : last_label s <= last_label s';
  ext_infos : agree (infos s) (infos s') (last_label s);
  ext_top : alloca_stack_top s' = alloca_stack_top s;
  ext_shadow : shadow s' = shadow s;
  ext_app : app s' = app s
}.

#[export] Instance extends_preorder : PreOrder extends.
Proof.
  split.
  - by intros s.
  - intros s1 s2 s3 [? Ha ? ? ?] [? Hb ? ? ?]. split; try congruence; [lia|].
    intros l Hl. rewrite Hb by lia. apply Ha. lia.
Qed.

(** A computation whose successful runs keep the invariant and extend the
    state. *)
Definition grows {A} (m : M runtime A) : Prop :=
  forall s a s', rt_wf s -> m s = (Ok a, s') -> rt_wf s' /\ extends s s'.

Lemma grows_ret {A} (a : A) : grows (ret a).
Proof. intros s b s' Hw H. run_step H. done. Qed.

Lemma grows_gets {A} (f : runtime -> A) : grows (gets f).
Proof. intros s b s' Hw H. run_step H. done. Qed.

Lemma grows_throw {A} e : grows (throw (A := A) e).
Proof. intros s b s' Hw H. run_step H. Qed.

Lemma grows_bind {A B} (m : M runtime A) (k : A -> M runtime B) :
  grows m -> (forall a, grows (k a)) -> grows (bind m k).
Proof.
  intros Hm Hk s b s' Hw (a & s1 & Hr & H)%bind_ok.
  destruct (Hm _ _ _ Hw Hr) as [Hw1 He1]. destruct (Hk _ _ _ _ Hw1 H) as [Hw2 He2].
  split; [done|by etrans].
Qed.

Lemma grows_emit e : grows (emit e).
Proof.
  intros s b s' Hw H. unfold emit in H. run H.
  split; [destruct Hw; by constructor|by constructor].
Qed.

Lemma grows_if {A} (b : bool) (m1 m2 : M runtime A) :
  grows m1 -> grows m2 -> grows (if b then m1 else m2).
Proof. by destruct b. Qed.

Create HintDb grows.
#[local] Hint Resolve grows_ret grows_gets grows_throw grows_bind grows_emit
  grows_if : grows.

Ltac grow := repeat first
  [ apply grows_bind; [|intros ?] | apply grows_if | progress eauto 4 with grows lia ].

(** ** Interning a record *)

Lemma info_eqb_eq i j : info_eqb i j = true <->
  i_l1 i = i_l1 j /\ i_l2 i = i_l2 j /\ i_op i = i_op j /\ i_size i = i_size j /\
  i_op1 i = i_op1 j /\ i_op2 i = i_op2 j.
Proof. unfold info_eqb. rewrite !andb_true_iff, !Z.eqb_eq. tauto. Qed.

Lemma chain_lookup_some t k c l : chain_lookup t k c = Some l ->
  exists e, e ∈ c /\ e_entry e = l /\ info_eqb (info_at t (e_key e)) k = true.
Proof.
  induction c as [|e c IH]; simpl; [done|].
  destruct (info_eqb (info_at t (e_key e)) k) eqn:E.
  - intros [= <-]. exists e. by repeat split; [left|].
  - intros H. destruct (IH H) as (e' & ? & ? & ?). exists e'.
    repeat split; [by right|done|done].
Qed.

Lemma chain_lookup_none t k c : chain_lookup t k c = None ->
  forall e, e ∈ c -> info_eqb (info_at t (e_key e)) k = false.
Proof.
  induction c as [|e c IH]; simpl; [by intros _ e ?%elem_of_nil|].
  destruct (info_eqb (info_at t (e_key e)) k) eqn:E; [done|].
  intros H e' [->|?]%elem_of_cons; [done|by apply IH].
Qed.

Lemma chain_insert t key entry h i :
  chain (ht_insert t key entry h) i =
  if decide (i = ht_hash h (info_at t key))
  then mk_entry key entry :: chain h i else chain h i.
Proof.
  unfold chain, ht_insert. simpl. case_decide as E.
  - subst. by rewrite lookup_insert_eq.
  - by rewrite lookup_insert_ne.
Qed.

Lemma fresh_label_ok s l s' : rt_wf s -> fresh_label s = (Ok l, s') ->
  l = last_label s + 1 /\ l < alloca_stack_top s /\ s' = set_last l s.
Proof.
  intros [Hl Ht _ _ _] H. unfold fresh_label in H. run H.
  rewrite (wrap_small 32 (last_label s + 1)) in * by (unfold is_u; lia).
  unfold dfsan_check_label in Hr. repeat case_match; simplify_eq/=.
  destruct (Z.leb_spec (alloca_stack_top s) (last_label s + 1)); [done|].
  by repeat split.
Qed.

(** A state with one more label, of record [i]. *)
Definition add_label (i : dfsan_label_info) (s : runtime) : runtime :=
  let l := last_label s + 1 in
  set_table (ht_insert (<[l := i]> (infos s)) l l (union_table s))
    (set_infos (<[l := i]> (infos s)) (set_last l s)).

Lemma info_at_insert t l i l' :
  info_at (<[l := i]> t) l' = if decide (l = l') then i else info_at t l'.
Proof. unfold info_at. rewrite lookup_insert. by case_decide. Qed.

Lemma add_label_wf i s a : rt_wf s -> last_label s + 1 < alloca_stack_top s ->
  0 <= i_l1 i <= last_label s -> 0 <= i_l2 i <= last_label s ->
  rt_wf (set_alloc a (add_label i s)) /\ extends s (set_alloc a (add_label i s)).
Proof.
  intros [Hl Ht Hc Hd Htb] Htop H1 H2. split; constructor; simpl; try done; try lia.
  - rewrite info_at_insert. by case_decide; [lia|].
  - intros l Hl'. rewrite !info_at_insert. case_decide; [lia|]. apply Hd. lia.
  - intros b e. rewrite chain_insert. case_decide as Eb.
    + intros [->|Hin]%elem_of_cons; simpl; [repeat split; lia || done|].
      destruct (Htb _ _ Hin) as (? & ? & ?).
      rewrite info_at_insert, decide_False by lia. repeat split; lia || done.
    + intros Hin. destruct (Htb _ _ Hin) as (? & ? & ?).
      rewrite info_at_insert, decide_False by lia. repeat split; lia || done.
  - intros l Hl'. rewrite info_at_insert. by case_decide; [lia|].
Qed.

Lemma table_insert_ok l u s s' : table_insert l s = (Ok u, s') ->
  exists a, s' = set_table (ht_insert (infos s) l l (union_table s)) (set_alloc a s).
Proof.
  unfold table_insert. destruct (allocator_alloc _ _) as [[|] a]; [|done].
  intros [= _ <-]. by exists a.
Qed.

Section intern.
Context (flags : Flags) (recur : Z -> Z -> Z -> Z -> Z -> Z -> M runtime Z).
Hypothesis recur_grows : forall a b c d e f, 0 <= a -> 0 <= b ->
  grows (recur a b c d e f).

Lemma ub_query_grows g a b c d e f : 0 <= a -> grows (ub_query recur g a b c d e f).
Proof. unfold ub_query. intros. grow. Qed.
#[local] Hint Resolve ub_query_grows : grows.

Lemma union_ub_checks_grows a b c d e f : 0 <= a -> 0 <= b ->
  grows (union_ub_checks recur a b c d e f).
Proof. unfold union_ub_checks. intros. grow. Qed.

Lemma union_trunc_checks_grows a b c : 0 <= a -> grows (union_trunc_checks recur a b c).
Proof. unfold union_trunc_checks. intros. grow. Qed.
#[local] Hint Resolve union_ub_checks_grows union_trunc_checks_grows : grows.

(** Interning returns a label whose record is the one asked for. *)
Lemma union_intern_spec info o1 o2 s l s' : rt_wf s ->
  0 <= i_l1 info -> 0 <= i_l2 info ->
  union_intern flags recur info o1 o2 s = (Ok l, s') ->
  rt_wf s' /\ extends s s' /\ 1 <= l <= last_label s' /\
  info_eqb (info_at (infos s') l) info = true.
Proof.
  intros Hw H1 H2 H. unfold union_intern in H. run_step H.
  destruct (ht_lookup (infos s) info (union_table s)) as [l0|] eqn:El; simpl in H.
  { run H. apply chain_lookup_some in El as (e & Hin & <- & He).
    destruct (wf_table _ Hw _ _ Hin) as (Ek & ? & _). rewrite Ek in He. done. }
  apply bind_ok in H as (? & s1 & Hub & H).
  assert (rt_wf s1 /\ extends s s1) as [Hw1 He1]
    by (revert Hub; eapply grows_if; auto with grows).
  apply bind_ok in H as (l1 & ? & Hfr & H).
  apply (fresh_label_ok _ _ _ Hw1) in Hfr as (-> & Htop & ->).
  apply bind_ok in H as (? & ? & Has & H). apply assert_ok in Has as [Has ->].
  run_step H. apply bind_ok in H as (? & ? & Hti & H).
  apply table_insert_ok in Hti as [al ->].
  destruct (add_label_wf info s1 al Hw1) as [Hw2 He2];
    [lia|lia|lia|].
  apply bind_ok in H as (? & s2 & Htr & H). run H.
  assert (rt_wf s2 /\ extends (set_alloc al (add_label info s1)) s2) as [Hw3 He3]
    by (revert Htr; eapply grows_if; auto with grows).
  split; [done|]. split; [by do 2 (etrans; [eassumption|])|].
  split; [destruct He3; simpl in *; destruct (wf_last _ Hw1); lia|].
  rewrite (ext_infos _ _ He3) by (simpl; destruct (wf_last _ Hw1); lia).
  simpl. rewrite info_at_insert, decide_True by done. by apply info_eqb_eq.
Qed.

(** Without undefined-behaviour queries: the label is an existing one and nothing
    changes, or it is the only new one. *)
Lemma union_intern_plain info o1 o2 s l s' : rt_wf s -> solve_ub flags = false ->
  union_intern flags recur info o1 o2 s = (Ok l, s') ->
  (s' = s /\ ht_lookup (infos s) info (union_table s) = Some l) \/
  exists a, s' = set_alloc a (add_label info s) /\ l = last_label s + 1.
Proof.
  intros Hw Hub H. unfold union_intern in H. rewrite Hub, !andb_false_r in H. run_step H.
  destruct (ht_lookup (infos s) info (union_table s)) as [l0|] eqn:El; simpl in H.
  { run H. by left. }
  run_step H. apply bind_ok in H as (l1 & ? & Hfr & H).
  apply (fresh_label_ok _ _ _ Hw) in Hfr as (-> & Htop & ->).
  apply bind_ok in H as (? & ? & Has & H). apply assert_ok in Has as [Has ->].
  run_step H. apply bind_ok in H as (? & ? & Hti & H).
  apply table_insert_ok in Hti as [al ->]. run H. right. by exists al.
Qed.

End intern.

Lemma well_sized_agree t t' last i : agree t t' last ->
  0 <= i_l1 i <= last -> 0 <= i_l2 i <= last -> well_sized t i -> well_sized t' i.
Proof.
  intros Ha H1 H2. unfold well_sized, width1, label_width.
  by rewrite !(Ha (i_l1 i)), !(Ha (i_l2 i)).
Qed.

(** A new label of a well-sized record keeps the table well-sized. *)
Lemma add_label_sized i s a : rt_wf s -> sized (infos s) (last_label s) ->
  0 <= i_l1 i <= last_label s -> 0 <= i_l2 i <= last_label s ->
  well_sized (infos s) i ->
  sized (infos (set_alloc a (add_label i s))) (last_label (set_alloc a (add_label i s))).
Proof.
  intros Hw Hsz H1 H2 Hi l Hl. simpl in *.
  assert (agree (infos s) (<[last_label s + 1 := i]> (infos s)) (last_label s)) as Ha.
  { intros k Hk. rewrite info_at_insert. by rewrite decide_False by lia. }
  rewrite info_at_insert. case_decide.
  - by eapply well_sized_agree.
  - destruct (wf_dag _ Hw l ltac:(lia)) as [? ?].
    eapply well_sized_agree; [done|lia..|apply Hsz; lia].
Qed.

(** ** Meaning *)

(** The value of a request in the table [t]: what its record would mean. *)
Definition request_value (t : gmap Z dfsan_label_info) (env : input_env)
    (i : dfsan_label_info) : Z := info_value t env (eval t env) i.

(** [l] answers the request [i]: it names the request's value, or it is zero and
    the value does not depend on the input. *)
Definition answers (s s' : runtime) (i : dfsan_label_info) (l : Z) : Prop :=
  (l = 0 /\ exists c, forall env, request_value (infos s) env i = c) \/
  (1 <= l <= last_label s' /\
   forall env, eval (infos s') env l = request_value (infos s) env i).

(** The operators with a meaning. *)
Definition supported (op : Z) : Prop :=
  op = Load \/ op = ZExt \/ op = SExt \/ op = Trunc \/ op = Extract \/
  op = Concat \/ op = Not \/ is_binary op = true \/ is_icmp op = true.

Lemma supported_valid op : supported op -> is_valid_op op = true.
Proof.
  intros Hs. unfold is_valid_op.
  assert (is_icmp op = true \/ (is_icmp op = false /\ (op = Not \/ Add <= op < LastOp)
          /\ 0 <= op < 256)) as [Hi|(_ & Ho & Hb)].
  { pose proof instruction_order. unfold supported, is_binary in Hs.
    rewrite !orb_true_iff, !Z.eqb_eq in Hs.
    destruct (is_icmp op) eqn:E; [by left|right; split; [done|]].
    unfold_ops. destruct_or! Hs; subst; lia || congruence. }
  - unfold is_icmp in Hi. apply Z.eqb_eq in Hi as ->.
    pose proof instruction_order. unfold_ops.
    replace (Add <=? ICmp) with true by lia.
    by replace (ICmp <? last_llvm_op + 10) with true by lia.
  - change 0xff with (Z.ones 8). rewrite Z.land_ones, Z.mod_small by lia.
    unfold_ops. lia.
Qed.

Lemma supported_nonzero op : supported op -> op <> 0.
Proof.
  pose proof instruction_order. intros Hs ->. unfold supported, is_icmp, is_binary in Hs.
  rewrite !orb_true_iff, !Z.eqb_eq in Hs. rewrite Z.land_0_l in Hs.
  unfold_ops. lia.
Qed.

Lemma supported_plain op : supported op ->
  op <> fsize /\ op <> Alloca /\ op <> fmemcmp /\ op <> fatoi.
Proof.
  pose proof instruction_order. unfold supported. intros Hs.
  destruct (is_icmp op) eqn:Hi.
  - unfold is_icmp in Hi. apply Z.eqb_eq in Hi. change 0xff with (Z.ones 8) in Hi.
    rewrite Z.land_ones in Hi by lia. unfold_ops. change (2 ^ 8) with 256 in Hi.
    repeat split; intros ->; rewrite Z.mod_small in Hi by lia; lia.
  - unfold is_binary in Hs. rewrite !orb_true_iff, !Z.eqb_eq in Hs.
    unfold_ops. destruct_or! Hs; subst; lia || congruence.
Qed.

Lemma info_value_fields t env ev i j : info_eqb i j = true ->
  info_value t env ev i = info_value t env ev j.
Proof.
  intros (E1 & E2 & E3 & E4 & E5 & E6)%info_eqb_eq.
  unfold info_value, operand1, operand2, width1, width2.
  by rewrite E1, E2, E3, E4, E5, E6.
Qed.

(** A recorded constant counts only under a zero label. *)
Lemma info_value_operands t env ev l1 l2 op sz a b a' b' h h' : op <> 0 ->
  (l1 = 0 -> a = a') -> (l2 = 0 -> b = b') ->
  info_value t env ev (mk_info l1 l2 a b op sz h) =
  info_value t env ev (mk_info l1 l2 a' b' op sz h').
Proof.
  intros Ho Ha Hb. unfold info_value, operand1, operand2, width1, width2. simpl.
  apply Z.eqb_neq in Ho. rewrite Ho.
  destruct (Z.eqb_spec l1 0) as [E1|E1], (Z.eqb_spec l2 0) as [E2|E2];
    rewrite ?Ha, ?Hb by done; done.
Qed.

Lemma request_value_extends s s' env i : rt_wf s -> extends s s' ->
  0 <= i_l1 i <= last_label s -> 0 <= i_l2 i <= last_label s ->
  request_value (infos s') env i = request_value (infos s) env i.
Proof.
  intros Hw He H1 H2. symmetry. unfold request_value.
  apply (info_value_ext _ _ _ _ _ _ (last_label s)); [apply He|done|done| |];
    intros; symmetry; apply (eval_agree _ _ _ (last_label s));
    try lia; apply He || apply Hw.
Qed.

Lemma eval_record s env l i : rt_wf s -> 1 <= l <= last_label s ->
  info_eqb (info_at (infos s) l) i = true ->
  eval (infos s) env l = request_value (infos s) env i.
Proof.
  intros Hw Hl He. rewrite (eval_unfold _ _ (last_label s)) by (done || apply Hw).
  by apply info_value_fields.
Qed.

Lemma binary_value t env ev l1 l2 a b op sz h : is_binary op = true ->
  info_value t env ev (mk_info l1 l2 a b op sz h) =
  op_value op sz (width1 t (mk_info l1 l2 a b op sz h))
    (if l1 =? 0 then wrap sz a else ev l1) (if l2 =? 0 then wrap sz b else ev l2).
Proof.
  intros Hb. pose proof (binary_small op Hb) as (_ & _ & H0 & HL & _ & _ & _ & HE & HC & _).
  apply Z.eqb_neq in H0, HL, HE, HC.
  unfold info_value, operand1, operand2, width1, width2. simpl.
  rewrite H0, HL, HE, HC. by destruct (l1 =? 0).
Qed.

(** Swapping the operands of a commutative operator keeps its value. *)
Lemma binary_value_swap t env ev l1 l2 a b op sz h h' :
  op = And \/ op = Or \/ op = Xor \/ op = Add \/ op = Mul ->
  info_value t env ev (mk_info l2 l1 b a op sz h) =
  info_value t env ev (mk_info l1 l2 a b op sz h').
Proof.
  intros Ho. assert (is_binary op = true) as Hb.
  { apply binary_iff. tauto. }
  rewrite !binary_value by done.
  destruct_or! Ho; subst op; rewrite ?op_value_And, ?op_value_Or, ?op_value_Xor,
    ?op_value_Add, ?op_value_Mul.
  - apply Z.land_comm.
  - apply Z.lor_comm.
  - apply Z.lxor_comm.
  - f_equal. lia.
  - f_equal. lia.
Qed.

Lemma commutative_cases op : supported op -> is_commutative op = true ->
  op = Not \/ op = And \/ op = Or \/ op = Xor \/ op = Add \/ op = Mul.
Proof.
  intros Hs Hc. unfold is_commutative in Hc. rewrite !orb_true_iff, !Z.eqb_eq in Hc.
  destruct (is_icmp op) eqn:Hi.
  - unfold is_icmp in Hi. apply Z.eqb_eq in Hi. change 0xff with (Z.ones 8) in Hi.
    rewrite Z.land_ones in Hi by lia. unfold wrap in Hc.
    pose proof instruction_order. unfold_ops. lia.
  - assert (0 <= op < 256) as Hb.
    { pose proof instruction_order. unfold supported, is_binary in Hs.
      rewrite !orb_true_iff, !Z.eqb_eq in Hs. unfold_ops.
      destruct_or! Hs; subst; lia || congruence. }
    rewrite wrap_small in Hc by done.
    pose proof (supported_plain op Hs) as (_ & _ & Hm & _). tauto.
Qed.

(** An all-ones left operand. The test's constant is [2^sz - 1] below 64 bits and
    [0] at 64, where the earlier test for zero has already fired. *)
Lemma all_one_value sz a : 0 < sz <= 64 -> a <> 0 -> a = u64 (shl64 1 sz - 1) -> sz < 64 /\ a = 2 ^ sz - 1.
Proof.
  intros Hs Ha E. unfold shl64 in E.
  destruct (Z.eq_dec sz 64) as [->|Hne]; [by vm_compute in E|].
  split; [lia|]. rewrite Z.mod_small, Z.shiftl_1_l in E by lia.
  pose proof (Z.pow_lt_mono_r 2 sz 64). pose proof (pow2_pos sz).
  rewrite (wrap_small 64 (2 ^ sz)) in E by (unfold is_u; lia).
  rewrite wrap_small in E by (unfold is_u; lia). done.
Qed.

Section simplify.
Context (s : runtime) (l1 l2 sz a b h : Z).
Context (Hw : rt_wf s) (Hsz : sized (infos s) (last_label s)).
Context (H1 : 0 <= l1 <= last_label s) (H2 : 0 <= l2 <= last_label s).
Context (Hnz : l1 <> 0 \/ l2 <> 0) (Hs0 : 0 < sz).

Local Abbreviation req op := (mk_info l1 l2 a b op sz h).

Lemma operand_bound l env : 1 <= l <= last_label s -> label_width (infos s) l = sz ->
  is_u sz (eval (infos s) env l).
Proof.
  intros Hl <-. apply (eval_bound _ _ (last_label s)); [apply Hw|done|done].
Qed.

(** The sizes of a binary request. *)
Lemma binary_sized op : is_binary op = true -> well_sized (infos s) (req op) ->
  (l1 <> 0 -> label_width (infos s) l1 = sz) /\
  (l2 <> 0 -> label_width (infos s) l2 = sz).
Proof.
  intros Hb [_ Hws]. simpl in Hws. rewrite Hb in Hws.
  pose proof (binary_small op Hb) as (_ & _ & N0 & NL & NZ & NS & NT & NE & NC & NN).
  apply Z.eqb_neq in N0, NL, NZ, NS, NT, NE, NC, NN.
  by rewrite N0, NL, NZ, NS, NT, NE, NC, NN in Hws.
Qed.

(** A binary request whose value is that of one operand is answered by it. *)
Lemma answer_operand op l : is_binary op = true -> 1 <= l <= last_label s ->
  (forall env, op_value op sz (width1 (infos s) (req op))
     (if l1 =? 0 then wrap sz a else eval (infos s) env l1)
     (if l2 =? 0 then wrap sz b else eval (infos s) env l2) = eval (infos s) env l) ->
  answers s s (req op) l.
Proof.
  intros Hb Hl Hv. right. split; [done|]. intros env. unfold request_value.
  by rewrite binary_value, Hv.
Qed.

Lemma answer_constant op c : is_binary op = true ->
  (forall env, op_value op sz (width1 (infos s) (req op))
     (if l1 =? 0 then wrap sz a else eval (infos s) env l1)
     (if l2 =? 0 then wrap sz b else eval (infos s) env l2) = c) ->
  answers s s (req op) 0.
Proof.
  intros Hb Hv. left. split; [done|]. exists c. intros env. unfold request_value.
  by rewrite binary_value, Hv.
Qed.

(** [0 & x], [0 * x], [0 << x] *)
Lemma simplify_zero_const op : l1 = 0 -> a = 0 -> op = And \/ op = Mul \/ op = Shl ->
  answers s s (req op) 0.
Proof.
  intros E1 Ea Ho. assert (is_binary op = true) as Hb.
  { apply binary_iff. tauto. }
  apply (answer_constant op 0 Hb). intros env. rewrite E1, Ea.
  change (0 =? 0) with true. simpl.
  unfold wrap at 1. rewrite Z.mod_0_l by (pose proof (pow2_pos sz); lia).
  destruct_or! Ho; subst op;
    rewrite ?op_value_And, ?op_value_Mul, ?op_value_Shl, ?Z.land_0_l, ?Z.mul_0_l,
      ?Z.shiftl_0_l; unfold wrap; rewrite ?Z.mod_0_l by (pose proof (pow2_pos sz); lia);
    by repeat case_match.
Qed.

(** [0 | x], [0 ^ x], [0 + x] *)
Lemma simplify_zero_id op : well_sized (infos s) (req op) -> l1 = 0 -> a = 0 ->
  op = Or \/ op = Xor \/ op = Add -> answers s s (req op) l2.
Proof.
  intros Hws E1 Ea Ho. assert (is_binary op = true) as Hb.
  { apply binary_iff. tauto. }
  destruct (binary_sized op Hb Hws) as [_ Hl2].
  apply (answer_operand op l2 Hb); [lia|]. intros env. rewrite E1, Ea.
  replace (l2 =? 0) with false by lia. change (0 =? 0) with true. simpl.
  unfold wrap at 1. rewrite Z.mod_0_l by (pose proof (pow2_pos sz); lia).
  pose proof (operand_bound l2 env ltac:(lia) (Hl2 ltac:(lia))) as Hu.
  destruct_or! Ho; subst op;
    rewrite ?op_value_Or, ?op_value_Xor, ?op_value_Add, ?Z.lor_0_l, ?Z.lxor_0_l,
      ?Z.add_0_l, ?wrap_small by done; done.
Qed.

Lemma simplify_ones op : well_sized (infos s) (req op) -> l1 = 0 -> sz < 64 ->
  a = 2 ^ sz - 1 ->
  (op = And -> answers s s (req op) l2) /\ (op = Or -> answers s s (req op) 0) /\
  (op = Xor -> sz = 1 -> forall env,
     request_value (infos s) env (req Not) = request_value (infos s) env (req Xor)).
Proof.
  intros Hws E1 Hlt Ea. assert (is_u sz a) as Hua.
  { rewrite Ea. unfold is_u. pose proof (pow2_pos sz). lia. }
  assert (forall o, is_binary o = true -> well_sized (infos s) (req o) ->
    forall env, is_u sz (eval (infos s) env l2)) as Hu.
  { intros o Ho Hwo env. destruct (binary_sized o Ho Hwo) as [_ Hl2].
    apply operand_bound; [lia|apply Hl2; lia]. }
  assert ((l2 =? 0) = false) as E2 by lia.
  split; [|split]; intros ->.
  - assert (is_binary And = true) as Hb by (unfold is_binary; by ops).
    apply answer_operand; [done|lia|]. intros env. rewrite E2, E1.
    change (0 =? 0) with true. rewrite (wrap_small sz a), op_value_And, Ea by done.
    apply ones_land; [lia|exact (Hu _ Hb Hws env)].
  - assert (is_binary Or = true) as Hb by (unfold is_binary; by ops).
    apply (answer_constant _ (2 ^ sz - 1)); [done|]. intros env. rewrite E2, E1.
    change (0 =? 0) with true. rewrite (wrap_small sz a), op_value_Or, Ea by done.
    apply ones_lor; [lia|exact (Hu _ Hb Hws env)].
  - intros ->. assert (is_binary Xor = true) as Hb by (unfold is_binary; by ops).
    intros env. specialize (Hu Xor Hb Hws env). unfold request_value.
    rewrite (binary_value _ _ _ _ _ _ _ Xor) by done.
    unfold info_value, operand2. simpl. ops.
    rewrite op_value_Not, op_value_Xor, ?E1, Ea. unfold is_u in Hu.
    assert (eval (infos s) env l2 = 0 \/ eval (infos s) env l2 = 1) as [->| ->] by lia;
      done.
Qed.

(** [x - 0], [x << 0], [x >> 0] *)
Lemma simplify_right_zero op : well_sized (infos s) (req op) -> l2 = 0 -> b = 0 ->
  op = Sub \/ op = Shl \/ op = LShr \/ op = AShr -> answers s s (req op) l1.
Proof.
  intros Hws E2 Eb Ho. assert (is_binary op = true) as Hb.
  { apply binary_iff. tauto. }
  destruct (binary_sized op Hb Hws) as [Hl1 _].
  apply (answer_operand op l1 Hb); [lia|]. intros env. rewrite E2, Eb.
  replace (l1 =? 0) with false by lia. change (0 =? 0) with true. simpl.
  unfold wrap at 1. rewrite Z.mod_0_l by (pose proof (pow2_pos sz); lia).
  pose proof (operand_bound l1 env ltac:(lia) (Hl1 ltac:(lia))) as Hu.
  assert ((sz <=? 0) = false) as Hle by lia.
  destruct_or! Ho; subst op; rewrite ?op_value_Sub, ?op_value_Shl, ?op_value_LShr,
    ?op_value_AShr, ?Hle, ?Z.sub_0_r, ?Z.shiftl_0_r, ?Z.shiftr_0_r,
    ?wrap_small by done; [done..|].
  rewrite Z.min_l, Z.shiftr_0_r by lia. apply wrap_signed; [lia|done].
Qed.

(** [x ^ x] *)
Lemma simplify_xor_self : l1 = l2 -> answers s s (req Xor) 0.
Proof.
  intros E. assert (is_binary Xor = true) as Hb by (unfold is_binary; by ops).
  apply (answer_constant _ 0); [done|]. intros env. rewrite op_value_Xor, <- E.
  replace (l1 =? 0) with false by lia. apply Z.lxor_nilpotent.
Qed.

(** Truncating an extension back to the size of its source. *)
Lemma simplify_trunc base : well_sized (infos s) (req Trunc) ->
  i_op (info_at (infos s) l1) = ZExt \/ i_op (info_at (infos s) l1) = SExt ->
  base = i_l1 (info_at (infos s) l1) -> sz = i_size (info_at (infos s) base) ->
  is_icmp (i_op (info_at (infos s) base)) = false \/ i_op (info_at (infos s) l1) = ZExt \/ sz = 1 ->
  answers s s (req Trunc) base.
Proof.
  intros [_ Hws] Hext Eb Esz Hni.
  assert (l1 <> 0) as Hl1 by (revert Hws; simpl; ops; tauto).
  destruct (wf_dag _ Hw l1 ltac:(lia)) as [Hb1 _].
  pose proof (Hsz l1 ltac:(lia)) as [Hs1 Hw1].
  assert (base <> 0 /\ label_width (infos s) base <= i_size (info_at (infos s) l1))
    as [Hb0 Hle].
  { subst base. destruct Hext as [E|E]; rewrite E in Hw1; revert Hw1; ops; tauto. }
  clear Hws Hw1. destruct (wf_dag _ Hw l1 ltac:(lia)) as [_ _].
  assert (0 < sz) as Hpos by (rewrite Esz; destruct (Hsz base ltac:(lia)); lia).
  assert (label_width (infos s) base = sz \/
    label_width (infos s) base = 1 /\ i_op (info_at (infos s) l1) = ZExt) as Hlw.
  { destruct (is_icmp (i_op (info_at (infos s) base))) eqn:Ei; unfold label_width.
    - rewrite width_icmp by done. destruct Hni as [|[|]]; [done|by right|by left].
    - left. by rewrite width_other. }
  right. split; [lia|]. intros env. unfold request_value, info_value, operand1.
  simpl. ops. replace (l1 =? 0) with false by lia. rewrite op_value_Trunc.
  pose proof (eval_bound _ env _ (wf_dag _ Hw) Hsz base ltac:(lia)) as Hu.
  assert (is_u sz (eval (infos s) env base)) as Hus.
  { destruct Hlw as [Hlw|[Hlw _]]; rewrite Hlw in Hu; [done|]. unfold is_u in *.
    pose proof (Z.pow_le_mono_r 2 1 sz). lia. }
  assert (1 <= l1 <= last_label s) as Hr by lia.
  pose proof (eval_unfold (infos s) env (last_label s) l1 (wf_dag _ Hw) Hr) as Hev.
  rewrite Hev.
  unfold info_value, operand1, width1. rewrite <- !Eb.
  replace (base =? 0) with false by lia.
  destruct Hext as [E|E]; rewrite !E; ops; rewrite ?op_value_ZExt, ?op_value_SExt.
  - by rewrite wrap_small.
  - destruct Hlw as [Hlw|[_ EZ]]; [|exfalso; rewrite E in EZ; revert EZ; pose proof instruction_order; unfold_ops; lia].
    rewrite Hlw in *. rewrite wrap_wrap_le by lia. symmetry. apply wrap_signed; [lia|done].
Qed.

End simplify.

(** ** The whole function *)

(** A sign-extended comparison that is truncated to the size of the compared
    operands. *)
Definition narrows_sext (s : runtime) (i : dfsan_label_info) : bool :=
  let ext := info_at (infos s) (i_l1 i) in
  let base := info_at (infos s) (i_l1 ext) in
  (i_op i =? Trunc) && (i_op ext =? SExt) && is_icmp (i_op base) && (i_size i =? i_size base) &&
  negb (i_size i =? 1).

(** What the instrumentation guarantees of a request: labels that exist, operand
    sizes that fit, an operator with a meaning, no bounds label among the
    operands, arithmetic on at most 64 bits. *)
Record expressible (s : runtime) (i : dfsan_label_info) : Prop := {
  ex_l1 : 0 <= i_l1 i <= last_label s;
  ex_l2 : 0 <= i_l2 i <= last_label s;
  ex_sized : well_sized (infos s) i;
  ex_op : supported (i_op i);
  ex_64 : is_binary (i_op i) = true -> i_size i <= 64;
  ex_bounds1 : i_op (info_at (infos s) (i_l1 i)) <> Alloca;
  ex_bounds2 : i_op i <> Load -> i_op (info_at (infos s) (i_l2 i)) <> Alloca
}.

(** The requests that are answered soundly: not those on which the function errs
    ([trunc_of_sext_icmp]). *)
Record good_request (s : runtime) (i : dfsan_label_info) : Prop := {
  gr_l1 : 0 <= i_l1 i <= last_label s;
  gr_l2 : 0 <= i_l2 i <= last_label s;
  gr_sized : well_sized (infos s) i;
  gr_op : supported (i_op i);
  gr_64 : is_binary (i_op i) = true -> i_size i <= 64;
  gr_bounds1 : i_op (info_at (infos s) (i_l1 i)) <> Alloca;
  gr_bounds2 : i_op i <> Load -> i_op (info_at (infos s) (i_l2 i)) <> Alloca;
  gr_trunc : i_op i = Trunc -> narrows_sext s i = false
}.

Lemma expressible_good s i : expressible s i -> narrows_sext s i = false -> good_request s i.
Proof. intros []. by split. Qed.

Section simplify_spec.
Context (s : runtime) (l1 l2 op sz a b h : Z).
Context (Hw : rt_wf s) (Hsz : sized (infos s) (last_label s)).
Context (Hgr : good_request s (mk_info l1 l2 a b op sz h)) (Hnz : l1 <> 0 \/ l2 <> 0).

Local Abbreviation req op := (mk_info l1 l2 a b op sz h).

Lemma good_size64 : is_binary op = true -> 0 < sz <= 64.
Proof.
  intros Hb. destruct (gr_sized _ _ Hgr) as [? _]. pose proof (gr_64 _ _ Hgr Hb).
  simpl in *. lia.
Qed.

Lemma simplify_left_spec :
  match simplify_left l1 l2 op sz a with
  | inl l => answers s s (req op) l
  | inr op' => op' = op \/ op = Xor /\ op' = Not /\ l1 = 0 /\ sz = 1 /\ forall env,
      request_value (infos s) env (req Not) = request_value (infos s) env (req Xor)
  end.
Proof.
  pose proof good_size64 as H64. destruct Hgr as [H1 H2 Hws _ _ _ _ _]. simpl in *.
  unfold simplify_left. destruct ((l1 =? 0) && (a =? 0)) eqn:Ez.
  - apply andb_true_iff in Ez as [E1%Z.eqb_eq Ea%Z.eqb_eq].
    repeat case_if; bool_hyps; [| |by left].
    + assert (is_binary op = true) by (apply binary_iff; tauto).
      apply simplify_zero_const; auto; tauto.
    + assert (is_binary op = true) by (apply binary_iff; tauto).
      apply simplify_zero_id; auto; tauto.
  - case_if; [|by left].
    match goal with H : _ && _ = true |- _ =>
      apply andb_true_iff in H as [E1%Z.eqb_eq Ea%Z.eqb_eq] end.
    assert (a <> 0) as Ha.
    { intros E. rewrite E1, E in Ez. done. }
    assert (is_binary op = true -> sz < 64 /\ a = 2 ^ sz - 1) as Hone.
    { intros Hb. apply all_one_value; auto. }
    assert (Hb : op = And \/ op = Or \/ op = Xor -> is_binary op = true)
      by (intros; apply binary_iff; tauto).
    repeat case_if; bool_hyps; [| | |by left].
    + apply simplify_ones; auto; apply Hone || apply H64; auto.
    + apply simplify_ones; auto; apply Hone || apply H64; auto.
    + right. destruct_and!. split_and!; [done..|].
      eapply simplify_ones; eauto; apply Hone || apply H64; auto.
Qed.

Lemma simplify_right_spec :
  match simplify_right s l1 l2 op sz b with
  | inl l => answers s s (req op) l
  | inr op' => op' = op
  end.
Proof.
  pose proof good_size64 as H64. destruct Hgr as [H1 H2 Hws _ _ _ _ Htr]. simpl in *.
  unfold simplify_right. repeat case_if; bool_hyps; try done; destruct_and?.
  - assert (is_binary op = true) by (apply binary_iff; tauto).
    apply simplify_right_zero; auto; tauto.
  - subst op. apply simplify_trunc; auto; [by destruct Hws as [[? _] _]|]. specialize (Htr eq_refl).
    unfold narrows_sext in Htr.
    simpl in Htr. unfold get_label_info in *. destruct H as [|E1]; [tauto|].
    destruct (is_icmp _); [|by left]. right; right. rewrite E1, <- H0, !Z.eqb_refl in Htr. simpl in Htr. lia.
  - subst op. by apply simplify_xor_self.
Qed.

Lemma simplify_right_not : simplify_right s l1 l2 Not sz b = inr Not.
Proof. unfold simplify_right. ops. by rewrite andb_false_r. Qed.

Lemma union_simplify_spec :
  match union_simplify s l1 l2 op sz a b with
  | inl l => answers s s (req op) l
  | inr op' => op' <> 0 /\ well_sized (infos s) (req op') /\ forall env,
      request_value (infos s) env (req op') = request_value (infos s) env (req op)
  end.
Proof.
  unfold union_simplify. pose proof simplify_left_spec as HL.
  pose proof (supported_nonzero _ (gr_op _ _ Hgr)) as Hn.
  destruct (simplify_left l1 l2 op sz a) as [l|op']; [done|].
  destruct HL as [->|(Eop & -> & E1 & Es & Heq)].
  - pose proof simplify_right_spec as HR.
    destruct (simplify_right s l1 l2 op sz b); [done|]. subst.
    split_and!; [done|apply Hgr|done].
  - rewrite simplify_right_not, Eop. split_and!; [done| |apply Heq].
    destruct (binary_sized s l1 l2 sz a b h op) as [_ Hw2];
      [apply binary_iff; tauto|apply Hgr|].
    split; simpl; [lia|]. ops. split_and!; [done|lia|done|]. rewrite <- Es. apply Hw2. lia.
Qed.

End simplify_spec.

Section whole.
Context (flags : Flags).

Lemma taint_union_fuel_grows n : forall a b c d e f, 0 <= a -> 0 <= b ->
  grows (taint_union_fuel flags n a b c d e f).
Proof.
  induction n as [|n IH]; intros a b c d e f Ha Hb; [apply grows_throw|].
  simpl. unfold taint_union_with. apply grows_if; [apply grows_ret|].
  destruct (if (b <? a) && is_commutative c then (b, a, f, e) else (a, b, e, f))
    as [[[l1 l2] op1] op2] eqn:Es.
  assert (0 <= l1 /\ 0 <= l2) as [H1 H2] by (case_match; simplify_eq; done).
  apply grows_if; [apply grows_ret|]. apply grows_if; [apply grows_ret|].
  apply grows_bind; [apply grows_gets|]. intros s.
  destruct (union_bounds s l1 l2 c); [apply grows_ret|].
  destruct (union_operands s l1 l2 c d op1 op2) as [r1 r2].
  destruct (union_simplify s l1 l2 c d r1 r2) as [r|op']; [apply grows_ret|].
  intros s0 l s' Hw H.
  destruct (union_intern_spec flags (taint_union_fuel flags n) IH _ _ _ _ _ _ Hw
              (H1 : 0 <= i_l1 (union_info s l1 l2 op' d r1 r2)) H2 H) as (? & ? & _).
  done.
Qed.

(** The recorded operands agree with the request's under a zero label. *)
Lemma union_operands_spec s l1 l2 op sz a b : supported op ->
  let '(a', b') := union_operands s l1 l2 op sz a b in
  (l1 = 0 -> a' = a) /\ (l2 = 0 -> b' = b).
Proof.
  intros Hs. destruct (supported_plain op Hs) as (_ & _ & Hm%Z.eqb_neq & _).
  unfold union_operands, CONST_OFFSET. rewrite Hm.
  case_if; [|done]. split; intros ->; by change (1 <=? 0) with false.
Qed.

Lemma well_sized_operands t l1 l2 op sz a b a' b' h h' : (l2 = 0 -> b' = b) ->
  well_sized t (mk_info l1 l2 a b op sz h) -> well_sized t (mk_info l1 l2 a' b' op sz h').
Proof.
  intros Hb [Hs Hws]. split; [done|]. revert Hws. unfold width1. simpl.
  repeat case_if; try done. intros (? & Hl2 & ?). by rewrite Hb.
Qed.

Lemma good_request_operands s l1 l2 op sz a b a' b' h h' : (l2 = 0 -> b' = b) ->
  good_request s (mk_info l1 l2 a b op sz h) ->
  good_request s (mk_info l1 l2 a' b' op sz h').
Proof.
  intros Hb [? ? Hws ? ? ? ? ?]. split; try done. by eapply well_sized_operands.
Qed.

(** Swapping the operands, as the function does. *)
Lemma good_request_swap s l1 l2 op sz a b : l2 < l1 -> is_commutative op = true ->
  good_request s (mk_info l1 l2 a b op sz 0) ->
  good_request s (mk_info l2 l1 b a op sz 0) /\
  forall env, request_value (infos s) env (mk_info l2 l1 b a op sz 0) =
              request_value (infos s) env (mk_info l1 l2 a b op sz 0).
Proof.
  intros Hlt Hc [H1 H2 Hws Hop H64 Hb1 Hb2 Htr]. simpl in *.
  assert (op = And \/ op = Or \/ op = Xor \/ op = Add \/ op = Mul) as Ho.
  { destruct (commutative_cases op Hop Hc) as [->|?]; [|tauto].
    destruct Hws as [_ Hws]. revert Hws. simpl. ops. lia. }
  assert (is_binary op = true) as Hb by (apply binary_iff; tauto).
  pose proof (binary_small op Hb) as (_ & _ & N0 & NL & NZ & NS & NT & NE & NC & NN).
  split; [|intros env; by apply binary_value_swap].
  split; simpl; auto; [|congruence]. split; [apply Hws|].
  destruct (binary_sized s l1 l2 sz a b 0 op Hb Hws). simpl. rewrite Hb.
  apply Z.eqb_neq in N0, NL, NZ, NS, NT, NE, NC, NN.
  by rewrite N0, NL, NZ, NS, NT, NE, NC, NN.
Qed.

(** Two constant operands make a constant. *)
Lemma answers_constants s a b op sz : good_request s (mk_info 0 0 a b op sz 0) ->
  answers s s (mk_info 0 0 a b op sz 0) 0.
Proof.
  intros [_ _ [_ Hws] Hop _ _ _ _]. simpl in *. left. split; [done|].
  exists (request_value (infos s) (fun _ => 0) (mk_info 0 0 a b op sz 0)). intros env.
  unfold request_value, info_value, operand1, operand2. simpl.
  pose proof (supported_nonzero op Hop) as Hn%Z.eqb_neq. rewrite Hn in *.
  destruct (op =? Load); [destruct Hws; done|]. done.
Qed.

Lemma answers_label_mono s s' i i' l : extends s s' -> rt_wf s ->
  (forall env, request_value (infos s) env i' = request_value (infos s) env i) ->
  answers s s i' l -> answers s s' i l.
Proof.
  intros He Hw Hi [[-> [c Hc]]|[Hl Hv]].
  - left. split; [done|]. exists c. intros env. by rewrite <- Hi.
  - right. split; [destruct He; lia|]. intros env. rewrite <- Hi, <- Hv.
    apply (eval_agree _ _ _ (last_label s)); [apply Hw|apply He|done].
Qed.

(** The part after the operands are in order. *)
Lemma taint_union_ordered recur s l1 l2 op sz a b l s' :
  (forall a b c d e f, 0 <= a -> 0 <= b -> grows (recur a b c d e f)) ->
  rt_wf s -> sized (infos s) (last_label s) ->
  good_request s (mk_info l1 l2 a b op sz 0) -> l1 <> 0 \/ l2 <> 0 ->
  (let '(ra, rb) := union_operands s l1 l2 op sz a b in
   match union_simplify s l1 l2 op sz ra rb with
   | inl r => ret r
   | inr op' => union_intern flags recur (union_info s l1 l2 op' sz ra rb) a b
   end) s = (Ok l, s') ->
  rt_wf s' /\ extends s s' /\ answers s s' (mk_info l1 l2 a b op sz 0) l /\
  (solve_ub flags = false -> sized (infos s') (last_label s')).
Proof.
  intros Hrec Hw Hsz Hgr Hnz.
  pose proof (union_operands_spec s l1 l2 op sz a b (gr_op _ _ Hgr)) as Hops.
  destruct (union_operands s l1 l2 op sz a b) as [ra rb]. destruct Hops as [Hra Hrb].
  pose proof (good_request_operands _ _ _ _ _ _ _ ra rb 0 0 Hrb Hgr) as Hgr'.
  assert (forall env, request_value (infos s) env (mk_info l1 l2 ra rb op sz 0) =
                      request_value (infos s) env (mk_info l1 l2 a b op sz 0)) as Heq.
  { intros env. apply info_value_operands; [|done|done].
    apply supported_nonzero, Hgr. }
  pose proof (union_simplify_spec s l1 l2 op sz ra rb 0 Hw Hsz Hgr' Hnz) as Hsim.
  destruct (union_simplify s l1 l2 op sz ra rb) as [r|op']; intros H.
  { run H. split_and!; [done..|by eapply answers_label_mono|done]. }
  destruct Hsim as (Hn & Hws & Hsim).
  destruct (gr_l1 _ _ Hgr) as [H1 H1'], (gr_l2 _ _ Hgr) as [H2 H2']. simpl in *.
  destruct (union_intern_spec flags recur Hrec _ _ _ _ _ _ Hw
              (H1 : 0 <= i_l1 (union_info s l1 l2 op' sz ra rb)) H2 H)
    as (Hw' & He & Hl & Hi).
  split_and!; [done..| |].
  - right. split; [done|]. intros env.
    rewrite (eval_record s' env l _ Hw' Hl Hi), (request_value_extends s s') by done.
    rewrite <- Heq, <- Hsim. by apply info_value_operands.
  - intros Hub. destruct (union_intern_plain flags recur _ _ _ _ _ _ Hw Hub H)
      as [[-> _]|(al & -> & _)]; [done|].
    apply add_label_sized; [done..|]. by apply (well_sized_operands _ _ _ _ _ ra rb ra rb 0).
Qed.

(** Without bounds labels among the operands. *)
Lemma union_bounds_none s l1 l2 op : i_op (info_at (infos s) l1) <> Alloca ->
  (op <> Load -> i_op (info_at (infos s) l2) <> Alloca) -> union_bounds s l1 l2 op = None.
Proof.
  intros Hb1 Hb2. unfold union_bounds, is_kind_of_label, get_label_info.
  apply Z.eqb_neq in Hb1. rewrite Hb1. simpl.
  destruct (Z.eqb_spec op Load) as [->|HL]; [done|].
  specialize (Hb2 HL). apply Z.eqb_neq in Hb2. by rewrite Hb2.
Qed.

(** All of [__taint_union]. *)
Lemma taint_union_answers s l1 l2 op sz a b l s' :
  rt_wf s -> sized (infos s) (last_label s) ->
  good_request s (mk_info l1 l2 a b op sz 0) ->
  taint_union flags l1 l2 op sz a b s = (Ok l, s') ->
  rt_wf s' /\ extends s s' /\ answers s s' (mk_info l1 l2 a b op sz 0) l /\
  (solve_ub flags = false -> sized (infos s') (last_label s')).
Proof.
  intros Hw Hsz Hgr. unfold taint_union. simpl. unfold taint_union_with at 1.
  rewrite (supported_valid op (gr_op _ _ Hgr)). simpl.
  assert (Hrec := taint_union_fuel_grows 1).
  destruct (supported_plain _ (gr_op _ _ Hgr)) as (Hfs & Hal & _). simpl in Hfs, Hal.
  (* the operands in order *)
  set (q := if (l2 <? l1) && is_commutative op then (l2, l1, b, a) else (l1, l2, a, b)).
  assert (exists m1 m2 c d, q = (m1, m2, c, d) /\
    good_request s (mk_info m1 m2 c d op sz 0) /\
    forall env, request_value (infos s) env (mk_info m1 m2 c d op sz 0) =
                request_value (infos s) env (mk_info l1 l2 a b op sz 0))
    as (m1 & m2 & c & d & -> & Hgr' & Heq).
  { subst q. destruct ((l2 <? l1) && is_commutative op) eqn:Es; [|by eauto 8].
    apply andb_true_iff in Es as [Hlt%Z.ltb_lt Hc].
    destruct (good_request_swap s l1 l2 op sz a b Hlt Hc Hgr). eauto 8. }
  pose proof Hgr' as [H1 H2 _ _ _ Hb1 Hb2 _]. simpl in *.
  pose proof (wf_last _ Hw). pose proof (wf_top _ Hw).
  apply Z.eqb_neq in Hfs, Hal. rewrite Hfs, Hal, !andb_true_r.
  destruct ((m1 =? 0) && (m2 <? CONST_OFFSET)) eqn:Ec.
  { unfold CONST_OFFSET in Ec. assert (m1 = 0 /\ m2 = 0) as [-> ->] by lia.
    intros H'. run H'. split_and!; [done..| |done].
    apply (answers_label_mono s s _ (mk_info 0 0 c d op sz 0)); [done..|].
    by apply answers_constants. }
  replace ((m1 =? kInitializingLabel) || (m2 =? kInitializingLabel)) with false
    by (unfold kInitializingLabel; lia).
  intros H'. run_step H'. unfold id in H'.
  rewrite union_bounds_none in H' by done.
  destruct (taint_union_ordered (taint_union_fuel flags 1) s m1 m2 op sz c d l s'
              Hrec Hw Hsz Hgr') as (? & ? & Ha & Hs'); [unfold CONST_OFFSET in Ec; lia|done|].
  split_and!; [done..| |done]. destruct Ha as [[-> [k Hk]]|[Hl Hv]].
  - left. split; [done|]. exists k. intros env. by rewrite <- Heq.
  - right. split; [done|]. intros env. by rewrite Hv, Heq.
Qed.

(** Without the queries nothing is handed to the tracer. *)
Lemma taint_union_silent s l1 l2 op sz a b l s' : rt_wf s -> solve_ub flags = false ->
  taint_union flags l1 l2 op sz a b s = (Ok l, s') -> events s' = events s.
Proof.
  intros Hw Hub H. change (taint_union_with flags (taint_union_fuel flags 1) l1 l2 op sz a b s = (Ok l, s')) in H.
  unfold taint_union_with in H. destruct (negb _); [by run H|].
  destruct (if (l2 <? l1) && is_commutative op then _ else _) as [[[m1 m2] c] d].
  destruct (_ && _); [by run H|]. destruct (_ || _); [by run H|].
  run_step H. unfold id in H. destruct (union_bounds s m1 m2 op); [by run H|].
  destruct (union_operands _ _ _ _ _ _ _) as [rc rd]. destruct (union_simplify _ _ _ _ _ _ _); [by run H|].
  by destruct (union_intern_plain flags _ _ _ _ _ _ _ Hw Hub H) as [[-> _]|(al & -> & _)].
Qed.

(** Cast back to the size of its operands, a sign-extended comparison is taken for
    the comparison. *)
Lemma taint_union_narrows s l1 l2 sz a b l s' :
  let i := mk_info l1 l2 a b Trunc sz 0 in
  rt_wf s -> sized (infos s) (last_label s) -> expressible s i -> narrows_sext s i = true ->
  taint_union flags l1 l2 Trunc sz a b s = (Ok l, s') ->
  s' = s /\ l = i_l1 (info_at (infos s) l1) /\ 1 <= l <= last_label s /\ forall env,
    request_value (infos s) env i = if eval (infos s) env l =? 0 then 0 else 2 ^ sz - 1.
Proof.
  intros i Hw Hsz [H1 H2 Hws _ _ Hb1 Hb2] Hn. simpl in *. unfold narrows_sext in Hn. simpl in Hn.
  set (base := i_l1 (info_at (infos s) l1)) in *. bool_hyps. destruct_and? Hn.
  unfold taint_union. simpl. unfold taint_union_with at 1.
  rewrite (supported_valid Trunc) by (unfold supported; tauto). simpl.
  assert (l1 <> 0) as Hl1 by (destruct Hws as [_ Hws]; revert Hws; simpl; ops; tauto).
  assert (is_commutative Trunc = false) as ->.
  { destruct (is_commutative Trunc) eqn:Ec; [|done]. exfalso. pose proof instruction_order as HO.
    apply commutative_cases in Ec; [|unfold supported; tauto]. unfold_ops. lia. }
  rewrite andb_false_r. pose proof (wf_last _ Hw). pose proof (wf_top _ Hw).
  replace (l1 =? 0) with false by lia. simpl.
  replace ((l1 =? kInitializingLabel) || (l2 =? kInitializingLabel)) with false
    by (unfold kInitializingLabel; lia).
  intros E. run_step E. unfold id in E. rewrite union_bounds_none in E by done.
  destruct (union_operands _ _ _ _ _ _ _) as [ra rb].
  assert (union_simplify s l1 l2 Trunc (i_size (info_at (infos s) base)) ra rb = inl base) as Es.
  { unfold union_simplify, simplify_left. replace (l1 =? 0) with false by lia. simpl.
    unfold simplify_right, get_label_info. fold base. rewrite H6. ops. by rewrite andb_false_r. }
  rewrite Es in E. run E. destruct (wf_dag _ Hw l1 ltac:(lia)) as [Hd _]. fold base in Hd.
  pose proof (Hsz l1 ltac:(lia)) as [Hs1 Hw1]. rewrite H6 in Hw1. destruct Hws as [Hs Hws].
  assert (label_width (infos s) l1 = i_size (info_at (infos s) l1)) as Hlw.
  { unfold label_width. apply width_other. rewrite H6. pose proof instruction_order.
    apply small_not_icmp; unfold_ops; lia. }
  assert (base <> 0 /\ i_size (info_at (infos s) base) <= i_size (info_at (infos s) l1)) as (Hb0 & Hle).
  { revert Hw1 Hws. simpl. ops. rewrite Hlw. fold base. tauto. }
  split_and!; [done..|lia|lia|]. intros env.
  pose proof (eval_bound _ env _ (wf_dag _ Hw) Hsz base ltac:(lia)) as Hu.
  unfold label_width in Hu. rewrite width_icmp in Hu by done.
  unfold request_value, info_value, operand1. simpl. ops. replace (l1 =? 0) with false by lia.
  rewrite op_value_Trunc, (eval_unfold (infos s) env (last_label s) l1 (wf_dag _ Hw)) by lia.
  unfold info_value, operand1, width1. rewrite H6. fold base. ops. replace (base =? 0) with false by lia.
  rewrite op_value_SExt. unfold label_width. rewrite width_icmp by done. simpl in Hs.
  rewrite wrap_wrap_le by lia. unfold is_u in Hu. change (2 ^ 1) with 2 in Hu.
  assert (eval (infos s) env base = 0 \/ eval (infos s) env base = 1) as [-> | ->] by lia; [done|].
  change (signed 1 1) with (-1). change (1 =? 0) with false. cbv iota. unfold wrap.
  pose proof (pow2_pos (i_size (info_at (infos s) base)) ltac:(lia)).
  rewrite <- (Z_mod_plus_full (-1) 1). rewrite Z.mod_small by lia. lia.
Qed.

(** C1: a successful [__taint_union] keeps the table's invariant and leaves every
    existing label alone, and the label it returns means the requested
    expression: on every input it has the value of the operator applied to the
    operands, or it is the constant label and that value is the same on every
    input. This covers operand swapping, the simplifications, deduplication and
    the queries made when undefined behaviour is solved for. The request is one
    for a value: labels that exist, none of them a bounds label, sizes that fit, an
    operator with a meaning, arithmetic on at most 64 bits. The one simplification
    that errs is the truncation of a sign-extended comparison to the size of the
    compared operands: it answers with the comparison, which is 1 where the
    requested value is all ones. Without the queries the table also stays
    well-sized, so that calls compose. *)
Theorem taint_union_sound s l1 l2 op sz a b l s' :
  let i := mk_info l1 l2 a b op sz 0 in
  rt_wf s -> sized (infos s) (last_label s) -> expressible s i ->
  taint_union flags l1 l2 op sz a b s = (Ok l, s') ->
  rt_wf s' /\ extends s s' /\ (solve_ub flags = false -> sized (infos s') (last_label s')) /\
  if narrows_sext s i
  then s' = s /\ l = i_l1 (info_at (infos s) l1) /\ 1 <= l <= last_label s /\ forall env,
    request_value (infos s) env i = if eval (infos s) env l =? 0 then 0 else 2 ^ sz - 1
  else answers s s' i l.
Proof.
  intros i Hw Hsz Hex E. destruct (narrows_sext s i) eqn:En.
  - assert (op = Trunc) as -> by (unfold narrows_sext in En; simpl in En; bool_hyps; by destruct_and? En).
    destruct (taint_union_narrows s l1 l2 sz a b l s' Hw Hsz Hex En E) as (-> & ? & ? & ?).
    split_and!; done || lia.
  - destruct (taint_union_answers s l1 l2 op sz a b l s' Hw Hsz (expressible_good _ _ Hex En) E)
      as (? & ? & ? & ?). by split_and!.
Qed.

End whole.

End spec.
