(* ===== verification/TotalSpec.v ===== *)
(** * [__taint_union] always answers

    While there is room for a few more labels and hash table entries, the
    function returns a label: no assertion fails, it does not run out of fuel,
    and it does not die. *)

From S2P Require Import Prelude Dfsan HashTable Runtime LabelSem RuntimeSpec.

Section total.
Context {LLVM : InstructionDef} (flags : Flags).

(** Room for [k] more labels and their hash table entries. *)
Record room (s : runtime) (k : Z) : Prop := {
  room_labels : last_label s + k < alloca_stack_top s;
  room_begin : begin_addr (alloc s) <> 0;
  room_next : 0 <= next_usable_byte (alloc s);
  room_bytes : next_usable_byte (alloc s) + sizeof_entry * k < end_addr (alloc s);
  room_end : end_addr (alloc s) <= 2 ^ 64
}.

Lemma room_mono s k k' : k' <= k -> room s k -> room s k'.
Proof. intros Hk []. unfold sizeof_entry in *. split; unfold sizeof_entry in *; lia. Qed.

(** [m] succeeds when labels up to [L] exist and there is room for [k] more. *)
Definition total (L k : Z) {A} (m : M runtime A) : Prop :=
  forall s j, rt_wf s -> 0 <= j -> L <= last_label s -> room s (k + j) ->
  exists a s', m s = (Ok a, s') /\ rt_wf s' /\ extends s s' /\ room s' j.

Lemma total_ret L k {A} (a : A) : 0 <= k -> total L k (ret a).
Proof.
  intros Hk s j Hw Hj HL Hr. exists a, s. split_and!; [done..|].
  eapply room_mono; [|done]. lia.
Qed.

Lemma total_gets L k {A} (f : runtime -> A) : 0 <= k -> total L k (gets f).
Proof. intros Hk s j Hw Hj HL Hr. by apply (total_ret L k (f s)). Qed.

Lemma total_bind L k1 k2 {A B} (m : M runtime A) (f : A -> M runtime B) :
  0 <= k2 -> total L k1 m -> (forall a, total L k2 (f a)) -> total L (k1 + k2) (bind m f).
Proof.
  intros Hk2 Hm Hf s j Hw Hj HL Hr. rewrite <- Z.add_assoc in Hr.
  destruct (Hm s (k2 + j) Hw ltac:(lia) HL Hr) as (a & s1 & E1 & Hw1 & He1 & Hr1).
  destruct (Hf a s1 j Hw1 Hj ltac:(destruct He1; lia) Hr1) as (b & s2 & E2 & Hw2 & He2 & Hr2).
  exists b, s2. split_and!; [|done|by etrans|done]. unfold bind. by rewrite E1.
Qed.

Lemma total_emit L k e : 0 <= k -> total L k (emit e).
Proof.
  intros Hk s j Hw Hj HL Hr. exists tt, (add_event e s). split_and!.
  - done.
  - by destruct Hw.
  - done.
  - destruct (room_mono s (k + j) j ltac:(lia) Hr). by split.
Qed.

Lemma total_weaken L k k' {A} (m : M runtime A) : k' <= k -> total L k' m -> total L k m.
Proof.
  intros Hk Hm s j Hw Hj HL Hr. destruct (Hm s j Hw Hj HL) as (a & s' & ?); [|by exists a, s'].
  eapply room_mono; [|done]. lia.
Qed.

Lemma total_if L k {A} (b : bool) (m1 m2 : M runtime A) :
  total L k m1 -> total L k m2 -> total L k (if b then m1 else m2).
Proof. by destruct b. Qed.

(** Taking a new label for a record whose operands exist. *)
Definition new_label (info : dfsan_label_info) : M runtime Z :=
  bind fresh_label (fun label =>
  bind (assert_ ((i_l1 info <? label) && (i_l2 info <? label))) (fun _ =>
  bind (modify (fun s => set_infos (<[label := info]> (infos s)) s)) (fun _ =>
  bind (table_insert label) (fun _ => ret label)))).

Lemma new_label_total L info : 0 <= i_l1 info <= L -> 0 <= i_l2 info <= L ->
  total L 1 (new_label info).
Proof.
  intros H1 H2 s j Hw Hj HL Hr. pose proof Hr as [Hl Hb Hn Hbytes Hend].
  pose proof (wf_last _ Hw). pose proof (wf_top _ Hw). unfold sizeof_entry in Hbytes.
  set (al := mk_alloc (begin_addr (alloc s)) (next_usable_byte (alloc s) + sizeof_entry)
               (end_addr (alloc s))).
  exists (last_label s + 1), (set_alloc al (add_label info s)).
  destruct (add_label_wf info s al Hw) as [Hw' He]; [lia..|]. split_and!; [|done..|].
  - unfold new_label, fresh_label, dfsan_check_label, table_insert, allocator_alloc.
    unfold bind, gets, modify, assert_, ret. simpl.
    rewrite (wrap_small 32) by (unfold is_u; lia). unfold kInitializingLabel.
    replace (last_label s + 1 =? 2 ^ 32 - 1) with false by lia.
    replace (alloca_stack_top s <=? last_label s + 1) with false by lia.
    replace (i_l1 info <? last_label s + 1) with true by lia.
    replace (i_l2 info <? last_label s + 1) with true by lia. simpl.
    replace (begin_addr (alloc s) =? 0) with false by lia.
    rewrite (wrap_small 64) by (unfold is_u, sizeof_entry; lia).
    replace (end_addr (alloc s) <=? next_usable_byte (alloc s) + sizeof_entry)
      with false by (unfold sizeof_entry; lia). done.
  - split; simpl; unfold sizeof_entry; lia.
Qed.

(** The same steps with a continuation, as [union_intern] has them. *)
Lemma new_label_then L k info {A} (K : Z -> M runtime A) : 0 <= k ->
  0 <= i_l1 info <= L -> 0 <= i_l2 info <= L -> (forall l, total L k (K l)) ->
  total L (1 + k)
    (bind fresh_label (fun label =>
     bind (assert_ ((i_l1 info <? label) && (i_l2 info <? label))) (fun _ =>
     bind (modify (fun s => set_infos (<[label := info]> (infos s)) s)) (fun _ =>
     bind (table_insert label) (fun _ => K label))))).
Proof.
  intros Hk H1 H2 HK s j Hw Hj HL Hr.
  destruct (total_bind L 1 k (new_label info) K Hk (new_label_total L info H1 H2) HK
              s j Hw Hj HL Hr) as (a & s' & E & Hrest).
  exists a, s'. split; [|done]. rewrite <- E. unfold new_label, bind.
  destruct (fresh_label s) as [[l|e] s1]; [|done].
  destruct (assert_ _ s1) as [[?|e] s2]; [|done].
  destruct (modify _ s2) as [[?|e] s3]; [|done].
  by destruct (table_insert l s3) as [[?|e] s4].
Qed.

Section intern_total.
Context (recur : Z -> Z -> Z -> Z -> Z -> Z -> M runtime Z) (L : Z).
Hypothesis recur_total : forall l1 p sz a b, 0 <= l1 <= L ->
  bveq <= p <= bvsle -> total L 1 (recur l1 0 (icmp p) sz a b).

Lemma ub_query_total g l1 p sz a b cid : 0 <= l1 <= L -> bveq <= p <= bvsle ->
  total L 1 (ub_query recur g l1 (icmp p) sz a b cid).
Proof.
  intros. unfold ub_query. apply total_if; [|by apply total_ret].
  apply (total_bind L 1 0); [done|by apply recur_total|]. intros c. by apply total_emit.
Qed.

Lemma union_ub_checks_total l1 l2 op sz a b : 0 <= l1 <= L -> 0 <= l2 <= L ->
  total L 4 (union_ub_checks recur l1 l2 op sz a b).
Proof.
  intros. unfold union_ub_checks.
  apply (total_bind L 0 4); [done|by apply total_gets|]. intros osz.
  apply total_if; [|apply total_if; [|by apply total_ret]].
  - eapply total_weaken; [|by apply ub_query_total]. lia.
  - apply (total_bind L 1 3); [done|by apply ub_query_total|intros _].
    apply (total_bind L 1 2); [done|by apply ub_query_total|intros _].
    apply (total_bind L 1 1); [done|by apply ub_query_total|intros _].
    apply (total_bind L 0 1); [done|by apply total_gets|intros osz1].
    by apply ub_query_total.
Qed.

Lemma union_trunc_checks_total l1 sz a : 0 <= l1 <= L ->
  total L 2 (union_trunc_checks recur l1 sz a).
Proof.
  intros. unfold union_trunc_checks.
  apply (total_bind L 0 2); [done|by apply total_gets|intros osz].
  apply (total_bind L 1 1); [done|by apply ub_query_total|intros _].
  by apply ub_query_total.
Qed.

Lemma union_intern_total info a b : 0 <= i_l1 info <= L -> 0 <= i_l2 info <= L ->
  total L 7 (union_intern flags recur info a b).
Proof.
  intros. unfold union_intern.
  apply (total_bind L 0 7); [done|by apply total_gets|intros [l|]]; [by apply total_ret|].
  apply (total_bind L 4 3); [done| |intros _].
  { apply total_if; [by apply union_ub_checks_total|by apply total_ret]. }
  apply (new_label_then L 2); [done..|]. intros l.
  apply (total_bind L 2 0); [done| |intros _; by apply total_ret].
  apply total_if; [by apply union_trunc_checks_total|by apply total_ret].
Qed.

(** A record that is no truncation and has no right operand makes no query. *)
Lemma union_intern_quiet info a b : 0 <= i_l1 info <= L -> i_l2 info = 0 ->
  i_op info <> Trunc -> total L 1 (union_intern flags recur info a b).
Proof.
  intros H1 H2 Hop. unfold union_intern.
  apply (total_bind L 0 1); [done|by apply total_gets|intros [l|]]; [by apply total_ret|].
  rewrite H2. apply Z.eqb_neq in Hop. rewrite Hop, andb_false_r. simpl.
  apply (total_bind L 0 1); [done|by apply total_ret|intros _]. rewrite <- H2.
  apply (new_label_then L 0); [lia..|]. intros l.
  apply (total_bind L 0 0); [done|by apply total_ret|intros _; by apply total_ret].
Qed.
End intern_total.

(** ** The whole function *)

Lemma union_simplify_op s l1 l2 op sz a b op' :
  union_simplify s l1 l2 op sz a b = inr op' -> op' = op \/ op' = Not.
Proof.
  unfold union_simplify, simplify_left, simplify_right.
  repeat case_match; intros; simplify_eq; auto.
Qed.

(** What both levels of the recursion have in common. *)
Lemma taint_union_with_total recur L k l1 l2 op sz a b :
  1 <= k -> 0 <= l1 <= L -> 0 <= l2 <= L ->
  (forall s m1 m2 c d a' b' op', (m1, m2) = (l1, l2) \/ (m1, m2) = (l2, l1) ->
     (is_commutative op = false -> m2 = l2 /\ m1 = l1) ->
     op' = op \/ op' = Not ->
     total L k (union_intern flags recur (union_info s m1 m2 op' sz a' b') c d)) ->
  total L k (taint_union_with flags recur l1 l2 op sz a b).
Proof.
  intros Hk H1 H2 Hin. unfold taint_union_with.
  apply total_if; [apply total_ret; lia|].
  destruct (if (l2 <? l1) && is_commutative op then (l2, l1, b, a) else (l1, l2, a, b))
    as [[[m1 m2] c] d] eqn:Es.
  assert ((m1, m2) = (l1, l2) \/ (m1, m2) = (l2, l1)) as Hm
    by (case_match; simplify_eq; auto).
  assert (is_commutative op = false -> m2 = l2 /\ m1 = l1) as Hc.
  { intros E. rewrite E, andb_false_r in Es. by simplify_eq. }
  do 2 (apply total_if; [apply total_ret; lia|]).
  replace k with (0 + k) by lia.
  apply total_bind; [lia|apply total_gets; lia|]. intros s.
  destruct (union_bounds s m1 m2 op); [apply total_ret; lia|].
  destruct (union_operands s m1 m2 op sz c d) as [rc rd].
  destruct (union_simplify s m1 m2 op sz rc rd) as [r|op'] eqn:Eu; [apply total_ret; lia|].
  apply Hin; [done..|]. by eapply union_simplify_op.
Qed.

Lemma icmp_range p : bveq <= p <= bvsle -> icmp p = ICmp + 256 * p.
Proof.
  intros Hp. unfold icmp. pose proof instruction_order. unfold bveq, bvsle in Hp.
  rewrite Z.shiftl_mul_pow2 by lia. rewrite <- Z.lxor_lor, <- Z.add_nocarry_lxor; [lia|..];
    apply Z.bits_inj'; intros i Hi; rewrite Z.land_spec, Z.bits_0;
    (destruct (Z.ltb_spec i 8);
     [rewrite (Z.mul_pow2_bits_low p 8 i) by lia; done|]);
    rewrite (testbit_high 8 ICmp i), andb_false_r by (unfold is_u; lia); done.
Qed.

Lemma icmp_not_commutative p : bveq <= p <= bvsle ->
  is_commutative (icmp p) = false /\ icmp p <> Trunc.
Proof.
  intros Hp. rewrite icmp_range by done. pose proof instruction_order.
  unfold bveq, bvsle in Hp. split; [|lia].
  unfold is_commutative. replace (u8 (ICmp + 256 * p)) with ICmp.
  - unfold_ops. repeat (apply orb_false_intro); apply Z.eqb_neq; lia.
  - unfold wrap. change (2 ^ 8) with 256. symmetry.
    rewrite Z.mul_comm, Z.mod_add, Z.mod_small by lia. done.
Qed.

Lemma taint_union_icmp_total L l1 p sz a b : 0 <= l1 <= L -> bveq <= p <= bvsle ->
  total L 1 (taint_union_fuel flags 1 l1 0 (icmp p) sz a b).
Proof.
  intros H1 Hp. simpl. destruct (icmp_not_commutative p Hp) as [Hc Ht].
  apply taint_union_with_total; [lia..|]. intros s m1 m2 c d a' b' op' _ Hm Hop.
  destruct (Hm Hc) as [-> ->]. apply union_intern_quiet; [done..|]. simpl.
  destruct Hop as [-> | ->]; [done|]. pose proof instruction_order. unfold_ops. lia.
Qed.

(** All of it, with what is left of the room. *)
Lemma taint_union_run L l1 l2 op sz a b : 0 <= l1 <= L -> 0 <= l2 <= L ->
  total L 7 (taint_union flags l1 l2 op sz a b).
Proof.
  intros H1 H2. apply taint_union_with_total; [lia..|]. intros s0 m1 m2 c d a' b' op' Hm _ _.
  apply union_intern_total; simpl; [|destruct Hm; simplify_eq; lia..].
  intros. by apply taint_union_icmp_total.
Qed.

(** C3: [__taint_union] on existing labels, with room for seven more labels,
    returns a label; and whatever it returns, the two levels of recursion the
    model allows are never exhausted. *)
Theorem taint_union_total s l1 l2 op sz a b :
  rt_wf s -> room s 7 -> 0 <= l1 <= last_label s -> 0 <= l2 <= last_label s ->
  exists l s', taint_union flags l1 l2 op sz a b s = (Ok l, s') /\
    rt_wf s' /\ extends s s'.
Proof.
  intros Hw Hr H1 H2. pose proof (taint_union_run (last_label s) l1 l2 op sz a b H1 H2) as Ht.
  destruct (Ht s 0 Hw ltac:(lia) ltac:(lia) Hr) as (l & s' & ? & ? & ? & _).
  by exists l, s'.
Qed.

End total.
