(* ===== verification/InputSpec.v ===== *)
(** * Input labels

    [InitializeTaintFile] gives every byte of the input a label before the
    program runs. *)

From S2P Require Import Prelude Dfsan HashTable Runtime LabelSem RuntimeSpec TotalSpec.

Section input.
Context {LLVM : InstructionDef}.

(** The record of the label of input byte [off]. *)
Definition input_info (off : Z) : dfsan_label_info :=
  mk_info 0 0 (u64 off) 0 0 8 (xxhash (u32 off) 0 8).

Definition add_input (off : Z) (s : runtime) : runtime :=
  set_infos (<[last_label s + 1 := input_info off]> (infos s))
    (set_last (last_label s + 1) s).

Lemma create_label_run s off : rt_wf s -> last_label s + 1 < alloca_stack_top s ->
  dfsan_create_label off s = (Ok (last_label s + 1), add_input off s).
Proof.
  intros Hw Htop. pose proof (wf_last _ Hw). pose proof (wf_top _ Hw).
  unfold dfsan_create_label, fresh_label, dfsan_check_label, bind, gets, modify, ret.
  simpl. rewrite (wrap_small 32) by (unfold is_u; lia). unfold kInitializingLabel.
  replace (last_label s + 1 =? 2 ^ 32 - 1) with false by lia.
  by replace (alloca_stack_top s <=? last_label s + 1) with false by lia.
Qed.

Lemma add_input_wf s off : rt_wf s -> last_label s + 1 < alloca_stack_top s ->
  rt_wf (add_input off s) /\ extends s (add_input off s).
Proof.
  intros [Hl Ht Hc Hd Htb] Htop. split; constructor; simpl; try done; try lia.
  - rewrite info_at_insert. by case_decide; [lia|].
  - intros l Hl'. rewrite !info_at_insert. case_decide; [simpl; lia|]. apply Hd. lia.
  - intros b e Hin. destruct (Htb _ _ Hin) as (? & ? & ?).
    rewrite info_at_insert, decide_False by lia. repeat split; lia || done.
  - intros l Hl'. rewrite info_at_insert. by case_decide; [lia|].
Qed.

Lemma add_input_sized s off : rt_wf s -> sized (infos s) (last_label s) ->
  sized (infos (add_input off s)) (last_label (add_input off s)).
Proof.
  intros Hw Hsz l Hl. simpl in *. rewrite info_at_insert. case_decide; [done|].
  destruct (wf_dag _ Hw l ltac:(lia)) as [? ?].
  eapply (well_sized_agree (infos s) _ (last_label s)); [|lia..|apply Hsz; lia].
  intros k Hk. rewrite info_at_insert. by rewrite decide_False by lia.
Qed.

Lemma create_labels_run k : forall s i, rt_wf s -> sized (infos s) (last_label s) ->
  last_label s + Z.of_nat k < alloca_stack_top s ->
  exists s', create_labels i k s = (Ok tt, s') /\ rt_wf s' /\ extends s s' /\
    sized (infos s') (last_label s') /\ last_label s' = last_label s + Z.of_nat k /\
    union_table s' = union_table s /\ alloc s' = alloc s /\
    forall j, 0 <= j < Z.of_nat k ->
      info_at (infos s') (last_label s + 1 + j) = input_info (i + j).
Proof.
  induction k as [|k IH]; intros s i Hw Hsz Htop.
  { exists s. split_and!; try done; lia. }
  simpl. unfold bind at 1. rewrite create_label_run by (done || lia).
  destruct (add_input_wf s i Hw ltac:(lia)) as [Hw1 He1].
  destruct (IH (add_input i s) (i + 1) Hw1 (add_input_sized s i Hw Hsz))
    as (s' & Hrun & Hw' & He' & Hsz' & Hl' & Ht' & Ha' & Hin); [simpl; lia|].
  exists s'. pose proof (wf_top _ Hw). simpl in *. split_and!; try done.
  - unfold bind, dfsan_check_label, kInitializingLabel. simpl.
    replace (last_label s + 1 =? 2 ^ 32 - 1) with false by lia.
    by replace (alloca_stack_top s <=? last_label s + 1) with false by lia.
  - by etrans.
  - lia.
  - intros j Hj. destruct (decide (j = 0)) as [->|Hne].
    + rewrite (ext_infos _ _ He') by (simpl; destruct (wf_last _ Hw); lia). simpl.
      rewrite info_at_insert, decide_True by lia. by rewrite Z.add_0_r.
    + specialize (Hin (j - 1) ltac:(lia)).
      replace (last_label s + 1 + 1 + (j - 1)) with (last_label s + 1 + j) in Hin by lia.
      by replace (i + 1 + (j - 1)) with (i + j) in Hin by lia.
Qed.

Lemma dfsan_init_wf : rt_wf dfsan_init /\ sized (infos dfsan_init) (last_label dfsan_init).
Proof.
  split; [|intros l; simpl; lia]. split; simpl; try done.
  - intros l; lia.
  - intros i e H. unfold chain in H. simpl in H. rewrite lookup_empty in H.
    by apply elem_of_nil in H.
Qed.

(** The runtime after [InitializeTaintFile] on an input of [n] bytes. *)
Definition init_input (n : nat) : runtime := snd (create_labels 0 n dfsan_init).

(** C4: start-up gives byte [i] of an input of [n] bytes the label [i + 1], which
    means that byte, in a table that is well-formed and well-sized. *)
Theorem init_input_spec n : Z.of_nat n < uniontable_size / sizeof_label_info - 2 ->
  create_labels 0 n dfsan_init = (Ok tt, init_input n) /\
  rt_wf (init_input n) /\
  sized (infos (init_input n)) (last_label (init_input n)) /\
  last_label (init_input n) = Z.of_nat n /\
  forall i env, 0 <= i < Z.of_nat n ->
    info_at (infos (init_input n)) (i + 1) = input_info i /\
    eval (infos (init_input n)) env (i + 1) = env i mod 256.
Proof.
  intros Hn. unfold init_input. destruct dfsan_init_wf as [Hw Hsz].
  destruct (create_labels_run n dfsan_init 0 Hw Hsz)
    as (s' & -> & Hw' & _ & Hsz' & Hl' & _ & _ & Hin); [simpl; lia|].
  simpl in *. split_and!; [done..|]. intros i env Hi.
  specialize (Hin i Hi). replace (0 + 1 + i) with (i + 1) in Hin by lia.
  split; [done|]. rewrite (eval_unfold _ _ (last_label s')) by (apply Hw' || lia).
  rewrite Hin. unfold info_value. simpl.
  rewrite wrap_small; [done|]. change (uniontable_size / sizeof_label_info) with 1610612736 in Hn.
  unfold is_u. lia.
Qed.

End input.

(** ** Concrete runs *)

Definition plain_flags : Flags := mk_flags true false false false.
Definition ub_flags : Flags := mk_flags true true false false.

Section runs.
#[local] Existing Instance llvm14.

Lemma init_wf n : Z.of_nat n < 1610612734 ->
  rt_wf (init_input n) /\ sized (infos (init_input n)) (last_label (init_input n)).
Proof.
  intros Hn. unfold init_input. destruct dfsan_init_wf as [Hw Hsz].
  destruct (create_labels_run n dfsan_init 0 Hw Hsz) as (s' & -> & Hrest);
    [change (alloca_stack_top dfsan_init) with 1610612734; simpl; lia|].
  tauto.
Qed.

Lemma init_room n k : 0 <= k -> Z.of_nat n + k < 1000000 -> room (init_input n) k.
Proof.
  intros Hk Hn. unfold init_input. destruct dfsan_init_wf as [Hw Hsz].
  destruct (create_labels_run n dfsan_init 0 Hw Hsz)
    as (s' & -> & Hw' & He & _ & Hl & _ & Ha & _);
    [change (alloca_stack_top dfsan_init) with 1610612734; simpl; lia|].
  change (alloc dfsan_init) with
    (mk_alloc kHashTableAddr (kHashTableAddr + 2 ^ 23) (kHashTableAddr + hashtable_size)) in Ha.
  split; simpl; rewrite ?Ha, ?Hl, ?(ext_top _ _ He); simpl; unfold sizeof_entry;
    change (uniontable_size / sizeof_label_info - 2) with 1610612734;
    unfold kHashTableAddr, hashtable_size; lia || done.
Qed.

Lemma init_input_spec_witness :
  eval (infos (init_input 5)) (fun i => 10 * i) 3 = 20.
Proof.
  destruct (init_input_spec 5 ltac:(done)) as (_ & _ & _ & _ & H).
  by destruct (H 2 (fun i => 10 * i) ltac:(done)).
Defined.

(** Adding the first two input bytes, with undefined behaviour solved for. *)
Lemma taint_union_sound_witness : exists l s',
  taint_union ub_flags 1 2 Add 8 0 0 (init_input 3) = (Ok l, s') /\
  answers (init_input 3) s' (mk_info 1 2 0 0 Add 8 0) l.
Proof.
  exists 4, (snd (taint_union ub_flags 1 2 Add 8 0 0 (init_input 3))).
  assert (taint_union ub_flags 1 2 Add 8 0 0 (init_input 3) =
    (Ok 4, snd (taint_union ub_flags 1 2 Add 8 0 0 (init_input 3)))) as E
    by (vm_compute; reflexivity).
  split; [exact E|]. destruct (init_wf 3 ltac:(done)) as [Hw Hsz].
  assert (expressible (init_input 3) (mk_info 1 2 0 0 Add 8 0)) as Hg.
  { split; [vm_compute; by split|vm_compute; by split| | |..].
    - vm_compute. intuition congruence.
    - right; right; right; right; right; right; right. by left.
    - vm_compute. congruence.
    - vm_compute. congruence.
    - vm_compute. congruence. }
  destruct (taint_union_sound ub_flags _ _ _ _ _ _ _ _ _ Hw Hsz Hg E) as (_ & _ & _ & H).
  exact H.
Defined.

(** Truncating a concatenation of two input bytes, with the queries. *)
Lemma taint_union_total_witness : exists l s',
  taint_union ub_flags 1 2 Concat 16 0 0 (init_input 3) = (Ok l, s') /\
  rt_wf s' /\ extends (init_input 3) s'.
Proof.
  apply (taint_union_total ub_flags (init_input 3) 1 2 Concat 16 0 0);
    [by apply init_wf|by apply init_room|done|done].
Defined.

End runs.
