(* ===== verification/ShadowSpec.v ===== *)
(** * Deduplication and shadow memory

    Equal requests get the same label, and a label written to shadow memory byte
    by byte comes back with the same meaning when the bytes are loaded. *)

From S2P Require Import Prelude Dfsan HashTable Runtime LabelSem RuntimeSpec TotalSpec InputSpec.

Section shadow.
Context {LLVM : InstructionDef} (flags : Flags).

(** ** What a request reads of the table *)

Section reads.
Context (s s' : runtime) (Hw : rt_wf s) (He : extends s s').

Lemma reads_info l : 0 <= l <= last_label s -> get_label_info l s' = get_label_info l s.
Proof. apply (ext_infos _ _ He). Qed.

Lemma reads_child l : 0 <= l <= last_label s -> 0 <= i_l1 (get_label_info l s) <= last_label s.
Proof.
  intros Hl. unfold get_label_info. destruct (decide (l = 0)) as [->|].
  - rewrite (wf_const _ Hw). destruct (wf_last _ Hw). simpl. lia.
  - destruct (wf_dag _ Hw l ltac:(lia)). lia.
Qed.

Lemma reads_bounds l1 l2 op : 0 <= l1 <= last_label s -> 0 <= l2 <= last_label s ->
  union_bounds s' l1 l2 op = union_bounds s l1 l2 op.
Proof. intros. unfold union_bounds, is_kind_of_label. by rewrite !reads_info. Qed.

Lemma reads_bytes n : forall addr, load_le addr n s' = load_le addr n s.
Proof.
  induction n as [|n IH]; intros addr; simpl; [done|]. rewrite IH. unfold byte_at.
  by rewrite (ext_app _ _ He).
Qed.

Lemma reads_operands l1 l2 op sz a b :
  union_operands s' l1 l2 op sz a b = union_operands s l1 l2 op sz a b.
Proof. unfold union_operands, memcpy_var. by rewrite !reads_bytes. Qed.

Lemma reads_simplify l1 l2 op sz a b : 0 <= l1 <= last_label s ->
  union_simplify s' l1 l2 op sz a b = union_simplify s l1 l2 op sz a b.
Proof.
  intros H1. unfold union_simplify, simplify_right.
  by rewrite reads_info, (reads_info (i_l1 (get_label_info l1 s))) by auto using reads_child.
Qed.

Lemma reads_union_info l1 l2 op sz a b : 0 <= l1 <= last_label s ->
  0 <= l2 <= last_label s -> union_info s' l1 l2 op sz a b = union_info s l1 l2 op sz a b.
Proof. intros. unfold union_info. by rewrite !reads_info. Qed.

End reads.

Lemma info_eqb_refl i : info_eqb i i = true.
Proof. by apply info_eqb_eq. Qed.

(** The record just added is the one a lookup finds. *)
Lemma add_label_lookup i s a :
  let s' := set_alloc a (add_label i s) in
  ht_lookup (infos s') i (union_table s') = Some (last_label s + 1).
Proof.
  simpl. unfold ht_lookup. rewrite chain_insert.
  assert (forall t l, ht_hash (ht_insert t l l (union_table s)) i = ht_hash (union_table s) i)
    as Hh by done.
  rewrite Hh, info_at_insert. destruct (decide (last_label s + 1 = _)) as [_|]; [|done].
  rewrite decide_True by done. simpl.
  by rewrite info_at_insert, decide_True, info_eqb_refl by done.
Qed.

(** Interning again changes nothing. *)
Lemma union_intern_again recur info a b s l s' : rt_wf s -> solve_ub flags = false ->
  union_intern flags recur info a b s = (Ok l, s') ->
  union_intern flags recur info a b s' = (Ok l, s').
Proof.
  intros Hw Hub H.
  assert (ht_lookup (infos s') info (union_table s') = Some l) as Hl.
  { destruct (union_intern_plain flags recur _ _ _ _ _ _ Hw Hub H)
      as [[-> ?]|(al & -> & ->)]; [done|apply add_label_lookup]. }
  unfold union_intern, bind, gets. by rewrite Hl.
Qed.

(** C5: asking [__taint_union] twice for the same operation gives the same label
    and leaves the state alone the second time: labels are shared. *)
Theorem taint_union_dedup s l1 l2 op sz a b l s' :
  rt_wf s -> solve_ub flags = false ->
  0 <= l1 <= last_label s -> 0 <= l2 <= last_label s ->
  taint_union flags l1 l2 op sz a b s = (Ok l, s') ->
  taint_union flags l1 l2 op sz a b s' = (Ok l, s').
Proof.
  intros Hw Hub H1 H2 H.
  destruct (taint_union_fuel_grows flags 2 l1 l2 op sz a b ltac:(lia) ltac:(lia)
              s l s' Hw H) as [Hw' He].
  revert H. unfold taint_union. simpl. unfold taint_union_with at 1 3.
  destruct (negb (is_valid_op op)); [intros Hr; by run Hr|].
  destruct (if (l2 <? l1) && is_commutative op then (l2, l1, b, a) else (l1, l2, a, b))
    as [[[m1 m2] c] d] eqn:Es.
  assert (0 <= m1 <= last_label s /\ 0 <= m2 <= last_label s) as [Hm1 Hm2]
    by (case_match; simplify_eq; done).
  destruct (_ && negb (op =? Alloca)); [intros Hr; by run Hr|].
  destruct ((m1 =? kInitializingLabel) || _); [intros Hr; by run Hr|].
  unfold bind, gets, id. rewrite (reads_bounds s s'), (reads_operands s s') by done.
  destruct (union_bounds s m1 m2 op); [intros Hr; by run Hr|].
  destruct (union_operands s m1 m2 op sz c d) as [rc rd].
  rewrite (reads_simplify s s') by done.
  destruct (union_simplify s m1 m2 op sz rc rd) as [r|op']; [intros Hr; by run Hr|].
  rewrite (reads_union_info s s') by done. by apply union_intern_again.
Qed.

(** ** Storing a label *)

(** [s'] has at least the labels of [s]; shadow memory may differ. *)
Record grown (s s' : runtime) : Prop := {
  gr_last : last_label s <= last_label s';
  gr_infos : agree (infos s) (infos s') (last_label s)
}.

Lemma grown_refl s : grown s s.
Proof. done. Qed.

Lemma grown_trans s1 s2 s3 : grown s1 s2 -> grown s2 s3 -> grown s1 s3.
Proof.
  intros [? Ha] [? Hb]. split; [lia|]. intros l Hl. rewrite Hb by lia. apply Ha. lia.
Qed.

Lemma extends_grown s s' : extends s s' -> grown s s'.
Proof. by intros []. Qed.

Lemma ls_set_wf ls i v s : rt_wf s -> rt_wf (ls_set ls i v s) /\ grown s (ls_set ls i v s).
Proof. intros []. by split. Qed.

Lemma ls_set_room ls i v s k : room s k -> room (ls_set ls i v s) k.
Proof. intros []. by split. Qed.

Lemma ls_at_set ls i v s j : ls_at ls j (ls_set ls i v s) =
  if decide (i = j) then v else ls_at ls j s.
Proof.
  unfold ls_at, label_at, ls_set. simpl. case_decide as E.
  - subst. by rewrite lookup_insert_eq.
  - rewrite lookup_insert_ne by lia. done.
Qed.

(** A loop whose body keeps the invariant, takes at most one label and computes
    a value that satisfies a stable [P]: afterwards slot [j] holds a [P j]. *)
Lemma store_loop_spec (f : Z -> M runtime Z) (P : Z -> runtime -> Z -> Prop) ls s0 :
  (forall i s s' v, grown s s' -> P i s v -> P i s' v) ->
  (forall i s j, rt_wf s -> 0 <= i -> 0 <= j -> grown s0 s -> room s (1 + j) ->
     exists v s', f i s = (Ok v, s') /\ rt_wf s' /\ extends s s' /\ room s' j /\ P i s' v) ->
  forall k i s j, rt_wf s -> 0 <= i -> 0 <= j -> grown s0 s ->
  room s (Z.of_nat k + j) ->
  exists s', store_loop ls i k f s = (Ok tt, s') /\ rt_wf s' /\ grown s s' /\ room s' j /\
    (forall m, i <= m < i + Z.of_nat k -> P m s' (ls_at ls m s')) /\
    (forall m, m < i -> ls_at ls m s' = ls_at ls m s).
Proof.
  intros Hstable Hf. induction k as [|k IH]; intros i s j Hw Hi Hj H0 Hr.
  { exists s. split_and!; try done. lia. }
  destruct (Hf i s (Z.of_nat k + j) Hw Hi ltac:(lia) H0) as (v & s1 & E1 & Hw1 & He1 & Hr1 & HP).
  { eapply room_mono; [|done]. lia. }
  apply extends_grown in He1 as Hg1. destruct (ls_set_wf ls i v s1 Hw1) as [Hw2 Hg2].
  destruct (IH (i + 1) (ls_set ls i v s1) j Hw2) as (s' & E & Hw' & Hg' & Hr' & HP' & Hlow);
    [lia|lia|by do 2 (eapply grown_trans; [done|])|by apply ls_set_room|].
  exists s'. assert (grown s1 s') as Hg1' by by eapply grown_trans.
  split_and!; [|done| |done| |].
  - simpl. unfold bind, modify. by rewrite E1.
  - by eapply grown_trans.
  - intros m Hm. destruct (decide (m = i)) as [->|]; [|apply HP'; lia].
    rewrite Hlow, ls_at_set, decide_True by lia. by apply (Hstable i s1).
  - intros m Hm. rewrite Hlow, ls_at_set, decide_False by lia.
    unfold ls_at, label_at. by rewrite (ext_shadow _ _ He1).
Qed.

(** [e] is the label of the [8] bits of [l] from bit [b] on. *)
Definition extracts (l b : Z) (s : runtime) (e : Z) : Prop :=
  1 <= e <= last_label s /\
  info_eqb (get_label_info e s) (mk_info l 0 0 b Extract 8 0) = true.

Lemma extracts_grown l b s s' e : grown s s' -> extracts l b s e -> extracts l b s' e.
Proof.
  intros [? Ha] [? Hi]. split; [lia|]. unfold get_label_info in *. by rewrite Ha by lia.
Qed.

(** [Extract] and [Load] requests are never simplified away. *)
Lemma taint_union_plain_eq s l l2 op sz b : rt_wf s -> 1 <= l <= last_label s ->
  is_kind_of_label l Alloca s = false ->
  (op = Extract /\ l2 = 0) \/ (op = Load /\ 1 <= l2 <= last_label s /\ b = 0) ->
  taint_union flags l l2 op sz 0 b s =
  union_intern flags (taint_union_fuel flags 1) (union_info s l l2 op sz 0 b) 0 b s.
Proof.
  intros Hw Hl Hk Hop. pose proof (wf_last _ Hw). pose proof (wf_top _ Hw).
  pose proof instruction_order as HO. unfold taint_union. simpl. unfold taint_union_with at 1.
  assert (is_valid_op op = true) as ->
    by (apply supported_valid; destruct Hop as [[-> _]|[-> _]]; [do 4 right|]; by left).
  assert (is_commutative op = false) as ->.
  { unfold is_commutative. rewrite wrap_small by (unfold is_u; unfold_ops; lia).
    unfold_ops. repeat apply orb_false_intro; apply Z.eqb_neq; lia. }
  unfold CONST_OFFSET, kInitializingLabel. rewrite andb_false_r. simpl.
  replace (l =? 0) with false by lia. simpl.
  replace (l =? 2 ^ 32 - 1) with false by lia. replace (l2 =? 2 ^ 32 - 1) with false by lia.
  simpl. unfold bind, gets, id, union_bounds. rewrite Hk.
  assert (negb (op =? Load) && is_kind_of_label l2 Alloca s = false) as ->.
  { destruct Hop as [[-> ->]|[-> _]]; [|by rewrite Z.eqb_refl].
    unfold is_kind_of_label, get_label_info. rewrite (wf_const _ Hw). simpl. lia. }
  simpl. unfold union_operands, CONST_OFFSET.
  assert (Z.land op 255 = op) as ->.
  { change 255 with (Z.ones 8). rewrite Z.land_ones, Z.mod_small by (unfold_ops; lia). done. }
  replace (1 <=? l) with true by lia.
  unfold union_simplify, simplify_left, simplify_right.
  replace (l =? 0) with false by lia.
  destruct Hop as [[-> ->]|(-> & Hl2 & ->)].
  - change (1 <=? 0) with false. ops. ops. by rewrite andb_false_r.
  - replace (1 <=? l2) with true by lia. replace (l2 =? 0) with false by lia. ops. by ops.
Qed.

Lemma taint_union_extract s l b j : rt_wf s -> 1 <= l <= last_label s -> 0 <= j ->
  is_kind_of_label l Alloca s = false -> room s (1 + j) ->
  exists e s', taint_union flags l CONST_LABEL Extract 8 0 b s = (Ok e, s') /\
    rt_wf s' /\ extends s s' /\ room s' j /\ extracts l b s' e.
Proof.
  intros Hw Hl Hj Hk Hr. rewrite taint_union_plain_eq by (done || by left).
  unfold CONST_LABEL.
  set (info := union_info s l 0 Extract 8 0 b).
  destruct (union_intern_quiet flags (taint_union_fuel flags 1) (last_label s) info 0 b)
    with (s := s) (j := j) as (e & s' & E & Hw' & He & Hr'); try done; simpl; try lia.
  { pose proof instruction_order. unfold_ops. lia. }
  destruct (union_intern_spec flags _ (taint_union_fuel_grows flags 1) _ _ _ _ _ _ Hw
    (ltac:(simpl; lia) : 0 <= i_l1 info) (ltac:(simpl; lia) : 0 <= i_l2 info) E)
    as (_ & _ & ? & Hi).
  exists e, s'. split_and!; [done..|]. split; [done|].
  unfold get_label_info. apply info_eqb_eq in Hi. by apply info_eqb_eq.
Qed.

(** ** Loading it back *)

(** [n] consecutive input labels from [l] on. *)
Record input_run (s : runtime) (l n : Z) : Prop := {
  run_range : 1 <= l /\ l + n - 1 <= last_label s;
  run_op1 : 0 <= i_op1 (get_label_info l s) /\ i_op1 (get_label_info l s) + n < 2 ^ 64;
  run_bytes : forall i, 0 <= i < n -> i_op (get_label_info (l + i) s) = 0 /\
    i_op1 (get_label_info (l + i) s) = i_op1 (get_label_info l s) + i
}.

(** A label that may be stored to [n] bytes: an expression of that size, and a
    [Load] of consecutive input bytes if it is one. *)
Record storable (s : runtime) (l n : Z) : Prop := {
  st_label : 1 <= l <= last_label s;
  st_n : 1 <= n;
  st_size : i_size (get_label_info l s) = 8 * n;
  st_kind : is_kind_of_label l Alloca s = false;
  st_load : is_kind_of_label l Load s = true ->
    i_l2 (get_label_info l s) = n /\ input_run s (i_l1 (get_label_info l s)) n
}.

Lemma load_extracts_all s ls l n : rt_wf s ->
  (forall m, 0 <= m < n -> extracts l (8 * m) s (ls_at ls m s)) ->
  forall k i, 0 <= i -> i + Z.of_nat k <= n ->
  load_extracts s ls l (8 * i) i k = Some (8 * (i + Z.of_nat k)).
Proof.
  intros Hw He. induction k as [|k IH]; intros i Hi Hn.
  { simpl. f_equal. lia. }
  destruct (He i ltac:(lia)) as [Hr Hinfo]. apply info_eqb_eq in Hinfo as (E1 & _ & E3 & E4 & _ & E6).
  pose proof (wf_last _ Hw). pose proof (wf_top _ Hw). simpl in *. unfold kInitializingLabel.
  replace (ls_at ls i s =? 2 ^ 32 - 1) with false by lia.
  rewrite E1, E3, E4, E6, !Z.eqb_refl. simpl.
  replace (8 * i + 8) with (8 * (i + 1)) by lia. rewrite IH by lia. f_equal. lia.
Qed.

Lemma load_shape_run s ls l n : rt_wf s -> input_run s l n ->
  (forall m, 0 <= m < n -> ls_at ls m s = l + m) ->
  forall k i, 0 <= i -> i + Z.of_nat k <= n ->
  load_shape s ls (i_op1 (get_label_info l s)) i k = Some true.
Proof.
  intros Hw [Hr Ho Hb] Hls. induction k as [|k IH]; intros i Hi Hn; [done|]. simpl.
  pose proof (wf_last _ Hw). pose proof (wf_top _ Hw). unfold kInitializingLabel.
  rewrite Hls by lia. replace (l + i =? 2 ^ 32 - 1) with false by lia.
  destruct (Hb i ltac:(lia)) as [_ ->]. rewrite wrap_small by (unfold is_u; lia).
  rewrite Z.eqb_refl. simpl. apply IH; lia.
Qed.

(** The head of [__taint_union_load], up to the shape test. *)
Lemma load_head s ls n l0 : rt_wf s -> 4096 <= ls -> ls_at ls 0 s = l0 ->
  1 <= l0 <= last_label s -> i_size (get_label_info l0 s) <> 0 ->
  is_kind_of_label l0 Alloca s = false ->
  taint_union_load flags ls n s =
  match (if negb (i_op (get_label_info l0 s) =? 0) then Some false
         else load_shape s ls (i_op1 (get_label_info l0 s)) 1
                (if n =? 0 then S (size (shadow s)) else Z.to_nat (n - 1))) with
  | None => (Ok kInitializingLabel, s)
  | Some true =>
      if n =? 1 then (Ok l0, s) else taint_union flags l0 (u32 n) Load (u16 (n * 8)) 0 0 s
  | Some false =>
      match (if is_kind_of_label l0 Extract s
             then
               let parent := i_l1 (get_label_info l0 s) in
               match load_extracts s ls parent 0 0 (Z.to_nat n) with
               | None => None
               | Some offset =>
                   Some (if (i_size (get_label_info parent s) =? offset) &&
                            (offset =? n * 8) then Some parent else None)
               end
             else Some None) with
      | None => (Ok kInitializingLabel, s)
      | Some (Some parent) => (Ok parent, s)
      | Some None =>
          load_slow flags (Z.to_nat n) ls n (i_size (get_label_info l0 s) / 8) l0 s
      end
  end.
Proof.
  intros Hw Hls El Hr Hsz Hk. pose proof (wf_last _ Hw). pose proof (wf_top _ Hw).
  unfold taint_union_load. replace (ls <? 4096) with false by lia.
  unfold bind at 1, gets, id. rewrite El. unfold kInitializingLabel at 1.
  replace (l0 =? 2 ^ 32 - 1) with false by lia. unfold CONST_OFFSET.
  replace (1 <=? l0) with true by lia. apply Z.eqb_neq in Hsz. rewrite Hsz.
  unfold bind, assert_, ret. simpl. unfold is_constant_label, CONST_LABEL.
  replace (l0 =? 0) with false by lia. rewrite Hk. simpl.
  repeat (case_match; simplify_eq/=; try done).
Qed.

Lemma load_of_extracts s ls n l : rt_wf s -> 4096 <= ls -> 1 <= n ->
  (forall m, 0 <= m < n -> extracts l (8 * m) s (ls_at ls m s)) ->
  i_size (get_label_info l s) = 8 * n ->
  taint_union_load flags ls n s = (Ok l, s).
Proof.
  intros Hw Hls Hn He Hsz. pose proof (load_extracts_all s ls l n Hw He) as Hall.
  destruct (He 0 ltac:(lia)) as [Hr Hinfo].
  apply info_eqb_eq in Hinfo as (E1 & _ & E3 & E4 & _ & _). simpl in *.
  pose proof instruction_order.
  rewrite (load_head s ls n _ Hw Hls eq_refl); [|done|lia|].
  2:{ unfold is_kind_of_label. rewrite E3. unfold_ops. lia. }
  unfold is_kind_of_label. rewrite E1, E3, Z.eqb_refl.
  replace (Extract =? 0) with false by (unfold_ops; lia). simpl.
  specialize (Hall (Z.to_nat n) 0 ltac:(lia) ltac:(lia)). 
  change (8 * 0) with 0 in Hall. rewrite Hall, Hsz, Z.add_0_l.
  rewrite Z2Nat.id, Z.eqb_refl by lia. by replace (8 * n =? n * 8) with true by lia.
Qed.

Lemma load_of_run s ls n l : rt_wf s -> i_size (get_label_info l s) <> 0 ->
  4096 <= ls -> 2 <= n -> 8 * n < 2 ^ 16 -> input_run s l n ->
  (forall m, 0 <= m < n -> ls_at ls m s = l + m) ->
  taint_union_load flags ls n s = taint_union flags l n Load (8 * n) 0 0 s.
Proof.
  intros Hw Hsz Hls Hn Hn' Hrun Hat. pose proof Hrun as [Hr Ho Hb].
  destruct (Hb 0 ltac:(lia)) as [Hop _]. rewrite Z.add_0_r in Hop.
  pose proof instruction_order.
  rewrite (load_head s ls n l Hw Hls); [| |lia| |].
  - rewrite Hop. simpl. change (0 =? 0) with true. simpl.
    replace (n =? 0) with false by lia. rewrite (load_shape_run s ls l n) by (done || lia).
    replace (n =? 1) with false by lia. rewrite !wrap_small by (unfold is_u; lia).
    by rewrite (Z.mul_comm n 8).
  - rewrite Hat by lia. lia.
  - done.
  - unfold is_kind_of_label. rewrite Hop. lia.
Qed.

Lemma load_of_byte s ls l : rt_wf s -> sized (infos s) (last_label s) -> 4096 <= ls ->
  ls_at ls 0 s = l -> 1 <= l <= last_label s -> i_size (get_label_info l s) = 8 ->
  is_kind_of_label l Alloca s = false ->
  exists l', taint_union_load flags ls 1 s = (Ok l', s) /\ 1 <= l' <= last_label s /\
    forall env, eval (infos s) env l' = eval (infos s) env l.
Proof.
  intros Hw Hsz Hls El Hl Hs8 Hk. rewrite (load_head s ls 1 l) by (done || lia).
  destruct (Z.eqb_spec (i_op (get_label_info l s)) 0) as [Hop|Hop]; simpl; [by exists l|].
  rewrite Hs8. change (8 / 8) with 1.
  destruct (is_kind_of_label l Extract s) eqn:Hx; [|by exists l].
  pose proof (wf_last _ Hw). pose proof (wf_top _ Hw). rewrite El. unfold kInitializingLabel.
  replace (l =? 2 ^ 32 - 1) with false by lia.
  unfold is_kind_of_label in Hx. apply Z.eqb_eq in Hx. rewrite Hx, !Z.eqb_refl, Hs8.
  destruct (Z.eqb_spec 0 (i_op2 (get_label_info l s))) as [E2|E2]; simpl.
  2:{ change (0 =? 1 * 8) with false. rewrite andb_false_r. by exists l. }
  change (0 + 8) with 8. change (8 =? 1 * 8) with true. rewrite andb_true_r.
  destruct (Z.eqb_spec (i_size (get_label_info (i_l1 (get_label_info l s)) s)) 8) as [E3|E3];
    simpl; [|by exists l].
  exists (i_l1 (get_label_info l s)). unfold get_label_info in *.
  destruct (wf_dag _ Hw l Hl) as [Hd _]. pose proof (Hsz l Hl) as [_ Hws]. revert Hws.
  rewrite Hx. ops. intros (Hl1 & Hl2 & _ & Hle). split_and!; [done|lia|lia|].
  intros env. rewrite (eval_unfold _ env (last_label s) l) by (done || apply Hw).
  unfold info_value, operand1, operand2. rewrite Hx, Hl2, <- E2, Hs8.
  apply Z.eqb_neq in Hl1 as Hl1'. rewrite Hl1'. ops. rewrite op_value_Extract, Z.shiftr_0_r.
  symmetry. apply wrap_small.
  pose proof (eval_bound (infos s) env (last_label s) (wf_dag _ Hw) Hsz
                (i_l1 (info_at (infos s) l)) ltac:(lia)) as Hb.
  assert (label_width (infos s) (i_l1 (info_at (infos s) l)) <= 8) as Hle8.
  { unfold label_width, width. case_if; lia. }
  unfold is_u in *. pose proof (Z.pow_le_mono_r 2 _ _ ltac:(lia) Hle8). lia.
Qed.

(** Reading [n] input bytes from [l] on: the label means those bytes. *)
Lemma taint_union_load_run s l n : rt_wf s -> room s 7 -> 1 <= n -> input_run s l n ->
  exists l' s', taint_union flags l n Load (8 * n) 0 0 s = (Ok l', s') /\
    rt_wf s' /\ extends s s' /\ 1 <= l' <= last_label s' /\
    forall env, eval (infos s') env l' =
      le_bytes env (i_op1 (get_label_info l s)) (Z.to_nat n).
Proof.
  intros Hw Hr Hn [Hrange _ Hb]. destruct (Hb 0 ltac:(lia)) as [Hop _].
  rewrite Z.add_0_r in Hop. pose proof instruction_order.
  rewrite taint_union_plain_eq; [|done|lia|unfold is_kind_of_label; rewrite Hop; lia|right; lia].
  set (info := union_info s l n Load (8 * n) 0 0).
  destruct (union_intern_total flags (taint_union_fuel flags 1) (last_label s)) with
    (info := info) (a := 0) (b := 0) (s := s) (j := 0)
    as (l' & s' & E & Hw' & He & _); try done; simpl; try lia.
  { intros. by apply taint_union_icmp_total. }
  destruct (union_intern_spec flags _ (taint_union_fuel_grows flags 1) _ _ _ _ _ _ Hw
    (ltac:(simpl; lia) : 0 <= i_l1 info) (ltac:(simpl; lia) : 0 <= i_l2 info) E)
    as (_ & _ & Hl' & Hi).
  exists l', s'. split_and!; try done; try lia. intros env.
  rewrite (eval_record s' env l' info Hw' Hl' Hi). unfold request_value, info_value. simpl.
  ops. by rewrite (ext_infos _ _ He) by lia.
Qed.

(** The head of [__taint_union_store] for a storable label. *)
Lemma store_head s l ls n : rt_wf s -> storable s l n -> 4096 <= ls ->
  taint_union_store flags l ls n s =
  (if n =? 1 then modify (ls_set ls 0 l)
   else if is_kind_of_label l Load s
   then store_loop ls 0 (Z.to_nat n) (fun i => ret (u32 (i_l1 (get_label_info l s) + i)))
   else store_loop ls 0 (Z.to_nat n)
          (fun i => taint_union flags l CONST_LABEL Extract 8 0 (i * 8))) s.
Proof.
  intros Hw [Hl Hn Hsz Hk _] Hls. pose proof (wf_last _ Hw). pose proof (wf_top _ Hw).
  unfold taint_union_store, bind, gets, id, assert_, kInitializingLabel.
  replace (ls <? 4096) with false by lia. replace (l =? 2 ^ 32 - 1) with false by lia.
  replace (l <=? last_label s) with true by lia. simpl.
  replace (l =? 0) with false by lia. rewrite Hk, Hsz. simpl.
  destruct (Z.eqb_spec n 1) as [->|]; [done|]. simpl. by case_match.
Qed.

Lemma input_run_grown s s' l n : grown s s' -> 1 <= n ->
  input_run s l n -> input_run s' l n.
Proof.
  intros [? Ha] Hn [Hr Ho Hb]. unfold get_label_info in *.
  split; unfold get_label_info; rewrite ?(Ha l) by lia; [lia|done|].
  intros i Hi. rewrite (Ha (l + i)) by lia. by apply Hb.
Qed.

(** C6: a label stored to [n] bytes and loaded from them again means what it
    meant, whether it was stored whole, as input bytes or as extracted bytes;
    neither call fails while there is room for the labels they take. *)
Theorem store_load_roundtrip s l ls n :
  rt_wf s -> sized (infos s) (last_label s) -> storable s l n -> 4096 <= ls ->
  room s (n + 7) ->
  exists s1 l' s2,
    taint_union_store flags l ls n s = (Ok tt, s1) /\
    taint_union_load flags ls n s1 = (Ok l', s2) /\
    rt_wf s2 /\ grown s s2 /\ 1 <= l' <= last_label s2 /\
    forall env, eval (infos s2) env l' = eval (infos s) env l.
Proof.
  intros Hw Hsz Hst Hls Hr. rewrite store_head by done. pose proof Hst as [Hl Hn Hsize Hk Hload].
  destruct (Z.eqb_spec n 1) as [->|Hn1].
  { destruct (ls_set_wf ls 0 l s Hw) as [Hw1 Hg1].
    destruct (load_of_byte (ls_set ls 0 l s) ls l) as (l' & E & Hl' & Hev);
      [done|done|done|by rewrite ls_at_set|done|done|done|].
    exists (ls_set ls 0 l s), l', (ls_set ls 0 l s). split_and!; done || apply Hl'. }
  destruct (is_kind_of_label l Load s) eqn:HL.
  - destruct (Hload eq_refl) as [Hl2 Hrun].
    set (l1 := i_l1 (get_label_info l s)) in *.
    pose proof (run_range _ _ _ Hrun) as Hrr. pose proof (wf_last _ Hw). pose proof (wf_top _ Hw).
    destruct (store_loop_spec (fun i => ret (u32 (l1 + i)))
                (fun i _ v => i < n -> v = l1 + i) ls s) with (k := Z.to_nat n) (i := 0) (s := s) (j := 7)
      as (s1 & E1 & Hw1 & Hg1 & Hr1 & HP & _); try done; try lia.
    { intros i s0 j Hw0 Hi Hj _ Hr0. exists (u32 (l1 + i)), s0. split_and!; try done.
      - eapply room_mono; [|done]. lia.
      - intros Hin. apply wrap_small. unfold is_u. lia. }
    { eapply room_mono; [|done]. lia. }
    pose proof (input_run_grown s s1 l1 n Hg1 Hn Hrun) as Hrun1.
    destruct (taint_union_load_run s1 l1 n Hw1 Hr1 Hn Hrun1)
      as (l' & s2 & E2 & Hw2 & He2 & Hl' & Hev).
    pose proof (Hsz l Hl) as [Hs16 _]. unfold get_label_info in Hsize. rewrite Hsize in Hs16.
    assert (get_label_info l1 s1 = get_label_info l1 s) as Hinf.
    { apply Hg1. lia. }
    exists s1, l', s2. split_and!; try done; try lia.
    + rewrite (load_of_run s1 ls n l1); try done; try lia.
      * rewrite Hinf. destruct (Hsz l1 ltac:(lia)) as [? _]. unfold get_label_info. lia.
      * intros m Hm. apply HP; lia.
    + eapply grown_trans; [done|by apply extends_grown].
    + intros env. rewrite Hev, Hinf, (eval_unfold (infos s) env (last_label s) l)
        by (done || apply Hw).
      unfold info_value. unfold is_kind_of_label, get_label_info in HL, Hl2.
      apply Z.eqb_eq in HL. rewrite HL. ops. by rewrite Hl2.
  - destruct (store_loop_spec (fun i => taint_union flags l CONST_LABEL Extract 8 0 (i * 8))
                (fun i => extracts l (8 * i)) ls s) with (k := Z.to_nat n) (i := 0) (s := s) (j := 7)
      as (s1 & E1 & Hw1 & Hg1 & Hr1 & HP & _); try done; try lia.
    { intros i s1 s2 v. apply extracts_grown. }
    { intros i s1 j Hw1 Hi Hj [Hg Ha] Hr1. rewrite (Z.mul_comm i 8).
      apply taint_union_extract; try done; [lia|].
      unfold is_kind_of_label, get_label_info. by rewrite Ha by lia. }
    { eapply room_mono; [|done]. lia. }
    assert (get_label_info l s1 = get_label_info l s) as Hinf by (apply Hg1; lia).
    exists s1, l, s1. split_and!; try done.
    + apply load_of_extracts; try done; [|by rewrite Hinf]. intros m Hm. apply HP. lia.
    + lia.
    + destruct Hg1. lia.
    + intros env. apply (eval_agree _ _ _ (last_label s)); [apply Hw|apply Hg1|done].
Qed.

End shadow.

(** ** Concrete runs *)

Section runs.
#[local] Existing Instance llvm14.

Lemma taint_union_dedup_witness : exists s',
  taint_union plain_flags 2 1 Add 8 0 0 (init_input 3) = (Ok 4, s') /\
  taint_union plain_flags 2 1 Add 8 0 0 s' = (Ok 4, s').
Proof.
  exists (snd (taint_union plain_flags 2 1 Add 8 0 0 (init_input 3))).
  assert (taint_union plain_flags 2 1 Add 8 0 0 (init_input 3) =
    (Ok 4, snd (taint_union plain_flags 2 1 Add 8 0 0 (init_input 3)))) as E
    by (vm_compute; reflexivity).
  split; [exact E|]. destruct (init_wf 3 ltac:(done)) as [Hw _].
  apply (taint_union_dedup plain_flags (init_input 3) 2 1 Add 8 0 0 4 _ Hw eq_refl);
    [vm_compute; by split|vm_compute; by split|exact E].
Defined.

(** The runtime with the label [4] of the first two input bytes, swapped. *)
Definition swapped_state : runtime :=
  snd (taint_union plain_flags 2 1 Concat 16 0 0 (init_input 3)).

Lemma store_load_roundtrip_witness : exists s1 l' s2,
  taint_union_store plain_flags 4 8192 2 swapped_state = (Ok tt, s1) /\
  taint_union_load plain_flags 8192 2 s1 = (Ok l', s2) /\
  forall env, eval (infos s2) env l' = eval (infos swapped_state) env 4.
Proof.
  destruct (init_wf 3 ltac:(done)) as [Hw0 _].
  assert (taint_union plain_flags 2 1 Concat 16 0 0 (init_input 3) = (Ok 4, swapped_state)) as E
    by (vm_compute; reflexivity).
  destruct (taint_union_fuel_grows plain_flags 2 2 1 Concat 16 0 0 ltac:(lia) ltac:(lia)
              _ _ _ Hw0 E) as [Hw _].
  destruct (store_load_roundtrip plain_flags swapped_state 4 8192 2 Hw)
    as (s1 & l' & s2 & E1 & E2 & _ & _ & _ & Hev).
  - assert (last_label swapped_state = 4) as -> by (vm_compute; reflexivity).
    intros l Hl. assert (l = 1 \/ l = 2 \/ l = 3 \/ l = 4) as Hc by lia.
    destruct_or! Hc; subst; vm_compute; intuition congruence.
  - split; [vm_compute; intuition congruence|lia|vm_compute; reflexivity..|].
    vm_compute. congruence.
  - lia.
  - split; vm_compute; congruence.
  - exists s1, l', s2. exact (conj E1 (conj E2 Hev)).
Defined.

(** A comparison [2] of the first input byte with 7, sign-extended to 32 bits
    as [3]. *)
Definition sext_state : runtime :=
  snd (bind (taint_union plain_flags 1 0 (icmp bveq) 8 0 7)
         (fun c => taint_union plain_flags c 0 SExt 32 0 0) (init_input 1)).

(** Truncating a sign-extended comparison to eight bits is not simplified
    soundly: the function answers with the comparison itself, whose value is one
    when it holds, while the truncation of the extension is 255. *)
Theorem trunc_of_sext_icmp :
  taint_union plain_flags 3 0 Trunc 8 0 0 sext_state = (Ok 2, sext_state) /\
  eval (infos sext_state) (fun _ => 7) 2 = 1 /\
  request_value (infos sext_state) (fun _ => 7) (mk_info 3 0 0 0 Trunc 8 0) = 255.
Proof.
  unfold request_value. rewrite eval_eq. split_and!; vm_compute; reflexivity.
Qed.

End runs.
