(* ===== verification/BoundsSpec.v ===== *)
(** * Stack objects and bounds

    Bounds labels live at the top of the label space: an [alloca] takes the next
    one down, and a frame gives all of its own back when it returns. *)

From S2P Require Import Prelude Dfsan HashTable Runtime LabelSem RuntimeSpec InputSpec.
Local Open Scope prog_scope.

Section bounds.
Context {LLVM : InstructionDef} (flags : Flags).

(** ** Checking accesses against an object *)

Lemma set_label_loop_run label k : forall p s, exists sh,
  set_label_loop label p k s = (Ok tt, set_shadow sh s).
Proof.
  induction k as [|k IH]; intros p s; simpl.
  { exists (shadow s). by destruct s. }
  unfold bind, gets. destruct (label =? label_at p s); simpl.
  - apply IH.
  - destruct (IH (p + 4) (set_shadow (<[p:=label]> (shadow s)) s)) as [sh ->]. by exists sh.
Qed.

Lemma alloca_run l sz elem base s : trace_bounds flags = true ->
  exists sh, taint_trace_alloca flags l sz elem base s =
    (Ok (u32 (alloca_stack_top s - 1)),
     set_shadow sh
       (set_infos (<[u32 (alloca_stack_top s - 1) :=
                     mk_info 0 l base (u64 (base + u64 (sz * elem))) Alloca 64 0]> (infos s))
          (set_top (u32 (alloca_stack_top s - 1)) s))).
Proof.
  intros Hf. unfold taint_trace_alloca, dfsan_set_label. rewrite Hf.
  unfold bind, gets, modify, ret. simpl. destruct (base =? 0).
  { eexists. simpl. instantiate (1 := shadow s). done. }
  edestruct set_label_loop_run as [sh ->]. by exists sh.
Qed.

(** What an access reports. *)
Definition verdict (addr sz lo hi : Z) : option Z :=
  if addr <? lo then Some F_MEMERR_OLB
  else if hi <? addr + sz then Some F_MEMERR_OUB
  else None.

(** The events of an access that is judged by [v]. *)
Definition reported (v : option Z) (lbl addr sl n : Z) (s : runtime) : runtime :=
  match v with Some f => add_event (trace_memerr lbl addr sl n f) s | None => s end.

(** An access through the label of an object from [lo] to [hi]. *)
Lemma check_bounds_run s lbl addr n sl lo hi :
  trace_bounds flags = true -> exit_on_memerror flags = false -> lbl <> kInitializingLabel ->
  i_op (get_label_info lbl s) = Alloca ->
  i_op1 (get_label_info lbl s) = lo -> i_op2 (get_label_info lbl s) = hi ->
  lo <= hi < 2 ^ 64 -> 0 < addr < 2 ^ 64 -> 0 <= n <= lo ->
  taint_check_bounds flags lbl addr sl n s = (Ok tt, reported (verdict addr n lo hi) lbl addr sl n s).
Proof.
  intros Hf Hx Hl Ho <- <- Hlo Ha [Hn Hwrap]. pose proof instruction_order as HO.
  unfold taint_check_bounds, verdict. rewrite Hf. apply Z.eqb_neq in Hl. rewrite Hl.
  replace (addr =? 0) with false by lia. unfold bind, gets. rewrite Ho.
  replace (Alloca =? Free) with false by (unfold_ops; lia). rewrite Z.eqb_refl.
  unfold memerr, emit, modify, bind, ret. rewrite Hx.
  set (lo := i_op1 _) in *. set (hi := i_op2 _) in *.
  destruct (Z.ltb_spec addr lo); [done|].
  destruct (decide (addr + n < 2 ^ 64)) as [Hs|Hs].
  - rewrite (wrap_small 64 (addr + n)) by (unfold is_u; lia).
    replace (addr + n <? lo) with false by lia. rewrite orb_false_r. by destruct (hi <? addr + n).
  - assert (u64 (addr + n) = addr + n - 2 ^ 64) as ->.
    { unfold wrap. rewrite <- (Z.mod_add (addr + n) (-1)), Z.mod_small by lia. lia. }
    replace (hi <? addr + n) with true by lia.
    by assert (((hi <? addr + n - 2 ^ 64) || (addr + n - 2 ^ 64 <? lo)) = true) as -> by lia.
Qed.

(** C8: an access through the label of a stack object of [sz * elem] bytes at
    [base] is reported exactly when it leaves the object, below it or above it.
    The access is no longer than the addresses below the object, so that its end
    cannot wrap around into the object ([check_bounds_wraps]). *)
Theorem alloca_check_bounds s l sz elem base addr n sl :
  trace_bounds flags = true -> exit_on_memerror flags = false ->
  0 < alloca_stack_top s < 2 ^ 32 ->
  0 < base -> 0 <= sz -> 0 <= elem -> base + sz * elem < 2 ^ 64 ->
  0 < addr < 2 ^ 64 -> 0 <= n <= base ->
  exists lbl s1 s2,
    taint_trace_alloca flags l sz elem base s = (Ok lbl, s1) /\
    taint_check_bounds flags lbl addr sl n s1 = (Ok tt, s2) /\
    events s2 = match verdict addr n base (base + sz * elem) with
                | Some f => trace_memerr lbl addr sl n f :: events s
                | None => events s
                end.
Proof.
  intros Hf Hx Htop Hb Hsz Hel Hend Ha Hn.
  destruct (alloca_run l sz elem base s Hf) as [sh E].
  rewrite (wrap_small 32 (alloca_stack_top s - 1)) in E by (unfold is_u; lia).
  rewrite (wrap_small 64 (sz * elem)), (wrap_small 64 (base + _)) in E by (unfold is_u; lia).
  set (top := alloca_stack_top s - 1) in *.
  do 2 eexists. rewrite E. set (s1 := set_shadow sh _).
  assert (get_label_info top s1 = mk_info 0 l base (base + sz * elem) Alloca 64 0) as Hi.
  { unfold get_label_info. simpl. by rewrite info_at_insert, decide_True. }
  eexists. split; [done|]. split.
  - apply (check_bounds_run s1 top addr n sl base (base + sz * elem)); rewrite ?Hi; try done; try lia.
    unfold kInitializingLabel. lia.
  - by destruct (verdict _ _ _ _).
Qed.

(** ** Frames *)

(** What a function does to the stack of bounds labels: allocate objects and call
    other functions, between entry and exit. *)
Inductive act :=
  | Allocate (l sz elem base : Z)
  | Call (body : list act).

Fixpoint run_act (a : act) : M runtime unit :=
  match a with
  | Allocate l sz elem base => let! _ := taint_trace_alloca flags l sz elem base in ret tt
  | Call body =>
      taint_push_stack_frame flags ;;;
      (fix run_body (b : list act) : M runtime unit :=
         match b with
         | [] => ret tt
         | a :: b' => run_act a ;;; run_body b'
         end) body ;;;
      taint_pop_stack_frame flags
  end.

Fixpoint run_acts (b : list act) : M runtime unit :=
  match b with
  | [] => ret tt
  | a :: b' => run_act a ;;; run_acts b'
  end.

Lemma run_call body : run_act (Call body) =
  (taint_push_stack_frame flags ;;; run_acts body ;;; taint_pop_stack_frame flags).
Proof. done. Qed.

(** How deeply calls nest. *)
Fixpoint act_depth (a : act) : nat :=
  match a with
  | Allocate _ _ _ _ => 0
  | Call body =>
      S ((fix go (b : list act) := match b with [] => O | a :: b' => max (act_depth a) (go b') end)
           body)
  end.

Fixpoint acts_depth (b : list act) : nat :=
  match b with [] => O | a :: b' => max (act_depth a) (acts_depth b') end.

(** The frames below index [i] are as they were. *)
Definition same_frames (i : Z) (s s' : runtime) : Prop :=
  current_saved_stack_index s' = i /\
  forall j, j <= i -> saved_alloca_stack_top s' !! j = saved_alloca_stack_top s !! j.

Section frames.
Hypothesis Htrace : trace_bounds flags = true.

Lemma push_run s : -1 <= current_saved_stack_index s ->
  current_saved_stack_index s + 1 < MAX_SAVED_STACK_ENTRIES ->
  taint_push_stack_frame flags s =
  (Ok tt, set_saved (<[current_saved_stack_index s + 1 := alloca_stack_top s]>
                       (saved_alloca_stack_top s)) (current_saved_stack_index s + 1) s).
Proof.
  intros H0 Hi. unfold taint_push_stack_frame, array_set. rewrite Htrace. unfold bind, gets, lift, id.
  replace (current_saved_stack_index s <? MAX_SAVED_STACK_ENTRIES) with true by lia.
  replace (0 <=? current_saved_stack_index s + 1) with true by lia.
  by replace (current_saved_stack_index s + 1 <? MAX_SAVED_STACK_ENTRIES) with true by lia.
Qed.

Lemma pop_run s : 0 <= current_saved_stack_index s < MAX_SAVED_STACK_ENTRIES ->
  taint_pop_stack_frame flags s =
  (Ok tt, set_saved (saved_alloca_stack_top s) (current_saved_stack_index s - 1)
     (set_top (default 0 (saved_alloca_stack_top s !! current_saved_stack_index s)) s)).
Proof.
  intros Hi. unfold taint_pop_stack_frame, array_get. rewrite Htrace. unfold bind, gets, lift, id.
  replace (0 <=? current_saved_stack_index s) with true by lia.
  by replace (current_saved_stack_index s <? MAX_SAVED_STACK_ENTRIES) with true by lia.
Qed.

(** One call, given what its body does. *)
Lemma call_run body s : -1 <= current_saved_stack_index s ->
  current_saved_stack_index s + 1 < MAX_SAVED_STACK_ENTRIES ->
  (forall s1, current_saved_stack_index s1 = current_saved_stack_index s + 1 ->
     exists s2, run_acts body s1 = (Ok tt, s2) /\
       same_frames (current_saved_stack_index s1) s1 s2) ->
  exists s', run_act (Call body) s = (Ok tt, s') /\
    same_frames (current_saved_stack_index s) s s' /\
    alloca_stack_top s' = alloca_stack_top s.
Proof.
  intros H0 Hi Hbody. rewrite run_call. unfold bind at 1. rewrite push_run by done.
  set (s1 := set_saved _ _ s). destruct (Hbody s1 eq_refl) as (s2 & E2 & Hi2 & Hs2).
  unfold bind. rewrite E2. simpl in Hi2. rewrite pop_run by lia.
  eexists. split; [done|]. simpl. rewrite Hi2.
  assert (saved_alloca_stack_top s2 !! (current_saved_stack_index s + 1) =
          Some (alloca_stack_top s)) as ->.
  { rewrite Hs2 by done. simpl. by rewrite lookup_insert_eq. }
  split; [|done]. split; simpl; [lia|]. intros j Hj. rewrite Hs2 by (simpl; lia).
  simpl. by rewrite lookup_insert_ne by lia.
Qed.

Lemma same_frames_trans i s1 s2 s3 :
  same_frames i s1 s2 -> same_frames i s2 s3 -> same_frames i s1 s3.
Proof. intros [? H1] [? H2]. split; [done|]. intros j Hj. by rewrite H2, H1. Qed.

Lemma run_acts_frames n : forall body s, (acts_depth body <= n)%nat ->
  -1 <= current_saved_stack_index s ->
  current_saved_stack_index s + Z.of_nat n < MAX_SAVED_STACK_ENTRIES ->
  exists s', run_acts body s = (Ok tt, s') /\
    same_frames (current_saved_stack_index s) s s'.
Proof.
  induction n as [n IHn] using lt_wf_ind.
  induction body as [|a body IH]; intros s Hd H0 Hi; [by exists s|].
  simpl in Hd.
  assert (exists s1, run_act a s = (Ok tt, s1) /\
            same_frames (current_saved_stack_index s) s s1) as (s1 & E1 & Hs1).
  { destruct a as [l sz elem base|b].
    - destruct (alloca_run l sz elem base s Htrace) as [sh E]. eexists. split.
      + simpl. unfold bind. by rewrite E.
      + done.
    - simpl in Hd. fold acts_depth in Hd.
      destruct (call_run b s H0 ltac:(lia)) as (s1 & ? & ? & _); [|by exists s1].
      intros s2 Hs2. apply (IHn (n - 1)%nat); [lia|lia|lia|lia]. }
  destruct (IH s1) as (s2 & E2 & Hs2); [lia|destruct Hs1; lia|destruct Hs1; lia|].
  exists s2. split; [simpl; unfold bind; by rewrite E1|].
  destruct Hs1 as [Hc1 Hs1]. rewrite Hc1 in Hs2. by eapply same_frames_trans.
Qed.

(** C9: a call gives back every bounds label its frame and the frames below it
    took: the top of the label space and the stack of saved tops are as they were
    before the call, for calls nested up to 1023 deep. *)
Theorem call_restores_bounds body s : 0 <= current_saved_stack_index s ->
  current_saved_stack_index s + Z.of_nat (act_depth (Call body)) < MAX_SAVED_STACK_ENTRIES ->
  exists s', run_act (Call body) s = (Ok tt, s') /\
    alloca_stack_top s' = alloca_stack_top s /\
    current_saved_stack_index s' = current_saved_stack_index s /\
    forall j, j <= current_saved_stack_index s ->
      saved_alloca_stack_top s' !! j = saved_alloca_stack_top s !! j.
Proof.
  intros H0 Hd. simpl in Hd. fold acts_depth in Hd.
  destruct (call_run body s ltac:(lia) ltac:(lia)) as (s' & E & [Hi Hs] & Ht).
  { intros s1 Hs1. eapply (run_acts_frames (acts_depth body)); lia. }
  exists s'. by split_and!.
Qed.

(** Running past the end of the array. *)
Lemma push_overflow s : current_saved_stack_index s = MAX_SAVED_STACK_ENTRIES - 1 ->
  taint_push_stack_frame flags s = (Err Undefined, s).
Proof.
  intros Hi. unfold taint_push_stack_frame, array_set. rewrite Htrace. unfold bind, gets, lift, id.
  replace (current_saved_stack_index s <? MAX_SAVED_STACK_ENTRIES) with true by lia.
  replace (current_saved_stack_index s + 1 <? MAX_SAVED_STACK_ENTRIES) with false by lia.
  by rewrite andb_false_r.
Qed.

Lemma acts_overflow n : forall body s, (acts_depth body <= n)%nat -> -1 <= current_saved_stack_index s ->
  current_saved_stack_index s < MAX_SAVED_STACK_ENTRIES ->
  MAX_SAVED_STACK_ENTRIES <= current_saved_stack_index s + Z.of_nat (acts_depth body) ->
  fst (run_acts body s) = Err Undefined.
Proof.
  induction n as [n IHn] using lt_wf_ind.
  induction body as [|a body IH]; intros s Hn H0 Hi Hd; [simpl in Hd; lia|].
  simpl in Hd, Hn. change (run_acts (a :: body)) with (run_act a ;;; run_acts body). unfold bind at 1.
  destruct (decide (current_saved_stack_index s + Z.of_nat (act_depth a) < MAX_SAVED_STACK_ENTRIES)) as [Ha|Ha].
  - destruct (run_acts_frames (act_depth a) [a] s) as (s1 & E1 & Hc & _); [simpl; lia|lia|lia|].
    change (run_acts [a] s) with ((run_act a ;;; ret tt) s) in E1. unfold bind in E1.
    destruct (run_act a s) as [[[]|e] s2]; [|done]. injection E1 as ->. apply IH; lia.
  - destruct a as [l sz elem base|b]; [simpl in Ha; lia|]. simpl in Ha, Hn. fold acts_depth in Ha, Hn.
    rewrite run_call. unfold bind at 1.
    destruct (decide (current_saved_stack_index s = MAX_SAVED_STACK_ENTRIES - 1)) as [Hm|Hm];
      [by rewrite push_overflow|].
    rewrite push_run by lia. unfold bind at 1.
    specialize (IHn (acts_depth b) ltac:(lia) b (set_saved (<[current_saved_stack_index s + 1 := alloca_stack_top s]>
      (saved_alloca_stack_top s)) (current_saved_stack_index s + 1) s) ltac:(lia)). simpl in IHn.
    specialize (IHn ltac:(lia) ltac:(lia) ltac:(lia)).
    by destruct (run_acts b _) as [[|e] s3]; simplify_eq/=.
Qed.

(** C10: how deep calls can nest. A program of calls and stack objects, however
    they are nested, runs to its end if the calls never nest deeper than the array
    of saved tops has room for; otherwise [__taint_push_stack_frame] writes past
    the end of the array, at the call that is one too deep: its guard does not
    stop it. *)
Theorem deep_calls_overflow body s :
  0 <= current_saved_stack_index s < MAX_SAVED_STACK_ENTRIES ->
  fst (run_acts body s) =
    if decide (current_saved_stack_index s + Z.of_nat (acts_depth body) < MAX_SAVED_STACK_ENTRIES)
    then Ok tt else Err Undefined.
Proof.
  intros Hi. case_decide as Hd.
  - destruct (run_acts_frames (acts_depth body) body s) as (s' & -> & _); done || lia.
  - apply (acts_overflow (acts_depth body)); lia.
Qed.

End frames.

End bounds.

(** ** Concrete runs *)

Section runs.
#[local] Existing Instance llvm14.

Lemma alloca_check_bounds_witness : exists lbl s1 s2,
  taint_trace_alloca plain_flags 0 4 8 0x7000 (init_input 2) = (Ok lbl, s1) /\
  taint_check_bounds plain_flags lbl 0x701c 0 8 s1 = (Ok tt, s2) /\
  events s2 = [trace_memerr lbl 0x701c 0 8 F_MEMERR_OUB].
Proof.
  apply (alloca_check_bounds plain_flags (init_input 2) 0 4 8 0x7000 0x701c 8 0);
    try lia; vm_compute; by split || reflexivity.
Defined.

(** An access of 200 bytes that starts at the end of the address space and wraps
    around into the object is not reported. *)
Example check_bounds_wraps :
  let '(r, s1) := taint_trace_alloca plain_flags 0 100 1 100 dfsan_init in
  match r with
  | Ok lbl => taint_check_bounds plain_flags lbl (2 ^ 64 - 50) 0 200 s1 = (Ok tt, s1)
  | Err _ => False
  end.
Proof. vm_compute. reflexivity. Qed.

Definition two_calls : list act :=
  [Allocate 0 4 4 0x7000; Call [Allocate 0 1 8 0x6000; Call []]; Allocate 0 1 1 0x7100].

Lemma call_restores_bounds_witness : exists s',
  run_act plain_flags (Call two_calls) dfsan_init = (Ok tt, s') /\
  alloca_stack_top s' = alloca_stack_top dfsan_init.
Proof.
  destruct (call_restores_bounds plain_flags eq_refl two_calls dfsan_init)
    as (s' & E & Ht & _); [done|vm_compute; reflexivity|].
  exists s'. exact (conj E Ht).
Defined.

(** [n] nested calls. *)
Fixpoint nest (n : nat) : list act :=
  match n with O => [] | S n' => [Call (nest n')] end.

(** The 1024th call of a program that starts. *)
Lemma deep_calls_overflow_witness :
  fst (run_acts plain_flags (nest 1023) dfsan_init) = Ok tt /\
  fst (run_acts plain_flags (Allocate 0 4 4 0x7000 :: nest 1024) dfsan_init) = Err Undefined.
Proof.
  split.
  - rewrite (deep_calls_overflow plain_flags eq_refl (nest 1023) dfsan_init ltac:(done)).
    vm_compute. reflexivity.
  - rewrite (deep_calls_overflow plain_flags eq_refl (Allocate 0 4 4 0x7000 :: nest 1024) dfsan_init
      ltac:(done)).
    vm_compute. reflexivity.
Defined.

End runs.
