(* ===== verification/LProbe.v ===== *)
(** * The table of compiled functions: [solvers/wheels/lockfreehash/lprobe/hash_table.h]

    Prioritised linear probing, as one thread uses it: the solver looks a tree
    up, compiles it when it is not there and inserts the function. Deletion is
    not used and not modelled. *)

From Stdlib Require Import SpecFloat.
From stdpp Require Import list_numbers.
From S2P Require Import Prelude.
Local Open Scope prog_scope.

(** ** The table *)

Module Table.

(** The class parameter [HASH]; [cmp] is negative, zero or positive. *)
Class HashStruct (E K : Type) := {
  getKey : E -> K;
  hs_hash : K -> Z;
  hs_cmp : K -> K -> res Z;
  replaceQ : E -> E -> bool;
  hs_update : E -> E -> E
}.

(** [TA], without the empty cells; [m] is its length. *)
Record Table (E : Type) := mk_table { m : Z; TA : gmap Z E }.
Arguments mk_table {E} _ _.
Arguments m {E} _.
Arguments TA {E} _.

(** IEEE single precision: a number as a [float], and a [float] as a [size_t]
    (0 stands for what the conversion of an infinity gives). *)
Definition float_of (n : Z) : spec_float := binary_normalize 24 128 n 0 false.
Definition to_size_t (f : spec_float) : Z :=
  match f with
  | S754_finite s mant e => u64 (if s then - Z.shiftl (Zpos mant) e else Z.shiftl (Zpos mant) e)
  | _ => 0
  end.

(** [(size_t) 100.0 + load * size], of which the sum is a [float]. *)
Definition table_size (size : Z) (load : spec_float) : Z :=
  to_size_t (SFadd 24 128 (float_of 100) (SFmul 24 128 load (float_of size))).

Definition new_table {E} (size : Z) (load : spec_float) : Table E := mk_table (table_size size load) ∅.

Definition set_cell {E} (i : Z) (v : E) (t : Table E) : Table E :=
  mk_table (m t) (<[i := v]> (TA t)).

Section table.
Context {E K : Type} {H : HashStruct E K}.

(** [(int) h % (uint) m]: the hash is converted to [unsigned]. *)
Definition hashToRange (h : Z) (t : Table E) : Z := u32 h mod u32 (m t).
Definition firstIndex (k : K) (t : Table E) : Z := hashToRange (hs_hash k) t.
Definition incrementIndex (h : Z) (t : Table E) : Z := if h + 1 =? m t then 0 else h + 1.

(** The loop of [insert] from cell [i] on. A new key bumps an existing one of
    lower priority, which is then inserted further on. *)
Fixpoint insert_loop (fuel : nat) (i : Z) (v : E) (t : Table E) : res (bool * Table E) :=
  match fuel with
  | O => Err NoFuel
  | S fuel' =>
      match TA t !! i with
      | None => Ok (true, set_cell i v t)
      | Some c =>
          let? r := hs_cmp (getKey v) (getKey c) in
          if r =? 0 then
            if negb (replaceQ v c) then Ok (false, t) else Ok (true, set_cell i v t)
          else if r <? 0 then insert_loop fuel' (incrementIndex i t) v t
          else insert_loop fuel' (incrementIndex i t) c (set_cell i v t)
      end
  end.

(** Every cell the loop goes past is full, so it makes at most one step more
    than there are entries. *)
Definition insert (v : E) (t : Table E) : res (bool * Table E) :=
  insert_loop (S (size (TA t))) (firstIndex (getKey v) t) v t.

(** [update] differs for a key that is there. *)
Fixpoint update_loop (fuel : nat) (i : Z) (v : E) (t : Table E) : res (bool * Table E) :=
  match fuel with
  | O => Err NoFuel
  | S fuel' =>
      match TA t !! i with
      | None => Ok (true, set_cell i v t)
      | Some c =>
          let? r := hs_cmp (getKey v) (getKey c) in
          if r =? 0 then
            if negb (replaceQ v c) then Ok (false, t) else Ok (true, set_cell i (hs_update c v) t)
          else if r <? 0 then update_loop fuel' (incrementIndex i t) v t
          else update_loop fuel' (incrementIndex i t) c (set_cell i v t)
      end
  end.

Definition update (v : E) (t : Table E) : res (bool * Table E) :=
  update_loop (S (size (TA t))) (firstIndex (getKey v) t) v t.

(** The cell of a key and its entry; [findIndex] returns the one, [find] the
    other. *)
Fixpoint find_loop (fuel : nat) (h : Z) (k : K) (t : Table E) : res (option (Z * E)) :=
  match fuel with
  | O => Err NoFuel
  | S fuel' =>
      match TA t !! h with
      | None => Ok None
      | Some c =>
          let? r := hs_cmp k (getKey c) in
          if 0 <=? r then if 0 <? r then Ok None else Ok (Some (h, c))
          else find_loop fuel' (incrementIndex h t) k t
      end
  end.

Definition find (k : K) (t : Table E) : res (option E) :=
  let? r := find_loop (S (size (TA t))) (firstIndex k t) k t in Ok (snd <$> r).

Definition findIndex (k : K) (t : Table E) : res Z :=
  let? r := find_loop (S (size (TA t))) (firstIndex k t) k t in
  Ok (match r with Some (h, _) => h | None => -1 end).

Definition count (t : Table E) : nat := size (TA t).

End table.

End Table.

(** ** What the table promises

    For keys that only compare as equal or not ([cmp] is 0 or -1) the table is a
    finite map in which the first entry of a key stays. *)

Section spec.
Import Table.
Context {E K : Type} {H : HashStruct E K} (P : K -> Prop) (keq : K -> K -> bool).

(** [P] is the set of keys in use; on it equality is an equivalence and equal
    keys have equal hashes. *)
Class FirstCome : Prop := {
  fc_cmp k1 k2 : P k1 -> P k2 -> hs_cmp k1 k2 = Ok (if keq k1 k2 then 0 else -1);
  fc_refl k : P k -> keq k k = true;
  fc_sym k1 k2 : P k1 -> P k2 -> keq k1 k2 = true -> keq k2 k1 = true;
  fc_trans k1 k2 k3 : P k1 -> P k2 -> P k3 ->
    keq k1 k2 = true -> keq k2 k3 = true -> keq k1 k3 = true;
  fc_hash k1 k2 : P k1 -> P k2 -> keq k1 k2 = true -> hs_hash k1 = hs_hash k2;
  fc_keep v c : replaceQ v c = false
}.

(** Cell number [d] after [f]. *)
Definition nth_cell (t : Table E) (f d : Z) : Z := (f + d) mod m t.

(** The entries of the table are those of [l], with different keys; the cells
    from the first one of a key up to its own are full. *)
Record represents (t : Table E) (l : list E) : Prop := {
  rp_size : 0 < m t < 2 ^ 32;
  rp_cells i e : TA t !! i = Some e -> 0 <= i < m t /\ e ∈ l;
  rp_entries e : e ∈ l -> exists i, TA t !! i = Some e;
  rp_count : size (TA t) = length l;
  rp_keys e : e ∈ l -> P (getKey e);
  rp_apart e e' : e ∈ l -> e' ∈ l -> keq (getKey e) (getKey e') = true -> e = e';
  rp_probe i e : TA t !! i = Some e -> exists d, 0 <= d < m t /\
    i = nth_cell t (firstIndex (getKey e) t) d /\
    forall d', 0 <= d' < d -> is_Some (TA t !! nth_cell t (firstIndex (getKey e) t) d')
}.

(** The probe for [k] ends [d] cells after the first one, at an empty cell or at
    an entry with the key. *)
Record ends (t : Table E) (k : K) (f d : Z) : Prop := {
  en_range : 0 <= d < m t;
  en_before d' : 0 <= d' < d -> exists c, TA t !! nth_cell t f d' = Some c /\
    keq k (getKey c) = false;
  en_at : forall c, TA t !! nth_cell t f d = Some c -> keq k (getKey c) = true
}.

Lemma nth_cell_range t f d : 0 < m t -> 0 <= nth_cell t f d < m t.
Proof. intros. by apply Z.mod_pos_bound. Qed.

Lemma nth_cell_next t f d : 0 < m t -> incrementIndex (nth_cell t f d) t = nth_cell t f (d + 1).
Proof.
  intros Hm. unfold incrementIndex. pose proof (nth_cell_range t f d Hm) as Hr.
  unfold nth_cell in *. rewrite Z.add_assoc, <- (Zplus_mod_idemp_l (f + d) 1).
  destruct (Z.eqb_spec ((f + d) mod m t + 1) (m t)) as [E1|].
  - by rewrite E1, Z.mod_same by lia.
  - symmetry. apply Z.mod_small. lia.
Qed.

Lemma nth_cell_inj t f d d' : 0 < m t -> 0 <= d < m t -> 0 <= d' < m t ->
  nth_cell t f d = nth_cell t f d' -> d = d'.
Proof.
  unfold nth_cell. intros Hm Hd Hd' Heq.
  rewrite <- (Z.mod_small d (m t)), <- (Z.mod_small d' (m t)) by done.
  replace d with (f + d - f) by lia. replace d' with (f + d' - f) by lia.
  by rewrite Zminus_mod, Heq, <- Zminus_mod.
Qed.

Lemma first_cell t k : 0 < m t < 2 ^ 32 -> nth_cell t (firstIndex k t) 0 = firstIndex k t.
Proof.
  intros Hm. unfold nth_cell, firstIndex, hashToRange.
  rewrite (wrap_small 32 (m t)) by (unfold is_u; lia). rewrite Z.add_0_r, Zmod_mod. done.
Qed.

(** Full cells in a row are as many entries. *)
Lemma full_row t f d : 0 < m t -> 0 <= d <= m t ->
  (forall d', 0 <= d' < d -> is_Some (TA t !! nth_cell t f d')) -> d <= Z.of_nat (size (TA t)).
Proof.
  intros Hm Hd Hfull. set (row := nth_cell t f <$> seqZ 0 d).
  assert (NoDup row) as Hnd.
  { apply NoDup_fmap_2_strong; [|apply NoDup_seqZ]. intros x y Hx%elem_of_seqZ Hy%elem_of_seqZ.
    apply nth_cell_inj; lia. }
  assert (length row = Z.to_nat d) as Hlen by (unfold row; by rewrite length_fmap, length_seqZ).
  rewrite <- size_dom. rewrite <- (size_list_to_set (C := gset Z) row) in Hlen by done.
  assert (list_to_set row ⊆ dom (TA t)) as Hsub%subseteq_size; [|lia].
  intros x Hx. apply elem_of_list_to_set, list_elem_of_fmap in Hx as (d' & -> & Hd'%elem_of_seqZ).
  apply elem_of_dom, Hfull. lia.
Qed.

(** A probe ends when there is an empty cell. *)
Lemma probe_ends t k f : 0 < m t -> Z.of_nat (size (TA t)) < m t ->
  exists d, ends t k f d /\ d <= Z.of_nat (size (TA t)).
Proof.
  intros Hm Hfree. set (stop d := match TA t !! nth_cell t f d with
                                  | Some c => keq k (getKey c) | None => true end).
  assert (forall n, 0 <= Z.of_nat n <= m t -> (exists d, ends t k f d /\ d < Z.of_nat n) \/
    forall d', 0 <= d' < Z.of_nat n -> stop d' = false) as Hsearch.
  { induction n as [|n IH]; intros Hn; [right; lia|].
    destruct IH as [(d & Hd & Hl)|Hno]; [lia|left; exists d; split; [done|lia]|].
    destruct (stop (Z.of_nat n)) eqn:Hs.
    - left. exists (Z.of_nat n). split; [|lia]. split; [lia| |].
      + intros d' Hd'. specialize (Hno d' Hd'). unfold stop in Hno.
        destruct (TA t !! nth_cell t f d') as [c|]; [by exists c|done].
      + intros c Hc. unfold stop in Hs. by rewrite Hc in Hs.
    - right. intros d' Hd'. destruct (decide (d' = Z.of_nat n)) as [->|]; [done|apply Hno; lia]. }
  destruct (Hsearch (S (size (TA t))) ltac:(lia)) as [(d & Hd & Hl)|Hno].
  - exists d. split; [done|lia].
  - exfalso. pose proof (full_row t f (Z.of_nat (S (size (TA t)))) Hm ltac:(lia)) as Hrow.
    enough (Z.of_nat (S (size (TA t))) <= Z.of_nat (size (TA t))) by lia. apply Hrow.
    intros d' Hd'. specialize (Hno d' Hd'). unfold stop in Hno.
    destruct (TA t !! nth_cell t f d'); [by eexists|done].
Qed.

Context {FC : FirstCome}.

Section loops.
Context (t : Table E) (l : list E) (Hrep : represents t l) (k : K) (Hk : P k) (d : Z).
Context (Hend : ends t k (firstIndex k t) d).

Lemma cell_key i c : TA t !! i = Some c -> P (getKey c).
Proof. intros Hi. by apply (rp_keys _ _ Hrep), (rp_cells _ _ Hrep i). Qed.

Lemma find_loop_ends fuel d0 : 0 <= d0 <= d -> (Z.to_nat (d - d0) < fuel)%nat ->
  find_loop fuel (nth_cell t (firstIndex k t) d0) k t =
    Ok ((fun c => (nth_cell t (firstIndex k t) d, c)) <$> TA t !! nth_cell t (firstIndex k t) d).
Proof.
  revert d0. induction fuel as [|fuel IH]; intros d0 Hd0 Hf; [lia|]. simpl.
  destruct (decide (d0 = d)) as [->|Hne].
  - destruct (TA t !! nth_cell t (firstIndex k t) d) as [c|] eqn:Ec; [|done].
    rewrite fc_cmp by (done || by eapply cell_key). by rewrite (en_at _ _ _ _ Hend c Ec).
  - destruct (en_before _ _ _ _ Hend d0 ltac:(lia)) as (c & Hc & Hneq). rewrite Hc.
    rewrite fc_cmp by (done || by eapply cell_key). rewrite Hneq. simpl.
    rewrite nth_cell_next by apply Hrep. apply IH; lia.
Qed.

Lemma insert_loop_ends fuel d0 v : getKey v = k -> 0 <= d0 <= d -> (Z.to_nat (d - d0) < fuel)%nat ->
  insert_loop fuel (nth_cell t (firstIndex k t) d0) v t =
    Ok (match TA t !! nth_cell t (firstIndex k t) d with
        | Some _ => (false, t)
        | None => (true, set_cell (nth_cell t (firstIndex k t) d) v t)
        end).
Proof.
  intros Hv. revert d0. induction fuel as [|fuel IH]; intros d0 Hd0 Hf; [lia|]. simpl.
  destruct (decide (d0 = d)) as [->|Hne].
  - destruct (TA t !! nth_cell t (firstIndex k t) d) as [c|] eqn:Ec; [|done].
    rewrite Hv, fc_cmp by (done || by eapply cell_key). rewrite (en_at _ _ _ _ Hend c Ec).
    by rewrite fc_keep.
  - destruct (en_before _ _ _ _ Hend d0 ltac:(lia)) as (c & Hc & Hneq). rewrite Hc.
    rewrite Hv, fc_cmp by (done || by eapply cell_key). rewrite Hneq. simpl.
    rewrite nth_cell_next by apply Hrep. apply IH; lia.
Qed.

(** Where the probe ends there is the entry of the key, if the table has one. *)
Lemma ends_entry e : e ∈ l -> keq k (getKey e) = true ->
  TA t !! nth_cell t (firstIndex k t) d = Some e.
Proof.
  intros He Hke. pose proof (rp_keys _ _ Hrep e He) as Pe.
  destruct (rp_entries _ _ Hrep e He) as [i Hi].
  destruct (rp_probe _ _ Hrep i e Hi) as (d0 & Hd0 & -> & Hfull).
  assert (firstIndex (getKey e) t = firstIndex k t) as Ef.
  { unfold firstIndex. by rewrite (fc_hash k (getKey e)). }
  rewrite Ef in *. destruct (Z.lt_trichotomy d0 d) as [Hlt|[<-|Hgt]]; [|done|].
  - destruct (en_before _ _ _ _ Hend d0 ltac:(lia)) as (c & Hc & Hneq). congruence.
  - destruct (Hfull d ltac:(pose proof (en_range _ _ _ _ Hend); lia)) as [c Hc].
    pose proof (en_at _ _ _ _ Hend c Hc) as Hkc. rewrite Hc. f_equal.
    pose proof (proj2 (rp_cells _ _ Hrep _ c Hc)) as Hcl.
    pose proof (rp_keys _ _ Hrep c Hcl) as Pc.
    apply (rp_apart _ _ Hrep); [done..|].
    apply (fc_trans (getKey c) k (getKey e)); [done..|by apply fc_sym|done].
Qed.

(** A free cell at the end of the probe: the new entry goes there. *)
Lemma represents_add v : getKey v = k -> TA t !! nth_cell t (firstIndex k t) d = None ->
  represents (set_cell (nth_cell t (firstIndex k t) d) v t) (l ++ [v]).
Proof.
  intros Hv Hnone. pose proof (rp_size _ _ Hrep) as Hm.
  assert (forall e, e ∈ l -> keq k (getKey e) = false) as Hnew.
  { intros e He. destruct (keq k (getKey e)) eqn:Hke; [|done].
    pose proof (ends_entry e He Hke). congruence. }
  assert (forall i c, TA t !! i = Some c -> i <> nth_cell t (firstIndex k t) d) as Hne
    by congruence.
  split; simpl.
  - done.
  - intros i e. rewrite lookup_insert. case_decide as Hi.
    + intros [= <-]. subst i. split; [apply nth_cell_range; lia|]. apply elem_of_app. right. by left.
    + intros Hie. destruct (rp_cells _ _ Hrep i e Hie). split; [done|]. apply elem_of_app. by left.
  - intros e [He| ->%list_elem_of_singleton]%elem_of_app.
    + destruct (rp_entries _ _ Hrep e He) as [i Hi]. exists i.
      rewrite lookup_insert_ne; [done|]. symmetry. by eapply Hne.
    + eexists. apply lookup_insert_eq.
  - rewrite map_size_insert, Hnone, length_app, (rp_count _ _ Hrep). simpl. lia.
  - intros e [He| ->%list_elem_of_singleton]%elem_of_app; [by apply (rp_keys _ _ Hrep)|by rewrite Hv].
  - intros e e' [He| ->%list_elem_of_singleton]%elem_of_app
      [He'| ->%list_elem_of_singleton]%elem_of_app Hee; [by apply (rp_apart _ _ Hrep)| | |done].
    + rewrite Hv in Hee. apply fc_sym in Hee; [|by apply (rp_keys _ _ Hrep)|done].
      rewrite Hnew in Hee by done. discriminate.
    + rewrite Hv, Hnew in Hee by done. discriminate.
  - intros i e. rewrite lookup_insert. case_decide as Hi.
    + intros [= <-]. subst i. exists d. rewrite Hv. split_and!.
      * apply (en_range _ _ _ _ Hend).
      * apply (en_range _ _ _ _ Hend).
      * done.
      * intros d' Hd'. destruct (en_before _ _ _ _ Hend d' Hd') as (c & Hc & _). exists c.
        unfold nth_cell, firstIndex, hashToRange in *. simpl. rewrite lookup_insert_ne; [done|congruence].
    + intros Hie. destruct (rp_probe _ _ Hrep i e Hie) as (d0 & Hd0 & -> & Hfull).
      exists d0. split_and!; [lia..|done|]. intros d' Hd'. destruct (Hfull d' Hd') as [c Hc].
      exists c. unfold nth_cell, firstIndex, hashToRange in *. simpl. rewrite lookup_insert_ne; [done|congruence].
Qed.

End loops.

(** The entry of a key among those of the table. *)
Definition entry_of (k : K) (l : list E) : option E := snd <$> list_find (fun e => keq k (getKey e) = true) l.

Lemma entry_of_spec k l : match entry_of k l with
  | Some e => e ∈ l /\ keq k (getKey e) = true
  | None => forall e, e ∈ l -> keq k (getKey e) = false
  end.
Proof.
  unfold entry_of. destruct (list_find _ l) as [[i e]|] eqn:Hf; simpl.
  - apply list_find_Some in Hf as (Hi & He & _). split; [by eapply list_elem_of_lookup_2|done].
  - apply list_find_None in Hf. rewrite Forall_forall in Hf. intros e He. specialize (Hf e He).
    by destruct (keq k (getKey e)).
Qed.

Lemma find_run t l k : represents t l -> Z.of_nat (length l) < m t -> P k ->
  find k t = Ok (entry_of k l).
Proof.
  intros Hrep Hfree Hk. pose proof (rp_size _ _ Hrep) as Hm.
  destruct (probe_ends t k (firstIndex k t)) as (d & Hend & Hd);
    [lia|by rewrite (rp_count _ _ Hrep)|].
  unfold find. rewrite <- (first_cell t k Hm) at 1.
  rewrite (find_loop_ends t l Hrep k Hk d Hend) by (pose proof (en_range _ _ _ _ Hend); lia).
  f_equal. rewrite <- option_fmap_compose. unfold compose. simpl. rewrite option_fmap_id.
  pose proof (entry_of_spec k l) as Hspec. destruct (entry_of k l) as [e|].
  - destruct Hspec as [He Hke]. by rewrite (ends_entry t l Hrep k Hk d Hend e He Hke).
  - destruct (TA t !! nth_cell t (firstIndex k t) d) as [c|] eqn:Ec; [|done].
    pose proof (en_at _ _ _ _ Hend c Ec) as Hkc.
    rewrite Hspec in Hkc; [done|]. by apply (rp_cells _ _ Hrep _ c Ec).
Qed.

Lemma insert_run t l v : represents t l -> Z.of_nat (length l) < m t -> P (getKey v) ->
  exists t', m t' = m t /\ match entry_of (getKey v) l with
    | Some _ => insert v t = Ok (false, t') /\ represents t' l
    | None => insert v t = Ok (true, t') /\ represents t' (l ++ [v])
    end.
Proof.
  intros Hrep Hfree Hk. pose proof (rp_size _ _ Hrep) as Hm. set (k := getKey v) in *.
  destruct (probe_ends t k (firstIndex k t)) as (d & Hend & Hd);
    [lia|by rewrite (rp_count _ _ Hrep)|].
  unfold insert. fold k. rewrite <- (first_cell t k Hm).
  rewrite (insert_loop_ends t l Hrep k Hk d Hend) by (pose proof (en_range _ _ _ _ Hend); done || lia).
  pose proof (entry_of_spec k l) as Hspec. destruct (entry_of k l) as [e|].
  - destruct Hspec as [He Hke]. rewrite (ends_entry t l Hrep k Hk d Hend e He Hke).
    by exists t.
  - destruct (TA t !! nth_cell t (firstIndex k t) d) as [c|] eqn:Ec.
    + pose proof (en_at _ _ _ _ Hend c Ec) as Hkc.
      rewrite Hspec in Hkc; [done|]. by apply (rp_cells _ _ Hrep _ c Ec).
    + eexists. split; [|split; [done|by apply represents_add]]. done.
Qed.

Lemma entry_of_app k l v : entry_of k (l ++ [v]) =
  match entry_of k l with
  | Some e => Some e
  | None => if keq k (getKey v) then Some v else None
  end.
Proof.
  unfold entry_of. induction l as [|e l IH]; simpl.
  - case_decide as E1; simpl; [by rewrite E1|]. by destruct (keq k (getKey v)).
  - case_decide; simpl; [done|]. rewrite <- !option_fmap_compose. exact IH.
Qed.

(** Entries inserted one after the other. *)
Fixpoint insert_all (vs : list E) (t : Table E) : res (Table E) :=
  match vs with
  | [] => Ok t
  | v :: vs' => match insert v t with Ok (_, t') => insert_all vs' t' | Err e => Err e end
  end.

Lemma represents_new size load : 0 < table_size size load < 2 ^ 32 ->
  represents (new_table size load) [].
Proof.
  intros Hs. split; unfold new_table; simpl; try done; intros; set_solver.
Qed.

(** The entries kept: the first one of every key. *)
Lemma insert_all_run vs : Forall (fun v => P (getKey v)) vs -> forall t l,
  represents t l -> Z.of_nat (length l + length vs) <= m t ->
  exists t' l', insert_all vs t = Ok t' /\ m t' = m t /\ represents t' l' /\
    (length l' <= length l + length vs)%nat /\
    forall k, P k -> entry_of k l' = match entry_of k l with
                                     | Some e => Some e | None => entry_of k vs end.
Proof.
  induction vs as [|v vs IH]; intros HP t l Hrep Hlen; simpl.
  { exists t, l. split_and!; [done..|lia|]. intros k _. by destruct (entry_of k l). }
  apply Forall_cons in HP as [Pv HP]. simpl in Hlen.
  destruct (insert_run t l v Hrep ltac:(lia) Pv) as (t1 & Em & Hins).
  pose proof (entry_of_spec (getKey v) l) as Hspec.
  assert (forall k (l2 : list E) (e : E), P k -> e ∈ l2 -> P (getKey e) -> keq (getKey v) (getKey e) = true ->
    (forall e, e ∈ l2 -> keq k (getKey e) = false) -> keq k (getKey v) = false) as Hout.
  { intros k l2 e Pk He Pe Hve Hno. destruct (keq k (getKey v)) eqn:Hkv; [|done].
    rewrite <- (Hno e He). symmetry. by apply (fc_trans k (getKey v)). }
  destruct (entry_of (getKey v) l) as [e|]; destruct Hins as [-> Hrep1].
  - destruct (IH HP t1 l Hrep1 ltac:(lia)) as (t' & l' & E1 & E2 & Hr & Hl & Hk).
    exists t', l'. split_and!; [done|congruence|done|lia|]. intros k Pk. rewrite Hk by done.
    pose proof (entry_of_spec k l) as Hks. destruct (entry_of k l); [done|].
    unfold entry_of at 2. simpl. case_decide as E3; [|by rewrite <- option_fmap_compose].
    destruct Hspec as [He Hve]. pose proof (rp_keys _ _ Hrep e He).
    by rewrite (Hout k l e) in E3.
  - destruct (IH HP t1 (l ++ [v]) Hrep1) as (t' & l' & E1 & E2 & Hr & Hl & Hk);
      [rewrite length_app; simpl; lia|].
    rewrite length_app in Hl. simpl in Hl.
    exists t', l'. split_and!; [done|congruence|done|lia|]. intros k Pk. rewrite Hk, entry_of_app by done.
    destruct (entry_of k l); [done|]. unfold entry_of at 2. simpl.
    case_decide as E3; simpl; [by rewrite E3|]. rewrite <- option_fmap_compose.
    by destruct (keq k (getKey v)).
Qed.

(** The table is a map in which the first entry of a key stays: whatever entries
    are inserted into a new table that is larger than their number, every
    insertion ends, and a search for any key ends with the first of the entries
    that has it, or with nothing. *)
Lemma table_first_come size load vs : 0 < table_size size load < 2 ^ 32 ->
  Z.of_nat (length vs) < table_size size load -> Forall (fun v => P (getKey v)) vs ->
  exists t, insert_all vs (new_table size load) = Ok t /\
    forall k, P k -> find k t = Ok (entry_of k vs).
Proof.
  intros Hs Hlen HP.
  destruct (insert_all_run vs HP _ [] (represents_new size load Hs)) as (t & l & E1 & Em & Hr & Hl & Hk);
    [simpl; lia|].
  exists t. split; [done|]. intros k Pk. cbn [new_table m] in *.
  rewrite (find_run t l k Hr) by (done || simpl in *; lia). by rewrite Hk.
Qed.

End spec.
(** ** Without assumptions on the keys *)

Section sound.
Import Table.
Context {E K : Type} {H : HashStruct E K}.

(** What a search finds is in the table and compares as equal. *)
Lemma find_sound k (t : Table E) e : find k t = Ok (Some e) ->
  exists i, TA t !! i = Some e /\ hs_cmp k (getKey e) = Ok 0.
Proof.
  unfold find. generalize (firstIndex k t) as h. generalize (S (size (TA t))) as fuel.
  induction fuel as [|fuel IH]; intros h; simpl; [done|].
  destruct (TA t !! h) as [c|] eqn:Ec; [|done].
  destruct (hs_cmp k (getKey c)) as [r|] eqn:Er; [|done].
  destruct (Z.leb_spec 0 r); [|apply IH]. destruct (Z.ltb_spec 0 r); [done|].
  intros [= <-]. exists h. split; [done|]. rewrite Er. f_equal. lia.
Qed.

(** Insertion adds nothing else. *)
Lemma insert_entries v (t : Table E) b t' : insert v t = Ok (b, t') ->
  forall i e, TA t' !! i = Some e -> e = v \/ exists j, TA t !! j = Some e.
Proof.
  unfold insert. generalize (firstIndex (getKey v) t) as h. generalize (S (size (TA t))) as fuel.
  intros fuel. revert v t. induction fuel as [|fuel IH]; intros v t h; simpl; [done|].
  assert (forall (x : E) t1 i e, TA (set_cell h x t1) !! i = Some e ->
    e = x \/ exists j, TA t1 !! j = Some e) as Hset.
  { intros x t1 i e. simpl. rewrite lookup_insert. case_decide; [intros [= <-]; by left|by eauto]. }
  destruct (TA t !! h) as [c|] eqn:Ec; [|by intros [= <- <-]; apply Hset].
  destruct (hs_cmp (getKey v) (getKey c)) as [r|]; [|done].
  destruct (r =? 0).
  - destruct (replaceQ v c); simpl; intros [= <- <-]; [apply Hset|by eauto].
  - destruct (r <? 0); intros Ei i e Hi; [by eapply IH|].
    destruct (IH c (set_cell h v t) _ Ei i e Hi) as [-> |[j Hj]]; [by eauto|by eapply Hset].
Qed.

End sound.
