(* ===== verification/Cstr.v ===== *)
(** * Buffers and numbers in text

    What the solvers use of the C library: [memcpy] on byte buffers, [strtoul],
    [snprintf] with one of the formats [%lb], [%lo], [%lu], [%ld], [%lx], and
    [sscanf] with [%u] and [%d]. *)

From stdpp Require Import list_numbers.
From S2P Require Import Prelude.
Local Open Scope prog_scope.

(** ** Buffers *)

(** [n] bytes from [off] on; outside of the buffer the access is undefined. *)
Definition read_bytes (buf : list Z) (off n : Z) : res (list Z) :=
  if (0 <=? off) && (0 <=? n) && (off + n <=? Z.of_nat (length buf))
  then Ok (take (Z.to_nat n) (drop (Z.to_nat off) buf)) else Err Undefined.

Definition write_bytes (buf : list Z) (off : Z) (bs : list Z) : res (list Z) :=
  if (0 <=? off) && (off + Z.of_nat (length bs) <=? Z.of_nat (length buf))
  then Ok (take (Z.to_nat off) buf ++ bs ++ drop (Z.to_nat off + length bs) buf)
  else Err Undefined.

(** The bytes of a little-endian word, and back. *)
Fixpoint word_bytes (n : nat) (x : Z) : list Z :=
  match n with
  | O => []
  | S n' => u8 x :: word_bytes n' (Z.shiftr x 8)
  end.

Fixpoint bytes_word (bs : list Z) : Z :=
  match bs with
  | [] => 0
  | b :: bs' => b + 256 * bytes_word bs'
  end.

(** [memcpy(&x, p, n)] on a 64-bit [x]: its other bytes stay. *)
Definition patch_word (x : Z) (bs : list Z) : Z :=
  bytes_word bs + Z.shiftl (Z.shiftr x (8 * Z.of_nat (length bs))) (8 * Z.of_nat (length bs)).

(** ** Printing *)

Definition digit_char (d : Z) : Z := if d <? 10 then 48 + d else 87 + d.

(** The digits of [v], in front of [acc]. *)
Fixpoint print_loop (fuel : nat) (base v : Z) (acc : list Z) : list Z :=
  match fuel with
  | O => acc
  | S fuel' =>
      let acc := digit_char (v mod base) :: acc in
      if v / base =? 0 then acc else print_loop fuel' base (v / base) acc
  end.

(** An unsigned 64-bit number; 64 digits are enough for every base. *)
Definition print_unsigned (base v : Z) : list Z := print_loop 64 base v [].

(** [%ld] *)
Definition print_signed (v : Z) : list Z :=
  if s64 v <? 0 then 45 :: print_unsigned 10 (- s64 v) else print_unsigned 10 v.

(** [snprintf(buf + off, limit, "%s", text)]: what fits and a NUL, and the length
    of the whole text. *)
Definition snprintf (buf : list Z) (off limit : Z) (text : list Z) : res (Z * list Z) :=
  let? buf := (if limit =? 0 then Ok buf
               else write_bytes buf off (take (Z.to_nat (limit - 1)) text ++ [0])) in
  Ok (Z.of_nat (length text), buf).

(** ** Parsing *)

Definition isspace (c : Z) : bool := (c =? 32) || ((9 <=? c) && (c <=? 13)).

Definition digit_value (c : Z) : option Z :=
  if (48 <=? c) && (c <=? 57) then Some (c - 48)
  else if (97 <=? c) && (c <=? 122) then Some (c - 87)
  else if (65 <=? c) && (c <=? 90) then Some (c - 55)
  else None.

Fixpoint skip_spaces (s : list Z) : list Z :=
  match s with
  | c :: s' => if isspace c then skip_spaces s' else s
  | [] => []
  end.

(** The digits at the front of [s]; a value of 2^64 or more is remembered as
    such. *)
Fixpoint parse_digits (base : Z) (s : list Z) (v : Z) : Z :=
  match s with
  | [] => v
  | c :: s' =>
      match digit_value c with
      | Some d => if d <? base then parse_digits base s' (v * base + d) else v
      | None => v
      end
  end.

(** The base of the digits, without a prefix [0x]. *)
Definition strip_prefix (base : Z) (s : list Z) : Z * list Z :=
  match s with
  | 48 :: c :: s' =>
      if ((base =? 0) || (base =? 16)) && ((c =? 120) || (c =? 88)) then (16, s')
      else (if base =? 0 then 8 else base, s)
  | 48 :: _ => (if base =? 0 then 8 else base, s)
  | _ => (if base =? 0 then 10 else base, s)
  end.

Definition strtoul (s : list Z) (base : Z) : Z :=
  if (base =? 1) || (base <? 0) || (36 <? base) then 0
  else
    let s := skip_spaces s in
    let '(neg, s) := match s with
                     | 45 :: s' => (true, s')
                     | 43 :: s' => (false, s')
                     | _ => (false, s)
                     end in
    let '(base, s) := strip_prefix base s in
    let v := parse_digits base s 0 in
    if 2 ^ 64 <=? v then 2 ^ 64 - 1 else if neg : bool then u64 (- v) else v.

(** ** [sscanf] *)

(** The decimal digits at the front of [s] and what follows them. *)
Fixpoint scan_digits (s : list Z) (v : Z) : Z * list Z :=
  match s with
  | c :: s' => if (48 <=? c) && (c <=? 57) then scan_digits s' (v * 10 + (c - 48)) else (v, s)
  | [] => (v, [])
  end.

(** [%u] and [%d], as 32 bits: spaces, a sign, and at least one digit. *)
Definition scan_int (s : list Z) : option (Z * list Z) :=
  let s := skip_spaces s in
  let '(neg, s) := match s with
                   | 45 :: s' => (true, s')
                   | 43 :: s' => (false, s')
                   | _ => (false, s)
                   end in
  match s with
  | c :: _ =>
      if (48 <=? c) && (c <=? 57) then
        let '(v, s) := scan_digits s 0 in Some (u32 (if neg : bool then - v else v), s)
      else None
  | [] => None
  end.

(** A literal of the format. *)
Fixpoint scan_literal (f s : list Z) : option (list Z) :=
  match f, s with
  | [], _ => Some s
  | c :: f', d :: s' => if c =? d then scan_literal f' s' else None
  | _ :: _, [] => None
  end.

(** ** Printing and parsing *)

Lemma digit_char_value d : 0 <= d < 36 -> digit_value (digit_char d) = Some d.
Proof.
  intros Hd. unfold digit_char, digit_value.
  destruct (Z.ltb_spec d 10);
    repeat match goal with |- context [(?a <=? ?b)] => destruct (Z.leb_spec a b) end; simpl;
    f_equal; lia.
Qed.

(** The front of [s] is not a digit. *)
Definition no_digit (s : list Z) : Prop :=
  match s with [] => True | c :: _ => digit_value c = None end.

Section roundtrip.
Context (base : Z) (Hbase : 2 <= base <= 16).

Lemma parse_no_digit s v : no_digit s -> parse_digits base s v = v.
Proof. destruct s as [|c s]; [done|]. simpl. by intros ->. Qed.

(** The text printed in front of [acc] parses to [v] followed by what [acc] is. *)
Lemma parse_print fuel : forall v acc k, 0 <= v < base ^ Z.of_nat fuel -> (0 < fuel)%nat ->
  exists n, parse_digits base (print_loop fuel base v acc) k = parse_digits base acc (k * base ^ n + v)
    /\ 0 < n.
Proof.
  induction fuel as [|fuel IH]; intros v acc k Hv Hf; [lia|]. simpl.
  pose proof (Z.mod_pos_bound v base ltac:(lia)) as Hd.
  pose proof (Z.div_mod v base ltac:(lia)) as Hdm.
  destruct (Z.eqb_spec (v / base) 0) as [E|E].
  - exists 1. simpl. rewrite digit_char_value by lia. rewrite (proj2 (Z.ltb_lt _ _)) by lia.
    split; [|lia]. f_equal. rewrite Z.pow_1_r. nia.
  - assert (0 < fuel)%nat as Hf'.
    { destruct fuel; [|lia]. exfalso. apply E. apply Z.div_small. simpl in Hv. lia. }
    assert (0 <= v / base < base ^ Z.of_nat fuel) as Hq.
    { split; [apply Z.div_pos; lia|]. apply Z.div_lt_upper_bound; [lia|].
      rewrite <- Z.pow_succ_r by lia. rewrite Nat2Z.inj_succ in Hv. lia. }
    destruct (IH (v / base) (digit_char (v mod base) :: acc) k Hq Hf') as (n & En & Hn).
    exists (n + 1). rewrite En. simpl. rewrite digit_char_value by lia.
    rewrite (proj2 (Z.ltb_lt _ _)) by lia. split; [|lia]. f_equal.
    rewrite Z.pow_add_r by lia. nia.
Qed.

(** The first character printed. *)
Lemma print_first fuel : forall v acc, 0 <= v < base ^ Z.of_nat fuel -> (0 < fuel)%nat ->
  exists d s, print_loop fuel base v acc = digit_char d :: s /\ 0 <= d < base /\
    (d = 0 -> v = 0 /\ s = acc).
Proof.
  induction fuel as [|fuel IH]; intros v acc Hv Hf; [lia|]. simpl.
  pose proof (Z.mod_pos_bound v base ltac:(lia)) as Hd.
  pose proof (Z.div_mod v base ltac:(lia)) as Hdm.
  destruct (Z.eqb_spec (v / base) 0) as [E|E].
  - exists (v mod base), acc. split_and!; [done|lia..|]. intros E0. split; [nia|done].
  - assert (0 < fuel)%nat as Hf'.
    { destruct fuel; [|lia]. exfalso. apply E. apply Z.div_small. simpl in Hv. lia. }
    assert (0 <= v / base < base ^ Z.of_nat fuel) as Hq.
    { split; [apply Z.div_pos; lia|]. apply Z.div_lt_upper_bound; [lia|].
      rewrite <- Z.pow_succ_r by lia. rewrite Nat2Z.inj_succ in Hv. lia. }
    destruct (IH (v / base) (digit_char (v mod base) :: acc) Hq Hf') as (d & s & Es & Hds & H0).
    exists d, s. split_and!; [done|lia..|]. intros E0. destruct (H0 E0) as [Hz _]. lia.
Qed.


Lemma print_loop_app fuel : forall v acc rest,
  print_loop fuel base v acc ++ rest = print_loop fuel base v (acc ++ rest).
Proof.
  induction fuel as [|fuel IH]; intros v acc rest; simpl; [done|].
  destruct (v / base =? 0); [done|]. by rewrite IH.
Qed.

Lemma digit_char_range d : 0 <= d < 16 -> 48 <= digit_char d <= 57 \/ 97 <= digit_char d <= 102.
Proof. intros Hd. unfold digit_char. destruct (Z.ltb_spec d 10); lia. Qed.

Lemma print_range v : 0 <= v < 2 ^ 64 -> 0 <= v < base ^ Z.of_nat 64.
Proof.
  intros Hv. split; [lia|]. apply Z.lt_le_trans with (2 ^ 64); [lia|].
  change (Z.of_nat 64) with 64. apply Z.pow_le_mono_l. lia.
Qed.

(** The number at the front of the text, after spaces and the sign. *)
Lemma print_unsigned_scan v rest : 0 <= v < 2 ^ 64 -> no_digit rest ->
  exists d s, print_unsigned base v ++ rest = digit_char d :: s /\ 0 <= d < 16 /\
    let '(b, s) := strip_prefix base (digit_char d :: s) in parse_digits b s 0 = v.
Proof.
  intros Hv Hrest. unfold print_unsigned. rewrite print_loop_app. simpl app.
  destruct (print_first 64 v rest (print_range v Hv) ltac:(lia)) as (d & s & Es & Hd & H0).
  destruct (parse_print 64 v rest 0 (print_range v Hv) ltac:(lia)) as (n & En & Hn).
  exists d, s. split; [done|]. split; [lia|].
  assert (strip_prefix base (digit_char d :: s) = (base, digit_char d :: s)) as ->.
  { assert ((base =? 0) = false) as Eb by (apply Z.eqb_neq; lia). unfold strip_prefix. rewrite Eb.
    destruct (decide (d = 0)) as [E0|Hne].
    - destruct (H0 E0) as [-> ->]. rewrite E0. change (digit_char 0) with 48. cbv iota.
      destruct rest as [|c rest]; [done|]. simpl in Hrest.
      destruct ((c =? 120) || (c =? 88)) eqn:Ex; [|by rewrite andb_false_r].
      exfalso. apply orb_true_iff in Ex as [->%Z.eqb_eq| ->%Z.eqb_eq]; done.
    - assert (digit_char d <> 48) as H48.
      { unfold digit_char. destruct (Z.ltb_spec d 10); lia. }
      destruct (digit_char d) as [|p|p]; try done. do 6 (destruct p as [p|p|]; try done). }
  rewrite <- Es, En, parse_no_digit by done. by rewrite Z.mul_0_l, Z.add_0_l.
Qed.

(** [strtoul] reads what [snprintf] printed, up to the first character that is
    neither a digit nor a letter. *)
Lemma strtoul_print v rest : 0 <= v < 2 ^ 64 -> no_digit rest ->
  strtoul (print_unsigned base v ++ rest) base = v.
Proof.
  intros Hv Hrest. unfold strtoul.
  rewrite (proj2 (Z.eqb_neq base 1)), (proj2 (Z.ltb_ge base 0)), (proj2 (Z.ltb_ge 36 base)) by lia.
  simpl orb. cbv iota.
  destruct (print_unsigned_scan v rest Hv Hrest) as (d & s & -> & Hd & Hscan).
  pose proof (digit_char_range d Hd) as Hc.
  assert (skip_spaces (digit_char d :: s) = digit_char d :: s) as ->.
  { simpl. unfold isspace. rewrite (proj2 (Z.eqb_neq _ 32)), (proj2 (Z.leb_gt _ 13)) by lia.
    by rewrite andb_false_r. }
  assert (match digit_char d :: s with 45 :: s' => (true, s') | 43 :: s' => (false, s')
          | _ => (false, digit_char d :: s) end = (false, digit_char d :: s)) as ->.
  { destruct (digit_char d) as [|p|p]; try done. do 6 (destruct p as [p|p|]; try done; try lia). }
  destruct (strip_prefix base (digit_char d :: s)) as [b s']. rewrite Hscan.
  by rewrite (proj2 (Z.leb_gt _ _)) by lia.
Qed.

End roundtrip.

Lemma strtoul_print_signed v rest : is_u 64 v -> no_digit rest ->
  strtoul (print_signed v ++ rest) 10 = v.
Proof.
  intros Hv Hrest. unfold print_signed. pose proof (signed_bound 64 v ltac:(lia) Hv) as Hs.
  destruct (Z.ltb_spec (s64 v) 0) as [Hneg|Hpos]; [|by apply strtoul_print].
  destruct (print_unsigned_scan 10 ltac:(lia) (- s64 v) rest ltac:(lia) Hrest) as (d & s & E & Hd & Hscan).
  rewrite <- app_comm_cons, E. unfold strtoul. simpl orb. cbv iota.
  change (skip_spaces (45 :: digit_char d :: s)) with (45 :: digit_char d :: s). cbv iota.
  destruct (strip_prefix 10 (digit_char d :: s)) as [b s']. rewrite Hscan.
  rewrite (proj2 (Z.leb_gt _ _)) by lia. rewrite Z.opp_involutive. by apply wrap_signed.
Qed.

(** *** [sscanf] reads what was printed *)

Definition no_decimal (s : list Z) : Prop :=
  match s with [] => True | c :: _ => ((48 <=? c) && (c <=? 57)) = false end.

Lemma scan_no_decimal s v : no_decimal s -> scan_digits s v = (v, s).
Proof. destruct s as [|c s]; [done|]. simpl. by intros ->. Qed.

Lemma decimal_char d : 0 <= d < 10 -> digit_char d = 48 + d /\ ((48 <=? digit_char d) && (digit_char d <=? 57)) = true.
Proof.
  intros Hd. unfold digit_char. rewrite (proj2 (Z.ltb_lt d 10)) by lia. split; [done|].
  apply andb_true_iff. split; apply Z.leb_le; lia.
Qed.

Lemma scan_print fuel : forall v acc k, 0 <= v < 10 ^ Z.of_nat fuel -> (0 < fuel)%nat ->
  exists n, scan_digits (print_loop fuel 10 v acc) k = scan_digits acc (k * 10 ^ n + v) /\ 0 < n.
Proof.
  induction fuel as [|fuel IH]; intros v acc k Hv Hf; [lia|]. simpl.
  destruct (decimal_char (v mod 10)) as [Ec Et]; [apply Z.mod_pos_bound; lia|].
  destruct (Z.eqb_spec (v / 10) 0) as [E|E].
  - exists 1. simpl. rewrite Et, Ec. split; [|lia]. f_equal.
    rewrite Z.pow_1_r. pose proof (Z.div_mod v 10 ltac:(lia)). lia.
  - assert (0 < fuel)%nat as Hf'.
    { destruct fuel; [|lia]. exfalso. apply E. apply Z.div_small. simpl in Hv. lia. }
    assert (0 <= v / 10 < 10 ^ Z.of_nat fuel) as Hq.
    { split; [apply Z.div_pos; lia|]. apply Z.div_lt_upper_bound; [lia|].
      rewrite <- Z.pow_succ_r by lia. rewrite Nat2Z.inj_succ in Hv. lia. }
    destruct (IH (v / 10) (digit_char (v mod 10) :: acc) k Hq Hf') as (n & En & Hn).
    exists (n + 1). rewrite En. simpl. rewrite Et, Ec. split; [|lia]. f_equal.
    rewrite Z.pow_add_r, Z.pow_1_r by lia. pose proof (Z.div_mod v 10 ltac:(lia)). lia.
Qed.

Lemma scan_print_unsigned v rest : is_u 32 v -> no_decimal rest ->
  scan_int (print_unsigned 10 v ++ rest) = Some (v, rest).
Proof.
  intros Hv Hrest. unfold is_u in Hv. assert (0 <= v < 10 ^ Z.of_nat 64) as Hv'.
  { split; [lia|]. apply Z.lt_trans with (2 ^ 32); [lia|]. apply Z.ltb_lt. vm_compute. reflexivity. }
  unfold print_unsigned. rewrite print_loop_app. simpl app.
  destruct (scan_print 64 v rest 0 Hv' ltac:(lia)) as (n & En & Hn).
  destruct (print_first 10 ltac:(lia) 64 v rest Hv' ltac:(lia)) as (d & s & Es & Hd & _).
  rewrite Es in En |- *. destruct (decimal_char d Hd) as [Ec Et]. unfold scan_int.
  assert (skip_spaces (digit_char d :: s) = digit_char d :: s) as ->.
  { simpl. unfold isspace. rewrite (proj2 (Z.eqb_neq _ 32)), (proj2 (Z.leb_gt _ 13)) by lia.
    by rewrite andb_false_r. }
  assert (match digit_char d :: s with 45 :: s' => (true, s') | 43 :: s' => (false, s')
          | _ => (false, digit_char d :: s) end = (false, digit_char d :: s)) as ->.
  { rewrite Ec. assert (d = 0 \/ d = 1 \/ d = 2 \/ d = 3 \/ d = 4 \/ d = 5 \/ d = 6 \/ d = 7 \/ d = 8 \/ d = 9)
      as Hcases by lia. by destruct_or! Hcases; subst. }
  rewrite Et, En, scan_no_decimal by done. rewrite Z.mul_0_l, Z.add_0_l.
  by rewrite wrap_small by done.
Qed.

(** ** Buffers *)

Lemma length_word_bytes n x : length (word_bytes n x) = n.
Proof. revert x. induction n as [|n IH]; intros x; simpl; [done|by rewrite IH]. Qed.

Lemma word_bytes_u8 n x : Forall (is_u 8) (word_bytes n x).
Proof.
  revert x. induction n as [|n IH]; intros x; simpl; constructor; [apply wrap_bound; lia|apply IH].
Qed.

Lemma bytes_word_bytes n x : 0 <= x -> bytes_word (word_bytes n x) = wrap (8 * Z.of_nat n) x.
Proof.
  revert x. induction n as [|n IH]; intros x Hx; simpl.
  { unfold wrap. by rewrite Z.mod_1_r. }
  rewrite IH by (apply Z.shiftr_nonneg; lia). unfold wrap. rewrite Z.shiftr_div_pow2 by lia.
  replace (8 * Z.of_nat (S n)) with (8 + 8 * Z.of_nat n) by lia. rewrite Z.pow_add_r by lia.
  change (2 ^ 8) with 256. rewrite Z.rem_mul_r by (try apply Z.pow_nonzero; lia). done.
Qed.

Lemma word_bytes_of bs : Forall (is_u 8) bs -> word_bytes (length bs) (bytes_word bs) = bs.
Proof.
  induction 1 as [|b bs Hb _ IH]; simpl; [done|]. unfold is_u in Hb. change (2 ^ 8) with 256 in Hb.
  f_equal.
  - unfold wrap. change (2 ^ 8) with 256. rewrite (Z.mul_comm 256), Z_mod_plus_full.
    by apply Z.mod_small.
  - rewrite Z.shiftr_div_pow2 by lia. change (2 ^ 8) with 256.
    rewrite (Z.mul_comm 256), Z_div_plus_full, Z.div_small, Z.add_0_l by lia. done.
Qed.

Lemma bytes_word_bound bs : Forall (is_u 8) bs -> is_u (8 * Z.of_nat (length bs)) (bytes_word bs).
Proof.
  induction 1 as [|b bs Hb _ IH]; simpl; [done|].
  replace (8 * Z.of_nat (S (length bs))) with (8 + 8 * Z.of_nat (length bs)) by lia.
  by apply (concat_bound 8 (8 * Z.of_nat (length bs))); [lia..| |].
Qed.

Section buffers.
Context (buf bs : list Z) (off : Z) (Hoff : 0 <= off).
Context (Hlen : off + Z.of_nat (length bs) <= Z.of_nat (length buf)).

(** Bytes [off] to [off + length bs - 1] replaced. *)
Definition written : list Z := take (Z.to_nat off) buf ++ bs ++ drop (Z.to_nat off + length bs) buf.

Lemma write_bytes_run : write_bytes buf off bs = Ok written.
Proof.
  unfold write_bytes. by rewrite (proj2 (Z.leb_le 0 off)), (proj2 (Z.leb_le _ _)) by lia.
Qed.

Lemma length_written : length written = length buf.
Proof.
  unfold written. rewrite !length_app, length_take, length_drop. lia.
Qed.

Lemma written_lookup i : written !! i =
  if decide (off <= Z.of_nat i < off + Z.of_nat (length bs)) then bs !! (i - Z.to_nat off)%nat
  else buf !! i.
Proof.
  unfold written. case_decide as Hi.
  - rewrite lookup_app_r by (rewrite length_take; lia).
    rewrite lookup_app_l by (rewrite length_take; lia). f_equal. rewrite length_take. lia.
  - destruct (decide (Z.of_nat i < off)).
    + rewrite lookup_app_l, lookup_take_lt; [done|lia|rewrite length_take; lia].
    + rewrite !lookup_app_r by (rewrite ?length_take; lia). rewrite lookup_drop. f_equal.
      rewrite length_take. lia.
Qed.

Lemma read_written : read_bytes written off (Z.of_nat (length bs)) = Ok bs.
Proof.
  unfold read_bytes. rewrite length_written.
  rewrite (proj2 (Z.leb_le 0 off)), (proj2 (Z.leb_le 0 _)), (proj2 (Z.leb_le _ _)) by lia. simpl.
  f_equal. apply list_eq. intros i. rewrite Nat2Z.id.
  destruct (decide (i < length bs)%nat).
  - rewrite lookup_take_lt, lookup_drop, written_lookup by lia. rewrite decide_True by lia. f_equal. lia.
  - rewrite lookup_take_ge by lia. symmetry. apply lookup_ge_None. lia.
Qed.

End buffers.
