(* ===== verification/UnionFind.v ===== *)
(** * Disjoint sets: [include/union_find.h]

    The parser groups input bytes that occur in a common branch condition. A set
    is a tree of [parent] links with union by rank and path splitting, and at
    the same time a ring of [next] links so that its members can be listed. *)

From S2P Require Import Prelude.
Local Open Scope nat_scope.
Local Open Scope prog_scope.

(** ** Data and operations *)

Record UnionFind := mk_uf {
  size_ : nat;
  parent : list nat;
  next : list nat;
  rank : list nat
}.

(** [UnionFind::INVALID], [(size_t)-1], is [None]: it is above every index. *)

Definition uf_reset (n : nat) : UnionFind :=
  mk_uf n (seq 0 n) (seq 0 n) (replicate n 0).

Definition set_parent (x p : nat) (u : UnionFind) : UnionFind :=
  mk_uf (size_ u) (<[x := p]> (parent u)) (next u) (rank u).

(** The loop of [find]: [p] is [parent[x]]. *)
Fixpoint find_loop (fuel x p : nat) (u : UnionFind) : res (nat * UnionFind) :=
  if x =? p then Ok (x, u)
  else match fuel with
       | 0 => Err NoFuel
       | S n =>
           let? gp := idx (parent u !! p) in
           find_loop n p gp (set_parent x gp u)
       end.

(** Every step of the loop climbs to a node of higher rank, so the highest rank
    bounds the number of steps ([find_spec]). *)
Definition find_fuel (u : UnionFind) : nat := S (max_list (rank u)).

Definition uf_find (x : nat) (u : UnionFind) : res (option nat * UnionFind) :=
  if size_ u <=? x then Ok (None, u)
  else
    let? p := idx (parent u !! x) in
    let? (r, u') := find_loop (find_fuel u) x p u in
    Ok (Some r, u').

Definition uf_merge (x y : nat) (u : UnionFind) : res (option nat * UnionFind) :=
  if size_ u <=? x then Ok (None, u)
  else if size_ u <=? y then Ok (None, u)
  else
    let? (x_root, u) := uf_find x u in
    let? (y_root, u) := uf_find y u in
    match x_root, y_root with
    | Some x_root, Some y_root =>
        if x_root =? y_root then Ok (Some x_root, u)
        else
          (* merge link list *)
          let? x_next := idx (next u !! x_root) in
          let? y_next := idx (next u !! y_root) in
          let next' := <[y_root := x_next]> (<[x_root := y_next]> (next u)) in
          let? x_rank := idx (rank u !! x_root) in
          let? y_rank := idx (rank u !! y_root) in
          if x_rank <? y_rank then
            Ok (Some y_root,
                mk_uf (size_ u) (<[x_root := y_root]> (parent u)) next' (rank u))
          else if y_rank <? x_rank then
            Ok (Some x_root,
                mk_uf (size_ u) (<[y_root := x_root]> (parent u)) next' (rank u))
          else
            Ok (Some x_root,
                mk_uf (size_ u) (<[y_root := x_root]> (parent u)) next'
                  (<[x_root := S x_rank]> (rank u)))
    | _, _ => Err Undefined
    end.

(** The loop of [get_set]: stand at [temp], having collected [set]. *)
Fixpoint get_set_loop (fuel x temp : nat) (set : gset nat) (u : UnionFind)
    : res (gset nat) :=
  let? t := idx (next u !! temp) in
  if t =? x then Ok set
  else match fuel with
       | 0 => Err NoFuel
       | S n => get_set_loop n x t ({[t]} ∪ set) u
       end.

(** [get_set(x, set)]: the contents of [set] after the call; [None] when [x] is
    out of range, and then [set] is left as it was. A ring has at most [size_]
    members, which bounds the loop. *)
Definition uf_get_set (x : nat) (u : UnionFind) : res (option (gset nat)) :=
  if size_ u <=? x then Ok None
  else
    let? s := get_set_loop (size_ u) x x {[x]} u in
    Ok (Some s).

(** ** The sets a structure represents *)

(** [r] is the root above [x]. *)
Inductive rooted (par : list nat) : nat -> nat -> Prop :=
  | rooted_here x : par !! x = Some x -> rooted par x x
  | rooted_up x p r : par !! x = Some p -> p <> x -> rooted par p r ->
      rooted par x r.

(** [x] and [y] are in one set. *)
Definition same (u : UnionFind) (x y : nat) : Prop :=
  exists r, rooted (parent u) x r /\ rooted (parent u) y r.

(** Following [nxt] from [x] leads through [l] to [y]. *)
Fixpoint path (nxt : list nat) (x : nat) (l : list nat) (y : nat) : Prop :=
  match l with
  | [] => nxt !! x = Some y
  | z :: l' => nxt !! x = Some z /\ path nxt z l' y
  end.

(** The ring through [x] lists exactly the set of [x]. *)
Definition ring (u : UnionFind) (x : nat) (l : list nat) : Prop :=
  NoDup (x :: l) /\ path (next u) x l x /\
  forall y, y ∈ x :: l <-> same u x y.

Definition ranked (u : UnionFind) : Prop :=
  forall x p, parent u !! x = Some p -> p <> x ->
    exists rx rp, rank u !! x = Some rx /\ rank u !! p = Some rp /\ rx < rp.

Record uf_wf (u : UnionFind) : Prop := {
  wf_parent : length (parent u) = size_ u;
  wf_next : length (next u) = size_ u;
  wf_rank : length (rank u) = size_ u;
  wf_range : forall x p, parent u !! x = Some p -> p < size_ u;
  wf_ranked : ranked u;
  wf_rings : forall x, x < size_ u -> exists l, ring u x l
}.

(** ** Roots *)

(** The part of the invariant that does not speak of rings. *)
Record forest (u : UnionFind) : Prop := {
  fo_parent : length (parent u) = size_ u;
  fo_rank : length (rank u) = size_ u;
  fo_range : forall x p, parent u !! x = Some p -> p < size_ u;
  fo_ranked : ranked u
}.

Lemma uf_wf_forest u : uf_wf u -> forest u.
Proof. by intros []. Qed.

Lemma rooted_det par x r r' : rooted par x r -> rooted par x r' -> r = r'.
Proof.
  intros H. revert r'. induction H as [x Hx|x p r Hx Hp H IH]; intros r' H';
    inversion H'; subst; simplify_eq; auto.
Qed.

Lemma rooted_root par x r : rooted par x r -> par !! r = Some r.
Proof. by induction 1. Qed.

Lemma rooted_self par r r' : par !! r = Some r -> rooted par r r' -> r' = r.
Proof. intros Hr H. eapply rooted_det; [done|by constructor]. Qed.

Lemma rank_max u x rx : rank u !! x = Some rx -> rx <= max_list (rank u).
Proof. intros H. apply max_list_elem_of_le. by eapply list_elem_of_lookup_2. Qed.

Lemma in_range_lookup (l : list nat) n x : length l = n -> x < n ->
  exists v, l !! x = Some v.
Proof. intros <- Hx. by apply lookup_lt_is_Some. Qed.

Section forest.
Context (u : UnionFind) (Hf : forest u).

Lemma parent_lookup x : x < size_ u -> exists p, parent u !! x = Some p.
Proof. apply in_range_lookup, Hf. Qed.

Lemma rank_lookup x : x < size_ u -> exists rx, rank u !! x = Some rx.
Proof. apply in_range_lookup, Hf. Qed.

Lemma lookup_range x p : parent u !! x = Some p -> x < size_ u.
Proof. intros H%lookup_lt_Some. by rewrite (fo_parent u Hf) in H. Qed.

(** Every member has a root: ranks grow along [parent]. *)
Lemma rooted_total x : x < size_ u -> exists r, rooted (parent u) x r.
Proof.
  intros Hx. destruct (rank_lookup x Hx) as [rx Hrx].
  remember (max_list (rank u) - rx) as k eqn:Ek.
  revert x rx Hx Hrx Ek. induction k as [k IH] using lt_wf_ind. intros x rx Hx Hrx Ek.
  destruct (parent_lookup x Hx) as [p Hp].
  destruct (decide (p = x)) as [->|Hne]; [exists x; by constructor|].
  destruct (fo_ranked u Hf x p Hp Hne) as (rx' & rp & Hrx' & Hrp & Hlt). simplify_eq.
  pose proof (rank_max u p rp Hrp).
  destruct (IH (max_list (rank u) - rp) ltac:(lia) p rp) as [r Hr];
    [by eapply fo_range|done|done|].
  exists r. by eapply rooted_up.
Qed.

Lemma rooted_range x r : rooted (parent u) x r -> x < size_ u /\ r < size_ u.
Proof.
  intros H. pose proof (rooted_root _ _ _ H) as Hr. apply lookup_range in Hr.
  split; [|done]. by destruct H as [? H|? ? ? H]; eapply lookup_range.
Qed.

(** One step of path splitting keeps every root. *)
Lemma split_rooted x p gp : parent u !! x = Some p -> parent u !! p = Some gp ->
  p <> x -> forall y r,
  rooted (parent (set_parent x gp u)) y r <-> rooted (parent u) y r.
Proof.
  intros Hx Hp Hne. simpl.
  assert (gp <> x) as Hgx.
  { intros ->. destruct (fo_ranked u Hf x p Hx Hne) as (? & ? & ? & ? & ?).
    destruct (fo_ranked u Hf p x Hp ltac:(done)) as (? & ? & ? & ? & ?).
    simplify_eq. lia. }
  assert (forall y r, rooted (parent u) y r ->
            rooted (<[x := gp]> (parent u)) y r) as Hfwd.
  { intros y r H. induction H as [y Hy|y q r Hy Hq H IH].
    - constructor. rewrite list_lookup_insert_ne; [done|]. intros ->. by simplify_eq.
    - destruct (decide (y = x)) as [->|Hyx].
      2:{ eapply rooted_up; [|done|done]. by rewrite list_lookup_insert_ne. }
      simplify_eq. assert (x < length (parent u)) by by eapply lookup_lt_Some.
      destruct (decide (gp = p)) as [->|Hgq].
      { eapply rooted_up; [by apply list_lookup_insert_eq|done|done]. }
      eapply rooted_up; [by apply list_lookup_insert_eq|done|].
      inversion IH as [? H1|? ? ? H1]; subst; rewrite list_lookup_insert_ne in H1 by done;
        by simplify_eq. }
  intros y r. split; [|apply Hfwd]. intros H.
  assert (y < size_ u) as Hy.
  { rewrite <- (fo_parent u Hf), <- (length_insert (parent u) x gp).
    by destruct H as [? H|? ? ? H]; eapply lookup_lt_Some. }
  destruct (rooted_total y Hy) as [r0 Hr0].
  by rewrite (rooted_det _ _ _ _ H (Hfwd _ _ Hr0)).
Qed.

Lemma split_forest x p gp : parent u !! x = Some p -> parent u !! p = Some gp ->
  p <> x -> forest (set_parent x gp u).
Proof.
  intros Hx Hp Hne. destruct Hf as [H1 H2 H3 H4]. split; simpl.
  - by rewrite length_insert.
  - done.
  - intros y q Hy. apply list_lookup_insert_Some in Hy as [(<- & <- & _)|[_ Hy]]; eauto.
  - intros y q Hy Hq. simpl in *.
    apply list_lookup_insert_Some in Hy as [(<- & <- & _)|[_ Hy]]; [|eauto].
    destruct (H4 x p Hx Hne) as (rx & rp & ? & ? & ?).
    destruct (decide (gp = p)) as [->|Hgp]; [eauto|].
    destruct (H4 p gp Hp Hgp) as (rp' & rg & ? & ? & ?). simplify_eq.
    exists rx, rg. repeat split; [done|done|lia].
Qed.

End forest.

(** [find]'s loop ends at the root and keeps every set. *)
Lemma find_loop_spec fuel : forall u x p rx, forest u -> parent u !! x = Some p ->
  rank u !! x = Some rx -> max_list (rank u) - rx < fuel ->
  exists r u', find_loop fuel x p u = Ok (r, u') /\ rooted (parent u) x r /\
    forest u' /\ size_ u' = size_ u /\ next u' = next u /\ rank u' = rank u /\
    forall y r, rooted (parent u') y r <-> rooted (parent u) y r.
Proof.
  induction fuel as [|fuel IH]; intros u x p rx Hf Hx Hrx Hlt; [lia|]. simpl.
  destruct (Nat.eqb_spec x p) as [->|Hne].
  { exists p, u. split_and!; try done. by constructor. }
  destruct (fo_ranked u Hf x p Hx ltac:(done)) as (rx' & rp & ? & Hrp & ?). simplify_eq.
  pose proof (rank_max u p rp Hrp).
  destruct (parent_lookup u Hf p) as [gp Hgp]; [by eapply fo_range|].
  rewrite Hgp. simpl.
  destruct (IH (set_parent x gp u) p gp rp) as (r & u' & -> & Hr & Hf' & ? & ? & ? & Hiff).
  - by eapply split_forest.
  - simpl. by rewrite list_lookup_insert_ne.
  - done.
  - simpl. lia.
  - exists r, u'. split_and!; try done.
    + apply (split_rooted u Hf x p gp) in Hr; [|done..]. by eapply rooted_up.
    + intros y r'. rewrite Hiff. by eapply split_rooted.
Qed.

Lemma find_spec u x : forest u -> x < size_ u ->
  exists r u', uf_find x u = Ok (Some r, u') /\ rooted (parent u) x r /\
    forest u' /\ size_ u' = size_ u /\ next u' = next u /\ rank u' = rank u /\
    forall y r, rooted (parent u') y r <-> rooted (parent u) y r.
Proof.
  intros Hf Hx. unfold uf_find. destruct (Nat.leb_spec (size_ u) x); [lia|].
  destruct (parent_lookup u Hf x Hx) as [p Hp], (rank_lookup u Hf x Hx) as [rx Hrx].
  rewrite Hp. cbn [idx].
  destruct (find_loop_spec (find_fuel u) u x p rx) as (r & u' & -> & Hrest);
    [done..|unfold find_fuel; lia|].
  by exists r, u'.
Qed.

Lemma same_rooted u x y r : rooted (parent u) x r ->
  same u x y <-> rooted (parent u) y r.
Proof.
  intros Hx. split; [|by exists r]. intros (r' & Hx' & Hy).
  by rewrite (rooted_det _ _ _ _ Hx Hx').
Qed.

Lemma same_sym u x y : same u x y -> same u y x.
Proof. intros (r & ? & ?). by exists r. Qed.

Lemma same_trans u x y z : same u x y -> same u y z -> same u x z.
Proof.
  intros (r & Hx & Hy) (r' & Hy' & Hz). exists r. split; [done|].
  by rewrite (rooted_det _ _ _ _ Hy Hy').
Qed.

(** ** Rings *)

Lemma path_app nxt l1 : forall x y l2 z,
  path nxt x (l1 ++ y :: l2) z <-> path nxt x l1 y /\ path nxt y l2 z.
Proof.
  induction l1 as [|w l1 IH]; intros x y l2 z; simpl; [done|]. rewrite IH. tauto.
Qed.

(** Only the links of the nodes left behind matter. *)
Lemma path_restart nxt nxt' x x' l z : nxt' !! x' = nxt !! x ->
  (forall y, y ∈ l -> nxt' !! y = nxt !! y) -> path nxt x l z -> path nxt' x' l z.
Proof.
  revert x x'. induction l as [|w l IH]; intros x x' Hx Hl; simpl; [by rewrite Hx|].
  rewrite Hx. intros [? ?]. split; [done|]. apply (IH w); [|intros; apply Hl|done].
  - apply Hl. by left.
  - by right.
Qed.

Lemma ring_member u x l y : ring u x l -> same u x y -> exists l', ring u y l'.
Proof.
  intros (Hnd & Hp & Hin) Hy. pose proof (proj2 (Hin y) Hy) as Hyl.
  apply elem_of_cons in Hyl as [->|Hyl]; [by exists l|].
  apply list_elem_of_split in Hyl as (l1 & l2 & ->).
  assert (x :: l1 ++ y :: l2 ≡ₚ y :: l2 ++ x :: l1) as Hperm by solve_Permutation.
  exists (l2 ++ x :: l1). split_and!.
  - by rewrite <- Hperm.
  - rewrite path_app in Hp |- *. tauto.
  - intros z. rewrite <- Hperm, Hin. split; intros Hz.
    + eapply same_trans; [by apply same_sym|done].
    + by eapply same_trans.
Qed.

(** ** Linking two roots *)

Section link.
Context (u : UnionFind) (Hwf : uf_wf u) (a b : nat) (nxt' rk' : list nat).
Hypothesis Ha : parent u !! a = Some a.
Hypothesis Hb : parent u !! b = Some b.
Hypothesis Hab : a <> b.
Hypothesis Hnext_len : length nxt' = size_ u.
Hypothesis Hnext_a : nxt' !! a = next u !! b.
Hypothesis Hnext_b : nxt' !! b = next u !! a.
Hypothesis Hnext : forall x, x <> a -> x <> b -> nxt' !! x = next u !! x.
Hypothesis Hrk_len : length rk' = size_ u.
Hypothesis Hrk : forall x, x <> b -> rk' !! x = rank u !! x.
Hypothesis Hrk_b : exists ra rb rb', rank u !! a = Some ra /\ rank u !! b = Some rb /\
  rk' !! b = Some rb' /\ rb <= rb' /\ ra < rb'.

Let u' := mk_uf (size_ u) (<[a := b]> (parent u)) nxt' rk'.
Let Hf : forest u := uf_wf_forest u Hwf.

Lemma link_rooted_fwd y r : rooted (parent u) y r ->
  rooted (parent u') y (if r =? a then b else r).
Proof.
  assert (a < length (parent u)) as Hlen by by eapply lookup_lt_Some.
  intros H. unfold u'. simpl. induction H as [y Hy|y p r Hy Hp H IH].
  - destruct (Nat.eqb_spec y a) as [->|Hya].
    + eapply rooted_up; [by apply list_lookup_insert_eq|done|].
      constructor. by rewrite list_lookup_insert_ne.
    + constructor. by rewrite list_lookup_insert_ne.
  - eapply rooted_up; [|done|done]. rewrite list_lookup_insert_ne; [done|].
    intros <-. by simplify_eq.
Qed.

Lemma link_rooted y r : rooted (parent u') y r <->
  exists r0, rooted (parent u) y r0 /\ r = if r0 =? a then b else r0.
Proof.
  split; [|intros (r0 & H & ->); by apply link_rooted_fwd].
  intros H. assert (y < size_ u) as Hy.
  { rewrite <- (fo_parent u Hf), <- (length_insert (parent u) a b).
    by destruct H as [? H|? ? ? H]; eapply lookup_lt_Some. }
  destruct (rooted_total u Hf y Hy) as [r0 Hr0]. exists r0. split; [done|].
  by apply (rooted_det _ _ _ _ H), link_rooted_fwd.
Qed.

Lemma link_same y z : same u' y z <->
  same u y z \/ (same u a y /\ same u b z) \/ (same u b y /\ same u a z).
Proof.
  rewrite !(same_rooted u a _ a), !(same_rooted u b _ b) by by constructor.
  unfold same. setoid_rewrite link_rooted. split.
  - intros (r & (r1 & H1 & ->) & (r2 & H2 & Heq)).
    destruct (Nat.eqb_spec r1 a) as [->|], (Nat.eqb_spec r2 a) as [->|]; subst; eauto.
  - assert ((if b =? a then b else b) = b) as Hbb by by destruct (b =? a).
    intros [(r & H1 & H2)|[[H1 H2]|[H1 H2]]]; 
      [by exists (if r =? a then b else r); split; exists r| |];
      exists b; split; eexists; (split; [eassumption|]); by rewrite ?Nat.eqb_refl, ?Hbb.
Qed.

Lemma link_ranked : ranked u'.
Proof.
  destruct Hrk_b as (ra & rb & rb' & Hra & Hrb & Hrb' & Hle & Hlt).
  intros x p Hx Hp. simpl in *.
  apply list_lookup_insert_Some in Hx as [(<- & <- & _)|[Hne Hx]].
  { exists ra, rb'. by rewrite Hrk. }
  destruct (fo_ranked u Hf x p Hx Hp) as (rx & rp & Hrx & Hrp & ?).
  assert (x <> b) by (intros ->; by simplify_eq).
  exists rx. rewrite Hrk by done. destruct (decide (p = b)) as [->|].
  - exists rb'. simplify_eq. repeat split; [done..|lia].
  - exists rp. by rewrite Hrk.
Qed.

(** The two rings are spliced into one. *)
Lemma link_ring_a : exists l, ring u' a l.
Proof.
  assert (a < size_ u /\ b < size_ u) as [Hla Hlb] by by split; eapply lookup_range.
  destruct (wf_rings u Hwf a Hla) as (l1 & Hnd1 & Hp1 & Hin1).
  destruct (wf_rings u Hwf b Hlb) as (l2 & Hnd2 & Hp2 & Hin2).
  assert (~ same u a b) as Hnab.
  { rewrite (same_rooted u a b a) by by constructor. intros H.
    by apply Hab, eq_sym, eq_sym, (rooted_self _ b a Hb). }
  assert (forall y, y ∈ b :: l2 -> y ∉ a :: l1) as Hdisj.
  { intros y Hy2 Hy1. apply Hnab. apply Hin1 in Hy1. apply Hin2 in Hy2.
    eapply same_trans; [done|by apply same_sym]. }
  apply NoDup_cons in Hnd1 as Hnd1'. apply NoDup_cons in Hnd2 as Hnd2'.
  destruct Hnd1' as [Ha1 _], Hnd2' as [Hb2 _].
  exists (l2 ++ b :: l1). split_and!.
  - assert (a :: l2 ++ b :: l1 ≡ₚ (a :: l1) ++ (b :: l2)) as -> by solve_Permutation.
    apply NoDup_app. split_and!; [done| |done]. intros y Hy Hy'. by eapply Hdisj.
  - apply path_app. split.
    + apply (path_restart (next u) _ b); [done| |done]. intros y Hy. apply Hnext.
      * intros ->. eapply Hdisj; [by right|by left].
      * by intros ->.
    + apply (path_restart (next u) _ a); [done| |done]. intros y Hy. apply Hnext.
      * by intros ->.
      * intros ->. eapply Hdisj; [by left|by right].
  - intros y. rewrite link_same.
    assert (y ∈ a :: l2 ++ b :: l1 <-> y ∈ a :: l1 \/ y ∈ b :: l2) as ->
      by (rewrite !elem_of_cons, elem_of_app, elem_of_cons; tauto).
    rewrite Hin1, Hin2. split; [intros [H|H]|].
    + by left.
    + right. left. split; [|done]. exists a. by split; constructor.
    + intros [?|[[_ ?]|[H _]]]; [by left|by right|].
      exfalso. apply Hnab. by apply same_sym.
Qed.

Lemma link_ring x : x < size_ u -> exists l, ring u' x l.
Proof.
  intros Hx. destruct (rooted_total u Hf x Hx) as [r Hr].
  destruct (decide (r = a \/ r = b)) as [Hrab|Hrab].
  { destruct link_ring_a as [l Hl]. eapply ring_member; [done|]. apply link_same.
    rewrite !(same_rooted u a _ a), !(same_rooted u b _ b) by by constructor.
    destruct Hrab as [-> | ->]; [by left|]. right. left. by split; [constructor|]. }
  destruct (wf_rings u Hwf x Hx) as (l & Hnd & Hp & Hin). exists l.
  assert (forall y, y ∈ x :: l -> y <> a /\ y <> b) as Hout.
  { intros y Hy. apply Hin, (same_rooted u x y r Hr) in Hy.
    split; intros ->; apply Hrab; [left|right]; by eapply rooted_self. }
  split_and!; [done| |].
  - apply (path_restart (next u) _ x); [|intros y Hy|done];
      apply Hnext; apply Hout; by constructor.
  - intros y. rewrite Hin, link_same.
    rewrite !(same_rooted u a _ a), !(same_rooted u b _ b) by by constructor.
    split; [by left|]. intros [H|[[H _]|[H _]]]; [done| |];
      destruct (Hout x ltac:(by left)); exfalso; apply Hrab;
      [left|right]; by eapply rooted_det.
Qed.

Lemma link_wf : uf_wf u'.
Proof.
  split; simpl; [by rewrite length_insert, (wf_parent u Hwf)|done|done| | |].
  - intros x p Hx. apply list_lookup_insert_Some in Hx as [(<- & <- & _)|[_ Hx]].
    + by eapply lookup_range.
    + by eapply wf_range.
  - apply link_ranked.
  - apply link_ring.
Qed.

End link.

(** ** The operations *)

(** [find] changes [parent] links but not the sets. *)
Lemma find_wf u x : uf_wf u -> x < size_ u ->
  exists r u', uf_find x u = Ok (Some r, u') /\ rooted (parent u) x r /\
    uf_wf u' /\ size_ u' = size_ u /\
    forall y r, rooted (parent u') y r <-> rooted (parent u) y r.
Proof.
  intros Hwf Hx.
  destruct (find_spec u x (uf_wf_forest u Hwf) Hx)
    as (r & u' & Hfind & Hr & [H1 H2 H3 H4] & Hsz & Hnx & Hrk & Hiff).
  assert (forall y z, same u' y z <-> same u y z) as Hsame
    by (intros y z; unfold same; by setoid_rewrite Hiff).
  exists r, u'. split_and!; try done. split; try done.
  - rewrite Hnx, Hsz. apply Hwf.
  - rewrite Hsz. intros y Hy. destruct (wf_rings u Hwf y Hy) as (l & ? & ? & Hin).
    exists l. split_and!; [done|by rewrite Hnx|]. intros z. by rewrite Hin, Hsame.
Qed.

Lemma swap_lookup (l : list nat) a b va vb : a <> b ->
  l !! a = Some va -> l !! b = Some vb ->
  let l' := <[b := va]> (<[a := vb]> l) in
  l' !! a = l !! b /\ l' !! b = l !! a /\
  forall x, x <> a -> x <> b -> l' !! x = l !! x.
Proof.
  intros Hab Ha Hb. pose proof (lookup_lt_Some _ _ _ Ha). pose proof (lookup_lt_Some _ _ _ Hb).
  simpl. split_and!.
  - rewrite list_lookup_insert_ne, list_lookup_insert_eq by done. done.
  - rewrite list_lookup_insert_eq by (by rewrite length_insert). done.
  - intros x ? ?. by rewrite !list_lookup_insert_ne.
Qed.

(** The sets after [merge x y]. *)
Definition joins (u : UnionFind) (x y a b : nat) : Prop :=
  same u a b \/ (same u x a /\ same u y b) \/ (same u y a /\ same u x b).

Lemma joins_sym u x y a b : joins u x y a b <-> joins u y x a b.
Proof. unfold joins. tauto. Qed.

(** Linking root [a] below root [b], the way each branch of [merge] does it. *)
Lemma merge_branch u a b nxt' rk' : uf_wf u -> a <> b ->
  parent u !! a = Some a -> parent u !! b = Some b ->
  length nxt' = size_ u -> nxt' !! a = next u !! b -> nxt' !! b = next u !! a ->
  (forall x, x <> a -> x <> b -> nxt' !! x = next u !! x) ->
  length rk' = size_ u -> (forall x, x <> b -> rk' !! x = rank u !! x) ->
  (exists ra rb rb', rank u !! a = Some ra /\ rank u !! b = Some rb /\
     rk' !! b = Some rb' /\ rb <= rb' /\ ra < rb') ->
  let u' := mk_uf (size_ u) (<[a := b]> (parent u)) nxt' rk' in
  uf_wf u' /\ size_ u' = size_ u /\ rooted (parent u') b b /\
  forall x y, same u' x y <-> joins u a b x y.
Proof.
  intros. split_and!; [by apply link_wf|done| |].
  - constructor. simpl. by rewrite list_lookup_insert_ne.
  - intros x y. by apply link_same.
Qed.

Lemma merge_roots u a b : uf_wf u -> a <> b ->
  parent u !! a = Some a -> parent u !! b = Some b ->
  exists xn yn xr yr, next u !! a = Some xn /\ next u !! b = Some yn /\
    rank u !! a = Some xr /\ rank u !! b = Some yr /\
  exists r u',
    (let next' := <[b := xn]> (<[a := yn]> (next u)) in
     if xr <? yr then Ok (Some b, mk_uf (size_ u) (<[a := b]> (parent u)) next' (rank u))
     else if yr <? xr then Ok (Some a, mk_uf (size_ u) (<[b := a]> (parent u)) next' (rank u))
     else Ok (Some a, mk_uf (size_ u) (<[b := a]> (parent u)) next'
                        (<[a := S xr]> (rank u)))) = Ok (Some r, u') /\
    uf_wf u' /\ size_ u' = size_ u /\ rooted (parent u') r r /\ (r = a \/ r = b) /\
    forall x y, same u' x y <-> joins u a b x y.
Proof.
  intros Hwf Hab Ha Hb. pose proof (uf_wf_forest u Hwf) as Hf.
  pose proof (lookup_range u Hf a a Ha) as Hla. pose proof (lookup_range u Hf b b Hb) as Hlb.
  destruct (in_range_lookup _ _ a (wf_next u Hwf) Hla) as [xn Hxn].
  destruct (in_range_lookup _ _ b (wf_next u Hwf) Hlb) as [yn Hyn].
  destruct (rank_lookup u Hf a Hla) as [xr Hxr], (rank_lookup u Hf b Hlb) as [yr Hyr].
  exists xn, yn, xr, yr. do 4 (split; [done|]). simpl.
  destruct (swap_lookup (next u) a b xn yn Hab Hxn Hyn) as (Hsa & Hsb & Hs).
  pose proof (wf_next u Hwf) as Hn. pose proof (wf_rank u Hwf) as Hk.
  set (nx := <[b := xn]> (<[a := yn]> (next u))) in *.
  assert (length nx = size_ u) as Hlen by (unfold nx; by rewrite !length_insert).
  destruct (Nat.ltb_spec xr yr); [|destruct (Nat.ltb_spec yr xr)]; do 2 eexists;
    (split; [done|]).
  - destruct (merge_branch u a b nx (rank u)) as (? & ? & ? & Hj); eauto 10.
  - destruct (merge_branch u b a nx (rank u)) as (? & ? & ? & Hj); eauto 10.
    split_and!; auto. intros x y. by rewrite joins_sym.
  - destruct (merge_branch u b a nx (<[a := S xr]> (rank u))) as (? & ? & ? & Hj); eauto.
    + by rewrite length_insert.
    + intros x Hx. by rewrite list_lookup_insert_ne.
    + exists yr, xr, (S xr). rewrite list_lookup_insert_eq by (by rewrite Hk).
      repeat split; [done..|lia|lia].
    + split_and!; auto. intros x y. by rewrite joins_sym.
Qed.

(** [merge] of two members succeeds, keeps the invariant and joins exactly their
    two sets; it returns the root of the joined set. *)
Lemma merge_spec u x y : uf_wf u -> x < size_ u -> y < size_ u ->
  exists r u', uf_merge x y u = Ok (Some r, u') /\ uf_wf u' /\ size_ u' = size_ u /\
    rooted (parent u') x r /\ rooted (parent u') y r /\
    forall a b, same u' a b <-> joins u x y a b.
Proof.
  intros Hwf Hx Hy. unfold uf_merge.
  destruct (Nat.leb_spec (size_ u) x); [lia|]. destruct (Nat.leb_spec (size_ u) y); [lia|].
  destruct (find_wf u x Hwf Hx) as (rx & u1 & -> & Hrx & Hwf1 & Hsz1 & Hiff1).
  destruct (find_wf u1 y Hwf1 ltac:(lia)) as (ry & u2 & -> & Hry & Hwf2 & Hsz2 & Hiff2).
  assert (forall z r, rooted (parent u2) z r <-> rooted (parent u) z r) as Hiff
    by (intros; by rewrite Hiff2).
  apply Hiff1 in Hry. pose proof (proj2 (Hiff _ _) Hrx) as Hrx2.
  pose proof (proj2 (Hiff _ _) Hry) as Hry2.
  assert (forall a b, same u2 a b <-> same u a b) as Hsame
    by (intros a b; unfold same; by setoid_rewrite Hiff).
  assert (forall a, same u2 rx a <-> same u x a) as Hsx.
  { intros a. rewrite Hsame, (same_rooted u x a rx), (same_rooted u rx a rx); [done| |done].
    constructor. by eapply rooted_root. }
  assert (forall a, same u2 ry a <-> same u y a) as Hsy.
  { intros a. rewrite Hsame, (same_rooted u y a ry), (same_rooted u ry a ry); [done| |done].
    constructor. by eapply rooted_root. }
  destruct (Nat.eqb_spec rx ry) as [->|Hne].
  { exists ry, u2. split_and!; try done; [lia|]. intros a b. rewrite Hsame. unfold joins.
    split; [tauto|]. rewrite <- !Hsx, <- !Hsy, <- Hsame.
    intros [?|[[? ?]|[? ?]]]; [done|eapply same_trans; [by apply same_sym|done]..]. }
  destruct (merge_roots u2 rx ry Hwf2 Hne) as
    (xn & yn & xr & yr & -> & -> & -> & -> & r & u' & Heq & Hwf' & Hsz' & Hr & Hor & Hj);
    [by eapply rooted_root..|]. simpl in *. rewrite Heq.
  assert (forall a b, same u' a b <-> joins u x y a b) as Hj'.
  { intros a b. rewrite Hj. unfold joins. by rewrite !Hsame, <- !Hsx, <- !Hsy, !Hsame. }
  assert (same u' r x /\ same u' r y) as [Hx' Hy'].
  { assert (same u x x /\ same u y y) as [??] by by (split; eexists).
    assert (same u rx x /\ same u ry y) as [??] by by rewrite <- !Hsame, Hsx, Hsy.
    rewrite !Hj'. unfold joins.
    destruct Hor as [-> | ->]; split; auto using same_sym. }
  exists r, u'. split_and!; try done; [lia|..]; by apply (same_rooted u' r).
Qed.

Lemma reset_same n x y : same (uf_reset n) x y <-> x = y /\ x < n.
Proof.
  assert (forall z, z < n -> parent (uf_reset n) !! z = Some z) as Hp.
  { intros z Hz. simpl. by rewrite lookup_seq_lt. }
  assert (forall z r, rooted (parent (uf_reset n)) z r -> r = z /\ z < n) as Hr.
  { intros z r H. inversion H as [? H1|? p ? H1 H2]; subst;
      apply lookup_seq in H1; [tauto|]. destruct H1 as [-> ?]. by destruct H2. }
  split.
  - intros (r & [-> ?]%Hr & [-> ?]%Hr). done.
  - intros [-> Hx]. exists y. split; constructor; by apply Hp.
Qed.

Lemma reset_wf n : uf_wf (uf_reset n).
Proof.
  split; simpl; rewrite ?length_seq, ?length_replicate; try done.
  - intros x p H. apply lookup_seq in H. lia.
  - intros x p H Hne. simpl in H. apply lookup_seq in H as [-> ?]. by destruct Hne.
  - intros x Hx. exists []. split_and!.
    + apply NoDup_singleton.
    + simpl. by rewrite lookup_seq_lt.
    + intros y. rewrite list_elem_of_singleton, reset_same. naive_solver.
Qed.

Lemma get_set_loop_spec u x l : forall fuel temp set,
  path (next u) temp l x -> x ∉ l -> length l <= fuel ->
  get_set_loop fuel x temp set u = Ok (list_to_set l ∪ set).
Proof.
  induction l as [|z l IH]; intros fuel temp set; destruct fuel as [|fuel]; simpl;
    try lia; intros Hp Hx Hlen.
  - rewrite Hp. simpl. rewrite Nat.eqb_refl. f_equal. set_solver.
  - rewrite Hp. simpl. rewrite Nat.eqb_refl. f_equal. set_solver.
  - destruct Hp as [-> Hp]. simpl. apply not_elem_of_cons in Hx as [Hxz Hx].
    destruct (Nat.eqb_spec z x); [done|]. rewrite IH by (done || lia). f_equal. set_solver.
Qed.

Lemma same_range u x y : forest u -> same u x y -> x < size_ u /\ y < size_ u.
Proof. intros Hf (r & H1 & H2). destruct (rooted_range u Hf _ _ H1), (rooted_range u Hf _ _ H2). done. Qed.

Lemma ring_length u x l : uf_wf u -> ring u x l -> length l <= size_ u.
Proof.
  intros Hwf (Hnd & _ & Hin). apply NoDup_cons in Hnd as [_ Hnd].
  rewrite <- (length_seq (size_ u) 0). apply submseteq_length, NoDup_submseteq; [done|].
  intros y Hy. apply elem_of_seq. simpl. split; [lia|].
  eapply same_range; [by apply uf_wf_forest|]. apply Hin. by right.
Qed.

(** [get_set] lists exactly the set of its argument. *)
Lemma get_set_spec u x : uf_wf u -> x < size_ u ->
  exists s, uf_get_set x u = Ok (Some s) /\ forall y, y ∈ s <-> same u x y.
Proof.
  intros Hwf Hx. destruct (wf_rings u Hwf x Hx) as [l Hl].
  pose proof (ring_length u x l Hwf Hl) as Hlen.
  destruct Hl as (Hnd & Hp & Hin). apply NoDup_cons in Hnd as [Hxl _].
  exists (list_to_set l ∪ {[x]}). unfold uf_get_set.
  destruct (Nat.leb_spec (size_ u) x); [lia|]. rewrite (get_set_loop_spec u x l) by done.
  split; [done|]. intros y. rewrite <- Hin. set_solver.
Qed.

(** ** Specification: connected components *)

(** Run [merge] on every pair, as the parser does for the inputs of a branch. *)
Fixpoint merge_all (ps : list (nat * nat)) (u : UnionFind) : res UnionFind :=
  match ps with
  | [] => Ok u
  | (x, y) :: ps' => let? (_, u) := uf_merge x y u in merge_all ps' u
  end.

(** One merged pair below [n]. *)
Definition edge (n : nat) (ps : list (nat * nat)) (x y : nat) : Prop :=
  (x, y) ∈ ps /\ x < n /\ y < n.

Lemma merge_out_of_range u x y : size_ u <= x \/ size_ u <= y ->
  uf_merge x y u = Ok (None, u).
Proof.
  intros H. unfold uf_merge.
  destruct (Nat.leb_spec (size_ u) x); [done|].
  by destruct (Nat.leb_spec (size_ u) y); [|lia].
Qed.

(** Adding an edge to a partition given by connected components. *)
Lemma rtsc_add_edge n ps x y a b : x < n -> y < n ->
  rtsc (edge n (ps ++ [(x, y)])) a b <->
  rtsc (edge n ps) a b \/
  (rtsc (edge n ps) x a /\ rtsc (edge n ps) y b) \/
  (rtsc (edge n ps) y a /\ rtsc (edge n ps) x b).
Proof.
  intros Hx Hy. set (R := edge n ps). set (R' := edge n (ps ++ [(x, y)])).
  assert (forall a b, R a b -> R' a b) as Hmono.
  { intros c d (? & ? & ?). split_and!; [set_solver|done..]. }
  assert (forall a b, rtsc R a b -> rtsc R' a b) as Hinc.
  { intros c d. by apply (rtsc_congruence (fun z => z)). }
  assert (rtsc R' x y) as Hxy.
  { apply rtsc_lr. split_and!; [set_solver|done..]. }
  split.
  - intros H. induction H as [|c d e H1 H2 IH]; [by left|].
    assert (rtsc R c d \/ (c = x /\ d = y) \/ (c = y /\ d = x)) as Hcd.
    { destruct H1 as [(Hin & ? & ?)|(Hin & ? & ?)]; apply elem_of_app in Hin as [Hin|Hin].
      - left. by apply rtsc_lr.
      - right. left. apply list_elem_of_singleton in Hin. by simplify_eq.
      - left. by apply rtsc_rl.
      - right. right. apply list_elem_of_singleton in Hin. by simplify_eq. }
    pose proof (Equivalence_Reflexive (R := rtsc R)) as Hre.
    pose proof (Equivalence_Symmetric (R := rtsc R)) as Hsy.
    pose proof (Equivalence_Transitive (R := rtsc R)) as Htr.
    destruct Hcd as [Hcd|[[-> ->]|[-> ->]]]; destruct IH as [?|[[? ?]|[? ?]]]; eauto 6.
  - intros [?|[[Ha Hb]|[Ha Hb]]]; [by apply Hinc|..]; apply Hinc in Ha, Hb.
    + transitivity x; [by symmetry|]. by transitivity y.
    + transitivity y; [by symmetry|]. transitivity x; [by symmetry|done].
Qed.

Lemma merge_all_spec ps : forall qs u n, uf_wf u -> size_ u = n ->
  (forall x y, same u x y <-> rtsc (edge n qs) x y /\ x < n /\ y < n) ->
  exists u', merge_all ps u = Ok u' /\ uf_wf u' /\ size_ u' = n /\
    forall x y, same u' x y <-> rtsc (edge n (qs ++ ps)) x y /\ x < n /\ y < n.
Proof.
  induction ps as [|[x y] ps IH]; intros qs u n Hwf Hn Hqs; simpl.
  { exists u. by rewrite app_nil_r. }
  replace (qs ++ (x, y) :: ps) with ((qs ++ [(x, y)]) ++ ps) by by rewrite <- app_assoc.
  destruct (decide (x < n /\ y < n)) as [[Hx Hy]|Hout].
  - destruct (merge_spec u x y) as (r & u' & -> & Hwf' & Hn' & _ & _ & Hs); [done|lia..|].
    apply IH; [done|lia|]. intros a b. rewrite Hs. unfold joins.
    rewrite rtsc_add_edge, !Hqs by done. tauto.
  - rewrite merge_out_of_range by lia. apply IH; [done..|]. intros a b. rewrite Hqs.
    assert (forall c d, edge n (qs ++ [(x, y)]) c d <-> edge n qs c d) as He.
    { intros c d. unfold edge. rewrite elem_of_app, list_elem_of_singleton.
      split; [|tauto]. intros [[?|?] ?]; [done|]. simplify_eq. tauto. }
    assert (forall c d, rtsc (edge n (qs ++ [(x, y)])) c d <-> rtsc (edge n qs) c d) as ->;
      [|done].
    intros c d. split; apply (rtsc_congruence (fun z => z)); intros; by apply He.
Qed.

(** C2: after [reset n] and any sequence of [merge] calls, [get_set x] lists
    exactly the inputs below [n] that are connected to [x] by merged pairs: the
    structure computes the connected components of the pairs, and none of
    [find], [merge] and [get_set] fails or loops forever. *)
Theorem union_find_components n ps x : x < n ->
  exists u s, merge_all ps (uf_reset n) = Ok u /\ uf_get_set x u = Ok (Some s) /\
    forall y, y ∈ s <-> y < n /\ rtsc (edge n ps) x y.
Proof.
  intros Hx. destruct (merge_all_spec ps [] (uf_reset n) n) as (u & Hu & Hwf & Hn & Hs).
  - apply reset_wf.
  - done.
  - intros a b. rewrite reset_same. split; [by intros [-> ?]|]. intros (H & ? & ?).
    split; [|done]. destruct H as [|c d e Hcd Hde]; [done|].
    exfalso. destruct Hcd as [[Hc _]|[Hc _]]; by apply not_elem_of_nil in Hc.
  - destruct (get_set_spec u x Hwf ltac:(lia)) as (s & Hgs & Hin).
    exists u, s. split_and!; [done..|]. intros y. rewrite Hin, Hs. simpl. tauto.
Qed.

Lemma union_find_components_witness :
  exists u s, merge_all [(0, 1); (3, 4); (1, 3); (9, 2)] (uf_reset 6) = Ok u /\
    uf_get_set 4 u = Ok (Some s) /\
    forall y, y ∈ s <->
      y < 6 /\ rtsc (edge 6 [(0, 1); (3, 4); (1, 3); (9, 2)]) 4 y.
Proof. apply (union_find_components 6 [(0, 1); (3, 4); (1, 3); (9, 2)] 4). lia. Defined.
