(* ===== verification/Ast.v ===== *)
(** * Constraint syntax trees: [include/ast.h]

    A tree lives in one vector of nodes, shared by all of its nodes; a child is
    an index into it, and index 0, a dummy node, stands for no child. The root
    node itself is a separate object that owns the vector. *)

From S2P Require Import Prelude.
Local Open Scope prog_scope.

(** ** Kinds *)

Module rgd.

Inductive AstKind :=
  | Bool | Constant | Read | Concat | Extract
  | ZExt | SExt
  | Add | Sub | Mul | UDiv | SDiv | URem | SRem | Neg
  | Not | And | Or | Xor | Shl | LShr | AShr
  | Equal | Distinct | Ult | Ule | Ugt | Uge | Slt | Sle | Sgt | Sge
  | LOr | LAnd | LNot
  | Ite | Load | Memcmp | MemcmpN.

#[global] Instance AstKind_eq_dec : EqDecision AstKind.
Proof. solve_decision. Defined.

(** The enumeration's numbers. *)
Definition num (k : AstKind) : Z :=
  match k with
  | Bool => 0 | Constant => 1 | Read => 2 | Concat => 3 | Extract => 4
  | ZExt => 5 | SExt => 6
  | Add => 7 | Sub => 8 | Mul => 9 | UDiv => 10 | SDiv => 11 | URem => 12
  | SRem => 13 | Neg => 14
  | Not => 15 | And => 16 | Or => 17 | Xor => 18 | Shl => 19 | LShr => 20
  | AShr => 21
  | Equal => 22 | Distinct => 23 | Ult => 24 | Ule => 25 | Ugt => 26 | Uge => 27
  | Slt => 28 | Sle => 29 | Sgt => 30 | Sge => 31
  | LOr => 32 | LAnd => 33 | LNot => 34
  | Ite => 35 | Load => 36 | Memcmp => 37 | MemcmpN => 38
  end.

Definition isRelationalKind (k : AstKind) : bool :=
  (num Equal <=? num k) && (num k <=? num Sge).

Definition isBinaryOperation (k : AstKind) : bool :=
  (num Add <=? num k) && (num k <=? num AShr) &&
  negb (bool_decide (k = Neg)) && negb (bool_decide (k = Not)).

Definition negate_cmp (k : AstKind) : AstKind :=
  match k with
  | Equal => Distinct
  | Distinct => Equal
  | Ult => Uge
  | Ule => Ugt
  | Ugt => Ule
  | Uge => Ult
  | Slt => Sge
  | Sle => Sgt
  | Sgt => Sle
  | Sge => Slt
  | _ => Bool
  end.

Definition isSignedCmp (k : AstKind) : bool :=
  (num Slt <=? num k) && (num k <=? num Sge).

(** The relations themselves, on [w]-bit operands. *)
Definition compare (k : AstKind) (w a b : Z) : bool :=
  match k with
  | Equal => a =? b
  | Distinct => negb (a =? b)
  | Ult => a <? b
  | Ule => a <=? b
  | Ugt => b <? a
  | Uge => b <=? a
  | Slt => signed w a <? signed w b
  | Sle => signed w a <=? signed w b
  | Sgt => signed w b <? signed w a
  | Sge => signed w b <=? signed w a
  | _ => false
  end.

End rgd.

Lemma negate_cmp_correct k w a b : rgd.isRelationalKind k = true ->
  rgd.compare (rgd.negate_cmp k) w a b = negb (rgd.compare k w a b).
Proof.
  destruct k; try done; intros _; simpl; rewrite ?negb_involutive; try done;
    rewrite Z.ltb_antisym || rewrite Z.leb_antisym; rewrite ?negb_involutive; done.
Qed.

Lemma negate_cmp_relational k : rgd.isRelationalKind k = true ->
  rgd.isRelationalKind (rgd.negate_cmp k) = true.
Proof. by destruct k. Qed.

(** ** Nodes *)

Record AstNode := mk_node {
  child0_ : nat;
  child1_ : nat;
  kind : rgd.AstKind;    (* uint16_t *)
  bits : Z;              (* uint16_t *)
  index : Z;             (* 30 bits *)
  boolvalue : Z;         (* 1 bit *)
  label : Z;             (* uint32_t *)
  hash : Z               (* uint32_t *)
}.

#[global] Instance AstNode_eq_dec : EqDecision AstNode.
Proof. solve_decision. Defined.

(** A node as the constructors leave it. *)
Definition fresh_node : AstNode := mk_node 0 0 rgd.Bool 0 0 0 0 0.

Definition set_children (c0 c1 : nat) (n : AstNode) : AstNode :=
  mk_node c0 c1 (kind n) (bits n) (index n) (boolvalue n) (label n) (hash n).
Definition set_kind (k : rgd.AstKind) (n : AstNode) : AstNode :=
  mk_node (child0_ n) (child1_ n) k (bits n) (index n) (boolvalue n) (label n) (hash n).
Definition set_bits (b : Z) (n : AstNode) : AstNode :=
  mk_node (child0_ n) (child1_ n) (kind n) (u16 b) (index n) (boolvalue n) (label n) (hash n).
Definition set_index (i : Z) (n : AstNode) : AstNode :=
  mk_node (child0_ n) (child1_ n) (kind n) (bits n) (wrap 30 i) (boolvalue n) (label n) (hash n).
(** As written: a true value is stored as 0 and a false one as 1. *)
Definition set_boolvalue (v : Z) (n : AstNode) : AstNode :=
  mk_node (child0_ n) (child1_ n) (kind n) (bits n) (index n)
    (if v =? 0 then 1 else 0) (label n) (hash n).
Definition set_label (l : Z) (n : AstNode) : AstNode :=
  mk_node (child0_ n) (child1_ n) (kind n) (bits n) (index n) (boolvalue n) (u32 l) (hash n).
Definition set_hash (h : Z) (n : AstNode) : AstNode :=
  mk_node (child0_ n) (child1_ n) (kind n) (bits n) (index n) (boolvalue n) (label n) (u32 h).

Definition children_size (n : AstNode) : nat :=
  Nat.b2n (negb (child0_ n =? 0)%nat) + Nat.b2n (negb (child1_ n =? 0)%nat).

Definition clear_children (n : AstNode) : AstNode := set_children 0 0 n.

(** ** Trees in a vector *)

Record Ast := mk_ast {
  a_root : AstNode;
  a_vec : list AstNode;     (* *root_ *)
  a_cap : nat               (* root_->capacity() *)
}.

(** [AstNode(size_t size)], the root constructor. *)
Definition new_ast (size : nat) : Ast := mk_ast fresh_node [fresh_node] (size + 1).

(** A pointer to a node of a tree. *)
Inductive ref := Root | At (i : nat).

#[global] Instance ref_eq_dec : EqDecision ref.
Proof. solve_decision. Defined.

Definition node_at (r : ref) (a : Ast) : option AstNode :=
  match r with Root => Some (a_root a) | At i => a_vec a !! i end.

Definition put_node (r : ref) (n : AstNode) (a : Ast) : Ast :=
  match r with
  | Root => mk_ast n (a_vec a) (a_cap a)
  | At i => mk_ast (a_root a) (<[i := n]> (a_vec a)) (a_cap a)
  end.

(** Reading and writing through a pointer. *)
Definition node (r : ref) : M Ast AstNode := fun a =>
  match node_at r a with Some n => (Ok n, a) | None => (Err Undefined, a) end.
Definition update (r : ref) (f : AstNode -> AstNode) : M Ast unit :=
  let! n := node r in modify (put_node r (f n)).

(** [children(i)] and [mutable_children(i)]: the vector's [at] throws. *)
Definition children (r : ref) (i : nat) : M Ast ref :=
  if (2 <=? i)%nat then throw OutOfRange
  else
    let! n := node r in
    let c := if (i =? 0)%nat then child0_ n else child1_ n in
    let! size := gets (fun a => length (a_vec a)) in
    if (c <? size)%nat then ret (At c) else throw OutOfRange.

(** [None] is the null pointer: the vector is full, or there are two children. *)
Definition add_children (r : ref) : M Ast (option ref) :=
  let! size := gets (fun a => length (a_vec a)) in
  let! cap := gets a_cap in
  if (cap <=? size)%nat then ret None
  else
    let! n := node r in
    let append := modify (fun a => mk_ast (a_root a) (a_vec a ++ [fresh_node]) (a_cap a)) in
    if (child0_ n =? 0)%nat then
      update r (set_children size (child1_ n)) ;;; append ;;; ret (Some (At size))
    else if (child1_ n =? 0)%nat then
      update r (set_children (child0_ n) size) ;;; append ;;; ret (Some (At size))
    else ret None.

(** [CopyFrom] between nodes of one tree. *)
Definition copy_from (dst src : ref) : M Ast unit :=
  let! n := node src in update dst (fun _ => n).

(** [root_->emplace_back(AstNode(root_))] inside [RecursiveCopyFrom]. A full
    vector moves when it grows: [this] dangles if it is one of its nodes. *)
Definition emplace_back (this : ref) : M Ast unit :=
  let! size := gets (fun a => length (a_vec a)) in
  let! cap := gets a_cap in
  if (size <? cap)%nat then
    modify (fun a => mk_ast (a_root a) (a_vec a ++ [fresh_node]) cap)
  else match this with
       | Root => modify (fun a => mk_ast (a_root a) (a_vec a ++ [fresh_node]) (2 * cap))
       | At _ => throw Undefined
       end.

(** The child [c] of a node of another, unchanging tree. *)
Definition child_of (c : nat) (a : Ast) : res ref :=
  if (c <? length (a_vec a))%nat then Ok (At c) else Err OutOfRange.

(** The two child links. *)
Definition link (second : bool) (n : AstNode) : nat :=
  if second then child1_ n else child0_ n.
Definition set_link (second : bool) (c : nat) (n : AstNode) : AstNode :=
  if second then set_children (child0_ n) c n else set_children c (child1_ n) n.

(** "copy children", for one of the two children: [oc] is the other node's
    link and [recur] the recursive call. *)
Definition copy_child (recur : ref -> ref -> M Ast unit) (this : ref) (second : bool)
    (src : Ast) (oc : nat) : M Ast unit :=
  if negb (oc =? 0)%nat then
    let! t := node this in
    (if (link second t =? 0)%nat then
       let! size := gets (fun a => length (a_vec a)) in
       update this (set_link second size) ;;;
       emplace_back this
     else ret tt) ;;;
    let! c := children this (Nat.b2n second) in
    let! o := lift (child_of oc src) in
    recur c o
  else update this (set_link second 0).

(** [RecursiveCopyFrom]: copy the tree below [o] of [src] over node [this]. *)
Fixpoint recursive_copy (fuel : nat) (this : ref) (src : Ast) (o : ref) : M Ast unit :=
  match fuel with
  | O => throw NoFuel
  | S fuel' =>
      let! other := lift (idx (node_at o src)) in
      let recur c oc := recursive_copy fuel' c src oc in
      copy_child recur this false src (child0_ other) ;;;
      copy_child recur this true src (child1_ other) ;;;
      (* copy other fields *)
      update this (fun t => set_children (child0_ t) (child1_ t) other)
  end.

(** [CopyFrom] from a node of another tree. A tree has fewer levels than
    nodes. *)
Definition copy_tree (src : Ast) (o : ref) : M Ast unit :=
  recursive_copy (S (length (a_vec src))) Root src o.

(** A fresh root with a copy of [src]: [make_shared<AstNode>()] and
    [CopyFrom]. *)
Definition clone (size : nat) (src : Ast) (o : ref) : res Ast :=
  let '(r, a) := copy_tree src o (new_ast size) in
  match r with Ok _ => Ok a | Err e => Err e end.

(** [isEqualAstRecursive]. *)
Fixpoint isEqualAst (fuel : nat) (a1 : Ast) (r1 : ref) (a2 : Ast) (r2 : ref) : res bool :=
  match fuel with
  | O => Err NoFuel
  | S fuel' =>
      let? lhs := idx (node_at r1 a1) in
      let? rhs := idx (node_at r2 a2) in
      if negb (children_size lhs =? children_size rhs)%nat then Ok false
      else if negb (bits lhs =? bits rhs) then Ok false
      else if (if bool_decide (kind lhs = kind rhs)
               then negb (hash lhs =? hash rhs)
               else negb (rgd.isRelationalKind (kind lhs) && rgd.isRelationalKind (kind rhs)))
      then Ok false
      else
        let operand (c1 c2 : nat) :=
          let? s1 := child_of c1 a1 in
          let? s2 := child_of c2 a2 in
          isEqualAst fuel' a1 s1 a2 s2 in
        let size := children_size lhs in
        let? e0 := (if (0 <? size)%nat then operand (child0_ lhs) (child0_ rhs) else Ok true) in
        if negb e0 then Ok false
        else if (1 <? size)%nat then operand (child1_ lhs) (child1_ rhs) else Ok true
  end.

(** ** Trees as values *)

(** The tree below a node; nodes keep their fields and lose their links. *)
Inductive tree :=
  | Leaf (n : AstNode)
  | Un (n : AstNode) (t : tree)
  | Bin (n : AstNode) (t1 t2 : tree).

Definition payload (n : AstNode) : AstNode := clear_children n.

Definition tree_node (t : tree) : AstNode :=
  match t with Leaf n | Un n _ | Bin n _ _ => n end.

Fixpoint tree_size (t : tree) : nat :=
  match t with
  | Leaf _ => 1
  | Un _ t => S (tree_size t)
  | Bin _ t1 t2 => S (tree_size t1 + tree_size t2)
  end.

Fixpoint depth (t : tree) : nat :=
  match t with
  | Leaf _ => 0
  | Un _ t => S (depth t)
  | Bin _ t1 t2 => S (max (depth t1) (depth t2))
  end.

(** Node [r] of [a] is the root of [t], whose other nodes are those at [f]: no
    node is shared. *)
Inductive repr (a : Ast) : ref -> tree -> list nat -> Prop :=
  | repr_leaf r n : node_at r a = Some n -> child0_ n = O -> child1_ n = O ->
      repr a r (Leaf (payload n)) []
  | repr_un r n c t f : node_at r a = Some n -> child0_ n = c -> c <> O ->
      child1_ n = O -> repr a (At c) t f -> NoDup (c :: f) ->
      (forall i, i ∈ c :: f -> r <> At i) ->
      repr a r (Un (payload n) t) (c :: f)
  | repr_bin r n c1 c2 t1 t2 f1 f2 : node_at r a = Some n ->
      child0_ n = c1 -> c1 <> O -> child1_ n = c2 -> c2 <> O ->
      repr a (At c1) t1 f1 -> repr a (At c2) t2 f2 ->
      NoDup (c1 :: f1 ++ c2 :: f2) ->
      (forall i, i ∈ c1 :: f1 ++ c2 :: f2 -> r <> At i) ->
      repr a r (Bin (payload n) t1 t2) (c1 :: f1 ++ c2 :: f2).

(** ** Lemmas *)

Lemma node_at_put r n a r' : r <> r' -> node_at r' (put_node r n a) = node_at r' a.
Proof.
  intros Hne. destruct r as [|i], r' as [|j]; simpl; try done.
  rewrite list_lookup_insert_ne; [done|]. by intros ->.
Qed.

Lemma node_at_put_eq r n a m : node_at r a = Some m -> node_at r (put_node r n a) = Some n.
Proof.
  destruct r as [|i]; simpl; [done|]. intros H. apply list_lookup_insert_eq.
  by eapply lookup_lt_Some.
Qed.

Lemma put_node_length r n a : length (a_vec (put_node r n a)) = length (a_vec a).
Proof. destruct r; simpl; [done|]. by rewrite length_insert. Qed.

Lemma repr_node a r t f : repr a r t f ->
  exists n, node_at r a = Some n /\ payload n = tree_node t.
Proof. destruct 1; eauto. Qed.

Lemma repr_nodup a r t f : repr a r t f -> NoDup f /\ forall i, i ∈ f -> r <> At i.
Proof.
  destruct 1; [|done|done]. split; [apply NoDup_nil_2|]. intros i Hi. by apply elem_of_nil in Hi.
Qed.

(** A tree only depends on its own nodes. *)
Lemma repr_frame a a' r t f : repr a r t f ->
  node_at r a' = node_at r a -> (forall i, i ∈ f -> node_at (At i) a' = node_at (At i) a) ->
  repr a' r t f.
Proof.
  intros H. induction H as [r n Hn H0 H1|r n c t f Hn H0 Hc H1 Ht IH Hnd Hr
    |r n c1 c2 t1 t2 f1 f2 Hn H0 Hc1 H1 Hc2 Ht1 IH1 Ht2 IH2 Hnd Hr]; intros Hroot Hf;
    rewrite <- Hroot in Hn.
  - by constructor.
  - eapply repr_un; try done. apply IH; [apply Hf; by left|]. intros i Hi. apply Hf. by right.
  - eapply repr_bin; try done.
    + apply IH1; [apply Hf; by left|]. intros i Hi. apply Hf. right. apply elem_of_app. by left.
    + apply IH2.
      * apply Hf. right. apply elem_of_app. right. by left.
      * intros i Hi. apply Hf. right. apply elem_of_app. right. by right.
Qed.

Lemma repr_range a r t f i : repr a r t f -> i ∈ f -> (i < length (a_vec a))%nat.
Proof.
  intros H. revert i. induction H as [|r n c t f Hn H0 Hc H1 Ht IH Hnd Hr
    |r n c1 c2 t1 t2 f1 f2 Hn H0 Hc1 H1 Hc2 Ht1 IH1 Ht2 IH2 Hnd Hr]; intros i Hi.
  - by apply elem_of_nil in Hi.
  - apply elem_of_cons in Hi as [->|Hi]; [|auto].
    destruct (repr_node _ _ _ _ Ht) as (m & Hm & _). simpl in Hm.
    apply lookup_lt_Some in Hm. lia.
  - rewrite elem_of_cons, elem_of_app, elem_of_cons in Hi. destruct_or! Hi; auto; subst i;
      [destruct (repr_node _ _ _ _ Ht1) as (m & Hm & _)
      |destruct (repr_node _ _ _ _ Ht2) as (m & Hm & _)]; simpl in Hm;
      apply lookup_lt_Some in Hm; lia.
Qed.

(** A tree has no more levels than nodes in the vector. *)
Lemma repr_size a r t f : repr a r t f -> (depth t <= length f)%nat /\ (length f <= length (a_vec a))%nat.
Proof.
  intros H. split.
  - induction H; simpl; rewrite ?length_app; simpl; lia.
  - destruct (repr_nodup _ _ _ _ H) as [Hnd _].
    rewrite <- (length_seq (length (a_vec a)) 0). apply submseteq_length, NoDup_submseteq; [done|].
    intros i Hi. apply elem_of_seq. pose proof (repr_range _ _ _ _ _ H Hi). lia.
Qed.

(** Running the pointer operations. *)
Lemma node_run r a n : node_at r a = Some n -> node r a = (Ok n, a).
Proof. unfold node. by intros ->. Qed.

Lemma update_run r f a n : node_at r a = Some n ->
  update r f a = (Ok tt, put_node r (f n) a).
Proof. intros H. unfold update, bind. by rewrite (node_run r a n H). Qed.

Lemma copy_from_run dst src a n m : node_at src a = Some n -> node_at dst a = Some m ->
  copy_from dst src a = (Ok tt, put_node dst n a).
Proof.
  intros H H'. unfold copy_from, bind. rewrite (node_run src a n H).
  by rewrite (update_run dst _ a m H').
Qed.

Lemma children0_run r a n m : node_at r a = Some n -> a_vec a !! child0_ n = Some m ->
  children r 0 a = (Ok (At (child0_ n)), a).
Proof.
  intros H Hm. unfold children, bind, gets. simpl. rewrite (node_run r a n H).
  apply lookup_lt_Some in Hm. by destruct (Nat.ltb_spec (child0_ n) (length (a_vec a))); [|lia].
Qed.

Lemma children1_run r a n m : node_at r a = Some n -> a_vec a !! child1_ n = Some m ->
  children r 1 a = (Ok (At (child1_ n)), a).
Proof.
  intros H Hm. unfold children, bind, gets. simpl. rewrite (node_run r a n H).
  apply lookup_lt_Some in Hm. by destruct (Nat.ltb_spec (child1_ n) (length (a_vec a))); [|lia].
Qed.

(** ** Copying a tree *)

(** What copying [t] over the childless node [this] of [a] gives. *)
Record copied (a a' : Ast) (this : ref) (t : tree) (f : list nat) : Prop := {
  cp_repr : repr a' this t f;
  cp_size : (length (a_vec a') + 1 = length (a_vec a) + tree_size t)%nat;
  cp_cap : a_cap a' = a_cap a;
  cp_new : forall i, i ∈ f -> (length (a_vec a) <= i < length (a_vec a'))%nat;
  cp_frame : forall r, r <> this ->
    match r with Root => True | At i => (i < length (a_vec a))%nat end ->
    node_at r a' = node_at r a
}.

Lemma tree_size_pos t : (1 <= tree_size t)%nat.
Proof. destruct t; simpl; lia. Qed.

Definition in_vec (r : ref) (a : Ast) : Prop :=
  match r with Root => True | At i => (i < length (a_vec a))%nat end.

Lemma node_at_in_vec r a n : node_at r a = Some n -> in_vec r a.
Proof. destruct r; simpl; [done|]. apply lookup_lt_Some. Qed.

(** Growing the vector below its capacity. *)
Definition grow_vec (a : Ast) : Ast := mk_ast (a_root a) (a_vec a ++ [fresh_node]) (a_cap a).

Lemma emplace_back_run this a : (length (a_vec a) < a_cap a)%nat ->
  emplace_back this a = (Ok tt, grow_vec a).
Proof.
  intros H. unfold emplace_back, bind, gets, modify.
  by destruct (Nat.ltb_spec (length (a_vec a)) (a_cap a)); [|lia].
Qed.

Lemma node_at_grow r a : in_vec r a -> node_at r (grow_vec a) = node_at r a.
Proof. destruct r as [|i]; simpl; [done|]. intros H. by apply lookup_app_l. Qed.

Lemma node_at_grow_new a : node_at (At (length (a_vec a))) (grow_vec a) = Some fresh_node.
Proof. simpl. rewrite lookup_app_r by lia. by rewrite Nat.sub_diag. Qed.

Lemma grow_length a : length (a_vec (grow_vec a)) = S (length (a_vec a)).
Proof. simpl. rewrite length_app. simpl. lia. Qed.

(** Linking a new child [c] below [this] and growing the vector, for the first
    and for the second child. *)
Definition link_new (this : ref) (n : AstNode) (a : Ast) : Ast := grow_vec (put_node this n a).

Lemma link_new_facts this n a m : node_at this a = Some m ->
  let a' := link_new this n a in
  node_at this a' = Some n /\
  node_at (At (length (a_vec a))) a' = Some fresh_node /\
  length (a_vec a') = S (length (a_vec a)) /\ a_cap a' = a_cap a /\
  forall r, r <> this -> in_vec r a -> node_at r a' = node_at r a.
Proof.
  intros Hm a'. unfold a', link_new. split_and!.
  - rewrite node_at_grow; [by eapply node_at_put_eq|].
    apply node_at_in_vec in Hm. destruct this; simpl; [done|]. by rewrite length_insert.
  - rewrite <- (put_node_length this n a). apply node_at_grow_new.
  - by rewrite grow_length, put_node_length.
  - by destruct this.
  - intros r Hr Hin. rewrite node_at_grow; [by apply node_at_put|].
    destruct r; simpl in *; [done|]. by rewrite put_node_length.
Qed.

(** One child: given what the recursive call does, [this] gets a new child that
    is a copy of [t], after the nodes there were. *)
Lemma copy_child_spec recur this second src oc t fs a n :
  node_at this a = Some n -> link second n = O -> oc <> O ->
  repr src (At oc) t fs -> (1 <= length (a_vec a))%nat ->
  (length (a_vec a) + tree_size t <= a_cap a)%nat ->
  (forall b, (exists m, node_at (At (length (a_vec a))) b = Some m /\
                child0_ m = O /\ child1_ m = O) ->
     (1 <= length (a_vec b))%nat ->
     (length (a_vec b) + tree_size t <= a_cap b + 1)%nat ->
     exists b' f, recur (At (length (a_vec a))) (At oc) b = (Ok tt, b') /\
       copied b b' (At (length (a_vec a))) t f) ->
  exists a' f, copy_child recur this second src oc a = (Ok tt, a') /\
    node_at this a' = Some (set_link second (length (a_vec a)) n) /\
    repr a' (At (length (a_vec a))) t f /\
    length (a_vec a') = (length (a_vec a) + tree_size t)%nat /\ a_cap a' = a_cap a /\
    (forall i, i ∈ f -> (length (a_vec a) < i < length (a_vec a'))%nat) /\
    (forall r, r <> this -> in_vec r a -> node_at r a' = node_at r a).
Proof.
  intros Hn Hl Hoc Ht H1 Hcap Hrec. pose proof (tree_size_pos t) as Hpos.
  unfold copy_child. apply Nat.eqb_neq in Hoc as ->. simpl.
  set (n' := set_link second (length (a_vec a)) n).
  destruct (link_new_facts this n' a n Hn) as (Hthis & Hnew & Hlen & Hc & Hfr).
  set (a1 := link_new this n' a) in *.
  destruct (Hrec a1) as (a' & f & E & [Hrepr Hsz Hc' Hf Hfr']);
    [by exists fresh_node|lia|lia|].
  exists a', f.
  assert (in_vec this a1) as Hin1 by by eapply node_at_in_vec.
  assert (this <> At (length (a_vec a))) as Hne.
  { intros ->. apply node_at_in_vec in Hn. simpl in Hn. lia. }
  split_and!; try done; try lia.
  - unfold bind at 1. rewrite (node_run this a n Hn), Hl. simpl.
    unfold bind at 1. unfold bind at 1, gets at 1. unfold bind at 1.
    rewrite (update_run this _ a n Hn). fold n'.
    rewrite emplace_back_run by (rewrite put_node_length; destruct this; simpl; lia).
    fold (link_new this n' a). fold a1.
    unfold bind at 1.
    assert (children this (Nat.b2n second) a1 = (Ok (At (length (a_vec a))), a1)) as ->.
    { replace (length (a_vec a)) with (link second n') by (by destruct second).
      destruct second; [eapply children1_run|eapply children0_run]; done. }
    unfold bind, lift. destruct (repr_node _ _ _ _ Ht) as (m & Hm & _). simpl in Hm.
    apply lookup_lt_Some in Hm. unfold child_of.
    destruct (Nat.ltb_spec oc (length (a_vec src))); [done|lia].
  - rewrite Hfr'; [done|done|done].
  - intros i Hi. specialize (Hf i Hi). rewrite Hlen in Hf. lia.
  - intros r Hr Hin. rewrite Hfr'; [by apply Hfr| |].
    + intros ->. simpl in Hin. lia.
    + destruct r; simpl in *; [done|]. lia.
Qed.

(** No child: the link is cleared. *)
Lemma copy_child_none recur this second src a n : node_at this a = Some n ->
  copy_child recur this second src 0 a = (Ok tt, put_node this (set_link second 0 n) a).
Proof. intros Hn. unfold copy_child. simpl. by apply update_run. Qed.

Lemma put_node_facts r n a m : node_at r a = Some m ->
  let a' := put_node r n a in
  node_at r a' = Some n /\ length (a_vec a') = length (a_vec a) /\ a_cap a' = a_cap a /\
  forall r', r' <> r -> node_at r' a' = node_at r' a.
Proof.
  intros Hm a'. split_and!.
  - by eapply node_at_put_eq.
  - apply put_node_length.
  - by destruct r.
  - intros r' Hr'. by apply node_at_put.
Qed.

(** Putting the pieces of a copy together. *)
Lemma copied_bin a a1 a2 a3 this on t1 t2 f1 f2 n1 n2 :
  let c1 := length (a_vec a) in let c2 := length (a_vec a1) in
  (1 <= c1)%nat -> in_vec this a ->
  repr a1 (At c1) t1 f1 -> length (a_vec a1) = (c1 + tree_size t1)%nat ->
  (forall i, i ∈ f1 -> (c1 < i < length (a_vec a1))%nat) ->
  (forall r, r <> this -> in_vec r a -> node_at r a1 = node_at r a) ->
  repr a2 (At c2) t2 f2 -> length (a_vec a2) = (c2 + tree_size t2)%nat ->
  (forall i, i ∈ f2 -> (c2 < i < length (a_vec a2))%nat) ->
  (forall r, r <> this -> in_vec r a1 -> node_at r a2 = node_at r a1) ->
  a_cap a1 = a_cap a -> a_cap a2 = a_cap a1 ->
  node_at this a1 = Some n1 -> node_at this a2 = Some n2 ->
  a3 = put_node this (set_children c1 c2 on) a2 ->
  copied a a3 this (Bin (payload on) t1 t2) (c1 :: f1 ++ c2 :: f2).
Proof.
  intros c1 c2 H1 Hin Hr1 Hl1 Hf1 Hfr1 Hr2 Hl2 Hf2 Hfr2 Hc1 Hc2 Hn1 Hn2 ->.
  destruct (put_node_facts this (set_children c1 c2 on) a2 n2 Hn2) as (Hthis & Hlen & Hcap & Hfr).
  pose proof (tree_size_pos t1). pose proof (tree_size_pos t2).
  assert (forall i, (c1 <= i)%nat -> this <> At i) as Hne.
  { intros i Hi ->. simpl in Hin. fold c1 in Hin. lia. }
  assert (forall i, i ∈ c1 :: f1 ++ c2 :: f2 -> (c1 <= i < length (a_vec a2))%nat) as Hrange.
  { intros i. rewrite elem_of_cons, elem_of_app, elem_of_cons.
    intros [->|[Hi|[->|Hi]]]; [lia|specialize (Hf1 _ Hi); lia|unfold c2; lia|].
    specialize (Hf2 _ Hi). unfold c2 in *. lia. }
  split.
  - change (payload on) with (payload (set_children c1 c2 on)).
    eapply repr_bin; [exact Hthis|done|lia|done|unfold c2; lia| | | |].
    + eapply repr_frame; [exact Hr1| |].
      * rewrite Hfr by (intros E; by apply (Hne c1)). apply Hfr2; [|simpl; lia].
        intros E. by apply (Hne c1).
      * intros i Hi. specialize (Hf1 i Hi). rewrite Hfr by (intros E; apply (Hne i); [lia|done]).
        apply Hfr2; [intros E; apply (Hne i); [lia|done]|simpl; lia].
    + eapply repr_frame; [exact Hr2| |].
      * apply Hfr. intros E. apply (Hne c2); [unfold c2; lia|done].
      * intros i Hi. specialize (Hf2 i Hi). apply Hfr. intros E.
        apply (Hne i); [unfold c2 in *; lia|done].
    + destruct (repr_nodup _ _ _ _ Hr1) as [Hn1' Hd1], (repr_nodup _ _ _ _ Hr2) as [Hn2' Hd2].
      change (c1 :: f1 ++ c2 :: f2) with ((c1 :: f1) ++ c2 :: f2). apply NoDup_app. split_and!.
      * apply NoDup_cons. split; [|done]. intros Hi. by apply (Hd1 _ Hi).
      * intros i Hi1 Hi2. apply elem_of_cons in Hi1, Hi2.
        assert (c1 <= i < c2)%nat by (destruct Hi1 as [->|Hi1]; [unfold c2; lia|];
          specialize (Hf1 _ Hi1); unfold c2; lia).
        destruct Hi2 as [->|Hi2]; [lia|]. specialize (Hf2 _ Hi2). lia.
      * apply NoDup_cons. split; [|done]. intros Hi. by apply (Hd2 _ Hi).
    + intros i Hi. apply Hne. by apply Hrange.
  - simpl. rewrite Hlen. unfold c2 in Hl2. lia.
  - congruence.
  - intros i Hi. rewrite Hlen. by apply Hrange.
  - intros r Hr Hin'. rewrite Hfr by done. fold (in_vec r a) in Hin'.
    rewrite Hfr2; [by apply Hfr1|done|]. destruct r; simpl in *; [done|]. unfold c1 in *; lia.
Qed.

(** [recursive_copy] with this fuel copies. *)
Definition copies (fuel : nat) : Prop := forall src o t fs this a,
  repr src o t fs -> (depth t < fuel)%nat ->
  (exists n, node_at this a = Some n /\ child0_ n = O /\ child1_ n = O) ->
  (1 <= length (a_vec a))%nat ->
  (length (a_vec a) + tree_size t <= a_cap a + 1)%nat ->
  exists a' f, recursive_copy fuel this src o a = (Ok tt, a') /\ copied a a' this t f.

Section copy.
Context (fuel : nat) (IH : copies fuel) (src : Ast) (o this : ref) (a : Ast) (on n : AstNode).
Context (Ho : node_at o src = Some on).
Context (Hn : node_at this a = Some n) (Hn0 : child0_ n = O) (Hn1 : child1_ n = O) (H1 : (1 <= length (a_vec a))%nat).

Lemma copy_leaf : child0_ on = O -> child1_ on = O ->
  exists a' f, recursive_copy (S fuel) this src o a = (Ok tt, a') /\ copied a a' this (Leaf (payload on)) f.
Proof.
  intros E0 E1. simpl. unfold bind at 1, lift. rewrite Ho. simpl. rewrite E0, E1.
  destruct (put_node_facts this (set_link false 0 n) a n Hn) as (Ht1 & L1 & C1 & F1).
  destruct (put_node_facts this (set_link true 0 (set_link false 0 n)) _ _ Ht1)
    as (Ht2 & L2 & C2 & F2).
  destruct (put_node_facts this (set_children 0 0 on) _ _ Ht2) as (Ht3 & L3 & C3 & F3).
  match type of Ht3 with node_at _ ?b = _ => exists b, [] end. split.
  - unfold bind. rewrite (copy_child_none _ _ _ _ _ n Hn).
    rewrite (copy_child_none _ _ _ _ _ _ Ht1), (update_run _ _ _ _ Ht2). done.
  - split.
    + change (payload on) with (payload (set_children 0 0 on)). by constructor.
    + simpl in *. lia.
    + congruence.
    + intros i Hi. by apply elem_of_nil in Hi.
    + intros r Hne _. by rewrite F3, F2, F1.
Qed.

Lemma copy_one c ts f : child0_ on = c -> c <> O -> child1_ on = O -> repr src (At c) ts f ->
  (depth ts < fuel)%nat -> (length (a_vec a) + tree_size (Un (payload on) ts) <= a_cap a + 1)%nat ->
  exists a' f, recursive_copy (S fuel) this src o a = (Ok tt, a') /\ copied a a' this (Un (payload on) ts) f.
Proof.
  intros E0 Hc E1 Ht Hd Hcap. simpl in Hcap |- *. unfold bind at 1, lift. rewrite Ho. simpl. rewrite E0, E1.
  assert (in_vec this a) as Hin by by eapply node_at_in_vec.
  edestruct (copy_child_spec (fun c oc => recursive_copy fuel c src oc) this false src c ts f a n)
    as (a1 & f1 & R1 & N1 & Hr1 & L1 & C1 & Hf1 & F1); try done; try lia.
  { intros b Hb Hb1 Hb2. apply (IH src (At c) ts f); done || lia. }
  destruct (put_node_facts this (set_link true 0 (set_link false (length (a_vec a)) n)) _ _ N1)
    as (N2 & L2 & C2 & F2).
  destruct (put_node_facts this (set_children (length (a_vec a)) 0 on) _ _ N2)
    as (N3 & L3 & C3 & F3).
  assert (forall i, (length (a_vec a) <= i)%nat -> this <> At i) as Hne.
  { intros i Hi ->. simpl in Hin. lia. }
  match type of N3 with node_at _ ?b = _ => exists b, (length (a_vec a) :: f1) end. split.
  - unfold bind. rewrite R1, (copy_child_none _ _ _ _ _ _ N1), (update_run _ _ _ _ N2). done.
  - pose proof (tree_size_pos ts). destruct (repr_nodup _ _ _ _ Hr1) as [Hnd1 Hd1]. split.
    + change (payload on) with (payload (set_children (length (a_vec a)) 0 on)).
      eapply repr_un; [exact N3|done|lia|done| | |].
      * eapply repr_frame; [exact Hr1|by rewrite F3, F2 by (intros E; by apply (Hne (length (a_vec a))))|].
         intros i Hi. specialize (Hf1 i Hi).
         by rewrite F3, F2 by (intros E; apply (Hne i); [lia|done]).
      * apply NoDup_cons. split; [|done]. intros Hi. by apply (Hd1 _ Hi).
      * intros i Hi. apply Hne. apply elem_of_cons in Hi as [->|Hi]; [lia|].
         specialize (Hf1 i Hi). lia.
    + rewrite L3, L2, L1. simpl. lia.
    + congruence.
    + intros i Hi. rewrite L3, L2. apply elem_of_cons in Hi as [->|Hi]; [lia|].
      specialize (Hf1 i Hi). lia.
    + intros r Hr Hin'. rewrite F3, F2 by done. by apply F1.
Qed.

Lemma copy_two c1 c2 t1 t2 f1 f2 : child0_ on = c1 -> c1 <> O -> child1_ on = c2 -> c2 <> O ->
  repr src (At c1) t1 f1 -> repr src (At c2) t2 f2 -> (depth t1 < fuel)%nat -> (depth t2 < fuel)%nat ->
  (length (a_vec a) + tree_size (Bin (payload on) t1 t2) <= a_cap a + 1)%nat ->
  exists a' f, recursive_copy (S fuel) this src o a = (Ok tt, a') /\ copied a a' this (Bin (payload on) t1 t2) f.
Proof.
  intros E0 Hc1 E1 Hc2 Ht1 Ht2 Hd1 Hd2 Hcap. simpl in Hcap |- *. unfold bind at 1, lift. rewrite Ho. simpl. rewrite E0, E1.
  assert (in_vec this a) as Hin by by eapply node_at_in_vec.
  pose proof (tree_size_pos t1). pose proof (tree_size_pos t2).
  edestruct (copy_child_spec (fun c oc => recursive_copy fuel c src oc) this false src c1 t1 f1 a n)
    as (a1 & g1 & R1 & N1 & Hr1 & L1 & C1 & Hf1 & F1); try done; try lia.
  { intros b Hb Hb1 Hb2. apply (IH src (At c1) t1 f1); done || lia. }
  edestruct (copy_child_spec (fun c oc => recursive_copy fuel c src oc) this true src c2 t2 f2 a1
               (set_link false (length (a_vec a)) n))
    as (a2 & g2 & R2 & N2 & Hr2 & L2 & C2 & Hf2 & F2); try done; try lia.
  { intros b Hb Hb1 Hb2. apply (IH src (At c2) t2 f2); done || lia. }
  exists (put_node this (set_children (length (a_vec a)) (length (a_vec a1)) on) a2),
    (length (a_vec a) :: g1 ++ length (a_vec a1) :: g2). split.
  - unfold bind. rewrite R1, R2, (update_run _ _ _ _ N2). done.
  - eapply (copied_bin a a1 a2); done.
Qed.

End copy.

Lemma recursive_copy_spec fuel : copies fuel.
Proof.
  induction fuel as [|fuel IH]; intros src o t fs this a Hr Hd (n & Hn & Hn0 & Hn1) H1 Hcap; [lia|].
  destruct Hr as [o on Ho E0 E1|o on c ts f Ho E0 Hc E1 Ht Hnd Hdis
    |o on c1 c2 t1 t2 f1 f2 Ho E0 Hc1 E1 Hc2 Ht1 Ht2 Hnd Hdis]; simpl in Hd.
  - by apply (copy_leaf fuel src o this a on n).
  - apply (copy_one fuel IH src o this a on n) with (c := c) (f := f); done || lia.
  - apply (copy_two fuel IH src o this a on n) with (c1 := c1) (c2 := c2) (f1 := f1) (f2 := f2); done || lia.
Qed.

(** Copying a tree that fits under a fresh root. *)
Lemma clone_spec size src o t fs : repr src o t fs -> (tree_size t <= size + 1)%nat ->
  exists a f, clone size src o = Ok a /\ repr a Root t f /\ a_cap a = (size + 1)%nat.
Proof.
  intros Hr Hs. unfold clone, copy_tree. pose proof (repr_size _ _ _ _ Hr).
  destruct (recursive_copy_spec (S (length (a_vec src))) src o t fs Root (new_ast size))
    as (a & f & E & [Hrep _ Hc _ _]); [done|lia|by exists fresh_node|done|simpl; lia|].
  exists a, f. by rewrite E.
Qed.

(** ** Building a tree *)

Lemma put_node_put r n m a : put_node r n (put_node r m a) = put_node r n a.
Proof. destruct r; simpl; [done|]. by rewrite list_insert_insert_eq. Qed.

Lemma add_child0_run r a n : node_at r a = Some n -> child0_ n = O ->
  (length (a_vec a) < a_cap a)%nat ->
  add_children r a = (Ok (Some (At (length (a_vec a)))),
    link_new r (set_children (length (a_vec a)) (child1_ n) n) a).
Proof.
  intros Hn H0 Hcap. unfold add_children. do 2 (erewrite bind_eq by reflexivity).
  rewrite (proj2 (Nat.leb_gt _ _)) by done. erewrite bind_eq by (by apply node_run).
  rewrite H0, Nat.eqb_refl. erewrite bind_eq by (by apply update_run).
  by erewrite bind_eq by reflexivity.
Qed.

Lemma add_child1_run r a n : node_at r a = Some n -> child0_ n <> O -> child1_ n = O ->
  (length (a_vec a) < a_cap a)%nat ->
  add_children r a = (Ok (Some (At (length (a_vec a)))),
    link_new r (set_children (child0_ n) (length (a_vec a)) n) a).
Proof.
  intros Hn H0 H1 Hcap. unfold add_children. do 2 (erewrite bind_eq by reflexivity).
  rewrite (proj2 (Nat.leb_gt _ _)) by done. erewrite bind_eq by (by apply node_run).
  rewrite (proj2 (Nat.eqb_neq _ _) H0), H1, Nat.eqb_refl.
  erewrite bind_eq by (by apply update_run). by erewrite bind_eq by reflexivity.
Qed.

(** A tree built in a child that was just added. *)
Lemma copied_linked a n n' this b t f : node_at this a = Some n ->
  copied (link_new this n' a) b (At (length (a_vec a))) t f ->
  repr b (At (length (a_vec a))) t f /\
  length (a_vec b) = (length (a_vec a) + tree_size t)%nat /\
  (forall i, i ∈ f -> (length (a_vec a) < i < length (a_vec b))%nat) /\
  (forall r, r <> this -> in_vec r a -> node_at r b = node_at r a) /\
  a_cap b = a_cap a /\ node_at this b = Some n'.
Proof.
  intros Hn [Hr Hsz Hc Hf Hfr].
  destruct (link_new_facts this n' a n Hn) as (Hthis & _ & Hlen & Hcap & Hfr0).
  assert (this <> At (length (a_vec a))) as Hne.
  { intros ->. apply node_at_in_vec in Hn. simpl in Hn. lia. }
  split_and!; [done|lia| | |congruence|].
  - intros i Hi. specialize (Hf i Hi). lia.
  - intros r Hr' Hin. rewrite Hfr; [by apply Hfr0| |].
    + intros ->. simpl in Hin. lia.
    + destruct r; simpl in *; [done|]. lia.
  - rewrite Hfr; [done|done|]. by eapply node_at_in_vec in Hthis.
Qed.

Lemma copied_leaf a this n m : node_at this a = Some m -> child0_ n = O -> child1_ n = O ->
  copied a (put_node this n a) this (Leaf (payload n)) [].
Proof.
  intros Hm H0 H1. destruct (put_node_facts this n a m Hm) as (Hthis & Hlen & Hcap & Hfr). split.
  - by constructor.
  - simpl. lia.
  - done.
  - intros i Hi. by apply elem_of_nil in Hi.
  - intros r Hr _. by apply Hfr.
Qed.

Lemma copied_un a a1 a2 this on t f n1 :
  let c := length (a_vec a) in
  (1 <= c)%nat -> in_vec this a ->
  repr a1 (At c) t f -> length (a_vec a1) = (c + tree_size t)%nat ->
  (forall i, i ∈ f -> (c < i < length (a_vec a1))%nat) ->
  (forall r, r <> this -> in_vec r a -> node_at r a1 = node_at r a) ->
  a_cap a1 = a_cap a -> node_at this a1 = Some n1 ->
  a2 = put_node this (set_children c 0 on) a1 ->
  copied a a2 this (Un (payload on) t) (c :: f).
Proof.
  intros c H1 Hin Hr Hl Hf Hfr Hc Hn1 ->.
  destruct (put_node_facts this (set_children c 0 on) a1 n1 Hn1) as (Hthis & Hlen & Hcap & Hfr').
  destruct (repr_nodup _ _ _ _ Hr) as [Hnd Hd]. pose proof (tree_size_pos t).
  assert (forall i, (c <= i)%nat -> this <> At i) as Hne.
  { intros i Hi ->. simpl in Hin. fold c in Hin. lia. }
  assert (forall i, i ∈ c :: f -> (c <= i < length (a_vec a1))%nat) as Hrange.
  { intros i Hi. apply elem_of_cons in Hi as [->|Hi]; [lia|]. specialize (Hf i Hi). lia. }
  split.
  - change (payload on) with (payload (set_children c 0 on)).
    eapply repr_un; [exact Hthis|done|lia|done| | |].
    + eapply repr_frame; [exact Hr| |].
      * apply Hfr'. intros E. by apply (Hne c).
      * intros i Hi. specialize (Hf i Hi). apply Hfr'. intros E. apply (Hne i); [lia|done].
    + apply NoDup_cons. split; [|done]. intros Hi. by apply (Hd _ Hi).
    + intros i Hi. apply Hne. by apply Hrange.
  - simpl. rewrite Hlen. lia.
  - congruence.
  - intros i Hi. rewrite Hlen. by apply Hrange.
  - intros r Hr' Hin'. rewrite Hfr' by done. by apply Hfr.
Qed.
