(* ===== verification/Formula.v ===== *)
(** * Normal forms of branch conditions: [to_nnf] and [to_dnf] of
      [parsers/rgd-parser.cpp]

    A branch condition is a boolean formula over comparisons. To take the other
    side of a branch the parser negates it if need be, pushes the negations into
    the comparisons, and splits the result into conjunctive clauses. *)

From S2P Require Import Prelude Ast.
Local Open Scope prog_scope.

(** ** The code *)

Definition INVALID_NODE : Z := 2.

Fixpoint to_nnf (fuel : nat) (expected_r : bool) (nd : ref) : M Ast Z :=
  match fuel with
  | O => throw NoFuel
  | S fuel' =>
      let! n := node nd in
      (* transform the only child, then take its place *)
      let unary (r : bool) :=
        if negb (children_size n =? 1)%nat then ret INVALID_NODE
        else
          let! child := children nd 0 in
          let! rt := to_nnf fuel' r child in
          if negb (rt =? 0) then ret rt
          else copy_from nd child ;;; ret 0 in
      (* De Morgan's law *)
      let demorgan (k : rgd.AstKind) :=
        if negb (children_size n =? 2)%nat then ret INVALID_NODE
        else
          update nd (set_kind k) ;;;
          let! c := children nd 0 in
          let! rt := to_nnf fuel' false c in
          if negb (rt =? 0) then ret rt
          else
            let! c := children nd 1 in
            let! rt := to_nnf fuel' false c in
            if negb (rt =? 0) then ret rt else ret 0 in
      if negb expected_r then
        match kind n with
        | rgd.LNot => unary true
        | rgd.LAnd => demorgan rgd.LOr
        | rgd.LOr => demorgan rgd.LAnd
        | k =>
            if rgd.isRelationalKind k then update nd (set_kind (rgd.negate_cmp k)) ;;; ret 0
            else if bool_decide (k = rgd.Memcmp) then ret 0
            else ret INVALID_NODE
        end
      else
        match kind n with
        | rgd.LNot => unary false
        | rgd.Memcmp => update nd (set_kind rgd.MemcmpN) ;;; ret 0
        | _ =>
            (* for (i = 0; i < node->children_size(); i++) *)
            if (0 <? children_size n)%nat then
              let! c := children nd 0 in
              let! rt := to_nnf fuel' expected_r c in
              if negb (rt =? 0) then ret rt
              else if (1 <? children_size n)%nat then
                let! c := children nd 1 in
                let! rt := to_nnf fuel' expected_r c in
                if negb (rt =? 0) then ret rt else ret 0
              else ret 0
            else ret 0
        end
  end.

(** A clause is a list of pointers to the comparisons it conjoins. *)
Definition clause_t : Type := list ref.
Definition formula_t : Type := list clause_t.

(** The clauses [to_dnf] appends to [formula]. *)
Fixpoint to_dnf (fuel : nat) (nd : ref) (formula : formula_t) : M Ast formula_t :=
  match fuel with
  | O => throw NoFuel
  | S fuel' =>
      let! n := node nd in
      match kind n with
      | rgd.LAnd =>
          let! c0 := children nd 0 in
          let! lhs := to_dnf fuel' c0 [] in
          let! c1 := children nd 1 in
          let! rhs := to_dnf fuel' c1 [] in
          let product :=
            lhs ≫= (fun sub1 => (fun sub2 => sub1 ++ sub2) <$> rhs) in
          if (length lhs =? 0)%nat then ret rhs
          else ret (formula ++ product)
      | rgd.LOr =>
          let! c0 := children nd 0 in
          let! formula := to_dnf fuel' c0 formula in
          let! c1 := children nd 1 in
          to_dnf fuel' c1 formula
      | _ => ret (formula ++ [[nd]])
      end
  end.

(** What [parse_cond] and [save_constraint] do with a condition [expr]: copy it,
    then bring the copy into the form that makes it equal to [direction]. The
    result is [None] when the condition cannot be transformed. *)
Definition cond_clauses (direction : bool) (expr : Ast) : res (option (Ast * formula_t)) :=
  let? root := clone 32 expr Root in
  let fuel := S (length (a_vec root)) in
  match to_nnf fuel direction Root root with
  | (Err e, _) => Err e
  | (Ok rt, root) =>
      if negb (rt =? 0) then Ok None
      else match to_dnf fuel Root [] root with
           | (Err e, _) => Err e
           | (Ok dnf, root) => Ok (Some (root, dnf))
           end
  end.

(** ** The same on trees *)

Fixpoint nnf (expected_r : bool) (t : tree) : option tree :=
  let leaf (n : AstNode) : option rgd.AstKind :=
    if rgd.isRelationalKind (kind n) then Some (rgd.negate_cmp (kind n))
    else if bool_decide (kind n = rgd.Memcmp) then Some rgd.Memcmp else None in
  match t with
  | Leaf n =>
      if expected_r then
        match kind n with
        | rgd.LNot => None
        | rgd.Memcmp => Some (Leaf (set_kind rgd.MemcmpN n))
        | _ => Some t
        end
      else k ← leaf n; Some (Leaf (set_kind k n))
  | Un n c =>
      match kind n with
      | rgd.LNot => nnf (negb expected_r) c
      | rgd.LAnd | rgd.LOr =>
          if expected_r then c' ← nnf true c; Some (Un n c') else None
      | rgd.Memcmp =>
          if expected_r then Some (Un (set_kind rgd.MemcmpN n) c) else Some t
      | _ =>
          if expected_r then c' ← nnf true c; Some (Un n c')
          else k ← leaf n; Some (Un (set_kind k n) c)
      end
  | Bin n c1 c2 =>
      let both k r := c1' ← nnf r c1; c2' ← nnf r c2; Some (Bin (set_kind k n) c1' c2') in
      match kind n with
      | rgd.LNot => None
      | rgd.LAnd => if expected_r then both rgd.LAnd true else both rgd.LOr false
      | rgd.LOr => if expected_r then both rgd.LOr true else both rgd.LAnd false
      | rgd.Memcmp =>
          if expected_r then Some (Bin (set_kind rgd.MemcmpN n) c1 c2) else Some t
      | k =>
          if expected_r then both k true
          else k ← leaf n; Some (Bin (set_kind k n) c1 c2)
      end
  end.

(** ** Meaning *)

(** The operands of the comparison a label names, and whether the memory it
    compares differs. *)
Record valuation := mk_val {
  operands : Z -> Z * Z * Z;     (* width, left, right *)
  differ : Z -> bool
}.

Definition holds (v : valuation) (n : AstNode) : bool :=
  let '(w, a, b) := operands v (label n) in rgd.compare (kind n) w a b.

(** The truth of a condition as it was built: a [Memcmp] is true when the memory
    differs. *)
Fixpoint sem_cond (v : valuation) (t : tree) : bool :=
  match t with
  | Leaf n => if bool_decide (kind n = rgd.Memcmp) then differ v (label n) else holds v n
  | Un _ t => negb (sem_cond v t)
  | Bin n t1 t2 =>
      if bool_decide (kind n = rgd.LAnd) then sem_cond v t1 && sem_cond v t2
      else sem_cond v t1 || sem_cond v t2
  end.

(** The truth of a solver's constraint: [Memcmp] asks for equal memory and
    [MemcmpN] for different memory. *)
Definition sem_leaf (v : valuation) (n : AstNode) : bool :=
  if bool_decide (kind n = rgd.Memcmp) then negb (differ v (label n))
  else if bool_decide (kind n = rgd.MemcmpN) then differ v (label n)
  else holds v n.

Fixpoint sem_goal (v : valuation) (t : tree) : bool :=
  match t with
  | Leaf n => sem_leaf v n
  | Un _ t => false
  | Bin n t1 t2 =>
      if bool_decide (kind n = rgd.LAnd) then sem_goal v t1 && sem_goal v t2
      else sem_goal v t1 || sem_goal v t2
  end.

(** Conditions over comparisons and [memcmp] results. *)
Fixpoint condition (t : tree) : bool :=
  match t with
  | Leaf n => rgd.isRelationalKind (kind n) || bool_decide (kind n = rgd.Memcmp)
  | Un n t => bool_decide (kind n = rgd.LNot) && condition t
  | Bin n t1 t2 =>
      (bool_decide (kind n = rgd.LAnd) || bool_decide (kind n = rgd.LOr)) &&
      condition t1 && condition t2
  end.

(** Goals: negation-free. *)
Fixpoint goal_form (t : tree) : bool :=
  match t with
  | Leaf n => rgd.isRelationalKind (kind n) || bool_decide (kind n = rgd.Memcmp) ||
              bool_decide (kind n = rgd.MemcmpN)
  | Un _ _ => false
  | Bin n t1 t2 =>
      (bool_decide (kind n = rgd.LAnd) || bool_decide (kind n = rgd.LOr)) &&
      goal_form t1 && goal_form t2
  end.

Lemma nnf_correct v t : condition t = true -> forall b, exists t',
  nnf b t = Some t' /\ goal_form t' = true /\ sem_goal v t' = Bool.eqb (sem_cond v t) b /\
  (tree_size t' <= tree_size t)%nat /\ (depth t' <= depth t)%nat.
Proof.
  intros Hc. induction t as [n|n t IH|n t1 IH1 t2 IH2]; intros b; simpl in Hc |- *.
  - destruct (rgd.isRelationalKind (kind n)) eqn:Hr.
    + assert (kind n <> rgd.Memcmp) as Hm by (intros E; by rewrite E in Hr).
      rewrite (bool_decide_eq_false_2 _ Hm). destruct b.
      * exists (Leaf n). split; [by destruct (kind n)|]. simpl. rewrite Hr.
        split_and!; try done. unfold sem_leaf. rewrite (bool_decide_eq_false_2 _ Hm).
        assert (kind n <> rgd.MemcmpN) as Hm' by (intros E; by rewrite E in Hr).
        rewrite (bool_decide_eq_false_2 _ Hm'). by destruct (holds v n).
      * exists (Leaf (set_kind (rgd.negate_cmp (kind n)) n)). split; [done|]. simpl.
        rewrite negate_cmp_relational by done. split_and!; try done.
        unfold sem_leaf, holds. simpl. destruct (operands v (label n)) as [[w x] y].
        rewrite !bool_decide_eq_false_2 by (by destruct (kind n)).
        rewrite negate_cmp_correct by done. by destruct (rgd.compare (kind n) w x y).
    + simpl in Hc. apply bool_decide_eq_true in Hc. rewrite Hc. simpl.
      destruct b; eexists; (split; [done|]);
        split_and!; try done; simpl; unfold sem_leaf; simpl; by destruct (differ v (label n)).
  - apply andb_true_iff in Hc as [Hk Hc]. apply bool_decide_eq_true in Hk. rewrite Hk.
    destruct (IH Hc (negb b)) as (t' & -> & Hg & Hs & Hsz & Hd). exists t'.
    split_and!; try done; try lia. rewrite Hs. by destruct (sem_cond v t), b.
  - rewrite !andb_true_iff, orb_true_iff, !bool_decide_eq_true in Hc.
    destruct Hc as [[Hk Hc1] Hc2].
    destruct (IH1 Hc1 b) as (t1' & E1 & Hg1 & Hs1 & Hsz1 & Hd1).
    destruct (IH2 Hc2 b) as (t2' & E2 & Hg2 & Hs2 & Hsz2 & Hd2).
    destruct Hk as [Hk|Hk]; rewrite Hk; destruct b; rewrite E1, E2; simpl; eexists;
      (split; [done|]); simpl; rewrite Hg1, Hg2; split_and!; try done; try lia;
      repeat (rewrite bool_decide_eq_true_2 by done || rewrite bool_decide_eq_false_2 by done);
      rewrite Hs1, Hs2; by destruct (sem_cond v t1), (sem_cond v t2).
Qed.

(** ** The code follows the trees *)

(** [a'] is [a] with the tree at [r], whose nodes are [f], replaced by [t']. *)
Record rewritten (a a' : Ast) (r : ref) (f : list nat) (t' : tree) (f' : list nat) : Prop := {
  rw_repr : repr a' r t' f';
  rw_sub : forall i, i ∈ f' -> i ∈ f;
  rw_size : length (a_vec a') = length (a_vec a);
  rw_frame : forall r', r' <> r -> (forall i, i ∈ f -> r' <> At i) ->
    node_at r' a' = node_at r' a
}.

Lemma two_children (run1 run2 : M Ast Z) a r n c1 c2 t1 t2 f1 f2 t1' t2' :
  node_at r a = Some n -> child0_ n = c1 -> c1 <> O -> child1_ n = c2 -> c2 <> O ->
  repr a (At c1) t1 f1 -> repr a (At c2) t2 f2 ->
  NoDup (c1 :: f1 ++ c2 :: f2) -> (forall i, i ∈ c1 :: f1 ++ c2 :: f2 -> r <> At i) ->
  (forall a, repr a (At c1) t1 f1 ->
     exists a' f', run1 a = (Ok 0, a') /\ rewritten a a' (At c1) f1 t1' f') ->
  (forall a, repr a (At c2) t2 f2 ->
     exists a' f', run2 a = (Ok 0, a') /\ rewritten a a' (At c2) f2 t2' f') ->
  exists a1 a2 f', run1 a = (Ok 0, a1) /\ node_at r a1 = Some n /\
    (exists m, a_vec a1 !! c2 = Some m) /\ run2 a1 = (Ok 0, a2) /\
    rewritten a a2 r (c1 :: f1 ++ c2 :: f2) (Bin (payload n) t1' t2') f'.
Proof.
  intros Hn E0 Hc1 E1 Hc2 Ht1 Ht2 Hnd Hdis H1 H2.
  change (c1 :: f1 ++ c2 :: f2) with ((c1 :: f1) ++ (c2 :: f2)) in Hnd, Hdis.
  apply NoDup_app in Hnd as (Hnd1 & Hx & Hnd2).
  assert (forall i, i ∈ c1 :: f1 -> r <> At i) as Hd1
    by (intros i Hi; apply Hdis, elem_of_app; by left).
  assert (forall i, i ∈ c2 :: f2 -> r <> At i) as Hd2
    by (intros i Hi; apply Hdis, elem_of_app; by right).
  destruct (H1 a Ht1) as (a1 & g1 & R1 & [Hr1 Hs1 Hl1 Hf1]).
  assert (forall i, i ∈ c2 :: f2 -> node_at (At i) a1 = node_at (At i) a) as Hk2.
  { intros i Hi. apply Hf1.
    - intros [= ->]. apply (Hx c1); [by left|done].
    - intros j Hj [= ->]. apply (Hx j); [by right|done]. }
  assert (repr a1 (At c2) t2 f2) as Ht2'.
  { eapply repr_frame; [exact Ht2|apply Hk2; by left|]. intros i Hi. apply Hk2. by right. }
  destruct (H2 a1 Ht2') as (a2 & g2 & R2 & [Hr2 Hs2 Hl2 Hf2]).
  assert (forall i, i ∈ c1 :: g1 -> i ∈ c1 :: f1) as Hsub1.
  { intros i Hi. apply elem_of_cons in Hi as [->|Hi]; [by left|right; auto]. }
  assert (forall i, i ∈ c2 :: g2 -> i ∈ c2 :: f2) as Hsub2.
  { intros i Hi. apply elem_of_cons in Hi as [->|Hi]; [by left|right; auto]. }
  assert (forall i, i ∈ c1 :: f1 -> node_at (At i) a2 = node_at (At i) a1) as Hk1.
  { intros i Hi. apply Hf2.
    - intros [= ->]. by apply (Hx c2); [|left].
    - intros j Hj [= ->]. by apply (Hx j); [|right]. }
  assert (node_at r a1 = Some n) as Hn1.
  { rewrite Hf1; [done|apply Hd1; by left|]. intros i Hi. apply Hd1. by right. }
  assert (node_at r a2 = Some n) as Hn2.
  { rewrite Hf2; [done|apply Hd2; by left|]. intros i Hi. apply Hd2. by right. }
  exists a1, a2, (c1 :: g1 ++ c2 :: g2). split_and!; try done.
  { destruct (repr_node _ _ _ _ Ht2') as (m & ? & _). by exists m. }
  split.
  - eapply repr_bin; try done.
    + eapply repr_frame; [exact Hr1|apply Hk1; by left|]. intros i Hi. apply Hk1. right. auto.
    + destruct (repr_nodup _ _ _ _ Hr1) as [Hg1 Hd1'], (repr_nodup _ _ _ _ Hr2) as [Hg2 Hd2'].
      change (c1 :: g1 ++ c2 :: g2) with ((c1 :: g1) ++ (c2 :: g2)). apply NoDup_app. split_and!.
      * apply NoDup_cons. split; [|done]. intros Hi. by apply (Hd1' _ Hi).
      * intros i Hi Hi'. apply (Hx i); auto.
      * apply NoDup_cons. split; [|done]. intros Hi. by apply (Hd2' _ Hi).
    + intros i Hi. change (c1 :: g1 ++ c2 :: g2) with ((c1 :: g1) ++ (c2 :: g2)) in Hi.
      apply elem_of_app in Hi as [Hi|Hi]; auto.
  - intros i Hi. change (c1 :: g1 ++ c2 :: g2) with ((c1 :: g1) ++ (c2 :: g2)) in Hi.
    change (c1 :: f1 ++ c2 :: f2) with ((c1 :: f1) ++ (c2 :: f2)).
    apply elem_of_app in Hi as [Hi|Hi]; apply elem_of_app; auto.
  - congruence.
  - intros r' Hr' Hi.
    change (c1 :: f1 ++ c2 :: f2) with ((c1 :: f1) ++ (c2 :: f2)) in Hi.
    rewrite Hf2, Hf1; [done|..].
    + apply Hi, elem_of_app. left. by left.
    + intros i Hi'. apply Hi, elem_of_app. left. by right.
    + apply Hi, elem_of_app. right. by left.
    + intros i Hi'. apply Hi, elem_of_app. right. by right.
Qed.

(** A node takes the place of another one. *)
Lemma repr_move a c t f r m n : repr a (At c) t f -> node_at (At c) a = Some m ->
  node_at r a = Some n -> (forall i, i ∈ c :: f -> r <> At i) ->
  repr (put_node r m a) r t f.
Proof.
  intros Ht Hm Hn Hdis.
  assert (node_at r (put_node r m a) = Some m) as Hr by by eapply node_at_put_eq.
  assert (forall i, i ∈ f -> node_at (At i) (put_node r m a) = node_at (At i) a) as Hf.
  { intros i Hi. apply node_at_put. apply Hdis. by right. }
  inversion Ht as [? m' Hm' E0 E1|? m' c' t' f' Hm' E0 Hc E1 Ht' Hnd Hd
    |? m' c1 c2 t1 t2 f1 f2 Hm' E0 Hc1 E1 Hc2 Ht1 Ht2 Hnd Hd]; subst; simplify_eq.
  - by constructor.
  - eapply repr_un; try done.
    + eapply repr_frame; [exact Ht'|apply Hf; by left|]. intros i Hi. apply Hf. by right.
    + intros i Hi. apply Hdis. by right.
  - eapply repr_bin; try done.
    + eapply repr_frame; [exact Ht1|apply Hf; by left|]. intros i Hi. apply Hf.
      right. apply elem_of_app. by left.
    + eapply repr_frame; [exact Ht2|apply Hf; right; apply elem_of_app; right; by left|].
      intros i Hi. apply Hf. right. apply elem_of_app. right. by right.
    + intros i Hi. apply Hdis. by right.
Qed.

Lemma rewritten_same a r t f : repr a r t f -> rewritten a a r f t f.
Proof. by split. Qed.

Lemma leaf_rewritten a r n k : node_at r a = Some n -> child0_ n = O -> child1_ n = O ->
  rewritten a (put_node r (set_kind k n) a) r [] (Leaf (set_kind k (payload n))) [].
Proof.
  intros Hn H0 H1. split; [|done|apply put_node_length|].
  - change (set_kind k (payload n)) with (payload (set_kind k n)).
    constructor; [by eapply node_at_put_eq|done|done].
  - intros r' Hr _. apply node_at_put. congruence.
Qed.

Lemma set_kind_same n k : kind n = k -> set_kind k n = n.
Proof. intros <-. by destruct n. Qed.

(** [to_nnf] with this fuel computes [nnf] in place. *)
Definition nnf_holds (fuel : nat) : Prop := forall b a r t f t', condition t = true -> repr a r t f ->
  (depth t < fuel)%nat -> nnf b t = Some t' ->
  exists a' f', to_nnf fuel b r a = (Ok 0, a') /\ rewritten a a' r f t' f'.

Lemma nnf_leaf fuel b a r n t' : node_at r a = Some n -> child0_ n = O -> child1_ n = O ->
  condition (Leaf (payload n)) = true -> nnf b (Leaf (payload n)) = Some t' ->
  exists a' f', to_nnf (S fuel) b r a = (Ok 0, a') /\ rewritten a a' r [] t' f'.
Proof.
  intros Hn E0 E1 Hc Ht'. simpl in Hc, Ht' |- *. unfold bind at 1. rewrite (node_run r a n Hn).
  assert (children_size n = O) as Hcs by (unfold children_size; by rewrite E0, E1).
  rewrite Hcs. destruct (rgd.isRelationalKind (kind n)) eqn:Hr.
  - destruct b; simpl.
    + exists a, []. simplify_eq. split; [by destruct (kind n)|].
      assert (t' = Leaf (payload n)) as ->
        by (revert Hr Ht'; destruct (kind n); intros; by simplify_eq).
      by apply rewritten_same; constructor.
    + simplify_eq/=. exists (put_node r (set_kind (rgd.negate_cmp (kind n)) n) a), [].
      split; [|by apply leaf_rewritten].
      unfold bind. destruct (kind n) eqn:Ek; try done; by rewrite (update_run r _ a n Hn).
  - simpl in Hc. apply bool_decide_eq_true in Hc. rewrite Hc in Ht' |- *. simpl in *.
    destruct b; simplify_eq/=.
    + exists (put_node r (set_kind rgd.MemcmpN n) a), []. split; [|by apply leaf_rewritten].
      unfold bind. by rewrite (update_run r _ a n Hn).
    + exists a, []. split; [done|]. rewrite set_kind_same by done.
      by apply rewritten_same; constructor.
Qed.

Section step.
Context (fuel : nat) (IH : nnf_holds fuel) (b : bool) (a : Ast) (r : ref) (n : AstNode) (Hn : node_at r a = Some n).

Lemma nnf_not c t f t' : child0_ n = c -> c <> O -> child1_ n = O -> repr a (At c) t f ->
  (forall i, i ∈ c :: f -> r <> At i) -> condition (Un (payload n) t) = true ->
  (depth (Un (payload n) t) < S fuel)%nat -> nnf b (Un (payload n) t) = Some t' ->
  exists a' f', to_nnf (S fuel) b r a = (Ok 0, a') /\ rewritten a a' r (c :: f) t' f'.
Proof.
  intros E0 Hc0 E1 Ht Hdis Hc Hd Ht'. simpl in Hc, Hd, Ht' |- *. unfold bind at 1. rewrite (node_run r a n Hn).
  apply andb_true_iff in Hc as [Hk Hc]. apply bool_decide_eq_true in Hk.
  rewrite Hk in Ht' |- *. simpl.
  assert (children_size n = 1%nat) as ->.
  { unfold children_size. rewrite E0, E1. by apply Nat.eqb_neq in Hc0 as ->. }
  destruct (IH (negb b) a (At c) t f t' Hc Ht ltac:(lia) Ht') as (a1 & f1 & R1 & [Hr1 Hs1 Hl1 Hf1]).
  assert (node_at r a1 = Some n) as Hn1.
  { rewrite Hf1; [done|apply Hdis; by left|]. intros i Hi. apply Hdis. by right. }
  destruct (repr_node _ _ _ _ Hr1) as (m & Hm & _).
  assert (exists a' f', copy_from r (At c) a1 = (Ok tt, a') /\ rewritten a a' r (c :: f) t' f')
    as (a' & f' & R' & Hrw).
  { exists (put_node r m a1), f1. split; [by eapply copy_from_run|]. split.
    - eapply repr_move; try done. intros i Hi. apply elem_of_cons in Hi as [->|Hi].
      + apply Hdis. by left.
      + apply Hdis. right. auto.
    - intros i Hi. right. auto.
    - by rewrite put_node_length.
    - intros r' Hr' Hi. rewrite node_at_put by congruence. apply Hf1.
      + apply Hi. by left.
      + intros i Hi'. apply Hi. by right. }
  exists a', f'. split; [|done].
  destruct (repr_node _ _ _ _ Ht) as (mt & Hmt & _). simpl in Hmt. rewrite <- E0 in Hmt.
  destruct b; simpl; unfold bind at 1; rewrite (children0_run r a n mt Hn Hmt), E0; simpl in R1;
    unfold bind at 1; rewrite R1; simpl; unfold bind; by rewrite R'.
Qed.

(** The kind of a connective and its arms. *)
Lemma nnf_arms t1 t2 t' : kind n = rgd.LAnd \/ kind n = rgd.LOr -> nnf b (Bin (payload n) t1 t2) = Some t' ->
  exists t1' t2', nnf b t1 = Some t1' /\ nnf b t2 = Some t2' /\
    t' = Bin (set_kind (if b then kind n else match kind n with rgd.LAnd => rgd.LOr | _ => rgd.LAnd end) (payload n)) t1' t2'.
Proof.
  intros Hk Ht'. simpl in Ht'. destruct Hk as [Hk|Hk]; rewrite Hk in *; destruct b; simpl in Ht';
    destruct (nnf _ t1) as [t1'|] eqn:N1; try done; simpl in Ht';
    destruct (nnf _ t2) as [t2'|] eqn:N2; try done; simpl in Ht'; simplify_eq; by do 2 eexists.
Qed.

Lemma nnf_bin c1 c2 t1 t2 f1 f2 t' : child0_ n = c1 -> c1 <> O -> child1_ n = c2 -> c2 <> O ->
  repr a (At c1) t1 f1 -> repr a (At c2) t2 f2 -> NoDup (c1 :: f1 ++ c2 :: f2) ->
  (forall i, i ∈ c1 :: f1 ++ c2 :: f2 -> r <> At i) -> condition (Bin (payload n) t1 t2) = true ->
  (depth (Bin (payload n) t1 t2) < S fuel)%nat -> nnf b (Bin (payload n) t1 t2) = Some t' ->
  exists a' f', to_nnf (S fuel) b r a = (Ok 0, a') /\ rewritten a a' r (c1 :: f1 ++ c2 :: f2) t' f'.
Proof.
  intros E0 Hc1 E1 Hc2 Ht1 Ht2 Hnd Hdis Hc Hd Ht'. simpl in Hc, Hd |- *. unfold bind at 1. rewrite (node_run r a n Hn).
  rewrite !andb_true_iff, orb_true_iff, !bool_decide_eq_true in Hc.
  destruct Hc as [[Hk HC1] HC2].
  assert (children_size n = 2%nat) as ->.
  { unfold children_size. rewrite E0, E1. apply Nat.eqb_neq in Hc1 as ->.
    by apply Nat.eqb_neq in Hc2 as ->. }
  destruct (repr_node _ _ _ _ Ht1) as (m1 & Hm1 & _).
  destruct (nnf_arms t1 t2 t' Hk Ht') as (t1' & t2' & N1 & N2 & ->).
  remember (if b then kind n else match kind n with rgd.LAnd => rgd.LOr | _ => rgd.LAnd end) as k eqn:Ek.
  (* the node as it stands when its children are transformed *)
  set (nk := set_kind k n).
  assert (exists ak, ak = put_node r nk a /\ node_at r ak = Some nk /\
    forall i, i ∈ c1 :: f1 ++ c2 :: f2 -> node_at (At i) ak = node_at (At i) a)
    as (ak & Eak & Hnk & Hfk).
  { eexists. split; [done|]. split; [by eapply node_at_put_eq|].
    intros i Hi. apply node_at_put. by apply Hdis. }
  assert (b = true -> ak = a) as Hak.
  { intros ->. subst ak nk k. rewrite (set_kind_same n) by done. destruct r as [|j]; simpl in *.
    - destruct a. simpl in *. by simplify_eq.
    - rewrite list_insert_id by done. by destruct a. }
  assert (forall c t g, (forall i, i ∈ c :: g -> i ∈ c1 :: f1 ++ c2 :: f2) ->
    repr a (At c) t g -> repr ak (At c) t g) as Hsub.
  { intros c t g Hg Hrep. eapply repr_frame; [exact Hrep|apply Hfk, Hg; by left|].
    intros i Hi. apply Hfk, Hg. by right. }
  destruct (two_children (to_nnf fuel b (At c1)) (to_nnf fuel b (At c2)) ak r nk c1 c2 t1 t2 f1 f2
              t1' t2') as (a1 & a2 & g & R1 & Hn1 & (m2 & Hm2) & R2 & [Hrep Hs Hl Hf]); try done.
  { apply Hsub; [|done]. intros i Hi. apply elem_of_cons in Hi as [->|Hi]; [by left|].
    right. apply elem_of_app. by left. }
  { apply Hsub; [|done]. intros i Hi. right. apply elem_of_app. by right. }
  { intros b' Hb'. apply (IH b b' (At c1) t1 f1 t1' HC1 Hb' ltac:(lia) N1). }
  { intros b' Hb'. apply (IH b b' (At c2) t2 f2 t2' HC2 Hb' ltac:(lia) N2). }
  exists a2, g. split.
  - assert (children r 0 ak = (Ok (At c1), ak)) as Rc1.
    { replace c1 with (child0_ nk) by done. eapply (children0_run r ak nk m1); [done|].
      change (child0_ nk) with (child0_ n). rewrite E0.
      assert (node_at (At c1) ak = Some m1) as Hm by (rewrite Hfk by (by left); done).
      exact Hm. }
    assert (children r 1 a1 = (Ok (At c2), a1)) as Rc2.
    { replace c2 with (child1_ nk) by done. eapply (children1_run r a1 nk m2); [done|].
      change (child1_ nk) with (child1_ n). by rewrite E1. }
    destruct b; simpl.
    + rewrite Hak in * by done. destruct Hk as [Hk|Hk]; rewrite Hk; unfold bind;
        rewrite Rc1, R1; simpl; by rewrite Rc2, R2.
    + destruct Hk as [Hk|Hk]; rewrite Hk in *; simpl; unfold bind;
        rewrite (update_run r _ a n Hn); subst k; fold nk; rewrite <- Eak, Rc1, R1; simpl;
        by rewrite Rc2, R2.
  - split; [done|done|by rewrite Hl, Eak, put_node_length|].
    intros r' Hr' Hi. rewrite Hf by done. rewrite Eak. apply node_at_put. congruence.
Qed.

End step.

Lemma to_nnf_spec fuel : nnf_holds fuel.
Proof.
  induction fuel as [|fuel IH]; intros b a r t f t' Hc Hr Hd Ht'; [lia|].
  destruct Hr as [r n Hn E0 E1|r n c t f Hn E0 Hc0 E1 Ht Hnd Hdis
    |r n c1 c2 t1 t2 f1 f2 Hn E0 Hc1 E1 Hc2 Ht1 Ht2 Hnd Hdis].
  - by apply (nnf_leaf fuel b a r n).
  - by apply (nnf_not fuel IH b a r n Hn c t f).
  - by apply (nnf_bin fuel IH b a r n Hn c1 c2 t1 t2 f1 f2).
Qed.

(** ** Clauses *)

Fixpoint dnf (t : tree) : list (list AstNode) :=
  match t with
  | Bin n t1 t2 =>
      if bool_decide (kind n = rgd.LAnd)
      then dnf t1 ≫= (fun s1 => (fun s2 => s1 ++ s2) <$> dnf t2)
      else dnf t1 ++ dnf t2
  | _ => [[tree_node t]]
  end.

(** Some clause holds. *)
Definition some_clause (v : valuation) (f : list (list AstNode)) : bool :=
  existsb (forallb (sem_leaf v)) f.

Lemma some_clause_app v f g : some_clause v (f ++ g) = some_clause v f || some_clause v g.
Proof. apply existsb_app. Qed.

Lemma some_clause_product v f g :
  some_clause v (f ≫= (fun s1 => (fun s2 => s1 ++ s2) <$> g)) =
  some_clause v f && some_clause v g.
Proof.
  induction f as [|s f IH]; [done|].
  change ((s :: f) ≫= (fun s1 => (fun s2 => s1 ++ s2) <$> g)) with
    (((fun s2 => s ++ s2) <$> g) ++ (f ≫= (fun s1 => (fun s2 => s1 ++ s2) <$> g))).
  rewrite some_clause_app, IH. clear IH.
  assert (some_clause v ((fun s2 => s ++ s2) <$> g) = forallb (sem_leaf v) s && some_clause v g)
    as ->.
  { induction g as [|s2 g IH]; [by rewrite andb_false_r|].
    rewrite fmap_cons. unfold some_clause in *. cbn [existsb]. rewrite IH, forallb_app.
    by destruct (forallb (sem_leaf v) s), (forallb (sem_leaf v) s2). }
  simpl. fold (some_clause v f).
  by destruct (forallb (sem_leaf v) s), (some_clause v g), (some_clause v f).
Qed.

Lemma dnf_correct v t : goal_form t = true -> some_clause v (dnf t) = sem_goal v t.
Proof.
  induction t as [n|n t IH|n t1 IH1 t2 IH2]; simpl; try done.
  - intros _. unfold some_clause. simpl. by rewrite orb_false_r, andb_true_r.
  - rewrite !andb_true_iff. intros [[Hk H1] H2]. case_bool_decide.
    + by rewrite some_clause_product, IH1, IH2.
    + by rewrite some_clause_app, IH1, IH2.
Qed.

Lemma dnf_nonempty t : dnf t <> [].
Proof.
  induction t as [n|n t IH|n t1 IH1 t2 IH2]; simpl; try done. case_bool_decide.
  - destruct (dnf t1) as [|s1 f1], (dnf t2) as [|s2 f2]; done.
  - by destruct (dnf t1).
Qed.

(** A pointer names a node with these fields. *)
Definition points (a : Ast) (r : ref) (n : AstNode) : Prop :=
  exists m, node_at r a = Some m /\ payload m = n.

Lemma product_points a (l1 l2 : formula_t) f1 f2 :
  Forall2 (Forall2 (points a)) l1 f1 -> Forall2 (Forall2 (points a)) l2 f2 ->
  Forall2 (Forall2 (points a)) (l1 ≫= (fun s1 => (fun s2 => s1 ++ s2) <$> l2))
    (f1 ≫= (fun s1 => (fun s2 => s1 ++ s2) <$> f2)).
Proof.
  intros H1 H2. apply Forall2_bind. eapply Forall2_impl; [exact H1|]. intros s1 s1' Hs.
  apply Forall2_fmap_2. eapply Forall2_impl; [exact H2|]. intros s2 s2' Hs2.
  by apply Forall2_app.
Qed.

Lemma to_dnf_spec fuel : forall a r t f fm, goal_form t = true -> repr a r t f ->
  (depth t < fuel)%nat ->
  exists cl, to_dnf fuel r fm a = (Ok (fm ++ cl), a) /\
    Forall2 (Forall2 (points a)) cl (dnf t).
Proof.
  induction fuel as [|fuel IH]; intros a r t f fm Hg Hr Hd; [lia|].
  destruct Hr as [r n Hn E0 E1|r n c t f Hn E0 Hc0 E1 Ht Hnd Hdis
    |r n c1 c2 t1 t2 f1 f2 Hn E0 Hc1 E1 Hc2 Ht1 Ht2 Hnd Hdis];
    simpl in Hg, Hd |- *; unfold bind at 1; rewrite (node_run r a n Hn); [|done|].
  - exists [[r]]. split; [|repeat constructor; by exists n].
    by destruct (kind n).
  - rewrite !andb_true_iff, orb_true_iff, !bool_decide_eq_true in Hg.
    destruct Hg as [[Hk Hg1] Hg2].
    destruct (repr_node _ _ _ _ Ht1) as (m1 & Hm1 & _), (repr_node _ _ _ _ Ht2) as (m2 & Hm2 & _).
    simpl in Hm1, Hm2. rewrite <- E0 in Hm1. rewrite <- E1 in Hm2.
    pose proof (children0_run r a n m1 Hn Hm1) as R1.
    pose proof (children1_run r a n m2 Hn Hm2) as R2. rewrite E0 in R1. rewrite E1 in R2.
    destruct Hk as [Hk|Hk]; rewrite Hk.
    + destruct (IH a (At c1) t1 f1 [] Hg1 Ht1 ltac:(lia)) as (l1 & D1 & P1).
      destruct (IH a (At c2) t2 f2 [] Hg2 Ht2 ltac:(lia)) as (l2 & D2 & P2).
      simpl in D1, D2. unfold bind. rewrite R1, D1, R2, D2.
      rewrite bool_decide_eq_true_2 by done.
      assert (length l1 <> O) as Hl1.
      { pose proof (dnf_nonempty t1). intros ->%nil_length_inv. by inversion P1; subst. }
      apply Nat.eqb_neq in Hl1 as ->. eexists. split; [done|]. by apply product_points.
    + destruct (IH a (At c1) t1 f1 fm Hg1 Ht1 ltac:(lia)) as (l1 & D1 & P1).
      destruct (IH a (At c2) t2 f2 (fm ++ l1) Hg2 Ht2 ltac:(lia)) as (l2 & D2 & P2).
      unfold bind. rewrite R1, D1, R2, D2. rewrite bool_decide_eq_false_2 by done.
      exists (l1 ++ l2). rewrite (assoc_L (++)). split; [done|]. by apply Forall2_app.
Qed.

(** A clause, read through its pointers. *)
Fixpoint clause_nodes (a : Ast) (c : clause_t) : list AstNode :=
  match c with
  | [] => []
  | r :: c' => match node_at r a with
               | Some n => n :: clause_nodes a c'
               | None => clause_nodes a c'
               end
  end.

Lemma sem_leaf_payload v n : sem_leaf v (payload n) = sem_leaf v n.
Proof. done. Qed.

Lemma points_clause v a (c : clause_t) ns : Forall2 (points a) c ns ->
  forallb (sem_leaf v) (clause_nodes a c) = forallb (sem_leaf v) ns.
Proof.
  induction 1 as [|r n c ns (m & Hm & <-) H IH]; [done|].
  simpl. rewrite Hm. simpl. by rewrite IH, sem_leaf_payload.
Qed.

Lemma points_formula v a (f : formula_t) ns : Forall2 (Forall2 (points a)) f ns ->
  some_clause v (clause_nodes a <$> f) = some_clause v ns.
Proof.
  induction 1 as [|c cn f ns H1 H IH]; [done|]. unfold some_clause in *.
  rewrite fmap_cons. simpl. by rewrite IH, (points_clause v a c cn H1).
Qed.

(** C11: the clauses the parser derives from a condition to reach [direction]
    say exactly that: on every valuation of the comparisons some clause holds if
    and only if the condition evaluates to [direction]. The transformation
    never fails on a condition built from comparisons, [memcmp] and the logical
    connectives that fits the 32 nodes of a root expression. *)
Theorem cond_clauses_correct direction expr t f : repr expr Root t f ->
  condition t = true -> (tree_size t <= 33)%nat ->
  exists root clauses, cond_clauses direction expr = Ok (Some (root, clauses)) /\
    forall v, some_clause v (clause_nodes root <$> clauses) =
              Bool.eqb (sem_cond v t) direction.
Proof.
  intros Hr Hc Hs. unfold cond_clauses.
  destruct (clone_spec 32 expr Root t f Hr Hs) as (a & g & -> & Ha & _).
  destruct (nnf_correct (mk_val (fun _ => (0, 0, 0)) (fun _ => true)) t Hc direction)
    as (t' & Hn & Hg & _ & Hs' & Hd').
  assert (depth t < S (length (a_vec a)))%nat as Hfuel.
  { pose proof (repr_size _ _ _ _ Ha). lia. }
  destruct (to_nnf_spec (S (length (a_vec a))) direction a Root t g t' Hc Ha Hfuel Hn)
    as (a' & g' & -> & [Hrep _ _ _]). rewrite Z.eqb_refl. cbn [negb].
  destruct (to_dnf_spec (S (length (a_vec a))) a' Root t' g' [] Hg Hrep ltac:(lia))
    as (cl & -> & Hcl).
  exists a', cl. split; [done|]. intros v.
  rewrite (points_formula v a' cl (dnf t')), dnf_correct by done.
  destruct (nnf_correct v t Hc direction) as (t'' & Hn'' & _ & Hsem & _).
  by simplify_eq.
Qed.

(** [(l1 < l2) && !(l3 == l4 || memcmp)] as the parser builds it. *)
Definition example_expr : Ast :=
  let leaf k l := set_label l (set_kind k fresh_node) in
  mk_ast (set_children 1 2 (set_kind rgd.LAnd fresh_node))
    [fresh_node; leaf rgd.Ult 3; set_children 3 0 (set_kind rgd.LNot fresh_node);
     set_children 4 5 (set_kind rgd.LOr fresh_node); leaf rgd.Equal 4; leaf rgd.Memcmp 5] 33.

Definition example_tree : tree :=
  let leaf k l := Leaf (set_label l (set_kind k fresh_node)) in
  Bin (set_kind rgd.LAnd fresh_node) (leaf rgd.Ult 3)
    (Un (set_kind rgd.LNot fresh_node)
       (Bin (set_kind rgd.LOr fresh_node) (leaf rgd.Equal 4) (leaf rgd.Memcmp 5))).

Lemma example_repr : repr example_expr Root example_tree [1; 2; 3; 4; 5]%nat.
Proof.
  assert (forall l : list nat, bool_decide (NoDup l) = true -> NoDup l) as Hnd
    by (intros l; apply bool_decide_eq_true).
  apply (repr_bin example_expr Root (set_children 1 2 (set_kind rgd.LAnd fresh_node))
           1 2 _ _ [] [3; 4; 5]%nat); try done.
  - by apply (repr_leaf example_expr (At 1) (set_label 3 (set_kind rgd.Ult fresh_node))).
  - apply (repr_un example_expr (At 2) (set_children 3 0 (set_kind rgd.LNot fresh_node))
             3 _ [4; 5]%nat); try done.
    + apply (repr_bin example_expr (At 3) (set_children 4 5 (set_kind rgd.LOr fresh_node))
               4 5 _ _ [] []); try done.
      * by apply (repr_leaf example_expr (At 4) (set_label 4 (set_kind rgd.Equal fresh_node))).
      * by apply (repr_leaf example_expr (At 5) (set_label 5 (set_kind rgd.Memcmp fresh_node))).
      * by apply Hnd.
      * intros i Hi [= <-]. set_solver.
    + by apply Hnd.
    + intros i Hi [= <-]. set_solver.
  - by apply Hnd.
Qed.

Lemma cond_clauses_correct_witness : exists root clauses,
  cond_clauses false example_expr = Ok (Some (root, clauses)) /\
  forall v, some_clause v (clause_nodes root <$> clauses) =
            Bool.eqb (sem_cond v example_tree) false.
Proof.
  apply (cond_clauses_correct false example_expr example_tree [1; 2; 3; 4; 5]%nat);
    [exact example_repr|reflexivity|simpl; lia].
Defined.
