(* ===== verification/Task.v ===== *)
(** * Search tasks: [include/task.h], [include/cov.h], [include/task_mgr.h]

    A task is a conjunction of constraints. [finalize] gives every input byte of
    any of them one slot of a shared input array and tells each constraint where
    its bytes are. *)

From S2P Require Import Prelude Ast.
Local Open Scope prog_scope.

(** ** [std::map]

    Iteration is in key order, so the map is a list sorted by key. *)

Definition smap (V : Type) : Type := list (Z * V).

Fixpoint sm_find {V} (k : Z) (m : smap V) : option V :=
  match m with
  | [] => None
  | (k', v) :: m' => if k =? k' then Some v else sm_find k m'
  end.

(** [m[k] = v] *)
Fixpoint sm_set {V} (k : Z) (v : V) (m : smap V) : smap V :=
  match m with
  | [] => [(k, v)]
  | (k', v') :: m' =>
      if k =? k' then (k, v) :: m'
      else if k <? k' then (k, v) :: (k', v') :: m'
      else (k', v') :: sm_set k v m'
  end.

(** ** Constraints *)

Record Constraint := mk_cons {
  ast : Ast;
  local_map : smap Z;                 (* offset -> index in the input array *)
  input_args : list (bool * Z);
  inputs : gmap Z Z;                  (* offset -> initial value *)
  shapes : gmap Z Z;
  atoi_info : gmap Z (Z * Z * Z);     (* offset -> result length, base, length *)
  ops : gset Z;                       (* kinds that occur *)
  const_num : Z;
  op1 : option Z;                     (* not set by the constructor *)
  op2 : option Z
}.

Definition new_constraint (ast_size : Z) : Constraint :=
  mk_cons (new_ast (Z.to_nat ast_size)) [] [] ∅ ∅ ∅ ∅ 0 None None.

Record ConsMeta := mk_meta {
  m_input_args : list (bool * Z);
  comparison : rgd.AstKind;
  i2s_candidates : list (Z * Z)       (* first offset, number of bytes *)
}.

(** ** Tasks *)

Record SearchTask := mk_task {
  constraints_ : list Constraint;
  comparisons_ : list rgd.AstKind;
  consmetas_ : list ConsMeta;
  inputs_ : list (Z * Z);             (* offset, value *)
  shapes_ : gmap Z Z;
  atoi_info_ : gmap Z (Z * Z * Z);
  max_const_num_ : Z;
  cmap_ : gmap Z (list nat);
  scratch_args : option nat;          (* slots allocated; None before that *)
  stopped : bool;
  attempts : Z;
  solved : bool;
  solution : gmap Z Z;
  base_task : option Z;               (* id of the task it extends *)
  skip_next : bool
}.

Definition new_task : SearchTask :=
  mk_task [] [] [] [] ∅ ∅ 0 ∅ None false 0 false ∅ None false.

Definition has_finalized (t : SearchTask) : bool := bool_decide (is_Some (scratch_args t)).

Definition task_empty (t : SearchTask) : bool := (length (constraints_ t) =? 0)%nat.

Definition add_constraint (c : Constraint) (k : rgd.AstKind) (t : SearchTask)
    : res SearchTask :=
  if has_finalized t then Err RuntimeError
  else Ok (mk_task (constraints_ t ++ [c]) (comparisons_ t ++ [k]) (consmetas_ t)
             (inputs_ t) (shapes_ t) (atoi_info_ t) (max_const_num_ t) (cmap_ t)
             (scratch_args t) (stopped t) (attempts t) (solved t) (solution t)
             (base_task t) (skip_next t)).

(** Accessors that throw. *)
Definition task_shapes (offset : Z) (t : SearchTask) : res Z :=
  match shapes_ t !! offset with Some s => Ok s | None => Err RuntimeError end.

Definition task_cmap (index : Z) (t : SearchTask) : res (list nat) :=
  if Z.of_nat (length (inputs_ t)) <=? index then Err OutOfRange
  else match cmap_ t !! index with Some l => Ok l | None => Err RuntimeError end.

(** ** [finalize] *)

(** What the loops of [finalize] update. *)
Record fin := mk_fin {
  sym_map : gmap Z Z;
  f_inputs : list (Z * Z);
  f_shapes : gmap Z Z;
  f_cmap : gmap Z (list nat);
  (* of the constraint at hand *)
  f_args : list (bool * Z);
  f_cands : list (Z * Z);
  last_offset : Z;
  run_size : Z
}.

(** Find the slot of an input byte, or give it the next one. *)
Definition fin_slot (c : Constraint) (offset : Z) (s : fin) : res (Z * fin) :=
  match sym_map s !! u32 offset with
  | Some gidx => Ok (gidx, s)
  | None =>
      let gidx := u32 (Z.of_nat (length (f_inputs s))) in
      let? v := at_ (inputs c !! u32 offset) in
      let? sh := at_ (shapes c !! u32 offset) in
      Ok (gidx, mk_fin (<[u32 offset := gidx]> (sym_map s)) (f_inputs s ++ [(u32 offset, v)])
                  (<[u32 offset := sh]> (f_shapes s)) (f_cmap s) (f_args s) (f_cands s)
                  (last_offset s) (run_size s))
  end.

(** "record input to constraint mapping", not for [memcmp]. *)
Definition fin_record (i : nat) (k : rgd.AstKind) (gidx : Z) (s : fin) : fin :=
  if bool_decide (k <> rgd.Memcmp) && bool_decide (k <> rgd.MemcmpN) then
    mk_fin (sym_map s) (f_inputs s) (f_shapes s)
      (<[gidx := default [] (f_cmap s !! gidx) ++ [i]]> (f_cmap s)) (f_args s)
      (f_cands s) (last_offset s) (run_size s)
  else s.

(** [cm->input_args[lidx].second = gidx] *)
Definition fin_arg (lidx gidx : Z) (s : fin) : res fin :=
  let? a := idx (f_args s !! Z.to_nat lidx) in
  Ok (mk_fin (sym_map s) (f_inputs s) (f_shapes s) (f_cmap s)
        (<[Z.to_nat lidx := (fst a, gidx)]> (f_args s)) (f_cands s)
        (last_offset s) (run_size s)).

(** "check if the input bytes are consecutive" *)
Definition fin_run (offset : Z) (s : fin) : fin :=
  let '(cands, size) :=
    if negb (last_offset s =? 2 ^ 32 - 1) && negb (u32 (last_offset s + 1) =? offset)
    then (f_cands s ++ [(u32 (u32 (last_offset s + 1) - run_size s), run_size s)], 0)
    else (f_cands s, run_size s) in
  mk_fin (sym_map s) (f_inputs s) (f_shapes s) (f_cmap s) (f_args s) cands
    (u32 offset) (u32 (size + 1)).

Fixpoint fin_offsets (i : nat) (k : rgd.AstKind) (c : Constraint) (l : smap Z) (s : fin)
    : res fin :=
  match l with
  | [] => Ok s
  | (offset, lidx) :: l' =>
      let? (gidx, s) := fin_slot c offset s in
      let s := fin_record i k gidx s in
      let? s := fin_arg lidx gidx s in
      fin_offsets i k c l' (fin_run offset s)
  end.

(** "process atoi": an entry for the same offset has to agree. *)
Fixpoint fin_atoi (l : list (Z * (Z * Z * Z))) (m : gmap Z (Z * Z * Z))
    : res (gmap Z (Z * Z * Z)) :=
  match l with
  | [] => Ok m
  | (offset, info) :: l' =>
      match m !! offset with
      | Some info' =>
          if bool_decide (info = info') then fin_atoi l' (<[offset := info]> m)
          else Err AssertFailure
      | None => fin_atoi l' (<[offset := info]> m)
      end
  end.

(** The loop over the constraints, from number [i] on. *)
Fixpoint fin_constraints (i : nat) (cs : list (Constraint * rgd.AstKind)) (s : fin)
    (atoi : gmap Z (Z * Z * Z)) (maxc : Z) (metas : list ConsMeta)
    : res (fin * gmap Z (Z * Z * Z) * Z * list ConsMeta) :=
  match cs with
  | [] => Ok (s, atoi, maxc, metas)
  | (c, k) :: cs' =>
      let s0 := mk_fin (sym_map s) (f_inputs s) (f_shapes s) (f_cmap s)
                  (input_args c) [] (2 ^ 32 - 1) 0 in
      let? s := fin_offsets i k c (local_map c) s0 in
      (* save the last set of consecutive input bytes *)
      let cands := f_cands s ++ [(u32 (u32 (last_offset s + 1) - run_size s), run_size s)] in
      let? atoi := fin_atoi (map_to_list (atoi_info c)) atoi in
      let maxc := if maxc <? const_num c then const_num c else maxc in
      fin_constraints (S i) cs' s atoi maxc (metas ++ [mk_meta (f_args s) k cands])
  end.

(** "fill the gap in cmap_" *)
Fixpoint fill_cmap (i : nat) (k : nat) (m : gmap Z (list nat)) : gmap Z (list nat) :=
  match k with
  | O => m
  | S k' => fill_cmap (S i) k'
              (match m !! Z.of_nat i with Some _ => m | None => <[Z.of_nat i := []]> m end)
  end.

Definition finalize (t : SearchTask) : res SearchTask :=
  let s0 := mk_fin ∅ (inputs_ t) (shapes_ t) (cmap_ t) [] [] 0 0 in
  let? (s, atoi, maxc, metas) :=
    fin_constraints 0 (zip (constraints_ t) (comparisons_ t)) s0 (atoi_info_ t)
      (max_const_num_ t) (consmetas_ t) in
  Ok (mk_task (constraints_ t) (comparisons_ t) metas (f_inputs s) (f_shapes s) atoi maxc
        (fill_cmap 0 (length (f_inputs s)) (f_cmap s))
        (Some (2 + length (f_inputs s) + Z.to_nat maxc + 1)%nat)
        (stopped t) (attempts t) (solved t) (solution t) (base_task t) (skip_next t)).

(** [load_hint], given the base task as it is now. *)
Definition load_hint (base : option SearchTask) (t : SearchTask) : SearchTask :=
  match base with
  | Some b =>
      if solved b then
        mk_task (constraints_ t) (comparisons_ t) (consmetas_ t)
          ((fun p => (fst p, default (snd p) (solution b !! fst p))) <$> inputs_ t)
          (shapes_ t) (atoi_info_ t) (max_const_num_ t) (cmap_ t) (scratch_args t)
          (stopped t) (attempts t) (solved t) (solution t) (base_task t) (skip_next t)
      else t
  | None => t
  end.

(** ** Coverage and the task queue *)

Record BranchContext := mk_ctx { addr : Z; direction : bool }.

(** [EdgeCovManager]: [_ctx] is one object, overwritten by every call. *)
Record EdgeCovManager := mk_cov {
  branches : gmap Z (bool * bool);
  ctx : BranchContext
}.

Definition add_branch (a : Z) (d : bool) (m : EdgeCovManager) : BranchContext * EdgeCovManager :=
  let '(t, f) := default (false, false) (branches m !! a) in
  let m' := mk_cov (<[a := (t || d, f || negb d)]> (branches m)) (mk_ctx a d) in
  (ctx m', m').

(** The iterator is dereferenced without a check. *)
Definition is_branch_interesting (c : BranchContext) (m : EdgeCovManager) : res bool :=
  let? (t, f) := idx (branches m !! addr c) in
  Ok (if direction c then negb t else negb f).

(** [FIFOTaskManager]: the deque, front first. *)
Definition add_task {A} (task : A) (q : list A) : bool * list A := (true, q ++ [task]).
Definition get_next_task {A} (q : list A) : option A * list A :=
  match q with [] => (None, []) | t :: q' => (Some t, q') end.
Definition get_num_tasks {A} (q : list A) : nat := length q.
