(* ===== verification/TaskSpec.v ===== *)
(** * Correctness of [SearchTask::finalize]

    Every input byte gets one slot, every constraint reads its bytes from the
    right slots, [cmap_] lists for every slot the constraints that read it, and
    the candidates for input-to-state matching are the maximal runs of
    consecutive bytes. *)

From Stdlib Require Import Sorted.
From stdpp Require Import list_numbers.
From S2P Require Import Prelude Ast Task.
Local Open Scope prog_scope.

(** ** Runs of consecutive offsets *)

(** The offsets a list of runs covers. *)
Definition expand (rs : list (Z * Z)) : list Z :=
  rs ≫= (fun r => seqZ (fst r) (snd r)).

(** Runs are not empty and do not touch. *)
Fixpoint maximal (rs : list (Z * Z)) : Prop :=
  match rs with
  | [] => True
  | r :: rs' =>
      0 < snd r /\
      match rs' with [] => True | r' :: _ => fst r + snd r < fst r' end /\ maximal rs'
  end.

Lemma maximal_snoc rs r : maximal rs -> 0 < snd r ->
  (forall r', last rs = Some r' -> fst r' + snd r' < fst r) -> maximal (rs ++ [r]).
Proof.
  induction rs as [|r0 rs IH]; intros Hm Hr Hl; simpl; [done|].
  destruct Hm as (H1 & H2 & H3). split; [done|].
  destruct rs as [|r1 rs]; simpl in *.
  - split; [|done]. by apply Hl.
  - split; [done|]. apply IH; auto.
Qed.

Lemma expand_snoc rs r : expand (rs ++ [r]) = expand rs ++ seqZ (fst r) (snd r).
Proof. unfold expand. rewrite bind_app. simpl. by rewrite app_nil_r. Qed.

(** The part of the loop that looks for runs, on its own. *)
Definition run_step (offset : Z) (st : list (Z * Z) * Z * Z) : list (Z * Z) * Z * Z :=
  let '(cands, last, size) := st in
  let '(cands, size) :=
    if negb (last =? 2 ^ 32 - 1) && negb (u32 (last + 1) =? offset)
    then (cands ++ [(u32 (u32 (last + 1) - size), size)], 0)
    else (cands, size) in
  (cands, u32 offset, u32 (size + 1)).

Definition run_fold (offsets : list Z) (st : list (Z * Z) * Z * Z) :=
  fold_left (fun st o => run_step o st) offsets st.

Definition run_result (offsets : list Z) : list (Z * Z) :=
  let '(cands, last, size) := run_fold offsets ([], 2 ^ 32 - 1, 0) in
  cands ++ [(u32 (u32 (last + 1) - size), size)].

(** Keys of a [std::map], below the sentinel. *)
Definition offsets_ok (l : list Z) : Prop :=
  StronglySorted Z.lt l /\ Forall (fun o => 0 <= o < 2 ^ 32 - 1) l.

(** The loop after a non-empty prefix [done] of the offsets. *)
Record run_inv (seen : list Z) (st : list (Z * Z) * Z * Z) : Prop := {
  ri_last : last seen = Some (snd (fst st));
  ri_size : 0 < snd st <= snd (fst st) + 1;
  ri_expand : expand (fst (fst st) ++ [(snd (fst st) + 1 - snd st, snd st)]) = seen;
  ri_maximal : maximal (fst (fst st) ++ [(snd (fst st) + 1 - snd st, snd st)])
}.

Lemma seqZ_snoc o n : 0 <= n -> seqZ o (n + 1) = seqZ o n ++ [o + n].
Proof. intros. rewrite seqZ_app by lia. done. Qed.

Lemma last_lt l x o : StronglySorted Z.lt (l ++ [o]) -> last l = Some x -> x < o.
Proof.
  intros Hs Hl. apply last_Some in Hl as [l' ->].
  rewrite <- app_assoc in Hs. clear -Hs.
  induction l' as [|y l' IH]; simpl in Hs; inversion Hs as [|? ? Hs' Hf]; subst; [|auto].
  by inversion Hf.
Qed.

Lemma run_inv_step seen st o : run_inv seen st -> StronglySorted Z.lt (seen ++ [o]) ->
  0 <= snd (fst st) -> o < 2 ^ 32 - 1 -> run_inv (seen ++ [o]) (run_step o st).
Proof.
  destruct st as [[cands last] size]. intros [Hl Hsz He Hm] Hs H0 Ho. simpl in *.
  pose proof (last_lt _ _ _ Hs Hl) as Hlt.
  replace (last =? 2 ^ 32 - 1) with false by lia. simpl.
  rewrite (wrap_small 32 (last + 1)), (wrap_small 32 o) by (unfold is_u; lia).
  destruct (Z.eqb_spec (last + 1) o) as [Eo|Eo]; simpl.
  - rewrite (wrap_small 32) by (unfold is_u; lia). split; simpl.
    + by rewrite last_snoc.
    + lia.
    + subst seen o. rewrite !expand_snoc. simpl. rewrite <- app_assoc. f_equal.
      replace (last + 1 + 1 - (size + 1)) with (last + 1 - size) by lia.
      rewrite seqZ_snoc by lia. f_equal. f_equal. lia.
    + replace (last + 1 + 1 - (size + 1)) with (last + 1 - size) by lia.
      subst o. clear -Hm Hsz. revert Hm. induction cands as [|r cands IH]; simpl; [lia|].
      intros (? & H2 & H3). split; [done|]. split; [|auto]. destruct cands; simpl in *; lia.
  - rewrite (wrap_small 32 (last + 1 - size)) by (unfold is_u; lia).
    change (u32 (0 + 1)) with 1. split; simpl; replace (o + 1 - 1) with o by lia.
    + by rewrite last_snoc.
    + lia.
    + by rewrite expand_snoc, He.
    + apply maximal_snoc; [done|simpl; lia|]. intros r'. rewrite last_snoc.
      intros [= <-]. simpl. lia.
Qed.

(** The candidates are the maximal runs of the offsets. *)
Lemma run_result_spec l : offsets_ok l -> l <> [] ->
  expand (run_result l) = l /\ maximal (run_result l).
Proof.
  intros [Hs Hf] Hne. unfold run_result.
  assert (forall pre suf st, l = pre ++ suf -> run_inv pre st ->
    run_inv l (run_fold suf st) /\ 0 <= snd (fst (run_fold suf st)) < 2 ^ 32 - 1) as Hrun.
  { intros pre suf. revert pre. induction suf as [|o suf IH]; intros pre st -> Hi; simpl.
    - rewrite app_nil_r. split; [done|]. destruct Hi as [Hl _ _ _].
      rewrite app_nil_r in Hf. apply last_Some_elem_of in Hl.
      rewrite Forall_forall in Hf. by apply Hf.
    - assert (StronglySorted Z.lt (pre ++ [o])) as Hs'.
      { replace (pre ++ o :: suf) with ((pre ++ [o]) ++ suf) in Hs by by rewrite <- app_assoc.
        clear -Hs. induction (pre ++ [o]) as [|y l IH]; [constructor|].
        inversion Hs as [|? ? Hs' Hf']; subst. constructor; [auto|].
        by apply Forall_app in Hf' as [? _]. }
      apply (IH (pre ++ [o])); [by rewrite <- app_assoc|].
      assert (Forall (fun o => 0 <= o < 2 ^ 32 - 1) (pre ++ o :: suf)) as Hf' by done.
      rewrite Forall_app in Hf'. destruct Hf' as [Hp Hq]. inversion Hq; subst.
      apply run_inv_step; [done|done| |lia].
      destruct Hi as [Hl _ _ _]. apply last_Some_elem_of in Hl. rewrite Forall_forall in Hp.
      apply Hp in Hl. lia. }
  destruct l as [|o l]; [done|]. inversion Hf as [|? ? Ho _]; subst.
  assert (run_step o ([], 2 ^ 32 - 1, 0) = ([], o, 1)) as E.
  { unfold run_step. rewrite Z.eqb_refl. simpl. rewrite wrap_small by (unfold is_u; lia). done. }
  destruct (Hrun [o] l (run_step o ([], 2 ^ 32 - 1, 0)) eq_refl) as [[Hl Hsz He Hm] Hb].
  { rewrite E. split; simpl; [done|lia| |done]. replace (o + 1 - 1) with o by lia. done. }
  change (run_fold (o :: l) ([], 2 ^ 32 - 1, 0)) with
    (run_fold l (run_step o ([], 2 ^ 32 - 1, 0))).
  destruct (run_fold l (run_step o ([], 2 ^ 32 - 1, 0))) as [[cands lst] size]. simpl in *.
  rewrite (wrap_small 32 (lst + 1)), wrap_small by (unfold is_u; lia). done.
Qed.

(** ** Slots *)

Definition keys (m : smap Z) : list Z := fst <$> m.
Definition offs (s : fin) : list Z := fst <$> f_inputs s.

(** Slot [g] holds the byte at [off]. *)
Definition slot (s : fin) (g off : Z) : Prop := 0 <= g /\ offs s !! Z.to_nat g = Some off.

Section slots.
(** What is known of the value and the shape of a byte. *)
Context (P : Z -> Z -> Z -> Prop).

Record slots_inv (s : fin) : Prop := {
  si_nodup : NoDup (offs s);
  si_map : forall off g, sym_map s !! off = Some g <-> slot s g off;
  si_small : Z.of_nat (length (f_inputs s)) < 2 ^ 32;
  si_data : forall off v, (off, v) ∈ f_inputs s ->
    exists sh, f_shapes s !! off = Some sh /\ P off v sh
}.

(** [c] knows it of its bytes. *)
Definition provides (c : Constraint) (off : Z) : Prop :=
  forall v sh, inputs c !! off = Some v -> shapes c !! off = Some sh -> P off v sh.

Lemma slot_prefix s s' g off : offs s `prefix_of` offs s' -> slot s g off -> slot s' g off.
Proof. intros Hp [? ?]. split; [done|]. by eapply prefix_lookup_Some. Qed.

Lemma slot_fun s g g' off : slots_inv s -> slot s g off -> slot s g' off -> g = g'.
Proof.
  intros Hs H H'. apply (si_map _ Hs) in H, H'. congruence.
Qed.

Lemma slot_key s g off off' : slot s g off -> slot s g off' -> off = off'.
Proof. intros [_ H] [_ H']. congruence. Qed.

(** What stays when a slot is looked up or given out. *)
Definition same_rest (s s' : fin) : Prop :=
  f_cmap s' = f_cmap s /\ f_args s' = f_args s /\ f_cands s' = f_cands s /\
  last_offset s' = last_offset s /\ run_size s' = run_size s.

Lemma fin_slot_spec c off s : slots_inv s -> 0 <= off < 2 ^ 32 ->
  is_Some (inputs c !! off) -> is_Some (shapes c !! off) -> provides c off ->
  Z.of_nat (length (f_inputs s)) + 1 < 2 ^ 32 ->
  exists g s', fin_slot c off s = Ok (g, s') /\ slots_inv s' /\ slot s' g off /\
    offs s `prefix_of` offs s' /\ same_rest s s' /\
    (forall o, o ∈ offs s' <-> o ∈ offs s \/ o = off) /\
    (length (f_inputs s') <= length (f_inputs s) + 1)%nat.
Proof.
  intros Hi Hoff [v Hv] [sh Hsh] Hprov Hlen. unfold fin_slot.
  rewrite (wrap_small 32 off) by (unfold is_u; lia).
  destruct (sym_map s !! off) as [g|] eqn:E.
  { exists g, s. pose proof (proj1 (si_map _ Hi off g) E) as Hs. split_and!; try done; [|lia].
    intros o. split; [by left|]. intros [?| ->]; [done|].
    destruct Hs as [_ Hs]. by eapply list_elem_of_lookup_2. }
  rewrite Hv, Hsh. simpl.
  rewrite (wrap_small 32 (Z.of_nat _)) by (unfold is_u; lia).
  assert (off ∉ offs s) as Hnew.
  { intros Hin. apply list_elem_of_lookup_1 in Hin as [j Hj].
    assert (slot s (Z.of_nat j) off) as Hs by (split; [lia|by rewrite Nat2Z.id]).
    apply (si_map _ Hi) in Hs. congruence. }
  eexists _, _. split; [done|].
  assert (forall s', offs s' = offs s ++ [off] -> forall g o, slot s' g o <->
    slot s g o \/ (g = Z.of_nat (length (f_inputs s)) /\ o = off)) as Hslot.
  { intros s' Hs' g o. unfold slot. rewrite Hs', lookup_app.
    destruct (offs s !! Z.to_nat g) eqn:Eg.
    - split; [by left|]. intros [?|[-> ->]]; [done|].
      rewrite Nat2Z.id in Eg. apply lookup_lt_Some in Eg. unfold offs in Eg.
      rewrite length_fmap in Eg. lia.
    - apply lookup_ge_None in Eg. unfold offs in *. rewrite length_fmap in *. split.
      + intros [H0 H]. right. apply list_lookup_singleton_Some in H as [? ->]. split; [lia|done].
      + intros [[? ?]|[-> ->]]; [done|]. split; [lia|]. rewrite Nat2Z.id, Nat.sub_diag. done. }
  match goal with |- slots_inv ?s' /\ _ =>
    assert (offs s' = offs s ++ [off]) as Ho by (unfold offs; simpl; by rewrite fmap_app)
  end.
  split_and!; try done.
  - split.
    + rewrite Ho. apply NoDup_app. split_and!; [apply Hi| |apply NoDup_singleton].
      intros o Ho1 Ho2%list_elem_of_singleton. by subst.
    + intros o g. rewrite (Hslot _ Ho). simpl. rewrite <- (si_map _ Hi).
      destruct (decide (o = off)) as [->|Hne].
      * rewrite lookup_insert_eq, E. split; [intros [= <-]; by right|].
        intros [?|[-> _]]; [done|done].
      * rewrite lookup_insert_ne by done. split; [by left|]. by intros [?|[_ ?]].
    + simpl. rewrite length_app. simpl. lia.
    + intros o x Hin. simpl in Hin. apply elem_of_app in Hin as [Hin|Hin]; simpl.
      * rewrite lookup_insert_ne; [by apply (si_data _ Hi)|]. intros ->.
        apply Hnew, list_elem_of_fmap. by exists (o, x).
      * apply list_elem_of_singleton in Hin as [= -> ->]. exists sh.
        rewrite lookup_insert_eq. split; [done|]. by apply Hprov.
  - apply (Hslot _ Ho). by right.
  - rewrite Ho. by eexists.
  - intros o. rewrite Ho, elem_of_app, list_elem_of_singleton. done.
  - simpl. rewrite length_app. simpl. lia.
Qed.

(** ** One constraint *)

Definition recorded (k : rgd.AstKind) : bool :=
  bool_decide (k <> rgd.Memcmp) && bool_decide (k <> rgd.MemcmpN).

(** What a constraint must provide for an entry of its map. *)
Definition entry_ok (c : Constraint) (nargs : nat) (e : Z * Z) : Prop :=
  0 <= fst e < 2 ^ 32 - 1 /\ (0 <= snd e /\ (Z.to_nat (snd e) < nargs)%nat) /\
  is_Some (inputs c !! fst e) /\ is_Some (shapes c !! fst e).

Record offsets_done (i : nat) (k : rgd.AstKind) (l : smap Z) (s s' : fin) : Prop := {
  od_inv : slots_inv s';
  od_prefix : offs s `prefix_of` offs s';
  od_offs : forall o, o ∈ offs s' <-> o ∈ offs s \/ o ∈ keys l;
  od_len : (length (f_inputs s') <= length (f_inputs s) + length l)%nat;
  od_nargs : length (f_args s') = length (f_args s);
  od_args : forall off lidx, (off, lidx) ∈ l -> exists b x g,
    f_args s !! Z.to_nat lidx = Some (b, x) /\
    f_args s' !! Z.to_nat lidx = Some (b, g) /\ slot s' g off;
  od_other : forall j, (forall e, e ∈ l -> Z.to_nat (snd e) <> j) ->
    f_args s' !! j = f_args s !! j;
  od_cmap_in : forall g off, off ∈ keys l -> recorded k = true -> slot s' g off ->
    f_cmap s' !! g = Some (default [] (f_cmap s !! g) ++ [i]);
  od_cmap_out : forall g, (forall off, off ∈ keys l -> recorded k = true -> ~ slot s' g off) ->
    f_cmap s' !! g = f_cmap s !! g;
  od_runs : (f_cands s', last_offset s', run_size s') =
    run_fold (keys l) (f_cands s, last_offset s, run_size s)
}.

Lemma fin_record_cmap i k g s g' : f_cmap (fin_record i k g s) !! g' =
  if recorded k && bool_decide (g = g')
  then Some (default [] (f_cmap s !! g) ++ [i]) else f_cmap s !! g'.
Proof.
  unfold fin_record. fold (recorded k). destruct (recorded k); simpl; [|done].
  case_bool_decide.
  - subst. by rewrite lookup_insert_eq.
  - by rewrite lookup_insert_ne.
Qed.

Lemma fin_record_rest i k g s : let s' := fin_record i k g s in
  sym_map s' = sym_map s /\ f_inputs s' = f_inputs s /\ f_args s' = f_args s /\
  f_cands s' = f_cands s /\ last_offset s' = last_offset s /\ run_size s' = run_size s /\
  f_shapes s' = f_shapes s.
Proof. simpl. unfold fin_record. fold (recorded k). by destruct (recorded k). Qed.

Lemma slots_inv_ext s s' : sym_map s' = sym_map s -> f_inputs s' = f_inputs s ->
  f_shapes s' = f_shapes s -> slots_inv s -> slots_inv s'.
Proof.
  intros H1 H2 H3 [Hn Hm Hl Hd]. split; unfold slot, offs in *; rewrite ?H1, ?H2, ?H3; done.
Qed.

Lemma keys_lidx (l : smap Z) e : e ∈ l -> fst e ∈ keys l.
Proof. intros H. apply list_elem_of_fmap. by exists e. Qed.

(** One offset, with its slot [g]. *)
Record offset_done (i : nat) (k : rgd.AstKind) (off lidx g : Z) (s s' : fin) : Prop := {
  o1_inv : slots_inv s';
  o1_slot : slot s' g off;
  o1_prefix : offs s `prefix_of` offs s';
  o1_offs : forall o, o ∈ offs s' <-> o ∈ offs s \/ o = off;
  o1_len : (length (f_inputs s') <= length (f_inputs s) + 1)%nat;
  o1_args : exists b x, f_args s !! Z.to_nat lidx = Some (b, x) /\ f_args s' = <[Z.to_nat lidx := (b, g)]> (f_args s);
  o1_cmap : forall g', f_cmap s' !! g' = if recorded k && bool_decide (g = g')
    then Some (default [] (f_cmap s !! g) ++ [i]) else f_cmap s !! g';
  o1_runs : (f_cands s', last_offset s', run_size s') = run_step off (f_cands s, last_offset s, run_size s)
}.

Lemma fin_offset_run i k c off lidx l s : slots_inv s -> entry_ok c (length (f_args s)) (off, lidx) ->
  provides c off -> Z.of_nat (length (f_inputs s)) + 1 < 2 ^ 32 ->
  exists g s', fin_offsets i k c ((off, lidx) :: l) s = fin_offsets i k c l s' /\ offset_done i k off lidx g s s'.
Proof.
  intros Hi (Hrange & [Hl0 Hlx] & Hin & Hsh) Hpo Hlen. simpl in *.
  destruct (fin_slot_spec c off s Hi ltac:(lia) Hin Hsh Hpo ltac:(lia))
    as (g & s1 & -> & Hi1 & Hg & Hp1 & (Rc & Ra & Rd & Rl & Rr) & Ho1 & Hlen1).
  destruct (fin_record_rest i k g s1) as (Q1 & Q2 & Q3 & Q4 & Q5 & Q6 & Q7).
  pose proof (fin_record_cmap i k g s1) as Hcm.
  set (s2 := fin_record i k g s1) in *. simpl in Q1, Q2, Q3, Q4, Q5, Q6, Q7.
  destruct (lookup_lt_is_Some_2 (f_args s) (Z.to_nat lidx) Hlx) as [[b x] Hbx].
  unfold fin_arg. rewrite Q3, Ra, Hbx. cbn [idx fst].
  set (s3 := fin_run off _). exists g, s3. split; [done|].
  assert (sym_map s3 = sym_map s1 /\ f_inputs s3 = f_inputs s1 /\
          f_args s3 = <[Z.to_nat lidx := (b, g)]> (f_args s) /\ f_cmap s3 = f_cmap s2 /\
          (f_cands s3, last_offset s3, run_size s3) =
          run_step off (f_cands s, last_offset s, run_size s) /\
          f_shapes s3 = f_shapes s1) as (W1 & W2 & W3 & W4 & W5 & W6).
  { subst s3. unfold fin_run, run_step.
    cbn [f_cands last_offset run_size sym_map f_inputs f_args f_cmap f_shapes].
    rewrite Q1, Q2, Q4, Q5, Q6, Q7, Rd, Rl, Rr. by destruct (_ && _). }
  assert (offs s3 = offs s1) as Ho3 by (unfold offs; by rewrite W2).
  split; rewrite ?Ho3, ?W2; try done.
  - by eapply slots_inv_ext.
  - unfold slot. by rewrite Ho3.
  - by exists b, x.
  - intros g'. by rewrite W4, Hcm, Rc.
Qed.

Section cons.
Context (i : nat) (k : rgd.AstKind) (off lidx g : Z) (l : smap Z) (s s1 s' : fin).
Context (H1 : offset_done i k off lidx g s s1) (Hl : offsets_done i k l s1 s').
Context (Hk : off ∉ keys l) (Hx : Z.to_nat lidx ∉ ((fun e => Z.to_nat (snd e)) <$> l)).

Lemma cons_slot : slot s' g off.
Proof. exact (slot_prefix _ _ _ _ (od_prefix _ _ _ _ _ Hl) (o1_slot _ _ _ _ _ _ _ H1)). Qed.

Lemma cons_args off' lidx' : (off', lidx') ∈ (off, lidx) :: l -> exists b x g',
  f_args s !! Z.to_nat lidx' = Some (b, x) /\ f_args s' !! Z.to_nat lidx' = Some (b, g') /\ slot s' g' off'.
Proof.
  destruct (o1_args _ _ _ _ _ _ _ H1) as (b & x & Hb & Ha).
  intros Hin'. apply elem_of_cons in Hin' as [[= -> ->]|Hin'].
  - exists b, x, g. split_and!; [done| |apply cons_slot].
    rewrite (od_other _ _ _ _ _ Hl), Ha, list_lookup_insert_eq; [done|by eapply lookup_lt_Some|].
    intros e He Heq. apply Hx, list_elem_of_fmap. by exists e.
  - destruct (od_args _ _ _ _ _ Hl off' lidx' Hin') as (b' & x' & g' & A1 & A2 & A3).
    exists b', x', g'. split_and!; [|done|done].
    rewrite Ha, list_lookup_insert_ne in A1; [done|].
    intros Heq. apply Hx, list_elem_of_fmap. by exists (off', lidx').
Qed.

Lemma cons_cmap_in g' off' : off' ∈ keys ((off, lidx) :: l) -> recorded k = true -> slot s' g' off' ->
  f_cmap s' !! g' = Some (default [] (f_cmap s !! g') ++ [i]).
Proof.
  pose proof (o1_cmap _ _ _ _ _ _ _ H1) as Hcm. pose proof cons_slot as Hg'.
  intros Hin' Hrec Hs'. simpl in Hin'. apply elem_of_cons in Hin' as [->|Hin'].
  - rewrite (slot_fun s' g' g off (od_inv _ _ _ _ _ Hl) Hs' Hg'). rewrite (od_cmap_out _ _ _ _ _ Hl).
    + by rewrite Hcm, Hrec, bool_decide_eq_true_2 by done.
    + intros o Ho _ Hso. apply Hk. by rewrite (slot_key _ _ _ _ Hg' Hso).
  - rewrite (od_cmap_in _ _ _ _ _ Hl g' off' Hin' Hrec Hs'), Hcm, Hrec. simpl.
    rewrite bool_decide_eq_false_2; [done|]. intros ->.
    apply Hk. by rewrite (slot_key _ _ _ _ Hg' Hs').
Qed.

Lemma cons_cmap_out g' : (forall o, o ∈ keys ((off, lidx) :: l) -> recorded k = true -> ~ slot s' g' o) ->
  f_cmap s' !! g' = f_cmap s !! g'.
Proof.
  pose proof cons_slot as Hg. intros Hout. rewrite (od_cmap_out _ _ _ _ _ Hl).
  - rewrite (o1_cmap _ _ _ _ _ _ _ H1). destruct (recorded k) eqn:Hrec; simpl; [|done].
    rewrite bool_decide_eq_false_2; [done|]. intros ->. apply (Hout off); [by left|done|done].
  - intros o Ho. apply Hout. by right.
Qed.

Lemma offsets_done_cons : offsets_done i k ((off, lidx) :: l) s s'.
Proof.
  destruct (o1_args _ _ _ _ _ _ _ H1) as (b & x & Hb & Ha).
  split; [apply Hl|..|exact cons_args| |exact cons_cmap_in|exact cons_cmap_out|].
  - etrans; [exact (o1_prefix _ _ _ _ _ _ _ H1)|exact (od_prefix _ _ _ _ _ Hl)].
  - intros o. rewrite (od_offs _ _ _ _ _ Hl), (o1_offs _ _ _ _ _ _ _ H1). simpl. rewrite elem_of_cons. tauto.
  - pose proof (o1_len _ _ _ _ _ _ _ H1). pose proof (od_len _ _ _ _ _ Hl). simpl. lia.
  - by rewrite (od_nargs _ _ _ _ _ Hl), Ha, length_insert.
  - intros j Hj. rewrite (od_other _ _ _ _ _ Hl), Ha, list_lookup_insert_ne; [done|..].
    + intros <-. by apply (Hj (off, lidx)); [left|].
    + intros e He. apply Hj. by right.
  - by rewrite (od_runs _ _ _ _ _ Hl), (o1_runs _ _ _ _ _ _ _ H1).
Qed.

End cons.

Lemma fin_offsets_spec i k c l : forall s, slots_inv s ->
  Forall (entry_ok c (length (f_args s))) l -> NoDup (keys l) ->
  NoDup ((fun e => Z.to_nat (snd e)) <$> l) -> Forall (provides c) (keys l) ->
  Z.of_nat (length (f_inputs s) + length l) < 2 ^ 32 ->
  exists s', fin_offsets i k c l s = Ok s' /\ offsets_done i k l s s'.
Proof.
  induction l as [|[off lidx] l IH]; intros s Hi Hok Hk Hx Hpv Hlen.
  { exists s. split; [done|]. split; try done; simpl.
    - intros o. rewrite elem_of_nil. tauto.
    - lia.
    - intros off lidx H. by apply elem_of_nil in H.
    - intros g off H. by apply elem_of_nil in H. }
  inversion Hok as [|? ? Hoff Hok']; subst.
  simpl in Hk, Hx. apply NoDup_cons in Hk as [Hk1 Hk], Hx as [Hx1 Hx]. apply Forall_cons in Hpv as [Hpo Hpv].
  simpl length in Hlen.
  destruct (fin_offset_run i k c off lidx l s Hi Hoff Hpo ltac:(lia)) as (g & s1 & -> & D1).
  destruct (o1_args _ _ _ _ _ _ _ D1) as (b & x & Hb & Ha). pose proof (o1_len _ _ _ _ _ _ _ D1).
  destruct (IH s1) as (s' & E & D); [apply D1|by rewrite Ha, length_insert|done|done|done|lia|].
  exists s'. split; [done|]. by apply (offsets_done_cons i k off lidx g l s s1).
Qed.

(** ** All constraints *)

Record cons_wf (c : Constraint) : Prop := {
  cw_offsets : offsets_ok (keys (local_map c));
  cw_entries : Forall (entry_ok c (length (input_args c))) (local_map c);
  cw_lidx : NoDup ((fun e => Z.to_nat (snd e)) <$> local_map c)
}.

(** The numbers, from [i] on, of the constraints that read the byte at [off]. *)
Fixpoint readers (i : nat) (cs : list (Constraint * rgd.AstKind)) (off : Z) : list nat :=
  match cs with
  | [] => []
  | (c, k) :: cs' =>
      (if recorded k && bool_decide (off ∈ keys (local_map c)) then [i] else []) ++
      readers (S i) cs' off
  end.

(** [m] is the metadata of [c]: every byte of [c] is read from its slot. *)
Record meta_ok (s : fin) (c : Constraint) (k : rgd.AstKind) (m : ConsMeta) : Prop := {
  mo_cmp : comparison m = k;
  mo_nargs : length (m_input_args m) = length (input_args c);
  mo_args : forall off lidx, (off, lidx) ∈ local_map c -> exists b x g,
    input_args c !! Z.to_nat lidx = Some (b, x) /\
    m_input_args m !! Z.to_nat lidx = Some (b, g) /\ slot s g off;
  mo_consts : forall j, (forall e, e ∈ local_map c -> Z.to_nat (snd e) <> j) ->
    m_input_args m !! j = input_args c !! j;
  mo_cands : i2s_candidates m = run_result (keys (local_map c))
}.

Lemma meta_ok_prefix s s' c k m : offs s `prefix_of` offs s' -> meta_ok s c k m ->
  meta_ok s' c k m.
Proof.
  intros Hp [? ? Ha ? ?]. split; try done. intros off lidx Hin.
  destruct (Ha off lidx Hin) as (b & x & g & ? & ? & ?). exists b, x, g.
  split_and!; [done..|]. by eapply slot_prefix.
Qed.

Lemma fin_atoi_spec A l : forall m, (m : gmap Z (Z * Z * Z)) ⊆ A ->
  (forall o i, (o, i) ∈ l -> A !! o = Some i) ->
  exists m', fin_atoi l m = Ok m' /\ m ⊆ m' /\ m' ⊆ A /\
    forall o i, (o, i) ∈ l -> m' !! o = Some i.
Proof.
  induction l as [|[o i] l IH]; intros m Hm Hl; simpl.
  { exists m. split_and!; try done. intros o i H. by apply elem_of_nil in H. }
  assert (A !! o = Some i) as Hoi by (apply Hl; by left).
  assert (m !! o = None \/ m !! o = Some i) as Hmo.
  { destruct (m !! o) as [i'|] eqn:E; [right|by left].
    pose proof (lookup_weaken _ _ _ _ E Hm). congruence. }
  assert (<[o := i]> m ⊆ A) as Hins by by apply insert_subseteq_l.
  assert (m ⊆ <[o := i]> m) as Hmi.
  { destruct Hmo as [Hmo|Hmo]; [by apply insert_subseteq|by rewrite insert_id]. }
  destruct (IH (<[o := i]> m) Hins) as (m' & E & H1 & H2 & H3).
  { intros o' i' Hin. apply Hl. by right. }
  exists m'. split_and!.
  - destruct Hmo as [-> | ->]; [done|]. by rewrite bool_decide_eq_true_2.
  - by etrans.
  - done.
  - intros o' i' Hin. apply elem_of_cons in Hin as [[= -> ->]|Hin]; [|auto].
    eapply lookup_weaken; [|exact H1]. by rewrite lookup_insert_eq.
Qed.

Definition add_readers (o : option (list nat)) (l : list nat) : option (list nat) :=
  match l with [] => o | _ => Some (default [] o ++ l) end.

Record constraints_done (i : nat) (cs : list (Constraint * rgd.AstKind)) (s s' : fin)
    (new : list ConsMeta) : Prop := {
  cd_inv : slots_inv s';
  cd_prefix : offs s `prefix_of` offs s';
  cd_offs : forall o, o ∈ offs s' <->
    o ∈ offs s \/ exists ck, ck ∈ cs /\ o ∈ keys (local_map (fst ck));
  cd_metas : Forall2 (fun ck m => meta_ok s' (fst ck) (snd ck) m) cs new;
  cd_cmap : forall g off, slot s' g off ->
    f_cmap s' !! g = add_readers (f_cmap s !! g) (readers i cs off);
  cd_cmap_out : forall g, (forall off, ~ slot s' g off) -> f_cmap s' !! g = f_cmap s !! g
}.

Fixpoint total_keys (cs : list (Constraint * rgd.AstKind)) : nat :=
  match cs with
  | [] => O
  | (c, _) :: cs' => length (local_map c) + total_keys cs'
  end.

(** One constraint more. *)
Lemma constraints_done_cons i c k cs s s0 s1 s' m new : f_inputs s0 = f_inputs s -> f_cmap s0 = f_cmap s ->
  offsets_done i k (local_map c) s0 s1 -> meta_ok s1 c k m -> constraints_done (S i) cs s1 s' new ->
  constraints_done i ((c, k) :: cs) s s' (m :: new).
Proof.
  intros HI HC [D1 D2 D3 D4 D5 D6 D7 D8 D9 D10] Hmeta [E1 E2 E3 E4 E5 E6].
  unfold offs in D2, D3. rewrite HI in D2, D3. fold (offs s) in D2, D3. fold (offs s1) in D2, D3.
  rewrite HC in D8, D9.
  split; try done.
  - by etrans.
  - intros o. rewrite E3, D3. simpl. split.
    + intros [[?|?]|(ck & ? & ?)]; [by left|right; exists (c, k); split; [by left|done]|].
      right. exists ck. split; [by right|done].
    + intros [?|(ck & Hin & ?)]; [by left; left|].
      apply elem_of_cons in Hin as [->|Hin]; [by left; right|right; by exists ck].
  - constructor; [|done]. by eapply meta_ok_prefix.
  - intros g off Hs. rewrite (E5 g off Hs). simpl.
    destruct (recorded k && bool_decide (off ∈ keys (local_map c))) eqn:Er; simpl.
    + apply andb_true_iff in Er as [Hrec Hin%bool_decide_eq_true].
      assert (slot s1 g off) as Hs1.
      { assert (off ∈ offs s1) as [j Hj]%list_elem_of_lookup_1 by (apply D3; by right).
        assert (slot s1 (Z.of_nat j) off) as Hsj by (split; [lia|by rewrite Nat2Z.id]).
        rewrite (slot_fun s' g (Z.of_nat j) off E1 Hs (slot_prefix _ _ _ _ E2 Hsj)). done. }
      rewrite (D8 g off Hin Hrec Hs1). simpl.
      destruct (readers (S i) cs off); simpl; [done|]. by rewrite <- app_assoc.
    + rewrite D9; [done|]. intros off' Hin' Hrec' Hs'.
      rewrite (slot_key s' g off off' Hs (slot_prefix _ _ _ _ E2 Hs')) in Er.
      rewrite Hrec', bool_decide_eq_true_2 in Er; done.
  - intros g Hg. rewrite E6 by done. rewrite D9; [done|].
    intros off _ _ Hs. apply (Hg off). by eapply slot_prefix.
Qed.

Lemma fin_constraints_spec A cs : forall i s atoi maxc metas,
  slots_inv s -> Forall (fun ck => cons_wf (fst ck)) cs ->
  Forall (fun ck => Forall (provides (fst ck)) (keys (local_map (fst ck)))) cs ->
  Z.of_nat (length (f_inputs s) + total_keys cs) < 2 ^ 32 ->
  atoi ⊆ A -> Forall (fun ck => atoi_info (fst ck) ⊆ A) cs ->
  exists s' atoi' maxc' new,
    fin_constraints i cs s atoi maxc metas = Ok (s', atoi', maxc', metas ++ new) /\
    constraints_done i cs s s' new /\ maxc <= maxc' /\
    Forall (fun ck => const_num (fst ck) <= maxc') cs.
Proof.
  induction cs as [|[c k] cs IH]; intros i s atoi maxc metas Hi Hcs Hpv Hlen Hat HatA.
  { exists s, atoi, maxc, []. rewrite app_nil_r. split; [done|]. split_and!; [|lia|done].
    split; try done. intros o. split; [by left|]. intros [?|(ck & H & _)]; [done|].
    by apply elem_of_nil in H. }
  inversion Hcs as [|? ? Hc Hcs']; subst. inversion HatA as [|? ? Ha HatA']; subst.
  apply Forall_cons in Hpv as [Hpc Hpv].
  destruct Hc as [Hoff Hent Hlx]. simpl in *.
  set (s0 := mk_fin (sym_map s) (f_inputs s) (f_shapes s) (f_cmap s) (input_args c) []
               (2 ^ 32 - 1) 0).
  destruct (fin_offsets_spec i k c (local_map c) s0) as (s1 & -> & D).
  { by apply (slots_inv_ext s). }
  { done. }
  { destruct Hoff as [Hs _]. clear -Hs. induction Hs as [|x l Hs IH Hf]; [constructor|].
    apply NoDup_cons. split; [|done]. intros Hin. rewrite Forall_forall in Hf.
    apply Hf in Hin. lia. }
  { done. }
  { done. }
  { simpl. lia. }
  pose proof (od_len _ _ _ _ _ D) as D4.
  assert (forall o inf, (o, inf) ∈ map_to_list (atoi_info c) -> A !! o = Some inf) as HA.
  { intros o inf Hin%elem_of_map_to_list. by eapply lookup_weaken. }
  destruct (fin_atoi_spec A _ _ Hat HA) as (atoi1 & -> & _ & Hat1 & _).
  set (m := mk_meta (f_args s1) k _).
  set (maxc1 := if maxc <? const_num c then const_num c else maxc).
  destruct (IH (S i) s1 atoi1 maxc1 (metas ++ [m])) as (s' & atoi' & maxc' & new & E & D' & Hmx & Hmxs).
  { apply D. }
  { done. }
  { done. }
  { simpl in D4. lia. }
  { done. }
  { done. }
  exists s', atoi', maxc', (m :: new). rewrite E. split; [by rewrite <- app_assoc|].
  assert (maxc <= maxc1 /\ const_num c <= maxc1) as [Hm1 Hm2].
  { subst maxc1. destruct (Z.ltb_spec maxc (const_num c)); lia. }
  split_and!; [|lia|constructor; [simpl; lia|done]].
  apply (constraints_done_cons i c k cs s s0 s1); [done..| |done].
  destruct D as [D1 D2 D3 D4' D5 D6 D7 D8 D9 D10].
  split; try done. subst m. simpl. unfold run_result. simpl in D10. by rewrite <- D10.
Qed.

End slots.

Lemma fill_cmap_lookup k : forall i m g, fill_cmap i k m !! g =
  match m !! g with
  | Some l => Some l
  | None => if decide (Z.of_nat i <= g < Z.of_nat (i + k)) then Some [] else None
  end.
Proof.
  induction k as [|k IH]; intros i m g; simpl.
  { destruct (m !! g); [done|]. rewrite decide_False by lia. done. }
  rewrite IH. destruct (m !! Z.of_nat i) as [l|] eqn:E.
  - destruct (m !! g) eqn:Eg; [done|]. assert (g <> Z.of_nat i) by congruence.
    do 2 case_decide; done || lia.
  - destruct (decide (g = Z.of_nat i)) as [->|Hne].
    + rewrite lookup_insert_eq, E. rewrite decide_True by lia. done.
    + rewrite lookup_insert_ne by done. destruct (m !! g); [done|].
      do 2 case_decide; done || lia.
Qed.

(** The task as the parser hands it over: constraints, nothing else. *)
Record ready (A : gmap Z (Z * Z * Z)) (t : SearchTask) : Prop := {
  rd_lengths : length (constraints_ t) = length (comparisons_ t);
  rd_inputs : inputs_ t = [];
  rd_cmap : cmap_ t = ∅;
  rd_atoi : atoi_info_ t = ∅;
  rd_metas : consmetas_ t = [];
  rd_wf : Forall cons_wf (constraints_ t);
  rd_small : Z.of_nat (total_keys (zip (constraints_ t) (comparisons_ t))) < 2 ^ 32;
  rd_agree : Forall (fun c => atoi_info c ⊆ A) (constraints_ t)
}.

(** What solvers rely on in a finalized task. *)
Record finalized (t t' : SearchTask) : Prop := {
  fz_nodup : NoDup (fst <$> inputs_ t');
  fz_inputs : forall off, off ∈ fst <$> inputs_ t' <->
    exists c, c ∈ constraints_ t /\ off ∈ keys (local_map c);
  fz_args : forall i c k, constraints_ t !! i = Some c -> comparisons_ t !! i = Some k ->
    exists m, consmetas_ t' !! i = Some m /\ comparison m = k /\
      length (m_input_args m) = length (input_args c) /\
      (forall off lidx, (off, lidx) ∈ local_map c -> exists b x g v,
         input_args c !! Z.to_nat lidx = Some (b, x) /\
         m_input_args m !! Z.to_nat lidx = Some (b, Z.of_nat g) /\
         inputs_ t' !! g = Some (off, v)) /\
      (forall j, (forall e, e ∈ local_map c -> Z.to_nat (snd e) <> j) ->
         m_input_args m !! j = input_args c !! j);
  fz_runs : forall i c m, constraints_ t !! i = Some c -> consmetas_ t' !! i = Some m ->
    if decide (local_map c = []) then i2s_candidates m = [(0, 0)]
    else expand (i2s_candidates m) = keys (local_map c) /\ maximal (i2s_candidates m);
  fz_cmap : forall g off v, inputs_ t' !! g = Some (off, v) ->
    task_cmap (Z.of_nat g) t' = Ok (readers 0 (zip (constraints_ t) (comparisons_ t)) off);
  fz_scratch : exists n, scratch_args t' = Some n /\
    Forall (fun c => Z.of_nat (length (inputs_ t')) + const_num c + 3 <= Z.of_nat n)
      (constraints_ t);
  fz_closed : forall c k, add_constraint c k t' = Err RuntimeError;
  fz_data : forall off v, (off, v) ∈ inputs_ t' -> exists c sh, c ∈ constraints_ t /\
    off ∈ keys (local_map c) /\ inputs c !! off = Some v /\ shapes c !! off = Some sh /\
    shapes_ t' !! off = Some sh;
  fz_kept : constraints_ t' = constraints_ t /\ comparisons_ t' = comparisons_ t /\
    length (consmetas_ t') = length (constraints_ t) /\ stopped t' = stopped t /\
    solved t' = solved t
}.

Lemma slot_input s g off : slot s (Z.of_nat g) off <-> exists v, f_inputs s !! g = Some (off, v).
Proof.
  unfold slot, offs. rewrite Nat2Z.id, list_lookup_fmap. split.
  - intros [_ H]. destruct (f_inputs s !! g) as [[o v]|]; [|done]. simpl in H.
    simplify_eq. by exists v.
  - intros [v ->]. split; [lia|done].
Qed.

(** A byte of a constraint of the task, with its value and shape there. *)
Definition task_byte (t : SearchTask) (off v sh : Z) : Prop := exists c, c ∈ constraints_ t /\
  off ∈ keys (local_map c) /\ inputs c !! off = Some v /\ shapes c !! off = Some sh.

(** What the constraints gave is a finalized task. *)
Lemma constraints_finalized t s atoi maxc metas sh0 :
  let cs := zip (constraints_ t) (comparisons_ t) in
  length (constraints_ t) = length (comparisons_ t) -> Forall cons_wf (constraints_ t) ->
  constraints_done (task_byte t) 0 cs (mk_fin ∅ [] sh0 ∅ [] [] 0 0) s metas ->
  Forall (fun ck => const_num (fst ck) <= maxc) cs ->
  finalized t (mk_task (constraints_ t) (comparisons_ t) metas (f_inputs s) (f_shapes s) atoi maxc
        (fill_cmap 0 (length (f_inputs s)) (f_cmap s))
        (Some (2 + length (f_inputs s) + Z.to_nat maxc + 1)%nat)
        (stopped t) (attempts t) (solved t) (solution t) (base_task t) (skip_next t)).
Proof.
  intros cs Hlen Hwf [D1 D2 D3 D4 D5 D6] Hmx.
  assert (fst <$> cs = constraints_ t) as Hfst by (apply fst_zip; lia).
  assert (forall i c k, constraints_ t !! i = Some c -> comparisons_ t !! i = Some k ->
    exists m, metas !! i = Some m /\ meta_ok s c k m) as Hmeta.
  { intros i c k Hc Hk. eapply (Forall2_lookup_l _ _ _ i (c, k)) in D4 as (m & ? & ?);
      [by exists m|]. subst cs. rewrite lookup_zip_with, Hc, Hk. done. }
  pose proof (slot_input s) as Hslot.
  split; simpl.
  - apply D1.
  - intros off. fold (offs s). rewrite D3. unfold offs at 1. simpl. rewrite elem_of_nil. split.
    + intros [[]|(ck & Hck & Ho)]. exists (fst ck). split; [|done].
      rewrite <- Hfst. apply list_elem_of_fmap. by exists ck.
    + intros (c & Hc & Ho). right. rewrite <- Hfst in Hc.
      apply list_elem_of_fmap in Hc as (ck & -> & Hck). by exists ck.
  - intros i c k Hc Hk. destruct (Hmeta i c k Hc Hk) as (m & Hm & [M1 M2 M3 M4 M5]).
    exists m. split_and!; try done. intros off lidx Hol.
    destruct (M3 off lidx Hol) as (b & x & g & ? & ? & Hs).
    assert (0 <= g) as Hg0 by apply Hs.
    assert (slot s (Z.of_nat (Z.to_nat g)) off) as [v Hv]%Hslot by by rewrite Z2Nat.id.
    exists b, x, (Z.to_nat g), v. by rewrite Z2Nat.id.
  - intros i c m Hc Hm.
    destruct (lookup_lt_is_Some_2 (comparisons_ t) i) as [k Hk];
      [rewrite <- Hlen; by eapply lookup_lt_Some|].
    destruct (Hmeta i c k Hc Hk) as (m' & Hm' & [_ _ _ _ M5]). simplify_eq.
    rewrite M5. case_decide as Hne; [by rewrite Hne|]. apply run_result_spec.
    + rewrite Forall_forall in Hwf. apply Hwf. by eapply list_elem_of_lookup_2.
    + unfold keys. by destruct (local_map c).
  - intros g off v Hg. fold cs. unfold task_cmap. cbn [inputs_ cmap_].
    pose proof (lookup_lt_Some _ _ _ Hg) as Hlt.
    destruct (Z.leb_spec (Z.of_nat (length (f_inputs s))) (Z.of_nat g)); [lia|].
    rewrite fill_cmap_lookup.
    assert (slot s (Z.of_nat g) off) as Hs by (apply Hslot; by exists v).
    rewrite (D5 _ off Hs). simpl. rewrite lookup_empty.
    destruct (readers 0 cs off) as [|r l]; simpl; [|done]. by rewrite decide_True by lia.
  - eexists. split; [done|]. rewrite <- Hfst. apply Forall_fmap.
    eapply Forall_impl; [exact Hmx|]. intros ck Hck. unfold compose. simpl in Hck. lia.
  - done.
  - intros off v Hov. destruct (si_data _ _ D1 off v Hov) as (sh & Hsh & c & Hc & Hk & Hv & Hs).
    by exists c, sh.
  - split_and!; try done. apply Forall2_length in D4. rewrite <- Hfst, length_fmap. done.
Qed.

Lemma finalize_run A t : ready A t ->
  exists t', finalize t = Ok t' /\ finalized t t'.
Proof.
  intros [Hlen Hin Hcm Hat Hme Hwf Hsm Hag]. unfold finalize. rewrite Hin, Hcm, Hat, Hme.
  set (cs := zip (constraints_ t) (comparisons_ t)) in *.
  assert (fst <$> cs = constraints_ t) as Hfst by (apply fst_zip; lia).
  assert (forall P, Forall P (constraints_ t) -> Forall (fun ck => P (fst ck)) cs) as Hall.
  { intros P HP. rewrite <- Hfst in HP. exact (proj1 (Forall_fmap _ _ _) HP). }
  destruct (fin_constraints_spec (task_byte t) A cs 0 (mk_fin ∅ [] (shapes_ t) ∅ [] [] 0 0) ∅
              (max_const_num_ t) []) as (s & atoi & maxc & metas & -> & D & _ & Hmx).
  { split; unfold slot, offs; simpl; [apply NoDup_nil_2| |lia|].
    - intros off g. rewrite lookup_empty. split; [done|]. by intros [_ ?].
    - intros off v Hin'. by apply elem_of_nil in Hin'. }
  { by apply Hall. }
  { apply (Hall (fun c => Forall (provides (task_byte t) c) (keys (local_map c)))), Forall_forall.
    intros c Hc. apply Forall_forall. intros off Ho v sh Hv Hsh. by exists c. }
  { simpl. lia. }
  { apply map_empty_subseteq. }
  { by apply (Hall (fun c => atoi_info c ⊆ A)). }
  cbn [app]. eexists. split; [done|]. by eapply constraints_finalized.
Qed.

(** C12: [finalize] succeeds on a task of well-formed constraints and gives every
    input byte exactly one slot; every constraint then finds each of its bytes
    in that byte's slot and its constants where they were; [cmap] lists, in
    order, exactly the constraints other than [memcmp] that read a byte; the
    input-to-state candidates of a constraint are the maximal runs of its
    offsets; value and shape of a byte are those a constraint gives it; the
    argument array has room for every constraint; and no constraint can be added
    any more. *)
Theorem finalize_correct A t : ready A t ->
  exists t', finalize t = Ok t' /\ finalized t t'.
Proof. apply finalize_run. Qed.

(** A comparison of the 16-bit word at offset 3 with a constant, and one of the
    bytes at offsets 4 and 9. *)
Definition word_cons : Constraint :=
  mk_cons (new_ast 4) [(3, 0); (4, 1)] [(true, 0); (true, 0); (false, 513)]
    {[3 := 10; 4 := 20]} {[3 := 2; 4 := 0]} ∅ ∅ 1 (Some 5130) (Some 513).
Definition bytes_cons : Constraint :=
  mk_cons (new_ast 4) [(4, 0); (9, 1)] [(true, 0); (true, 0)]
    {[4 := 20; 9 := 90]} {[4 := 1; 9 := 1]} ∅ ∅ 0 (Some 20) (Some 90).
Definition two_task : SearchTask :=
  mk_task [word_cons; bytes_cons] [rgd.Ult; rgd.Equal] [] [] ∅ ∅ 0 ∅ None false 0 false ∅ None
    false.

Lemma word_cons_wf : cons_wf word_cons.
Proof.
  split; [split|..].
  - repeat constructor.
  - repeat (constructor; [simpl; lia|]). done.
  - repeat (constructor; [split_and!; simpl; lia || by eexists|]). done.
  - by apply (bool_decide_unpack _).
Qed.

Lemma bytes_cons_wf : cons_wf bytes_cons.
Proof.
  split; [split|..].
  - repeat constructor.
  - repeat (constructor; [simpl; lia|]). done.
  - repeat (constructor; [split_and!; simpl; lia || by eexists|]). done.
  - by apply (bool_decide_unpack _).
Qed.

Lemma finalize_correct_witness : exists t', finalize two_task = Ok t' /\
  finalized two_task t' /\ task_cmap 1 t' = Ok [0%nat; 1%nat].
Proof.
  destruct (finalize_correct ∅ two_task) as (t' & E & Hf).
  - split; try done.
    + by constructor; [apply word_cons_wf|constructor; [apply bytes_cons_wf|]].
    + by do 2 (apply Forall_cons; split; [done|]).
  - exists t'. split; [exact E|]. split; [exact Hf|].
    assert (inputs_ t' !! 1%nat = Some (4, 20)) as Hi.
    { revert E. vm_compute. by intros [= <-]. }
    exact (fz_cmap _ _ Hf 1 4 20 Hi).
Defined.
