(* ===== verification/Parser.v ===== *)
(** * The constraint parser: [include/parse.h], [include/parse-rgd.h] and
      [parsers/rgd-parser.cpp]

    Reads the label table of a run, turns branch conditions into search tasks
    and keeps the constraints of earlier branches for nested solving. *)

From S2P Require Import Prelude Dfsan Runtime UnionFind Ast Formula Task.
Local Open Scope prog_scope.

(** ** State *)

(** A parser: the label table, the tasks it has handed out, and its caches. An
    input is its bytes; [dynamic_bitset]s are sets of positions below
    [input_size_]. *)
Record parser := mk_parser {
  base_ : gmap Z dfsan_label_info;
  size_ : Z;
  prev_task_id_ : Z;
  tasks_ : gmap Z SearchTask;
  memcmp_cache_ : gmap Z (list Z);
  solve_nested_ : bool;
  max_ast_size_ : Z;
  inputs_cache : list (list Z);
  root_expr_cache : gmap Z Ast;
  constraint_cache : gmap Z Constraint;
  ast_size_cache : list Z;              (* uint32_t *)
  nested_cmp_cache : list Z;            (* uint8_t *)
  concretize_node : gmap Z Z;           (* uint8_t *)
  input_size_ : nat;
  branch_to_inputs : list (gset nat);
  data_flow_deps : UnionFind;
  input_to_branches : list (list Ast)
}.

Definition set_tasks t i p := mk_parser (base_ p) (size_ p) i t (memcmp_cache_ p)
  (solve_nested_ p) (max_ast_size_ p) (inputs_cache p) (root_expr_cache p)
  (constraint_cache p) (ast_size_cache p) (nested_cmp_cache p) (concretize_node p)
  (input_size_ p) (branch_to_inputs p) (data_flow_deps p) (input_to_branches p).
Definition set_memcmp_cache x p := mk_parser (base_ p) (size_ p) (prev_task_id_ p)
  (tasks_ p) x (solve_nested_ p) (max_ast_size_ p) (inputs_cache p) (root_expr_cache p)
  (constraint_cache p) (ast_size_cache p) (nested_cmp_cache p) (concretize_node p)
  (input_size_ p) (branch_to_inputs p) (data_flow_deps p) (input_to_branches p).
Definition set_root_expr_cache x p := mk_parser (base_ p) (size_ p) (prev_task_id_ p)
  (tasks_ p) (memcmp_cache_ p) (solve_nested_ p) (max_ast_size_ p) (inputs_cache p) x
  (constraint_cache p) (ast_size_cache p) (nested_cmp_cache p) (concretize_node p)
  (input_size_ p) (branch_to_inputs p) (data_flow_deps p) (input_to_branches p).
Definition set_constraint_cache x p := mk_parser (base_ p) (size_ p) (prev_task_id_ p)
  (tasks_ p) (memcmp_cache_ p) (solve_nested_ p) (max_ast_size_ p) (inputs_cache p)
  (root_expr_cache p) x (ast_size_cache p) (nested_cmp_cache p) (concretize_node p)
  (input_size_ p) (branch_to_inputs p) (data_flow_deps p) (input_to_branches p).
Definition set_scan a n b p := mk_parser (base_ p) (size_ p) (prev_task_id_ p)
  (tasks_ p) (memcmp_cache_ p) (solve_nested_ p) (max_ast_size_ p) (inputs_cache p)
  (root_expr_cache p) (constraint_cache p) a n (concretize_node p)
  (input_size_ p) b (data_flow_deps p) (input_to_branches p).
Definition set_concretize x p := mk_parser (base_ p) (size_ p) (prev_task_id_ p)
  (tasks_ p) (memcmp_cache_ p) (solve_nested_ p) (max_ast_size_ p) (inputs_cache p)
  (root_expr_cache p) (constraint_cache p) (ast_size_cache p) (nested_cmp_cache p) x
  (input_size_ p) (branch_to_inputs p) (data_flow_deps p) (input_to_branches p).
Definition set_deps u b p := mk_parser (base_ p) (size_ p) (prev_task_id_ p)
  (tasks_ p) (memcmp_cache_ p) (solve_nested_ p) (max_ast_size_ p) (inputs_cache p)
  (root_expr_cache p) (constraint_cache p) (ast_size_cache p) (nested_cmp_cache p)
  (concretize_node p) (input_size_ p) (branch_to_inputs p) u b.

Definition set_ast_size_cache x p :=
  set_scan x (nested_cmp_cache p) (branch_to_inputs p) p.
Definition set_nested_cmp_cache x p :=
  set_scan (ast_size_cache p) x (branch_to_inputs p) p.
Definition set_branch_to_inputs x p :=
  set_scan (ast_size_cache p) (nested_cmp_cache p) x p.

(** ** [ASTParser] *)

(** The constructor; [size] is in bytes. *)
Definition new_parser (base : gmap Z dfsan_label_info) (size : Z) (solve_nested : bool)
    (max_ast_size : Z) : parser :=
  mk_parser base (size / sizeof_label_info) 0 ∅ ∅ solve_nested max_ast_size [] ∅ ∅ [] [] ∅
    0 [] (uf_reset 0) [].

(** Called [get_label_info] in the source. *)
Definition label_info (p : parser) (l : Z) : res dfsan_label_info :=
  if size_ p <=? l then Err OutOfRange else Ok (info_at (base_ p) l).

Definition save_task (task : SearchTask) : M parser Z :=
  let! tid := gets prev_task_id_ in
  modify (fun p => set_tasks (<[tid := task]> (tasks_ p)) (u64 (tid + 1)) p) ;;;
  ret tid.

Definition retrieve_task (id : Z) : M parser (option SearchTask) :=
  let! t := gets (fun p => tasks_ p !! id) in
  match t with
  | None => ret None
  | Some t => modify (fun p => set_tasks (delete id (tasks_ p)) (prev_task_id_ p) p) ;;;
              ret (Some t)
  end.

(** [insert] keeps an existing entry. *)
Definition record_memcmp (label : Z) (buf : list Z) : M parser Z :=
  modify (fun p => set_memcmp_cache
            (match memcmp_cache_ p !! label with
             | Some _ => memcmp_cache_ p
             | None => <[label := buf]> (memcmp_cache_ p)
             end) p) ;;;
  ret 0.

(** ** [RGDAstParser::restart] *)

Definition restart (inputs : list (list Z)) : M parser Z := fun p =>
  let input_size := sum_list (length <$> inputs) in
  (Ok 0,
   mk_parser (base_ p) (size_ p) (prev_task_id_ p) (tasks_ p) ∅ (solve_nested_ p)
     (max_ast_size_ p) inputs ∅ ∅ [] [] ∅ input_size [] (uf_reset input_size)
     (replicate input_size [])).

Section parser.
Context {LLVM : InstructionDef}.

(** ** Operators *)

Definition OP_MAP (op : Z) : option rgd.AstKind :=
  if op =? Extract then Some rgd.Extract
  else if op =? Trunc then Some rgd.Extract
  else if op =? Concat then Some rgd.Concat
  else if op =? ZExt then Some rgd.ZExt
  else if op =? SExt then Some rgd.SExt
  else if op =? Add then Some rgd.Add
  else if op =? Sub then Some rgd.Sub
  else if op =? Mul then Some rgd.Mul
  else if op =? UDiv then Some rgd.UDiv
  else if op =? SDiv then Some rgd.SDiv
  else if op =? URem then Some rgd.URem
  else if op =? SRem then Some rgd.SRem
  else if op =? Shl then Some rgd.Shl
  else if op =? LShr then Some rgd.LShr
  else if op =? AShr then Some rgd.AShr
  else if op =? And then Some rgd.And
  else if op =? Or then Some rgd.Or
  else if op =? Xor then Some rgd.Xor
  else if op =? icmp bveq then Some rgd.Equal
  else if op =? icmp bvneq then Some rgd.Distinct
  else if op =? icmp bvugt then Some rgd.Ugt
  else if op =? icmp bvuge then Some rgd.Uge
  else if op =? icmp bvult then Some rgd.Ult
  else if op =? icmp bvule then Some rgd.Ule
  else if op =? icmp bvsgt then Some rgd.Sgt
  else if op =? icmp bvsge then Some rgd.Sge
  else if op =? icmp bvslt then Some rgd.Slt
  else if op =? icmp bvsle then Some rgd.Sle
  else None.

Definition is_rel_cmp (op pred : Z) : bool :=
  (Z.land op 0xff =? ICmp) && (Z.shiftr op 8 =? pred).

Definition eval_icmp (op op1 op2 : Z) : bool :=
  if Z.land op 0xff =? ICmp then
    let pred := Z.shiftr op 8 in
    if pred =? bveq then op1 =? op2
    else if pred =? bvneq then negb (op1 =? op2)
    else if pred =? bvugt then op2 <? op1
    else if pred =? bvuge then op2 <=? op1
    else if pred =? bvult then op1 <? op2
    else if pred =? bvule then op1 <=? op2
    else if pred =? bvsgt then s64 op2 <? s64 op1
    else if pred =? bvsge then s64 op2 <=? s64 op1
    else if pred =? bvslt then s64 op1 <? s64 op2
    else if pred =? bvsle then s64 op1 <=? s64 op2
    else false
  else false.

Definition is_cmp_op (op : Z) : bool := (op =? fmemcmp) || (Z.land op 0xff =? ICmp).

(** ** Scanning labels *)

(** The flattened position of a byte: the inputs before it, then its offset. *)
Definition input_to_dep_idx (p : parser) (input_id offset : Z) : nat :=
  sum_list (length <$> take (Z.to_nat input_id) (inputs_cache p)) + Z.to_nat offset.

(** [itr.set(idx + n)] for [n] below [k]: a position beyond the bitset is
    undefined. *)
Definition set_bits_from (p : parser) (pos k : nat) : res (gset nat) :=
  if (k =? 0)%nat || (pos + k <=? input_size_ p)%nat
  then Ok (list_to_set (seq pos k)) else Err Undefined.

Definition push_size (n : Z) : M parser unit :=
  modify (fun p => set_ast_size_cache (ast_size_cache p ++ [n]) p).
Definition push_deps (d : gset nat) : M parser unit :=
  modify (fun p => set_branch_to_inputs (branch_to_inputs p ++ [d]) p).
Definition push_nested (n : Z) : M parser unit :=
  modify (fun p => set_nested_cmp_cache (nested_cmp_cache p ++ [n]) p).

(** [branch_to_inputs[i] |= d] *)
Definition add_deps (i : nat) (d : gset nat) : M parser unit :=
  let! old := gets (fun p => branch_to_inputs p !! i) in
  let! old := lift (idx old) in
  modify (fun p => set_branch_to_inputs (<[i := old ∪ d]> (branch_to_inputs p)) p).

(** A read of [n] bytes of an input, label [i]; [bad] is the test of the offset
    against the size of the input. *)
Definition scan_read (i : nat) (input_id offset n : Z) (bad : Z -> bool) : M parser bool :=
  push_size 1 ;;;
  let! p := gets id in
  if Z.of_nat (length (inputs_cache p)) <=? input_id then ret false
  else
    let! buf := lift (idx (inputs_cache p !! Z.to_nat input_id)) in
    if bad (Z.of_nat (length buf)) then ret false
    else
      push_deps ∅ ;;;
      let! d := lift (set_bits_from p (input_to_dep_idx p input_id offset) (Z.to_nat n)) in
      add_deps i d ;;;
      push_nested 0 ;;;
      ret true.

(** The body of the loop of [scan_labels], for label [i]; [false] when the
    function gives up. *)
Definition scan_label (i : Z) : M parser bool :=
  let n := Z.to_nat i in
  if i =? 0 then push_size 1 ;;; push_deps ∅ ;;; push_nested 0 ;;; ret true
  else
    let! p := gets id in
    let! info := lift (label_info p i) in
    if (size_ p <=? i_l1 info) || (size_ p <=? i_l2 info) then ret false
    else if i_op info =? 0 then
      let offset := u32 (i_op1 info) in
      scan_read n (u32 (i_op2 info)) offset 1 (fun size => size <=? offset)
    else if i_op info =? Load then
      let! src := lift (label_info p (i_l1 info)) in
      let offset := u32 (i_op1 src) in
      scan_read n (u32 (i_op2 src)) offset (i_l2 info)
        (fun size => size <? u32 (offset + i_l2 info))
    else
      (* AST nodes *)
      let size_of l := if l =? 0 then Ok 1 else idx (ast_size_cache p !! Z.to_nat l) in
      let! lhs := lift (size_of (i_l1 info)) in
      let! rhs := lift (size_of (i_l2 info)) in
      push_size (u32 (lhs + rhs + 1)) ;;;
      (* input deps *)
      push_deps ∅ ;;;
      let deps_of l := if l =? 0 then ret ∅
                       else let! q := gets branch_to_inputs in
                            lift (idx (q !! Z.to_nat l)) in
      let! d1 := deps_of (i_l1 info) in
      add_deps n d1 ;;;
      let! d2 := deps_of (i_l2 info) in
      add_deps n d2 ;;;
      (* nested cmp? *)
      let nested_of l := if l =? 0 then Ok 0 else idx (nested_cmp_cache p !! Z.to_nat l) in
      let! n1 := lift (nested_of (i_l1 info)) in
      let! n2 := lift (nested_of (i_l2 info)) in
      push_nested (u8 (n1 + n2 + (if is_cmp_op (i_op info) then 1 else 0))) ;;;
      ret true.

Fixpoint scan_loop (i : Z) (k : nat) : M parser bool :=
  match k with
  | O => ret true
  | S k' =>
      let! ok := scan_label i in
      if ok then scan_loop (i + 1) k' else ret false
  end.

Definition scan_labels (label : Z) : M parser bool :=
  let! start := gets (fun p => Z.of_nat (length (ast_size_cache p))) in
  scan_loop start (Z.to_nat (label + 1 - start)).

(** ** Building a constraint *)

(** The state of [do_uta_rel]: the constraint and the labels visited. *)
Record uta := mk_uta { u_cons : Constraint; u_visited : gset Z }.

Definition set_ast (a : Ast) (c : Constraint) : Constraint :=
  mk_cons a (local_map c) (input_args c) (inputs c) (shapes c) (atoi_info c) (ops c)
    (const_num c) (op1 c) (op2 c).
Definition set_maps lm args ins sh (c : Constraint) : Constraint :=
  mk_cons (ast c) lm args ins sh (atoi_info c) (ops c) (const_num c) (op1 c) (op2 c).

(** A tree operation on the constraint's tree. *)
Definition on_ast {A} (m : M Ast A) : M uta A := fun u =>
  let '(r, a) := m (ast (u_cons u)) in
  (r, mk_uta (set_ast a (u_cons u)) (u_visited u)).

Definition upd_node (nd : ref) (f : AstNode -> AstNode) : M uta unit := on_ast (update nd f).
Definition on_cons (f : Constraint -> Constraint) : M uta unit :=
  modify (fun u => mk_uta (f (u_cons u)) (u_visited u)).
Definition visit (l : Z) : M uta unit :=
  modify (fun u => mk_uta (u_cons u) ({[l]} ∪ u_visited u)).

(** [constraint->input_args.push_back({false, v}); constraint->const_num += 1;] *)
Definition add_const (v : Z) : M uta unit :=
  on_cons (fun c => mk_cons (ast c) (local_map c) (input_args c ++ [(false, v)]) (inputs c)
    (shapes c) (atoi_info c) (ops c) (u32 (const_num c + 1)) (op1 c) (op2 c)).

Definition next_arg : M uta Z :=
  gets (fun u => u32 (Z.of_nat (length (input_args (u_cons u))))).

(** [inputs.insert({offset, val})], which keeps an existing entry;
    [local_map[offset] = arg_index]; [input_args.push_back({true, 0})]. *)
Definition add_input (offset val arg_index : Z) : M uta unit :=
  on_cons (fun c => set_maps (sm_set offset arg_index (local_map c))
    (input_args c ++ [(true, 0)])
    (match inputs c !! offset with Some _ => inputs c | None => <[offset := val]> (inputs c) end)
    (shapes c) c).

Definition set_shape (offset n : Z) : M uta unit :=
  on_cons (fun c => set_maps (local_map c) (input_args c) (inputs c)
    (<[offset := n]> (shapes c)) c).

(** The loop of [map_arg] from [i] on; [rgd::xxhash] has the text of the
    runtime's. *)
Fixpoint map_arg_loop (buf : list Z) (length i offset hash : Z) (k : nat) : M uta Z :=
  match k with
  | O => ret hash
  | S k' =>
      let! val := lift (idx (buf !! Z.to_nat offset)) in
      let! found := gets (fun u => sm_find offset (local_map (u_cons u))) in
      let! arg_index :=
        match found with
        | None => let! a := next_arg in add_input offset val a ;;; ret a
        | Some a => ret a
        end in
      let! hash :=
        if i =? 0
        then set_shape offset length ;;; ret (xxhash (u32 (length * 8)) (rgd.num rgd.Read) arg_index)
        else set_shape offset 0 ;;; ret hash in
      map_arg_loop buf length (i + 1) (u32 (offset + 1)) hash k'
  end.

Definition map_arg (p : parser) (input_id offset length : Z) : M uta Z :=
  let! buf := lift (idx (inputs_cache p !! Z.to_nat input_id)) in
  map_arg_loop buf length 0 offset 0 (Z.to_nat length).

(** Eight bytes of a recorded array, least significant first, and fewer. *)
Fixpoint array_le (arr : list Z) (pos k : nat) : res Z :=
  match k with
  | O => Ok 0
  | S k' =>
      let? b := idx (arr !! pos) in
      let? r := array_le arr (S pos) k' in
      Ok (b + 256 * r)
  end.

(** The constant array of a [memcmp], in pieces of eight bytes. *)
Fixpoint memcmp_chunks (arr : list Z) (i chunks : nat) : M uta unit :=
  match chunks with
  | O => ret tt
  | S k =>
      let! val := lift (array_le arr (i * 8) 8) in
      add_const val ;;;
      memcmp_chunks arr (S i) k
  end.

(** The bytes of the result of [atoi], as fresh fake inputs. *)
Fixpoint atoi_loop (length i offset hash : Z) (k : nat) : M uta Z :=
  match k with
  | O => ret hash
  | S k' =>
      let! arg_index := next_arg in
      add_input offset 0 arg_index ;;;
      let! hash :=
        if i =? 0
        then set_shape offset length ;;; ret (xxhash (u32 (length * 8)) (rgd.num rgd.Read) arg_index)
        else set_shape offset 0 ;;; ret hash in
      atoi_loop length (i + 1) (u32 (offset + 1)) hash k'
  end.

Section with_parser.
(** [do_uta_rel] only reads the parser. *)
Variable p : parser.

(** A concrete operand; [other] is the label of the other operand. *)
Definition uta_constant (nd : ref) (info : dfsan_label_info) (other value : Z) : M uta bool :=
  upd_node nd (set_kind rgd.Constant) ;;;
  upd_node nd (set_label 0) ;;;
  let! size :=
    if i_op info =? Concat then
      if other =? 0 then ret None
      else let! o := lift (label_info p other) in ret (Some (u32 (i_size info - i_size o)))
    else ret (Some (i_size info)) in
  match size with
  | None => ret false
  | Some size =>
      upd_node nd (set_bits size) ;;;
      let! arg_index := next_arg in
      upd_node nd (set_index arg_index) ;;;
      add_const value ;;;
      upd_node nd (set_hash (xxhash size (rgd.num rgd.Constant) arg_index)) ;;;
      ret true
  end.

(** The constant side of a [memcmp]. *)
Definition uta_memcmp_array (label : Z) (s1 : ref) (info : dfsan_label_info) : M uta bool :=
  upd_node s1 (set_kind rgd.Constant) ;;;
  upd_node s1 (set_bits (i_size info * 8)) ;;;
  upd_node s1 (set_label 0) ;;;
  match memcmp_cache_ p !! label with
  | None => ret false
  | Some arr =>
      let! arg_index := next_arg in
      upd_node s1 (set_index arg_index) ;;;
      let chunks := Z.to_nat (i_size info / 8) in
      let remain := Z.to_nat (i_size info mod 8) in
      memcmp_chunks arr 0 chunks ;;;
      (if (remain =? 0)%nat then ret tt
       else let! val := lift (array_le arr (chunks * 8) remain) in add_const val) ;;;
      upd_node s1 (set_hash (xxhash (i_size info) (rgd.num rgd.Constant) arg_index)) ;;;
      ret true
  end.

(** The result of [atoi]: offset of the string, base and length recorded. *)
Definition uta_atoi (label : Z) (nd : ref) (info : dfsan_label_info) : M uta bool :=
  if negb (i_l1 info =? 0) || (i_l2 info <? CONST_OFFSET) then ret false
  else
    let! src := lift (label_info p (i_l2 info)) in
    if negb (i_op src =? Load) then ret false
    else
      visit (i_l2 info) ;;;
      let! first := lift (label_info p (i_l1 src)) in
      let offset := u32 (i_op1 first) in
      upd_node nd (set_bits (i_size info)) ;;;
      upd_node nd (set_label label) ;;;
      upd_node nd (set_index offset) ;;;
      upd_node nd (set_kind rgd.Read) ;;;
      let! found := gets (fun u => sm_find offset (local_map (u_cons u))) in
      match found with
      | Some _ => ret false
      | None =>
          let length := i_size info / 8 in
          on_cons (fun c => mk_cons (ast c) (local_map c) (input_args c) (inputs c) (shapes c)
            (<[offset := (length, u32 (i_op1 info), u32 (i_op2 info))]> (atoi_info c)) (ops c)
            (const_num c) (op1 c) (op2 c)) ;;;
          let! hash := atoi_loop length 0 offset 0 (Z.to_nat length) in
          upd_node nd (set_hash hash) ;;;
          ret true
      end.

(** An input read: [n] bytes from [offset] on. *)
Definition uta_read (label : Z) (nd : ref) (input_id offset n : Z) : M uta bool :=
  upd_node nd (set_kind rgd.Read) ;;;
  upd_node nd (set_bits (u32 (n * 8))) ;;;
  upd_node nd (set_label label) ;;;
  upd_node nd (set_index offset) ;;;
  let! hash := map_arg p input_id offset n in
  upd_node nd (set_hash hash) ;;;
  ret true.

Definition node_hash (nd : ref) : M uta Z := on_ast (let! n := node nd in ret (hash n)).

Definition is_unary (op : Z) : bool :=
  (op =? ZExt) || (op =? SExt) || (op =? Extract) || (op =? Trunc).

(** [memcmp]: [recur] is the recursive call. *)
Definition uta_memcmp (recur : Z -> ref -> M uta bool) (label : Z) (nd : ref)
    (info : dfsan_label_info) : M uta bool :=
  let! s1 := on_ast (add_children nd) in
  match s1 with
  | None => ret false
  | Some s1 =>
      let! ok :=
        if CONST_OFFSET <=? i_l1 info then
          let! ok := recur (i_l1 info) s1 in
          if (ok : bool) then visit (i_l1 info) ;;; ret true else ret false
        else uta_memcmp_array label s1 info in
      if negb ok then ret false else
      let! s2 := on_ast (add_children nd) in
      match s2 with
      | None => ret false
      | Some s2 =>
          let! ok := recur (i_l2 info) s2 in
          if negb ok then ret false else
          visit (i_l2 info) ;;;
          upd_node nd (set_kind rgd.Memcmp) ;;;
          upd_node nd (set_bits 1) ;;;
          upd_node nd (set_label label) ;;;
          let! h1 := node_hash s1 in
          let! h2 := node_hash s2 in
          upd_node nd (set_hash (xxhash h1 (rgd.num rgd.Memcmp) h2)) ;;;
          ret true
      end
  end.

(** One operand of an operation of kind [kd]: side 1 is the left one, side 2 the
    right one; [concretize] is the side to be replaced by its concrete value. *)
Definition uta_operand (recur : Z -> ref -> M uta bool) (kd : rgd.AstKind)
    (concretize : Z) (info : dfsan_label_info) (side l other value : Z) (child : ref)
    : M uta bool :=
  if negb (concretize =? side) && (CONST_OFFSET <=? l) then
    let! ok := recur l child in
    if (ok : bool) then visit l ;;; ret true else ret false
  else if negb (concretize =? 0) && negb (rgd.isRelationalKind kd) then ret false
  else uta_constant child info other value.

(** "common ops, make sure no special ops" *)
Definition uta_operation (recur : Z -> ref -> M uta bool) (label : Z) (nd : ref)
    (info : dfsan_label_info) : M uta bool :=
  match OP_MAP (i_op info) with
  | None => ret false
  | Some kd =>
      upd_node nd (set_kind kd) ;;;
      upd_node nd (set_bits (i_size info)) ;;;
      upd_node nd (set_label label) ;;;
      (* record op *)
      on_cons (fun c => mk_cons (ast c) (local_map c) (input_args c) (inputs c)
        (shapes c) (atoi_info c) ({[rgd.num kd]} ∪ ops c) (const_num c) (op1 c) (op2 c)) ;;;
      let operand := uta_operand recur kd (default 0 (concretize_node p !! label)) info in
      let! lhs := on_ast (add_children nd) in
      match lhs with
      | None => ret false
      | Some lhs =>
          let! ok := operand 1 (i_l1 info) (i_l2 info) (i_op1 info) lhs in
          if negb ok then ret false
          else if is_unary (i_op info) then
            let! h := node_hash lhs in
            upd_node nd (set_hash (xxhash (i_size info) (rgd.num kd) h)) ;;;
            upd_node nd (set_index (if i_op info =? Extract then i_op2 info else 0)) ;;;
            ret true
          else
            let! rhs := on_ast (add_children nd) in
            match rhs with
            | None => ret false
            | Some rhs =>
                let! ok := operand 2 (i_l2 info) (i_l1 info) (i_op2 info) rhs in
                if negb ok then ret false else
                (* record comparison operands *)
                (if rgd.isRelationalKind kd
                 then on_cons (fun c => mk_cons (ast c) (local_map c) (input_args c)
                        (inputs c) (shapes c) (atoi_info c) (ops c) (const_num c)
                        (Some (i_op1 info)) (Some (i_op2 info)))
                 else ret tt) ;;;
                let k := if rgd.isRelationalKind kd then rgd.num rgd.Bool else rgd.num kd in
                let! h1 := node_hash lhs in
                let! h2 := node_hash rhs in
                upd_node nd (set_hash (xxhash h1 (Z.lor (Z.shiftl k 16) (i_size info)) h2)) ;;;
                ret true
            end
      end
  end.

Fixpoint do_uta_rel (fuel : nat) (label : Z) (nd : ref) : M uta bool :=
  match fuel with
  | O => throw NoFuel
  | S fuel' =>
      if (label <? CONST_OFFSET) || (label =? kInitializingLabel) then ret false else
      let! info := lift (label_info p label) in
      let! seen := gets (fun u => bool_decide (label ∈ u_visited u)) in
      if (seen : bool) then
        upd_node nd (set_label label) ;;; upd_node nd (set_bits (i_size info)) ;;; ret true
      else if i_op info =? 0 then
        uta_read label nd (u32 (i_op2 info)) (u32 (i_op1 info)) 1
      else if i_op info =? Load then
        let! src := lift (label_info p (i_l1 info)) in
        uta_read label nd (u32 (i_op2 src)) (u32 (i_op1 src)) (i_l2 info)
      else if i_op info =? fmemcmp then uta_memcmp (do_uta_rel fuel') label nd info
      else if i_op info =? fatoi then uta_atoi label nd info
      else if i_op info =? fsize then ret false
      else uta_operation (do_uta_rel fuel') label nd info
  end.

(** Labels go down along the operands, so the label is fuel enough. *)
Definition uta_fuel (label : Z) : nat := S (Z.to_nat label).

(** [None] is the null pointer. *)
Definition parse_constraint (label : Z) : res (option Constraint) :=
  let? info := label_info p label in
  if negb (Z.land (i_op info) 0xff =? ICmp) && negb (i_op info =? fmemcmp) then Ok None
  else if Z.of_nat (length (ast_size_cache p)) <=? label then Ok None
  else
    let? size := at_ (ast_size_cache p !! Z.to_nat label) in
    if size =? 0 then Ok None
    else match do_uta_rel (uta_fuel label) label Root (mk_uta (new_constraint size) ∅) with
         | (Ok true, u) => Ok (Some (u_cons u))
         | (Ok false, _) => Ok None
         | (Err OutOfRange, _) => Ok None
         | (Err e, _) => Err e
         end.

End with_parser.

(** ** Tasks *)

(** The constraint of a label, from the cache or parsed now. *)
Definition get_constraint (label : Z) : M parser (option Constraint) :=
  let! p := gets id in
  match constraint_cache p !! label with
  | Some c => ret (Some c)
  | None =>
      let! c := lift (parse_constraint p label) in
      match c with
      | Some c =>
          modify (fun p => set_constraint_cache (<[label := c]> (constraint_cache p)) p) ;;;
          ret (Some c)
      | None => ret None
      end
  end.

(** Add the constraints of a clause to a task; the ones that do not parse are
    left out. Also the whole of [add_nested_constraint]. *)
Fixpoint add_clause (clause : list AstNode) (task : SearchTask) : M parser SearchTask :=
  match clause with
  | [] => ret task
  | n :: clause' =>
      let! c := get_constraint (label n) in
      match c with
      | Some c => let! task := lift (add_constraint c (kind n) task) in add_clause clause' task
      | None => add_clause clause' task
      end
  end.

Definition construct_task (clause : list AstNode) : M parser (option SearchTask) :=
  let! task := add_clause clause new_task in
  if task_empty task then ret None
  else let! task := lift (finalize task) in ret (Some task).

Definition add_nested_constraint (task : SearchTask) (clause : list AstNode)
    : M parser SearchTask := add_clause clause task.

(** ** Boolean structure of a condition *)

(** "sometimes llvm will zext bool" *)
Fixpoint strip_zext_loop (fuel : nat) (p : parser) (info : dfsan_label_info) (label : Z)
    : res Z :=
  if negb (i_op info =? ZExt) then Ok label
  else match fuel with
       | O => Err NoFuel
       | S fuel' =>
           let child := i_l1 info in
           let? info := label_info p child in
           if i_size info =? 1 then Ok child
           else if is_cmp_op (i_op info) then Ok child
           else strip_zext_loop fuel' p info label
       end.

Definition strip_zext (p : parser) (label : Z) : res Z :=
  let? info := label_info p label in strip_zext_loop (S (Z.to_nat label)) p info label.

(** The state of [find_roots]: the parser and the tree under construction. *)
Record fr := mk_fr { fr_parser : parser; fr_ast : Ast }.

Definition fr_on_ast {A} (m : M Ast A) : M fr A := fun f =>
  let '(r, a) := m (fr_ast f) in (r, mk_fr (fr_parser f) a).
Definition fr_node (nd : ref) : M fr AstNode := fr_on_ast (node nd).
Definition fr_upd (nd : ref) (g : AstNode -> AstNode) : M fr unit := fr_on_ast (update nd g).
Definition fr_copy (dst src : ref) : M fr unit := fr_on_ast (copy_from dst src).

(** [nested_cmp_cache[l]] *)
Definition nested_at (l : Z) : M fr Z :=
  let! n := gets (fun f => nested_cmp_cache (fr_parser f) !! Z.to_nat l) in lift (idx n).

(** Make [nd] the constant [v]. *)
Definition make_bool (nd : ref) (v : Z) : M fr unit :=
  fr_upd nd (set_kind rgd.Bool) ;;; fr_upd nd (set_boolvalue v) ;;; fr_upd nd clear_children.

Definition simplify_not (nd : ref) (info : dfsan_label_info) : M fr Z :=
  let! n := fr_node nd in
  if negb (children_size n =? 1)%nat then ret INVALID_NODE
  else if negb (i_size info =? 1) then ret INVALID_NODE
  else
    let! c := fr_on_ast (children nd 0) in
    let! child := fr_node c in
    fr_upd nd (set_bits 1) ;;;
    (if bool_decide (kind child = rgd.Bool)
     then make_bool nd (if boolvalue child =? 0 then 1 else 0)
     else fr_upd nd (set_kind rgd.LNot)) ;;;
    ret 0.

(** What [And], [Or] and [Xor] have in common: the checks, and the children that
    hold the two operands, if there are any. *)
Definition logic_operands (nd : ref) (info : dfsan_label_info)
    : M fr (option (option ref * option ref)) :=
  let! n := fr_node nd in
  if (children_size n =? 0)%nat then ret None
  else if negb (i_size info =? 1) then ret None
  else
    let! n1 := nested_at (i_l1 info) in
    let! lhs := if 0 <? n1 then let! c := fr_on_ast (children nd 0) in ret (Some c)
                else ret None in
    let child := if 0 <? n1 then 1%nat else 0%nat in
    let! n2 := nested_at (i_l2 info) in
    let! rhs := if 0 <? n2 then let! c := fr_on_ast (children nd child) in ret (Some c)
                else ret None in
    fr_upd nd (set_bits 1) ;;;
    ret (Some (lhs, rhs)).

(** [And] and [Or]: [absorb] is the constant that decides the result, [kd] the
    connective of two symbolic sides. *)
Definition simplify_logic (absorb : Z) (kd : rgd.AstKind) (nd : ref)
    (info : dfsan_label_info) : M fr Z :=
  let! sides := logic_operands nd info in
  match sides with
  | None => ret INVALID_NODE
  | Some (lhs, rhs) =>
      if i_l1 info =? 0 then
        (* lhs is a constant *)
        if i_op1 info =? absorb then make_bool nd absorb ;;; ret 0
        else if i_op1 info =? 1 - absorb then
          match rhs with
          | None => ret INVALID_NODE
          | Some r => fr_copy nd r ;;; ret 0
          end
        else ret INVALID_NODE
      else
        match lhs, rhs with
        | Some l, Some r =>
            let! ln := fr_node l in
            let! rn := fr_node r in
            (if bool_decide (kind ln = rgd.Bool) then
               if boolvalue ln =? absorb then make_bool nd absorb
               else if bool_decide (kind rn = rgd.Bool) then make_bool nd (boolvalue rn)
               else fr_copy nd r
             else if bool_decide (kind rn = rgd.Bool) then
               if boolvalue rn =? absorb then make_bool nd absorb else fr_copy nd l
             else fr_upd nd (set_kind kd)) ;;;
            ret 0
        | _, _ => ret INVALID_NODE
        end
  end.

Definition simplify_land : ref -> dfsan_label_info -> M fr Z := simplify_logic 0 rgd.LAnd.
Definition simplify_lor : ref -> dfsan_label_info -> M fr Z := simplify_logic 1 rgd.LOr.

Definition simplify_lxor (nd : ref) (info : dfsan_label_info) : M fr Z :=
  let! sides := logic_operands nd info in
  match sides with
  | None => ret INVALID_NODE
  | Some (lhs, rhs) =>
      if i_l1 info =? 0 then
        match rhs with
        | None => ret INVALID_NODE
        | Some r =>
            let! rn := fr_node r in
            (if bool_decide (kind rn = rgd.Bool) then
               make_bool nd (u8 (Z.lxor (boolvalue rn) (u32 (i_op1 info))))
             else if i_op1 info =? 1 then fr_upd nd (set_kind rgd.LNot)
             else fr_copy nd r) ;;;
            ret 0
        end
      else
        match lhs, rhs with
        | Some l, Some r =>
            let! ln := fr_node l in
            let! rn := fr_node r in
            (if bool_decide (kind ln = rgd.Bool) then
               if bool_decide (kind rn = rgd.Bool)
               then make_bool nd (Z.lxor (boolvalue rn) (boolvalue ln))
               else if boolvalue ln =? 0 then fr_copy nd r
               else fr_upd nd (set_kind rgd.LNot)
             else if bool_decide (kind rn = rgd.Bool) then
               if boolvalue rn =? 0 then fr_copy nd l else fr_upd nd (set_kind rgd.LNot)
             else fr_upd nd (set_kind rgd.Xor)) ;;;
            ret 0
        | _, _ => ret INVALID_NODE
        end
  end.

(** [set_kind(Bool); set_boolvalue(eval_icmp(...));] *)
Definition make_concrete (nd : ref) (info : dfsan_label_info) : M fr unit :=
  fr_upd nd (set_kind rgd.Bool) ;;;
  fr_upd nd (set_boolvalue (Z.b2z (eval_icmp (i_op info) (i_op1 info) (i_op2 info)))).

(** A comparison without comparisons below: operands whose trees are too large
    are concretized. *)
Definition simplify_leaf_icmp (curr : Z) (nd : ref) (info : dfsan_label_info) : M fr Z :=
  let! p := gets fr_parser in
  let size_at l := at_ (ast_size_cache p !! Z.to_nat l) in
  let! size := lift (size_at curr) in
  let previous := default 0 (concretize_node p !! curr) in
  let! concretize :=
    if max_ast_size_ p <? size then
      let! left_size := lift (size_at (i_l1 info)) in
      let! right_size := lift (size_at (i_l2 info)) in
      let left_large := max_ast_size_ p <? left_size in
      let right_large := max_ast_size_ p <? right_size in
      let c := if left_large then Z.lor previous 1 else previous in
      let size := if left_large then u32 (size - (left_size - 1)) else size in
      let c := if right_large then Z.lor c 2 else c in
      let size := if right_large then u32 (size - (right_size - 1)) else size in
      modify (fun f => mk_fr
        (set_concretize (<[curr := c]> (concretize_node (fr_parser f)))
           (set_ast_size_cache (<[Z.to_nat curr := size]> (ast_size_cache (fr_parser f)))
              (fr_parser f))) (fr_ast f)) ;;;
      ret c
    else ret previous in
  let concrete_ops := Z.lor (Z.lor concretize (if i_l1 info =? 0 then 1 else 0))
                        (if i_l2 info =? 0 then 2 else 0) in
  if concrete_ops =? 3 then make_concrete nd info ;;; ret 0
  else match OP_MAP (i_op info) with
       | None => ret INVALID_NODE
       | Some k => fr_upd nd (set_kind k) ;;; fr_upd nd (set_label curr) ;;; ret 0
       end.

(** A comparison of a boolean, in child 0, with the constant [value]: [other] is
    the label of the other operand. *)
Definition simplify_bool_icmp (nd : ref) (info : dfsan_label_info) (other value : Z) : M fr Z :=
  let! c := fr_on_ast (children nd 0) in
  let! child := fr_node c in
  if negb (bits child =? 1) then ret INVALID_NODE
  else
    (if other =? 0 then
       if is_rel_cmp (i_op info) bveq then
         if value =? 1 then fr_copy nd c else fr_upd nd (set_kind rgd.LNot)
       else
         if value =? 0 then fr_copy nd c else fr_upd nd (set_kind rgd.LNot)
     else make_bool nd 0) ;;;
    ret 0.

Definition simplify_icmp (curr : Z) (nd : ref) (info : dfsan_label_info) : M fr Z :=
  fr_upd nd (set_bits 1) ;;;
  let! n := fr_node nd in
  if (children_size n =? 0)%nat then simplify_leaf_icmp curr nd info
  else if (children_size n =? 1)%nat then
    if negb (is_rel_cmp (i_op info) bveq) && negb (is_rel_cmp (i_op info) bvneq)
    then make_concrete nd info ;;; ret 0
    else
      let! n1 := nested_at (i_l1 info) in
      if negb (n1 =? 0) then simplify_bool_icmp nd info (i_l2 info) (i_op2 info)
      else
        let! n2 := nested_at (i_l2 info) in
        if 0 <? n2 then simplify_bool_icmp nd info (i_l1 info) (i_op1 info)
        else ret INVALID_NODE
  else make_concrete nd info ;;; fr_upd nd clear_children ;;; ret 0.

(** "both children nodes have been visited, process the node" *)
Definition process_root (curr : Z) (nd : ref) (info : dfsan_label_info) : M fr Z :=
  if i_op info =? Not then simplify_not nd info
  else if i_op info =? And then simplify_land nd info
  else if i_op info =? Or then simplify_lor nd info
  else if i_op info =? Xor then simplify_lxor nd info
  else if Z.land (i_op info) 0xff =? ICmp then simplify_icmp curr nd info
  else if i_op info =? fmemcmp then
    let! n := fr_node nd in
    if negb (children_size n =? 0)%nat then ret INVALID_NODE
    else
      fr_upd nd (set_bits 1) ;;;
      fr_upd nd (set_kind rgd.Memcmp) ;;;
      fr_upd nd (set_label curr) ;;;
      ret 0
  else ret INVALID_NODE.

(** The variables of the traversal; the stacks have their top first. *)
Record walk := mk_walk {
  stack : list Z;
  root : Z;
  prev : Z;
  node_stack : list ref;
  root_node : ref;
  visited : gset Z
}.

(** One round of the loop: [inl] the new variables, or [inr] the function's
    result. *)
Definition walk_step (w : walk) : M fr (walk + Z) :=
  if negb (root w =? 0) then
    if bool_decide (root w ∈ visited w) then
      (* already visited, skip the subtree *)
      ret (inl (mk_walk (stack w) 0 (root w) (node_stack w) (root_node w) (visited w)))
    else
      let stack' := root w :: stack w in
      let node_stack' := root_node w :: node_stack w in
      let! p := gets fr_parser in
      let! info := lift (label_info p (root w)) in
      let! n1 := nested_at (i_l1 info) in
      if n1 =? 0 then
        ret (inl (mk_walk stack' 0 (prev w) node_stack' (root_node w) (visited w)))
      else
        let! next := lift (strip_zext p (i_l1 info)) in
        if next =? 0
        then ret (inl (mk_walk stack' 0 (prev w) node_stack' (root_node w) (visited w)))
        else
          let! c := fr_on_ast (add_children (root_node w)) in
          match c with
          | None => ret (inr INVALID_NODE)
          | Some c => ret (inl (mk_walk stack' next (prev w) node_stack' c (visited w)))
          end
  else
    match stack w, node_stack w with
    | curr :: stack', nd :: node_stack' =>
        let! p := gets fr_parser in
        let! info := lift (label_info p curr) in
        let! zsl2 := lift (strip_zext p (i_l2 info)) in
        let! n2 := nested_at zsl2 in
        if (0 <? n2) && negb (prev w =? zsl2) then
          let! c := fr_on_ast (add_children nd) in
          match c with
          | None => ret (inr INVALID_NODE)
          | Some c => ret (inl (mk_walk (stack w) zsl2 (prev w) (node_stack w) c (visited w)))
          end
        else
          let! r := process_root curr nd info in
          if negb (r =? 0) then ret (inr r)
          else ret (inl (mk_walk stack' 0 curr node_stack' (root_node w)
                           ({[curr]} ∪ visited w)))
    | _, _ => throw Undefined
    end.

Fixpoint walk_loop (fuel : nat) (w : walk) : M fr Z :=
  if (root w =? 0) && (length (stack w) =? 0)%nat then ret 0
  else match fuel with
       | O => throw NoFuel
       | S fuel' =>
           let! r := walk_step w in
           match r with inl w => walk_loop fuel' w | inr r => ret r end
       end.

(** Every label is entered and left once, and turned at and found visited at
    most once for each of its operands. *)
Definition walk_fuel (label : Z) : nat := 6 * (Z.to_nat label + 2).

(** [find_roots] below the root of the tree; [out_of_range] is caught. *)
Definition find_roots (label : Z) : M fr Z :=
  catch (walk_loop (walk_fuel label) (mk_walk [] label 0 [] Root ∅))
    (fun e => match e with OutOfRange => ret INVALID_NODE | _ => throw e end).

Definition valid_label (p : parser) (label : Z) : bool :=
  negb ((label <? CONST_OFFSET) || (label =? kInitializingLabel) || (size_ p <=? label)).

Definition get_root_expr (label : Z) : M parser (option Ast) :=
  let! p := gets id in
  if negb (valid_label p label) then ret None
  else match root_expr_cache p !! label with
       | Some root => ret (Some root)
       | None =>
           let! ok := scan_labels label in
           if negb ok then ret None
           else fun p =>
             let '(r, f) := find_roots label (mk_fr p (new_ast 32)) in
             match r with
             | Err e => (Err e, fr_parser f)
             | Ok r =>
                 if negb (r =? 0) then (Ok None, fr_parser f)
                 else (Ok (Some (fr_ast f)),
                       set_root_expr_cache
                         (<[label := fr_ast f]> (root_expr_cache (fr_parser f))) (fr_parser f))
             end
       end.

(** ** Handlers *)

Section handlers.
(** The order in which an [unordered_set] of positions is traversed. *)
Variable unordered : gset nat -> list nat.

(** The input dependencies of a comparison, without those of a concretized
    operand. As in the source, [itr] is a reference into the cache: narrowing
    the dependencies overwrites the entry of [l]. *)
Definition clause_deps (l : Z) : M parser (gset nat) :=
  let deps_of k := let! p := gets id in lift (idx (branch_to_inputs p !! Z.to_nat k)) in
  let! d := deps_of l in
  let! p := gets id in
  let narrow (operand : dfsan_label_info -> Z) :=
    let! info := lift (label_info p l) in
    let! d := deps_of (operand info) in
    modify (fun p => set_branch_to_inputs (<[Z.to_nat l := d]> (branch_to_inputs p)) p) ;;;
    ret d in
  match concretize_node p !! l with
  | Some 1 => narrow i_l2
  | Some 2 => narrow i_l1
  | _ => ret d
  end.

(** Positions of a bitset in increasing order. *)
Definition positions (p : parser) (d : gset nat) : list nat :=
  filter (fun i => i ∈ d) (seq 0 (input_size_ p)).

(** [get_set] for every position; each call clears the set first. *)
Fixpoint related_inputs (l : list nat) (acc : gset nat) (u : UnionFind) : res (gset nat) :=
  match l with
  | [] => Ok acc
  | i :: l' =>
      let? s := uf_get_set i u in
      related_inputs l' (match s with Some s => s | None => acc end) u
  end.

(** The constraints of earlier branches in the buckets of [inputs] that are not
    [inserted] yet. *)
Fixpoint collect_bucket (bucket : list Ast) (inserted : gset Z) : list AstNode * gset Z :=
  match bucket with
  | [] => ([], inserted)
  | nc :: bucket' =>
      let n := a_root nc in
      if bool_decide (label n ∈ inserted) then collect_bucket bucket' inserted
      else let '(l, s) := collect_bucket bucket' ({[label n]} ∪ inserted) in (n :: l, s)
  end.

Fixpoint collect_inputs (p : parser) (l : list nat) (inserted : gset Z)
    : res (list AstNode * gset Z) :=
  match l with
  | [] => Ok ([], inserted)
  | i :: l' =>
      let? bucket := idx (input_to_branches p !! i) in
      let '(c1, inserted) := collect_bucket bucket inserted in
      let? (c2, inserted) := collect_inputs p l' inserted in
      Ok (c1 ++ c2, inserted)
  end.

(** The nested constraints of the comparisons of a clause. *)
Fixpoint collect_clause (clause : list AstNode) (inserted : gset Z) : M parser (list AstNode) :=
  match clause with
  | [] => ret []
  | var :: clause' =>
      let! d := clause_deps (label var) in
      let! p := gets id in
      if (length (positions p d) =? 0)%nat then collect_clause clause' inserted
      else
        let! related := lift (related_inputs (positions p d) ∅ (data_flow_deps p)) in
        let! c := lift (collect_inputs p (unordered related) inserted) in
        let! rest := collect_clause clause' (snd c) in
        ret (fst c ++ rest)
  end.

(** One clause of a condition: its task, and the task extended by the nested
    constraints. *)
Definition parse_clause (clause : list AstNode) (tasks : list Z) : M parser (list Z) :=
  let! task := construct_task clause in
  match task with
  | None => ret tasks
  | Some task =>
      let! tid := save_task task in
      let tasks := tasks ++ [tid] in
      let! p := gets id in
      if solve_nested_ p then
        let! nested := collect_clause clause (list_to_set (label <$> clause)) in
        if (length nested =? 0)%nat then ret tasks
        else
          let! nested_task := construct_task (clause ++ nested) in
          match nested_task with
          | None => ret tasks
          | Some t =>
              let t := mk_task (constraints_ t) (comparisons_ t) (consmetas_ t) (inputs_ t)
                (shapes_ t) (atoi_info_ t) (max_const_num_ t) (cmap_ t) (scratch_args t)
                (stopped t) (attempts t) (solved t) (solution t) (Some tid) (skip_next t) in
              let! nid := save_task t in
              ret (tasks ++ [nid])
          end
      else ret tasks
  end.

Fixpoint parse_clauses (clauses : list (list AstNode)) (tasks : list Z) : M parser (list Z) :=
  match clauses with
  | [] => ret tasks
  | c :: clauses' => let! tasks := parse_clause c tasks in parse_clauses clauses' tasks
  end.

(** "update union find": merge every position with the ones before it. *)
Fixpoint merge_positions (root : nat) (l : list nat) (u : UnionFind)
    : res (option nat * UnionFind) :=
  match l with
  | [] => Ok (Some root, u)
  | i :: l' =>
      let? (r, u) := uf_merge root i u in
      match r with
      | Some root => merge_positions root l' u
      | None => Ok (None, u)
      end
  end.

(** Associate one comparison of a taken branch with its input bytes; [false] on
    an invalid position. *)
Definition save_var (root_ast : Ast) (var : ref) : M parser bool :=
  (* copy the node, as the original node will be gone after return *)
  let! nd := lift (clone 32 root_ast var) in
  let l := label (a_root nd) in
  let! d := clause_deps l in
  let! p := gets id in
  match positions p d with
  | [] => ret true
  | first :: rest =>
      let! r := lift (merge_positions first rest (data_flow_deps p)) in
      modify (fun p => set_deps (snd r) (input_to_branches p) p) ;;;
      match fst r with
      | None => ret false
      | Some root =>
          let! bucket := lift (idx (input_to_branches p !! root)) in
          modify (fun p => set_deps (data_flow_deps p)
            (<[root := bucket ++ [nd]]> (input_to_branches p)) p) ;;;
          ret true
      end
  end.

Fixpoint save_vars (root_ast : Ast) (vars : list ref) : M parser bool :=
  match vars with
  | [] => ret true
  | v :: vars' =>
      let! ok := save_var root_ast v in
      if (ok : bool) then save_vars root_ast vars' else ret false
  end.

Definition save_constraint (expr : Ast) (result : bool) : M parser bool :=
  let! c := lift (cond_clauses result expr) in
  match c with
  | None => ret false
  | Some (root_ast, dnf) => save_vars root_ast (concat dnf)
  end.

(** The result, and the ids of the tasks added to [tasks]. *)
Definition parse_cond (label : Z) (result add_nested : bool) (tasks : list Z)
    : M parser (Z * list Z) :=
  let! orig_root := get_root_expr label in
  match orig_root with
  | None => ret (-1, tasks)
  | Some orig_root =>
      if bool_decide (kind (a_root orig_root) = rgd.Bool) then ret (0, tasks)
      else
        let! c := lift (cond_clauses (negb result) orig_root) in
        match c with
        | None => ret (-1, tasks)
        | Some (root_ast, dnf) =>
            let! tasks := parse_clauses (clause_nodes root_ast <$> dnf) tasks in
            let! p := gets id in
            (if solve_nested_ p && add_nested
             then let! _ := save_constraint orig_root result in ret tt
             else ret tt) ;;;
            ret (0, tasks)
        end
  end.

(** Constraints of symbolic offsets. *)
Definition add_constraints (label result : Z) : M parser Z :=
  let! p := gets id in
  if negb (solve_nested_ p) then ret 0
  else if negb (valid_label p label) then ret (-1)
  else if negb (result =? 1) then ret (-1)
  else match root_expr_cache p !! label with
       | Some _ => ret 0
       | None =>
           let! ok := scan_labels label in
           if negb ok then ret (-1) else
           let! p := gets id in
           let! nested := lift (idx (nested_cmp_cache p !! Z.to_nat label)) in
           if 0 <? nested then ret (-1) else
           let! info := lift (label_info p label) in
           if negb (is_rel_cmp (i_op info) bveq) then ret (-1)
           else if negb (i_l1 info =? 0) then ret (-1)
           else
             let! size := lift (idx (ast_size_cache p !! Z.to_nat (i_l2 info))) in
             if max_ast_size_ p <? size then ret 0
             else
               let root := mk_ast (set_label label (set_kind rgd.Equal (set_bits 1 fresh_node)))
                             [fresh_node] 2 in
               modify (fun p => set_root_expr_cache
                 (<[label := root]> (root_expr_cache p)) p) ;;;
               let! saved := save_constraint root true in
               ret (if saved then 0 else -1)
       end.

(** The tree of an index compared with a constant, for enumeration. *)
Definition gep_constraint (p : parser) (index_label ast_size : Z) : M uta bool :=
  let! const_node := on_ast (add_children Root) in
  let! const_node := lift (idx const_node) in
  upd_node const_node (set_kind rgd.Constant) ;;;
  upd_node const_node (set_label 0) ;;;
  let! info := lift (label_info p index_label) in
  let size := i_size info in
  upd_node const_node (set_bits size) ;;;
  upd_node const_node (set_index 0) ;;;
  add_const 0 ;;;
  let h1 := xxhash size (rgd.num rgd.Constant) 0 in
  upd_node const_node (set_hash h1) ;;;
  let! index_node := on_ast (add_children Root) in
  let! index_node := lift (idx index_node) in
  let! ok := do_uta_rel p (uta_fuel index_label) index_label index_node in
  if negb ok then ret false else
  upd_node Root (set_kind rgd.Equal) ;;;
  upd_node Root (set_label 0) ;;;
  upd_node Root (set_bits 1) ;;;
  let! h2 := node_hash index_node in
  upd_node Root (set_hash (xxhash h1 (Z.lor (Z.shiftl (rgd.num rgd.Bool) 16) 1) h2)) ;;;
  ret true.

(** Index enumeration is not implemented: a successful call only fills the
    caches. *)
Definition parse_gep (ptr_label index_label num_elems : Z) (enum_index : bool)
    : M parser Z :=
  let! p := gets id in
  if negb (valid_label p index_label) then ret (-1)
  else
    let! ok := scan_labels index_label in
    if negb ok then ret (-1) else
    let! p := gets id in
    if Z.of_nat (length (ast_size_cache p)) <=? index_label then ret (-1) else
    let! nested := lift (at_ (nested_cmp_cache p !! Z.to_nat index_label)) in
    if 0 <? nested then ret (-1) else
    let! ast_size := lift (at_ (ast_size_cache p !! Z.to_nat index_label)) in
    if ast_size =? 0 then ret 0
    else if max_ast_size_ p <? ast_size then ret 0
    else if negb enum_index || ((num_elems =? 0) && negb (ptr_label =? 0)) then ret 0
    else
      let! ok :=
        match constraint_cache p !! index_label with
        | Some _ => ret true
        | None =>
            match gep_constraint p index_label ast_size
                    (mk_uta (new_constraint (ast_size + 3)) ∅) with
            | (Ok true, u) =>
                modify (fun p => set_constraint_cache
                  (<[index_label := u_cons u]> (constraint_cache p)) p) ;;;
                ret true
            | (Ok false, _) => ret false
            | (Err OutOfRange, _) => ret false
            | (Err e, _) => throw e
            end
        end in
      if negb ok then ret (-1)
      else if solve_nested_ p then
        let! d := lift (idx (branch_to_inputs p !! Z.to_nat index_label)) in
        let! related := lift (related_inputs (positions p d) ∅ (data_flow_deps p)) in
        let! _ := lift (collect_inputs p (unordered related) ∅) in
        ret 0
      else ret 0.

End handlers.
End parser.
