(* ===== verification/ScanSpec.v ===== *)
(** * What the parser's label scan computes

    [scan_labels] fills three tables in one linear pass: the number of syntax
    tree nodes of a label, the number of comparisons in it, and the input bytes
    it reads. Here the three are folds over the expression a label stands for,
    and the pass is shown to compute them and to be sound for the meaning of
    labels. *)

From S2P Require Import Prelude Dfsan Runtime LabelSem UnionFind Ast Task Parser.
Local Open Scope prog_scope.

(** ** Folds over labels *)

Section fold.
Context {LLVM : InstructionDef} {A : Type}.
Context (leaf : A) (read : dfsan_label_info -> A) (op : dfsan_label_info -> A -> A -> A).
Context (t : gmap Z dfsan_label_info).

Definition fold_info (rec : Z -> A) (i : dfsan_label_info) : A :=
  if (i_op i =? 0) || (i_op i =? Load) then read i
  else op i (rec (i_l1 i)) (rec (i_l2 i)).

Fixpoint fold_fuel (fuel : nat) (l : Z) : A :=
  match fuel with
  | O => leaf
  | S n => if l =? 0 then leaf else fold_info (fold_fuel n) (info_at t l)
  end.

(** Label 0 is a [leaf]; operands have smaller labels, so [l] is fuel enough. *)
Definition fold_label (l : Z) : A := fold_fuel (S (Z.to_nat l)) l.

Lemma fold_fuel_stable last : dag t last ->
  forall n m l, 0 <= l <= last -> (Z.to_nat l < n)%nat -> (Z.to_nat l < m)%nat ->
  fold_fuel n l = fold_fuel m l.
Proof.
  intros Hd. induction n as [|n IH]; intros m l Hl Hn Hm; [lia|].
  destruct m as [|m]; [lia|]. simpl. destruct (Z.eqb_spec l 0) as [|Hl0]; [done|].
  unfold fold_info. destruct (_ || _); [done|]. destruct (Hd l ltac:(lia)).
  f_equal; apply IH; lia.
Qed.

Lemma fold_label_unfold last l : dag t last -> 1 <= l <= last ->
  fold_label l = fold_info fold_label (info_at t l).
Proof.
  intros Hd Hl. unfold fold_label at 1. simpl.
  rewrite (proj2 (Z.eqb_neq l 0)) by lia. unfold fold_info.
  destruct (_ || _); [done|]. destruct (Hd l Hl).
  f_equal; (eapply fold_fuel_stable; [done|lia..]).
Qed.

Lemma fold_label_prop (P : A -> Prop) : P leaf -> (forall i, P (read i)) ->
  (forall i a b, P a -> P b -> P (op i a b)) -> forall l, P (fold_label l).
Proof.
  intros Hl Hr Ho l. unfold fold_label. generalize (S (Z.to_nat l)) as n. intros n.
  revert l. induction n as [|n IH]; intros l; simpl; [done|].
  unfold fold_info. repeat case_match; auto.
Qed.

Lemma fold_label_0 : fold_label 0 = leaf.
Proof. done. Qed.

End fold.

Section scan.
Context {LLVM : InstructionDef}.

(** Nodes of the tree of a label; a constant is one node. *)
Definition nodes : gmap Z dfsan_label_info -> Z -> Z :=
  fold_label 1 (fun _ => 1) (fun _ a b => a + b + 1).

(** Comparisons in it. *)
Definition comparisons : gmap Z dfsan_label_info -> Z -> Z :=
  fold_label 0 (fun _ => 0) (fun i a b => a + b + Z.b2z (is_cmp_op (i_op i))).

(** The first byte a read reads, with its input, and how many it reads. *)
Definition read_source (t : gmap Z dfsan_label_info) (i : dfsan_label_info)
    : dfsan_label_info :=
  if i_op i =? 0 then i else info_at t (i_l1 i).
Definition read_input t i : Z := u32 (i_op2 (read_source t i)).
Definition read_offset t i : Z := u32 (i_op1 (read_source t i)).
Definition read_count (i : dfsan_label_info) : Z := if i_op i =? 0 then 1 else i_l2 i.

(** Positions, in the concatenation of all inputs, of the bytes it reads. *)
Definition bytes_read (p : parser) : gmap Z dfsan_label_info -> Z -> gset nat :=
  fun t => fold_label ∅
    (fun i => list_to_set (seq (input_to_dep_idx p (read_input t i) (read_offset t i))
                             (Z.to_nat (read_count i))))
    (fun _ a b => a ∪ b) t.

(** The parser's caches filled for the labels below [n]. *)
Definition scan_state (p : parser) (n : nat) : parser :=
  set_scan ((fun l => u32 (nodes (base_ p) (Z.of_nat l))) <$> seq 0 n)
    ((fun l => u8 (comparisons (base_ p) (Z.of_nat l))) <$> seq 0 n)
    ((fun l => bytes_read p (base_ p) (Z.of_nat l)) <$> seq 0 n) p.

(** Labels up to [last] are in the table, operands come first, and reads stay
    inside the inputs. *)
Definition scannable (p : parser) (last : Z) : Prop :=
  dag (base_ p) last /\ last < size_ p /\
  forall l, 1 <= l <= last ->
    let i := info_at (base_ p) l in
    i_op i = 0 \/ i_op i = Load ->
    exists buf, inputs_cache p !! Z.to_nat (read_input (base_ p) i) = Some buf /\
      read_offset (base_ p) i + read_count i <= Z.of_nat (length buf) < 2 ^ 32.

Definition deps_wf (p : parser) : Prop :=
  input_size_ p = sum_list (length <$> inputs_cache p).

(** ** The pass *)

Lemma sum_take_lookup (ins : list (list Z)) i buf : ins !! i = Some buf ->
  (sum_list (length <$> take i ins) + length buf <= sum_list (length <$> ins))%nat.
Proof.
  intros H. rewrite <- (take_drop_middle ins i buf H) at 2.
  rewrite fmap_app, sum_list_with_app || rewrite fmap_app.
  induction (take i ins) as [|x l IH]; simpl; lia.
Qed.

Lemma scan_state_0 p : ast_size_cache p = [] -> nested_cmp_cache p = [] ->
  branch_to_inputs p = [] -> scan_state p 0 = p.
Proof. destruct p. simpl. by intros -> -> ->. Qed.

Lemma tabulate_lookup {A} (f : nat -> A) n l : (l < n)%nat -> (f <$> seq 0 n) !! l = Some (f l).
Proof. intros H. by rewrite list_lookup_fmap, lookup_seq_lt by lia. Qed.

Lemma tabulate_S {A} (f : nat -> A) n : f <$> seq 0 (S n) = (f <$> seq 0 n) ++ [f n].
Proof. by rewrite seq_S, fmap_app. Qed.

Lemma insert_last {A} (l : list A) (x y : A) n : n = length l -> <[n := y]> (l ++ [x]) = l ++ [y].
Proof. intros ->. by rewrite insert_app_r_alt, Nat.sub_diag by lia. Qed.

Lemma lookup_last {A} (l : list A) (x : A) n : n = length l -> (l ++ [x]) !! n = Some x.
Proof. intros ->. rewrite lookup_app_r, Nat.sub_diag by lia. done. Qed.

(** [add_deps] on the entry pushed last. *)
Lemma add_deps_last i d p S N D e : length D = i ->
  add_deps i d (set_scan S N (D ++ [e]) p) = (Ok tt, set_scan S N (D ++ [e ∪ d]) p).
Proof.
  intros HD. unfold add_deps, bind, gets, lift, modify. simpl.
  rewrite lookup_last by done. simpl. unfold set_branch_to_inputs. simpl.
  by rewrite insert_last.
Qed.

Lemma scan_read_run p S N D i id off n bad buf : length D = i -> 0 <= id ->
  inputs_cache p !! Z.to_nat id = Some buf -> bad (Z.of_nat (length buf)) = false ->
  (input_to_dep_idx p id off + Z.to_nat n <= input_size_ p)%nat ->
  scan_read i id off n bad (set_scan S N D p) =
    (Ok true, set_scan (S ++ [1]) (N ++ [0])
       (D ++ [list_to_set (seq (input_to_dep_idx p id off) (Z.to_nat n))]) p).
Proof.
  intros HD Hid Hbuf Hbad Hpos. apply lookup_lt_Some in Hbuf as Hlt.
  unfold scan_read, push_size, push_deps, push_nested.
  cbv [bind gets modify lift]. simpl.
  rewrite (proj2 (Z.leb_gt _ _)) by lia. rewrite Hbuf. simpl. rewrite Hbad.
  unfold set_bits_from. simpl. unfold input_to_dep_idx in *. simpl.
  rewrite (proj2 (Nat.leb_le _ _)) by lia. rewrite orb_true_r.
  unfold set_branch_to_inputs. simpl. rewrite add_deps_last by done.
  rewrite union_empty_l_L. reflexivity.
Qed.

Lemma label_info_ok {S} p l (s : S) : l < size_ p ->
  lift (label_info p l) s = (Ok (info_at (base_ p) l), s).
Proof. intros H. unfold lift, label_info. by rewrite (proj2 (Z.leb_gt _ _)). Qed.

Lemma scan_state_info {S} p n l (s : S) : l < size_ p ->
  lift (label_info (scan_state p n) l) s = (Ok (info_at (base_ p) l), s).
Proof. apply (label_info_ok (scan_state p n)). Qed.

(** An entry of a cache for an operand; label 0 is the leaf. *)
Lemma operand_entry {A} (f : Z -> A) (leaf : A) n l : f 0 = leaf -> 0 <= l < Z.of_nat n ->
  (if l =? 0 then Ok leaf else idx (((fun k => f (Z.of_nat k)) <$> seq 0 n) !! Z.to_nat l))
  = Ok (f l).
Proof.
  intros H0 Hl. destruct (Z.eqb_spec l 0) as [->|]; [by rewrite H0|].
  rewrite tabulate_lookup by lia. by rewrite Z2Nat.id by lia.
Qed.

Lemma operand_deps p S N (f : Z -> gset nat) e n l : f 0 = ∅ -> 0 <= l < Z.of_nat n ->
  let s := set_scan S N (((fun k => f (Z.of_nat k)) <$> seq 0 n) ++ [e]) p in
  (if l =? 0 then ret ∅
   else let! q := gets branch_to_inputs in lift (idx (q !! Z.to_nat l))) s = (Ok (f l), s).
Proof.
  intros H0 Hl s. destruct (Z.eqb_spec l 0) as [->|]; [by rewrite H0|].
  erewrite bind_eq by reflexivity. unfold lift, s. cbn [branch_to_inputs set_scan].
  rewrite lookup_app_l by (rewrite length_fmap, length_seq; lia).
  rewrite tabulate_lookup by lia. by rewrite Z2Nat.id by lia.
Qed.

Lemma wrap_add2 w a b c : 0 <= w -> wrap w (wrap w a + wrap w b + c) = wrap w (a + b + c).
Proof.
  intros Hw. unfold wrap. pose proof (pow2_pos w Hw).
  rewrite <- (Zplus_mod_idemp_l (_ + _) c), <- Zplus_mod, Zplus_mod_idemp_l. done.
Qed.

Lemma scan_label_run p n last : scannable p last -> deps_wf p -> Z.of_nat n <= last ->
  scan_label (Z.of_nat n) (scan_state p n) = (Ok true, scan_state p (S n)).
Proof.
  intros (Hd & Hlast & Hreads) Hwf Hn.
  assert (forall (f : nat -> Z), length (f <$> seq 0 n) = n) as Hlen.
  { intros. by rewrite length_fmap, length_seq. }
  assert (forall (f : nat -> gset nat), length (f <$> seq 0 n) = n) as HlenD.
  { intros. by rewrite length_fmap, length_seq. }
  unfold scan_label. destruct (Z.eqb_spec (Z.of_nat n) 0) as [E|E].
  { assert (n = O) as -> by lia. reflexivity. }
  set (i := info_at (base_ p) (Z.of_nat n)).
  destruct (Hd (Z.of_nat n) ltac:(lia)) as [H1 H2]. fold i in H1, H2.
  specialize (Hreads (Z.of_nat n) ltac:(lia)). simpl in Hreads. fold i in Hreads.
  unfold scan_state at 2. rewrite !tabulate_S.
  unfold nodes at 2, comparisons at 2, bytes_read at 2.
  rewrite !(fold_label_unfold _ _ _ (base_ p) last (Z.of_nat n)) by (done || lia).
  fold i. unfold fold_info.
  erewrite bind_eq by reflexivity. erewrite bind_eq by (apply scan_state_info; lia).
  fold i. unfold id. change (size_ (scan_state p n)) with (size_ p).
  rewrite !(proj2 (Z.leb_gt _ _)) by lia. cbn [orb].
  rewrite !Nat2Z.id.
  destruct (Z.eqb_spec (i_op i) 0) as [E0|E0].
  { destruct (Hreads (or_introl E0)) as (buf & Hbuf & Hoff).
    unfold read_input, read_offset, read_count, read_source in *. rewrite E0 in *. simpl in *.
    pose proof (sum_take_lookup _ _ _ Hbuf). pose proof (wrap_bound 32 (i_op1 i) ltac:(lia)) as Ho.
    unfold is_u in Ho. unfold scan_state. erewrite scan_read_run; [reflexivity|done| |done| |].
    - by apply wrap_bound.
    - apply Z.leb_gt. lia.
    - unfold input_to_dep_idx. rewrite Hwf. lia. }
  destruct (Z.eqb_spec (i_op i) Load) as [EL|EL].
  { destruct (Hreads (or_intror EL)) as (buf & Hbuf & Hoff).
    erewrite bind_eq by (apply scan_state_info; lia).
    unfold read_input, read_offset, read_count, read_source in *.
    rewrite (proj2 (Z.eqb_neq _ _) E0) in *.
    set (src := info_at (base_ p) (i_l1 i)) in *.
    pose proof (sum_take_lookup _ _ _ Hbuf). pose proof (wrap_bound 32 (i_op1 src) ltac:(lia)) as Ho.
    unfold is_u in Ho. unfold scan_state. erewrite scan_read_run; [reflexivity|done| |done| |].
    - by apply wrap_bound.
    - apply Z.ltb_ge. rewrite wrap_small; [lia|]. unfold is_u. lia.
    - unfold input_to_dep_idx. rewrite Hwf. lia. }
  cbn [orb].
  change (ast_size_cache (scan_state p n))
    with ((fun k => u32 (nodes (base_ p) (Z.of_nat k))) <$> seq 0 n).
  change (nested_cmp_cache (scan_state p n))
    with ((fun k => u8 (comparisons (base_ p) (Z.of_nat k))) <$> seq 0 n).
  rewrite !(operand_entry (fun k => u32 (nodes (base_ p) k)) 1) by (done || lia).
  rewrite !(operand_entry (fun k => u8 (comparisons (base_ p) k)) 0) by (done || lia).
  do 4 (erewrite bind_eq by reflexivity).
  match goal with |- bind _ _ ?s = _ =>
    change s with (set_scan (((fun l => u32 (nodes (base_ p) (Z.of_nat l))) <$> seq 0 n) ++
       [u32 (u32 (nodes (base_ p) (i_l1 i)) + u32 (nodes (base_ p) (i_l2 i)) + 1)])
      ((fun l => u8 (comparisons (base_ p) (Z.of_nat l))) <$> seq 0 n)
      (((fun l => bytes_read p (base_ p) (Z.of_nat l)) <$> seq 0 n) ++ [∅]) p) end.
  erewrite bind_eq by (apply (operand_deps _ _ _ (bytes_read p (base_ p))); [done|lia]).
  erewrite bind_eq by (apply add_deps_last, HlenD).
  erewrite bind_eq by (apply (operand_deps _ _ _ (bytes_read p (base_ p))); [done|lia]).
  erewrite bind_eq by (apply add_deps_last, HlenD).
  do 3 (erewrite bind_eq by reflexivity).
  rewrite union_empty_l_L, !wrap_add2 by lia. unfold ret, set_nested_cmp_cache, Z.b2z. reflexivity.
Qed.

Lemma scan_loop_run p last k : scannable p last -> deps_wf p ->
  forall n, Z.of_nat (n + k) <= last + 1 ->
  scan_loop (Z.of_nat n) k (scan_state p n) = (Ok true, scan_state p (n + k)).
Proof.
  intros Hs Hwf. induction k as [|k IH]; intros n Hn; simpl.
  { by rewrite Nat.add_0_r. }
  erewrite bind_eq by (eapply scan_label_run; [done|done|lia]).
  replace (Z.of_nat n + 1) with (Z.of_nat (S n)) by lia.
  rewrite IH by lia. by rewrite Nat.add_succ_comm.
Qed.

Lemma scan_labels_run p label n : scannable p label -> deps_wf p -> 0 <= label ->
  scan_labels label (scan_state p n) =
    (Ok true, scan_state p (n `max` S (Z.to_nat label))).
Proof.
  intros Hs Hwf Hl. unfold scan_labels. erewrite bind_eq by reflexivity.
  cbn [ast_size_cache scan_state set_scan]. rewrite length_fmap, length_seq.
  destruct (Z.lt_ge_cases label (Z.of_nat n)) as [Hlt|Hge].
  - replace (Z.to_nat _) with O by lia. rewrite Nat.max_l by lia. reflexivity.
  - rewrite (scan_loop_run p label) by (done || lia). do 2 f_equal. lia.
Qed.

(** ** Dependencies are sound *)

Lemma le_bytes_ext env1 env2 n : forall off,
  (forall k, off <= k < off + Z.of_nat n -> env1 k mod 256 = env2 k mod 256) ->
  le_bytes env1 off n = le_bytes env2 off n.
Proof.
  induction n as [|n IH]; intros off H; simpl; [done|].
  rewrite (IH (off + 1)) by (intros; apply H; lia). by rewrite H by lia.
Qed.

(** The offsets recorded for input bytes fit the 32 bits the parser keeps. *)
Definition small_offsets (t : gmap Z dfsan_label_info) (last : Z) : Prop :=
  forall l, 1 <= l <= last -> i_op (info_at t l) = 0 \/ i_op (info_at t l) = Load ->
    is_u 32 (i_op1 (read_source t (info_at t l))).

Lemma bytes_read_sound p buf last env1 env2 : inputs_cache p = [buf] ->
  scannable p last -> small_offsets (base_ p) last ->
  forall l, 1 <= l <= last ->
  (forall k, k ∈ bytes_read p (base_ p) l ->
    env1 (Z.of_nat k) mod 256 = env2 (Z.of_nat k) mod 256) ->
  eval (base_ p) env1 l = eval (base_ p) env2 l.
Proof.
  intros Hin (Hd & Hlast & Hreads) Hsmall l.
  induction l as [l IH] using (well_founded_induction (Z.lt_wf 0)). intros Hl Hk.
  rewrite !(eval_unfold (base_ p) _ last) by done. specialize (Hreads l Hl).
  specialize (Hsmall l Hl). simpl in Hreads. destruct (Hd l Hl) as [H1 H2].
  unfold bytes_read in Hk.
  rewrite (fold_label_unfold _ _ _ _ last l) in Hk by done. unfold fold_info in Hk.
  set (i := info_at (base_ p) l) in *.
  unfold info_value. destruct (decide (i_op i = 0 \/ i_op i = Load)) as [Hr|Hr].
  - destruct (Hreads Hr) as (b & Hb & Ho). specialize (Hsmall Hr).
    replace ((i_op i =? 0) || (i_op i =? Load)) with true in Hk
      by (destruct Hr as [-> | ->]; rewrite ?Z.eqb_refl, ?orb_true_r; done).
    rewrite Hin in Hb.
    assert (Z.to_nat (read_input (base_ p) i) = 0)%nat as E0.
    { destruct (Z.to_nat _); [done|]. simpl in Hb. by destruct n. }
    unfold input_to_dep_idx in Hk. rewrite E0 in Hk. simpl in Hk.
    unfold read_offset in Hk, Ho. rewrite wrap_small in Hk, Ho by done.
    assert (forall k, i_op1 (read_source (base_ p) i) <= k <
      i_op1 (read_source (base_ p) i) + read_count i -> env1 k mod 256 = env2 k mod 256) as He.
    { intros k Hkk. unfold is_u in Hsmall. specialize (Hk (Z.to_nat k)).
      rewrite Z2Nat.id in Hk by lia. apply Hk, elem_of_list_to_set, elem_of_seq. lia. }
    unfold read_source, read_count in He. destruct (Z.eqb_spec (i_op i) 0) as [E|E].
    + apply He. lia.
    + destruct Hr as [Hr|Hr]; [contradiction|]. rewrite Hr, Z.eqb_refl.
      apply le_bytes_ext. intros k Hkk. apply He. lia.
  - assert (i_op i <> 0 /\ i_op i <> Load) as [Hn0 HnL] by tauto.
    rewrite (proj2 (Z.eqb_neq _ _) Hn0), (proj2 (Z.eqb_neq _ _) HnL) in *. cbn [orb] in Hk.
    assert (forall k, 0 <= k < l -> k <> 0 ->
      (forall j, j ∈ bytes_read p (base_ p) k ->
         j ∈ bytes_read p (base_ p) (i_l1 i) ∪ bytes_read p (base_ p) (i_l2 i)) ->
      eval (base_ p) env1 k = eval (base_ p) env2 k) as He.
    { intros k Hk0 Hkn Hin'. apply IH; [lia|lia|]. intros j Hj. apply Hk, Hin', Hj. }
    assert (operand1 (base_ p) (eval (base_ p) env1) i =
            operand1 (base_ p) (eval (base_ p) env2) i) as ->.
    { unfold operand1. destruct (Z.eqb_spec (i_l1 i) 0) as [|Hn]; [reflexivity|].
      apply He; [lia|exact Hn|]. intros j Hj. by apply elem_of_union_l. }
    assert (operand2 (base_ p) (eval (base_ p) env1) i =
            operand2 (base_ p) (eval (base_ p) env2) i) as ->.
    { unfold operand2. destruct (Z.eqb_spec (i_l2 i) 0) as [|Hn]; [reflexivity|].
      apply He; [lia|exact Hn|]. intros j Hj. by apply elem_of_union_r. }
    reflexivity.
Qed.

(** ** Constraints of symbolic offsets *)

Lemma comparisons_nonneg t l : 0 <= comparisons t l.
Proof.
  apply (fold_label_prop _ _ _ _ (fun x => 0 <= x)); [lia|intros; lia|]. intros i a b ? ?. destruct (is_cmp_op _); simpl; lia.
Qed.

(** A label without comparisons is not a comparison. *)
Lemma comparisons_0 t last l pred : dag t last -> 1 <= l <= last -> comparisons t l = 0 ->
  is_rel_cmp (i_op (info_at t l)) pred = false.
Proof.
  intros Hd Hl H0. unfold comparisons in H0.
  rewrite (fold_label_unfold _ _ _ _ last l) in H0 by done. unfold fold_info in H0.
  set (i := info_at t l) in *. unfold is_rel_cmp. apply andb_false_iff. left.
  destruct (Z.eqb_spec (Z.land (i_op i) 0xff) ICmp) as [E|]; [exfalso|done].
  destruct (icmp_not_arith (i_op i)) as (Hn0 & HnL & _).
  { unfold is_icmp. by apply Z.eqb_eq. }
  rewrite (proj2 (Z.eqb_neq _ _) Hn0), (proj2 (Z.eqb_neq _ _) HnL) in H0. simpl in H0.
  unfold is_cmp_op in H0. rewrite E, Z.eqb_refl, orb_true_r in H0. simpl in H0.
  pose proof (comparisons_nonneg t (i_l1 i)). pose proof (comparisons_nonneg t (i_l2 i)).
  unfold comparisons, is_cmp_op in *. lia.
Qed.

Lemma add_constraints_run p n label : scannable p label -> deps_wf p ->
  solve_nested_ p = true -> valid_label p label = true -> root_expr_cache p !! label = None ->
  comparisons (base_ p) label < 256 ->
  add_constraints label 1 (scan_state p n) =
    (Ok (-1), scan_state p (n `max` S (Z.to_nat label))).
Proof.
  intros Hs Hwf Hn Hv Hc H256. assert (1 <= label) as Hl.
  { unfold valid_label in Hv. bool_hyps. unfold CONST_OFFSET in *. lia. }
  pose proof (comparisons_nonneg (base_ p) label) as H0.
  pose proof (scan_labels_run p label n Hs Hwf ltac:(lia)) as Hrun.
  set (m := (n `max` S (Z.to_nat label))%nat) in *.
  assert (Z.to_nat label < m)%nat as Hm by lia.
  unfold add_constraints. erewrite bind_eq by reflexivity. unfold id.
  change (solve_nested_ (scan_state p n)) with (solve_nested_ p).
  change (valid_label (scan_state p n) label) with (valid_label p label).
  change (root_expr_cache (scan_state p n)) with (root_expr_cache p).
  rewrite Hn, Hv, Hc. cbn [negb]. rewrite Z.eqb_refl. cbn [negb].
  erewrite bind_eq by exact Hrun. cbn [negb]. erewrite bind_eq by reflexivity.
  change (nested_cmp_cache (scan_state p m))
    with ((fun k => u8 (comparisons (base_ p) (Z.of_nat k))) <$> seq 0 m).
  rewrite tabulate_lookup, Z2Nat.id by lia. erewrite bind_eq by reflexivity.
  rewrite wrap_small by (unfold is_u; lia).
  destruct (Z.ltb_spec 0 (comparisons (base_ p) label)) as [|Hle]; [reflexivity|].
  destruct Hs as (Hd & Hlast & _). erewrite bind_eq by (apply scan_state_info; lia).
  rewrite (comparisons_0 _ label) by (done || lia). reflexivity.
Qed.

End scan.

(** ** The theorems *)

(** C13: after [restart], scanning labels fills the caches for exactly the
    labels up to the largest one asked for, with the size of each label's syntax
    tree (modulo 2^32), the number of comparisons in it (modulo 256) and the
    positions of the input bytes it reads; it never fails on a table whose
    operands precede their users and whose reads are inside the inputs, and it
    changes nothing else. *)
Theorem scan_labels_correct {LLVM : InstructionDef} p0 inputs n label :
  let p := snd (restart inputs p0) in
  scannable p label -> 0 <= label ->
  scan_state p 0 = p /\
  scan_labels label (scan_state p n) =
    (Ok true, scan_state p (n `max` S (Z.to_nat label))).
Proof.
  intros p Hs Hl. split; [by apply scan_state_0|]. by apply scan_labels_run.
Qed.

(** C14: the input dependencies recorded by a scan are sound: two inputs that
    agree on the bytes recorded for a label give the label the same value. *)
Theorem scan_deps_sound {LLVM : InstructionDef} p0 buf last p' l d env1 env2 :
  let p := snd (restart [buf] p0) in
  scannable p last -> small_offsets (base_ p) last ->
  scan_labels last p = (Ok true, p') -> 1 <= l <= last ->
  branch_to_inputs p' !! Z.to_nat l = Some d ->
  (forall k, k ∈ d -> env1 (Z.of_nat k) mod 256 = env2 (Z.of_nat k) mod 256) ->
  eval (base_ p) env1 l = eval (base_ p) env2 l.
Proof.
  intros p Hs Hsm Hrun Hl Hd Henv. rewrite <- (scan_state_0 p) in Hrun by done.
  rewrite scan_labels_run in Hrun by (done || lia). injection Hrun as <-.
  cbn [branch_to_inputs scan_state set_scan] in Hd.
  rewrite tabulate_lookup in Hd by lia. injection Hd as <-. rewrite Z2Nat.id in Henv by lia.
  by eapply bytes_read_sound.
Qed.

(** [add_constraints] never adds the constraint of a symbolic offset. A
    comparison counts itself among its nested comparisons, so the test for
    nested comparisons rejects every label that the test for an equality would
    accept; the call returns -1 and only fills the scan caches. *)
Theorem add_constraints_never_adds {LLVM : InstructionDef} p0 inputs n label :
  let p := snd (restart inputs p0) in
  scannable p label -> solve_nested_ p = true -> valid_label p label = true ->
  comparisons (base_ p) label < 256 ->
  add_constraints label 1 (scan_state p n) =
    (Ok (-1), scan_state p (n `max` S (Z.to_nat label))).
Proof. intros p Hs Hn Hv Hc. by apply add_constraints_run. Qed.

(** ** A small table: two input bytes, their sum, and a comparison of it *)

#[local] Existing Instance llvm14.

Definition sample_infos : gmap Z dfsan_label_info :=
  <[1 := mk_info 0 0 0 0 0 8 0]> (<[2 := mk_info 0 0 1 0 0 8 0]>
  (<[3 := mk_info 1 2 0 0 Add 8 0]> (<[4 := mk_info 0 3 7 0 (icmp bveq) 8 0]> ∅))).

Definition sample_parser : parser :=
  snd (restart [[3; 4]] (new_parser sample_infos (32 * 5) true 200)).

Ltac sample_cases l Hl :=
  assert (l = 1 \/ l = 2 \/ l = 3 \/ l = 4) as [-> | [-> | [-> | ->]]] by lia; clear Hl.

Lemma sample_scannable : scannable sample_parser 4.
Proof.
  split; [|split; [done|]].
  - intros l Hl. sample_cases l Hl; vm_compute; intuition congruence.
  - intros l Hl i Hop. exists [3; 4]. subst i.
    sample_cases l Hl; [clear Hop; vm_compute; intuition congruence..| |];
      vm_compute in Hop; destruct Hop; discriminate.
Qed.

Lemma sample_scanned : scan_labels 4 sample_parser = (Ok true, scan_state sample_parser 5).
Proof.
  rewrite <- (scan_state_0 sample_parser) at 1 by reflexivity.
  exact (scan_labels_run sample_parser 4 0 sample_scannable eq_refl ltac:(done)).
Qed.

Lemma scan_labels_correct_witness :
  scan_labels 4 sample_parser = (Ok true, scan_state sample_parser 5).
Proof.
  destruct (scan_labels_correct (new_parser sample_infos (32 * 5) true 200) [[3; 4]] 0 4
    sample_scannable ltac:(done)) as [H0 H]. cbv zeta in H0, H. rewrite H0 in H. exact H.
Defined.

(** The sum of the two bytes reads both of them. *)
Lemma scan_deps_sound_witness :
  eval (base_ sample_parser) (fun k => k) 3 = eval (base_ sample_parser) (fun k => k mod 2) 3.
Proof.
  eapply (scan_deps_sound (new_parser sample_infos (32 * 5) true 200) [3; 4] 4
    (scan_state sample_parser 5) 3 {[0%nat; 1%nat]}).
  - exact sample_scannable.
  - intros l Hl. sample_cases l Hl; vm_compute; intuition congruence.
  - exact sample_scanned.
  - done.
  - vm_compute. reflexivity.
  - intros k Hk. assert (k = 0%nat \/ k = 1%nat) as [-> | ->] by set_solver; reflexivity.
Defined.

Lemma add_constraints_never_adds_witness :
  add_constraints 4 1 sample_parser = (Ok (-1), scan_state sample_parser 5).
Proof.
  rewrite <- (scan_state_0 sample_parser) at 1 by reflexivity.
  apply (add_constraints_never_adds (new_parser sample_infos (32 * 5) true 200) [[3; 4]] 0 4
    sample_scannable); reflexivity.
Defined.
