(* ===== verification/ConsSpec.v ===== *)
(** * Arguments of a constraint

    While the parser builds the tree of a constraint it collects the argument
    array of the compiled function: constants, and input bytes that
    [SearchTask::finalize] fills in. This file has the invariant of that array
    and the effect of [map_arg] on it. *)

From Stdlib Require Import Sorted.
From S2P Require Import Prelude Dfsan Runtime Ast Task TaskSpec Parser.
Local Open Scope prog_scope.

(** ** Sorted maps *)

Lemma sm_find_set {V} k k' (v : V) m :
  sm_find k' (sm_set k v m) = if k' =? k then Some v else sm_find k' m.
Proof.
  induction m as [|[k0 v0] m IH]; simpl; [by destruct (k' =? k)|].
  destruct (Z.eqb_spec k k0) as [->|Hne]; simpl.
  - by destruct (k' =? k0).
  - destruct (k <? k0); simpl; [done|]. destruct (Z.eqb_spec k' k0) as [->|].
    + by rewrite (proj2 (Z.eqb_neq k0 k)).
    + done.
Qed.

Lemma sm_find_elem {V} k (v : V) m : sm_find k m = Some v -> (k, v) ∈ m.
Proof.
  induction m as [|[k0 v0] m IH]; simpl; [done|].
  destruct (Z.eqb_spec k k0) as [->|]; [intros [= ->]; by left|]. right. auto.
Qed.

Lemma sm_set_new {V} k (v : V) m : sm_find k m = None -> sm_set k v m ≡ₚ (k, v) :: m.
Proof.
  induction m as [|[k0 v0] m IH]; simpl; [done|].
  destruct (Z.eqb_spec k k0) as [->|]; [done|]. intros Hm.
  destruct (k <? k0); [done|]. rewrite IH by done. constructor.
Qed.

Lemma sm_set_keys k (v : Z) m x : x ∈ keys (sm_set k v m) -> x = k \/ x ∈ keys m.
Proof.
  induction m as [|[k0 v0] m IH]; simpl.
  - intros H. apply list_elem_of_singleton in H. by left.
  - destruct (Z.eqb_spec k k0) as [->|]; simpl; [rewrite elem_of_cons; tauto|].
    destruct (k <? k0); simpl; rewrite !elem_of_cons; [tauto|].
    intros [->|H]; [tauto|]. destruct (IH H); tauto.
Qed.

Lemma sm_set_sorted k (v : Z) m : StronglySorted Z.lt (keys m) ->
  StronglySorted Z.lt (keys (sm_set k v m)).
Proof.
  induction m as [|[k0 v0] m IH]; simpl; intros Hs; [by repeat constructor|].
  inversion Hs as [|? ? Hs' Hf]; subst.
  destruct (Z.eqb_spec k k0) as [->|Hne]; [by constructor|].
  destruct (Z.ltb_spec k k0); simpl.
  - constructor; [done|]. constructor; [done|]. eapply Forall_impl; [done|].
    intros x Hx. simpl in *. lia.
  - constructor; [auto|]. apply Forall_forall. intros x Hx.
    apply sm_set_keys in Hx as [->|Hx]; [lia|]. rewrite Forall_forall in Hf. auto.
Qed.

(** ** The invariant *)

Section with_buf.
(** The bytes of the input. *)
Context (buf : list Z).

Record args_inv (c : Constraint) : Prop := {
  ai_wf : cons_wf c;
  ai_sym : forall o i, sm_find o (local_map c) = Some i ->
    0 <= i /\ input_args c !! Z.to_nat i = Some (true, 0);
  ai_inputs : forall o v, inputs c !! o = Some v -> 0 <= o /\ buf !! Z.to_nat o = Some v;
  ai_cover : forall i x, input_args c !! i = Some (true, x) ->
    exists o, sm_find o (local_map c) = Some (Z.of_nat i);
  ai_consts : const_num c =
    Z.of_nat (length (filter (fun a => fst a = false) (input_args c)));
  ai_words : Forall (fun a => fst a = false -> is_u 64 (snd a)) (input_args c);
  ai_count : Z.of_nat (length (input_args c)) = Z.of_nat (length (local_map c)) + const_num c
}.

(** [c'] extends the arguments of [c]. *)
Definition args_grow (c c' : Constraint) : Prop :=
  (forall o i, sm_find o (local_map c) = Some i -> sm_find o (local_map c') = Some i) /\
  input_args c `prefix_of` input_args c'.

#[global] Instance args_grow_preorder : PreOrder args_grow.
Proof.
  split.
  - intros c. by split.
  - intros c1 c2 c3 [H1 P1] [H2 P2]. split; [eauto|]. by etrans.
Qed.

Lemma args_inv_set_ast a c : args_inv c -> args_inv (set_ast a c).
Proof. intros [[H1 H2 H3] H4 H5 H6 H7 H8 H9]. split; [split|..]; done. Qed.

(** A new input byte at the end of the arguments. *)
Definition with_input (offset val : Z) (c : Constraint) : Constraint :=
  set_maps (sm_set offset (Z.of_nat (length (input_args c))) (local_map c))
    (input_args c ++ [(true, 0)])
    (match inputs c !! offset with Some _ => inputs c | None => <[offset := val]> (inputs c) end)
    (shapes c) c.

Definition with_shape (offset n : Z) (c : Constraint) : Constraint :=
  set_maps (local_map c) (input_args c) (inputs c) (<[offset := n]> (shapes c)) c.

Lemma with_shape_inv o n c : args_inv c -> args_inv (with_shape o n c).
Proof.
  intros [[H1 H2 H3] H4 H5 H6 H7 H8 H9]. split; [split|..]; try done.
  eapply Forall_impl; [done|]. intros e (Ho & Hi & Hin & Hsh).
  refine (conj Ho (conj Hi (conj Hin _))). simpl. destruct (decide (o = fst e)) as [->|].
  - rewrite lookup_insert_eq. eauto.
  - by rewrite lookup_insert_ne.
Qed.

Lemma with_input_inv o n v c : args_inv c -> sm_find o (local_map c) = None ->
  0 <= o < 2 ^ 32 - 1 -> buf !! Z.to_nat o = Some v ->
  args_inv (with_shape o n (with_input o v c)).
Proof.
  intros [[[Hs Hf] H2 H3] H4 H5 H6 H7 H8 H9] Hnone Ho Hv.
  pose proof (sm_set_new o (Z.of_nat (length (input_args c))) _ Hnone) as Hperm.
  split; [split; [split|..]|..]; simpl.
  - by apply sm_set_sorted.
  - apply Forall_forall. intros x Hx. apply sm_set_keys in Hx as [->|Hx]; [done|].
    rewrite Forall_forall in Hf. auto.
  - rewrite Hperm. constructor.
    + split_and!; simpl; try lia.
      * rewrite length_app. simpl. lia.
      * case_match eqn:E; [eauto|]. rewrite lookup_insert_eq. eauto.
      * rewrite lookup_insert_eq. eauto.
    + eapply Forall_impl; [done|]. intros e (He & (Hi0 & Hi) & Hin & Hsh).
      split_and!; simpl; try lia.
      * rewrite length_app. simpl. lia.
      * case_match; [done|]. destruct (decide (o = fst e)) as [->|];
          rewrite ?lookup_insert_eq; [eauto|]. by rewrite lookup_insert_ne.
      * destruct (decide (o = fst e)) as [->|]; rewrite ?lookup_insert_eq; [eauto|].
        by rewrite lookup_insert_ne.
  - rewrite Hperm. simpl. apply NoDup_cons. split; [|done]. intros Hin.
    apply list_elem_of_fmap in Hin as (e & E & He). rewrite Forall_forall in H2.
    destruct (H2 e He) as (_ & [_ Hlt] & _). simpl in E. lia.
  - intros o' i. rewrite sm_find_set. destruct (Z.eqb_spec o' o) as [->|].
    + intros [= <-]. split; [lia|]. rewrite Nat2Z.id, lookup_app_r, Nat.sub_diag by lia. done.
    + intros Hi. destruct (H4 _ _ Hi) as [? Hl]. split; [done|].
      rewrite lookup_app_l; [done|]. by eapply lookup_lt_Some.
  - intros o' v'. destruct (inputs c !! o) eqn:E; [by apply H5|].
    destruct (decide (o = o')) as [->|]; [rewrite lookup_insert_eq; intros [= <-]; split; [lia|done]|].
    rewrite lookup_insert_ne by done. apply H5.
  - intros i x Hi. destruct (decide (i < length (input_args c))%nat) as [Hlt|Hge].
    + rewrite lookup_app_l in Hi by done. destruct (H6 i x Hi) as [o' Ho'].
      exists o'. rewrite sm_find_set. destruct (Z.eqb_spec o' o) as [->|]; [congruence|done].
    + exists o. rewrite sm_find_set, Z.eqb_refl. do 2 f_equal. apply lookup_lt_Some in Hi.
      rewrite length_app in Hi. simpl in Hi. lia.
  - rewrite filter_app, length_app, H7. simpl. lia.
  - apply Forall_app. split; [done|]. by repeat constructor.
  - rewrite Hperm, length_app. simpl. lia.
Qed.

Lemma with_input_grow o n v c : sm_find o (local_map c) = None ->
  args_grow c (with_shape o n (with_input o v c)).
Proof.
  intros Hnone. split; simpl; [|by apply prefix_app_r].
  intros o' i Hi. rewrite sm_find_set. destruct (Z.eqb_spec o' o) as [->|]; [congruence|done].
Qed.

(** ** [map_arg] *)

(** What mapping the bytes from [lo] to [hi] does; [sh] are their shapes. *)
Record mapped (sh : Z -> Z) (lo hi : Z) (c c' : Constraint) : Prop := {
  mp_inv : args_inv c';
  mp_grow : args_grow c c';
  mp_frame : forall x, ~ lo <= x < hi -> sm_find x (local_map c') = sm_find x (local_map c);
  mp_new : (forall x, lo <= x < hi -> sm_find x (local_map c) = None) ->
    forall x, lo <= x < hi -> sm_find x (local_map c') =
      Some (Z.of_nat (length (input_args c)) + (x - lo));
  mp_len : Z.of_nat (length (input_args c')) <= Z.of_nat (length (input_args c)) + (hi - lo);
  mp_shape : forall x, shapes c' !! x =
    if (lo <=? x) && (x <? hi) then Some (sh x) else shapes c !! x;
  mp_keys : forall x, is_Some (sm_find x (local_map c')) <->
    lo <= x < hi \/ is_Some (sm_find x (local_map c))
}.

Lemma mapped_step sh lo hi c c1 c' : lo < hi -> mapped sh lo (lo + 1) c c1 ->
  mapped sh (lo + 1) hi c1 c' ->
  (sm_find lo (local_map c) = None -> length (input_args c1) = S (length (input_args c))) ->
  mapped sh lo hi c c'.
Proof.
  intros Hlt [I1 G1 F1 N1 L1 S1 K1] [I2 G2 F2 N2 L2 S2 K2] Hlen. split.
  - done.
  - by etrans.
  - intros x Hx. rewrite F2, F1 by lia. done.
  - intros Hnone x Hx. rewrite Hlen in N2 by (apply Hnone; lia).
    destruct (Z.eq_dec x lo) as [->|].
    + rewrite F2 by lia. apply N1; [|lia]. intros y Hy. apply Hnone. lia.
    + rewrite N2; [f_equal; lia| |lia]. intros y Hy. rewrite F1 by lia. apply Hnone. lia.
  - lia.
  - intros x. rewrite S2, S1.
    destruct (Z.leb_spec lo x), (Z.ltb_spec x hi), (Z.leb_spec (lo + 1) x), (Z.ltb_spec x (lo + 1));
      simpl; done || lia.
  - intros x. rewrite K2, K1.
    assert (lo <= x < hi <-> lo <= x < lo + 1 \/ lo + 1 <= x < hi) as -> by lia. tauto.
Qed.

Lemma mapped_nil sh lo c : args_inv c -> mapped sh lo lo c c.
Proof.
  intros Hi. split; [done|done|done|lia|lia| |].
  - intros x. destruct (Z.leb_spec lo x), (Z.ltb_spec x lo); simpl; done || lia.
  - intros x. split; [by right|]. intros [?|?]; [lia|done].
Qed.

(** The first byte of a read has its length as shape, the others 0. *)
Definition read_shape (start len x : Z) : Z := if x =? start then len else 0.

(** The constraint after one byte of a read, whatever shape it gets. *)
Lemma map_byte_run a V offset v c : args_inv c -> 0 <= offset < 2 ^ 32 - 1 -> buf !! Z.to_nat offset = Some v ->
  Z.of_nat (length (input_args c)) + 1 < 2 ^ 32 ->
  exists arg c1, (forall A (f : Z -> M uta A),
      bind (match sm_find offset (local_map c) with
            | Some a => ret a
            | None => let! a := next_arg in add_input offset v a ;;; ret a
            end) f (mk_uta (set_ast a c) V) = f arg (mk_uta (set_ast a c1) V)) /\
      (forall sh, mapped sh offset (offset + 1) c (with_shape offset (sh offset) c1)) /\
      Z.of_nat (length (input_args c1)) <= Z.of_nat (length (input_args c)) + 1 /\
      (sm_find offset (local_map c) = None ->
       length (input_args c1) = S (length (input_args c))) /\
      sm_find offset (local_map c1) = Some arg.
Proof.
  intros Hinv H0 Hv Hargs.
  assert (forall (sh : Z -> Z) (m : gmap Z Z) x, <[offset := sh offset]> m !! x =
    if (offset <=? x) && (x <? offset + 1) then Some (sh x) else m !! x) as Hshape.
  { intros sh m x. destruct (decide (x = offset)) as [->|Hx].
    - rewrite lookup_insert_eq, (proj2 (Z.leb_le _ _)), (proj2 (Z.ltb_lt _ _)) by lia. done.
    - rewrite lookup_insert_ne by done.
      destruct (Z.leb_spec offset x), (Z.ltb_spec x (offset + 1)); simpl; done || lia. }
  destruct (sm_find offset (local_map c)) as [b|] eqn:E.
  - exists b, c. split_and!; [done| |lia|done|done]. intros sh. split.
    + by apply with_shape_inv.
    + by split.
    + done.
    + intros Hn. rewrite Hn in E by lia. done.
    + simpl. lia.
    + apply Hshape.
    + intros x. simpl. split; [by right|]. intros [Hx|]; [|done].
      assert (x = offset) as -> by lia. by rewrite E.
  - exists (Z.of_nat (length (input_args c))), (with_input offset v c). split_and!.
    + intros A f. unfold bind at 1. unfold bind at 1. unfold next_arg, gets at 1. simpl.
      rewrite wrap_small by (unfold is_u; lia). done.
    + intros sh. split.
      * apply with_input_inv; [done|done|lia|done].
      * by apply with_input_grow.
      * intros x Hx. simpl. rewrite sm_find_set. by rewrite (proj2 (Z.eqb_neq _ _)) by lia.
      * intros _ x Hx. assert (x = offset) as -> by lia. simpl.
        rewrite sm_find_set, Z.eqb_refl. f_equal. lia.
      * simpl. rewrite length_app. simpl. lia.
      * apply Hshape.
      * intros x. simpl. rewrite sm_find_set. destruct (Z.eqb_spec x offset) as [->|].
        -- split; [intros _; left; lia|by eauto].
        -- split; [by right|]. intros [?|?]; [lia|done].
    + simpl. rewrite length_app. simpl. lia.
    + intros _. simpl. rewrite length_app. simpl. lia.
    + simpl. by rewrite sm_find_set, Z.eqb_refl.
Qed.

(** The hash of a read: the argument of its first byte. *)
Definition read_hash (len offset h : Z) (c : Constraint) : Prop :=
  exists b, sm_find offset (local_map c) = Some b /\ h = xxhash (u32 (len * 8)) (rgd.num rgd.Read) b.

Lemma map_arg_loop_run a V len start k : forall i offset hash c,
  0 <= i -> offset = start + i ->
  args_inv c -> 0 <= offset -> offset + Z.of_nat k <= Z.of_nat (length buf) < 2 ^ 32 - 1 ->
  Z.of_nat (length (input_args c)) + Z.of_nat k < 2 ^ 32 ->
  exists h c', map_arg_loop buf len i offset hash k (mk_uta (set_ast a c) V) =
      (Ok h, mk_uta (set_ast a c') V) /\
    mapped (read_shape start len) offset (offset + Z.of_nat k) c c' /\
    (if (i =? 0) && negb (k =? 0)%nat then read_hash len start h c' else h = hash).
Proof.
  induction k as [|k IH]; intros i offset hash c Hi0 Hst Hinv H0 Hbuf Hargs.
  { exists hash, c. split; [done|]. rewrite Z.add_0_r. split; [by apply mapped_nil|].
    by rewrite andb_false_r. }
  simpl map_arg_loop.
  destruct (lookup_lt_is_Some_2 buf (Z.to_nat offset) ltac:(lia)) as [v Hv]. rewrite Hv.
  erewrite bind_eq by reflexivity. erewrite bind_eq by reflexivity.
  cbn [u_cons local_map set_ast].
  destruct (map_byte_run a V offset v c) as (arg & c1 & Hstep & Hm & Hl & Hl' & Harg); [done|lia|done|lia|].
  rewrite Hstep.
  assert (forall n, exists c',
    map_arg_loop buf len (i + 1) (u32 (offset + 1)) n k
      (mk_uta (set_ast a (with_shape offset (if i =? 0 then len else 0) c1)) V) =
      (Ok n, mk_uta (set_ast a c') V) /\
    mapped (read_shape start len) offset (offset + Z.of_nat (S k)) c c' /\
    sm_find offset (local_map c') = Some arg) as Hrest.
  { intros n. rewrite wrap_small by (unfold is_u; lia).
    destruct (IH (i + 1) (offset + 1) n (with_shape offset (if i =? 0 then len else 0) c1))
      as (h & c' & E & Hm' & Hh); [lia|lia|apply (Hm (fun _ => if i =? 0 then len else 0))|lia|lia|
        simpl; lia|].
    rewrite (proj2 (Z.eqb_neq (i + 1) 0)) in Hh by lia. simpl in Hh. subst h. exists c'. split; [exact E|].
    replace (offset + Z.of_nat (S k)) with (offset + 1 + Z.of_nat k) by lia.
    split; [|by apply (mp_grow _ _ _ _ _ Hm')]. eapply mapped_step; [lia| |exact Hm'|exact Hl'].
    replace (if i =? 0 then len else 0) with (read_shape start len offset); [apply Hm|].
    unfold read_shape. destruct (Z.eqb_spec offset start), (Z.eqb_spec i 0); done || lia. }
  destruct (Z.eqb_spec i 0) as [->|Hne]; simpl in Hrest |- *; erewrite bind_eq by reflexivity.
  - destruct (Hrest (xxhash (u32 (len * 8)) (rgd.num rgd.Read) arg)) as (c' & E & Hm' & Hf).
    eexists _, c'. split_and!; [exact E|done|]. exists arg.
    by replace start with offset by lia.
  - destruct (Hrest hash) as (c' & E & Hm' & _). exists hash, c'. by split_and!.
Qed.

Lemma map_arg_run p id a V c offset len : inputs_cache p !! Z.to_nat id = Some buf ->
  args_inv c -> 0 <= offset -> 0 <= len -> offset + len <= Z.of_nat (length buf) < 2 ^ 32 - 1 ->
  Z.of_nat (length (input_args c)) + len < 2 ^ 32 ->
  exists h c', map_arg p id offset len (mk_uta (set_ast a c) V) =
      (Ok h, mk_uta (set_ast a c') V) /\
    mapped (read_shape offset len) offset (offset + len) c c' /\
    (0 < len -> read_hash len offset h c').
Proof.
  intros Hin Hinv Ho Hlen Hbuf Hargs. unfold map_arg. rewrite Hin.
  erewrite bind_eq by reflexivity.
  destruct (map_arg_loop_run a V len offset (Z.to_nat len) 0 offset 0 c) as (h & c' & E & Hm & Hh);
    [done|lia|done|done|lia|lia|]. rewrite Z2Nat.id in Hm by lia. exists h, c'. split_and!; [done..|].
  intros Hpos. by rewrite (proj2 (Nat.eqb_neq _ _)) in Hh by lia.
Qed.

(** ** Constants *)

Definition with_const (v : Z) (c : Constraint) : Constraint :=
  mk_cons (ast c) (local_map c) (input_args c ++ [(false, v)]) (inputs c) (shapes c)
    (atoi_info c) (ops c) (u32 (const_num c + 1)) (op1 c) (op2 c).

Lemma with_const_inv v c : args_inv c -> is_u 64 v -> Z.of_nat (length (input_args c)) + 1 < 2 ^ 32 ->
  args_inv (with_const v c) /\ args_grow c (with_const v c).
Proof.
  intros [[H1 H2 H3] H4 H5 H6 H7 H8 H9] Hv Hlen. split; [split; [split|..]|split]; simpl; try done.
  - eapply Forall_impl; [done|]. intros e (He & (Hi0 & Hi) & Hin & Hsh).
    split_and!; simpl; try done; try lia. rewrite length_app. simpl. lia.
  - intros o i Hi. destruct (H4 _ _ Hi) as [? Hl]. split; [done|].
    rewrite lookup_app_l; [done|]. by eapply lookup_lt_Some.
  - intros i x Hi. apply (H6 i x). destruct (decide (i < length (input_args c))%nat).
    + by rewrite lookup_app_l in Hi.
    + rewrite lookup_app_r in Hi by lia. destruct (i - _)%nat; simpl in Hi; [done|].
      by destruct n0.
  - pose proof (length_filter (fun a : bool * Z => fst a = false) (input_args c)).
    rewrite filter_app, length_app, H7, wrap_small by (unfold is_u; lia). simpl. lia.
  - apply Forall_app. split; [done|]. by constructor.
  - pose proof (length_filter (fun a : bool * Z => fst a = false) (input_args c)).
    rewrite length_app, wrap_small by (unfold is_u; lia). simpl. lia.
  - by apply prefix_app_r.
Qed.

(** ** Reads that do not overlap

    The compiled function reads a word from consecutive arguments. *)

Section blocks.
Context (R : list (Z * Z)).

Definition block_at (lm : smap Z) (o n b : Z) : Prop :=
  forall x, o <= x < o + n -> sm_find x lm = Some (b + (x - o)).

(** A range is mapped to consecutive arguments, and its shapes say so. *)
Definition block (c : Constraint) (o n : Z) : Prop :=
  (exists b, 0 <= b /\ block_at (local_map c) o n b) /\
  forall x, o <= x < o + n -> shapes c !! x = Some (read_shape o n x).

(** Every range of [R] is mapped or not at all, and nothing else is. *)
Record blocks (c : Constraint) : Prop := {
  bk_ranges : forall o n, (o, n) ∈ R ->
    (forall x, o <= x < o + n -> sm_find x (local_map c) = None) \/ block c o n;
  bk_cover : forall x, is_Some (sm_find x (local_map c)) ->
    exists o n, (o, n) ∈ R /\ o <= x < o + n
}.

(** Two ranges of [R] are the same or disjoint. *)
Definition no_overlap : Prop :=
  forall o n o' n', (o, n) ∈ R -> (o', n') ∈ R ->
    (o = o' /\ n = n') \/ o + n <= o' \/ o' + n' <= o.

Lemma mapped_blocks o n c c' : no_overlap -> (o, n) ∈ R -> blocks c ->
  mapped (read_shape o n) o (o + n) c c' -> blocks c' /\ block c' o n.
Proof.
  intros Hno Hin [Hb Hcov] [_ [Hg _] Hf Hn _ Hs Hk].
  assert (block c' o n) as Hblock.
  { split.
    - destruct (Hb o n Hin) as [Hnone|[(b & Hb0 & Hsome) _]].
      + exists (Z.of_nat (length (input_args c))). split; [lia|]. intros x Hx. by apply Hn.
      + exists b. split; [done|]. intros x Hx. by apply Hg, Hsome.
    - intros x Hx. rewrite Hs, (proj2 (Z.leb_le _ _)), (proj2 (Z.ltb_lt _ _)) by lia. done. }
  split; [|done]. split.
  - intros o' n' Hin'. destruct (Hno _ _ _ _ Hin Hin') as [[<- <-]|Hdis]; [by right|].
    destruct (Hb o' n' Hin') as [Hnone|[(b & Hb0 & Hsome) Hsh]].
    + left. intros x Hx. rewrite Hf by lia. by apply Hnone.
    + right. split.
      * exists b. split; [done|]. intros x Hx. by apply Hg, Hsome.
      * intros x Hx. rewrite Hs.
        destruct (Z.leb_spec o x), (Z.ltb_spec x (o + n)); simpl; try (by apply Hsh). lia.
  - intros x Hx. apply Hk in Hx as [Hx|Hx]; [by exists o, n|by apply Hcov].
Qed.

Lemma blocks_ext c c' : local_map c' = local_map c -> shapes c' = shapes c -> blocks c -> blocks c'.
Proof.
  intros E1 E2 [Hb Hc]. split; unfold block in *; rewrite E1, ?E2; done.
Qed.

End blocks.

End with_buf.
