(* ===== verification/UtaSpec.v ===== *)
(** * The tree of a constraint

    [do_uta_rel] turns a label into a syntax tree and an argument array. This
    file says which tree that is, and that [do_uta_rel] builds it without
    failing: operands of shared labels are expanded once and then referred to by
    their label, input bytes and constants are arguments. *)

From S2P Require Import Prelude Dfsan Runtime LabelSem Ast Task TaskSpec Parser ScanSpec ConsSpec.
Local Open Scope prog_scope.

(** ** Operators *)

Section operators.
Context {LLVM : InstructionDef}.

Definition is_read (i : dfsan_label_info) : bool := (i_op i =? 0) || (i_op i =? Load).

Lemma unary_ops op : is_unary op = true ->
  op = ZExt \/ op = SExt \/ op = Extract \/ op = Trunc.
Proof. unfold is_unary. rewrite !orb_true_iff, !Z.eqb_eq. tauto. Qed.

Lemma unary_not_read op : is_unary op = true ->
  op <> 0 /\ op <> Load /\ op <> fmemcmp /\ op <> fatoi /\ op <> fsize.
Proof.
  pose proof instruction_order as HO. intros Hu. apply unary_ops in Hu. unfold_ops.
  destruct_or! Hu; subst op; lia.
Qed.

Lemma binary_not_unary op : is_binary op = true \/ op = Concat \/ is_icmp op = true ->
  is_unary op = false /\ op <> 0 /\ op <> Load /\ op <> fmemcmp /\ op <> fatoi /\ op <> fsize.
Proof.
  pose proof instruction_order as HO. intros [Hb|[-> |Hi]].
  - apply binary_iff in Hb. unfold is_unary. rewrite !orb_false_iff, !Z.eqb_neq. unfold_ops.
    destruct_or! Hb; subst op; lia.
  - unfold is_unary. rewrite !orb_false_iff, !Z.eqb_neq. unfold_ops. lia.
  - pose proof (icmp_not_arith op Hi) as (? & ? & ? & ? & ? & ? & _).
    unfold is_unary. rewrite !orb_false_iff, !Z.eqb_neq.
    unfold is_icmp in Hi. rewrite Z.eqb_eq in Hi. change 0xff with (Z.ones 8) in Hi.
    rewrite Z.land_ones in Hi by lia. change (2 ^ 8) with 256 in Hi.
    assert (forall k, 0 <= k < 256 -> k <> ICmp -> op <> k) as Hne.
    { intros k Hk Hi' ->. rewrite Z.mod_small in Hi by lia. lia. }
    split_and!; try done; apply Hne; unfold_ops; lia.
Qed.

Lemma OP_MAP_unary op : is_unary op = true ->
  OP_MAP op = Some (if op =? ZExt then rgd.ZExt else if op =? SExt then rgd.SExt else rgd.Extract).
Proof.
  intros Hu. apply unary_ops in Hu. destruct_or! Hu; subst op; unfold OP_MAP; ops; done.
Qed.

(** The kinds of the binary operations. *)
Definition binary_kind (op : Z) : rgd.AstKind :=
  if op =? Concat then rgd.Concat
  else if op =? Add then rgd.Add
  else if op =? Sub then rgd.Sub
  else if op =? Mul then rgd.Mul
  else if op =? UDiv then rgd.UDiv
  else if op =? SDiv then rgd.SDiv
  else if op =? URem then rgd.URem
  else if op =? SRem then rgd.SRem
  else if op =? Shl then rgd.Shl
  else if op =? LShr then rgd.LShr
  else if op =? AShr then rgd.AShr
  else if op =? And then rgd.And
  else if op =? Or then rgd.Or
  else rgd.Xor.

Lemma OP_MAP_binary op : is_binary op = true \/ op = Concat -> OP_MAP op = Some (binary_kind op).
Proof.
  intros [Hb| ->]; [apply binary_iff in Hb; destruct_or! Hb; subst op|];
    unfold OP_MAP, binary_kind; ops; done.
Qed.

Lemma unary_is_read i : is_unary (i_op i) = true -> is_read i = false.
Proof.
  intros Hu. apply unary_not_read in Hu. unfold is_read.
  by rewrite !(proj2 (Z.eqb_neq _ _)) by tauto.
Qed.

Lemma binary_is_read i :
  is_binary (i_op i) = true \/ i_op i = Concat \/ is_icmp (i_op i) = true -> is_read i = false.
Proof.
  intros Hb. apply binary_not_unary in Hb. unfold is_read.
  by rewrite !(proj2 (Z.eqb_neq _ _)) by tauto.
Qed.

End operators.

Section uta_spec.
Context {LLVM : InstructionDef}.
(** The parser, the only input and the ranges of it that are read. *)
Context (p : parser) (buf : list Z) (R : list (Z * Z)).

Local Abbreviation tbl := (base_ p).

(** ** Labels the parser can turn into a tree *)

Record label_ok (l : Z) : Prop := {
  lo_range : 1 <= l < size_ p /\ l < 2 ^ 32 - 1;
  lo_below : 0 <= i_l1 (info_at tbl l) < l /\ 0 <= i_l2 (info_at tbl l) < l;
  lo_sized : well_sized tbl (info_at tbl l);
  lo_bytes : i_size (info_at tbl l) mod 8 = 0 /\ i_size (info_at tbl l) <= 64;
  lo_whole : concretize_node p !! l = None;
  lo_words : is_u 64 (i_op1 (info_at tbl l)) /\ is_u 64 (i_op2 (info_at tbl l))
}.

Record read_ok (i : dfsan_label_info) : Prop := {
  ro_read : is_read i = true;
  ro_input : inputs_cache p !! Z.to_nat (read_input tbl i) = Some buf;
  ro_offset : is_u 32 (i_op1 (read_source tbl i));
  ro_range : (read_offset tbl i, read_count i) ∈ R;
  ro_inside : read_offset tbl i + read_count i <= Z.of_nat (length buf) /\ 1 <= read_count i
}.

(** An expression without comparisons; a comparison of two such. *)
Inductive expr_ok : Z -> Prop :=
  | eo_read l : label_ok l -> read_ok (info_at tbl l) -> expr_ok l
  | eo_unary l : label_ok l -> is_unary (i_op (info_at tbl l)) = true ->
      expr_ok (i_l1 (info_at tbl l)) -> expr_ok l
  | eo_binary l : label_ok l ->
      is_binary (i_op (info_at tbl l)) = true \/ i_op (info_at tbl l) = Concat ->
      (i_l1 (info_at tbl l) <> 0 -> expr_ok (i_l1 (info_at tbl l))) ->
      (i_l2 (info_at tbl l) <> 0 -> expr_ok (i_l2 (info_at tbl l))) -> expr_ok l.

Record cmp_ok (l : Z) : Prop := {
  co_label : label_ok l;
  co_icmp : is_icmp (i_op (info_at tbl l)) = true;
  co_kind : is_Some (OP_MAP (i_op (info_at tbl l)));
  co_lhs : i_l1 (info_at tbl l) <> 0 -> expr_ok (i_l1 (info_at tbl l));
  co_rhs : i_l2 (info_at tbl l) <> 0 -> expr_ok (i_l2 (info_at tbl l))
}.

(** ** Trees for labels *)

(** A leaf for the constant operand [v] of [w] bits: it names its argument. *)
Definition constant_leaf (c : Constraint) (w v : Z) (tr : tree) : Prop :=
  exists n k, tr = Leaf n /\ kind n = rgd.Constant /\ label n = 0 /\ bits n = w /\
    index n = Z.of_nat k /\ input_args c !! k = Some (false, v).

(** [tr] is a tree for label [l] when the labels [V] have been expanded before;
    [V'] are the labels expanded with it, without [l] itself. *)
Fixpoint tree_for (c : Constraint) (V : gset Z) (l : Z) (tr : tree) (V' : gset Z) : Prop :=
  let i := info_at tbl l in
  let side W m w v s W' :=
    if m =? 0 then constant_leaf c w v s /\ W' = W
    else exists W0, tree_for c W m s W0 /\ W' = {[m]} ∪ W0 in
  match tr with
  | Leaf n =>
      label n = l /\ bits n = i_size i /\ V' = V /\
      ((l ∈ V /\ kind n = rgd.Bool) \/
       ((l ∉ V) /\ is_read i = true /\ kind n = rgd.Read /\ index n = read_offset tbl i /\
        exists b, 0 <= b /\ block_at (local_map c) (read_offset tbl i) (read_count i) b))
  | Un n s =>
      (l ∉ V) /\ label n = l /\ bits n = i_size i /\ is_unary (i_op i) = true /\
      OP_MAP (i_op i) = Some (kind n) /\
      index n = (if i_op i =? Extract then i_op2 i else 0) /\
      exists W, tree_for c V (i_l1 i) s W /\ V' = {[i_l1 i]} ∪ W
  | Bin n s1 s2 =>
      (l ∉ V) /\ label n = l /\ bits n = i_size i /\ is_unary (i_op i) = false /\
      is_read i = false /\ OP_MAP (i_op i) = Some (kind n) /\
      exists W, side V (i_l1 i) (width1 tbl i) (i_op1 i) s1 W /\
                side W (i_l2 i) (width2 tbl i) (i_op2 i) s2 V'
  end.

(** One operand of a binary node. *)
Definition side_for (c : Constraint) (W : gset Z) (m w v : Z) (s : tree) (W' : gset Z) : Prop :=
  if m =? 0 then constant_leaf c w v s /\ W' = W
  else exists W0, tree_for c W m s W0 /\ W' = {[m]} ∪ W0.

Lemma constant_leaf_grow c c' w v tr : args_grow c c' ->
  constant_leaf c w v tr -> constant_leaf c' w v tr.
Proof.
  intros [_ Hp] (n & k & H). exists n, k. destruct_and! H. split_and!; try done.
  by eapply prefix_lookup_Some.
Qed.

Lemma tree_for_grow c c' : args_grow c c' -> forall tr V l V',
  tree_for c V l tr V' -> tree_for c' V l tr V'.
Proof.
  intros Hg. induction tr as [n|n s IH|n s1 IH1 s2 IH2]; simpl; intros V l V' H.
  - destruct H as (? & ? & ? & [?|(? & ? & ? & ? & b & ? & Hb)]); split_and!; try done; [by left|].
    right. split_and!; try done. exists b. split; [done|]. intros x Hx. by apply Hg, Hb.
  - destruct H as (? & ? & ? & ? & ? & ? & W & ? & ?). split_and!; try done. exists W. auto.
  - destruct H as (? & ? & ? & ? & ? & ? & W & Hs1 & Hs2). split_and!; try done. exists W. split.
    + destruct (i_l1 (info_at tbl l) =? 0).
      * destruct Hs1 as [? ?]. split; [|done]. by eapply constant_leaf_grow.
      * destruct Hs1 as (W0 & ? & ?). exists W0. auto.
    + destruct (i_l2 (info_at tbl l) =? 0).
      * destruct Hs2 as [? ?]. split; [|done]. by eapply constant_leaf_grow.
      * destruct Hs2 as (W0 & ? & ?). exists W0. auto.
Qed.

Lemma side_for_grow c c' W m w v s W' : args_grow c c' ->
  side_for c W m w v s W' -> side_for c' W m w v s W'.
Proof.
  intros Hg. unfold side_for. destruct (m =? 0).
  - intros [? ?]. split; [|done]. by eapply constant_leaf_grow.
  - intros (W0 & ? & ?). exists W0. split; [|done]. by eapply tree_for_grow.
Qed.

(** The hashes that the parser gives: a leaf's is that of its argument, a
    comparison's does not depend on the relation. *)
Fixpoint hashed (lm : smap Z) (tr : tree) : Prop :=
  match tr with
  | Leaf n =>
      match kind n with
      | rgd.Constant => hash n = u32 (xxhash (bits n) (rgd.num rgd.Constant) (index n))
      | rgd.Read => exists b, sm_find (index n) lm = Some b /\
          hash n = u32 (xxhash (bits n) (rgd.num rgd.Read) b)
      | _ => True
      end
  | Un _ s => hashed lm s
  | Bin n s1 s2 => hashed lm s1 /\ hashed lm s2 /\
      (rgd.isRelationalKind (kind n) = true ->
       hash n = u32 (xxhash (hash (tree_node s1)) (bits n) (hash (tree_node s2))))
  end.

Lemma hashed_grow c c' tr : args_grow c c' -> hashed (local_map c) tr -> hashed (local_map c') tr.
Proof.
  intros [Hg _]. induction tr as [n|n s IH|n s1 IH1 s2 IH2]; simpl; [|auto|tauto].
  destruct (kind n); try done. intros (b & ? & ?). eauto.
Qed.

(** ** Running the pieces *)

(** Arguments a label needs at most. *)
Definition arg_need : Z -> Z := fold_label 1 read_count (fun _ a b => a + b) tbl.

(** Room for a tree of [N] nodes below the fresh node [nd], and for [K] more
    arguments. *)
Record room (N K : Z) (nd : ref) (a : Ast) (c : Constraint) : Prop := {
  rm_node : node_at nd a = Some fresh_node;
  rm_vec : (1 <= length (a_vec a))%nat;
  rm_cap : Z.of_nat (length (a_vec a)) + N <= Z.of_nat (a_cap a) + 1;
  rm_inv : args_inv buf c;
  rm_blocks : blocks R c;
  rm_args : Z.of_nat (length (input_args c)) + K < 2 ^ 30
}.

(** The tree [tr] was built at [nd]. *)
Record built (N K : Z) (nd : ref) (a a' : Ast) (c c' : Constraint) (tr : tree)
    (f : list nat) : Prop := {
  bt_copied : copied a a' nd tr f;
  bt_size : Z.of_nat (tree_size tr) <= N;
  bt_inv : args_inv buf c';
  bt_blocks : blocks R c';
  bt_grow : args_grow c c';
  bt_args : Z.of_nat (length (input_args c')) <= Z.of_nat (length (input_args c)) + K;
  bt_hashed : hashed (local_map c') tr
}.

(** [do_uta_rel] builds a tree for [l]. *)
Definition expands (l : Z) : Prop := forall fuel nd a c V,
  (Z.to_nat l < fuel)%nat -> room (nodes tbl l) (arg_need l) nd a c ->
  exists a' c' V' tr f,
    do_uta_rel p fuel l nd (mk_uta (set_ast a c) V) = (Ok true, mk_uta (set_ast a' c') V') /\
    built (nodes tbl l) (arg_need l) nd a a' c c' tr f /\ tree_for c' V l tr V'.

Lemma upd_node_run nd g a c V n : node_at nd a = Some n ->
  upd_node nd g (mk_uta (set_ast a c) V) =
    (Ok tt, mk_uta (set_ast (put_node nd (g n) a) c) V).
Proof. intros Hn. unfold upd_node, on_ast. simpl. by rewrite (update_run nd g a n). Qed.

(** A sequence of updates of one node, from a state in which the node is [n]. *)
Lemma upd_node_bind {A} nd g (k : unit -> M uta A) a c V n m :
  node_at nd a = Some n ->
  bind (upd_node nd g) k (mk_uta (set_ast (put_node nd m a) c) V) =
    k tt (mk_uta (set_ast (put_node nd (g m) a) c) V).
Proof.
  intros Hn. erewrite bind_eq by (apply upd_node_run; by eapply node_at_put_eq).
  by rewrite put_node_put.
Qed.

Lemma put_node_id nd n a : node_at nd a = Some n -> put_node nd n a = a.
Proof.
  destruct nd as [|i], a as [r v cap]; simpl; [by intros [= ->]|].
  intros H. by rewrite list_insert_id.
Qed.

(** [set_index] and [set_bits] keep small numbers. *)
Lemma wrap_of_nat w k : Z.of_nat k < 2 ^ w -> wrap w (Z.of_nat k) = Z.of_nat k.
Proof. intros. apply wrap_small. unfold is_u. lia. Qed.

(** [w] is the size of a constant operand of [info] next to the operand
    [other]. *)
Definition constant_width (info : dfsan_label_info) (other w : Z) : Prop :=
  0 < w < 2 ^ 16 /\
  if i_op info =? Concat then other <> 0 /\ other < size_ p /\
    w = i_size info - i_size (info_at tbl other)
  else w = i_size info.

Lemma uta_constant_run nd info other value w a c V :
  room 1 1 nd a c -> constant_width info other w -> is_u 64 value ->
  exists a' c' tr f,
    uta_constant p nd info other value (mk_uta (set_ast a c) V) =
      (Ok true, mk_uta (set_ast a' c') V) /\
    built 1 1 nd a a' c c' tr f /\ constant_leaf c' w value tr.
Proof.
  intros [Hn Hv Hcap Hinv Hbl Hargs] [Hw Hsize] Hval.
  set (k := length (input_args c)) in *.
  destruct (with_const_inv buf value c Hinv Hval ltac:(lia)) as [Hinv' Hg].
  set (h := u32 (xxhash w (rgd.num rgd.Constant) (Z.of_nat k))).
  set (n := mk_node 0 0 rgd.Constant w (Z.of_nat k) 0 0 h).
  exists (put_node nd n a), (with_const value c), (Leaf (payload n)), [].
  split.
  - unfold uta_constant. rewrite <- (put_node_id nd fresh_node a Hn) at 1.
    do 2 (erewrite upd_node_bind by exact Hn).
    assert (exists b, (if i_op info =? Concat
      then if other =? 0 then ret None
           else let! o := lift (label_info p other) in
                ret (Some (u32 (i_size info - i_size o)))
      else ret (Some (i_size info))) = b /\ forall s : uta, b s = (Ok (Some w), s)) as (b & -> & Hb).
    { eexists. split; [reflexivity|]. intros s. destruct (i_op info =? Concat).
      - destruct Hsize as (Ho & Hlt & ->). rewrite (proj2 (Z.eqb_neq _ _) Ho).
        erewrite bind_eq by (by apply label_info_ok). unfold ret.
        rewrite wrap_small by (unfold is_u; lia). done.
      - by subst w. }
    erewrite bind_eq by apply Hb. cbv beta iota. erewrite upd_node_bind by exact Hn.
    unfold next_arg. erewrite bind_eq by reflexivity. cbn [u_cons input_args set_ast].
    fold k. rewrite (wrap_of_nat 32) by lia.
    erewrite upd_node_bind by exact Hn. unfold add_const. erewrite bind_eq by reflexivity.
    cbn [u_cons u_visited set_ast ast local_map input_args inputs shapes atoi_info ops const_num
      op1 op2].
    match goal with |- bind _ _ ?s = _ =>
      change s with (mk_uta (set_ast (put_node nd (set_index (Z.of_nat k) (set_bits w
        (set_label 0 (set_kind rgd.Constant fresh_node)))) a) (with_const value c)) V) end.
    erewrite upd_node_bind by exact Hn. unfold ret. do 3 f_equal.
    unfold set_hash, set_index, set_bits, set_label, set_kind, n, h. cbn.
    rewrite (wrap_of_nat 30), (wrap_small 16) by (unfold is_u; lia). done.
  - split.
    + split; simpl; try done.
      * by apply (copied_leaf a nd n fresh_node).
      * by apply (blocks_ext R c).
      * rewrite length_app. simpl. fold k. lia.
    + exists (payload n), k. split_and!; try done. simpl.
      rewrite lookup_app_r, Nat.sub_diag by lia. done.
Qed.

Context (Hbuf : Z.of_nat (length buf) < 2 ^ 30) (Hno : no_overlap R).

Lemma read_bits i : well_sized tbl i -> is_read i = true -> i_size i = 8 * read_count i.
Proof.
  intros [_ Hw] Hr. unfold read_count, is_read in *. destruct (Z.eqb_spec (i_op i) 0).
  - destruct Hw as (_ & _ & ->). done.
  - simpl in Hr. rewrite Hr in Hw. by destruct Hw as (_ & _ & ->).
Qed.

Lemma uta_read_run l nd a c V : label_ok l -> l ∉ V ->
  let i := info_at tbl l in read_ok i ->
  room 1 (read_count i) nd a c ->
  exists a' c' tr f,
    uta_read p l nd (read_input tbl i) (read_offset tbl i) (read_count i)
      (mk_uta (set_ast a c) V) = (Ok true, mk_uta (set_ast a' c') V) /\
    built 1 (read_count i) nd a a' c c' tr f /\ tree_for c' V l tr V.
Proof.
  intros [Hrange _ Hsz Hby _] HV i [Hrd Hin Hoff HR Hins] [Hn Hv Hcap Hinv Hbl Hargs].
  fold i in Hsz, Hby. pose proof (read_bits i Hsz Hrd) as Hbits.
  assert (0 <= read_offset tbl i) as H0 by (apply wrap_bound; lia).
  set (n1 := set_index (read_offset tbl i) (set_label l (set_bits (u32 (read_count i * 8))
               (set_kind rgd.Read fresh_node)))).
  destruct (map_arg_run buf p (read_input tbl i) (put_node nd n1 a) V c (read_offset tbl i)
    (read_count i)) as (h & c' & E & Hm & Hh); [done|done|lia|lia|lia|lia|].
  destruct (mapped_blocks buf R _ _ _ _ Hno HR Hbl Hm) as [Hbl' Hblock].
  destruct Hm as [Hinv' Hg _ _ Hlen _ _]. destruct Hblock as [Hblock _].
  exists (put_node nd (set_hash h n1) a), c', (Leaf (payload (set_hash h n1))), [].
  split; [|split].
  - unfold uta_read. rewrite <- (put_node_id nd fresh_node a Hn) at 1.
    do 4 (erewrite upd_node_bind by exact Hn). fold n1. erewrite bind_eq by exact E.
    by erewrite upd_node_bind by exact Hn.
  - split; try done.
    + by apply (copied_leaf a nd _ fresh_node).
    + lia.
    + simpl. destruct (Hh ltac:(lia)) as (b & Hb & ->). exists b.
      rewrite (wrap_small 30) by (unfold is_u; lia). split; [done|].
      rewrite (wrap_small 32 (read_count i * 8)), (wrap_small 16) by (unfold is_u; lia). done.
  - simpl. fold i. rewrite (wrap_small 32 l) by (unfold is_u; lia).
    rewrite (wrap_small 32 (read_count i * 8)), (wrap_small 16) by (unfold is_u; lia).
    rewrite (wrap_small 30) by (unfold is_u; lia).
    split_and!; try done; [lia|]. right. split_and!; done.
Qed.

Lemma nodes_pos l : 1 <= nodes tbl l.
Proof. apply (fold_label_prop _ _ _ _ (fun x => 1 <= x)); intros; lia. Qed.

Lemma operand_run fuel kd info side m other value w child a c V :
  (m <> 0 -> expands m /\ (Z.to_nat m < fuel)%nat) -> 0 <= m -> side <> 0 ->
  room (nodes tbl m) (arg_need m) child a c ->
  (m = 0 -> constant_width info other w) -> is_u 64 value ->
  exists a' c' V' tr f,
    uta_operand p (do_uta_rel p fuel) kd 0 info side m other value child
      (mk_uta (set_ast a c) V) = (Ok true, mk_uta (set_ast a' c') V') /\
    built (nodes tbl m) (arg_need m) child a a' c c' tr f /\ side_for c' V m w value tr V'.
Proof.
  intros Hrec Hm Hside Hroom Hsize Hval. unfold uta_operand, side_for.
  replace (0 =? side) with false by lia. unfold CONST_OFFSET.
  destruct (Z.eqb_spec m 0) as [->|Hm0].
  - destruct (uta_constant_run child info other value w a c V) as (a' & c' & tr & f & E & Hb & Hc);
      [exact Hroom|by apply Hsize|done|].
    exists a', c', V, tr, f. split; [exact E|]. done.
  - destruct (Hrec Hm0) as [He Hf].
    destruct (He fuel child a c V Hf Hroom) as (a' & c' & V' & tr & f & E & Hb & Ht).
    exists a', c', ({[m]} ∪ V'), tr, f. replace (1 <=? m) with true by lia. cbn [negb andb].
    erewrite bind_eq by exact E. split; [reflexivity|]. split; [done|]. by exists V'.
Qed.

(** Changes to a constraint that leave its arguments alone. *)
Definition same_args (c c' : Constraint) : Prop :=
  local_map c' = local_map c /\ input_args c' = input_args c /\ inputs c' = inputs c /\
  shapes c' = shapes c /\ const_num c' = const_num c.

Lemma same_args_inv c c' : same_args c c' -> args_inv buf c -> blocks R c ->
  args_inv buf c' /\ blocks R c' /\ args_grow c c'.
Proof.
  intros Hs Hinv Hb. split; [|split].
  - revert Hs Hinv. clear Hb. destruct c, c'. unfold same_args. simpl.
    intros (-> & -> & -> & -> & ->) [[H1 H2 H3] H4 H5 H6 H7 H8 H9]. split; [split|..]; done.
  - destruct Hs as (E1 & _ & _ & E4 & _). by apply (blocks_ext R c).
  - destruct Hs as (E1 & E2 & _). unfold args_grow. by rewrite E1, E2.
Qed.

(** The constraint with an operator, and with the operands of a comparison,
    recorded. *)
Definition with_op (kd : rgd.AstKind) (c : Constraint) : Constraint :=
  mk_cons (ast c) (local_map c) (input_args c) (inputs c) (shapes c) (atoi_info c)
    ({[rgd.num kd]} ∪ ops c) (const_num c) (op1 c) (op2 c).
Definition with_operands (kd : rgd.AstKind) (v1 v2 : Z) (c : Constraint) : Constraint :=
  if rgd.isRelationalKind kd
  then mk_cons (ast c) (local_map c) (input_args c) (inputs c) (shapes c) (atoi_info c) (ops c)
         (const_num c) (Some v1) (Some v2)
  else c.

Lemma on_ast_run {A} (m : M Ast A) a c V x a' : m a = (Ok x, a') ->
  on_ast m (mk_uta (set_ast a c) V) = (Ok x, mk_uta (set_ast a' c) V).
Proof. intros E. unfold on_ast. simpl. by rewrite E. Qed.

Lemma node_hash_run r n a c V : node_at r a = Some n ->
  node_hash r (mk_uta (set_ast a c) V) = (Ok (hash n), mk_uta (set_ast a c) V).
Proof.
  intros Hn. apply on_ast_run. erewrite bind_eq by (by apply node_run). done.
Qed.

(** A child added to [nd] and built. *)
Record child_built (nd : ref) (n' : AstNode) (a b : Ast) (c c' : Constraint) (N K : Z)
    (tr : tree) (f : list nat) : Prop := {
  cb_repr : repr b (At (length (a_vec a))) tr f;
  cb_len : length (a_vec b) = (length (a_vec a) + tree_size tr)%nat;
  cb_new : forall i, i ∈ f -> (length (a_vec a) < i < length (a_vec b))%nat;
  cb_frame : forall r, r <> nd -> in_vec r a -> node_at r b = node_at r a;
  cb_cap : a_cap b = a_cap a;
  cb_node : node_at nd b = Some n';
  cb_size : Z.of_nat (tree_size tr) <= N;
  cb_inv : args_inv buf c';
  cb_blocks : blocks R c';
  cb_grow : args_grow c c';
  cb_args : Z.of_nat (length (input_args c')) <= Z.of_nat (length (input_args c)) + K;
  cb_hashed : hashed (local_map c') tr
}.

Lemma child_run fuel kd info side m other value w nd n n' a c V :
  node_at nd a = Some n -> (m <> 0 -> expands m /\ (Z.to_nat m < fuel)%nat) -> 0 <= m ->
  side <> 0 -> (m = 0 -> constant_width info other w) -> is_u 64 value ->
  Z.of_nat (length (a_vec a)) + nodes tbl m <= Z.of_nat (a_cap a) ->
  args_inv buf c -> blocks R c ->
  Z.of_nat (length (input_args c)) + arg_need m < 2 ^ 30 ->
  exists b c' V' tr f,
    uta_operand p (do_uta_rel p fuel) kd 0 info side m other value (At (length (a_vec a)))
      (mk_uta (set_ast (link_new nd n' a) c) V) = (Ok true, mk_uta (set_ast b c') V') /\
    child_built nd n' a b c c' (nodes tbl m) (arg_need m) tr f /\
    side_for c' V m w value tr V'.
Proof.
  intros Hn Hrec Hm Hside Hw Hval Hcap Hinv Hbl Hargs.
  destruct (link_new_facts nd n' a n Hn) as (Hthis & Hnew & Hlen & Hc & Hfr).
  destruct (operand_run fuel kd info side m other value w (At (length (a_vec a)))
    (link_new nd n' a) c V Hrec Hm Hside) as (b & c' & V' & tr & f & E & Hb & Hs).
  { split; [done|lia|lia|done|done|done]. }
  { done. }
  { done. }
  exists b, c', V', tr, f. split; [exact E|]. split; [|done].
  destruct Hb as [Hcp H1 H2 H3 H4 H5 H6].
  destruct (copied_linked a n n' nd b tr f Hn Hcp) as (G1 & G2 & G3 & G4 & G5 & G6).
  by split.
Qed.

(** ** Operations *)

(** The node of an operation before its children are known. *)
Definition op_node (l : Z) (kd : rgd.AstKind) (i : dfsan_label_info) : AstNode :=
  set_label l (set_bits (i_size i) (set_kind kd fresh_node)).

Section operation.
Context (fuel : nat) (l : Z) (kd : rgd.AstKind).
Let i := info_at tbl l.
Context (Hl : label_ok l) (Hfuel : (Z.to_nat l <= fuel)%nat).
Context (Hkd : OP_MAP (i_op i) = Some kd) (Hread : is_read i = false).
Context (Hex1 : i_l1 i <> 0 -> expands (i_l1 i)) (Hw1 : i_l1 i = 0 -> constant_width i (i_l2 i) (width1 tbl i)).
Context (Hex2 : i_l2 i <> 0 -> expands (i_l2 i)) (Hw2 : i_l2 i = 0 -> constant_width i (i_l1 i) (width2 tbl i)).

Lemma rec1 : i_l1 i <> 0 -> expands (i_l1 i) /\ (Z.to_nat (i_l1 i) < fuel)%nat.
Proof. intros H. destruct Hl as [? [? ?] _ _ _]. subst i. split; [auto|lia]. Qed.
Lemma rec2 : i_l2 i <> 0 -> expands (i_l2 i) /\ (Z.to_nat (i_l2 i) < fuel)%nat.
Proof. intros H. destruct Hl as [? [? ?] _ _ _]. subst i. split; [auto|lia]. Qed.

Lemma op_node_fields : kind (op_node l kd i) = kd /\ label (op_node l kd i) = l /\
  bits (op_node l kd i) = i_size i.
Proof.
  destruct Hl as [Hr _ [Hs _] _ _]. fold i in Hs. split; [done|]. simpl.
  split; apply wrap_small; unfold is_u; lia.
Qed.

(** The steps of an operation with two operands, each built by [uta_operand]. *)
Lemma uta_bin_steps nd a c V a1 c1 V1 a2 c2 V2 m1 m2 :
  let len := length (a_vec a) in
  let n0 := op_node l kd i in
  let a0 := put_node nd n0 a in
  let n1 := set_children len 0 n0 in
  let n2 := set_children len (length (a_vec a1)) n1 in
  is_unary (i_op i) = false -> concretize_node p !! l = None ->
  node_at nd a = Some fresh_node -> (1 <= len)%nat -> (len < a_cap a0)%nat -> (length (a_vec a1) < a_cap a1)%nat ->
  uta_operand p (do_uta_rel p fuel) kd 0 i 1 (i_l1 i) (i_l2 i) (i_op1 i) (At len)
    (mk_uta (set_ast (link_new nd n1 a0) (with_op kd c)) V) = (Ok true, mk_uta (set_ast a1 c1) V1) ->
  node_at nd a1 = Some n1 ->
  uta_operand p (do_uta_rel p fuel) kd 0 i 2 (i_l2 i) (i_l1 i) (i_op2 i) (At (length (a_vec a1)))
    (mk_uta (set_ast (link_new nd n2 a1) c1) V1) = (Ok true, mk_uta (set_ast a2 c2) V2) ->
  node_at nd a2 = Some n2 -> node_at (At len) a2 = Some m1 -> node_at (At (length (a_vec a1))) a2 = Some m2 ->
  exists h, uta_operation p (do_uta_rel p fuel) l nd i (mk_uta (set_ast a c) V) =
    (Ok true, mk_uta (set_ast (put_node nd (set_hash h n2) a2)
       (with_operands kd (i_op1 i) (i_op2 i) c2)) V2) /\
    (rgd.isRelationalKind kd = true -> h = xxhash (hash m1) (i_size i) (hash m2)).
Proof.
  intros len n0 a0 n1 n2 Hun Hwh Hn Hv Hcap Hcap1 E1 N1 E2 N2 M1' M2.
  destruct (put_node_facts nd n0 a fresh_node Hn) as (N0 & L0 & C0 & F0). fold a0 in N0, L0, C0, F0.
  exists (xxhash (hash m1) (Z.lor (Z.shiftl (if rgd.isRelationalKind kd then rgd.num rgd.Bool
    else rgd.num kd) 16) (i_size i)) (hash m2)). split; [|by intros ->].
  unfold uta_operation. rewrite Hkd. rewrite <- (put_node_id nd fresh_node a Hn) at 1.
  do 3 (erewrite upd_node_bind by exact Hn). fold (op_node l kd i). fold n0. fold a0.
  erewrite bind_eq by reflexivity.
  match goal with |- bind _ _ ?s = _ =>
    change s with (mk_uta (set_ast a0 (with_op kd c)) V) end.
  erewrite bind_eq
    by (apply on_ast_run; apply (add_child0_run nd a0 n0); [exact N0|done|lia]).
  cbv beta iota. rewrite Hwh. cbn [default]. rewrite L0. fold len.
  erewrite bind_eq by exact E1. cbn [negb]. rewrite Hun.
  erewrite bind_eq
    by (apply on_ast_run; apply (add_child1_run nd a1 n1); [exact N1|simpl; lia|done|lia]).
  cbv beta iota. erewrite bind_eq by exact E2. cbn [negb].
  erewrite bind_eq with (s' := mk_uta (set_ast a2 (with_operands kd (i_op1 i) (i_op2 i) c2)) V2);
    [|unfold with_operands; by destruct (rgd.isRelationalKind kd)].
  erewrite bind_eq by (by apply node_hash_run).
  erewrite bind_eq by (by apply node_hash_run).
  erewrite bind_eq by (by apply upd_node_run). reflexivity.
Qed.

Lemma uta_bin_run nd a c V : l ∉ V -> is_unary (i_op i) = false ->
  room (nodes tbl (i_l1 i) + nodes tbl (i_l2 i) + 1) (arg_need (i_l1 i) + arg_need (i_l2 i)) nd a c ->
  0 <= arg_need (i_l2 i) ->
  exists a' c' V' tr f,
    uta_operation p (do_uta_rel p fuel) l nd i (mk_uta (set_ast a c) V) =
      (Ok true, mk_uta (set_ast a' c') V') /\
    built (nodes tbl (i_l1 i) + nodes tbl (i_l2 i) + 1) (arg_need (i_l1 i) + arg_need (i_l2 i))
      nd a a' c c' tr f /\ tree_for c' V l tr V'.
Proof.
  intros HV Hun [Hn Hv Hcap Hinv Hbl Hargs] Hneed.
  pose proof (nodes_pos (i_l1 i)). pose proof (nodes_pos (i_l2 i)).
  destruct Hl as [Hr [Hb1 Hb2] Hsz Hby Hwh [Hv1 Hv2]]. fold i in Hb1, Hb2, Hsz, Hby, Hv1, Hv2.
  set (n0 := op_node l kd i). set (a0 := put_node nd n0 a). set (len := length (a_vec a)) in *.
  destruct (put_node_facts nd n0 a fresh_node Hn) as (N0 & L0 & C0 & F0). fold a0 in N0, L0, C0, F0.
  destruct (same_args_inv c (with_op kd c)) as (Hinv0 & Hbl0 & Hg0); [done..|].
  set (n1 := set_children len 0 n0).
  destruct (child_run fuel kd i 1 (i_l1 i) (i_l2 i) (i_op1 i) (width1 tbl i) nd n0 n1 a0
    (with_op kd c) V) as (a1 & c1 & V1 & t1 & f1 & E1 & B1 & S1);
    [done|exact rec1|lia|lia|done|done|lia|done|done|simpl; lia|].
  set (n2 := set_children len (length (a_vec a1)) n1).
  destruct B1 as [R1 L1 New1 F1 C1 N1 Sz1 Inv1 Bl1 G1 K1 Ha1]. simpl in K1.
  destruct (child_run fuel kd i 2 (i_l2 i) (i_l1 i) (i_op2 i) (width2 tbl i) nd n1 n2 a1
    c1 V1) as (a2 & c2 & V2 & t2 & f2 & E2 & B2 & S2);
    [done|exact rec2|lia|lia|done|done|lia|done|done|lia|].
  destruct B2 as [R2 L2 New2 F2 C2 N2 Sz2 Inv2 Bl2 G2 K2 Ha2].
  destruct (same_args_inv c2 (with_operands kd (i_op1 i) (i_op2 i) c2)) as (Inv3 & Bl3 & G3);
    [unfold with_operands; by destruct (rgd.isRelationalKind kd)|done|done|].
  rewrite L0 in *. fold len in R1, L1, New1, E1.
  assert (nd <> At len) as Hne.
  { intros ->. apply node_at_in_vec in Hn. simpl in Hn. subst len. lia. }
  destruct (repr_node _ _ _ _ R1) as (m1 & M1 & P1).
  destruct (repr_node _ _ _ _ R2) as (m2 & M2 & P2).
  assert (node_at (At len) a2 = Some m1) as M1'.
  { rewrite F2; [done|done|]. by eapply node_at_in_vec. }
  destruct (uta_bin_steps nd a c V a1 c1 V1 a2 c2 V2 m1 m2) as (h & E & Hh); try done; try lia.
  { change (put_node nd (op_node l kd i) a) with a0. fold len. lia. }
  exists (put_node nd (set_hash h n2) a2), (with_operands kd (i_op1 i) (i_op2 i) c2), V2,
    (Bin (payload (set_hash h n0)) t1 t2), (len :: f1 ++ length (a_vec a1) :: f2).
  split; [exact E|]. clear E. split.
  - split.
    + refine (copied_bin a a1 a2 _ nd (set_hash h n0) t1 t2 f1 f2 n1 n2 Hv _ R1 L1 New1 _ R2 L2
        New2 F2 _ C2 N1 N2 eq_refl).
      * exact (node_at_in_vec _ _ _ Hn).
      * intros r Hr' Hin. rewrite F1; [by apply F0|exact Hr'|].
        destruct r; [exact I|]. unfold in_vec in *. rewrite L0. exact Hin.
      * congruence.
    + simpl. lia.
    + done.
    + done.
    + by rewrite Hg0, G1, G2.
    + unfold with_operands. destruct (rgd.isRelationalKind kd); simpl; lia.
    + destruct op_node_fields as (F3 & _ & F5). split; [|split].
      * apply (hashed_grow c1); [|done]. by rewrite G2.
      * by apply (hashed_grow c2).
      * cbn [payload set_hash clear_children set_children kind bits hash]. fold n0 in F3, F5.
        rewrite F3, F5, <- P1, <- P2. by intros ->%Hh.
  - destruct op_node_fields as (F3 & F4 & F5). fold n0 in F3, F4, F5.
    cbn [tree_for payload set_hash set_children clear_children label bits kind]. fold i.
    rewrite F3, F4, F5. split_and!; try done. exists V1. split.
    + change (side_for (with_operands kd (i_op1 i) (i_op2 i) c2) V (i_l1 i) (width1 tbl i)
        (i_op1 i) t1 V1). eapply side_for_grow; [|exact S1]. by rewrite G2.
    + change (side_for (with_operands kd (i_op1 i) (i_op2 i) c2) V1 (i_l2 i) (width2 tbl i)
        (i_op2 i) t2 V2). by eapply side_for_grow.
Qed.

Lemma uta_un_run nd a c V : l ∉ V -> is_unary (i_op i) = true -> i_l1 i <> 0 ->
  is_u 30 (if i_op i =? Extract then i_op2 i else 0) ->
  room (nodes tbl (i_l1 i) + nodes tbl (i_l2 i) + 1) (arg_need (i_l1 i) + arg_need (i_l2 i)) nd a c ->
  0 <= arg_need (i_l2 i) ->
  exists a' c' V' tr f,
    uta_operation p (do_uta_rel p fuel) l nd i (mk_uta (set_ast a c) V) =
      (Ok true, mk_uta (set_ast a' c') V') /\
    built (nodes tbl (i_l1 i) + nodes tbl (i_l2 i) + 1) (arg_need (i_l1 i) + arg_need (i_l2 i))
      nd a a' c c' tr f /\ tree_for c' V l tr V'.
Proof.
  intros HV Hun Hl1 Hix [Hn Hv Hcap Hinv Hbl Hargs] Hneed.
  pose proof (nodes_pos (i_l1 i)). pose proof (nodes_pos (i_l2 i)).
  destruct Hl as [Hr [Hb1 Hb2] Hsz Hby Hwh [Hv1 Hv2]]. fold i in Hb1, Hb2, Hsz, Hby, Hv1, Hv2.
  set (n0 := op_node l kd i). set (a0 := put_node nd n0 a). set (len := length (a_vec a)) in *.
  destruct (put_node_facts nd n0 a fresh_node Hn) as (N0 & L0 & C0 & F0). fold a0 in N0, L0, C0, F0.
  destruct (same_args_inv c (with_op kd c)) as (Hinv0 & Hbl0 & Hg0); [done..|].
  set (n1 := set_children len 0 n0).
  destruct (child_run fuel kd i 1 (i_l1 i) (i_l2 i) (i_op1 i) (width1 tbl i) nd n0 n1 a0
    (with_op kd c) V) as (a1 & c1 & V1 & t1 & f1 & E1 & B1 & S1);
    [done|exact rec1|lia|lia|done|done|lia|done|done|simpl; lia|].
  destruct B1 as [R1 L1 New1 F1 C1 N1 Sz1 Inv1 Bl1 G1 K1 Ha1]. simpl in K1.
  rewrite L0 in *. fold len in R1, L1, New1, E1.
  destruct (repr_node _ _ _ _ R1) as (m1 & M1 & _).
  set (ix := if i_op i =? Extract then i_op2 i else 0) in *.
  assert (exists h, uta_operation p (do_uta_rel p fuel) l nd i (mk_uta (set_ast a c) V) =
    (Ok true, mk_uta (set_ast (put_node nd (set_index ix (set_hash h n1)) a1) c1) V1)) as [h E].
  { eexists. unfold uta_operation. rewrite Hkd. rewrite <- (put_node_id nd fresh_node a Hn) at 1.
    do 3 (erewrite upd_node_bind by exact Hn). fold (op_node l kd i). fold n0. fold a0.
    erewrite bind_eq by reflexivity.
    match goal with |- bind _ _ ?s = _ =>
      change s with (mk_uta (set_ast a0 (with_op kd c)) V) end.
    erewrite bind_eq
      by (apply on_ast_run; apply (add_child0_run nd a0 n0); [exact N0|done|lia]).
    cbv beta iota. rewrite Hwh. cbn [default]. rewrite L0. fold len.
    erewrite bind_eq by exact E1. cbn [negb]. rewrite Hun.
    erewrite bind_eq by (by apply node_hash_run).
    erewrite bind_eq by (by apply upd_node_run).
    erewrite upd_node_bind by exact N1. reflexivity. }
  exists (put_node nd (set_index ix (set_hash h n1)) a1), c1, V1,
    (Un (payload (set_index ix (set_hash h n0))) t1), (len :: f1).
  split; [exact E|]. clear E. split.
  - split.
    + refine (copied_un a a1 _ nd (set_index ix (set_hash h n0)) t1 f1 n1 Hv _ R1 L1 New1 _ _ N1
        eq_refl).
      * exact (node_at_in_vec _ _ _ Hn).
      * intros r Hr' Hin. rewrite F1; [by apply F0|exact Hr'|].
        destruct r; [exact I|]. unfold in_vec in *. rewrite L0. exact Hin.
      * congruence.
    + simpl. lia.
    + done.
    + done.
    + by rewrite Hg0, G1.
    + simpl. lia.
    + exact Ha1.
  - destruct op_node_fields as (F3 & F4 & F5). fold n0 in F3, F4, F5.
    cbn [tree_for payload set_hash set_index set_children clear_children label bits kind index].
    fold i. rewrite F3, F4, F5. split_and!; try done; [by apply wrap_small|].
    unfold side_for in S1. rewrite (proj2 (Z.eqb_neq _ _) Hl1) in S1. exact S1.
Qed.

End operation.

(** ** Whole expressions *)

Lemma expr_not_icmp l : expr_ok l -> is_icmp (i_op (info_at tbl l)) = false.
Proof.
  pose proof instruction_order as HO.
  destruct 1 as [l _ [Hr _ _ _ _]|l _ Hu _|l _ [Hb|Hc] _ _].
  - unfold is_read in Hr. rewrite orb_true_iff, !Z.eqb_eq in Hr.
    apply small_not_icmp; destruct Hr as [-> | ->]; lia.
  - apply unary_ops in Hu. unfold_ops.
    apply small_not_icmp; destruct_or! Hu; rewrite Hu; lia.
  - by apply binary_not_icmp.
  - apply small_not_icmp; rewrite Hc; unfold_ops; lia.
Qed.

Lemma expr_width l : expr_ok l -> label_width tbl l = i_size (info_at tbl l).
Proof. intros H. apply width_other. by apply expr_not_icmp. Qed.

Lemma expr_label l : expr_ok l -> label_ok l.
Proof. by destruct 1. Qed.

Lemma side_widths l : label_ok l ->
  let i := info_at tbl l in
  is_binary (i_op i) = true \/ i_op i = Concat \/ is_icmp (i_op i) = true ->
  (i_l1 i <> 0 -> expr_ok (i_l1 i)) -> (i_l2 i <> 0 -> expr_ok (i_l2 i)) ->
  (i_l1 i = 0 -> constant_width i (i_l2 i) (width1 tbl i)) /\
  (i_l2 i = 0 -> constant_width i (i_l1 i) (width2 tbl i)).
Proof.
  intros [Hr Hb Hsz Hby _] i Hop H1 H2. fold i in Hb, Hsz, Hby.
  unfold constant_width, width1, width2. destruct Hsz as [Hs Hw].
  destruct (Z.eqb_spec (i_op i) Concat) as [E|E].
  - rewrite E in Hw. revert Hw. ops. intros (Hne & Hw1 & Hw2). unfold width1 in Hw1, Hw2.
    rewrite E, Z.eqb_refl in Hw1, Hw2. split.
    + intros E1. rewrite E1, Z.eqb_refl in *. destruct Hne as [|Hne]; [done|].
      rewrite expr_width in * by auto. split_and!; [lia|lia|done|lia|done].
    + intros E2. destruct Hne as [Hne|]; [|done]. rewrite (proj2 (Z.eqb_neq _ _) Hne) in *.
      rewrite expr_width in * by auto. split_and!; [lia|lia|done|lia|done].
  - split; intros E0; rewrite ?E0, ?Z.eqb_refl; split; try reflexivity; lia.
Qed.

(** After the checks at the start of [do_uta_rel]. *)
Lemma do_uta_enter f l nd u : label_ok l ->
  let i := info_at tbl l in
  do_uta_rel p (S f) l nd u =
    (if bool_decide (l ∈ u_visited u) then
       upd_node nd (set_label l) ;;; upd_node nd (set_bits (i_size i)) ;;; ret true
     else if i_op i =? 0 then uta_read p l nd (u32 (i_op2 i)) (u32 (i_op1 i)) 1
     else if i_op i =? Load then
       let! src := lift (label_info p (i_l1 i)) in
       uta_read p l nd (u32 (i_op2 src)) (u32 (i_op1 src)) (i_l2 i)
     else if i_op i =? fmemcmp then uta_memcmp p (do_uta_rel p f) l nd i
     else if i_op i =? fatoi then uta_atoi p l nd i
     else if i_op i =? fsize then ret false
     else uta_operation p (do_uta_rel p f) l nd i) u.
Proof.
  intros [Hr _ _ _ _] i. cbn [do_uta_rel]. unfold CONST_OFFSET, kInitializingLabel.
  replace (l <? 1) with false by lia. replace (l =? 2 ^ 32 - 1) with false by lia. cbn [orb].
  erewrite bind_eq by (apply label_info_ok; lia). by erewrite bind_eq by reflexivity.
Qed.

(** A label that has been expanded before. *)
Lemma expands_seen f l nd a c V : label_ok l -> l ∈ V ->
  room (nodes tbl l) (arg_need l) nd a c -> 0 <= arg_need l ->
  exists a' c' V' tr fs,
    do_uta_rel p (S f) l nd (mk_uta (set_ast a c) V) = (Ok true, mk_uta (set_ast a' c') V') /\
    built (nodes tbl l) (arg_need l) nd a a' c c' tr fs /\ tree_for c' V l tr V'.
Proof.
  intros Hl HV [Hn Hv Hcap Hinv Hbl Hargs] Hneed. pose proof (nodes_pos l) as Hp.
  set (n := set_bits (i_size (info_at tbl l)) (set_label l fresh_node)).
  exists (put_node nd n a), c, V, (Leaf (payload n)), []. split; [|split].
  - rewrite do_uta_enter by done. cbn [u_visited]. rewrite bool_decide_eq_true_2 by done.
    rewrite <- (put_node_id nd fresh_node a Hn) at 1.
    do 2 (erewrite upd_node_bind by exact Hn). reflexivity.
  - split; try done; [by apply (copied_leaf a nd n fresh_node)|lia].
  - destruct Hl as [Hr _ [Hs _] _ _]. simpl.
    rewrite (wrap_small 32), (wrap_small 16) by (unfold is_u; lia).
    split_and!; try done. by left.
Qed.

Context (last : Z) (Hdag : dag tbl last).

Lemma arg_need_read l : 1 <= l <= last -> read_ok (info_at tbl l) ->
  arg_need l = read_count (info_at tbl l).
Proof.
  intros Hl [Hr _ _ _ _]. unfold arg_need. rewrite (fold_label_unfold _ _ _ _ last) by done.
  unfold fold_info. unfold is_read in Hr. by rewrite Hr.
Qed.

(** What an operation needs is what its operands need. *)
Lemma needs_op l : 1 <= l <= last -> is_read (info_at tbl l) = false ->
  nodes tbl l = nodes tbl (i_l1 (info_at tbl l)) + nodes tbl (i_l2 (info_at tbl l)) + 1 /\
  arg_need l = arg_need (i_l1 (info_at tbl l)) + arg_need (i_l2 (info_at tbl l)).
Proof.
  intros Hl Hr. unfold nodes, arg_need. rewrite !(fold_label_unfold _ _ _ _ last l) by done.
  unfold fold_info, is_read in *. by rewrite Hr.
Qed.

Lemma unary_operand l : label_ok l -> is_unary (i_op (info_at tbl l)) = true ->
  expr_ok (i_l1 (info_at tbl l)) ->
  i_l1 (info_at tbl l) <> 0 /\ i_l2 (info_at tbl l) = 0 /\
  is_u 30 (if i_op (info_at tbl l) =? Extract then i_op2 (info_at tbl l) else 0).
Proof.
  intros Hl Hu He. pose proof (expr_width _ He) as Hw.
  destruct (expr_label _ He) as [_ _ [Hs1 _] _ _].
  destruct Hl as [_ _ [Hs Hsz] _ _]. set (i := info_at tbl l) in *.
  apply unary_ops in Hu. unfold is_u.
  destruct_or! Hu; rewrite Hu in Hsz |- *; revert Hsz; ops; intros Hsz; destruct_and! Hsz;
    split_and!; try done; lia.
Qed.

Lemma operand_need m : 0 <= m <= last -> (m <> 0 -> m <= last -> 1 <= arg_need m) ->
  1 <= arg_need m.
Proof. intros Hm H. destruct (Z.eq_dec m 0) as [->|]; [done|]. apply H; lia. Qed.

Lemma arg_need_pos l : expr_ok l -> l <= last -> 1 <= arg_need l.
Proof.
  induction 1 as [l Hl Hrd|l Hl Hu He IH|l Hl Hb H1 IH1 H2 IH2]; intros Hlast;
    pose proof Hl as [Hr [Hb1 Hb2] _ _ _].
  - rewrite arg_need_read by (done || lia). by destruct Hrd as [_ _ _ _ [_ ?]].
  - destruct (unary_operand l Hl Hu He) as (Hn1 & Hn2 & _).
    destruct (needs_op l ltac:(lia) (unary_is_read _ Hu)) as [_ ->]. rewrite Hn2.
    specialize (IH ltac:(lia)). change (arg_need 0) with 1. lia.
  - assert (1 <= arg_need (i_l1 (info_at tbl l))) by (apply operand_need; [lia|done]).
    assert (1 <= arg_need (i_l2 (info_at tbl l))) by (apply operand_need; [lia|done]).
    destruct (needs_op l ltac:(lia)) as [_ ->]; [|lia].
    apply binary_is_read. tauto.
Qed.

Lemma operand_need_ok m : 0 <= m <= last -> (m <> 0 -> expr_ok m) -> 1 <= arg_need m.
Proof. intros Hm H. apply operand_need; [done|]. intros. apply arg_need_pos; auto. Qed.

(** Dispatch to the common operations. *)
Lemma do_uta_operation f l nd a c V : label_ok l -> l ∉ V ->
  let i := info_at tbl l in
  i_op i <> 0 /\ i_op i <> Load /\ i_op i <> fmemcmp /\ i_op i <> fatoi /\ i_op i <> fsize ->
  do_uta_rel p (S f) l nd (mk_uta (set_ast a c) V) =
    uta_operation p (do_uta_rel p f) l nd i (mk_uta (set_ast a c) V).
Proof.
  intros Hl HV i Hop. rewrite do_uta_enter by done. fold i. cbn [u_visited].
  rewrite bool_decide_eq_false_2 by done. by rewrite !(proj2 (Z.eqb_neq _ _)) by tauto.
Qed.

Lemma expr_expands l : expr_ok l -> l <= last -> expands l.
Proof.
  induction 1 as [l Hl Hrd|l Hl Hu He IH|l Hl Hb H1 IH1 H2 IH2]; intros Hlast;
    pose proof Hl as [Hr [Hb1 Hb2] _ _ _]; intros fuel nd a c V Hfuel Hroom;
    (destruct fuel as [|f]; [lia|]);
    (destruct (decide (l ∈ V)) as [HV|HV];
      [apply expands_seen; try done; etrans; [|apply arg_need_pos; [|done]]; [lia|];
        by econstructor|]).
  - pose proof (nodes_pos l).
    destruct (uta_read_run l nd a c V Hl HV Hrd) as (a' & c' & tr & fs & E & Hbt & Ht).
    { rewrite <- arg_need_read by (done || lia).
      destruct Hroom. split; try done. lia. }
    exists a', c', V, tr, fs. split; [|split; [|done]].
    + rewrite do_uta_enter by done. cbn [u_visited]. rewrite bool_decide_eq_false_2 by done.
      rewrite <- E. destruct Hrd as [Hrd _ _ _ _]. unfold is_read in Hrd.
      unfold read_input, read_offset, read_count, read_source.
      destruct (Z.eqb_spec (i_op (info_at tbl l)) 0); [done|]. simpl in Hrd. rewrite Hrd.
      by erewrite bind_eq by (apply label_info_ok; lia).
    + rewrite arg_need_read by (done || lia). destruct Hbt. split; try done. lia.
  - destruct (unary_operand l Hl Hu He) as (Hn1 & Hn2 & Hix).
    pose proof (unary_is_read _ Hu) as Hread.
    destruct (needs_op l ltac:(lia) Hread) as [En Ek]. rewrite En, Ek in *.
    rewrite do_uta_operation by (done || by apply unary_not_read).
    eapply (uta_un_run f l); try done; try lia.
    + by apply OP_MAP_unary.
    + intros _. apply IH. lia.
    + by rewrite Hn2.
  - assert (is_binary (i_op (info_at tbl l)) = true \/ i_op (info_at tbl l) = Concat \/
      is_icmp (i_op (info_at tbl l)) = true) as Hb' by tauto.
    pose proof (binary_not_unary _ Hb') as Hop. pose proof (binary_is_read _ Hb') as Hread.
    destruct (needs_op l ltac:(lia) Hread) as [En Ek]. rewrite En, Ek in *.
    destruct (side_widths l Hl Hb' H1 H2) as [Hw1 Hw2].
    rewrite do_uta_operation by tauto.
    eapply (uta_bin_run f l); try done; try lia.
    + by apply OP_MAP_binary.
    + intros Hn. apply IH1; [done|lia].
    + intros Hn. apply IH2; [done|lia].
    + tauto.
    + pose proof (operand_need_ok (i_l2 (info_at tbl l)) ltac:(lia) H2). lia.
Qed.

(** ** Comparisons *)

Lemma cmp_expands l : cmp_ok l -> l <= last -> expands l.
Proof.
  intros [Hl Hi [kd Hk] H1 H2] Hlast. pose proof Hl as [Hr [Hb1 Hb2] _ _ _].
  assert (is_binary (i_op (info_at tbl l)) = true \/ i_op (info_at tbl l) = Concat \/
    is_icmp (i_op (info_at tbl l)) = true) as Hb' by (right; by right).
  pose proof (binary_not_unary _ Hb') as Hop. pose proof (binary_is_read _ Hb') as Hread.
  destruct (side_widths l Hl Hb' H1 H2) as [Hw1 Hw2]. destruct Hop as [Hun Hop].
  pose proof (operand_need_ok (i_l1 (info_at tbl l)) ltac:(lia) H1).
  pose proof (operand_need_ok (i_l2 (info_at tbl l)) ltac:(lia) H2).
  intros fuel nd a c V Hfuel Hroom. destruct fuel as [|f]; [lia|].
  destruct (needs_op l ltac:(lia) Hread) as [En Ek].
  destruct (decide (l ∈ V)) as [HV|HV]; [apply expands_seen; done || lia|].
  rewrite En, Ek in *. rewrite do_uta_operation by done.
  eapply (uta_bin_run f l kd); try done; try lia.
  - intros Hn. apply expr_expands; [auto|lia].
  - intros Hn. apply expr_expands; [auto|lia].
Qed.

Lemma new_constraint_inv n : args_inv buf (new_constraint n) /\ blocks R (new_constraint n).
Proof.
  split.
  - split; simpl; try done. split; simpl; [by repeat constructor|done|constructor].
  - split; [intros o k _; by left|]. intros x [i Hi]. done.
Qed.

(** The constraint of a comparison. *)
Lemma parse_constraint_run l size : cmp_ok l -> l <= last ->
  ast_size_cache p !! Z.to_nat l = Some size -> nodes tbl l <= size -> arg_need l < 2 ^ 30 ->
  exists c tr f V, parse_constraint p l = Ok (Some c) /\ repr (ast c) Root tr f /\
    args_inv buf c /\ blocks R c /\ Z.of_nat (length (input_args c)) < 2 ^ 30 /\
    tree_for c ∅ l tr V /\ hashed (local_map c) tr.
Proof.
  intros Hc Hlast Hsize Hn Hargs. pose proof Hc as [[Hr _ _ _ _] Hi _ _ _].
  pose proof (nodes_pos l). destruct (new_constraint_inv size) as [Hinv Hbl].
  destruct (cmp_expands l Hc Hlast (uta_fuel l) Root (new_ast (Z.to_nat size))
    (new_constraint size) ∅) as (a & c & V & tr & f & E & Hb & Ht).
  { unfold uta_fuel. lia. }
  { split; try done; simpl; lia. }
  exists (set_ast a c), tr, f, V. destruct Hb as [[Hrepr _ _ _ _] _ Hinv' Hbl' _ Hlen Hha]. split_and!.
  - unfold parse_constraint, label_info. rewrite (proj2 (Z.leb_gt _ _)) by lia.
    unfold is_icmp in Hi. rewrite Hi. cbn [negb andb].
    pose proof (lookup_lt_Some _ _ _ Hsize). rewrite (proj2 (Z.leb_gt _ _)) by lia.
    rewrite Hsize. cbn [at_]. rewrite (proj2 (Z.eqb_neq _ _)) by lia.
    match goal with |- context [do_uta_rel p ?f ?l ?r ?u] =>
      change u with (mk_uta (set_ast (new_ast (Z.to_nat size)) (new_constraint size)) ∅) end.
    by rewrite E.
  - exact Hrepr.
  - by apply args_inv_set_ast.
  - by apply (blocks_ext R c).
  - simpl in *. lia.
  - eapply tree_for_grow; [|exact Ht]. done.
  - exact Hha.
Qed.

End uta_spec.
