(* ===== verification/Jit.v ===== *)
(** * Compiling constraints: [solvers/jigsaw/jit.cc]

    A constraint is compiled to a function of an array of 64-bit arguments. Slots
    0 and 1 receive the operands of the comparison, the others hold constants and
    input bytes. [codegen] builds the function's body with LLVM's [IRBuilder],
    [addFunction] wraps it. *)

From S2P Require Import Prelude Ast Task.
Local Open Scope prog_scope.

(** ** LLVM values

    What the calls of the builder construct, as a term. *)

Inductive binop :=
  | BAdd | BSub | BMul | BUDiv | BSDiv | BURem | BSRem | BAnd | BOr | BXor
  | BShl | BLShr | BAShr.

Inductive Value :=
  | ConstantInt (w v : Z)               (* a [w]-bit constant *)
  | LoadArg (w slot : Z)                (* load a [w]-bit integer at [&arg[slot]] *)
  | CreateZExtOrTrunc (v : Value) (w : Z)
  | CreateZExt (v : Value) (w : Z)
  | CreateSExt (v : Value) (w : Z)
  | CreateTrunc (v : Value) (w : Z)
  | CreateBin (o : binop) (v1 v2 : Value)
  | CreateNeg (v : Value)
  | CreateNot (v : Value)
  | CreateICmpEQ (v1 v2 : Value)
  | CreateSelect (cond v1 v2 : Value).

(** The integer type of a value. *)
Fixpoint type_bits (v : Value) : Z :=
  match v with
  | ConstantInt w _ | LoadArg w _ => w
  | CreateZExtOrTrunc _ w | CreateZExt _ w | CreateSExt _ w | CreateTrunc _ w => w
  | CreateBin _ v1 _ => type_bits v1
  | CreateNeg v | CreateNot v => type_bits v
  | CreateICmpEQ _ _ => 1
  | CreateSelect _ v1 _ => type_bits v1
  end.

(** What the language reference says of the binary instructions on [w]-bit
    operands, and when the result is defined. *)
Definition bin_value (o : binop) (w x y : Z) : Z :=
  match o with
  | BAdd => wrap w (x + y)
  | BSub => wrap w (x - y)
  | BMul => wrap w (x * y)
  | BUDiv => x / y
  | BSDiv => wrap w (Z.quot (signed w x) (signed w y))
  | BURem => x mod y
  | BSRem => wrap w (Z.rem (signed w x) (signed w y))
  | BAnd => Z.land x y
  | BOr => Z.lor x y
  | BXor => Z.lxor x y
  | BShl => wrap w (Z.shiftl x y)
  | BLShr => Z.shiftr x y
  | BAShr => wrap w (Z.shiftr (signed w x) y)
  end.

Definition bin_defined (o : binop) (w x y : Z) : bool :=
  match o with
  | BUDiv | BURem => negb (y =? 0)
  | BSDiv | BSRem =>
      negb (y =? 0) && negb ((signed w x =? - 2 ^ (w - 1)) && (signed w y =? -1))
  | BShl | BLShr | BAShr => y <? w
  | _ => true
  end.

(** LLVM itself is not part of the program: [run_value m v] is what the compiled
    function computes for [v] when its argument array is [m], and the laws are
    those of the language reference for the instructions [codegen] uses. The
    result is [None] where the reference makes it undefined. *)
Class LLVMSemantics := {
  run_value : (Z -> Z) -> Value -> option Z;
  run_const m w v : run_value m (ConstantInt w v) = Some (wrap w v);
  run_load m w slot : 0 < w <= 64 -> w mod 8 = 0 -> is_u 64 (m slot) ->
    run_value m (LoadArg w slot) = Some (wrap w (m slot));
  run_zext_or_trunc m v w x : run_value m v = Some x ->
    run_value m (CreateZExtOrTrunc v w) = Some (wrap w x);
  run_zext m v w x : run_value m v = Some x -> type_bits v <= w ->
    run_value m (CreateZExt v w) = Some x;
  run_sext m v w x : run_value m v = Some x -> type_bits v <= w ->
    run_value m (CreateSExt v w) = Some (wrap w (signed (type_bits v) x));
  run_trunc m v w x : run_value m v = Some x -> w <= type_bits v ->
    run_value m (CreateTrunc v w) = Some (wrap w x);
  run_bin m o v1 v2 x y : run_value m v1 = Some x -> run_value m v2 = Some y ->
    type_bits v1 = type_bits v2 -> bin_defined o (type_bits v1) x y = true ->
    run_value m (CreateBin o v1 v2) = Some (bin_value o (type_bits v1) x y);
  run_icmp_eq m v1 v2 x y : run_value m v1 = Some x -> run_value m v2 = Some y ->
    type_bits v1 = type_bits v2 ->
    run_value m (CreateICmpEQ v1 v2) = Some (Z.b2z (x =? y));
  run_select m c v1 v2 b x y : run_value m c = Some b -> run_value m v1 = Some x ->
    run_value m v2 = Some y -> type_bits v1 = type_bits v2 ->
    run_value m (CreateSelect c v1 v2) = Some (if b =? 0 then y else x)
}.

(** ** [codegen] *)

(** The first two slots of the arguments are for the operands. *)
Definition RET_OFFSET : Z := 2.

(** The state: values generated for labels, and the stores emitted, in order. *)
Record cg := mk_cg { value_cache : gmap Z Value; stores : list (Z * Value) }.

Definition emit_store (slot : Z) (v : Value) : M cg unit :=
  modify (fun s => mk_cg (value_cache s) (stores s ++ [(slot, v)])).

(** [insert] keeps an existing entry. *)
Definition cache_value (l : Z) (v : Value) : M cg unit :=
  modify (fun s => mk_cg (match value_cache s !! l with
                          | Some _ => value_cache s
                          | None => <[l := v]> (value_cache s)
                          end) (stores s)).

(** [arg[start + k + RET_OFFSET]] as an integer of the type of the read. *)
Definition read_byte (RTy start k : Z) : Value :=
  CreateZExtOrTrunc (LoadArg 64 (u32 (start + k + RET_OFFSET))) RTy.

(** The loop over the bytes of a read from byte [k] on. *)
Fixpoint read_loop (RTy start k : Z) (n : nat) (v : Value) : Value :=
  match n with
  | O => v
  | S n' =>
      read_loop RTy start (k + 1) n'
        (CreateBin BAdd v (CreateBin BShl (read_byte RTy start k) (ConstantInt RTy (8 * k))))
  end.

(** "a hack to avoid division by zero" *)
Definition divide (o : binop) (w : Z) (c1 c2 : Value) : Value :=
  CreateBin o c1
    (CreateSelect (CreateICmpEQ c2 (ConstantInt w 0)) (ConstantInt w 1) c2).

(** The builder dereferences the values it is given. *)
Definition deref (v : option Value) : M cg Value := lift (idx v).

Section codegen.
Context (local_map : smap Z) (a : Ast).

Fixpoint codegen (fuel : nat) (r : ref) : M cg (option Value) :=
  match fuel with
  | O => throw NoFuel
  | S fuel' =>
      let! node := lift (idx (node_at r a)) in
      let! hit := gets (fun s => value_cache s !! label node) in
      match (if label node =? 0 then None else hit) with
      | Some v => ret (Some v)
      | None =>
          let unary (f : Value -> Value) : M cg (option Value) :=
            let! rc := lift (child_of (child0_ node) a) in
            let! c := codegen fuel' rc in
            let! c := deref c in
            ret (Some (f c)) in
          let both (f : AstNode -> AstNode -> Value -> Value -> M cg (option Value))
              : M cg (option Value) :=
            let! rc1 := lift (child_of (child0_ node) a) in
            let! rc2 := lift (child_of (child1_ node) a) in
            let! n1 := lift (idx (node_at rc1 a)) in
            let! n2 := lift (idx (node_at rc2 a)) in
            let! c1 := codegen fuel' rc1 in
            let! c2 := codegen fuel' rc2 in
            let! c1 := deref c1 in
            let! c2 := deref c2 in
            f n1 n2 c1 c2 in
          let binary (f : Value -> Value -> Value) := both (fun _ _ c1 c2 => ret (Some (f c1 c2))) in
          let relational :=
            both (fun _ _ c1 c2 =>
              emit_store 0 (CreateZExt c1 64) ;;;
              emit_store 1 (CreateZExt c2 64) ;;;
              ret None) in
          let! v :=
            match kind node with
            | rgd.Bool => ret (Some (ConstantInt 1 (if boolvalue node =? 0 then 0 else 1)))
            | rgd.Constant => ret (Some (LoadArg (bits node) (u32 (index node + RET_OFFSET))))
            | rgd.Read =>
                let! start := lift (at_ (sm_find (index node) local_map)) in
                let RTy := bits node in
                ret (Some (read_loop RTy start 1 (Z.to_nat (bits node / 8) - 1)
                             (read_byte RTy start 0)))
            | rgd.Concat =>
                both (fun n1 n2 c1 c2 =>
                  let w := bits n1 + bits n2 in
                  ret (Some (CreateBin BOr
                    (CreateBin BShl (CreateZExt c2 w) (ConstantInt w (bits n1)))
                    (CreateZExt c1 w))))
            | rgd.Extract =>
                unary (fun c => CreateTrunc
                  (CreateBin BLShr c (ConstantInt (type_bits c) (index node))) (bits node))
            | rgd.ZExt => unary (fun c => CreateZExtOrTrunc c (bits node))
            | rgd.SExt => unary (fun c => CreateSExt c (bits node))
            | rgd.Add => binary (CreateBin BAdd)
            | rgd.Sub => binary (CreateBin BSub)
            | rgd.Mul => binary (CreateBin BMul)
            | rgd.UDiv => binary (divide BUDiv (bits node))
            | rgd.SDiv => binary (divide BSDiv (bits node))
            | rgd.URem => binary (divide BURem (bits node))
            | rgd.SRem => binary (divide BSRem (bits node))
            | rgd.Neg => unary CreateNeg
            | rgd.Not => unary CreateNot
            | rgd.And => binary (CreateBin BAnd)
            | rgd.Or => binary (CreateBin BOr)
            | rgd.Xor => binary (CreateBin BXor)
            | rgd.Shl => binary (CreateBin BShl)
            | rgd.LShr => binary (CreateBin BLShr)
            | rgd.AShr => binary (CreateBin BAShr)
            | rgd.Equal | rgd.Distinct | rgd.Ult | rgd.Ule | rgd.Ugt | rgd.Uge
            | rgd.Slt | rgd.Sle | rgd.Sgt | rgd.Sge => relational
            | rgd.Memcmp | rgd.MemcmpN =>
                both (fun _ _ c1 c2 =>
                  emit_store 0 (CreateZExt (CreateICmpEQ c1 c2) 64) ;;; ret None)
            | rgd.LOr | rgd.LAnd | rgd.LNot | rgd.Ite | rgd.Load => throw InvalidArgument
            end in
          match v with
          | Some v => (if label node =? 0 then ret tt else cache_value (label node) v) ;;;
                      ret (Some v)
          | None => ret None
          end
      end
  end.

End codegen.

(** [addFunction]: the stores of the function's body, or [None] for -1. A tree
    has fewer levels than nodes. *)
Definition addFunction (a : Ast) (local_map : smap Z) : res (option (list (Z * Value))) :=
  let k := kind (a_root a) in
  if negb (rgd.isRelationalKind k) && negb (bool_decide (k = rgd.Memcmp))
     && negb (bool_decide (k = rgd.MemcmpN))
  then Ok None
  else match codegen local_map a (S (length (a_vec a))) Root (mk_cg ∅ []) with
       | (Ok None, s) => Ok (Some (stores s))
       | (Ok (Some _), _) => Ok None
       | (Err InvalidArgument, _) => Ok None
       | (Err e, _) => Err e
       end.

(** Running the function on [m]. Its loads are from slot 2 on and its stores go
    to slots 0 and 1, so every value sees the arguments as they were. *)
Fixpoint run_stores {L : LLVMSemantics} (fn : list (Z * Value)) (m out : Z -> Z)
    : option (Z -> Z) :=
  match fn with
  | [] => Some out
  | (slot, v) :: fn' =>
      match run_value m v with
      | Some x => run_stores fn' m (fun k => if k =? slot then x else out k)
      | None => None
      end
  end.

Definition run_function {L : LLVMSemantics} (fn : list (Z * Value)) (m : Z -> Z)
    : option (Z -> Z) := run_stores fn m m.
