(* ===== verification/JitSpec.v ===== *)
(** * The compiled function computes the comparison

    From a label to machine code: the tree [parse_constraint] builds for a
    comparison, compiled by [codegen] and run on the arguments [finalize]
    prepares, leaves the values of the label's two operands in slots 0 and 1. *)

From S2P Require Import Prelude Dfsan Runtime LabelSem Ast Task TaskSpec Parser ScanSpec ConsSpec UtaSpec Jit.
Local Open Scope prog_scope.

(** ** An instance of the instruction semantics *)

Fixpoint ir_value (m : Z -> Z) (v : Value) : option Z :=
  match v with
  | ConstantInt w x => Some (wrap w x)
  | LoadArg w slot => Some (wrap w (m slot))
  | CreateZExtOrTrunc v w => x ← ir_value m v; Some (wrap w x)
  | CreateZExt v _ => ir_value m v
  | CreateSExt v w => x ← ir_value m v; Some (wrap w (signed (type_bits v) x))
  | CreateTrunc v w => x ← ir_value m v; Some (wrap w x)
  | CreateBin o v1 v2 =>
      x ← ir_value m v1; y ← ir_value m v2;
      if bin_defined o (type_bits v1) x y then Some (bin_value o (type_bits v1) x y) else None
  | CreateNeg v => x ← ir_value m v; Some (wrap (type_bits v) (- x))
  | CreateNot v => x ← ir_value m v; Some (wrap (type_bits v) (Z.lnot x))
  | CreateICmpEQ v1 v2 => x ← ir_value m v1; y ← ir_value m v2; Some (Z.b2z (x =? y))
  | CreateSelect c v1 v2 =>
      b ← ir_value m c; x ← ir_value m v1; y ← ir_value m v2; Some (if b =? 0 then y else x)
  end.

Definition ir_semantics : LLVMSemantics.
Proof.
  refine {| run_value := ir_value |}; intros; simpl;
    repeat match goal with H : ir_value _ _ = Some _ |- _ => rewrite H; clear H end; simpl;
    try done.
  by match goal with H : bin_defined _ _ _ _ = true |- _ => rewrite H end.
Defined.

Section predicates.
Context {LLVM : InstructionDef}.

Lemma icmp_pred pr : 0 <= pr -> Z.shiftr (icmp pr) 8 = pr.
Proof.
  intros Hp. pose proof instruction_order as HO. unfold icmp.
  rewrite Z.shiftr_lor, Z.shiftr_shiftl_l by lia.
  rewrite (Z.shiftr_div_pow2 ICmp), Z.div_small, Z.lor_0_r by lia. apply Z.shiftl_0_r.
Qed.

(** The kind of a comparison. *)
Lemma OP_MAP_icmp op k : is_icmp op = true -> OP_MAP op = Some k ->
  rgd.isRelationalKind k = true /\
  forall w x y, Z.b2z (rgd.compare k w x y) = cmp_value (Z.shiftr op 8) w x y.
Proof.
  intros Hi. pose proof (icmp_not_arith _ Hi) as Hne. destruct_and! Hne.
  match goal with H : is_binary op = false |- _ =>
    unfold is_binary in H; rewrite !orb_false_iff in H; destruct_and! H end.
  unfold OP_MAP. repeat match goal with |- context [op =? ?b] =>
    match b with
    | icmp _ => fail 1
    | _ => replace (op =? b) with false by (symmetry; done || by apply Z.eqb_neq)
    end end.
  repeat (match goal with |- context [op =? icmp ?b] =>
    destruct (Z.eqb_spec op (icmp b)) as [->|];
      [intros [= <-]; rewrite icmp_pred by done; split; reflexivity|] end).
  done.
Qed.

End predicates.

Section jit_spec.
Context {LLVM : InstructionDef} {IR : LLVMSemantics}.
Context (p : parser) (buf : list Z) (R : list (Z * Z)).
Context (last : Z) (Hdag : dag (base_ p) last).

Local Abbreviation tbl := (base_ p).

(** ** Inputs on which the operations of a label are defined *)

(** [m] occurs in the expression of [l]. *)
Inductive sub_label : Z -> Z -> Prop :=
  | sub_refl l : sub_label l l
  | sub_left l m : is_read (info_at tbl l) = false -> i_l1 (info_at tbl l) <> 0 ->
      sub_label (i_l1 (info_at tbl l)) m -> sub_label l m
  | sub_right l m : is_read (info_at tbl l) = false -> i_l2 (info_at tbl l) <> 0 ->
      sub_label (i_l2 (info_at tbl l)) m -> sub_label l m.

(** Shifts are by less than the width, divisors are not zero, and a signed
    quotient fits. *)
Definition value_defined (o sz v1 v2 : Z) : bool :=
  if (o =? Shl) || (o =? LShr) || (o =? AShr) then v2 <? sz
  else if (o =? UDiv) || (o =? URem) then negb (v2 =? 0)
  else if (o =? SDiv) || (o =? SRem) then
    negb (v2 =? 0) && negb ((signed sz v1 =? - 2 ^ (sz - 1)) && (signed sz v2 =? -1))
  else true.

Definition op_defined (env : input_env) (i : dfsan_label_info) : bool :=
  value_defined (i_op i) (i_size i) (operand1 tbl (eval tbl env) i)
    (operand2 tbl (eval tbl env) i).

Definition defined (env : input_env) (l : Z) : Prop :=
  forall m, sub_label l m -> op_defined env (info_at tbl m) = true.

Lemma defined_left env l : is_read (info_at tbl l) = false -> i_l1 (info_at tbl l) <> 0 ->
  defined env l -> defined env (i_l1 (info_at tbl l)).
Proof. intros Hr Hn Hd m Hm. by apply Hd, sub_left. Qed.

Lemma defined_right env l : is_read (info_at tbl l) = false -> i_l2 (info_at tbl l) <> 0 ->
  defined env l -> defined env (i_l2 (info_at tbl l)).
Proof. intros Hr Hn Hd m Hm. by apply Hd, sub_right. Qed.

(** ** Arguments and values *)

(** What [n] arguments from slot [b] make as the bytes of a word. They are 64-bit
    numbers: the search lets a byte overflow into the next one. *)
Fixpoint arg_sum (m : Z -> Z) (b : Z) (n : nat) : Z :=
  match n with
  | O => 0
  | S n' => arg_sum m b n' + 2 ^ (8 * Z.of_nat n') * m (b + Z.of_nat n')
  end.

(** The argument array [m] of constraint [c] on the input [env]. *)
Record args_for (c : Constraint) (env : input_env) (m : Z -> Z) : Prop := {
  af_words : forall k, is_u 64 (m k);
  af_const : forall k v, input_args c !! k = Some (false, v) ->
    m (Z.of_nat k + RET_OFFSET) = v;
  af_read : forall o n b, (o, n) ∈ R -> 0 <= b -> block_at (local_map c) o n b ->
    wrap (8 * n) (arg_sum m (b + RET_OFFSET) (Z.to_nat n)) = le_bytes env o (Z.to_nat n)
}.

Context (c : Constraint).

(** [v] computes label [l]. *)
Definition computes (v : Value) (l : Z) : Prop :=
  type_bits v = i_size (info_at tbl l) /\
  forall env m, args_for c env m -> defined env l -> run_value m v = Some (eval tbl env l).

(** The value of a read. *)
Lemma read_value env l : label_ok p l -> read_ok p buf R (info_at tbl l) -> l <= last ->
  eval tbl env l = le_bytes env (read_offset tbl (info_at tbl l))
                     (Z.to_nat (read_count (info_at tbl l))).
Proof.
  intros [Hr _ _ _ _] [Hrd _ Ho _ _] Hlast. rewrite (eval_unfold _ _ last) by (done || lia).
  unfold info_value, read_offset. rewrite wrap_small by done.
  unfold is_read, read_source, read_count in *. destruct (Z.eqb_spec (i_op (info_at tbl l)) 0).
  - simpl. lia.
  - simpl in Hrd. by rewrite Hrd.
Qed.

Lemma expr_bound env l : expr_ok p buf R l -> l <= last ->
  is_u (i_size (info_at tbl l)) (eval tbl env l).
Proof.
  intros He. pose proof (fun l => expr_width p buf R l) as Hw. unfold label_width in Hw.
  induction He as [l Hl Hrd|l Hl Hu He IH|l Hl Hb H1 IH1 H2 IH2]; intros Hlast;
    pose proof Hl as [Hr [Hb1 Hb2] Hsz _ _].
  - rewrite read_value by done. pose proof Hrd as [Hrd' _ _ _ [_ Hc]].
    rewrite (read_bits p _ Hsz Hrd').
    pose proof (le_bytes_bound env (Z.to_nat (read_count (info_at tbl l)))
      (read_offset tbl (info_at tbl l))) as Hb. by rewrite Z2Nat.id in Hb by lia.
  - rewrite (eval_unfold _ _ last), <- Hw by (done || lia || by econstructor).
    destruct (unary_operand p buf R l Hl Hu He) as (Hn1 & Hn2 & _).
    apply info_value_bound; [done| |]; intros Hn; [|lia].
    unfold label_width. rewrite Hw by done. apply IH. lia.
  - rewrite (eval_unfold _ _ last), <- Hw by (done || lia || by econstructor).
    apply info_value_bound; [done| |]; intros Hn; unfold label_width; rewrite Hw by auto.
    + apply IH1; [done|lia].
    + intros _. apply IH2; [done|lia].
Qed.

(** ** Reads *)

Lemma pow2_gt w : 0 <= w -> w < 2 ^ w.
Proof. intros. apply Z.pow_gt_lin_r; lia. Qed.

(** One more byte of a read. *)
Lemma read_step_run m b w (k : nat) v :
  (forall j, is_u 64 (m j)) -> 0 <= b -> b + Z.of_nat k + RET_OFFSET < 2 ^ 32 ->
  8 * Z.of_nat (S k) <= w <= 64 ->
  type_bits v = w -> run_value m v = Some (wrap w (arg_sum m (b + RET_OFFSET) k)) ->
  run_value m (CreateBin BAdd v (CreateBin BShl (read_byte w b (Z.of_nat k))
    (ConstantInt w (8 * Z.of_nat k)))) = Some (wrap w (arg_sum m (b + RET_OFFSET) (S k))).
Proof.
  intros Hm Hb0 Hslot Hw Ht Hv. set (x := m (b + RET_OFFSET + Z.of_nat k)) in *.
  assert (is_u 64 x) as Hx by apply Hm.
  pose proof (pow2_gt w ltac:(lia)) as Hgt.
  assert (run_value m (read_byte w b (Z.of_nat k)) = Some (wrap w x)) as Hbyte.
  { unfold read_byte. erewrite run_zext_or_trunc; cycle 1.
    - rewrite (wrap_small 32) by (unfold is_u, RET_OFFSET in *; lia).
      apply run_load; [lia|done|apply Hm].
    - rewrite (wrap_small 64) by apply Hm. do 2 f_equal. unfold x. f_equal. lia. }
  assert (run_value m (CreateBin BShl (read_byte w b (Z.of_nat k))
    (ConstantInt w (8 * Z.of_nat k))) = Some (wrap w (2 ^ (8 * Z.of_nat k) * x))) as Hsh.
  { erewrite run_bin; [|exact Hbyte|apply run_const|done|].
    - simpl. rewrite (wrap_small w (8 * Z.of_nat k)) by (unfold is_u; lia).
      rewrite Z.shiftl_mul_pow2 by lia. unfold wrap.
      rewrite Z.mul_mod_idemp_l by (apply Z.pow_nonzero; lia). do 2 f_equal. lia.
    - simpl. rewrite wrap_small by (unfold is_u; lia). lia. }
  erewrite run_bin; [|exact Hv|exact Hsh|simpl; done|done]. simpl. rewrite Ht.
  unfold wrap. rewrite <- Zplus_mod. done.
Qed.

Lemma read_loop_run m b w n : forall (k : nat) v, (forall j, is_u 64 (m j)) ->
  0 <= b -> b + Z.of_nat (k + n) + RET_OFFSET < 2 ^ 32 -> 8 * Z.of_nat (k + n) <= w <= 64 ->
  type_bits v = w -> run_value m v = Some (wrap w (arg_sum m (b + RET_OFFSET) k)) ->
  run_value m (read_loop w b (Z.of_nat k) n v) =
    Some (wrap w (arg_sum m (b + RET_OFFSET) (k + n))).
Proof.
  induction n as [|n IH]; intros k v Hm Hb0 Hslot Hw Ht Hv.
  { by rewrite Nat.add_0_r. }
  simpl. replace (Z.of_nat k + 1) with (Z.of_nat (S k)) by lia.
  rewrite Nat.add_succ_r, <- Nat.add_succ_l. apply IH; try done; try lia.
  apply read_step_run; done || lia.
Qed.

Lemma read_loop_type w b n : forall k v, type_bits v = w -> type_bits (read_loop w b k n v) = w.
Proof. induction n as [|n IH]; intros k v H; simpl; auto. Qed.

(** ** Operations *)

(** What [codegen] makes of two operands. *)
Definition binary_gen (k : rgd.AstKind) (w : Z) : option (Value -> Value -> Value) :=
  match k with
  | rgd.Add => Some (CreateBin BAdd)
  | rgd.Sub => Some (CreateBin BSub)
  | rgd.Mul => Some (CreateBin BMul)
  | rgd.UDiv => Some (divide BUDiv w)
  | rgd.SDiv => Some (divide BSDiv w)
  | rgd.URem => Some (divide BURem w)
  | rgd.SRem => Some (divide BSRem w)
  | rgd.And => Some (CreateBin BAnd)
  | rgd.Or => Some (CreateBin BOr)
  | rgd.Xor => Some (CreateBin BXor)
  | rgd.Shl => Some (CreateBin BShl)
  | rgd.LShr => Some (CreateBin BLShr)
  | rgd.AShr => Some (CreateBin BAShr)
  | _ => None
  end.

Lemma divide_run m o w c1 c2 x y : type_bits c1 = w -> type_bits c2 = w ->
  run_value m c1 = Some x -> run_value m c2 = Some y -> y <> 0 ->
  bin_defined o w x y = true ->
  run_value m (divide o w c1 c2) = Some (bin_value o w x y).
Proof.
  intros T1 T2 H1 H2 Hy Hd. unfold divide.
  assert (run_value m (CreateSelect (CreateICmpEQ c2 (ConstantInt w 0)) (ConstantInt w 1) c2)
    = Some y) as Hs.
  { erewrite run_select; [| |apply run_const|exact H2|done].
    - by instantiate (1 := 0).
    - erewrite run_icmp_eq by (exact H2 || apply run_const || done).
      unfold wrap. rewrite Zmod_0_l.
      by rewrite (proj2 (Z.eqb_neq _ _) Hy). }
  erewrite run_bin; [by rewrite T1|done|exact Hs|simpl; congruence|by rewrite T1].
Qed.

Lemma binary_value_run op w : is_binary op = true ->
  exists g, binary_gen (binary_kind op) w = Some g /\
    forall c1 c2, type_bits c1 = w -> type_bits c2 = w ->
      type_bits (g c1 c2) = w /\
      forall m w1 x y, run_value m c1 = Some x -> run_value m c2 = Some y ->
        value_defined op w x y = true -> run_value m (g c1 c2) = Some (op_value op w w1 x y).
Proof.
  intros Hb. apply binary_iff in Hb.
  assert (forall o c1 c2 m x y, type_bits c1 = w -> type_bits c2 = w ->
    run_value m c1 = Some x -> run_value m c2 = Some y -> bin_defined o w x y = true ->
    run_value m (CreateBin o c1 c2) = Some (bin_value o w x y)) as Hrun.
  { intros o c1 c2 m x y T1 T2 H1 H2 Ho.
    erewrite run_bin; [by rewrite T1|done|done|congruence|by rewrite T1]. }
  unfold value_defined, binary_kind, op_value.
  destruct_or! Hb; subst op; ops; eexists; (split; [reflexivity|]); intros c1 c2 T1 T2;
    (split; [done|]); intros m w1 x y H1 H2 Hd.
  1-3, 11-13: by rewrite (Hrun _ _ _ _ x y).
  1-4: rewrite (divide_run _ _ _ _ _ x y) by (try (simpl; exact Hd); bool_hyps; tauto); simpl;
    bool_hyps; rewrite (proj2 (Z.eqb_neq y 0)) by tauto; done.
  all: rewrite (Hrun _ _ _ _ x y) by (done || exact Hd); simpl; apply Z.ltb_lt in Hd;
    rewrite ?(proj2 (Z.leb_gt w y)) by lia; try done.
  by rewrite Z.min_l by lia.
Qed.

(** Widening and the other casts. *)
Definition unary_gen (n : AstNode) (v : Value) : Value :=
  match kind n with
  | rgd.ZExt => CreateZExtOrTrunc v (bits n)
  | rgd.SExt => CreateSExt v (bits n)
  | _ => CreateTrunc (CreateBin BLShr v (ConstantInt (type_bits v) (index n))) (bits n)
  end.

Lemma lor_disjoint x y b : 0 <= b -> 0 <= x < 2 ^ b -> 0 <= y ->
  Z.lor (Z.shiftl y b) x = x + 2 ^ b * y.
Proof.
  intros Hb Hx Hy. rewrite Z.shiftl_mul_pow2 by done.
  replace (x + 2 ^ b * y) with (y * 2 ^ b + x) by lia.
  rewrite <- Z.lxor_lor, <- Z.add_nocarry_lxor; try done;
    apply Z.bits_inj'; intros i Hi; rewrite Z.land_spec, Z.bits_0;
    (destruct (Z.lt_ge_cases i b);
      [rewrite Z.mul_pow2_bits_low by lia; done|
       rewrite (testbit_high b x) by (done || lia); apply andb_false_r]).
Qed.

Lemma concat_run m w b1 c1 c2 x y : 0 < b1 < w -> type_bits c1 = b1 -> type_bits c2 = w - b1 ->
  run_value m c1 = Some x -> run_value m c2 = Some y -> is_u b1 x -> is_u (w - b1) y ->
  run_value m (CreateBin BOr (CreateBin BShl (CreateZExt c2 w) (ConstantInt w b1))
    (CreateZExt c1 w)) = Some (x + 2 ^ b1 * y).
Proof.
  intros Hb T1 T2 H1 H2 Hx Hy. pose proof (pow2_gt w ltac:(lia)).
  pose proof (concat_bound b1 (w - b1) x y ltac:(lia) ltac:(lia) Hx Hy) as Hc.
  replace (b1 + (w - b1)) with w in Hc by lia. unfold is_u in *.
  assert (run_value m (CreateBin BShl (CreateZExt c2 w) (ConstantInt w b1)) =
    Some (Z.shiftl y b1)) as Hs.
  { erewrite run_bin; [|apply run_zext; [exact H2|lia]|apply run_const|done|].
    - simpl. rewrite (wrap_small w b1) by (unfold is_u; lia).
      rewrite wrap_small; [done|]. unfold is_u. rewrite Z.shiftl_mul_pow2 by lia. lia.
    - simpl. rewrite (wrap_small w b1) by (unfold is_u; lia). lia. }
  erewrite run_bin; [|exact Hs|apply run_zext; [exact H1|lia]|done|done].
  simpl. f_equal. apply lor_disjoint; lia.
Qed.

(** ** Running [codegen] *)

Context (a : Ast) (Hinv : args_inv buf c) (Hargs : Z.of_nat (length (input_args c)) < 2 ^ 30).

Local Abbreviation gen := (codegen (local_map c) a).

(** The cache has the values of the labels [V]. *)
Definition cache_ok (V : gset Z) (s : cg) : Prop :=
  dom (value_cache s) = V /\ forall k v, value_cache s !! k = Some v -> computes v k.

Lemma cache_value_ok V s l v : cache_ok V s -> computes v l ->
  exists s', cache_value l v s = (Ok tt, s') /\ cache_ok ({[l]} ∪ V) s' /\ stores s' = stores s.
Proof.
  intros [Hd Hc] Hv. eexists. split; [reflexivity|]. split; [|done]. simpl.
  destruct (value_cache s !! l) as [v0|] eqn:E; split; simpl.
  - rewrite Hd. apply elem_of_dom_2 in E. rewrite Hd in E. set_solver.
  - done.
  - by rewrite dom_insert_L, Hd.
  - intros k w. destruct (decide (l = k)) as [<-|].
    + rewrite lookup_insert_eq. by intros [= <-].
    + rewrite lookup_insert_ne by done. apply Hc.
Qed.

Lemma child_of_repr k tr f : repr a (At k) tr f -> child_of k a = Ok (At k).
Proof.
  intros Hr. destruct (repr_node _ _ _ _ Hr) as (n & Hn & _). simpl in Hn.
  apply lookup_lt_Some in Hn. unfold child_of. by rewrite (proj2 (Nat.ltb_lt _ _)).
Qed.

(** A node with a label, once its value is known. *)
Lemma gen_finish n V s v : label n <> 0 -> cache_ok V s -> computes v (label n) ->
  exists s', ((if label n =? 0 then ret tt else cache_value (label n) v) ;;; ret (Some v)) s =
    (Ok (Some v), s') /\ cache_ok ({[label n]} ∪ V) s' /\ stores s' = stores s.
Proof.
  intros Hl Hc Hv. rewrite (proj2 (Z.eqb_neq _ _) Hl).
  destruct (cache_value_ok V s (label n) v Hc Hv) as (s' & E & Hc' & Hs').
  exists s'. split; [|done]. by erewrite bind_eq by exact E.
Qed.

(** A value that is in the cache. *)
Lemma gen_seen fuel r n V s : node_at r a = Some n -> label n <> 0 -> label n ∈ V ->
  cache_ok V s -> exists v, gen (S fuel) r s = (Ok (Some v), s) /\ computes v (label n).
Proof.
  intros Hn Hl HV [Hd Hc]. rewrite <- Hd in HV. apply elem_of_dom in HV as [v Hv].
  exists v. split; [|by apply Hc]. cbn [codegen].
  erewrite bind_eq by (unfold lift; rewrite Hn; reflexivity).
  erewrite bind_eq by reflexivity. by rewrite (proj2 (Z.eqb_neq _ _) Hl), Hv.
Qed.

Lemma not_cached V s l : cache_ok V s -> l ∉ V -> value_cache s !! l = None.
Proof. intros [<- _] H. by apply not_elem_of_dom. Qed.

Lemma gen_unary fuel r n V s tr f v s1 V1 :
  node_at r a = Some n -> label n <> 0 -> label n ∉ V -> cache_ok V s ->
  kind n = rgd.ZExt \/ kind n = rgd.SExt \/ kind n = rgd.Extract ->
  repr a (At (child0_ n)) tr f -> gen fuel (At (child0_ n)) s = (Ok (Some v), s1) ->
  cache_ok V1 s1 -> computes (unary_gen n v) (label n) ->
  exists s', gen (S fuel) r s = (Ok (Some (unary_gen n v)), s') /\
    cache_ok ({[label n]} ∪ V1) s' /\ stores s' = stores s1.
Proof.
  intros Hn Hl HV Hc Hk Hr E Hc1 Hv.
  destruct (gen_finish n V1 s1 (unary_gen n v) Hl Hc1 Hv) as (s' & E' & Hs').
  exists s'. split; [|exact Hs']. rewrite <- E'. cbn [codegen].
  erewrite bind_eq by (unfold lift; rewrite Hn; reflexivity).
  erewrite bind_eq by reflexivity. rewrite (not_cached V s) by done.
  replace (if label n =? 0 then None else None) with (@None Value) by (by case_match).
  rewrite (bind_eq _ _ s (Some (unary_gen n v)) s1); [reflexivity|]. unfold unary_gen.
  destruct Hk as [-> | [-> | ->]]; cbv iota;
    erewrite bind_eq by (unfold lift; rewrite (child_of_repr _ _ _ Hr); reflexivity);
    erewrite bind_eq by exact E; reflexivity.
Qed.

(** Both operands of a node. *)
Record operands_run (fuel : nat) (n : AstNode) (s : cg) (n1 n2 : AstNode) (v1 v2 : Value)
    (s2 : cg) : Prop := {
  or_child1 : child_of (child0_ n) a = Ok (At (child0_ n));
  or_child2 : child_of (child1_ n) a = Ok (At (child1_ n));
  or_node1 : node_at (At (child0_ n)) a = Some n1;
  or_node2 : node_at (At (child1_ n)) a = Some n2;
  or_run : exists s1, gen fuel (At (child0_ n)) s = (Ok (Some v1), s1) /\
    gen fuel (At (child1_ n)) s1 = (Ok (Some v2), s2)
}.

Ltac run_both H :=
  let C1 := fresh in let C2 := fresh in let N1 := fresh in let N2 := fresh in
  let s1 := fresh in let R1 := fresh in let R2 := fresh in
  destruct H as [C1 C2 N1 N2 (s1 & R1 & R2)];
  erewrite bind_eq by (unfold lift; rewrite C1; reflexivity);
  erewrite bind_eq by (unfold lift; rewrite C2; reflexivity);
  erewrite bind_eq by (unfold lift; rewrite N1; reflexivity);
  erewrite bind_eq by (unfold lift; rewrite N2; reflexivity);
  erewrite bind_eq by exact R1; erewrite bind_eq by exact R2;
  do 2 (erewrite bind_eq by reflexivity).

Lemma gen_binary fuel r n V s n1 n2 v1 v2 s2 V2 g :
  node_at r a = Some n -> label n <> 0 -> label n ∉ V -> cache_ok V s ->
  binary_gen (kind n) (bits n) = Some g -> operands_run fuel n s n1 n2 v1 v2 s2 ->
  cache_ok V2 s2 -> computes (g v1 v2) (label n) ->
  exists s', gen (S fuel) r s = (Ok (Some (g v1 v2)), s') /\
    cache_ok ({[label n]} ∪ V2) s' /\ stores s' = stores s2.
Proof.
  intros Hn Hl HV Hc Hg Hor Hc2 Hv.
  destruct (gen_finish n V2 s2 (g v1 v2) Hl Hc2 Hv) as (s' & E' & Hs').
  exists s'. split; [|exact Hs']. rewrite <- E'. cbn [codegen].
  erewrite bind_eq by (unfold lift; rewrite Hn; reflexivity).
  erewrite bind_eq by reflexivity. rewrite (not_cached V s) by done.
  replace (if label n =? 0 then None else None) with (@None Value) by (by case_match).
  rewrite (bind_eq _ _ s (Some (g v1 v2)) s2); [reflexivity|].
  destruct (kind n); try discriminate Hg; injection Hg as <-; cbv iota; run_both Hor; reflexivity.
Qed.

Lemma gen_concat fuel r n V s n1 n2 v1 v2 s2 V2 :
  node_at r a = Some n -> label n <> 0 -> label n ∉ V -> cache_ok V s ->
  kind n = rgd.Concat -> operands_run fuel n s n1 n2 v1 v2 s2 -> cache_ok V2 s2 ->
  let v := let w := bits n1 + bits n2 in
    CreateBin BOr (CreateBin BShl (CreateZExt v2 w) (ConstantInt w (bits n1))) (CreateZExt v1 w) in
  computes v (label n) ->
  exists s', gen (S fuel) r s = (Ok (Some v), s') /\
    cache_ok ({[label n]} ∪ V2) s' /\ stores s' = stores s2.
Proof.
  intros Hn Hl HV Hc Hk Hor Hc2 v Hv.
  destruct (gen_finish n V2 s2 v Hl Hc2 Hv) as (s' & E' & Hs').
  exists s'. split; [|exact Hs']. rewrite <- E'. cbn [codegen].
  erewrite bind_eq by (unfold lift; rewrite Hn; reflexivity).
  erewrite bind_eq by reflexivity. rewrite (not_cached V s) by done.
  replace (if label n =? 0 then None else None) with (@None Value) by (by case_match).
  rewrite (bind_eq _ _ s (Some v) s2); [reflexivity|]. rewrite Hk. cbv iota. run_both Hor. reflexivity.
Qed.

Lemma gen_relational fuel r n s n1 n2 v1 v2 s2 :
  node_at r a = Some n -> value_cache s !! label n = None ->
  rgd.isRelationalKind (kind n) = true -> operands_run fuel n s n1 n2 v1 v2 s2 ->
  exists s', gen (S fuel) r s = (Ok None, s') /\
    stores s' = stores s2 ++ [(0, CreateZExt v1 64); (1, CreateZExt v2 64)].
Proof.
  intros Hn Hc Hk Hor.
  set (s' := mk_cg (value_cache s2)
    ((stores s2 ++ [(0, CreateZExt v1 64)]) ++ [(1, CreateZExt v2 64)])).
  exists s'. split; [|by simpl; rewrite <- app_assoc]. cbn [codegen].
  erewrite bind_eq by (unfold lift; rewrite Hn; reflexivity).
  erewrite bind_eq by reflexivity. rewrite Hc.
  replace (if label n =? 0 then None else None) with (@None Value) by (by case_match).
  rewrite (bind_eq _ _ s None s'); [reflexivity|].
  destruct (kind n); try discriminate Hk; cbv iota; run_both Hor; reflexivity.
Qed.

(** ** Each kind of node computes its label *)

Lemma expr_read l : expr_ok p buf R l -> is_read (info_at tbl l) = true ->
  label_ok p l /\ read_ok p buf R (info_at tbl l).
Proof.
  intros He Hr. destruct He as [l Hl Hrd|l Hl Hu _|l Hl Hb _ _]; [done| |]; exfalso.
  - by rewrite unary_is_read in Hr.
  - rewrite binary_is_read in Hr; [done|]. tauto.
Qed.

Lemma read_computes l b : expr_ok p buf R l -> l <= last -> is_read (info_at tbl l) = true ->
  let i := info_at tbl l in
  0 <= b -> block_at (local_map c) (read_offset tbl i) (read_count i) b ->
  computes (read_loop (i_size i) b 1 (Z.to_nat (i_size i / 8) - 1) (read_byte (i_size i) b 0)) l.
Proof.
  intros He Hlast Hr i Hb Hblk. destruct (expr_read l He Hr) as [Hl Hrd].
  pose proof Hl as [_ _ Hsz [_ Hby] _]. pose proof (read_bits p _ Hsz Hr) as Hbits.
  pose proof Hrd as [_ _ _ HR [_ Hcnt]]. fold i in Hbits, Hcnt, Hby, Hsz, Hrd, HR.
  split; [by apply read_loop_type|].
  intros env m [Hw _ Hm] _. rewrite (read_value env l) by done. fold i.
  rewrite <- (Hm _ _ _ HR Hb Hblk), <- Hbits. set (n := Z.to_nat (read_count i)) in *.
  assert (b + Z.of_nat n + RET_OFFSET < 2 ^ 32) as Hslot.
  { destruct (ai_sym _ _ Hinv (read_offset tbl i + Z.of_nat (n - 1)) (b + Z.of_nat (n - 1)))
      as [_ Hlk]; [rewrite Hblk by lia; f_equal; lia|].
    apply lookup_lt_Some in Hlk. unfold RET_OFFSET. lia. }
  replace (Z.to_nat (i_size i / 8) - 1)%nat with (n - 1)%nat
    by (rewrite Hbits, Z.mul_comm, Z.div_mul by lia; done).
  replace n with (1 + (n - 1))%nat at 2 by lia.
  change 1 with (Z.of_nat 1) at 1. apply read_loop_run; try done; try lia.
  unfold read_byte. erewrite run_zext_or_trunc; cycle 1.
  - rewrite (wrap_small 32) by (unfold is_u, RET_OFFSET in *; lia).
    apply run_load; [lia|done|apply Hw].
  - rewrite (wrap_small 64) by apply Hw. unfold arg_sum.
    change (2 ^ (8 * Z.of_nat 0)) with 1. do 2 f_equal. rewrite Z.add_0_l, Z.mul_1_l. f_equal. lia.
Qed.

Lemma unary_computes l n v : expr_ok p buf R l -> l <= last ->
  let i := info_at tbl l in is_unary (i_op i) = true -> OP_MAP (i_op i) = Some (kind n) ->
  bits n = i_size i -> index n = (if i_op i =? Extract then i_op2 i else 0) ->
  computes v (i_l1 i) -> computes (unary_gen n v) l.
Proof.
  intros He Hlast i Hu Hk Hb Hix [Ht Hv].
  assert (label_ok p l /\ expr_ok p buf R (i_l1 i)) as [Hl He1].
  { destruct He as [l Hl Hrd|l Hl _ He1|l Hl Hbin _ _]; [| done |]; exfalso.
    - destruct Hrd as [Hr _ _ _ _]. by rewrite unary_is_read in Hr.
    - destruct (binary_not_unary (i_op (info_at tbl l))) as [E _]; [tauto|].
      subst i. congruence. }
  destruct (unary_operand p buf R l Hl Hu He1) as (Hn1 & Hn2 & Hix30). fold i in Hn1, Hn2, Hix30.
  pose proof Hl as [Hr [Hb1 _] [Hs Hsz] _ _]. fold i in Hb1, Hsz, Hs.
  assert (unary_is : is_read i = false) by (by apply unary_is_read).
  pose proof (expr_width p buf R _ He1) as Hw1. unfold label_width in Hsz.
  fold (label_width tbl (i_l1 i)) in Hsz. rewrite Hw1 in Hsz.
  split.
  { unfold unary_gen. destruct (kind n); simpl; done. }
  intros env m Hm Hd. rewrite (eval_unfold _ _ last) by (done || lia). fold i.
  specialize (Hv env m Hm (defined_left env l unary_is Hn1 Hd)). fold i in Hv.
  pose proof (expr_bound env (i_l1 i) He1 ltac:(lia)) as Hx.
  set (x := eval tbl env (i_l1 i)) in *.
  unfold info_value. fold (is_read i) in unary_is. unfold is_read in unary_is.
  apply orb_false_iff in unary_is as [-> ->].
  assert (operand1 tbl (eval tbl env) i = x) as ->.
  { unfold operand1. by rewrite (proj2 (Z.eqb_neq _ _) Hn1). }
  assert (width1 tbl i = i_size (info_at tbl (i_l1 i))) as Ew.
  { unfold width1. by rewrite (proj2 (Z.eqb_neq _ _) Hn1). }
  rewrite (OP_MAP_unary _ Hu) in Hk. injection Hk as Hk. unfold unary_gen. rewrite <- Hk.
  unfold operand2. rewrite Hn2. apply unary_ops in Hu.
  destruct_or! Hu; rewrite Hu in Hsz, Hix |- *; revert Hsz Hix; ops; intros Hsz Hix.
  - destruct Hsz as (_ & _ & Hle). rewrite op_value_ZExt.
    erewrite run_zext_or_trunc by exact Hv. rewrite wrap_small; [done|]. rewrite Hb.
    pose proof (Z.pow_le_mono_r 2 _ _ ltac:(lia) Hle). unfold is_u in *. lia.
  - destruct Hsz as (_ & _ & Hle). rewrite op_value_SExt, Ew.
    erewrite run_sext by (exact Hv || lia). by rewrite Hb, Ht.
  - destruct Hsz as (_ & _ & H0 & Hle). rewrite op_value_Extract, Hix.
    pose proof (pow2_gt (i_size (info_at tbl (i_l1 i))) ltac:(lia)).
    erewrite run_trunc; [by rewrite Hb| |simpl; lia].
    erewrite run_bin; [|exact Hv|apply run_const|done|]; simpl; rewrite Ht, wrap_small
      by (unfold is_u; lia); [done|lia].
  - destruct Hsz as (_ & _ & Hle). rewrite op_value_Trunc, Hix.
    pose proof (pow2_gt (i_size (info_at tbl (i_l1 i))) ltac:(lia)).
    erewrite run_trunc; [by rewrite Hb| |simpl; lia].
    erewrite run_bin; [|exact Hv|apply run_const|done|]; simpl; rewrite Ht, wrap_small
      by (unfold is_u; lia); [by rewrite Z.shiftr_0_r|lia].
Qed.

(** ** Operands *)

(** The value of an operand: the label [k], or the [w]-bit constant [v]. *)
Definition side_value (k w v : Z) (env : input_env) : Z :=
  if k =? 0 then wrap w v else eval tbl env k.

Definition side_computes (val : Value) (k w v : Z) : Prop :=
  type_bits val = w /\
  forall env m, args_for c env m -> (k <> 0 -> defined env k) ->
    run_value m val = Some (side_value k w v env).

(** [codegen] is right for the tree [tr]. *)
Definition gen_ok (tr : tree) : Prop := forall r f V l V' s fuel,
  repr a r tr f -> tree_for p c V l tr V' -> expr_ok p buf R l -> l <= last -> cache_ok V s ->
  (depth tr < fuel)%nat ->
  exists v s', gen fuel r s = (Ok (Some v), s') /\ computes v l /\
    cache_ok ({[l]} ∪ V') s' /\ stores s' = stores s.

Lemma tree_for_bits V l tr V' : tree_for p c V l tr V' ->
  bits (tree_node tr) = i_size (info_at tbl l).
Proof. destruct tr; simpl; tauto. Qed.

Lemma side_run tr r f k w v V V' s fuel : gen_ok tr -> repr a r tr f ->
  side_for p c V k w v tr V' -> cache_ok V s -> (depth tr < fuel)%nat ->
  (k = 0 -> 0 < w <= 64 /\ w mod 8 = 0) ->
  (k <> 0 -> expr_ok p buf R k /\ k <= last /\ w = i_size (info_at tbl k)) ->
  exists val s', gen fuel r s = (Ok (Some val), s') /\ side_computes val k w v /\
    cache_ok V' s' /\ stores s' = stores s /\ bits (tree_node tr) = w.
Proof.
  intros Hok Hr Hs Hc Hd H0 Hk. unfold side_for, side_computes, side_value in *.
  destruct (Z.eqb_spec k 0) as [->|Hne].
  - destruct Hs as [(n & j & -> & Hkind & Hlab & Hbits & Hidx & Harg) ->].
    inversion Hr as [? n' Hn' ? ?| |]; subst. simpl in Hkind, Hlab, Hidx.
    destruct fuel as [|fuel]; [lia|]. destruct H0 as [Hw Hmod]; [done|].
    exists (LoadArg (bits n') (u32 (index n' + RET_OFFSET))), s. split_and!; try done.
    + cbn [codegen]. erewrite bind_eq by (unfold lift; rewrite Hn'; reflexivity).
      erewrite bind_eq by reflexivity. simpl in Hlab. rewrite Hlab, Z.eqb_refl. cbv iota.
      by rewrite Hkind.
    + intros env m [Hwords Hconst _] _. simpl in Hidx. rewrite Hidx.
      assert (Z.of_nat j + RET_OFFSET < 2 ^ 32).
      { apply lookup_lt_Some in Harg. unfold RET_OFFSET. lia. }
      rewrite (wrap_small 32) by (unfold is_u, RET_OFFSET in *; lia).
      rewrite run_load by (done || apply Hwords). by rewrite (Hconst j v Harg).
  - destruct Hs as (V0 & Ht & ->). destruct (Hk Hne) as (He & Hl & ->).
    destruct (Hok r f V k V0 s fuel Hr Ht He Hl Hc Hd) as (val & s' & E & [Hty Hrun] & Hc' & Hst).
    exists val, s'. split_and!; try done.
    + intros env m Hm Hdef. by apply Hrun, Hdef.
    + by eapply tree_for_bits.
Qed.

(** The widths of the two operands of a record. *)
Definition sw1 (i : dfsan_label_info) : Z :=
  if i_l1 i =? 0 then width1 tbl i else i_size (info_at tbl (i_l1 i)).
Definition sw2 (i : dfsan_label_info) : Z :=
  if i_l2 i =? 0 then width2 tbl i else i_size (info_at tbl (i_l2 i)).

Lemma side_for_width k w w' v V tr V' : k <> 0 -> side_for p c V k w v tr V' ->
  side_for p c V k w' v tr V'.
Proof. intros Hk. unfold side_for. by rewrite (proj2 (Z.eqb_neq _ _) Hk). Qed.

Section operands.
Context (l : Z) (Hl : label_ok p l) (Hlast : l <= last).
Let i := info_at tbl l.
Context (Hop : is_binary (i_op i) = true \/ i_op i = Concat \/ is_icmp (i_op i) = true).
Context (H1 : i_l1 i <> 0 -> expr_ok p buf R (i_l1 i)) (H2 : i_l2 i <> 0 -> expr_ok p buf R (i_l2 i)).

Lemma sw_facts :
  (i_op i = Concat -> 0 < sw1 i /\ 0 < sw2 i /\ sw1 i + sw2 i = i_size i /\
     width1 tbl i = sw1 i) /\
  (i_op i <> Concat -> sw1 i = i_size i /\ sw2 i = i_size i).
Proof.
  pose proof Hl as [Hr [Hb1 Hb2] [Hs Hsz] _ _]. fold i in Hb1, Hb2, Hsz, Hs.
  destruct (side_widths p buf R l Hl Hop H1 H2) as [C1 C2]. fold i in C1, C2.
  unfold sw1, sw2, constant_width in *. split; intros Hc.
  - rewrite Hc in *. revert Hsz. ops. intros (Hne & Hw1 & Hw2). unfold width1 in *.
    rewrite Hc, Z.eqb_refl in *. revert C1 C2. unfold label_width in *. unfold width2. rewrite Hc, Z.eqb_refl.
    destruct (Z.eqb_spec (i_l1 i) 0) as [E1|E1], (Z.eqb_spec (i_l2 i) 0) as [E2|E2]; intros C1 C2.
    + lia.
    + destruct (C1 E1) as (? & ? & ? & ?). pose proof (expr_label p buf R _ (H2 E2)) as [_ _ [? _] _ _].
      split_and!; lia.
    + destruct (C2 E2) as (? & ? & ? & ?). pose proof (expr_label p buf R _ (H1 E1)) as [_ _ [? _] _ _].
      pose proof (expr_width p buf R _ (H1 E1)) as Ew. unfold label_width in Ew. split_and!; lia.
    + pose proof (expr_width p buf R _ (H1 E1)) as Ew1. pose proof (expr_width p buf R _ (H2 E2)) as Ew2.
      pose proof (expr_label p buf R _ (H1 E1)) as [_ _ [? _] _ _].
      pose proof (expr_label p buf R _ (H2 E2)) as [_ _ [? _] _ _].
      unfold label_width in Ew1, Ew2. specialize (Hw2 E2). split_and!; lia.
  - rewrite (proj2 (Z.eqb_neq _ _) Hc) in *.
    assert ((i_l1 i <> 0 -> label_width tbl (i_l1 i) = i_size i) /\
            (i_l2 i <> 0 -> label_width tbl (i_l2 i) = i_size i)) as [L1 L2].
    { destruct (binary_not_unary _ Hop) as (Hu & Hn0 & HnL & _).
      unfold is_unary in Hu. rewrite !orb_false_iff in Hu. destruct_and! Hu.
      rewrite (proj2 (Z.eqb_neq _ _) Hn0), (proj2 (Z.eqb_neq _ _) HnL) in Hsz.
      repeat match goal with H : (i_op i =? _) = false |- _ => rewrite H in Hsz; clear H end.
      cbn [orb] in Hsz.
      destruct Hop as [Hb|[|Hi]]; [|done|].
      - pose proof (binary_small _ Hb) as (_ & _ & _ & _ & _ & _ & _ & _ & _ & HnN).
        by rewrite (proj2 (Z.eqb_neq _ _) HnN), Hb in Hsz.
      - pose proof (icmp_not_arith _ Hi) as (_ & _ & _ & _ & _ & _ & _ & HnN & _).
        by rewrite (proj2 (Z.eqb_neq _ _) HnN), Hi, orb_true_r in Hsz. }
    split.
    + destruct (Z.eqb_spec (i_l1 i) 0) as [E|E]; [by destruct (C1 E)|].
      by rewrite <- (expr_width p buf R _ (H1 E)), L1.
    + destruct (Z.eqb_spec (i_l2 i) 0) as [E|E]; [by destruct (C2 E)|].
      by rewrite <- (expr_width p buf R _ (H2 E)), L2.
Qed.

Lemma sw_const :
  (i_l1 i = 0 -> 0 < sw1 i <= 64 /\ sw1 i mod 8 = 0) /\
  (i_l2 i = 0 -> 0 < sw2 i <= 64 /\ sw2 i mod 8 = 0).
Proof.
  destruct sw_facts as [Hc Hn]. pose proof Hl as [_ _ [Hs Hsz] Hby _]. fold i in Hby, Hs, Hsz.
  destruct (Z.eq_dec (i_op i) Concat) as [E|E].
  - destruct (Hc E) as (P1 & P2 & Hsum & _).
    rewrite E in Hsz. revert Hsz. ops. intros (Hne & _ & _).
    assert (forall k, k <> 0 -> expr_ok p buf R k -> exists q, i_size (info_at tbl k) = 8 * q) as Hq.
    { intros k _ He. destruct (expr_label p buf R _ He) as [_ _ _ [Hm _] _].
      apply Z.mod_divide in Hm as [q ->]; [|lia]. exists q. lia. }
    assert (exists q, i_size i = 8 * q) as [q Eq].
    { destruct Hby as [Hm _]. apply Z.mod_divide in Hm as [q ->]; [|lia]. exists q. lia. }
    split; intros E0.
    + split; [lia|]. destruct Hne as [|Hne]; [done|]. destruct (Hq _ Hne (H2 Hne)) as [q2 Eq2].
      assert (sw2 i = 8 * q2) as Ew2.
      { unfold sw2. by rewrite (proj2 (Z.eqb_neq _ _) Hne). }
      replace (sw1 i) with ((q - q2) * 8) by lia. by apply Z_mod_mult.
    + split; [lia|]. destruct Hne as [Hne|]; [|done]. destruct (Hq _ Hne (H1 Hne)) as [q1 Eq1].
      assert (sw1 i = 8 * q1) as Ew1.
      { unfold sw1. by rewrite (proj2 (Z.eqb_neq _ _) Hne). }
      replace (sw2 i) with ((q - q1) * 8) by lia. by apply Z_mod_mult.
  - destruct (Hn E) as [-> ->]. split; intros _; (split; [lia|]); by destruct Hby.
Qed.

Lemma operands_side env :
  operand1 tbl (eval tbl env) i = side_value (i_l1 i) (sw1 i) (i_op1 i) env /\
  operand2 tbl (eval tbl env) i = side_value (i_l2 i) (sw2 i) (i_op2 i) env.
Proof.
  unfold operand1, operand2, side_value, sw1, sw2. split; [by destruct (i_l1 i =? 0)|].
  destruct (i_l2 i =? 0); [|done]. destruct (binary_not_unary _ Hop) as [Hu _].
  unfold is_unary in Hu. rewrite !orb_false_iff in Hu. by destruct Hu as [[_ ->] _].
Qed.

Lemma side_bound env k w v : (k = 0 -> 0 < w <= 64 /\ w mod 8 = 0) ->
  (k <> 0 -> expr_ok p buf R k /\ k <= last /\ w = i_size (info_at tbl k)) ->
  is_u w (side_value k w v env).
Proof.
  intros H0 Hk. unfold side_value. destruct (Z.eqb_spec k 0) as [E|E].
  - apply wrap_bound. destruct (H0 E). lia.
  - destruct (Hk E) as (He & Hle & ->). by apply expr_bound.
Qed.

Lemma sub1 : i_l1 i <> 0 ->
  expr_ok p buf R (i_l1 i) /\ i_l1 i <= last /\ sw1 i = i_size (info_at tbl (i_l1 i)).
Proof.
  intros Hn. pose proof Hl as [_ [Hb _] _ _ _]. fold i in Hb. split_and!; [auto|lia|].
  unfold sw1. by rewrite (proj2 (Z.eqb_neq _ _) Hn).
Qed.
Lemma sub2 : i_l2 i <> 0 ->
  expr_ok p buf R (i_l2 i) /\ i_l2 i <= last /\ sw2 i = i_size (info_at tbl (i_l2 i)).
Proof.
  intros Hn. pose proof Hl as [_ [_ Hb] _ _ _]. fold i in Hb. split_and!; [auto|lia|].
  unfold sw2. by rewrite (proj2 (Z.eqb_neq _ _) Hn).
Qed.

(** Both operands of a node for [l]. *)
Lemma operands_gen r nd s1 s2 f V V' s fuel : repr a r (Bin nd s1 s2) f ->
  tree_for p c V l (Bin nd s1 s2) V' -> gen_ok s1 -> gen_ok s2 -> cache_ok V s ->
  (depth (Bin nd s1 s2) < S fuel)%nat ->
  exists n n1 n2 v1 v2 s', node_at r a = Some n /\ payload n = nd /\
    operands_run fuel n s n1 n2 v1 v2 s' /\
    side_computes v1 (i_l1 i) (sw1 i) (i_op1 i) /\ side_computes v2 (i_l2 i) (sw2 i) (i_op2 i) /\
    cache_ok V' s' /\ stores s' = stores s /\ bits n1 = sw1 i /\ bits n2 = sw2 i.
Proof.
  intros Hr Ht G1 G2 Hc Hd. destruct sw_const as [K1 K2].
  inversion Hr as [| |? n k1 k2 ? ? f1 f2 Hn E1 Hk1 E2 Hk2 R1 R2 _ _]; subst.
  destruct Ht as (_ & _ & _ & _ & _ & _ & W & S1 & S2). fold i in S1, S2.
  fold (side_for p c V (i_l1 i) (width1 tbl i) (i_op1 i) s1 W) in S1.
  fold (side_for p c W (i_l2 i) (width2 tbl i) (i_op2 i) s2 V') in S2.
  simpl in Hd.
  assert (side_for p c V (i_l1 i) (sw1 i) (i_op1 i) s1 W) as S1'.
  { unfold sw1. destruct (Z.eqb_spec (i_l1 i) 0) as [E|E]; [done|]. by eapply side_for_width. }
  assert (side_for p c W (i_l2 i) (sw2 i) (i_op2 i) s2 V') as S2'.
  { unfold sw2. destruct (Z.eqb_spec (i_l2 i) 0) as [E|E]; [done|]. by eapply side_for_width. }
  destruct (side_run s1 _ _ _ _ _ _ _ s fuel G1 R1 S1' Hc ltac:(lia) K1 sub1)
    as (v1 & sa & Ea & C1 & Hca & Sa & B1).
  destruct (side_run s2 _ _ _ _ _ _ _ sa fuel G2 R2 S2' Hca ltac:(lia) K2 sub2)
    as (v2 & sb & Eb & C2 & Hcb & Sb & B2).
  destruct (repr_node _ _ _ _ R1) as (n1 & N1 & P1).
  destruct (repr_node _ _ _ _ R2) as (n2 & N2 & P2).
  exists n, n1, n2, v1, v2, sb. split_and!; try done.
  - split; [by eapply child_of_repr|by eapply child_of_repr|done|done|]. by exists sa.
  - congruence.
  - rewrite <- B1, <- P1. done.
  - rewrite <- B2, <- P2. done.
Qed.

Lemma sides_value env m v1 v2 : is_read i = false -> args_for c env m -> defined env l ->
  side_computes v1 (i_l1 i) (sw1 i) (i_op1 i) -> side_computes v2 (i_l2 i) (sw2 i) (i_op2 i) ->
  run_value m v1 = Some (operand1 tbl (eval tbl env) i) /\
  run_value m v2 = Some (operand2 tbl (eval tbl env) i) /\
  is_u (sw1 i) (operand1 tbl (eval tbl env) i) /\ is_u (sw2 i) (operand2 tbl (eval tbl env) i) /\
  op_defined env i = true.
Proof.
  intros Hr Hm Hd [_ V1] [_ V2]. destruct (operands_side env) as [-> ->]. destruct sw_const.
  split_and!.
  - apply V1; [done|]. intros Hn. by apply (defined_left env l).
  - apply V2; [done|]. intros Hn. by apply (defined_right env l).
  - apply side_bound; [done|exact sub1].
  - apply side_bound; [done|exact sub2].
  - apply Hd. constructor.
Qed.

Lemma eval_operation env : is_read i = false ->
  eval tbl env l = op_value (i_op i) (i_size i) (width1 tbl i) (operand1 tbl (eval tbl env) i)
                     (operand2 tbl (eval tbl env) i).
Proof.
  intros Hr. pose proof Hl as [? _ _ _ _]. rewrite (eval_unfold _ _ last) by (done || lia). fold i.
  unfold info_value. unfold is_read in Hr. apply orb_false_iff in Hr as [-> ->]. done.
Qed.

End operands.

(** A read that has not been seen. *)
Lemma gen_read fuel r n V s start : node_at r a = Some n -> label n <> 0 -> label n ∉ V ->
  cache_ok V s -> kind n = rgd.Read -> sm_find (index n) (local_map c) = Some start ->
  let v := read_loop (bits n) start 1 (Z.to_nat (bits n / 8) - 1) (read_byte (bits n) start 0) in
  computes v (label n) ->
  exists s', gen (S fuel) r s = (Ok (Some v), s') /\
    cache_ok ({[label n]} ∪ V) s' /\ stores s' = stores s.
Proof.
  intros Hn Hl HV Hc Hk Hf v Hv.
  destruct (gen_finish n V s v Hl Hc Hv) as (s' & E' & Hs').
  exists s'. split; [|exact Hs']. rewrite <- E'. cbn [codegen].
  erewrite bind_eq by (unfold lift; rewrite Hn; reflexivity).
  erewrite bind_eq by reflexivity. rewrite (not_cached V s) by done.
  replace (if label n =? 0 then None else None) with (@None Value) by (by case_match).
  rewrite (bind_eq _ _ s (Some v) s); [reflexivity|]. rewrite Hk. cbv iota.
  erewrite bind_eq by (unfold lift; rewrite Hf; reflexivity). reflexivity.
Qed.

Lemma codegen_leaf nd : gen_ok (Leaf nd).
Proof.
  intros r f V l V' s fuel Hr Ht He Hlast Hc Hd.
  pose proof (expr_label p buf R l He) as Hl. pose proof Hl as [Hrange _ _ _ _].
  destruct fuel as [|fuel]; [lia|]. destruct Ht as (Hlab & Hbits & -> & Hcase).
  inversion Hr as [? n Hn E1 E2| |]; subst.
  change (label (payload n)) with (label n) in *. change (bits (payload n)) with (bits n) in *.
  destruct Hcase as [[HV _]|(HV & Hread & Hk & Hix & b & Hb0 & Hblk)].
  - destruct (gen_seen fuel r n V s Hn ltac:(lia) HV Hc) as (v & E & Hv).
    exists v, s. split_and!; try done.
    by replace ({[label n]} ∪ V) with V by set_solver.
  - pose proof (read_computes (label n) b He Hlast Hread Hb0 Hblk) as Hv. cbv zeta in Hv.
    rewrite <- Hbits in Hv.
    destruct (expr_read _ He Hread) as [_ [_ _ _ _ [_ Hcnt]]].
    assert (sm_find (index n) (local_map c) = Some b) as Hf.
    { change (index (payload n)) with (index n) in Hix. rewrite Hix, Hblk by lia. f_equal. lia. }
    destruct (gen_read fuel r n V s b Hn ltac:(lia) HV Hc Hk Hf Hv) as (s' & E & Hs').
    by eexists _, s'.
Qed.

Lemma codegen_un nd t : gen_ok t -> gen_ok (Un nd t).
Proof.
  intros IH r f V l V' s fuel Hr Ht He Hlast Hc Hd.
  pose proof (expr_label p buf R l He) as Hl. pose proof Hl as [Hrange [Hb1 _] _ _ _].
  destruct fuel as [|fuel]; [lia|].
  destruct Ht as (HV & Hlab & Hbits & Hu & Hop & Hix & W & Ht & ->).
  inversion Hr as [|? n k ? f1 Hn E1 E2 Hk R1 _|]; subst.
  change (label (payload n)) with (label n) in *. change (bits (payload n)) with (bits n) in *.
  change (kind (payload n)) with (kind n) in *. change (index (payload n)) with (index n) in *.
  assert (expr_ok p buf R (i_l1 (info_at tbl (label n)))) as He1.
  { destruct He as [l Hl' Hrd|l _ _ He1|l Hl' Hbin _ _]; [|done|]; exfalso.
    - destruct Hrd as [Hrd _ _ _ _]. by rewrite unary_is_read in Hrd.
    - destruct (binary_not_unary (i_op (info_at tbl l))) as [E _]; [tauto|]. congruence. }
  simpl in Hd.
  destruct (IH _ _ V _ W s fuel R1 Ht He1 ltac:(lia) Hc ltac:(lia)) as (v & s1 & Ev & Hv & Hc1 & Hs1).
  destruct (gen_unary fuel r n V s t f1 v s1 ({[i_l1 (info_at tbl (label n))]} ∪ W)
    Hn ltac:(lia) HV Hc) as (s' & E & Hc' & Hs'); try done.
  - rewrite (OP_MAP_unary _ Hu) in Hop. injection Hop as <-. repeat case_match; tauto.
  - by apply unary_computes.
  - eexists _, s'. split_and!; try done; [by apply unary_computes|congruence].
Qed.

(** The operands of a binary expression. *)
Lemma expr_binary l : expr_ok p buf R l -> let i := info_at tbl l in
  is_unary (i_op i) = false -> is_read i = false ->
  (is_binary (i_op i) = true \/ i_op i = Concat) /\
  (i_l1 i <> 0 -> expr_ok p buf R (i_l1 i)) /\ (i_l2 i <> 0 -> expr_ok p buf R (i_l2 i)).
Proof.
  intros He i Hu Hr. subst i. destruct He as [l _ [Hrd _ _ _ _]|l _ Hu' _|l _ Hb H1 H2].
  - congruence.
  - congruence.
  - done.
Qed.

Lemma concat_computes l n1 n2 v1 v2 : label_ok p l -> l <= last ->
  let i := info_at tbl l in i_op i = Concat ->
  (i_l1 i <> 0 -> expr_ok p buf R (i_l1 i)) -> (i_l2 i <> 0 -> expr_ok p buf R (i_l2 i)) ->
  bits n1 = sw1 i -> bits n2 = sw2 i ->
  side_computes v1 (i_l1 i) (sw1 i) (i_op1 i) -> side_computes v2 (i_l2 i) (sw2 i) (i_op2 i) ->
  computes (let w := bits n1 + bits n2 in
    CreateBin BOr (CreateBin BShl (CreateZExt v2 w) (ConstantInt w (bits n1))) (CreateZExt v1 w)) l.
Proof.
  intros Hl Hlast i Hc H1 H2 B1 B2 S1 S2.
  assert (is_binary (i_op i) = true \/ i_op i = Concat \/ is_icmp (i_op i) = true) as Hop by tauto.
  destruct (proj1 (sw_facts l Hl Hop H1 H2) Hc) as (P1 & P2 & Hsum & Hw). fold i in P1, P2, Hsum, Hw.
  assert (Hr : is_read i = false) by (by apply binary_is_read).
  rewrite B1, B2, Hsum. split; [done|]. intros env m Hm Hd.
  destruct (sides_value l Hl Hlast Hop H1 H2 env m v1 v2 Hr Hm Hd S1 S2) as (E1 & E2 & U1 & U2 & _).
  fold i in E1, E2, U1, U2. rewrite (eval_operation l Hl Hlast) by done. fold i.
  rewrite Hc, op_value_Concat, Hw.
  apply concat_run; try done; [lia|apply S1|rewrite <- Hsum|rewrite <- Hsum].
  - destruct S2. lia.
  - by replace (sw1 i + sw2 i - sw1 i) with (sw2 i) by lia.
Qed.

Lemma binary_computes l g v1 v2 : label_ok p l -> l <= last ->
  let i := info_at tbl l in is_binary (i_op i) = true ->
  (i_l1 i <> 0 -> expr_ok p buf R (i_l1 i)) -> (i_l2 i <> 0 -> expr_ok p buf R (i_l2 i)) ->
  binary_gen (binary_kind (i_op i)) (i_size i) = Some g ->
  side_computes v1 (i_l1 i) (sw1 i) (i_op1 i) -> side_computes v2 (i_l2 i) (sw2 i) (i_op2 i) ->
  computes (g v1 v2) l.
Proof.
  intros Hl Hlast i Hb H1 H2 Hg S1 S2.
  assert (is_binary (i_op i) = true \/ i_op i = Concat \/ is_icmp (i_op i) = true) as Hop by tauto.
  assert (i_op i <> Concat) as Hnc by (pose proof (binary_small _ Hb); tauto).
  destruct (proj2 (sw_facts l Hl Hop H1 H2) Hnc) as [W1 W2]. fold i in W1, W2.
  assert (Hr : is_read i = false) by (by apply binary_is_read).
  destruct (binary_value_run (i_op i) (i_size i) Hb) as (g' & Hg' & Hrun).
  rewrite Hg in Hg'. injection Hg' as <-.
  destruct (Hrun v1 v2) as [Ht Hval]; [rewrite <- W1; apply S1|rewrite <- W2; apply S2|].
  split; [exact Ht|]. intros env m Hm Hd.
  destruct (sides_value l Hl Hlast Hop H1 H2 env m v1 v2 Hr Hm Hd S1 S2) as (E1 & E2 & _ & _ & D).
  rewrite (eval_operation l Hl Hlast) by done. by apply Hval.
Qed.

Lemma codegen_bin nd t1 t2 : gen_ok t1 -> gen_ok t2 -> gen_ok (Bin nd t1 t2).
Proof.
  intros G1 G2 r f V l V' s fuel Hr Ht He Hlast Hc Hd.
  pose proof (expr_label p buf R l He) as Hl. pose proof Hl as [Hrange _ _ _ _].
  destruct fuel as [|fuel]; [lia|].
  pose proof Ht as (HV & Hlab & Hbits & Hu & Hrd & Hk & _).
  destruct (expr_binary l He Hu Hrd) as (Hb & H1 & H2).
  assert (is_binary (i_op (info_at tbl l)) = true \/ i_op (info_at tbl l) = Concat \/
    is_icmp (i_op (info_at tbl l)) = true) as Hop by tauto.
  destruct (operands_gen l Hl Hlast Hop H1 H2 r nd t1 t2 f V V' s fuel Hr Ht G1 G2 Hc Hd)
    as (n & n1 & n2 & v1 & v2 & s2 & Hn & <- & Hor & S1 & S2 & Hc2 & Hs2 & B1 & B2).
  change (label (payload n)) with (label n) in *. change (bits (payload n)) with (bits n) in *.
  change (kind (payload n)) with (kind n) in *. subst l. clear Hr Ht.
  rewrite (OP_MAP_binary _ Hb) in Hk. injection Hk as Hk. destruct Hb as [Hb|Hcc].
  - destruct (binary_value_run _ (i_size (info_at tbl (label n))) Hb) as (g & Hg & _).
    pose proof (binary_computes _ g v1 v2 Hl Hlast Hb H1 H2 Hg S1 S2) as Hv.
    destruct (gen_binary fuel r n V s n1 n2 v1 v2 s2 V' g) as (s' & E & Hc' & Hs'); try done.
    { lia. } { by rewrite <- Hk, Hbits. }
    exists (g v1 v2), s'. split_and!; try done. congruence.
  - pose proof (concat_computes _ n1 n2 v1 v2 Hl Hlast Hcc H1 H2 B1 B2 S1 S2) as Hv.
    destruct (gen_concat fuel r n V s n1 n2 v1 v2 s2 V') as (s' & E & Hc' & Hs'); try done.
    { lia. } { rewrite <- Hk, Hcc. unfold binary_kind. ops. done. }
    eexists _, s'. split_and!; try done. congruence.
Qed.

Lemma codegen_expr tr : gen_ok tr.
Proof.
  induction tr; [apply codegen_leaf|by apply codegen_un|by apply codegen_bin].
Qed.

(** ** Comparisons *)

(** The function of a comparison stores the values of its operands. *)
Lemma codegen_cmp tr f V l : cmp_ok p buf R l -> l <= last -> repr a Root tr f ->
  tree_for p c ∅ l tr V ->
  let i := info_at tbl l in
  exists v1 v2 k,
    addFunction a (local_map c) = Ok (Some [(0, CreateZExt v1 64); (1, CreateZExt v2 64)]) /\
    kind (a_root a) = k /\ OP_MAP (i_op i) = Some k /\
    side_computes v1 (i_l1 i) (sw1 i) (i_op1 i) /\ side_computes v2 (i_l2 i) (sw2 i) (i_op2 i).
Proof.
  intros [Hl Hi _ H1 H2] Hlast Hr Ht i. pose proof Hl as [Hrange _ _ _ _].
  assert (is_binary (i_op i) = true \/ i_op i = Concat \/ is_icmp (i_op i) = true) as Hop by tauto.
  pose proof (binary_not_unary _ Hop) as [Hu _]. pose proof (binary_is_read _ Hop) as Hrd.
  destruct (repr_size _ _ _ _ Hr) as [Hd1 Hd2].
  destruct tr as [n|n t|nd t1 t2].
  - destruct Ht as (_ & _ & _ & [[HV _]|(_ & Hrd' & _)]); [set_solver|]. unfold i in *. congruence.
  - destruct Ht as (_ & _ & _ & Hu' & _). unfold i in *. congruence.
  - pose proof Ht as (_ & Hlab & _ & _ & _ & Hk & _).
    destruct (operands_gen l Hl Hlast Hop H1 H2 Root nd t1 t2 f ∅ V (mk_cg ∅ [])
      (length (a_vec a)) Hr Ht (codegen_expr t1) (codegen_expr t2))
      as (n & n1 & n2 & v1 & v2 & s2 & Hn & <- & Hor & S1 & S2 & _ & Hs2 & _ & _).
    { split; [apply dom_empty_L|]. intros k v Hkv. simpl in Hkv. by rewrite lookup_empty in Hkv. }
    { lia. }
    injection Hn as <-. change (kind (payload (a_root a))) with (kind (a_root a)) in *.
    destruct (OP_MAP_icmp _ _ Hi Hk) as [Hrel _].
    destruct (gen_relational (length (a_vec a)) Root (a_root a) (mk_cg ∅ []) n1 n2 v1 v2 s2)
      as (s' & E & Hs'); [done|apply lookup_empty|done|done|].
    exists v1, v2, (kind (a_root a)). split; [|done]. unfold addFunction. rewrite Hrel. cbn [negb andb].
    rewrite E, Hs', Hs2. done.
Qed.

End jit_spec.

(** ** What a function loads *)

(** The slots a value loads from. *)
Fixpoint loads (v : Value) : list Z :=
  match v with
  | ConstantInt _ _ => []
  | LoadArg _ slot => [slot]
  | CreateZExtOrTrunc v _ | CreateZExt v _ | CreateSExt v _ | CreateTrunc v _
  | CreateNeg v | CreateNot v => loads v
  | CreateBin _ v1 v2 | CreateICmpEQ v1 v2 => loads v1 ++ loads v2
  | CreateSelect c v1 v2 => loads c ++ loads v1 ++ loads v2
  end.

Section loads.
Context (lm : smap Z) (a : Ast) (nargs : nat) (Hnargs : Z.of_nat nargs < 2 ^ 31).

Definition slots_ok (v : Value) : Prop := Forall (fun s => 2 <= s < 2 + Z.of_nat nargs) (loads v).

Definition unary_kind (k : rgd.AstKind) : bool :=
  match k with rgd.Extract | rgd.ZExt | rgd.SExt | rgd.Neg | rgd.Not => true | _ => false end.
Definition binary_node (k : rgd.AstKind) : bool :=
  match k with
  | rgd.Concat | rgd.Add | rgd.Sub | rgd.Mul | rgd.UDiv | rgd.SDiv | rgd.URem | rgd.SRem | rgd.And
  | rgd.Or | rgd.Xor | rgd.Shl | rgd.LShr | rgd.AShr | rgd.Memcmp | rgd.MemcmpN => true
  | k => rgd.isRelationalKind k
  end.

(** Kinds fit the shape of the tree, and leaves name arguments. *)
Fixpoint args_in (t : tree) : Prop :=
  match t with
  | Leaf n =>
      match kind n with
      | rgd.Bool => True
      | rgd.Constant => 0 <= index n < Z.of_nat nargs
      | rgd.Read => forall start, sm_find (index n) lm = Some start ->
          0 <= start /\ start + Z.max 1 (bits n / 8) <= Z.of_nat nargs
      | _ => False
      end
  | Un n t => unary_kind (kind n) = true /\ args_in t
  | Bin n t1 t2 => binary_node (kind n) = true /\ args_in t1 /\ args_in t2
  end.

Record slots_in (s : cg) : Prop := {
  si_cache l v : value_cache s !! l = Some v -> slots_ok v;
  si_stores : Forall (fun p => slots_ok (snd p)) (stores s)
}.

Lemma slots_bin o v1 v2 : slots_ok v1 -> slots_ok v2 -> slots_ok (CreateBin o v1 v2).
Proof. intros. by apply Forall_app. Qed.

Lemma slots_divide o w v1 v2 : slots_ok v1 -> slots_ok v2 -> slots_ok (divide o w v1 v2).
Proof.
  intros H1 H2. unfold divide, slots_ok. simpl.
  rewrite !Forall_app. split_and!; done || constructor.
Qed.

Lemma slots_read_byte w start k : 0 <= start -> 0 <= k -> start + k < Z.of_nat nargs ->
  slots_ok (read_byte w start k).
Proof.
  intros H0 Hk Hl. unfold read_byte, slots_ok, RET_OFFSET. simpl.
  rewrite (wrap_small 32) by (unfold is_u; lia). constructor; [lia|done].
Qed.

Lemma slots_read_loop w start n : forall k v, 0 <= start -> 0 <= k ->
  start + k + Z.of_nat n <= Z.of_nat nargs -> slots_ok v -> slots_ok (read_loop w start k n v).
Proof.
  induction n as [|n IH]; intros k v H0 Hk Hl Hv; simpl; [done|].
  apply IH; [lia..|]. apply slots_bin; [done|]. apply slots_bin; [|constructor].
  apply slots_read_byte; lia.
Qed.

Lemma slots_cache n v s s' : slots_in s -> slots_ok v ->
  (if label n =? 0 then ret tt else cache_value (label n) v) s = (Ok tt, s') -> slots_in s'.
Proof.
  intros [Hc Hs] Hv E. unfold cache_value in E. destruct (label n =? 0); run E; [by split|].
  split; [|done].
  intros l x. simpl. destruct (value_cache s !! label n); [apply Hc|].
  rewrite lookup_insert. case_decide; [by intros [= <-]|apply Hc].
Qed.

(** The end of [codegen]: the value of the node is cached. *)
Lemma slots_finish n (m : M cg (option Value)) s v s' :
  (forall x s1, m s = (Ok x, s1) -> slots_in s1 /\ forall y, x = Some y -> slots_ok y) ->
  (let! v := m in
   match v with
   | Some v => (if label n =? 0 then ret tt else cache_value (label n) v) ;;; ret (Some v)
   | None => ret None
   end) s = (Ok v, s') -> slots_in s' /\ forall y, v = Some y -> slots_ok y.
Proof.
  intros Hm E. run_step E. destruct (Hm _ _ Hr) as [H1 H2]. destruct a0 as [x|].
  - run_step E. run_step E. destruct a0. split; [|by intros y [= <-]; apply H2].
    by eapply slots_cache, Hr0; [|apply H2].
  - run_step E. split; done.
Qed.

(** The result of running [m] in a good state is good. *)
Definition keeps_slots (m : M cg (option Value)) : Prop := forall s v s',
  slots_in s -> m s = (Ok v, s') -> slots_in s' /\ forall y, v = Some y -> slots_ok y.

Lemma deref_slots (o : option Value) (s s' : cg) v : deref o s = (Ok v, s') -> o = Some v /\ s' = s.
Proof. unfold deref, lift. destruct o; simpl; [by intros [= -> ->]|done]. Qed.

Lemma unary_slots node fuel c t f (g : Value -> Value) :
  repr a (At c) t f -> child0_ node = c -> keeps_slots (codegen lm a fuel (At c)) ->
  (forall v, slots_ok v -> slots_ok (g v)) ->
  keeps_slots (let! rc := lift (child_of (child0_ node) a) in
               let! c := codegen lm a fuel rc in let! c := deref c in ret (Some (g c))).
Proof.
  intros Hr <- Hc Hg s v s' Hs E. unfold lift in E at 1. rewrite (child_of_repr a _ _ _ Hr) in E.
  run_step E. injection Hr0 as <- <-. run_step E. destruct (Hc _ _ _ Hs Hr0) as [H1 H2].
  run_step E. apply deref_slots in Hr1 as [-> ->]. run_step E. split; [done|].
  intros y [= <-]. by apply Hg, H2.
Qed.

Lemma both_slots node fuel c1 c2 t1 t2 f1 f2 (g : AstNode -> AstNode -> Value -> Value -> M cg (option Value)) :
  repr a (At c1) t1 f1 -> repr a (At c2) t2 f2 -> child0_ node = c1 -> child1_ node = c2 ->
  keeps_slots (codegen lm a fuel (At c1)) -> keeps_slots (codegen lm a fuel (At c2)) ->
  (forall n1 n2 v1 v2, slots_ok v1 -> slots_ok v2 -> keeps_slots (g n1 n2 v1 v2)) ->
  keeps_slots (let! rc1 := lift (child_of (child0_ node) a) in
               let! rc2 := lift (child_of (child1_ node) a) in
               let! n1 := lift (idx (node_at rc1 a)) in
               let! n2 := lift (idx (node_at rc2 a)) in
               let! c1 := codegen lm a fuel rc1 in
               let! c2 := codegen lm a fuel rc2 in
               let! c1 := deref c1 in
               let! c2 := deref c2 in
               g n1 n2 c1 c2).
Proof.
  intros R1 R2 <- <- K1 K2 Hg s v s' Hs E.
  unfold lift in E at 1. rewrite (child_of_repr a _ _ _ R1) in E. run_step E. injection Hr as <- <-.
  unfold lift in E at 1. rewrite (child_of_repr a _ _ _ R2) in E. run_step E. injection Hr as <- <-.
  do 2 (unfold lift in E at 1; run_step E; destruct (idx _) in Hr; [injection Hr as <- <-|done]).
  run_step E. destruct (K1 _ _ _ Hs Hr) as [H1 G1]. run_step E. destruct (K2 _ _ _ H1 Hr0) as [H2 G2].
  run_step E. apply deref_slots in Hr1 as [-> ->]. run_step E. apply deref_slots in Hr1 as [-> ->].
  by apply (Hg _ _ _ _ (G1 _ eq_refl) (G2 _ eq_refl) _ _ _ H2 E).
Qed.

Lemma value_slots v : slots_ok v -> keeps_slots (ret (Some v)).
Proof. intros Hv s x s' Hs E. run E. split; [done|]. by intros y [= <-]. Qed.

Lemma store_slots slot v m : slots_ok v -> keeps_slots m -> keeps_slots (emit_store slot v ;;; m).
Proof.
  intros Hv Hm s x s' [Hc Hst] E. apply bind_ok in E as (u & s1 & E1 & E). unfold emit_store in E1.
  run E1. apply (Hm _ _ _) in E; [done|].
  split; [exact Hc|]. simpl. apply Forall_app. split; [done|]. by constructor.
Qed.

Lemma none_slots : keeps_slots (ret None).
Proof. intros s x s' Hs E. run E. by split. Qed.

Lemma codegen_slots t : forall fuel r f, repr a r t f -> args_in t -> keeps_slots (codegen lm a fuel r).
Proof.
  induction t as [n|n t IH|n t1 IH1 t2 IH2]; intros fuel r f Hr Ha s v s' Hs E;
    (destruct fuel as [|fuel]; [discriminate E|]); cbn [codegen] in E;
    inversion Hr as [? n' Hn E1 E2|? n' c ? f1 Hn E1 Hc E2 R1|? n' c1 c2 ? ? f1 f2 Hn E1 Hc1 E2 Hc2 R1 R2];
    subst; unfold lift in E at 1; rewrite Hn in E; run_step E; injection Hr0 as <- <-; run_step E;
    (destruct (if label n' =? 0 then None else _) as [x|] eqn:Eh;
       [run_step E; split; [done|]; intros y [= <-]; destruct (label n' =? 0); [done|];
        by apply (si_cache _ Hs _ _ Eh)|]);
    (eapply slots_finish; [|exact E]); clear E v s' Eh; intros v s' E;
    refine ((_ : keeps_slots _) _ _ _ Hs E); clear E v s';
    simpl in Ha.
  - destruct (kind n') eqn:Hk; try done.
    + apply value_slots. constructor.
    + apply value_slots. constructor; [|constructor]. unfold RET_OFFSET.
      rewrite (wrap_small 32) by (unfold is_u; lia). lia.
    + intros s1 v s2 Hs1 E. run_step E. unfold lift in Hr0.
      destruct (sm_find (index n') lm) as [start|] eqn:Ef; [|done]. injection Hr0 as <- <-.
      destruct (Ha _ eq_refl) as [H0 H8]. run_step E. split; [done|]. intros y [= <-].
      apply slots_read_loop; [done|lia|lia|]. apply slots_read_byte; lia.
  - destruct Ha as [Hk Ha]. simpl in Hk. specialize (IH fuel _ _ R1 Ha).
    destruct (kind n') eqn:Ek; try done; eapply unary_slots; try done; intros v Hv; try done.
    unfold slots_ok. simpl. apply Forall_app. split; [done|constructor].
  - destruct Ha as (Hk & Ha1 & Ha2). simpl in Hk. specialize (IH1 fuel _ _ R1 Ha1).
    specialize (IH2 fuel _ _ R2 Ha2).
    destruct (kind n') eqn:Ek; try done; (eapply both_slots; [exact R1|exact R2|done..|]);
      intros n1 n2 v1 v2 H1 H2; repeat (apply store_slots); try apply value_slots; try apply none_slots;
      try done; try (by apply slots_bin); try (by apply slots_divide).
    all: unfold slots_ok; simpl; rewrite ?Forall_app; split_and!; done || constructor.
Qed.

(** The function of a good tree only reads its arguments. *)
Lemma addFunction_slots t f fn : repr a Root t f -> args_in t -> addFunction a lm = Ok (Some fn) ->
  Forall (fun p => slots_ok (snd p)) fn.
Proof.
  intros Hr Ha E. unfold addFunction in E. case_match; [done|].
  destruct (codegen lm a (S (length (a_vec a))) Root (mk_cg ∅ [])) as [[[v|]|e] s] eqn:Ec;
    [done| |by destruct e].
  injection E as <-. apply (codegen_slots t _ _ _ Hr Ha) in Ec as [[_ Hs] _]; [done|].
  split; [|constructor]. intros l v. simpl. by rewrite lookup_empty.
Qed.

End loads.

Section trees.
Context {LLVM : InstructionDef} (p : parser) (buf : list Z) (R : list (Z * Z)).
Context (c : Constraint) (Hinv : args_inv buf c).
Local Abbreviation tbl := (base_ p).
Local Abbreviation nargs := (length (input_args c)).

(** Trees for labels name arguments of the constraint. *)
Lemma tree_args tr : forall V l V', tree_for p c V l tr V' -> expr_ok p buf R l ->
  args_in (local_map c) nargs tr.
Proof.
  assert (forall w v s, constant_leaf c w v s -> args_in (local_map c) nargs s) as Hconst.
  { intros w v s (n & k & -> & Hk & _ & _ & Hix & Harg). simpl. rewrite Hk, Hix.
    apply lookup_lt_Some in Harg. lia. }
  induction tr as [n|n t IH|n t1 IH1 t2 IH2]; intros V l V' Ht He.
  - destruct Ht as (_ & Hbits & _ & [[_ Hk]|(_ & Hrd & Hk & Hix & b & Hb & Hblk)]); simpl; rewrite Hk;
      [done|]. intros start Hst. destruct (expr_read p buf R l He Hrd) as [[_ _ Hsz _ _] [_ _ _ _ [_ Hcnt]]].
    rewrite Hix, (Hblk (read_offset tbl (info_at tbl l))) in Hst by lia. injection Hst as <-.
    rewrite Hbits, (read_bits p _ Hsz Hrd), Z.mul_comm, Z.div_mul by lia.
    set (cnt := read_count (info_at tbl l)) in *. set (off := read_offset tbl (info_at tbl l)) in *.
    destruct (ai_sym _ _ Hinv (off + cnt - 1) (b + cnt - 1)) as [_ Hlk];
      [rewrite Hblk by lia; f_equal; lia|]. apply lookup_lt_Some in Hlk. lia.
  - destruct Ht as (_ & _ & _ & Hu & Hop & _ & W & Ht & _). simpl. split.
    + rewrite (OP_MAP_unary _ Hu) in Hop. injection Hop as <-. by repeat case_match.
    + apply (IH _ _ _ Ht). destruct He as [l _ [Hrd _ _ _ _]|l _ _ He|l _ Hb _ _]; [|done|].
      * by rewrite unary_is_read in Hrd.
      * destruct (binary_not_unary (i_op (info_at tbl l))) as [E _]; [tauto|]. congruence.
  - destruct Ht as (_ & _ & _ & Hu & Hrd & Hop & W & S1 & S2). simpl.
    destruct (expr_binary p buf R l He Hu Hrd) as (Hb & H1 & H2).
    rewrite (OP_MAP_binary _ Hb) in Hop. injection Hop as <-. split.
    { unfold binary_kind. by repeat case_match. }
    split.
    + destruct (Z.eqb_spec (i_l1 (info_at tbl l)) 0); [by eapply Hconst, S1|].
      destruct S1 as (W0 & S1 & _). eauto.
    + destruct (Z.eqb_spec (i_l2 (info_at tbl l)) 0); [by eapply Hconst, S2|].
      destruct S2 as (W0 & S2 & _). eauto.
Qed.

Lemma cmp_tree_args tr V l : tree_for p c ∅ l tr V -> cmp_ok p buf R l ->
  args_in (local_map c) nargs tr.
Proof.
  intros Ht [Hl Hi _ H1 H2].
  assert (is_binary (i_op (info_at tbl l)) = true \/ i_op (info_at tbl l) = Concat \/
    is_icmp (i_op (info_at tbl l)) = true) as Hop by tauto.
  pose proof (binary_not_unary _ Hop) as [Hu _]. pose proof (binary_is_read _ Hop) as Hrd.
  assert (forall W m w v s W', (m <> 0 -> expr_ok p buf R m) -> side_for p c W m w v s W' ->
    args_in (local_map c) nargs s) as Hside.
  { intros W m w v s W' Hm. unfold side_for. destruct (Z.eqb_spec m 0).
    - intros [(n & k & -> & Hk & _ & _ & Hix & Harg) _]. simpl. rewrite Hk, Hix.
      apply lookup_lt_Some in Harg. lia.
    - intros (W0 & Hs & _). eapply tree_args; eauto. }
  destruct tr as [n|n t|n t1 t2].
  - destruct Ht as (_ & _ & _ & [[HV _]|(_ & Hrd' & _)]); [set_solver|congruence].
  - destruct Ht as (_ & _ & _ & Hu' & _). congruence.
  - destruct Ht as (_ & _ & _ & _ & _ & Hk & W & S1 & S2). simpl.
    destruct (OP_MAP_icmp _ _ Hi Hk) as [Hrel _]. split; [by destruct (kind n)|].
    split; [exact (Hside _ _ _ _ _ _ H1 S1)|exact (Hside _ _ _ _ _ _ H2 S2)].
Qed.

End trees.

(** A function that stores two operands and reads only its arguments. *)
Definition stores_operands (nargs : nat) (f : list (Z * Value)) : Prop :=
  exists v1 v2, f = [(0, v1); (1, v2)] /\
    Forall (fun s => 2 <= s < 2 + Z.of_nat nargs) (loads v1 ++ loads v2).

Section compiled.
Context {LLVM : InstructionDef} {IR : LLVMSemantics}.

(** The function [fn] of constraint [c] computes the comparison of label [l]: it
    stores the values of the two operands in slots 0 and 1, and the kind at the
    root of the tree relates the two exactly when the comparison is true. *)
Definition computes_cmp (p : parser) (R : list (Z * Z)) (l : Z) (c : Constraint)
    (fn : list (Z * Value)) : Prop :=
  let i := info_at (base_ p) l in
  forall env m, args_for R c env m -> defined p env l ->
    exists m', run_function fn m = Some m' /\
      m' 0 = operand1 (base_ p) (eval (base_ p) env) i /\
      m' 1 = operand2 (base_ p) (eval (base_ p) env) i /\
      is_u (i_size i) (m' 0) /\ is_u (i_size i) (m' 1) /\
      eval (base_ p) env l = Z.b2z (rgd.compare (kind (a_root (ast c))) (i_size i) (m' 0) (m' 1)).

Lemma compile_run p buf R last l size :
  dag (base_ p) last -> Z.of_nat (length buf) < 2 ^ 30 -> no_overlap R ->
  cmp_ok p buf R l -> l <= last -> ast_size_cache p !! Z.to_nat l = Some size ->
  nodes (base_ p) l <= size -> arg_need p l < 2 ^ 30 ->
  exists c fn, parse_constraint p l = Ok (Some c) /\ args_inv buf c /\ blocks R c /\
    addFunction (ast c) (local_map c) = Ok (Some fn) /\ computes_cmp p R l c fn /\
    stores_operands (length (input_args c)) fn.
Proof.
  intros Hdag Hbuf Hno Hc Hlast Hsize Hn Hargs. set (i := info_at (base_ p) l).
  destruct (parse_constraint_run p buf R Hbuf Hno last Hdag l size Hc Hlast Hsize Hn Hargs)
    as (c & tr & f & V & Ep & Hr & Hinv & Hbl & Hlen & Ht & _).
  destruct (codegen_cmp p buf R last Hdag c (ast c) Hinv Hlen tr f V l Hc Hlast Hr Ht)
    as (v1 & v2 & k & Ef & Hk & Hop & S1 & S2).
  eexists c, _. split_and!; [done|done|done|exact Ef| |].
  2:{ pose proof (addFunction_slots (local_map c) (ast c) (length (input_args c)) ltac:(lia) tr f _ Hr
        (cmp_tree_args p buf R c Hinv tr V l Ht Hc) Ef) as Hsl.
      eexists _, _. split; [done|]. apply Forall_app.
      rewrite !Forall_cons in Hsl. destruct Hsl as (? & ? & _). done. }
  intros env m Hm Hd. fold i.
  pose proof Hc as [Hl Hi _ H1 H2]. fold i in Hi, Hop, S1, S2.
  assert (is_binary (i_op i) = true \/ i_op i = Concat \/ is_icmp (i_op i) = true) as Hop3 by tauto.
  pose proof (binary_is_read _ Hop3) as Hrd.
  destruct (sides_value p buf R last Hdag c l Hl Hlast Hop3 H1 H2 env m v1 v2 Hrd Hm Hd S1 S2)
    as (E1 & E2 & U1 & U2 & _). fold i in E1, E2, U1, U2.
  destruct (proj2 (sw_facts p buf R c l Hl Hop3 H1 H2)) as [W1 W2];
    [pose proof (icmp_not_arith _ Hi); tauto|]. fold i in W1, W2. rewrite W1 in U1. rewrite W2 in U2.
  assert (type_bits v1 <= 64 /\ type_bits v2 <= 64) as [T1 T2].
  { destruct S1 as [-> _], S2 as [-> _]. rewrite W1, W2. split; by apply Hl. }
  eexists. unfold run_function, run_stores.
  rewrite (run_zext m v1 64 _ E1 T1), (run_zext m v2 64 _ E2 T2). split; [done|].
  split_and!; [done..|]. cbn [Z.eqb Pos.eqb]. rewrite Hk.
  destruct (OP_MAP_icmp _ _ Hi Hop) as [_ ->].
  rewrite (eval_operation p last Hdag c l Hl Hlast env Hrd), op_value_icmp by done. fold i. done.
Qed.

(** C16: after a scan, a comparison whose reads of the input do not overlap is
    turned into a well-formed constraint, and the constraint into a function;
    whatever the input, the function stores the values of the two operands of the
    comparison in slots 0 and 1, and the kind at the root of the tree relates the
    two exactly when the comparison is true. *)
Theorem compile_correct p0 buf R last p l :
  let p1 := snd (restart [buf] p0) in
  scannable p1 last -> scan_labels last p1 = (Ok true, p) ->
  Z.of_nat (length buf) < 2 ^ 30 -> no_overlap R ->
  cmp_ok p buf R l -> l <= last -> nodes (base_ p) l < 2 ^ 32 -> arg_need p l < 2 ^ 30 ->
  exists c fn, parse_constraint p l = Ok (Some c) /\ cons_wf c /\
    addFunction (ast c) (local_map c) = Ok (Some fn) /\ computes_cmp p R l c fn.
Proof.
  intros p1 Hs Hrun Hbuf Hno Hc Hlast Hnodes Hargs. rewrite <- (scan_state_0 p1) in Hrun by done.
  pose proof Hc as [[Hr _ _ _ _] _ _ _ _].
  rewrite scan_labels_run in Hrun by (done || lia). injection Hrun as <-.
  pose proof (nodes_pos (scan_state p1 (0 `max` S (Z.to_nat last))) buf l) as Hpos.
  destruct (compile_run (scan_state p1 (S (Z.to_nat last))) buf R last l
    (u32 (nodes (base_ p1) l))) as (c & fn & E & Hinv & _ & Ef & Hcmp & _); try done.
  - apply Hs.
  - rewrite <- (Z2Nat.id l) at 2 by lia.
    apply (tabulate_lookup (fun k => u32 (nodes (base_ p1) (Z.of_nat k)))). lia.
  - rewrite wrap_small; [done|]. unfold is_u. exact (conj (Z.le_trans _ _ _ Z.le_0_1 Hpos) Hnodes).
  - exists c, fn. split_and!; try done. apply Hinv.
Qed.

End compiled.

(** ** A comparison of a sum of two input bytes *)

#[local] Existing Instance llvm14.
#[local] Existing Instance ir_semantics.

Definition sample_scan : parser := scan_state sample_parser 5.
Definition sample_reads : list (Z * Z) := [(0, 1); (1, 1)].

Lemma sample_no_overlap : no_overlap sample_reads.
Proof.
  intros o n o' n'. unfold sample_reads. rewrite !elem_of_cons, !elem_of_nil.
  intros [[= -> ->]|[[= -> ->]|[]]] [[= -> ->]|[[= -> ->]|[]]]; lia.
Qed.

Lemma sample_label l : 1 <= l <= 4 -> label_ok sample_scan l.
Proof.
  intros Hl. sample_cases l Hl; split; vm_compute; intuition congruence.
Qed.

Lemma sample_cmp : cmp_ok sample_scan [3; 4] sample_reads 4.
Proof.
  assert (forall l, l = 1 \/ l = 2 -> expr_ok sample_scan [3; 4] sample_reads l) as Hb.
  { intros l Hl. apply eo_read; [apply sample_label; lia|].
    destruct Hl as [-> | ->]; split; vm_compute;
      try (intuition congruence); apply list_elem_of_In; simpl; tauto. }
  split; [by apply sample_label|reflexivity|by eexists|vm_compute; congruence|].
  intros _. apply eo_binary; [by apply sample_label|by left|intros _; apply Hb; by left|].
  intros _. apply Hb. by right.
Qed.

Lemma compile_correct_witness : exists c fn, parse_constraint sample_scan 4 = Ok (Some c) /\
  cons_wf c /\ addFunction (ast c) (local_map c) = Ok (Some fn) /\
  computes_cmp sample_scan sample_reads 4 c fn.
Proof.
  apply (compile_correct (new_parser sample_infos (32 * 5) true 200) [3; 4] sample_reads 4).
  - exact sample_scannable.
  - exact sample_scanned.
  - done.
  - exact sample_no_overlap.
  - exact sample_cmp.
  - done.
  - vm_compute. reflexivity.
  - vm_compute. reflexivity.
Defined.

(** ** Reads that overlap

    The second byte of the input, widened, plus the word that holds both. The
    second byte is read first and gets argument 0; of the word only the first
    byte is new and gets argument 1, but the compiled read takes the arguments
    from 1 on. *)

Definition overlap_infos : gmap Z dfsan_label_info :=
  <[1 := mk_info 0 0 0 0 0 8 0]> (<[2 := mk_info 0 0 1 0 0 8 0]>
  (<[3 := mk_info 2 0 0 16 ZExt 16 0]> (<[4 := mk_info 1 2 0 0 Load 16 0]>
  (<[5 := mk_info 3 4 0 0 Add 16 0]> (<[6 := mk_info 5 0 0 7 (icmp bveq) 16 0]> ∅))))).

Definition overlap_parser : parser :=
  snd (scan_labels 6 (snd (restart [[3; 4]] (new_parser overlap_infos (32 * 7) true 200)))).

(** Overlapping reads are compiled wrongly. The constraint is built and
    compiled without an error, and its arguments are given the bytes of the
    input and the constants as its tables say, yet the function stores another
    value for the first operand than the label has. *)
Theorem overlapping_reads_miscompiled : exists c fn m m' (env : input_env),
  parse_constraint overlap_parser 6 = Ok (Some c) /\
  addFunction (ast c) (local_map c) = Ok (Some fn) /\
  map_Forall (fun _ v => is_u 8 v) (inputs c) /\
  Forall (fun '(o, k) => m (k + RET_OFFSET) = env o) (local_map c) /\
  (forall k v, input_args c !! k = Some (false, v) -> m (Z.of_nat k + RET_OFFSET) = v) /\
  run_function fn m = Some m' /\
  m' 0 <> operand1 overlap_infos (eval overlap_infos env) (info_at overlap_infos 6).
Proof.
  set (env := fun o => if o =? 0 then 3 else if o =? 1 then 4 else 0).
  set (m := fun k => if k =? 2 then 4 else if k =? 3 then 3 else if k =? 4 then 7 else 0).
  destruct (parse_constraint overlap_parser 6) as [[c|]|] eqn:E; vm_compute in E;
    [injection E as <-|discriminate..].
  match goal with |- context [Some ?c] => destruct (addFunction (ast c) (local_map c))
    as [[fn|]|] eqn:Ef end; vm_compute in Ef; [injection Ef as <-|discriminate..].
  eexists _, _, m, _, env. split; [reflexivity|].
  split; [vm_compute; reflexivity|]. split_and!.
  - apply (bool_decide_unpack _). vm_compute. exact I.
  - repeat constructor.
  - intros [|[|[|k]]] v; vm_compute; congruence.
  - reflexivity.
  - rewrite eval_eq. vm_compute. discriminate.
Qed.
