(* ===== verification/Gd.v ===== *)
(** * The Jigsaw search: [solvers/jigsaw/gd.cc], [grad.cc], [input.cc]

    Gradient descent over the bytes of the input. Every byte is a 64-bit number
    that may overflow; the distance of a constraint is zero when its comparison
    holds; the search moves bytes along the gradient of the sum of the distances
    until that sum is zero or the attempts are used up. *)

From Stdlib Require Import SpecFloat.
From S2P Require Import Prelude Ast Task Jit.
Local Open Scope prog_scope.

Definition MAX_NUM_MINIMAL_OPTIMA_ROUND : Z := 32.
Definition MAX_EXEC_TIMES : Z := 1000.
Definition UINTMAX_MAX : Z := 2 ^ 64 - 1.

(** ** Doubles

    [double] is IEEE 754 binary64, here in the Standard Library's specification
    of it. *)

Definition double : Type := spec_float.
Definition double_of (x : Z) : double := binary_normalize 53 1024 x 0 false.
Definition dmul : double -> double -> double := SFmul 53 1024.
Definition ddiv : double -> double -> double := SFdiv 53 1024.
Definition dzero : double := S754_zero false.
Definition d_0_01 : double := S754_finite false 5764607523034235 (-59).

(** What the source leaves open: an out-of-range conversion of a [double] to
    [uint64_t], a local variable that is read before it is written ([input_r] in
    [try_i2s], for constraint [k] at a given number of attempts), and the bytes
    that [get_rand] draws from a generator seeded with the time. *)
Class Unspecified := {
  cast_overflow : double -> Z;
  uninit : Z -> nat -> Z;
  rand_byte : nat -> Z
}.

(** The machine code of a constraint: what [c->fn] leaves in slots 0 and 1 of the
    array it is given. *)
Class MachineCode := fn : nat -> list Z -> Z * Z.

(** [(uint64_t)d] *)
Definition u64_of_double {U : Unspecified} (d : double) : Z :=
  match d with
  | S754_zero _ => 0
  | S754_finite sg m e =>
      let v := if 0 <=? e then Z.pos m * 2 ^ e else Z.pos m / 2 ^ (- e) in
      if sg then (if v =? 0 then 0 else u64 (cast_overflow d))
      else if v <? 2 ^ 64 then v else u64 (cast_overflow d)
  | _ => u64 (cast_overflow d)
  end.

(** ** [MutInput]: the array of values *)

(** The array is a raw pointer: an index out of range is undefined. *)
Definition mi_write (i : nat) (v : Z) (l : list Z) : res (list Z) :=
  let? _ := idx (l !! i) in Ok (<[i := v]> l).

Definition mi_update (i : nat) (direction : bool) (delta : Z) (l : list Z) : res (list Z) :=
  let? v := idx (l !! i) in
  Ok (<[i := if direction then u64 (v + delta) else u64 (v - delta)]> l).

(** [get] returns a [uint8_t]. *)
Definition mi_get (i : nat) (l : list Z) : res Z :=
  let? v := idx (l !! i) in Ok (u8 v).

Definition mi_set (i : nat) (v : Z) (l : list Z) : res (list Z) := mi_write i (u8 v) l.

Definition mi_flip (i : nat) (bit_index : Z) (l : list Z) : res (list Z) :=
  let? v := idx (l !! i) in
  mi_write i (Z.lxor (u8 v) (u8 (Z.shiftl 1 bit_index))) l.

(** [assign]: as many values as the input has. *)
Definition mi_assign (inputs : list (Z * Z)) (l : list Z) : res (list Z) :=
  if (length l <=? length inputs)%nat then Ok (take (length l) (snd <$> inputs))
  else Err Undefined.

(** ** [Grad] *)

Record GradUnit := mk_grad { sign : bool; val : Z; pct : double }.

(** A vector of value-initialised units. *)
Definition new_grad (n : nat) : list GradUnit := replicate n (mk_grad false 0 dzero).

Definition max_val (g : list GradUnit) : Z := foldl (fun r u => if r <? val u then val u else r) 0 g.

Definition val_sum (g : list GradUnit) : Z := foldl (fun r u => u64 (r + val u)) 0 g.

Definition normalize (g : list GradUnit) : list GradUnit :=
  let max_grad := double_of (max_val g) in
  if SFltb dzero max_grad
  then (fun u => mk_grad (sign u) (val u) (dmul (double_of 1) (ddiv (double_of (val u)) max_grad))) <$> g
  else g.

(** The loop variable is a copy: nothing is cleared. *)
Definition grad_clear (g : list GradUnit) : list GradUnit := g.

(** ** Distances *)

Definition sat_inc (base inc : Z) : Z :=
  if u64 (base + inc) <? base then UINTMAX_MAX else u64 (base + inc).

Definition negate (op : rgd.AstKind) : Z :=
  match op with
  | rgd.Equal => rgd.num rgd.Distinct
  | rgd.Distinct => rgd.num rgd.Equal
  | rgd.Sge => rgd.num rgd.Slt
  | rgd.Sgt => rgd.num rgd.Sle
  | rgd.Sle => rgd.num rgd.Sgt
  | rgd.Slt => rgd.num rgd.Sge
  | rgd.Uge => rgd.num rgd.Ult
  | rgd.Ugt => rgd.num rgd.Ule
  | rgd.Ule => rgd.num rgd.Ugt
  | rgd.Ult => rgd.num rgd.Uge
  | _ => 0
  end.

Definition get_distance (comp : rgd.AstKind) (a b : Z) : Z :=
  match comp with
  | rgd.Equal => if b <=? a then u64 (a - b) else u64 (b - a)
  | rgd.Distinct => if a =? b then 1 else 0
  | rgd.Ult => if a <? b then 0 else sat_inc (u64 (a - b)) 1
  | rgd.Ule => if a <=? b then 0 else u64 (a - b)
  | rgd.Ugt => if b <? a then 0 else sat_inc (u64 (b - a)) 1
  | rgd.Uge => if b <=? a then 0 else u64 (b - a)
  | rgd.Slt => if s64 a <? s64 b then 0 else sat_inc (u64 (a - b)) 1
  | rgd.Sle => if s64 a <=? s64 b then 0 else u64 (a - b)
  | rgd.Sgt => if s64 b <? s64 a then 0 else sat_inc (u64 (b - a)) 1
  | rgd.Sge => if s64 b <=? s64 a then 0 else u64 (b - a)
  | rgd.Memcmp => Z.lxor a 1
  | rgd.MemcmpN => a
  | _ => 0
  end.

Definition get_i2s_value (comp : rgd.AstKind) (v : Z) (rhs : bool) : Z :=
  match comp with
  | rgd.Equal | rgd.Ule | rgd.Uge | rgd.Sle | rgd.Sge => v
  | rgd.Distinct | rgd.Ugt | rgd.Sgt => if rhs then u64 (v - 1) else u64 (v + 1)
  | rgd.Ult | rgd.Slt => if rhs then u64 (v + 1) else u64 (v - 1)
  | _ => v
  end.

(** [SWAP64]: the bytes in reverse order. *)
Definition SWAP64 (x : Z) : Z :=
  let step mask k r :=
    Z.lor (u64 (Z.shiftl (Z.land r mask) k)) (Z.shiftr (Z.land r (Z.shiftl mask k)) k) in
  step 0x00ff00ff00ff00ff 8 (step 0x0000ffff0000ffff 16 (step 0x00000000ffffffff 32 x)).

(** ** The state of a search *)

Record search := mk_search {
  scratch : list Z;                 (* scratch_args *)
  input : list Z;                   (* the two MutInputs of [gd_entry] *)
  scratch_input : list Z;
  min_distances : list Z;
  distances : list Z;
  plus_distances : list Z;
  minus_distances : list Z;
  operands : gmap nat (Z * Z);      (* cm->op1, cm->op2 *)
  grads : list GradUnit;
  s_stopped : bool;
  s_attempts : Z;
  s_solved : bool;
  s_solution : gmap Z Z;
  draws : nat                       (* random bytes drawn so far *)
}.

Definition set_scratch x s := mk_search x (input s) (scratch_input s) (min_distances s) (distances s)
  (plus_distances s) (minus_distances s) (operands s) (grads s) (s_stopped s) (s_attempts s)
  (s_solved s) (s_solution s) (draws s).
Definition set_input x s := mk_search (scratch s) x (scratch_input s) (min_distances s) (distances s)
  (plus_distances s) (minus_distances s) (operands s) (grads s) (s_stopped s) (s_attempts s)
  (s_solved s) (s_solution s) (draws s).
Definition set_scratch_input x s := mk_search (scratch s) (input s) x (min_distances s) (distances s)
  (plus_distances s) (minus_distances s) (operands s) (grads s) (s_stopped s) (s_attempts s)
  (s_solved s) (s_solution s) (draws s).
Definition set_min_distances x s := mk_search (scratch s) (input s) (scratch_input s) x (distances s)
  (plus_distances s) (minus_distances s) (operands s) (grads s) (s_stopped s) (s_attempts s)
  (s_solved s) (s_solution s) (draws s).
Definition set_distances x s := mk_search (scratch s) (input s) (scratch_input s) (min_distances s) x
  (plus_distances s) (minus_distances s) (operands s) (grads s) (s_stopped s) (s_attempts s)
  (s_solved s) (s_solution s) (draws s).
Definition set_side_distances (plus : bool) x s :=
  mk_search (scratch s) (input s) (scratch_input s) (min_distances s) (distances s)
  (if plus then x else plus_distances s) (if plus then minus_distances s else x) (operands s)
  (grads s) (s_stopped s) (s_attempts s) (s_solved s) (s_solution s) (draws s).
Definition set_operands k x s :=
  mk_search (scratch s) (input s) (scratch_input s) (min_distances s) (distances s)
  (plus_distances s) (minus_distances s) (<[k := x]> (operands s)) (grads s) (s_stopped s)
  (s_attempts s) (s_solved s) (s_solution s) (draws s).
Definition set_grads x s := mk_search (scratch s) (input s) (scratch_input s) (min_distances s)
  (distances s) (plus_distances s) (minus_distances s) (operands s) x (s_stopped s) (s_attempts s)
  (s_solved s) (s_solution s) (draws s).
Definition set_status stop att sol s := mk_search (scratch s) (input s) (scratch_input s)
  (min_distances s) (distances s) (plus_distances s) (minus_distances s) (operands s) (grads s)
  stop att sol (s_solution s) (draws s).
Definition set_solution x s := mk_search (scratch s) (input s) (scratch_input s)
  (min_distances s) (distances s) (plus_distances s) (minus_distances s) (operands s) (grads s)
  (s_stopped s) (s_attempts s) (s_solved s) x (draws s).
Definition set_draws x s := mk_search (scratch s) (input s) (scratch_input s)
  (min_distances s) (distances s) (plus_distances s) (minus_distances s) (operands s) (grads s)
  (s_stopped s) (s_attempts s) (s_solved s) (s_solution s) x.

Section gd.
Context {U : Unspecified} {MC : MachineCode}.
(** The task; what the search changes of it is in the state. *)
Context (t : SearchTask).

(** ** [add_results] *)

(** The inputs in the order of their offsets. *)
Fixpoint order_loop (value : list Z) (l : list (Z * Z)) (i : nat) (m : smap Z) : res (smap Z) :=
  match l with
  | [] => Ok m
  | (off, _) :: l' =>
      let? v := idx (value !! i) in
      order_loop value l' (S i) (sm_set off v m)
  end.

Definition order_inputs (value : list Z) : res (smap Z) := order_loop value (inputs_ t) O [].

(** [result += v[i + j].second << (8 * j)] for [j] from [j] on, [n] times. *)
Fixpoint join_bytes (v : list (Z * Z)) (i j n : nat) (result : Z) : res Z :=
  match n with
  | O => Ok result
  | S n' =>
      let? x := idx (v !! (i + j)%nat) in
      join_bytes v i (S j) n' (u64 (result + u64 (Z.shiftl (snd x) (8 * Z.of_nat j))))
  end.

(** [solution[start + j] = (result >> (8 * j)) & 0xff] *)
Fixpoint split_bytes (start : Z) (result : Z) (j n : nat) (sol : gmap Z Z) : gmap Z Z :=
  match n with
  | O => sol
  | S n' =>
      split_bytes start result (S j) n'
        (<[u32 (start + Z.of_nat j) := u8 (Z.land (Z.shiftr result (8 * Z.of_nat j)) 0xff)]> sol)
  end.

Fixpoint copy_bytes (v : list (Z * Z)) (start : Z) (i j n : nat) (sol : gmap Z Z)
    : res (gmap Z Z) :=
  match n with
  | O => Ok sol
  | S n' =>
      let? x := idx (v !! (i + j)%nat) in
      copy_bytes v start i (S j) n' (<[u32 (start + Z.of_nat j) := u8 (snd x)]> sol)
  end.

Fixpoint add_loop (fuel : nat) (v : list (Z * Z)) (i : nat) (sol : gmap Z Z) : res (gmap Z Z) :=
  match v !! i with
  | None => Ok sol
  | Some (start, result) =>
      match fuel with
      | O => Err NoFuel
      | S fuel' =>
          let? len := task_shapes start t in
          if len =? 0 then add_loop fuel' v (S i) sol
          else
            let n := Z.to_nat len in
            let? sol :=
              (if len <=? 8 then
                 let? result := join_bytes v i 1 (n - 1) result in
                 Ok (split_bytes start result 0 n sol)
               else copy_bytes v start i 0 n sol) in
            add_loop fuel' v (i + n) sol
      end
  end.

Definition add_results (value : list Z) : M search unit :=
  let! v := lift (order_inputs value) in
  let! sol := gets s_solution in
  let! sol := lift (add_loop (length v) v 0 sol) in
  modify (set_solution sol).

(** ** Evaluating constraints *)

Definition write_scratch (slot : Z) (v : Z) : M search unit :=
  let! l := gets scratch in
  let! _ := lift (idx (l !! Z.to_nat slot)) in
  modify (set_scratch (<[Z.to_nat slot := v]> l)).

(** The arguments of a constraint. *)
Fixpoint load_args (value : list Z) (args : list (bool * Z)) (arg_idx : Z) : M search unit :=
  match args with
  | [] => ret tt
  | (sym, x) :: args' =>
      let! v := (if sym then lift (idx (value !! Z.to_nat x)) else ret x) in
      write_scratch (RET_OFFSET + arg_idx) v ;;;
      load_args value args' (arg_idx + 1)
  end.

(** [c->fn(task->scratch_args)], and the two operands it stores. *)
Definition call_fn (k : nat) : M search (Z * Z) :=
  let! l := gets scratch in
  let '(a, b) := fn k l in
  write_scratch 0 a ;;; write_scratch 1 b ;;; ret (a, b).

(** The distance of constraint [k] and its operands. *)
Definition cons_distance (value : list Z) (k : nat) : M search (Z * (Z * Z)) :=
  let! _ := lift (at_ (constraints_ t !! k)) in
  let! cm := lift (at_ (consmetas_ t !! k)) in
  load_args value (m_input_args cm) 0 ;;;
  let! ops := call_fn k in
  ret (get_distance (comparison cm) (fst ops) (snd ops), ops).

(** Writing [distances[k]]. *)
Definition write_distance (k : nat) (d : Z) (ds : list Z) : res (list Z) :=
  let? _ := idx (ds !! k) in Ok (<[k := d]> ds).

(** Both functions return the sum and the vector they write to. *)
Fixpoint single_loop (value : list Z) (ks : list nat) (ds : list Z) (sum : Z)
    : M search (Z * list Z) :=
  match ks with
  | [] => ret (sum, ds)
  | k :: ks' =>
      let! (dis, _) := cons_distance value k in
      let! ds := lift (write_distance k dis ds) in
      single_loop value ks' ds (sat_inc sum dis)
  end.

Definition single_distance (value : list Z) (ds : list Z) (index : nat) : M search (Z * list Z) :=
  let! ks := lift (task_cmap (Z.of_nat index) t) in
  single_loop value ks ds 0.

Fixpoint distance_loop (value : list Z) (i n : nat) (ds : list Z) (sum : Z)
    : M search (Z * list Z) :=
  match n with
  | O => ret (sum, ds)
  | S n' =>
      let! (dis, ops) := cons_distance value i in
      let! ds := lift (write_distance i dis ds) in
      modify (set_operands i ops) ;;;
      distance_loop value (S i) n' ds (sat_inc sum dis)
  end.

Definition mark_solved (value : list Z) : M search unit :=
  modify (fun s => set_status true (s_attempts s) true s) ;;;
  add_results value.

Definition distance (value : list Z) (ds : list Z) : M search (Z * list Z) :=
  let! (sum, ds) := distance_loop value 0 (length (constraints_ t)) ds 0 in
  (if sum =? 0 then mark_solved value else ret tt) ;;;
  modify (fun s => set_status (s_stopped s) (s_attempts s + 1) (s_solved s) s) ;;;
  modify (fun s => if MAX_EXEC_TIMES <? s_attempts s
                   then set_status true (s_attempts s) false s else s) ;;;
  ret (sum, ds).

(** The sum of a vector of distances. *)
Definition sum_distances (ds : list Z) : Z :=
  foldl sat_inc 0 (take (length (constraints_ t)) ds).

(** [task->attempts += 1] and the check after it. *)
Definition count_attempt : M search unit :=
  modify (fun s => set_status (s_stopped s || (MAX_EXEC_TIMES <? s_attempts s + 1))
                     (s_attempts s + 1) (s_solved s) s).

(** ** Gradients *)

Inductive probe_result := Lucky | Stopped | Probed (f : Z).

(** [f(x + delta)] or [f(x - delta)], with [delta] growing while the value stays
    [f0]; the loop's own increment and the one in its body both double it. The
    input is changed, step after step. *)
Fixpoint probe (plus : bool) (index : nat) (f0 : Z) (fuel : nat) (delta : Z) (f : Z)
    : M search probe_result :=
  if delta <? 256 then
    match fuel with
    | O => throw NoFuel
    | S fuel' =>
        let! ds := gets min_distances in
        let! v := gets input in
        let! v := lift (mi_update index plus delta v) in
        modify (set_input v) ;;;
        let! (single_dis, ds) := single_distance v ds index in
        modify (set_side_distances plus ds) ;;;
        if single_dis =? 0 then ret Lucky
        else
          let f := sum_distances ds in
          count_attempt ;;;
          let! stopped := gets s_stopped in
          if stopped : bool then ret Stopped
          else if f =? f0 then probe plus index f0 fuel' (u64 (u64 (delta * 2) * 2)) f
          else ret (Probed f)
    end
  else ret (Probed f).

Definition restore (index : nat) (v : Z) : M search unit :=
  let! l := gets input in
  let! l := lift (mi_write index v l) in
  modify (set_input l).

(** The slope from the values on both sides: sign, linearity, magnitude. *)
Definition slope (f0 f_minus f_plus : Z) : bool * bool * Z :=
  if f_minus <? f0 then
    if f_plus <? f0 then
      if f_minus <? f_plus then (false, false, u64 (f0 - f_minus))
      else (true, false, u64 (f0 - f_plus))
    else (false, negb (f_minus =? f0) && (u64 (f0 - f_minus) =? u64 (f_plus - f0)),
          u64 (f0 - f_minus))
  else if f_plus <? f0 then
    (true, negb (f_minus =? f0) && (u64 (f_minus - f0) =? u64 (f0 - f_plus)), u64 (f0 - f_plus))
  else (true, false, 0).

(** [*sign], [*is_linear] and [*val]; false, false and 0 before the call. *)
Definition partial_derivative (index : nat) (f0 : Z) : M search (bool * bool * Z) :=
  let! v := gets input in
  let! orig_val := lift (idx (v !! index)) in
  let! r := probe true index f0 8 1 0 in
  match r with
  | Lucky => ret (true, false, 0)
  | Stopped => ret (false, false, 0)
  | Probed f_plus =>
      restore index orig_val ;;;
      let! r := probe false index f0 8 1 0 in
      match r with
      | Lucky => ret (false, false, 0)
      | Stopped => ret (false, false, 0)
      | Probed f_minus => restore index orig_val ;;; ret (slope f0 f_minus f_plus)
      end
  end.

(** Units from number [index] on. *)
Fixpoint cal_loop (f0 : Z) (index n : nat) : M search unit :=
  match n with
  | O => ret tt
  | S n' =>
      let! stopped := gets s_stopped in
      if stopped : bool then ret tt
      else
        let! (sg, _, v) := partial_derivative index f0 in
        modify (fun s => set_grads (alter (fun u => mk_grad sg v (pct u)) index (grads s)) s) ;;;
        cal_loop f0 (S index) n'
  end.

Definition cal_gradient (f0 : Z) : M search unit :=
  let! g := gets grads in cal_loop f0 0 (length g).

(** ** Descent *)

Definition movement (u : GradUnit) (step : Z) : Z :=
  u64_of_double (dmul (pct u) (double_of step)).

(** All bytes along the gradient; the input is [scratch_input] in [descend]. *)
Fixpoint delta_loop (g : list GradUnit) (step : Z) (index : nat) (v : list Z) : res (list Z) :=
  match g with
  | [] => Ok v
  | u :: g' =>
      let? v := mi_update index (sign u) (movement u step) v in
      delta_loop g' step (S index) v
  end.

Definition compute_delta_all (step : Z) : M search unit :=
  let! g := gets grads in
  let! v := gets scratch_input in
  let! v := lift (delta_loop g step 0 v) in
  modify (set_scratch_input v).

(** [input_min = input; min_distances = distances] *)
Definition accept : M search unit :=
  modify (fun s => set_min_distances (distances s) (set_input (scratch_input s) s)).
(** [input = input_min] *)
Definition reject : M search unit :=
  modify (fun s => set_scratch_input (input s) s).

Definition full_distance : M search Z :=
  let! v := gets scratch_input in
  let! ds := gets distances in
  let! (f, ds) := distance v ds in
  modify (set_distances ds) ;;; ret f.

Definition found : M search unit := let! v := gets scratch_input in mark_solved v.

Inductive inner_result := Return (f : Z) | Break (f_last : Z).

(** One move of a single byte: its own distance and the new sum. *)
Definition delta_one (deltaIdx : nat) (step : Z) : M search (Z * Z) :=
  let! g := gets grads in
  let! u := lift (idx (g !! deltaIdx)) in
  let! v := gets scratch_input in
  let! v := lift (mi_update deltaIdx (sign u) (movement u step) v) in
  modify (set_scratch_input v) ;;;
  let! ds := gets distances in
  let! (single_dis, ds) := single_distance v ds deltaIdx in
  modify (set_distances ds) ;;;
  count_attempt ;;;
  ret (single_dis, sum_distances ds).

(** The inner loop; [delta] is the byte it moves, or all bytes. *)
Fixpoint descend_inner (fuel : nat) (delta : option nat) (step f_last : Z) : M search inner_result :=
  match fuel with
  | O => throw NoFuel
  | S fuel' =>
      let! stopped := gets s_stopped in
      if stopped : bool then ret (Return f_last)
      else
        let! (single_dis, f_new) :=
          match delta with
          | Some i => let! (d, f) := delta_one i step in ret (Some d, f)
          | None => compute_delta_all step ;;; let! f := full_distance in ret (None, f)
          end in
        if bool_decide (single_dis = Some 0) then ret (Break f_last)
        else if f_new =? 0 then found ;;; ret (Return 0)
        else if f_last <? f_new then ret (Break f_last)
        else accept ;;; descend_inner fuel' delta (u64 (step * 2)) f_new
  end.

(** The next byte with a slope worth following. *)
Fixpoint next_delta (g : list GradUnit) (i : nat) : nat :=
  match g with
  | [] => i
  | u :: g' => if SFltb (pct u) d_0_01 then next_delta g' (S i) else i
  end.

Fixpoint descend_outer (fuel : nat) (delta : option nat) (step f_last : Z) : M search Z :=
  match fuel with
  | O => throw NoFuel
  | S fuel' =>
      let! r := descend_inner 2000 delta step f_last in
      match r with
      | Return f => ret f
      | Break f_last =>
          let! g := gets grads in
          if (length g =? 1)%nat then ret f_last
          else
            let i := match delta with Some i => S i | None => O end in
            let i := next_delta (drop i g) i in
            if (length g <=? i)%nat then ret f_last
            else
              reject ;;;
              modify (fun s => set_distances (min_distances s) s) ;;;
              descend_outer fuel' (Some i) 1 f_last
      end
  end.

Definition descend (f0 : Z) : M search Z :=
  reject ;;;
  let! g := gets grads in
  let vsum := val_sum g in
  let! r :=
    (if 0 <? vsum then
       compute_delta_all (f0 / vsum) ;;;
       let! f_new := full_distance in
       if f0 <=? f_new then reject ;;; ret (Break f0)
       else if f_new =? 0 then found ;;; ret (Return 0)
       else accept ;;; ret (Break f_new)
     else modify (fun s => set_distances (min_distances s) s) ;;; ret (Break f0)) in
  match r with
  | Return f => ret f
  | Break f_last => descend_outer (S (length g)) None 1 f_last
  end.

(** ** Input to state *)

(** [try_new_i2s_value]: the value spread over all bytes of the constraint. *)
Fixpoint spread_value (lm : smap Z) (value i : Z) : M search unit :=
  match lm with
  | [] => ret tt
  | (_, lidx) :: lm' =>
      write_scratch (RET_OFFSET + lidx) (Z.land (shr64 value i) 0xff) ;;;
      spread_value lm' value (i + 8)
  end.

Fixpoint load_consts (args : list (bool * Z)) (arg_idx : Z) : M search unit :=
  match args with
  | [] => ret tt
  | (sym, x) :: args' =>
      (if sym : bool then ret tt else write_scratch (RET_OFFSET + arg_idx) x) ;;;
      load_consts args' (arg_idx + 1)
  end.

Definition try_new_i2s_value (k : nat) (c : Constraint) (comp : rgd.AstKind) (value : Z)
    : M search Z :=
  spread_value (local_map c) value 0 ;;;
  load_consts (input_args c) 0 ;;;
  let! (a, b) := call_fn k in
  ret (get_distance comp a b).

(** The index in the input of the byte at [off]. *)
Definition byte_slot (c : Constraint) (cm : ConsMeta) (off : Z) : res nat :=
  let? lidx := at_ (sm_find off (local_map c)) in
  let? arg := idx (m_input_args cm !! Z.to_nat lidx) in
  Ok (Z.to_nat (snd arg)).

(** [n] bytes from [off] on, in both orders, added to [inp] and [inp_r]. *)
Fixpoint gather (c : Constraint) (cm : ConsMeta) (v : list Z) (off : Z) (n : nat) (i bits : Z)
    (inp inp_r : Z) : res (Z * Z) :=
  match n with
  | O => Ok (inp, inp_r)
  | S n' =>
      let? g := byte_slot c cm off in
      let? b := mi_get g v in
      gather c cm v (off + 1) n' (i + 8) bits (Z.lor inp (shl64 b i))
        (Z.lor inp_r (shl64 b (bits - i - 8)))
  end.

(** The bytes of [value] written to [n] bytes from [off] on. *)
Fixpoint scatter (c : Constraint) (cm : ConsMeta) (value off : Z) (n : nat) (i : Z) (v : list Z)
    : res (list Z) :=
  match n with
  | O => Ok v
  | S n' =>
      let? g := byte_slot c cm off in
      let? v := mi_set g (Z.land (shr64 value i) 0xff) v in
      scatter c cm value (off + 1) n' (i + 8) v
  end.

Definition i2s_match (comp : rgd.AstKind) (ops : Z * Z) (inp : Z) : option Z :=
  if inp =? fst ops then Some (get_i2s_value comp (snd ops) true)
  else if inp =? snd ops then Some (get_i2s_value comp (fst ops) false)
  else None.

(** Test a value and, if it makes the constraint true, take it over. *)
Definition i2s_apply (k : nat) (c : Constraint) (cm : ConsMeta) (offset size : Z) (value : Z)
    : M search bool :=
  let! dis := try_new_i2s_value k c (comparison cm) value in
  if dis =? 0 then
    let! v := gets scratch_input in
    let! v := lift (scatter c cm value offset (Z.to_nat size) 0 v) in
    modify (set_scratch_input v) ;;; ret true
  else ret false.

(** The candidates of one comparison; [inp] and [inp_r] are not reset between
    them. *)
Fixpoint i2s_candidate_loop (k : nat) (c : Constraint) (cm : ConsMeta) (ops : Z * Z)
    (cands : list (Z * Z)) (inp inp_r : Z) : M search bool :=
  match cands with
  | [] => ret false
  | (offset, size) :: cands' =>
      if 8 <? size then i2s_candidate_loop k c cm ops cands' inp inp_r
      else
        let bits := size * 8 in
        let! v := gets input in
        let! (inp, inp_r) := lift (gather c cm v offset (Z.to_nat size) 0 bits inp inp_r) in
        let! ok := match i2s_match (comparison cm) ops inp with
                   | Some value => i2s_apply k c cm offset size value
                   | None => ret false
                   end in
        if ok : bool then ret true
        else
          let! ok := match i2s_match (comparison cm) ops inp_r with
                     | Some value =>
                         i2s_apply k c cm offset size (shr64 (SWAP64 value) (64 - bits))
                     | None => ret false
                     end in
          if ok : bool then ret true else i2s_candidate_loop k c cm ops cands' inp inp_r
  end.

(** [memcmp] with a constant: its 64-bit chunks, byte by byte. *)
Fixpoint i2s_memcmp_loop (c : Constraint) (cm : ConsMeta) (off : Z) (n : nat) (i : Z)
    (const_index : nat) (value : Z) (v : list Z) : res (list Z) :=
  match n with
  | O => Ok v
  | S n' =>
      let? value := (if i =? 0 then
                       let? arg := idx (input_args c !! const_index) in Ok (snd arg)
                     else Ok value) in
      let? g := byte_slot c cm off in
      let? v := mi_set g (Z.land (shr64 value i) 0xff) v in
      if i + 8 =? 64 then i2s_memcmp_loop c cm (off + 1) n' 0 (S const_index) value v
      else i2s_memcmp_loop c cm (off + 1) n' (i + 8) const_index value v
  end.

(** The position of the first constant. *)
Fixpoint first_const (args : list (bool * Z)) : nat :=
  match args with
  | [] => O
  | (sym, _) :: args' => if sym : bool then S (first_const args') else O
  end.

Definition i2s_memcmp (c : Constraint) (cm : ConsMeta) : M search bool :=
  let const_index := first_const (input_args c) in
  if (const_index =? length (input_args c))%nat then ret false
  else match i2s_candidates cm with
       | [(offset, size)] =>
           if size =? Z.of_nat (length (local_map c)) then
             let! v := gets scratch_input in
             let! v := lift (i2s_memcmp_loop c cm offset (Z.to_nat size) 0 const_index 0 v) in
             modify (set_scratch_input v) ;;; ret true
           else ret false
       | _ => ret false
       end.

(** One constraint: whether [scratch_input] was changed for it. *)
Definition i2s_constraint (k : nat) : M search bool :=
  let! c := lift (at_ (constraints_ t !! k)) in
  let! cm := lift (at_ (consmetas_ t !! k)) in
  let! ds := gets min_distances in
  let! d := lift (idx (ds !! k)) in
  if d =? 0 then ret false
  else if rgd.isRelationalKind (comparison cm) then
    let! ops := gets operands in
    let! ops := lift (idx (ops !! k)) in
    let! att := gets s_attempts in
    i2s_candidate_loop k c cm ops (i2s_candidates cm) 0 (u64 (uninit att k))
  else if bool_decide (comparison cm = rgd.Memcmp) then i2s_memcmp c cm
  else ret false.

Fixpoint i2s_loop (k n : nat) (updated : bool) : M search bool :=
  match n with
  | O => ret updated
  | S n' =>
      let! u := i2s_constraint k in
      i2s_loop (S k) n' (updated || u)
  end.

Definition try_i2s (f0 : Z) : M search Z :=
  reject ;;;
  let! updated := i2s_loop 0 (length (constraints_ t)) false in
  if updated : bool then
    let! f_new := full_distance in
    if f_new <? f0 then accept ;;; ret f_new else ret f0
  else ret f0.

(** ** The search *)

(** [n] random bytes. *)
Definition randomize (n d : nat) : list Z := (fun i => u8 (rand_byte (d + i))) <$> seq 0 n.

Definition min_distance : M search Z :=
  let! v := gets input in
  let! ds := gets min_distances in
  let! (f, ds) := distance v ds in
  modify (set_min_distances ds) ;;; ret f.

Definition repick_start_point : M search Z :=
  modify (fun s => set_draws (draws s + length (input s))%nat
                     (set_input (randomize (length (input s)) (draws s)) s)) ;;;
  min_distance.

Definition reload_input : M search Z :=
  let! v := gets input in
  let! v := lift (mi_assign (inputs_ t) v) in
  modify (set_input v) ;;;
  min_distance.

(** Other starting points, while there is no slope to follow. *)
Fixpoint repick_loop (fuel : nat) (g_i f0 : Z) : M search (Z * Z) :=
  match fuel with
  | O => throw NoFuel
  | S fuel' =>
      let! g := gets grads in
      if negb (max_val g =? 0) then ret (g_i, f0)
      else if MAX_NUM_MINIMAL_OPTIMA_ROUND <? g_i then ret (g_i, f0)
      else
        let! stopped := gets s_stopped in
        if stopped : bool then ret (g_i, f0)
        else
          let g_i := g_i + 1 in
          let! f0 := repick_start_point in
          let! f0 := try_i2s f0 in
          let! stopped := gets s_stopped in
          if stopped : bool then ret (g_i, f0)
          else
            modify (fun s => set_grads (grad_clear (grads s)) s) ;;;
            cal_gradient f0 ;;;
            repick_loop fuel' g_i f0
  end.

Fixpoint gd_loop (fuel : nat) (f0 : Z) : M search unit :=
  match fuel with
  | O => throw NoFuel
  | S fuel' =>
      let! stopped := gets s_stopped in
      if stopped : bool then ret tt
      else
        cal_gradient f0 ;;;
        let! (g_i, f0) := repick_loop 40 0 f0 in
        let! stopped := gets s_stopped in
        if (stopped : bool) || (MAX_NUM_MINIMAL_OPTIMA_ROUND <? g_i) then ret tt
        else
          modify (fun s => set_grads (normalize (grads s)) s) ;;;
          let! f0 := descend f0 in
          gd_loop fuel' f0
  end.

Definition gd_search : M search bool :=
  modify (fun s => set_status (s_stopped s) 0 (s_solved s) s) ;;;
  let! f0 := reload_input in
  let! f0 := try_i2s f0 in
  let! stopped := gets s_stopped in
  if stopped : bool then gets s_solved
  else if f0 =? UINTMAX_MAX then ret false
  else
    modify (fun s => set_grads (new_grad (length (input s))) s) ;;;
    gd_loop 2000 f0 ;;;
    gets s_solved.

(** [gd_entry] on the task, given what its arrays hold. The two inputs are
    allocated for it; every entry is written before it is read. *)
Definition gd_entry (scratch0 dist min_dist plus_dist minus_dist : list Z) (seed : nat)
    : res bool * SearchTask :=
  let n := length (inputs_ t) in
  let s0 := mk_search scratch0 (replicate n 0) (replicate n 0) min_dist dist plus_dist minus_dist
              ∅ [] (stopped t) (attempts t) (solved t) (solution t) seed in
  let '(r, s) := gd_search s0 in
  (r, mk_task (constraints_ t) (comparisons_ t) (consmetas_ t) (inputs_ t) (shapes_ t)
        (atoi_info_ t) (max_const_num_ t) (cmap_ t) (scratch_args t) (s_stopped s) (s_attempts s)
        (s_solved s) (s_solution s) (base_task t) (skip_next t)).

End gd.
