(* ===== verification/GdSpec.v ===== *)
(** * The search is sound and ends

    [gd_entry] on a task of comparisons always returns, after a bounded number of
    evaluations, and when it reports success the values it wrote into the
    solution make the distance of every constraint zero. *)

From Stdlib Require Import Sorted.
From S2P Require Import Prelude Ast Task TaskSpec ConsSpec Jit Gd.
Local Open Scope prog_scope.

(** ** Total correctness

    [wp m Q s]: run from [s], [m] returns, and the result and the final state
    satisfy [Q]. *)

Section wp.
Context {S : Type}.

Definition wp {A} (m : M S A) (Q : A -> S -> Prop) (s : S) : Prop :=
  match m s with (Ok a, s') => Q a s' | (Err _, _) => False end.

Lemma wp_bind {A B} (m : M S A) (k : A -> M S B) Q s :
  wp m (fun a s' => wp (k a) Q s') s -> wp (bind m k) Q s.
Proof. unfold wp, bind. by destruct (m s) as [[a|e] s']. Qed.

Lemma wp_mono {A} (m : M S A) (P Q : A -> S -> Prop) s :
  wp m P s -> (forall a s', P a s' -> Q a s') -> wp m Q s.
Proof. unfold wp. destruct (m s) as [[a|e] s']; auto. Qed.

Lemma wp_ok {A} (m : M S A) Q s : wp m Q s -> exists a s', m s = (Ok a, s') /\ Q a s'.
Proof. unfold wp. destruct (m s) as [[a|e] s']; [eauto|done]. Qed.

Lemma wp_ret {A} (a : A) (Q : A -> S -> Prop) s : Q a s -> wp (ret a) Q s.
Proof. done. Qed.
Lemma wp_gets {A} (f : S -> A) (Q : A -> S -> Prop) s : Q (f s) s -> wp (gets f) Q s.
Proof. done. Qed.
Lemma wp_modify (f : S -> S) (Q : unit -> S -> Prop) s : Q tt (f s) -> wp (modify f) Q s.
Proof. done. Qed.
Lemma wp_lift {A} (r : res A) a (Q : A -> S -> Prop) s : r = Ok a -> Q a s -> wp (lift r) Q s.
Proof. by intros ->. Qed.

End wp.

(** Steps of a [wp] goal: primitive operations, and a call with a known [wp]. *)
Ltac wp_simple :=
  lazymatch goal with
  | |- wp (bind _ _) _ _ => apply wp_bind; wp_simple
  | |- wp (ret _) _ _ => apply wp_ret
  | |- wp (gets _) _ _ => apply wp_gets
  | |- wp (modify _) _ _ => apply wp_modify
  end.
Ltac wp_call H :=
  first [apply wp_bind; eapply wp_mono; [apply H|cbv beta] | eapply wp_mono; [apply H|cbv beta]].
Ltac wp_lift H := apply wp_bind; eapply wp_lift; [exact H|].

(** ** Distances *)

Lemma sat_inc_bound a b : is_u 64 a -> is_u 64 b -> is_u 64 (sat_inc a b).
Proof.
  intros Ha Hb. unfold sat_inc. destruct (_ <? _); [done|]. by apply wrap_bound.
Qed.

(** A sum of distances is zero when all of them are. *)
Lemma sat_inc_zero a b : is_u 64 a -> is_u 64 b -> sat_inc a b = 0 <-> a = 0 /\ b = 0.
Proof.
  intros Ha Hb. unfold sat_inc, UINTMAX_MAX, is_u, wrap in *.
  destruct (Z.ltb_spec ((a + b) mod 2 ^ 64) a) as [Hlt|Hge].
  - split; [done|]. intros [-> ->]. done.
  - split; [|by intros [-> ->]]. intros E. rewrite E in Hge. assert (a = 0) as -> by lia.
    rewrite Z.add_0_l, Z.mod_small in E by lia. done.
Qed.

Lemma foldl_sat_bound l : forall a, is_u 64 a -> Forall (is_u 64) l -> is_u 64 (foldl sat_inc a l).
Proof.
  induction l as [|b l IH]; intros a Ha Hl; simpl; [done|]. inversion Hl; subst.
  apply IH; [|done]. by apply sat_inc_bound.
Qed.

Lemma foldl_sat_zero l : forall a, is_u 64 a -> Forall (is_u 64) l ->
  foldl sat_inc a l = 0 <-> a = 0 /\ Forall (fun d => d = 0) l.
Proof.
  induction l as [|b l IH]; intros a Ha Hl; simpl.
  - split; [by split|tauto].
  - inversion Hl; subst. rewrite IH, sat_inc_zero by (try done; by apply sat_inc_bound).
    rewrite Forall_cons. tauto.
Qed.

Lemma u64_sub_zero a b : is_u 64 a -> is_u 64 b -> u64 (a - b) = 0 -> a = b.
Proof.
  unfold is_u, wrap. intros Ha Hb E. apply Z.mod_divide in E as [q E]; [|done]. nia.
Qed.

Lemma get_distance_bound k a b : is_u 64 a -> is_u 64 b -> is_u 64 (get_distance k a b).
Proof.
  intros Ha Hb. assert (is_u 64 1) by done. assert (is_u 64 0) by done.
  destruct k; simpl; try done; repeat case_match; try done;
    try (by apply wrap_bound); try (apply sat_inc_bound; [by apply wrap_bound|done]).
  apply lxor_bound; done.
Qed.

(** The distance is zero exactly when the 64-bit comparison holds. *)
Lemma get_distance_zero k a b : rgd.isRelationalKind k = true -> is_u 64 a -> is_u 64 b ->
  get_distance k a b = 0 <-> rgd.compare k 64 a b = true.
Proof.
  intros Hk Ha Hb.
  assert (forall x y, sat_inc (u64 (x - y)) 1 <> 0) as Hsat.
  { intros x y E. apply sat_inc_zero in E as [_ E]; [done|by apply wrap_bound|done]. }
  assert (forall x, s64 x = signed 64 x) as Hs by done.
  destruct k; try discriminate Hk; simpl; bool_hyps;
    repeat match goal with
    | |- context [if ?x =? ?y then _ else _] => destruct (Z.eqb_spec x y)
    | |- context [if ?x <? ?y then _ else _] => destruct (Z.ltb_spec x y)
    | |- context [if ?x <=? ?y then _ else _] => destruct (Z.leb_spec x y)
    end; split; intros E; try done; try lia; try (by apply Hsat in E);
    try (apply u64_sub_zero in E; [subst; try lia|done|done]).
  all: subst; try lia; try (rewrite Z.sub_diag; done).
Qed.

(** ** Tasks and what their functions compute *)

(** Machine code for the constraints of [t]: it stores two words, and reads only
    the arguments of its constraint. *)
Class CompiledFor (t : SearchTask) {MC : MachineCode} : Prop := {
  fn_words k l : is_u 64 (fst (fn k l)) /\ is_u 64 (snd (fn k l));
  fn_args k cm l l' : consmetas_ t !! k = Some cm ->
    (forall j, (j < length (m_input_args cm))%nat -> l !! (2 + j)%nat = l' !! (2 + j)%nat) ->
    fn k l = fn k l'
}.

Section gd_spec.
Context {U : Unspecified} {MC : MachineCode} (t : SearchTask) {CF : CompiledFor t}.
(** The length of the scratch array. *)
Context (N : nat).

Local Abbreviation n := (length (inputs_ t)).
Local Abbreviation sz := (length (constraints_ t)).
Local Abbreviation offsets := (fst <$> inputs_ t).

Definition arg_ok (arg : bool * Z) : Prop :=
  if fst arg then 0 <= snd arg < Z.of_nat n else is_u 64 (snd arg).

(** A constraint of a finalized task. *)
Record cons_ready (c : Constraint) (cm : ConsMeta) : Prop := {
  cr_kind : rgd.isRelationalKind (comparison cm) = true;
  cr_nargs : length (m_input_args cm) = length (input_args c);
  cr_room : (2 + length (input_args c) <= N)%nat;
  cr_args : Forall arg_ok (m_input_args cm);
  cr_local : forall o lidx, (o, lidx) ∈ local_map c ->
    0 <= lidx /\ exists g, m_input_args cm !! Z.to_nat lidx = Some (true, g);
  cr_cands : forall o s x, (o, s) ∈ i2s_candidates cm -> o <= x < o + s ->
    exists lidx, sm_find x (local_map c) = Some lidx
}.

Record searchable : Prop := {
  sb_metas : length (consmetas_ t) = sz;
  sb_cons : forall k c cm, constraints_ t !! k = Some c -> consmetas_ t !! k = Some cm ->
    cons_ready c cm;
  sb_values : Forall (fun p => is_u 64 (snd p)) (inputs_ t);
  (* every byte lists the constraints that read it *)
  sb_cmap : forall i, (i < n)%nat -> exists ks, cmap_ t !! Z.of_nat i = Some ks /\
    Forall (fun k => (k < sz)%nat) ks /\
    forall k cm, consmetas_ t !! k = Some cm -> (true, Z.of_nat i) ∈ m_input_args cm -> k ∈ ks;
  (* every byte has a shape, and the bytes of a word are all there *)
  sb_offsets : NoDup offsets /\ Forall (fun o => is_u 32 o) offsets;
  sb_shapes : forall o, o ∈ offsets -> exists len, shapes_ t !! o = Some len /\ 0 <= len /\
    forall x, o <= x < o + len -> x ∈ offsets
}.

Context (Ht : searchable).

(** ** The distance of a constraint on given values *)

Definition arg_value (v : list Z) (arg : bool * Z) : Z :=
  if fst arg then v !!! Z.to_nat (snd arg) else snd arg.

Definition arguments (v : list Z) (cm : ConsMeta) : list Z := arg_value v <$> m_input_args cm.

Definition cons_ops (v : list Z) (k : nat) : Z * Z :=
  match consmetas_ t !! k with
  | Some cm => fn k ([0; 0] ++ arguments v cm)
  | None => (0, 0)
  end.

Definition cdist (v : list Z) (k : nat) : Z :=
  match consmetas_ t !! k with
  | Some cm => get_distance (comparison cm) (fst (cons_ops v k)) (snd (cons_ops v k))
  | None => 0
  end.

(** All constraints hold on the values [v]. *)
Definition satisfies (v : list Z) : Prop := forall k, (k < sz)%nat -> cdist v k = 0.

Definition words (l : list Z) : Prop := length l = n /\ Forall (is_u 64) l.

Lemma meta_at k : (k < sz)%nat -> exists c cm,
  constraints_ t !! k = Some c /\ consmetas_ t !! k = Some cm /\ cons_ready c cm.
Proof.
  intros Hk. destruct (lookup_lt_is_Some_2 (constraints_ t) k Hk) as [c Hc].
  destruct (lookup_lt_is_Some_2 (consmetas_ t) k) as [cm Hm].
  { by rewrite (sb_metas Ht). }
  exists c, cm. split_and!; try done. by eapply (sb_cons Ht).
Qed.

Lemma cdist_bound v k : is_u 64 (cdist v k).
Proof.
  unfold cdist, cons_ops. destruct (consmetas_ t !! k) as [cm|]; [|done].
  destruct (fn_words k ([0; 0] ++ arguments v cm)). by apply get_distance_bound.
Qed.

(** A constraint that does not read a byte does not notice it. *)
Lemma cdist_local v v' i k ks : (k < sz)%nat -> cmap_ t !! Z.of_nat i = Some ks -> (i < n)%nat ->
  k ∉ ks -> (forall j, j <> i -> v !! j = v' !! j) -> cdist v k = cdist v' k.
Proof.
  intros Hk Hks Hi Hnot Heq. destruct (meta_at k Hk) as (c & cm & _ & Hm & Hr).
  destruct (sb_cmap Ht i Hi) as (ks' & E & _ & Hall). rewrite Hks in E. injection E as <-.
  assert (arguments v cm = arguments v' cm) as E.
  { apply list_fmap_ext. intros j [sym x] Hj. unfold arg_value. simpl. destruct sym; [|done].
    pose proof (Forall_lookup_1 _ _ _ _ (cr_args _ _ Hr) Hj) as Ha. unfold arg_ok in Ha. simpl in Ha.
    assert (Z.to_nat x <> i) as Hne.
    { intros <-. rewrite Z2Nat.id in * by lia. apply Hnot, (Hall _ cm Hm).
      by eapply list_elem_of_lookup_2. }
    rewrite !list_lookup_total_alt. by rewrite Heq. }
  unfold cdist, cons_ops. by rewrite Hm, E.
Qed.
(** ** Evaluating *)

Definition with_operands (x : gmap nat (Z * Z)) (s : search) : search :=
  mk_search (scratch s) (input s) (scratch_input s) (min_distances s) (distances s)
    (plus_distances s) (minus_distances s) x (grads s) (s_stopped s) (s_attempts s) (s_solved s)
    (s_solution s) (draws s).

(** Only the contents of the scratch array change, and operands are recorded. *)
Record same (s s' : search) : Prop := {
  sm_rest : s' = set_scratch (scratch s') (with_operands (operands s') s);
  sm_length : length (scratch s') = length (scratch s);
  sm_operands : dom (operands s) ⊆ dom (operands s')
}.

Lemma same_refl s : same s s.
Proof. by destruct s. Qed.

Lemma same_step_trans s1 s2 s3 : same s1 s2 -> same s2 s3 -> same s1 s3.
Proof.
  intros [E1 L1 D1] [E2 L2 D2]. split; [|congruence|set_solver]. rewrite E2, E1. done.
Qed.

Lemma write_scratch_wp slot x s (Q : unit -> search -> Prop) :
  (slot < length (scratch s))%nat -> Q tt (set_scratch (<[slot := x]> (scratch s)) s) ->
  wp (write_scratch (Z.of_nat slot) x) Q s.
Proof.
  intros Hs HQ. unfold write_scratch. wp_simple. rewrite Nat2Z.id.
  destruct (lookup_lt_is_Some_2 _ _ Hs) as [y Hy].
  apply wp_bind. eapply wp_lift; [by rewrite Hy|]. by wp_simple.
Qed.

Lemma same_write slot x s : same s (set_scratch (<[slot := x]> (scratch s)) s).
Proof. split; [by destruct s|simpl; by rewrite length_insert|done]. Qed.

Lemma load_args_wp v args : length v = n -> Forall arg_ok args -> forall (j : nat) s,
  (2 + j + length args <= length (scratch s))%nat ->
  wp (load_args v args (Z.of_nat j)) (fun _ s' => same s s' /\
    (forall i a, args !! i = Some a -> scratch s' !! (2 + j + i)%nat = Some (arg_value v a)) /\
    (forall i, (i < 2 + j)%nat -> scratch s' !! i = scratch s !! i)) s.
Proof.
  intros Hv. induction 1 as [|[sym x] args Ha Hargs IH]; intros j s Hroom.
  { cbn [load_args]. wp_simple. split; [apply same_refl|done]. }
  simpl in Hroom. cbn [load_args].
  assert (wp (if sym then lift (idx (v !! Z.to_nat x)) else ret x)
    (fun y s' => y = arg_value v (sym, x) /\ s' = s) s) as Hval.
  { unfold arg_value, arg_ok in *. simpl in *. destruct sym; [|done].
    destruct (lookup_lt_is_Some_2 v (Z.to_nat x)) as [y Hy]; [lia|].
    eapply wp_lift; [by rewrite Hy|]. split; [|done].
    by rewrite list_lookup_total_alt, Hy. }
  wp_call Hval. intros y s' [-> ->]. apply wp_bind.
  replace (RET_OFFSET + Z.of_nat j) with (Z.of_nat (2 + j)) by (unfold RET_OFFSET; lia).
  apply write_scratch_wp; [lia|]. replace (Z.of_nat j + 1) with (Z.of_nat (S j)) by lia.
  eapply wp_mono; [apply IH; simpl; rewrite length_insert; lia|].
  intros _ s' (Hsame & Hin & Hout). split; [by eapply same_step_trans, Hsame; apply same_write|]. split.
  - intros [|i] a Hi; simpl in Hi.
    + injection Hi as <-. rewrite Nat.add_0_r, Hout by lia. simpl.
      by rewrite list_lookup_insert_eq by lia.
    + rewrite <- (Hin i a Hi). f_equal. lia.
  - intros i Hi. rewrite Hout by lia. simpl. by rewrite list_lookup_insert_ne by lia.
Qed.

Lemma call_fn_wp k s : (2 <= length (scratch s))%nat ->
  wp (call_fn k) (fun ops s' => ops = fn k (scratch s) /\ same s s') s.
Proof.
  intros Hs. unfold call_fn. wp_simple. destruct (fn k (scratch s)) as [a b].
  apply wp_bind, (write_scratch_wp 0); [lia|].
  apply wp_bind, (write_scratch_wp 1); [simpl; rewrite length_insert; lia|]. wp_simple.
  split; [done|]. eapply same_step_trans; apply same_write.
Qed.

Lemma cons_distance_wp v k s : length v = n -> (k < sz)%nat -> length (scratch s) = N ->
  wp (cons_distance t v k) (fun r s' => r = (cdist v k, cons_ops v k) /\ same s s') s.
Proof.
  intros Hv Hk Hs. destruct (meta_at k Hk) as (c & cm & Hc & Hm & Hr). unfold cons_distance.
  wp_lift (f_equal (at_ (A := _)) Hc). wp_lift (f_equal (at_ (A := _)) Hm).
  pose proof (cr_room _ _ Hr) as Hroom.
  wp_call (load_args_wp v (m_input_args cm) Hv (cr_args _ _ Hr) 0 s).
  { rewrite (cr_nargs _ _ Hr), Hs. apply Hr. }
  intros _ s1 (H1 & Hargs & _). wp_call (call_fn_wp k s1).
  { rewrite (sm_length _ _ H1). lia. }
  intros ops s2 [-> H2]. wp_simple. split; [|by eapply same_step_trans].
  assert (fn k (scratch s1) = cons_ops v k) as ->.
  { unfold cons_ops. rewrite Hm. eapply fn_args; [exact Hm|]. intros j Hj.
    destruct (lookup_lt_is_Some_2 (m_input_args cm) j Hj) as [a Ha].
    specialize (Hargs j a Ha). simpl in Hargs |- *. rewrite Hargs. unfold arguments. by rewrite list_lookup_fmap, Ha. }
  unfold cdist. by rewrite Hm.
Qed.

(** Writing the distances of the constraints [ks]. *)
Definition update_ds (v : list Z) (ks : list nat) (ds : list Z) : list Z :=
  foldl (fun ds k => <[k := cdist v k]> ds) ds ks.

Lemma update_ds_length v ks : forall ds, length (update_ds v ks ds) = length ds.
Proof.
  induction ks as [|k ks IH]; intros ds; [done|]. simpl. unfold update_ds in *. simpl.
  by rewrite IH, length_insert.
Qed.

Lemma update_ds_other v ks : forall ds k, k ∉ ks -> update_ds v ks ds !! k = ds !! k.
Proof.
  induction ks as [|k' ks IH]; intros ds k Hk; [done|]. apply not_elem_of_cons in Hk as [Hne Hk].
  unfold update_ds in *. simpl. rewrite IH by done. by rewrite list_lookup_insert_ne.
Qed.

Lemma update_ds_at v ks : forall ds k, k ∈ ks -> (k < length ds)%nat ->
  update_ds v ks ds !! k = Some (cdist v k).
Proof.
  induction ks as [|k' ks IH]; intros ds k Hin Hk; [by apply not_elem_of_nil in Hin|].
  unfold update_ds in *. simpl. destruct (decide (k ∈ ks)) as [Hks|Hks].
  - apply IH; [done|by rewrite length_insert].
  - apply elem_of_cons in Hin as [->|]; [|done].
    pose proof (update_ds_other v ks (<[k':=cdist v k']> ds) k' Hks) as E.
    unfold update_ds in E. rewrite E. by rewrite list_lookup_insert_eq.
Qed.

Lemma write_distance_ok k d ds : (k < length ds)%nat -> write_distance k d ds = Ok (<[k := d]> ds).
Proof.
  intros Hk. unfold write_distance. by destruct (lookup_lt_is_Some_2 _ _ Hk) as [x ->].
Qed.

Lemma single_loop_wp v : length v = n -> forall ks ds sum s,
  Forall (fun k => (k < sz)%nat) ks -> length ds = sz -> length (scratch s) = N ->
  wp (single_loop t v ks ds sum) (fun r s' =>
    r = (foldl sat_inc sum (cdist v <$> ks), update_ds v ks ds) /\ same s s') s.
Proof.
  intros Hv. induction ks as [|k ks IH]; intros ds sum s Hks Hds Hs; cbn [single_loop].
  { wp_simple. split; [done|apply same_refl]. }
  apply Forall_cons in Hks as [Hk Hks]. wp_call (cons_distance_wp v k s Hv); [done|done|].
  intros r s1 [-> H1]. cbv beta iota. apply wp_bind.
  eapply wp_lift; [apply write_distance_ok; lia|].
  eapply wp_mono; [apply IH; [done|by rewrite length_insert|rewrite (sm_length _ _ H1); done]|].
  intros r s2 [-> H2]. split; [done|]. by eapply same_step_trans.
Qed.

Lemma distance_loop_wp v : length v = n -> forall m i ds sum s,
  (i + m <= sz)%nat -> length ds = sz -> length (scratch s) = N ->
  wp (distance_loop t v i m ds sum) (fun r s' =>
    r = (foldl sat_inc sum (cdist v <$> seq i m), update_ds v (seq i m) ds) /\ same s s' /\
    forall k, (i <= k < i + m)%nat -> k ∈ dom (operands s')) s.
Proof.
  intros Hv. induction m as [|m IH]; intros i ds sum s Him Hds Hs; cbn [distance_loop].
  { wp_simple. split_and!; [done|apply same_refl|lia]. }
  wp_call (cons_distance_wp v i s Hv); [lia|done|].
  intros r s1 [-> H1]. cbv beta iota. apply wp_bind.
  eapply wp_lift; [apply write_distance_ok; lia|]. wp_simple.
  assert (same s1 (set_operands i (cons_ops v i) s1)) as H1'.
  { split; [by destruct s1|done|]. simpl. rewrite dom_insert. set_solver. }
  eapply wp_mono; [apply IH; [lia|by rewrite length_insert|
    simpl; rewrite (sm_length _ _ H1); done]|].
  intros r s2 (-> & H2 & Hops). split_and!; [done|by eapply same_step_trans, same_step_trans|].
  intros k Hk. destruct (decide (k = i)) as [->|]; [|apply Hops; lia].
  apply (sm_operands _ _ H2). simpl. rewrite dom_insert. set_solver.
Qed.

(** ** Vectors of distances

    A recorded zero is a zero; other entries may be out of date. *)

Definition sound (v ds : list Z) : Prop :=
  length ds = sz /\ Forall (is_u 64) ds /\ forall k, ds !! k = Some 0 -> cdist v k = 0.

Lemma update_ds_bound v ks : forall ds, Forall (is_u 64) ds -> Forall (is_u 64) (update_ds v ks ds).
Proof.
  induction ks as [|k ks IH]; intros ds Hds; [done|]. apply IH, Forall_insert; [done|].
  apply cdist_bound.
Qed.

Lemma full_at v ds k : length ds = sz -> (k < sz)%nat ->
  update_ds v (seq 0 sz) ds !! k = Some (cdist v k).
Proof. intros Hds Hk. apply update_ds_at; [apply elem_of_seq|]; lia. Qed.

Lemma full_sound v ds : length ds = sz -> sound v (update_ds v (seq 0 sz) ds).
Proof.
  intros Hds. assert (forall k x, update_ds v (seq 0 sz) ds !! k = Some x -> x = cdist v k) as Hat.
  { intros k x Hx. pose proof (lookup_lt_Some _ _ _ Hx) as Hk. rewrite update_ds_length in Hk.
    rewrite full_at in Hx by lia. congruence. }
  split_and!.
  - by rewrite update_ds_length.
  - apply Forall_lookup. intros k x Hx. rewrite (Hat k x Hx). apply cdist_bound.
  - intros k Hk. by rewrite <- (Hat k 0 Hk).
Qed.

Lemma full_sum_zero v : foldl sat_inc 0 (cdist v <$> seq 0 sz) = 0 <-> satisfies v.
Proof.
  rewrite foldl_sat_zero; [|done|].
  - rewrite Forall_fmap, Forall_forall. unfold satisfies. setoid_rewrite elem_of_seq. simpl.
    split; [intros [_ H] k Hk; apply H; lia|]. intros H. split; [done|]. intros k Hk. apply H. lia.
  - apply Forall_fmap, Forall_true. intros k. apply cdist_bound.
Qed.

Lemma sum_sound v ds : sound v ds -> sum_distances t ds = 0 -> satisfies v.
Proof.
  intros (Hlen & Hu & Hz). unfold sum_distances. rewrite take_ge by lia.
  rewrite foldl_sat_zero by done. intros [_ Hall] k Hk.
  destruct (lookup_lt_is_Some_2 ds k) as [x Hx]; [lia|].
  apply Hz. rewrite Hx. f_equal. by apply (Forall_lookup_1 _ _ _ _ Hall Hx).
Qed.

(** Moving one byte and evaluating the constraints that read it. *)
Lemma move_sound v v' i ks ds : cmap_ t !! Z.of_nat i = Some ks -> (i < n)%nat ->
  (forall j, j <> i -> v !! j = v' !! j) -> sound v ds -> sound v' (update_ds v' ks ds).
Proof.
  intros Hks Hi Heq (Hlen & Hu & Hz). split_and!.
  - by rewrite update_ds_length.
  - by apply update_ds_bound.
  - intros k Hk. pose proof (lookup_lt_Some _ _ _ Hk) as Hlt. rewrite update_ds_length in Hlt.
    destruct (decide (k ∈ ks)) as [Hin|Hin].
    + rewrite update_ds_at in Hk by done. by injection Hk.
    + rewrite update_ds_other in Hk by done.
      rewrite <- (cdist_local v v' i k ks) by (done || lia). by apply Hz.
Qed.

(** When they all hold, the old vector will do. *)
Lemma lucky_sound v v' i ks ds : cmap_ t !! Z.of_nat i = Some ks -> (i < n)%nat ->
  (forall j, j <> i -> v !! j = v' !! j) -> foldl sat_inc 0 (cdist v' <$> ks) = 0 ->
  sound v ds -> sound v' ds.
Proof.
  intros Hks Hi Heq Hsum (Hlen & Hu & Hz). split_and!; [done|done|].
  apply foldl_sat_zero in Hsum as [_ Hall]; [|done|apply Forall_fmap, Forall_true; intros; apply cdist_bound].
  rewrite Forall_fmap, Forall_forall in Hall. intros k Hk.
  destruct (decide (k ∈ ks)) as [Hin|Hin]; [by apply Hall|].
  pose proof (lookup_lt_Some _ _ _ Hk). rewrite <- (cdist_local v v' i k ks) by (done || lia).
  by apply Hz.
Qed.

(** ** The solution *)

(** [o] is the input in the order of its offsets, with the values [v]. *)
Definition ordered (v : list Z) (o : list (Z * Z)) : Prop :=
  StronglySorted Z.lt (keys o) /\ (forall x, x ∈ keys o <-> x ∈ offsets) /\
  forall i off x, offsets !! i = Some off -> v !! i = Some x -> (off, x) ∈ o.

Lemma order_loop_ok v l : forall (i : nat) m, (i + length l <= length v)%nat ->
  NoDup (fst <$> l) -> (forall x, x ∈ fst <$> l -> sm_find x m = None) ->
  StronglySorted Z.lt (keys m) ->
  exists o, order_loop v l i m = Ok o /\ StronglySorted Z.lt (keys o) /\
    o ≡ₚ m ++ zip (fst <$> l) (take (length l) (drop i v)).
Proof.
  induction l as [|[off y] l IH]; intros i m Hlen Hnd Hnew Hs; simpl in *.
  { exists m. split_and!; try done. by rewrite app_nil_r. }
  apply NoDup_cons in Hnd as [Hni Hnd].
  destruct (lookup_lt_is_Some_2 v i) as [x Hx]; [lia|]. rewrite Hx. simpl.
  destruct (IH (S i) (sm_set off x m)) as (o & -> & Ho & Hp); try done; [lia|..].
  - intros z Hz. rewrite sm_find_set. destruct (Z.eqb_spec z off) as [->|]; [done|].
    apply Hnew. by right.
  - by apply sm_set_sorted.
  - exists o. split_and!; [done|done|]. rewrite Hp, sm_set_new by (apply Hnew; by left).
    rewrite (drop_S v x i Hx). simpl. by rewrite Permutation_middle.
Qed.

Lemma order_inputs_ok v : length v = n -> exists o, order_inputs t v = Ok o /\ ordered v o.
Proof.
  intros Hv. destruct (sb_offsets Ht) as [Hnd _].
  destruct (order_loop_ok v (inputs_ t) 0 [] ltac:(lia) Hnd) as (o & E & Hs & Hp); try done.
  { constructor. }
  exists o. split; [done|]. simpl in Hp. rewrite drop_0, take_ge in Hp by lia. split_and!.
  - done.
  - intros x. unfold keys. rewrite Hp, fst_zip by (rewrite length_fmap; lia). done.
  - intros i off x Hoff Hx. rewrite Hp. apply list_elem_of_lookup. exists i.
    rewrite lookup_zip_with, Hoff, Hx. done.
Qed.

Lemma sorted_lookup (l : list Z) : StronglySorted Z.lt l -> forall i j x y,
  l !! i = Some x -> l !! j = Some y -> (i < j)%nat -> x < y.
Proof.
  induction 1 as [|z l Hs IH Hf]; intros [|i] [|j] x y Hx Hy Hij; try lia; try done; simpl in *.
  - injection Hx as <-. by apply (Forall_lookup_1 _ _ _ _ Hf Hy).
  - apply (IH i j); [done|done|lia].
Qed.

(** Consecutive keys are at consecutive positions. *)
Lemma sorted_run (l : list Z) (i : nat) s m : StronglySorted Z.lt l -> l !! i = Some s ->
  (forall x, s <= x < s + Z.of_nat m -> x ∈ l) ->
  forall j, (j < m)%nat -> l !! (i + j)%nat = Some (s + Z.of_nat j).
Proof.
  intros Hs Hi Hall. induction j as [|j IH]; intros Hj.
  { rewrite Nat.add_0_r, Hi. f_equal. lia. }
  specialize (IH ltac:(lia)).
  pose proof (sorted_lookup l Hs) as Hlt.
  destruct (proj1 (list_elem_of_lookup l (s + Z.of_nat (S j))) (Hall (s + Z.of_nat (S j)) ltac:(lia))) as [q Hq].
  assert (i + j < q)%nat as Hgt.
  { destruct (decide (i + j < q)%nat) as [|Hle]; [done|].
    destruct (decide (q = i + j)%nat) as [->|]; [rewrite IH in Hq; injection Hq; lia|].
    pose proof (Hlt q (i + j)%nat _ _ Hq IH ltac:(lia)). lia. }
  destruct (decide (q = i + S j)%nat) as [->|]; [done|].
  destruct (lookup_lt_is_Some_2 l (i + S j)) as [y Hy].
  { apply lookup_lt_Some in Hq. lia. }
  pose proof (Hlt _ _ _ _ IH Hy ltac:(lia)). pose proof (Hlt _ _ _ _ Hy Hq ltac:(lia)). lia.
Qed.

Lemma join_bytes_ok o i : forall m j r, (i + j + m <= length o)%nat -> is_u 64 r ->
  exists x, join_bytes o i j m r = Ok x /\ is_u 64 x.
Proof.
  induction m as [|m IH]; intros j r Hlen Hr; simpl; [by eauto|].
  destruct (lookup_lt_is_Some_2 o (i + j)) as [x ->]; [lia|]. simpl.
  apply IH; [lia|]. by apply wrap_bound.
Qed.

Lemma copy_bytes_ok o start i : forall m j sol, (i + j + m <= length o)%nat ->
  exists sol', copy_bytes o start i j m sol = Ok sol'.
Proof.
  induction m as [|m IH]; intros j sol Hlen; simpl; [by eauto|].
  destruct (lookup_lt_is_Some_2 o (i + j)) as [x ->]; [lia|]. simpl. apply IH. lia.
Qed.

(** The bytes of the word that starts at position [i]. *)
Lemma word_at v o i start x : ordered v o -> o !! i = Some (start, x) ->
  exists len, shapes_ t !! start = Some len /\ 0 <= len /\
    forall j, (j < Z.to_nat len)%nat ->
      keys o !! (i + j)%nat = Some (start + Z.of_nat j).
Proof.
  intros (Hs & Hk & _) Hi.
  assert (keys o !! i = Some start) as Hki by (unfold keys; by rewrite list_lookup_fmap, Hi).
  destruct (sb_shapes Ht start) as (len & Hlen & H0 & Hall).
  { apply Hk. by eapply list_elem_of_lookup_2. }
  exists len. split_and!; [done|done|]. apply sorted_run; [done|done|].
  intros y Hy. apply Hk, Hall. lia.
Qed.

Lemma add_loop_ok v o : ordered v o -> Forall (fun p => is_u 64 (snd p)) o ->
  forall fuel i sol, (length o <= i + fuel)%nat -> exists sol', add_loop t fuel o i sol = Ok sol'.
Proof.
  intros Ho Hu. induction fuel as [|fuel IH]; intros i sol Hf; simpl.
  { rewrite lookup_ge_None_2 by lia. by eauto. }
  destruct (o !! i) as [[start x]|] eqn:Hi; [|by eauto].
  destruct (word_at v o i start x Ho Hi) as (len & Hlen & H0 & Hw).
  unfold task_shapes. rewrite Hlen. destruct (Z.eqb_spec len 0) as [->|Hne]; [apply IH; lia|].
  assert (i + Z.to_nat len <= length o)%nat as Hle.
  { pose proof (Hw (Z.to_nat len - 1)%nat ltac:(lia)) as H. apply lookup_lt_Some in H.
    unfold keys in H. rewrite length_fmap in H. lia. }
  pose proof (Forall_lookup_1 _ _ _ _ Hu Hi) as Hx. simpl in Hx.
  destruct (len <=? 8).
  - destruct (join_bytes_ok o i (Z.to_nat len - 1) 1 x) as (r & -> & _); [lia|done|]. apply IH. lia.
  - destruct (copy_bytes_ok o start i (Z.to_nat len) 0 sol) as (sol' & ->); [lia|]. apply IH. lia.
Qed.

(** [sol] is what [add_results] makes of the values [v]. *)
Definition results (v : list Z) (sol : gmap Z Z) : Prop :=
  exists o sol0, order_inputs t v = Ok o /\ add_loop t (length o) o 0 sol0 = Ok sol.

Lemma ordered_values v o : words v -> order_inputs t v = Ok o -> ordered v o /\
  Forall (fun p => is_u 64 (snd p)) o.
Proof.
  intros [Hv Hu] E. destruct (order_inputs_ok v Hv) as (o' & E' & Ho). rewrite E in E'.
  injection E' as <-. split; [done|]. destruct (sb_offsets Ht) as [Hnd _].
  destruct (order_loop_ok v (inputs_ t) 0 [] ltac:(lia) Hnd) as (o' & E' & _ & Hp); try done.
  { constructor. }
  unfold order_inputs in E. rewrite E in E'. injection E' as <-. rewrite Hp. simpl.
  rewrite drop_0, take_ge by lia. apply Forall_lookup. intros i [off x] Hi.
  rewrite lookup_zip_with in Hi. destruct (offsets !! i); [|done]. simpl in Hi.
  destruct (v !! i) as [y|] eqn:Hy; [|done]. simpl in Hi. injection Hi as _ <-.
  by apply (Forall_lookup_1 _ _ _ _ Hu Hy).
Qed.

Lemma mark_solved_wp v s : words v ->
  wp (mark_solved t v) (fun _ s' => exists sol, results v sol /\
    s' = set_solution sol (set_status true (s_attempts s) true s)) s.
Proof.
  intros Hv. unfold mark_solved, add_results. wp_simple.
  destruct (order_inputs_ok v (proj1 Hv)) as (o & E & _).
  destruct (ordered_values v o Hv E) as [Ho Hu].
  wp_lift E. wp_simple. cbn [s_solution set_status].
  destruct (add_loop_ok v o Ho Hu (length o) 0 (s_solution s)) as [sol Hsol]; [lia|].
  wp_lift Hsol. wp_simple. exists sol. split; [|done]. by exists o, (s_solution s).
Qed.

(** ** The invariant of the search *)

Definition solved_ok (s : search) : Prop :=
  s_solved s = true -> s_stopped s = true /\
    exists v, words v /\ satisfies v /\ results v (s_solution s).

(** [all]: every constraint has been evaluated once. *)
Record inv (s : search) : Prop := {
  iv_scratch : length (scratch s) = N;
  iv_input : words (input s);
  iv_temp : words (scratch_input s);
  iv_min : length (min_distances s) = sz;
  iv_dist : length (distances s) = sz;
  iv_grads : (length (grads s) <= n)%nat;
  iv_attempts : 0 <= s_attempts s;
  iv_running : s_stopped s = false -> s_attempts s <= MAX_EXEC_TIMES;
  iv_solved : solved_ok s
}.

(** The best input and its distances; the search may be interrupted while it
    tries a byte. *)
Definition best_ok (s : search) : Prop :=
  s_stopped s = true \/ sound (input s) (min_distances s).

Definition evaluated (s : search) : Prop := forall k, (k < sz)%nat -> k ∈ dom (operands s).

(** Later states. *)
Record later (s s' : search) : Prop := {
  lt_inv : inv s';
  lt_attempts : s_attempts s <= s_attempts s';
  lt_stopped : s_stopped s = true -> s_stopped s' = true;
  lt_operands : dom (operands s) ⊆ dom (operands s');
  lt_grads : length (grads s') = length (grads s)
}.

Lemma later_refl s : inv s -> later s s.
Proof. by split. Qed.

Lemma later_trans s1 s2 s3 : later s1 s2 -> later s2 s3 -> later s1 s3.
Proof. intros [_ ? ? ? ?] [? ? ? ? ?]. split; [done|lia|auto|set_solver|congruence]. Qed.

Lemma later_evaluated s s' : later s s' -> evaluated s -> evaluated s'.
Proof. intros [_ _ _ H _] He k Hk. apply H, He, Hk. Qed.

Lemma same_later s s' : inv s -> same s s' -> later s s'.
Proof.
  intros [] [E L D]. revert E L D. generalize (scratch s') as x, (operands s') as y.
  intros x y -> L D. split; [split|..]; simpl; try done. congruence.
Qed.

(** The inputs, the recorded distances and the gradient are as before. *)
Definition keeps (s s' : search) : Prop :=
  input s' = input s /\ scratch_input s' = scratch_input s /\
  min_distances s' = min_distances s /\ distances s' = distances s /\ grads s' = grads s.

Lemma same_keeps s s' : same s s' -> keeps s s'.
Proof.
  intros [E _ _]. revert E. generalize (scratch s') as x, (operands s') as y. by intros x y ->.
Qed.

Lemma distance_wp v ds s : inv s -> words v -> length ds = sz ->
  wp (distance t v ds) (fun r s' => let '(f, ds') := r in
    later s s' /\ keeps s s' /\ sound v ds' /\ (f = 0 -> satisfies v) /\
    s_attempts s' = s_attempts s + 1 /\ evaluated s') s.
Proof.
  intros Hs Hv Hds. unfold distance.
  wp_call (distance_loop_wp v (proj1 Hv) sz 0 ds 0 s); [lia|done|apply Hs|].
  intros r s1 (-> & H1 & Hops). cbv beta iota.
  pose proof (same_later s s1 Hs H1) as L1. pose proof (same_keeps s s1 H1) as K1.
  set (sum := foldl sat_inc 0 (cdist v <$> seq 0 sz)).
  assert (s_attempts s1 = s_attempts s) as A1.
  { rewrite (sm_rest _ _ H1). done. }
  assert (wp (if sum =? 0 then mark_solved t v else ret tt) (fun _ s' =>
    later s1 s' /\ keeps s1 s' /\ s_attempts s' = s_attempts s1 /\ operands s' = operands s1) s1)
    as Hmark.
  { destruct (Z.eqb_spec sum 0) as [E|E]; [|apply wp_ret; split_and!; try done; by apply later_refl, L1].
    eapply wp_mono; [by apply mark_solved_wp|]. intros _ s' (sol & Hres & ->).
    split_and!; try done. destruct (lt_inv _ _ L1). split; [split|..]; simpl; try done.
    intros _. split; [done|]. exists v. split_and!; try done. by apply full_sum_zero. }
  wp_call Hmark. intros _ s2 (L2 & K2 & A2 & O2). do 3 wp_simple.
  assert (later s2 (let s' := set_status (s_stopped s2) (s_attempts s2 + 1) (s_solved s2) s2 in
    if MAX_EXEC_TIMES <? s_attempts s' then set_status true (s_attempts s') false s' else s')) as L3.
  { destruct (lt_inv _ _ L2). cbv zeta. cbn [s_attempts set_status].
    destruct (Z.ltb_spec MAX_EXEC_TIMES (s_attempts s2 + 1)); (split; [split|..]); simpl; try done; lia. }
  split_and!.
  - eapply later_trans; [exact L1|]. by eapply later_trans.
  - assert (keeps s s2) as (I1 & I2 & I3 & I4 & I5).
    { destruct K1 as (? & ? & ? & ? & ?), K2 as (? & ? & ? & ? & ?). split_and!; congruence. }
    destruct (_ <? _); done.
  - by apply full_sound.
  - intros E. by apply full_sum_zero.
  - destruct (_ <? _); simpl; lia.
  - intros k Hk. apply (lt_operands _ _ L3). rewrite O2. apply Hops. lia.
Qed.

Lemma count_attempt_wp s : inv s ->
  wp count_attempt (fun _ s' => later s s' /\ keeps s s' /\
    s_attempts s' = s_attempts s + 1) s.
Proof.
  intros []. unfold count_attempt. wp_simple. split_and!; try done.
  split; [split|..]; simpl; try done; try lia.
  - intros H. destruct (iv_solved0 H) as [-> ?]. done.
  - by intros ->.
Qed.

Lemma single_distance_wp v ds i s : inv s -> words v -> length ds = sz -> (i < n)%nat ->
  wp (single_distance t v ds i) (fun r s' => exists ks, cmap_ t !! Z.of_nat i = Some ks /\
    r = (foldl sat_inc 0 (cdist v <$> ks), update_ds v ks ds) /\ same s s') s.
Proof.
  intros Hs Hv Hds Hi. destruct (sb_cmap Ht i Hi) as (ks & Hks & Hlt & _). unfold single_distance.
  apply wp_bind. eapply wp_lift.
  { unfold task_cmap. rewrite (proj2 (Z.leb_gt _ _)) by lia. by rewrite Hks. }
  eapply wp_mono; [by apply single_loop_wp; [apply Hv|..|apply Hs]|].
  intros r s' [-> H]. by exists ks.
Qed.

(** ** Probing a byte *)

Definition differ_at (i : nat) (v v' : list Z) : Prop := forall j, j <> i -> v !! j = v' !! j.

Lemma mi_update_ok i d delta v : words v -> (i < n)%nat ->
  exists v', mi_update i d delta v = Ok v' /\ words v' /\ differ_at i v v'.
Proof.
  intros [Hl Hu] Hi. destruct (lookup_lt_is_Some_2 v i) as [x Hx]; [lia|]. unfold mi_update. rewrite Hx.
  eexists. split; [done|]. split; [split|].
  - by rewrite length_insert.
  - apply Forall_insert; [done|]. destruct d; by apply wrap_bound.
  - intros j Hj. by rewrite list_lookup_insert_ne.
Qed.

Lemma later_input v s : inv s -> words v -> later s (set_input v s).
Proof. intros [] Hv. by split; [split|..]. Qed.

Lemma later_temp v s : inv s -> words v -> later s (set_scratch_input v s).
Proof. intros [] Hv. by split; [split|..]. Qed.

Lemma later_side plus ds s : inv s -> later s (set_side_distances plus ds s).
Proof. intros []. by split; [split|..]. Qed.

Lemma probe_wp plus i f0 v0 : (i < n)%nat -> forall fuel delta f s,
  inv s -> s_stopped s = false -> sound v0 (min_distances s) -> differ_at i v0 (input s) ->
  0 < delta -> 256 <= delta * 4 ^ Z.of_nat fuel ->
  wp (probe t plus i f0 fuel delta f) (fun r s' => later s s' /\
    min_distances s' = min_distances s /\ differ_at i v0 (input s') /\
    match r with
    | Lucky => sound (input s') (min_distances s')
    | Stopped => s_stopped s' = true
    | Probed _ => s_stopped s' = false
    end) s.
Proof.
  intros Hi. induction fuel as [|fuel IH]; intros delta f s Hs Hrun Hsound Hdiff Hd0 Hd; cbn [probe].
  { change (4 ^ Z.of_nat 0) with 1 in Hd. rewrite (proj2 (Z.ltb_ge _ _)) by lia.
    wp_simple. split_and!; try done; by apply later_refl. }
  destruct (Z.ltb_spec delta 256) as [Hlt|Hge];
    [|wp_simple; split_and!; try done; by apply later_refl].
  do 2 wp_simple. destruct (mi_update_ok i plus delta (input s) (iv_input _ Hs) Hi) as (v & E & Hv & Hdv).
  wp_lift E. wp_simple. set (s1 := set_input v s). pose proof (later_input v s Hs Hv) as L1. fold s1 in L1.
  assert (differ_at i v0 v) as Hd1 by (intros j Hj; by rewrite Hdiff, Hdv).
  wp_call (single_distance_wp v (min_distances s) i s1); [apply L1|done|apply Hs|done|].
  intros r s2 (ks & Hks & -> & H2). cbv beta iota. wp_simple.
  pose proof (same_later _ _ (lt_inv _ _ L1) H2) as L2. pose proof (same_keeps _ _ H2) as K2.
  set (s3 := set_side_distances plus (update_ds v ks (min_distances s)) s2).
  pose proof (later_side plus (update_ds v ks (min_distances s)) s2 (lt_inv _ _ L2)) as L3. fold s3 in L3.
  assert (later s s3) as L13 by (eapply later_trans; [exact L1|]; by eapply later_trans).
  assert (input s3 = v /\ min_distances s3 = min_distances s) as [I3 M3]
    by (destruct K2 as (? & _ & ? & _); done).
  destruct (Z.eqb_spec (foldl sat_inc 0 (cdist v <$> ks)) 0) as [Hz|Hz].
  { wp_simple. rewrite I3, M3. split_and!; try done. by eapply lucky_sound. }
  wp_call (count_attempt_wp s3); [apply L3|]. intros _ s4 (L4 & (I4 & _ & M4 & _) & A4). wp_simple.
  assert (later s s4) as L14 by (by eapply later_trans).
  rewrite I3 in I4. rewrite M3 in M4.
  destruct (s_stopped s4) eqn:E4; [wp_simple; rewrite I4; by split_and!|].
  destruct (_ =? f0); [|wp_simple; rewrite I4; by split_and!].
  eapply wp_mono; [apply IH|].
  - apply L14.
  - done.
  - by rewrite M4.
  - by rewrite I4.
  - rewrite !wrap_small; unfold is_u; rewrite ?wrap_small; unfold is_u; lia.
  - rewrite !wrap_small by (unfold is_u; rewrite ?wrap_small; unfold is_u; lia).
    rewrite Nat2Z.inj_succ, Z.pow_succ_r in Hd by lia. lia.
  - intros r s' (L5 & M5 & D5 & Hr). split_and!; [by eapply later_trans|congruence|done|done].
Qed.

Lemma restore_wp i x v0 s : inv s -> words v0 -> v0 !! i = Some x -> differ_at i v0 (input s) ->
  wp (restore i x) (fun _ s' => later s s' /\ input s' = v0 /\ s_stopped s' = s_stopped s /\
    min_distances s' = min_distances s) s.
Proof.
  intros Hs Hv Hx Hd. unfold restore. wp_simple. pose proof (lookup_lt_Some _ _ _ Hx) as Hi.
  destruct (iv_input _ Hs) as [Hlen _]. pose proof Hv as [Hlv _].
  assert (<[i := x]> (input s) = v0) as E.
  { apply list_eq. intros j. destruct (decide (j = i)) as [->|Hj].
    - rewrite list_lookup_insert_eq by lia. done.
    - rewrite list_lookup_insert_ne by done. by rewrite Hd. }
  unfold mi_write. destruct (lookup_lt_is_Some_2 (input s) i) as [y Hy]; [lia|].
  apply wp_bind. eapply wp_lift; [by rewrite Hy|]. wp_simple. rewrite E. split_and!; try done.
  by apply later_input.
Qed.

Lemma partial_derivative_wp i f0 s : (i < n)%nat -> inv s -> s_stopped s = false -> best_ok s ->
  wp (partial_derivative t i f0) (fun _ s' => later s s' /\ best_ok s') s.
Proof.
  intros Hi Hs Hrun [Hb|Hb]; [congruence|]. unfold partial_derivative. wp_simple.
  pose proof (iv_input _ Hs) as Hw. destruct (lookup_lt_is_Some_2 (input s) i) as [x Hx]; [by rewrite (proj1 Hw)|].
  apply wp_bind. eapply wp_lift; [by rewrite Hx|].
  assert (forall plus s1, later s s1 -> input s1 = input s -> min_distances s1 = min_distances s ->
    s_stopped s1 = false -> wp (probe t plus i f0 8 1 0) (fun r s' => later s s' /\
      min_distances s' = min_distances s /\ differ_at i (input s) (input s') /\
      match r with
      | Lucky | Stopped => best_ok s'
      | Probed _ => s_stopped s' = false
      end) s1) as Hprobe.
  { intros plus s1 L I M R. eapply wp_mono.
    - apply (probe_wp plus i f0 (input s) Hi); [apply L|done|by rewrite M|by rewrite I|done|done].
    - intros r s' (L' & M' & D' & Hr). split_and!; [by eapply later_trans|congruence|done|].
      destruct r; [by right|by left|done]. }
  wp_call Hprobe; [by apply later_refl|done..|]. intros [| |fp] s1 (L1 & M1 & D1 & R1);
    [by wp_simple|by wp_simple|].
  wp_call (restore_wp i x (input s) s1); [apply L1|done..|].
  intros _ s2 (L2 & I2 & R2 & M2).
  wp_call Hprobe; [by eapply later_trans|done|congruence|congruence|].
  intros [| |fm] s3 (L3 & M3 & D3 & R3); [by wp_simple|by wp_simple|].
  wp_call (restore_wp i x (input s) s3); [apply L3|done..|].
  intros _ s4 (L4 & I4 & R4 & M4). wp_simple. split; [by eapply later_trans|]. right.
  by rewrite I4, M4, M3.
Qed.

Lemma cal_loop_wp f0 : forall m i s, (i + m <= n)%nat -> inv s -> best_ok s ->
  wp (cal_loop t f0 i m) (fun _ s' => later s s' /\ best_ok s') s.
Proof.
  induction m as [|m IH]; intros i s Him Hs Hb; cbn [cal_loop].
  { wp_simple. split; [by apply later_refl|done]. }
  wp_simple. destruct (s_stopped s) eqn:E; [wp_simple; split; [by apply later_refl|done]|].
  wp_call (partial_derivative_wp i f0 s); [lia|done..|]. intros [[sg lin] v] s1 [L1 B1]. wp_simple.
  set (s2 := set_grads _ s1).
  assert (later s1 s2) as L2.
  { destruct (lt_inv _ _ L1). split; [split|..]; simpl; try done; by rewrite length_alter. }
  eapply wp_mono; [apply IH; [lia|apply L2|done]|]. intros _ s' [L3 B3]. split; [|done].
  eapply later_trans; [exact L1|]. by eapply later_trans.
Qed.

Lemma cal_gradient_wp f0 s : inv s -> best_ok s ->
  wp (cal_gradient t f0) (fun _ s' => later s s' /\ best_ok s') s.
Proof.
  intros Hs Hb. unfold cal_gradient. wp_simple. apply cal_loop_wp; [apply Hs|done|done].
Qed.

(** ** Descent *)

Lemma delta_loop_ok step g : forall i v, (i + length g <= n)%nat -> words v ->
  exists v', delta_loop g step i v = Ok v' /\ words v'.
Proof.
  induction g as [|u g IH]; intros i v Hi Hv; simpl in *; [by eauto|].
  destruct (mi_update_ok i (sign u) (movement u step) v Hv ltac:(lia)) as (v' & -> & Hv' & _).
  apply IH; [lia|done].
Qed.

Lemma compute_delta_all_wp step s : inv s ->
  wp (compute_delta_all step) (fun _ s' => exists v, words v /\ s' = set_scratch_input v s) s.
Proof.
  intros Hs. unfold compute_delta_all. do 2 wp_simple.
  destruct (delta_loop_ok step (grads s) 0 (scratch_input s)) as (v & E & Hv); [apply Hs|apply Hs|].
  wp_lift E. wp_simple. by exists v.
Qed.

Lemma later_dist ds s : inv s -> length ds = sz -> later s (set_distances ds s).
Proof. intros [] H. by split; [split|..]. Qed.

Lemma full_distance_wp s : inv s ->
  wp (full_distance t) (fun f s' => later s s' /\ input s' = input s /\
    min_distances s' = min_distances s /\ sound (scratch_input s') (distances s') /\
    (f = 0 -> satisfies (scratch_input s')) /\ s_attempts s' = s_attempts s + 1 /\
    evaluated s') s.
Proof.
  intros Hs. unfold full_distance. do 2 wp_simple.
  wp_call (distance_wp (scratch_input s) (distances s) s Hs); [apply Hs|apply Hs|].
  intros [f ds] s1 (L1 & (I1 & T1 & M1 & _) & Hsd & Hf & A1 & E1). do 2 wp_simple. simpl. rewrite T1.
  split_and!; try done. eapply later_trans; [exact L1|]. apply later_dist; [apply L1|apply Hsd].
Qed.

Lemma found_wp s : inv s -> satisfies (scratch_input s) ->
  wp (found t) (fun _ s' => later s s' /\ s_stopped s' = true /\ s_attempts s' = s_attempts s) s.
Proof.
  intros Hs Hsat. unfold found. wp_simple. pose proof (iv_temp _ Hs) as Hw.
  eapply wp_mono; [by apply mark_solved_wp|]. intros _ s' (sol & Hres & ->).
  split_and!; try done. destruct Hs. split; [split|..]; simpl; try done.
  intros _. split; [done|]. by exists (scratch_input s).
Qed.

Lemma accept_wp s : inv s -> sound (scratch_input s) (distances s) ->
  wp accept (fun _ s' => later s s' /\ best_ok s' /\ sound (scratch_input s') (distances s') /\
    s_attempts s' = s_attempts s) s.
Proof.
  intros Hs Hsd. unfold accept. wp_simple. split_and!; try done; [|by right].
  pose proof (proj1 Hsd). destruct Hs. by split; [split|..].
Qed.

Lemma reject_wp s : inv s ->
  wp reject (fun _ s' => later s s' /\ s' = set_scratch_input (input s) s) s.
Proof. intros Hs. unfold reject. wp_simple. split; [|done]. apply later_temp; [done|apply Hs]. Qed.

Lemma delta_one_wp i step s : inv s -> (i < length (grads s))%nat ->
  sound (scratch_input s) (distances s) ->
  wp (delta_one t i step) (fun r s' => later s s' /\ input s' = input s /\
    min_distances s' = min_distances s /\ sound (scratch_input s') (distances s') /\
    (snd r = 0 -> satisfies (scratch_input s')) /\ s_attempts s' = s_attempts s + 1) s.
Proof.
  intros Hs Hi Hsd. pose proof (iv_grads _ Hs) as Hg. unfold delta_one. wp_simple.
  destruct (lookup_lt_is_Some_2 (grads s) i Hi) as [u Hu].
  apply wp_bind. eapply wp_lift; [by rewrite Hu|]. wp_simple.
  destruct (mi_update_ok i (sign u) (movement u step) (scratch_input s) (iv_temp _ Hs) ltac:(lia))
    as (v & E & Hv & Hd).
  wp_lift E. do 2 wp_simple. set (s1 := set_scratch_input v s).
  pose proof (later_temp v s Hs Hv) as L1. fold s1 in L1.
  wp_call (single_distance_wp v (distances s) i s1); [apply L1|done|apply Hs|lia|].
  intros r s2 (ks & Hks & -> & H2). cbv beta iota. wp_simple.
  pose proof (same_later _ _ (lt_inv _ _ L1) H2) as L2. pose proof (same_keeps _ _ H2) as (I2 & T2 & M2 & _).
  assert (sound v (update_ds v ks (distances s))) as Hsd'.
  { apply (move_sound (scratch_input s) v i ks); [done|lia|done|done]. }
  pose proof (later_dist (update_ds v ks (distances s)) s2 (lt_inv _ _ L2) (proj1 Hsd')) as L3.
  set (s3 := set_distances _ s2) in *.
  assert (s_attempts s3 = s_attempts s) as A3 by (simpl; rewrite (sm_rest _ _ H2); done).
  wp_call (count_attempt_wp s3); [apply L3|]. intros _ s4 (L4 & (I4 & T4 & M4 & D4 & _) & A4). wp_simple.
  simpl in I4, T4, M4, D4, T2. rewrite T4, D4, T2. split_and!.
  - eapply later_trans; [exact L1|]. eapply later_trans; [exact L2|]. by eapply later_trans.
  - by rewrite I4, I2.
  - by rewrite M4, M2.
  - done.
  - by apply sum_sound.
  - lia.
Qed.

(** What the loops of the descent keep. *)
Definition delta_ready (delta : option nat) (s : search) : Prop :=
  match delta with
  | Some i => (i < length (grads s))%nat /\
      (s_stopped s = true \/ sound (scratch_input s) (distances s))
  | None => True
  end.

(** [fuel] is enough to use up the attempts. *)
Definition enough (fuel : nat) (s : search) : Prop :=
  MAX_EXEC_TIMES + 2 <= Z.of_nat fuel + Z.min (s_attempts s) (MAX_EXEC_TIMES + 1).

Lemma descend_step_wp delta step s : inv s -> best_ok s -> s_stopped s = false ->
  delta_ready delta s ->
  wp (match delta with
      | Some i => let! (d, f) := delta_one t i step in ret (Some d, f)
      | None => compute_delta_all step ;;; let! f := full_distance t in ret (None, f)
      end)
    (fun r s' => later s s' /\ best_ok s' /\ sound (scratch_input s') (distances s') /\
       (snd r = 0 -> satisfies (scratch_input s')) /\ s_attempts s' = s_attempts s + 1) s.
Proof.
  intros Hs [|Hb] Hrun Hd; [congruence|]. destruct delta as [i|].
  - destruct Hd as [Hi [|Hsd]]; [congruence|].
    wp_call (delta_one_wp i step s Hs Hi Hsd). intros [d f] s1 (L & I & M & Hsd' & Hf & A). wp_simple.
    split_and!; try done. right. by rewrite I, M.
  - wp_call (compute_delta_all_wp step s Hs). intros _ s1 (v & Hv & ->).
    pose proof (later_temp v s Hs Hv) as L1.
    wp_call (full_distance_wp (set_scratch_input v s)); [apply L1|].
    intros f s2 (L & I & M & Hsd' & Hf & A & _). wp_simple. split_and!; try done.
    + by eapply later_trans.
    + right. by rewrite I, M.
Qed.

Lemma descend_inner_wp delta : forall fuel step f_last s, inv s -> best_ok s ->
  delta_ready delta s -> enough fuel s ->
  wp (descend_inner t fuel delta step f_last) (fun _ s' => later s s' /\ best_ok s' /\
    (s_stopped s = false -> s_attempts s < s_attempts s')) s.
Proof.
  induction fuel as [|fuel IH]; intros step f_last s Hs Hb Hd Hfuel; cbn [descend_inner].
  { unfold enough, MAX_EXEC_TIMES in Hfuel. lia. }
  wp_simple. destruct (s_stopped s) eqn:E.
  { wp_simple. split_and!; [by apply later_refl|done|done]. }
  wp_call (descend_step_wp delta step s Hs Hb E Hd). intros [d f] s1 (L1 & B1 & Hsd & Hf & A1).
  simpl in Hf. cbv beta iota. destruct (bool_decide (d = Some 0)).
  { wp_simple. split_and!; try done. lia. }
  destruct (Z.eqb_spec f 0) as [Hz|Hz].
  { wp_call (found_wp s1); [apply L1|by apply Hf|]. intros _ s2 (L2 & R2 & A2). wp_simple.
    split_and!; [by eapply later_trans|by left|lia]. }
  destruct (f_last <? f); [wp_simple; split_and!; try done; lia|].
  wp_call (accept_wp s1); [apply L1|done|]. intros _ s2 (L2 & B2 & Hsd2 & A2).
  assert (later s s2) as L by (by eapply later_trans).
  eapply wp_mono; [apply IH|].
  - apply L.
  - done.
  - destruct delta as [i|]; [|done]. destruct Hd as [Hi _]. split; [by rewrite (lt_grads _ _ L)|by right].
  - pose proof (iv_running _ Hs E). unfold enough in *. lia.
  - intros r s3 (L3 & B3 & _). split_and!; [by eapply later_trans|done|].
    intros _. pose proof (lt_attempts _ _ L3). lia.
Qed.

Lemma next_delta_le g : forall i, (i <= next_delta g i)%nat.
Proof.
  induction g as [|u g IH]; intros i; simpl; [lia|]. case_match; [|lia].
  specialize (IH (S i)). lia.
Qed.

Lemma enough_start fuel s : inv s -> MAX_EXEC_TIMES + 2 <= Z.of_nat fuel -> enough fuel s.
Proof. intros Hs Hf. pose proof (iv_attempts _ Hs). unfold enough, MAX_EXEC_TIMES in *. lia. Qed.

Lemma descend_outer_wp : forall fuel delta step f_last s, inv s -> best_ok s ->
  delta_ready delta s ->
  (length (grads s) < fuel + match delta with Some i => S i | None => O end)%nat ->
  (0 < fuel)%nat ->
  wp (descend_outer t fuel delta step f_last) (fun _ s' => later s s' /\ best_ok s' /\
    (s_stopped s = false -> s_attempts s < s_attempts s')) s.
Proof.
  induction fuel as [|fuel IH]; intros delta step f_last s Hs Hb Hd Hf H0; [lia|].
  cbn [descend_outer].
  wp_call (descend_inner_wp delta 2000 step f_last s Hs Hb Hd);
    [apply enough_start; [done|unfold MAX_EXEC_TIMES; lia]|].
  intros [f|f] s1 (L1 & B1 & A1); [by wp_simple|]. wp_simple.
  destruct (Nat.eqb_spec (length (grads s1)) 1); [by wp_simple|].
  set (i0 := match delta with Some i => S i | None => O end) in *.
  pose proof (next_delta_le (drop i0 (grads s1)) i0) as Hn. set (i := next_delta _ _) in *.
  destruct (Nat.leb_spec (length (grads s1)) i); [by wp_simple|].
  wp_call (reject_wp s1); [apply L1|]. intros _ s2 (L2 & E2). wp_simple.
  set (s3 := set_distances (min_distances s2) s2).
  assert (later s2 s3) as L3 by (apply later_dist; [apply L2|apply L2]).
  assert (later s s3) as L by (eapply later_trans; [exact L1|]; by eapply later_trans).
  eapply wp_mono; [apply IH|].
  - apply L.
  - unfold s3. rewrite E2. exact B1.
  - split; [rewrite (lt_grads _ _ L); rewrite (lt_grads _ _ L1) in *; done|].
    unfold s3. rewrite E2. exact B1.
  - rewrite (lt_grads _ _ L). rewrite (lt_grads _ _ L1) in *. lia.
  - rewrite (lt_grads _ _ L1) in *. lia.
  - intros f' s4 (L4 & B4 & A4). split_and!; [by eapply later_trans|done|].
    intros E. pose proof (lt_attempts _ _ L4). pose proof (lt_attempts _ _ L2).
    pose proof (lt_attempts _ _ L3). specialize (A1 E). lia.
Qed.

Lemma descend_wp f0 s : inv s -> best_ok s ->
  wp (descend t f0) (fun _ s' => later s s' /\ best_ok s' /\
    (s_stopped s = false -> s_attempts s < s_attempts s')) s.
Proof.
  intros Hs Hb. unfold descend. wp_call (reject_wp s Hs). intros _ s1 [L1 E1]. wp_simple.
  assert (best_ok s1) as B1 by (by rewrite E1).
  assert (s_stopped s1 = s_stopped s /\ s_attempts s1 = s_attempts s) as [R1 A1] by (by rewrite E1).
  assert (wp (if 0 <? val_sum (grads s1) then
       compute_delta_all (f0 / val_sum (grads s1)) ;;;
       let! f_new := full_distance t in
       if f0 <=? f_new then reject ;;; ret (Break f0)
       else if f_new =? 0 then found t ;;; ret (Return 0)
       else accept ;;; ret (Break f_new)
     else modify (fun s => set_distances (min_distances s) s) ;;; ret (Break f0))
    (fun r s' => later s1 s' /\ best_ok s' /\ match r with
       | Return _ => s_attempts s1 < s_attempts s'
       | Break _ => s_attempts s1 < s_attempts s' \/ s_stopped s' = s_stopped s1 end) s1) as Hguess.
  { destruct (0 <? _).
    - wp_call (compute_delta_all_wp (f0 / val_sum (grads s1)) s1); [apply L1|]. intros _ s2 (v & Hv & ->).
      pose proof (later_temp v s1 (lt_inv _ _ L1) Hv) as L2.
      wp_call (full_distance_wp (set_scratch_input v s1)); [apply L2|].
      intros f s3 (L3 & I3 & M3 & Hsd & Hf & A3 & _). simpl in I3, M3, A3.
      assert (later s1 s3) as L13 by (by eapply later_trans).
      assert (best_ok s3) as B3.
      { destruct B1 as [B|B]; [left; by apply (lt_stopped _ _ L13)|right; by rewrite I3, M3]. }
      destruct (f0 <=? f).
      + wp_call (reject_wp s3); [apply L3|]. intros _ s4 [L4 E4]. wp_simple.
        split_and!; [by eapply later_trans|by rewrite E4|left; rewrite E4; simpl; lia].
      + destruct (Z.eqb_spec f 0) as [Hz|Hz].
        * wp_call (found_wp s3); [apply L3|by apply Hf|]. intros _ s4 (L4 & R4 & A4). wp_simple.
          split_and!; [by eapply later_trans|by left|lia].
        * wp_call (accept_wp s3); [apply L3|done|]. intros _ s4 (L4 & B4 & _ & A4). wp_simple.
          split_and!; [by eapply later_trans|done|left; lia].
    - do 2 wp_simple. split_and!; try done; [apply later_dist; apply L1|by right]. }
  wp_call Hguess. intros [f|f] s2 (L2 & B2 & A2).
  - wp_simple. split_and!; [by eapply later_trans|done|]. lia.
  - eapply wp_mono; [apply descend_outer_wp; [apply L2|done|done| |lia]|].
    { rewrite (lt_grads _ _ L2). lia. }
    intros f' s3 (L3 & B3 & A3). pose proof (lt_attempts _ _ L2).
    split_and!; [by eapply later_trans, later_trans|done|]. intros E.
    pose proof (lt_attempts _ _ L3). destruct A2 as [A2|A2]; [lia|].
    assert (s_stopped s2 = false) as E2 by congruence. specialize (A3 E2). lia.
Qed.

(** ** Input to state

    A try changes only the scratch input. *)

Definition quiet (s s' : search) : Prop :=
  later s s' /\ input s' = input s /\ min_distances s' = min_distances s /\
  s_stopped s' = s_stopped s.

Lemma quiet_refl s : inv s -> quiet s s.
Proof. intros Hs. by split; [apply later_refl|]. Qed.

Lemma quiet_trans s1 s2 s3 : quiet s1 s2 -> quiet s2 s3 -> quiet s1 s3.
Proof.
  intros (L1 & ? & ? & ?) (L2 & ? & ? & ?). split_and!; try congruence. by eapply later_trans.
Qed.

Lemma same_quiet s s' : inv s -> same s s' -> quiet s s'.
Proof.
  intros Hs H. pose proof (same_later s s' Hs H). pose proof (same_keeps s s' H) as (? & _ & ? & _).
  split_and!; try done. rewrite (sm_rest _ _ H). done.
Qed.

Lemma spread_value_wp value (lm : list (Z * Z)) : forall i s,
  Forall (fun e => 0 <= snd e /\ (2 + Z.to_nat (snd e) < length (scratch s))%nat) lm ->
  wp (spread_value lm value i) (fun _ s' => same s s') s.
Proof.
  induction lm as [|[o lidx] lm IH]; intros i s Hlm; cbn [spread_value].
  { wp_simple. apply same_refl. }
  apply Forall_cons in Hlm as [[H0 Hlt] Hlm]. simpl in H0, Hlt. apply wp_bind.
  replace (RET_OFFSET + lidx) with (Z.of_nat (2 + Z.to_nat lidx)) by (unfold RET_OFFSET; lia).
  apply write_scratch_wp; [done|]. eapply wp_mono; [apply IH|].
  - simpl. by rewrite length_insert.
  - intros ? s' H. eapply same_step_trans; [apply same_write|exact H].
Qed.

Lemma load_consts_wp args : forall (j : nat) s, (2 + j + length args <= length (scratch s))%nat ->
  wp (load_consts args (Z.of_nat j)) (fun _ s' => same s s') s.
Proof.
  induction args as [|[sym x] args IH]; intros j s Hlen; cbn [load_consts].
  { wp_simple. apply same_refl. }
  simpl in Hlen. apply wp_bind. replace (Z.of_nat j + 1) with (Z.of_nat (S j)) by lia.
  destruct sym; [wp_simple; apply IH; lia|].
  replace (RET_OFFSET + Z.of_nat j) with (Z.of_nat (2 + j)) by (unfold RET_OFFSET; lia).
  apply write_scratch_wp; [lia|].
  eapply wp_mono; [apply IH; simpl; rewrite length_insert; lia|].
  intros ? s' H. eapply same_step_trans; [apply same_write|exact H].
Qed.

Section one_constraint.
Context (c : Constraint) (cm : ConsMeta) (Hr : cons_ready c cm).

Lemma try_new_wp k comp value s : length (scratch s) = N ->
  wp (try_new_i2s_value k c comp value) (fun _ s' => same s s') s.
Proof.
  intros Hs. pose proof (cr_room _ _ Hr). unfold try_new_i2s_value.
  wp_call (spread_value_wp value (local_map c) 0 s).
  { apply Forall_forall. intros [o lidx] Hin. destruct (cr_local _ _ Hr o lidx Hin) as (H0 & g & Hg).
    apply lookup_lt_Some in Hg. rewrite (cr_nargs _ _ Hr) in Hg. simpl. lia. }
  intros ? s1 H1. wp_call (load_consts_wp (input_args c) 0 s1).
  { rewrite (sm_length _ _ H1). lia. }
  intros ? s2 H2. wp_call (call_fn_wp k s2).
  { rewrite (sm_length _ _ H2), (sm_length _ _ H1). lia. }
  intros [x y] s3 [_ H3]. wp_simple. eapply same_step_trans; [exact H1|]. eapply same_step_trans; [exact H2|exact H3].
Qed.

Lemma byte_slot_ok o s x : (o, s) ∈ i2s_candidates cm -> o <= x < o + s ->
  exists g, byte_slot c cm x = Ok g /\ (g < n)%nat.
Proof.
  intros Hin Hx. destruct (cr_cands _ _ Hr o s x Hin Hx) as [lidx Hl].
  destruct (cr_local _ _ Hr x lidx (sm_find_elem _ _ _ Hl)) as (_ & g & Hg).
  unfold byte_slot. rewrite Hl. simpl. rewrite Hg. simpl. eexists. split; [done|].
  pose proof (Forall_lookup_1 _ _ _ _ (cr_args _ _ Hr) Hg) as H. unfold arg_ok in H. simpl in H. lia.
Qed.

Lemma gather_ok o s v bits : (o, s) ∈ i2s_candidates cm -> words v -> forall m off i a b,
  o <= off -> off + Z.of_nat m <= o + s -> exists r, gather c cm v off m i bits a b = Ok r.
Proof.
  intros Hin [Hv _]. induction m as [|m IH]; intros off i a b Ho Hm; simpl; [by eauto|].
  destruct (byte_slot_ok o s off Hin ltac:(lia)) as (g & -> & Hg).
  unfold mi_get. destruct (lookup_lt_is_Some_2 v g) as [x ->]; [lia|]. simpl. apply IH; lia.
Qed.

Lemma scatter_ok o s value : (o, s) ∈ i2s_candidates cm -> forall m off i v, words v ->
  o <= off -> off + Z.of_nat m <= o + s ->
  exists v', scatter c cm value off m i v = Ok v' /\ words v'.
Proof.
  intros Hin. induction m as [|m IH]; intros off i v Hv Ho Hm; simpl; [by eauto|].
  destruct (byte_slot_ok o s off Hin ltac:(lia)) as (g & -> & Hg). pose proof Hv as [Hlen Hu].
  unfold mi_set, mi_write. destruct (lookup_lt_is_Some_2 v g) as [x ->]; [lia|]. simpl.
  apply IH; [|lia|lia]. split; [by rewrite length_insert|]. apply Forall_insert; [done|].
  pose proof (wrap_bound 8 (Z.land (shr64 value i) 0xff) ltac:(lia)) as H8. unfold is_u in *. lia.
Qed.

Lemma i2s_apply_wp k o s value st : (o, s) ∈ i2s_candidates cm -> inv st ->
  wp (i2s_apply k c cm o s value) (fun _ s' => quiet st s') st.
Proof.
  intros Hin Hs. unfold i2s_apply. wp_call (try_new_wp k (comparison cm) value st); [apply Hs|].
  intros d s1 H1. pose proof (same_quiet _ _ Hs H1) as Q1.
  destruct (d =? 0); [|by wp_simple]. wp_simple.
  destruct (decide (0 <= s)) as [H0|H0].
  - destruct (scatter_ok o s value Hin (Z.to_nat s) o 0 (scratch_input s1)) as (v & E & Hv);
      [apply Q1|lia|lia|].
    wp_lift E. do 2 wp_simple. eapply quiet_trans; [exact Q1|]. split_and!; try done.
    apply later_temp; [apply Q1|done].
  - replace (Z.to_nat s) with O by lia. simpl.
    apply wp_bind. eapply wp_lift; [done|]. do 2 wp_simple. eapply quiet_trans; [exact Q1|].
    split_and!; try done. apply later_temp; [apply Q1|]. apply (iv_temp s1), Q1.
Qed.

Lemma i2s_candidate_loop_wp k ops : forall cands, (forall e, e ∈ cands -> e ∈ i2s_candidates cm) ->
  forall a b s, inv s ->
  wp (i2s_candidate_loop k c cm ops cands a b) (fun _ s' => quiet s s') s.
Proof.
  induction cands as [|[o sz'] cands IH]; intros Hin a b s Hs; cbn [i2s_candidate_loop].
  { wp_simple. by apply quiet_refl. }
  assert (forall e, e ∈ cands -> e ∈ i2s_candidates cm) as Hin' by (intros; apply Hin; by right).
  assert ((o, sz') ∈ i2s_candidates cm) as Hc by (apply Hin; by left).
  destruct (8 <? sz'); [by apply IH|]. wp_simple.
  assert (exists r, gather c cm (input s) o (Z.to_nat sz') 0 (sz' * 8) a b = Ok r) as [[a' b'] E].
  { destruct (decide (0 <= sz')).
    - eapply gather_ok; [done|apply Hs|lia|lia].
    - replace (Z.to_nat sz') with O by lia. simpl. by eauto. }
  wp_lift E. cbv beta iota.
  assert (forall x f s1, inv s1 -> wp (match i2s_match (comparison cm) ops x with
      | Some value => i2s_apply k c cm o sz' (f value) | None => ret false end)
    (fun _ s' => quiet s1 s') s1) as Htry.
  { intros x f s1 H1. destruct (i2s_match _ _ _); [by apply i2s_apply_wp|]. wp_simple.
    by apply quiet_refl. }
  wp_call (Htry a' (fun v => v)); [done|]. intros ok s1 Q1. destruct ok; [by wp_simple|].
  wp_call (Htry b' (fun v => shr64 (SWAP64 v) (64 - sz' * 8))); [apply Q1|].
  intros ok s2 Q2. assert (quiet s s2) as Q by (by eapply quiet_trans).
  destruct ok; [by wp_simple|].
  eapply wp_mono; [apply IH; [done|apply Q]|]. intros r s' Q3. eapply quiet_trans; [exact Q|exact Q3].
Qed.

End one_constraint.

Lemma i2s_loop_wp : forall m k u s, (k + m <= sz)%nat -> inv s -> evaluated s ->
  wp (i2s_loop t k m u) (fun _ s' => quiet s s') s.
Proof.
  induction m as [|m IH]; intros k u s Hk Hs He; cbn [i2s_loop].
  { wp_simple. by apply quiet_refl. }
  assert (wp (i2s_constraint t k) (fun _ s' => quiet s s') s) as Hcons.
  { destruct (meta_at k ltac:(lia)) as (c & cm & Hc & Hm & Hr). unfold i2s_constraint.
    wp_lift (f_equal (at_ (A := _)) Hc). wp_lift (f_equal (at_ (A := _)) Hm). wp_simple.
    destruct (lookup_lt_is_Some_2 (min_distances s) k) as [d Hd]; [rewrite (iv_min _ Hs); lia|].
    wp_lift (f_equal (idx (A := _)) Hd). destruct (d =? 0); [wp_simple; by apply quiet_refl|].
    rewrite (cr_kind _ _ Hr). wp_simple.
    destruct (proj1 (elem_of_dom (operands s) k) (He k ltac:(lia))) as [ops Hops].
    wp_lift (f_equal (idx (A := _)) Hops). wp_simple. by apply i2s_candidate_loop_wp. }
  wp_call Hcons. intros u' s1 Q1.
  eapply wp_mono; [apply IH; [lia|apply Q1|eapply later_evaluated; [apply Q1|done]]|].
  intros r s' Q2. eapply quiet_trans; [exact Q1|exact Q2].
Qed.

Lemma quiet_best s s' : quiet s s' -> best_ok s -> best_ok s'.
Proof. intros (_ & I & M & R). unfold best_ok. by rewrite I, M, R. Qed.

Lemma try_i2s_wp f0 s : inv s -> best_ok s -> evaluated s ->
  wp (try_i2s t f0) (fun _ s' => later s s' /\ best_ok s' /\ evaluated s') s.
Proof.
  intros Hs Hb He. unfold try_i2s. wp_call (reject_wp s Hs). intros _ s1 [L1 E1].
  assert (evaluated s1) as He1 by (by eapply later_evaluated).
  wp_call (i2s_loop_wp sz 0 false s1); [done|apply L1|done|]. intros u s2 Q2.
  assert (later s s2) as L2 by (eapply later_trans; [exact L1|apply Q2]).
  assert (best_ok s2) as B2 by (apply (quiet_best _ _ Q2); by rewrite E1).
  assert (evaluated s2) as He2 by (by eapply later_evaluated).
  destruct u; [|by wp_simple].
  wp_call (full_distance_wp s2); [apply L2|]. intros f s3 (L3 & I3 & M3 & Hsd & _ & _ & He3).
  assert (later s s3) as L by (by eapply later_trans).
  destruct (f <? f0).
  - wp_call (accept_wp s3); [apply L|done|]. intros _ s4 (L4 & B4 & _). wp_simple.
    split_and!; [by eapply later_trans|done|by eapply later_evaluated].
  - wp_simple. split_and!; try done.
    destruct B2 as [B|B]; [left; by apply (lt_stopped _ _ L3)|right; by rewrite I3, M3].
Qed.

(** ** The whole search *)

Lemma min_distance_wp s : inv s ->
  wp (min_distance t) (fun _ s' => later s s' /\ best_ok s' /\ evaluated s' /\
    s_attempts s' = s_attempts s + 1) s.
Proof.
  intros Hs. unfold min_distance. do 2 wp_simple.
  wp_call (distance_wp (input s) (min_distances s) s Hs); [apply Hs|apply Hs|].
  intros [f ds] s1 (L1 & (I1 & _) & Hsd & _ & A1 & E1). do 2 wp_simple. split_and!; try done.
  - eapply later_trans; [exact L1|]. pose proof (proj1 Hsd). destruct (lt_inv _ _ L1).
    by split; [split|..].
  - right. simpl. by rewrite I1.
Qed.

Lemma randomize_words d : words (randomize n d).
Proof.
  unfold randomize. split; [by rewrite length_fmap, length_seq|].
  apply Forall_fmap, Forall_true. intros i. simpl.
  pose proof (wrap_bound 8 (rand_byte (d + i)) ltac:(lia)) as H8. unfold is_u in *. lia.
Qed.

Lemma repick_wp s : inv s ->
  wp (repick_start_point t) (fun _ s' => later s s' /\ best_ok s' /\ evaluated s' /\
    s_attempts s' = s_attempts s + 1) s.
Proof.
  intros Hs. unfold repick_start_point. wp_simple. set (s1 := set_draws _ _).
  assert (later s s1) as L1.
  { pose proof (randomize_words (draws s)) as Hw. pose proof (proj1 (iv_input _ Hs)) as Hn.
    destruct Hs. split; [split|..]; simpl; try done. by rewrite Hn. }
  wp_call (min_distance_wp s1); [apply L1|]. intros _ s2 (L2 & H). split; [by eapply later_trans|].
  exact H.
Qed.

Lemma repick_loop_wp : forall fuel g_i f0 s, inv s -> best_ok s -> evaluated s ->
  0 <= g_i -> MAX_NUM_MINIMAL_OPTIMA_ROUND + 2 <= Z.of_nat fuel + g_i -> (0 < fuel)%nat ->
  wp (repick_loop t fuel g_i f0) (fun _ s' => later s s' /\ best_ok s' /\ evaluated s') s.
Proof.
  induction fuel as [|fuel IH]; intros g_i f0 s Hs Hb He Hg Hf H0; [lia|]. cbn [repick_loop].
  wp_simple. destruct (negb _); [wp_simple; by split_and!; [apply later_refl|..]|].
  destruct (Z.ltb_spec MAX_NUM_MINIMAL_OPTIMA_ROUND g_i); [wp_simple; by split_and!; [apply later_refl|..]|].
  wp_simple. destruct (s_stopped s); [wp_simple; by split_and!; [apply later_refl|..]|].
  wp_call (repick_wp s Hs). intros f1 s1 (L1 & B1 & E1 & _).
  wp_call (try_i2s_wp f1 s1); [apply L1|done|done|]. intros f2 s2 (L2 & B2 & E2). wp_simple.
  assert (later s s2) as L12 by (by eapply later_trans).
  destruct (s_stopped s2); [by wp_simple|]. wp_simple. set (s3 := set_grads _ s2).
  assert (later s2 s3) as L3 by (destruct (lt_inv _ _ L2); by split; [split|..]).
  wp_call (cal_gradient_wp f2 s3); [apply L3|done|]. intros _ s4 [L4 B4].
  assert (later s s4) as L by (eapply later_trans; [exact L12|]; by eapply later_trans).
  eapply wp_mono; [apply IH; [apply L|done| |lia|lia|unfold MAX_NUM_MINIMAL_OPTIMA_ROUND in *; lia]|].
  { by eapply (later_evaluated s2), E2; eapply later_trans. }
  intros r s' (L5 & B5 & E5). split_and!; [by eapply later_trans|done|done].
Qed.

Lemma normalize_length g : length (normalize g) = length g.
Proof. unfold normalize. case_match; [by rewrite length_fmap|done]. Qed.

Lemma gd_loop_wp : forall fuel f0 s, inv s -> best_ok s -> evaluated s -> enough fuel s ->
  wp (gd_loop t fuel f0) (fun _ s' => later s s') s.
Proof.
  induction fuel as [|fuel IH]; intros f0 s Hs Hb He Hf; cbn [gd_loop].
  { unfold enough, MAX_EXEC_TIMES in Hf. lia. }
  wp_simple. destruct (s_stopped s) eqn:Erun; [wp_simple; by apply later_refl|].
  wp_call (cal_gradient_wp f0 s Hs Hb). intros _ s1 [L1 B1].
  wp_call (repick_loop_wp 40 0 f0 s1);
    [apply L1|done|by eapply later_evaluated|done|unfold MAX_NUM_MINIMAL_OPTIMA_ROUND; lia|lia|].
  intros [g_i f1] s2 (L2 & B2 & E2). wp_simple.
  assert (later s s2) as L12 by (by eapply later_trans).
  destruct (s_stopped s2) eqn:R2; [simpl; by wp_simple|]. simpl.
  destruct (_ <? g_i); [by wp_simple|]. wp_simple. set (s3 := set_grads _ s2).
  assert (later s2 s3) as L3.
  { destruct (lt_inv _ _ L2). split; [split|..]; simpl; try done; by rewrite normalize_length. }
  wp_call (descend_wp f1 s3); [apply L3|done|]. intros f2 s4 (L4 & B4 & A4). specialize (A4 R2).
  assert (later s s4) as L by (eapply later_trans; [exact L12|]; by eapply later_trans).
  eapply wp_mono; [apply IH; [apply L|done|by eapply later_evaluated|]|].
  - pose proof (lt_attempts _ _ L12). pose proof (iv_running _ Hs Erun). pose proof (iv_attempts _ Hs).
    simpl in A4. unfold enough in *. lia.
  - intros ? s' L5. eapply later_trans; [exact L|exact L5].
Qed.

Lemma reload_wp s : inv s ->
  wp (reload_input t) (fun _ s' => later s s' /\ best_ok s' /\ evaluated s' /\
    s_attempts s' = s_attempts s + 1) s.
Proof.
  intros Hs. unfold reload_input. wp_simple. pose proof (iv_input _ Hs) as [Hlen _].
  apply wp_bind. eapply wp_lift.
  { unfold mi_assign. rewrite Hlen, Nat.leb_refl. done. }
  wp_simple. set (s1 := set_input _ s).
  assert (later s s1) as L1.
  { apply later_input; [done|]. rewrite take_ge by (rewrite length_fmap; lia).
    split; [by rewrite length_fmap|]. apply Forall_fmap, (sb_values Ht). }
  wp_call (min_distance_wp s1); [apply L1|]. intros _ s2 (L2 & H). split; [by eapply later_trans|].
  exact H.
Qed.

Lemma gd_search_wp s : inv s -> s_stopped s = false ->
  wp (gd_search t) (fun b s' => inv s' /\ (b = true -> s_solved s' = true)) s.
Proof.
  intros Hs Hrun. unfold gd_search. wp_simple. set (s0 := set_status _ _ _ s).
  assert (inv s0) as H0 by (by destruct Hs).
  wp_call (reload_wp s0 H0). intros f1 s1 (L1 & B1 & E1 & A1).
  wp_call (try_i2s_wp f1 s1); [apply L1|done|done|]. intros f2 s2 (L2 & B2 & E2). wp_simple.
  destruct (s_stopped s2); [wp_simple; split; [apply L2|done]|].
  destruct (f2 =? UINTMAX_MAX); [wp_simple; split; [apply L2|done]|]. wp_simple.
  set (s3 := set_grads _ s2).
  assert (inv s3) as H3.
  { pose proof (proj1 (iv_input _ (lt_inv _ _ L2))) as Hlen. destruct (lt_inv _ _ L2).
    split; simpl; try done. unfold new_grad. rewrite length_replicate, Hlen. done. }
  wp_call (gd_loop_wp 2000 f2 s3 H3); [done|done|by apply enough_start; [|unfold MAX_EXEC_TIMES; lia]|].
  intros _ s4 L4. wp_simple. split; [apply L4|done].
Qed.

End gd_spec.

(** ** The theorems *)

Section gd_theorems.
Context {U : Unspecified} {MC : MachineCode} (t : SearchTask) {CF : CompiledFor t}.
Context (scratch0 dist min_dist plus_dist minus_dist : list Z) (seed : nat).

(** The task is ready to be searched, with arrays of the right sizes. *)
Definition startable : Prop :=
  searchable t (length scratch0) /\ length dist = length (constraints_ t) /\
  length min_dist = length (constraints_ t) /\ stopped t = false /\ solved t = false.

Local Abbreviation run := (gd_entry t scratch0 dist min_dist plus_dist minus_dist seed).

Lemma gd_entry_run : startable -> exists b t', run = (Ok b, t') /\
  (b = true -> exists v, words t v /\ satisfies t v /\ results t v (solution t')).
Proof.
  intros (Hs & Hd & Hm & Hst & Hso). unfold gd_entry.
  set (s0 := mk_search _ _ _ _ _ _ _ _ _ _ _ _ _ _).
  assert (words t (replicate (length (inputs_ t)) 0)) as Hw.
  { split; [apply length_replicate|by apply Forall_replicate]. }
  assert (inv t (length scratch0) (set_status (stopped t) 0 (solved t) s0)) as Hinv.
  { split; simpl; try done; [lia|]. intros E. simpl in E. congruence. }
  assert (gd_search t s0 = gd_search t (set_status (stopped t) 0 (solved t) s0)) as -> by done.
  destruct (wp_ok _ _ _ (gd_search_wp t (length scratch0) Hs _ Hinv Hst)) as (b & s' & -> & Hi & Hb).
  eexists _, _. split; [done|]. intros E. simpl.
  destruct (iv_solved _ _ _ Hi (Hb E)) as (_ & v & Hv). by exists v.
Qed.

(** C18: the search ends. On a finalized task of comparisons [gd_entry] returns,
    whatever the compiled functions compute and whatever random numbers are
    drawn: no index is out of range, no lookup throws, and the loops, which are
    bounded only through the number of attempts, stop. *)
Theorem gd_entry_returns : startable -> exists b t', run = (Ok b, t').
Proof. intros H. destruct (gd_entry_run H) as (b & t' & E & _). by exists b, t'. Qed.

(** C19: the search is sound. When [gd_entry] returns true there are values for
    the input bytes on which the distance of every constraint is zero, and the
    solution is what [add_results] makes of these values. *)
Theorem gd_entry_sound t' : startable -> run = (Ok true, t') ->
  exists v, words t v /\ satisfies t v /\ results t v (solution t').
Proof.
  intros H E. destruct (gd_entry_run H) as (b & t1 & E' & Hv). rewrite E in E'.
  injection E' as <- <-. by apply Hv.
Qed.

End gd_theorems.
