(* ===== verification/SolveSpec.v ===== *)
(** * From a solved search to an input that takes the branch

    The bytes of a solution, the tasks that [finalize] prepares, and the theorem
    that joins the parser, the compiler and the search. *)

From Stdlib Require Import Sorted.
From stdpp Require Import list_numbers.
From S2P Require Import Prelude Dfsan Runtime LabelSem Ast Task TaskSpec Parser ScanSpec ConsSpec UtaSpec Jit JitSpec Gd GdSpec.
Local Open Scope prog_scope.

(** ** The bytes of a word *)

(** Byte [q] of [r]. *)
Definition byte_of (r : Z) (q : nat) : Z := Z.shiftr r (8 * Z.of_nat q) mod 256.

Lemma u8_land_ff x : u8 (Z.land x 0xff) = x mod 256.
Proof.
  change 0xff with (Z.ones 8). rewrite Z.land_ones by lia. change (2 ^ 8) with 256.
  unfold wrap. change (2 ^ 8) with 256. by rewrite Zmod_mod.
Qed.

Lemma split_bytes_lookup start r : forall m j sol, 0 <= start ->
  start + Z.of_nat (j + m) <= 2 ^ 32 -> forall x,
  split_bytes start r j m sol !! x =
    if (start + Z.of_nat j <=? x) && (x <? start + Z.of_nat (j + m))
    then Some (byte_of r (Z.to_nat (x - start))) else sol !! x.
Proof.
  induction m as [|m IH]; intros j sol H0 Hm x; simpl.
  { rewrite Nat.add_0_r. destruct (Z.leb_spec (start + Z.of_nat j) x),
      (Z.ltb_spec x (start + Z.of_nat j)); simpl; done || lia. }
  rewrite IH by lia. rewrite (wrap_small 32), u8_land_ff by (unfold is_u; lia).
  destruct (decide (x = start + Z.of_nat j)) as [->|Hx].
  - rewrite (proj2 (Z.leb_gt (start + Z.of_nat (S j)) _)) by lia. simpl.
    rewrite lookup_insert_eq, (proj2 (Z.leb_le _ _)), (proj2 (Z.ltb_lt _ _)) by lia. simpl.
    unfold byte_of. do 4 f_equal. lia.
  - rewrite lookup_insert_ne by done. replace (S j + m)%nat with (j + S m)%nat by lia.
    destruct (Z.leb_spec (start + Z.of_nat (S j)) x), (Z.leb_spec (start + Z.of_nat j) x); simpl;
      done || lia.
Qed.

(** The bytes of [r] as a little-endian number. *)
Lemma le_bytes_of r env o : 0 <= r -> forall m,
  (forall q, (q < m)%nat -> env (o + Z.of_nat q) mod 256 = byte_of r q) ->
  le_bytes env o m = wrap (8 * Z.of_nat m) r.
Proof.
  intros Hr m. revert r o Hr. induction m as [|m IH]; intros r o Hr Henv; simpl le_bytes.
  { unfold wrap. change (2 ^ (8 * Z.of_nat 0)) with 1. by rewrite Z.mod_1_r. }
  assert (env o mod 256 = r mod 256) as E0.
  { specialize (Henv 0%nat ltac:(lia)). rewrite Z.add_0_r in Henv. rewrite Henv. unfold byte_of.
    change (8 * Z.of_nat 0) with 0. by rewrite Z.shiftr_0_r. }
  rewrite (IH (r / 256)); [|apply Z.div_pos; lia|].
  - rewrite E0. unfold wrap. replace (8 * Z.of_nat (S m)) with (8 + 8 * Z.of_nat m) by lia.
    rewrite Z.pow_add_r by lia. change (2 ^ 8) with 256.
    rewrite Z.rem_mul_r by (try apply Z.pow_nonzero; lia). lia.
  - intros q Hq. replace (o + 1 + Z.of_nat q) with (o + Z.of_nat (S q)) by lia.
    rewrite Henv by lia. unfold byte_of. f_equal. rewrite !Z.shiftr_div_pow2 by lia.
    replace (8 * Z.of_nat (S q)) with (8 + 8 * Z.of_nat q) by lia.
    rewrite Z.pow_add_r by lia. change (2 ^ 8) with 256. by rewrite Z.div_div by lia.
Qed.

(** The sum of the entries [i + j] to [i + j + m - 1] as bytes [j] on. *)
Fixpoint bytes_sum (o : list (Z * Z)) (i j m : nat) : Z :=
  match m with
  | O => 0
  | S m' => snd (o !!! (i + j)%nat) * 2 ^ (8 * Z.of_nat j) + bytes_sum o i (S j) m'
  end.

Lemma join_bytes_sum o i : forall m j r, (i + j + m <= length o)%nat ->
  join_bytes o i j m (u64 r) = Ok (u64 (r + bytes_sum o i j m)).
Proof.
  induction m as [|m IH]; intros j r Hlen; simpl; [by rewrite Z.add_0_r|].
  destruct (lookup_lt_is_Some_2 o (i + j)) as [x Hx]; [lia|]. rewrite Hx. simpl.
  rewrite (list_lookup_total_correct _ _ _ Hx).
  assert (u64 (u64 r + u64 (Z.shiftl (snd x) (8 * Z.of_nat j))) =
    u64 (r + snd x * 2 ^ (8 * Z.of_nat j))) as ->.
  { rewrite Z.shiftl_mul_pow2 by lia. unfold wrap. by rewrite <- Zplus_mod. }
  rewrite IH by lia. do 2 f_equal. lia.
Qed.

(** ** What [add_results] writes *)

Section results.
Context (t : SearchTask) (N : nat) (Ht : searchable t N).

(** Words have at most eight bytes and do not overlap. *)
Definition words_apart : Prop := forall start len, start ∈ fst <$> inputs_ t ->
  shapes_ t !! start = Some len -> 0 < len ->
  len <= 8 /\ start + len <= 2 ^ 32 /\ 0 <= start /\
  forall x, start < x < start + len -> shapes_ t !! x = Some 0.

Context (Hsh : words_apart).

Lemma sorted_keys v o i j a x b y : ordered t v o -> (i < j)%nat -> o !! i = Some (a, x) ->
  o !! j = Some (b, y) -> a < b.
Proof.
  intros (Hs & _) Hij Hi Hj. apply (sorted_lookup (keys o) Hs i j); [| |done];
    unfold keys; by rewrite list_lookup_fmap, ?Hi, ?Hj.
Qed.

(** The entry at position [i]: its word is written, what lies below is kept. *)
Lemma add_loop_words v o : ordered t v o -> Forall (fun p => is_u 64 (snd p)) o ->
  forall fuel i sol sol',
  add_loop t fuel o i sol = Ok sol' ->
  (forall x, (forall start y, o !! i = Some (start, y) -> x < start) -> sol' !! x = sol !! x) /\
  forall i' start y len q, (i <= i')%nat -> o !! i' = Some (start, y) ->
    shapes_ t !! start = Some len -> (q < Z.to_nat len)%nat ->
    sol' !! (start + Z.of_nat q) =
      Some (byte_of (u64 (bytes_sum o i' 0 (Z.to_nat len))) q).
Proof.
  intros Ho Hu. assert (forall i start y, o !! i = Some (start, y) -> start ∈ fst <$> inputs_ t) as Hin.
  { intros i start y Hi. apply (proj1 (proj2 Ho)). unfold keys. apply list_elem_of_fmap.
    exists (start, y). split; [done|]. by eapply list_elem_of_lookup_2. }
  induction fuel as [|fuel IH]; intros i sol sol' E; simpl in E.
  { destruct (o !! i) as [[start y]|] eqn:Hi; [done|]. injection E as <-. split; [done|].
    intros i' start y len q Hle Hi'. apply lookup_ge_None in Hi. apply lookup_lt_Some in Hi'. lia. }
  destruct (o !! i) as [[start y]|] eqn:Hi.
  2:{ injection E as <-. split; [done|].
      intros i' start y len q Hle Hi'. apply lookup_ge_None in Hi. apply lookup_lt_Some in Hi'. lia. }
  destruct (word_at t N Ht v o i start y Ho Hi) as (len & Hlen & H0 & Hw).
  unfold task_shapes in E. rewrite Hlen in E. destruct (Z.eqb_spec len 0) as [Hz|Hne].
  - destruct (IH (S i) sol sol' E) as [Hbelow Hwords]. split.
    + intros x Hx. apply Hbelow. intros b z Hb. specialize (Hx start y eq_refl).
      pose proof (sorted_keys v o i (S i) _ _ _ _ Ho ltac:(lia) Hi Hb). lia.
    + intros i' a z len' q Hle Hi' Hl Hq. destruct (decide (i' = i)) as [->|].
      * rewrite Hi in Hi'. injection Hi' as -> ->. rewrite Hlen in Hl. injection Hl as <-. lia.
      * apply (Hwords i' a z len' q); [lia|done..].
  - destruct (Hsh start len (Hin _ _ _ Hi) Hlen ltac:(lia)) as (H8 & H32 & Hst & Hzero).
    rewrite (proj2 (Z.leb_le len 8)) in E by lia. set (m := Z.to_nat len) in *.
    assert (forall j, (j < m)%nat -> exists z, o !! (i + j)%nat = Some (start + Z.of_nat j, z)) as Hat.
    { intros j Hj. specialize (Hw j Hj). unfold keys in Hw. rewrite list_lookup_fmap in Hw.
      destruct (o !! (i + j)%nat) as [[a z]|]; [|done]. injection Hw as ->. by exists z. }
    assert (i + m <= length o)%nat as Hle.
    { destruct (Hat (m - 1)%nat ltac:(lia)) as [z Hz]. apply lookup_lt_Some in Hz. lia. }
    destruct (join_bytes o i 1 (m - 1) y) as [r|] eqn:Ej; [|done].
    destruct (IH (i + m)%nat _ sol' E) as [Hbelow Hwords].
    assert (forall x, x < start + len -> sol' !! x = split_bytes start r 0 m sol !! x) as Hkeep.
    { intros x Hx. apply Hbelow. intros b z Hb. destruct (Hat (m - 1)%nat ltac:(lia)) as [z' Hz].
      pose proof (sorted_keys v o (i + (m - 1)) (i + m) _ _ _ _ Ho ltac:(lia) Hz Hb). lia. }
    split.
    + intros x Hx. specialize (Hx start y eq_refl). rewrite Hkeep, split_bytes_lookup by lia.
      by rewrite (proj2 (Z.leb_gt (start + Z.of_nat 0) x)) by lia.
    + intros i' a z len' q Hge Hi' Hl Hq. destruct (decide (i' < i + m)%nat) as [Hlt|].
      * destruct (Hat (i' - i)%nat ltac:(lia)) as [z' Hz]. replace (i + (i' - i))%nat with i' in Hz by lia.
        rewrite Hi' in Hz. injection Hz as -> ->. destruct (decide (i' = i)) as [->|Hne'].
        -- rewrite Nat.sub_diag, Z.add_0_r in *. rewrite Hlen in Hl. injection Hl as <-. fold m in Hq |- *.
           rewrite Hkeep, split_bytes_lookup by lia.
           rewrite (proj2 (Z.leb_le _ _)), (proj2 (Z.ltb_lt _ _)) by lia. simpl. f_equal.
           replace (Z.to_nat (start + Z.of_nat q - start)) with q by lia. f_equal.
           destruct m as [|m']; [lia|]. simpl in Ej |- *. rewrite Nat.sub_0_r in Ej.
           rewrite Nat.add_0_r, (list_lookup_total_correct _ _ _ Hi). simpl snd.
           change (2 ^ (8 * Z.of_nat 0)) with 1. rewrite Z.mul_1_r.
           pose proof (Forall_lookup_1 _ _ _ _ Hu Hi) as Hy. simpl in Hy.
           rewrite <- (wrap_small 64 y Hy), join_bytes_sum in Ej by lia.
           by injection Ej as <-.
        -- rewrite Hzero in Hl by lia. injection Hl as <-. simpl in Hq. lia.
      * apply (Hwords i' a z len' q); [lia|done..].
Qed.

(** A word of the input, and its bytes in the solution. *)
Lemma results_word v sol start len : words t v -> results t v sol ->
  start ∈ fst <$> inputs_ t -> shapes_ t !! start = Some len -> 0 < len ->
  exists r, 0 <= r /\
    (forall q, (q < Z.to_nat len)%nat -> sol !! (start + Z.of_nat q) = Some (byte_of r q)) /\
    forall m b, (forall q g, (q < Z.to_nat len)%nat ->
        (fst <$> inputs_ t) !! g = Some (start + Z.of_nat q) -> m (b + Z.of_nat q) = v !!! g) ->
      wrap (8 * len) (arg_sum m b (Z.to_nat len)) = wrap (8 * len) r.
Proof.
  intros Hv (o & sol0 & Eo & Es) Hin Hlen Hpos.
  destruct (ordered_values t N Ht v o Hv Eo) as [Ho Hu].
  destruct (Hsh start len Hin Hlen Hpos) as (H8 & H32 & Hst & _).
  destruct (proj1 (list_elem_of_lookup _ _) (proj2 (proj1 (proj2 Ho) start) Hin)) as [i Hi].
  unfold keys, smap in *. rewrite list_lookup_fmap in Hi.
  destruct (o !! i) as [[a y]|] eqn:Hoi; [|done]. injection Hi as ->.
  destruct (word_at t N Ht v o i start y Ho Hoi) as (len' & Hlen' & _ & Hw).
  rewrite Hlen in Hlen'. injection Hlen' as <-. set (m := Z.to_nat len) in *.
  destruct (add_loop_words v o Ho Hu _ _ _ _ Es) as [_ Hwords].
  exists (u64 (bytes_sum o i 0 m)). split_and!.
  - apply wrap_bound. lia.
  - intros q Hq. by apply (Hwords i start y len q ltac:(lia) Hoi Hlen).
  - intros f b Hf. rewrite wrap_wrap_le by lia. f_equal.
    assert (forall k j, (j + k <= m)%nat -> arg_sum f b (j + k) =
      arg_sum f b j + bytes_sum o i j k) as Hsum.
    { induction k as [|k IH]; intros j Hj; [rewrite Nat.add_0_r; simpl; lia|].
      rewrite Nat.add_succ_r, <- Nat.add_succ_l, IH by lia. simpl.
      specialize (Hw j ltac:(lia)). unfold keys in Hw. rewrite list_lookup_fmap in Hw.
      destruct (o !! (i + j)%nat) as [[a x]|] eqn:Hx; [|done]. injection Hw as ->.
      rewrite (list_lookup_total_correct _ _ _ Hx). simpl.
      assert (f (b + Z.of_nat j) = x) as ->; [|lia].
      assert (start + Z.of_nat j ∈ fst <$> inputs_ t) as [g Hg]%list_elem_of_lookup.
      { apply (proj1 (proj2 Ho)). apply list_elem_of_fmap. exists (start + Z.of_nat j, x).
        split; [done|]. by eapply list_elem_of_lookup_2. }
      rewrite (Hf j g ltac:(lia) Hg). destruct (lookup_lt_is_Some_2 v g) as [x' Hx'].
      { rewrite (proj1 Hv). apply lookup_lt_Some in Hg. by rewrite length_fmap in Hg. }
      rewrite (list_lookup_total_correct _ _ _ Hx').
      pose proof (proj2 (proj2 Ho) g _ _ Hg Hx') as Hel.
      apply list_elem_of_lookup in Hel as [j' Hj'].
      destruct (decide (j' = i + j)%nat) as [->|Hne]; [rewrite Hx in Hj'; by injection Hj'|].
      destruct (decide (j' < i + j)%nat).
      - pose proof (sorted_keys v o j' (i + j) _ _ _ _ Ho ltac:(lia) Hj' Hx). lia.
      - pose proof (sorted_keys v o (i + j) j' _ _ _ _ Ho ltac:(lia) Hx Hj'). lia. }
    specialize (Hsum m 0%nat ltac:(lia)). simpl in Hsum. done.
Qed.

End results.

(** ** Finalized tasks can be searched *)

Lemma readers_elem cs off : forall i k, k ∈ readers i cs off <->
  exists j c kd, k = (i + j)%nat /\ cs !! j = Some (c, kd) /\ recorded kd = true /\
    off ∈ keys (local_map c).
Proof.
  induction cs as [|[c kd] cs IH]; intros i k; simpl.
  { split; [intros H; by apply elem_of_nil in H|]. intros (j & c & kd & _ & H & _).
    by rewrite lookup_nil in H. }
  rewrite elem_of_app, IH. split.
  - intros [H|(j & c' & kd' & -> & Hj & Hr & Ho)].
    + destruct (recorded kd && bool_decide (off ∈ keys (local_map c))) eqn:E;
        [|by apply elem_of_nil in H]. apply list_elem_of_singleton in H as ->.
      apply andb_true_iff in E as [Hr Ho%bool_decide_eq_true].
      exists 0%nat, c, kd. split_and!; [lia|done..].
    + exists (S j), c', kd'. split_and!; [lia|done..].
  - intros (j & c' & kd' & -> & Hj & Hr & Ho). destruct j as [|j]; simpl in Hj.
    + injection Hj as -> ->. left. rewrite Hr, bool_decide_eq_true_2 by done. simpl.
      rewrite Nat.add_0_r. by left.
    + right. exists j, c', kd'. split_and!; [lia|done..].
Qed.

Lemma relational_recorded k : rgd.isRelationalKind k = true -> recorded k = true.
Proof. by destruct k. Qed.

Lemma expand_elem cands o s x : (o, s) ∈ cands -> o <= x < o + s -> x ∈ expand cands.
Proof.
  intros Hin Hx. unfold expand. apply list_elem_of_bind. exists (o, s). split; [|done].
  by apply elem_of_seqZ.
Qed.

Lemma sm_find_keys x (m : smap Z) : is_Some (sm_find x m) <-> x ∈ keys m.
Proof.
  induction m as [|[k v] m IH]; simpl.
  - split; [by intros [? ?]|intros H; by apply elem_of_nil in H].
  - rewrite elem_of_cons. destruct (Z.eqb_spec x k) as [->|].
    + split; [by left|by eauto].
    + rewrite IH. split; [by right|]. by intros [?|?].
Qed.

Lemma sm_find_in x v (m : smap Z) : StronglySorted Z.lt (keys m) -> (x, v) ∈ m ->
  sm_find x m = Some v.
Proof.
  induction m as [|[k w] m IH]; simpl; intros Hs Hin; [by apply elem_of_nil in Hin|].
  inversion Hs as [|? ? Hs' Hf]; subst. apply elem_of_cons in Hin as [[= -> ->]|Hin].
  - by rewrite Z.eqb_refl.
  - destruct (Z.eqb_spec x k) as [->|]; [|auto]. rewrite Forall_forall in Hf.
    specialize (Hf k). assert (k < k); [|lia]. apply Hf, list_elem_of_fmap. by exists (k, v).
Qed.

Section finalized.
Context (buf : list Z) (R : list (Z * Z)) (t0 t : SearchTask).

(** The reads of the constraints: apart, and of at most eight bytes. *)
Definition reads_ok : Prop := no_overlap R /\
  forall o len, (o, len) ∈ R -> 0 <= o /\ 1 <= len <= 8 /\ o + len <= 2 ^ 32.

Context (HR : reads_ok) (Hbuf : Forall (is_u 8) buf).
Context (Hcons : Forall (fun c => args_inv buf c /\ blocks R c) (constraints_ t0)).
Context (Hkinds : Forall (fun k => rgd.isRelationalKind k = true) (comparisons_ t0)).
Context (Hlens : length (constraints_ t0) = length (comparisons_ t0)).
Context (Hfin : finalized t0 t).

Lemma cons_inv c : c ∈ constraints_ t0 -> args_inv buf c /\ blocks R c.
Proof. intros Hc. rewrite Forall_forall in Hcons. by apply Hcons. Qed.

(** The arguments of a constraint: slots of its bytes, and its constants. *)
Record meta_args (c : Constraint) (cm : ConsMeta) : Prop := {
  ma_kind : rgd.isRelationalKind (comparison cm) = true;
  ma_nargs : length (m_input_args cm) = length (input_args c);
  ma_byte : forall off lidx, (off, lidx) ∈ local_map c -> 0 <= lidx /\
    exists g v, m_input_args cm !! Z.to_nat lidx = Some (true, Z.of_nat g) /\
      inputs_ t !! g = Some (off, v);
  ma_arg : forall j arg, m_input_args cm !! j = Some arg ->
    (exists off g v x, off ∈ keys (local_map c) /\ arg = (true, Z.of_nat g) /\
       inputs_ t !! g = Some (off, v) /\ input_args c !! j = Some (true, x)) \/
    (fst arg = false /\ input_args c !! j = Some arg /\ is_u 64 (snd arg))
}.

Lemma meta_at_args k c cm : constraints_ t0 !! k = Some c -> consmetas_ t !! k = Some cm ->
  meta_args c cm /\ comparisons_ t0 !! k = Some (comparison cm).
Proof.
  intros Hc Hm. destruct (cons_inv c) as [Hinv _]; [by eapply list_elem_of_lookup_2|].
  destruct (lookup_lt_is_Some_2 (comparisons_ t0) k) as [kd Hk].
  { rewrite <- Hlens. by eapply lookup_lt_Some. }
  destruct (fz_args _ _ Hfin k c kd Hc Hk) as (cm' & Hm' & Hcmp & Hlen & Hbytes & Hother).
  rewrite Hm in Hm'. injection Hm' as <-.
  assert (forall off lidx, (off, lidx) ∈ local_map c -> 0 <= lidx /\
    input_args c !! Z.to_nat lidx = Some (true, 0)) as Hsym.
  { intros off lidx Hin. apply (ai_sym _ _ Hinv off). apply sm_find_in; [|done]. apply Hinv. }
  assert (forall off lidx, (off, lidx) ∈ local_map c -> 0 <= lidx /\
    exists g v, m_input_args cm !! Z.to_nat lidx = Some (true, Z.of_nat g) /\
      inputs_ t !! g = Some (off, v)) as Hb.
  { intros off lidx Hin. destruct (Hsym off lidx Hin) as [H0 Ha]. split; [done|].
    destruct (Hbytes off lidx Hin) as (b & x & g & v & Hx & Hg & Hv). rewrite Ha in Hx.
    injection Hx as <- <-. by exists g, v. }
  split; [|by rewrite Hcmp]. split; try done.
  - rewrite Hcmp. rewrite Forall_forall in Hkinds. apply Hkinds. by eapply list_elem_of_lookup_2.
  - intros j arg Hj. destruct (lookup_lt_is_Some_2 (input_args c) j) as [[sym x] Hx].
    { rewrite <- Hlen. by eapply lookup_lt_Some. }
    destruct sym.
    + left. destruct (ai_cover _ _ Hinv j x Hx) as [off Ho]. apply sm_find_elem in Ho.
      destruct (Hb off _ Ho) as (_ & g & v & Hg & Hv). rewrite Nat2Z.id, Hj in Hg.
      injection Hg as ->. exists off, g, v, x. split_and!; [|done..].
      apply list_elem_of_fmap. by exists (off, Z.of_nat j).
    + right. rewrite Hother in Hj.
      * rewrite Hx in Hj. injection Hj as <-. split_and!; try done.
        by apply (Forall_lookup_1 _ _ _ _ (ai_words _ _ Hinv) Hx).
      * intros [off lidx] He Heq. simpl in Heq. destruct (Hsym off lidx He) as [_ Ha]. congruence.
Qed.

Lemma offset_known off : off ∈ fst <$> inputs_ t -> exists o len, (o, len) ∈ R /\ o <= off < o + len /\
  (forall x, o <= x < o + len -> x ∈ fst <$> inputs_ t) /\
  shapes_ t !! off = Some (read_shape o len off).
Proof.
  intros Hoff. apply list_elem_of_fmap in Hoff as ([off' v] & -> & Hin). simpl.
  destruct (fz_data _ _ Hfin off' v Hin) as (c & sh & Hc & Hk & _ & Hsh & Hsh').
  destruct (cons_inv c Hc) as [_ [Hranges Hcover]].
  destruct (Hcover off') as (o & len & Hol & Hx); [by apply sm_find_keys|].
  exists o, len. destruct (Hranges o len Hol) as [Hnone|[(b & _ & Hb) Hshapes]].
  { apply sm_find_keys in Hk as [? Hs]. rewrite Hnone in Hs by done. done. }
  split_and!; try done; try lia.
  - intros x Hx'. apply (fz_inputs _ _ Hfin). exists c. split; [done|].
    apply sm_find_keys. rewrite Hb by done. by eauto.
  - rewrite Hsh', <- Hsh. by apply Hshapes.
Qed.

Lemma inputs_count c : c ∈ constraints_ t0 -> (length (local_map c) <= length (inputs_ t))%nat.
Proof.
  intros Hc. destruct (cons_inv c Hc) as [Hinv _].
  replace (length (local_map c)) with (length (keys (local_map c))) by apply length_fmap.
  replace (length (inputs_ t)) with (length (fst <$> inputs_ t)) by apply length_fmap.
  apply submseteq_length, NoDup_submseteq.
  - destruct Hinv as [[[Hs _] _ _] _ _ _ _ _ _]. clear -Hs.
    induction Hs as [|x l Hs IH Hf]; [constructor|]. apply NoDup_cons. split; [|done].
    intros Hin. rewrite Forall_forall in Hf. apply Hf in Hin. lia.
  - intros x Hx. apply (fz_inputs _ _ Hfin). by exists c.
Qed.

Lemma finalized_cons k c cm N : scratch_args t = Some N ->
  constraints_ t0 !! k = Some c -> consmetas_ t !! k = Some cm -> cons_ready t N c cm.
Proof.
  intros HN Hc Hm. assert (c ∈ constraints_ t0) as Hin by (by eapply list_elem_of_lookup_2).
  destruct (cons_inv c Hin) as [Hinv _].
  destruct (meta_at_args k c cm Hc Hm) as [[Hk Hn Hb Ha] _]. split; try done.
  - destruct (fz_scratch _ _ Hfin) as (N' & HN' & Hroom). rewrite HN in HN'. injection HN' as <-.
    rewrite Forall_forall in Hroom. specialize (Hroom c Hin). pose proof (inputs_count c Hin).
    pose proof (ai_count _ _ Hinv). lia.
  - apply Forall_lookup. intros j arg Hj. unfold arg_ok.
    destruct (Ha j arg Hj) as [(off & g & v & x & _ & -> & Hg & _)|(-> & _ & Hu)]; [|done].
    simpl. apply lookup_lt_Some in Hg. lia.
  - intros o lidx Ho. destruct (Hb o lidx Ho) as (H0 & g & v & Hg & _). split; [done|]. by eauto.
  - intros o s x Ho Hx. pose proof (fz_runs _ _ Hfin k c cm Hc Hm) as Hruns. case_decide as E.
    + rewrite Hruns in Ho. apply list_elem_of_singleton in Ho as [= -> ->]. lia.
    + destruct Hruns as [Hexp _]. apply sm_find_keys. rewrite <- Hexp. by eapply expand_elem.
Qed.

Lemma finalized_searchable N : scratch_args t = Some N -> searchable t N.
Proof.
  intros HN. destruct (fz_kept _ _ Hfin) as (Kc & Kk & Km & _ & _). split.
  - by rewrite Kc.
  - intros k c cm Hc Hm. rewrite Kc in Hc. by eapply finalized_cons.
  - apply Forall_forall. intros [off v] Hin. simpl.
    destruct (fz_data _ _ Hfin off v Hin) as (c & sh & Hc & _ & Hv & _).
    destruct (cons_inv c Hc) as [Hinv _]. destruct (ai_inputs _ _ Hinv off v Hv) as [_ Hv'].
    pose proof (Forall_lookup_1 _ _ _ _ Hbuf Hv') as H8. unfold is_u in *. lia.
  - intros i Hi. destruct (lookup_lt_is_Some_2 (inputs_ t) i Hi) as [[off v] Hoff].
    pose proof (fz_cmap _ _ Hfin i off v Hoff) as Hcm. unfold task_cmap in Hcm.
    rewrite (proj2 (Z.leb_gt _ _)) in Hcm by lia.
    destruct (cmap_ t !! Z.of_nat i) as [ks|]; [|done]. injection Hcm as ->.
    eexists. split; [done|]. split.
    + apply Forall_forall. intros k Hk. apply readers_elem in Hk as (j & c & kd & -> & Hj & _).
      apply lookup_lt_Some in Hj. rewrite length_zip_with in Hj. rewrite Kc. simpl. lia.
    + intros k cm Hm Hin. apply readers_elem.
      destruct (lookup_lt_is_Some_2 (constraints_ t0) k) as [c Hc].
      { rewrite <- Km. by eapply lookup_lt_Some. }
      destruct (meta_at_args k c cm Hc Hm) as [[Hrel _ _ Ha] Hk].
      apply list_elem_of_lookup in Hin as [j Hj].
      destruct (Ha j _ Hj) as [(off' & g & v' & x & Hkey & E & Hg & _)|(? & _)]; [|done].
      injection E as E. apply Nat2Z.inj in E. subst g. rewrite Hoff in Hg. injection Hg as <- <-.
      exists k, c, (comparison cm). split_and!; try done; [|by apply relational_recorded].
      by rewrite lookup_zip_with, Hc, Hk.
  - split; [apply (fz_nodup _ _ Hfin)|]. apply Forall_forall. intros off Hoff.
    apply (fz_inputs _ _ Hfin) in Hoff as (c & Hc & Hk).
    destruct (cons_inv c Hc) as [[[_ Hent _] _ _ _ _ _ _] _].
    apply list_elem_of_fmap in Hk as (e & -> & He). rewrite Forall_forall in Hent.
    destruct (Hent e He) as (Hr & _). unfold is_u. lia.
  - intros o Ho. destruct (offset_known o Ho) as (o' & len & Hin & Hx & Hall & Hsh).
    exists (read_shape o' len o). split; [done|]. destruct (proj2 HR o' len Hin) as (_ & Hlen & _).
    unfold read_shape. destruct (Z.eqb_spec o o') as [->|]; [|split; [done|lia]].
    split; [lia|]. exact Hall.
Qed.

Lemma finalized_apart : words_apart t.
Proof.
  intros start len Hin Hlen Hpos. destruct (offset_known start Hin) as (o & n & HRn & Hx & Hall & Hsh).
  rewrite Hlen in Hsh. injection Hsh as ->. unfold read_shape in *.
  destruct (Z.eqb_spec start o) as [->|]; [|lia].
  destruct (proj2 HR o n HRn) as (H0 & Hn & H32). split_and!; try done; [lia|].
  intros x Hxx. destruct (offset_known x) as (o' & n' & HRn' & Hx' & _ & Hsh'); [apply Hall; lia|].
  rewrite Hsh'. unfold read_shape.
  destruct (proj1 HR o n o' n' HRn HRn') as [[<- <-]|Hdis]; [|lia].
  by rewrite (proj2 (Z.eqb_neq _ _)) by lia.
Qed.

(** ** The solved values as arguments *)

(** The input with the bytes of a solution. *)
Definition patched (sol : gmap Z Z) : input_env :=
  fun o => default (default 0 (buf !! Z.to_nat o)) (sol !! o).

Definition arg_array (v : list Z) (cm : ConsMeta) : Z -> Z :=
  fun j => ([0; 0] ++ arguments v cm) !!! Z.to_nat j.

Lemma arg_array_at v cm j arg : m_input_args cm !! j = Some arg ->
  arg_array v cm (Z.of_nat j + RET_OFFSET) = arg_value v arg.
Proof.
  intros Hj. unfold arg_array, RET_OFFSET. replace (Z.to_nat (Z.of_nat j + 2)) with (2 + j)%nat by lia.
  apply list_lookup_total_correct. simpl. unfold arguments. by rewrite list_lookup_fmap, Hj.
Qed.

Lemma range_shape o len : (o, len) ∈ R -> o ∈ fst <$> inputs_ t -> shapes_ t !! o = Some len.
Proof.
  intros Hin Ho. destruct (offset_known o Ho) as (o' & len' & Hin' & Hx & _ & ->).
  destruct (proj2 HR o len Hin) as (_ & Hlen & _).
  destruct (proj1 HR o len o' len' Hin Hin') as [[<- <-]|Hdis]; [|lia].
  unfold read_shape. by rewrite Z.eqb_refl.
Qed.

Lemma solved_args N k c cm v sol : scratch_args t = Some N ->
  constraints_ t0 !! k = Some c -> consmetas_ t !! k = Some cm -> words t v ->
  results t v sol -> args_for R c (patched sol) (arg_array v cm).
Proof.
  intros HN Hc Hm Hv Hres. destruct (meta_at_args k c cm Hc Hm) as [[_ Hlen Hb Ha] _].
  pose proof (finalized_searchable N HN) as Hsearch. split.
  - intros j. unfold arg_array. rewrite list_lookup_total_alt.
    destruct (([0; 0] ++ arguments v cm) !! Z.to_nat j) as [x|] eqn:Ex; [|done]. simpl.
    destruct (Z.to_nat j) as [|[|i]]; simpl in Ex; [by injection Ex as <-..|].
    unfold arguments in Ex. rewrite list_lookup_fmap in Ex.
    destruct (m_input_args cm !! i) as [arg|] eqn:Harg; [|done]. injection Ex as <-.
    unfold arg_value. destruct (Ha i arg Harg) as [(off & g & y & z & _ & -> & Hg & _)|(-> & _ & Hu)]; [|done].
    simpl. rewrite Nat2Z.id, list_lookup_total_alt.
    destruct (v !! g) as [x|] eqn:Hx; [|done]. by apply (Forall_lookup_1 _ _ _ _ (proj2 Hv) Hx).
  - intros j x Hj. destruct (lookup_lt_is_Some_2 (m_input_args cm) j) as [arg Harg].
    { rewrite Hlen. by eapply lookup_lt_Some. }
    rewrite (arg_array_at v cm j arg Harg).
    destruct (Ha j arg Harg) as [(off & g & y & z & _ & _ & _ & Hz)|(E & Hx & _)]; [congruence|].
    rewrite Hj in Hx. injection Hx as <-. done.
  - intros o len b Hin Hb0 Hblk. destruct (proj2 HR o len Hin) as (H0 & Hl8 & H32).
    assert (forall q, (q < Z.to_nat len)%nat -> exists g y,
      m_input_args cm !! (Z.to_nat b + q)%nat = Some (true, Z.of_nat g) /\
      inputs_ t !! g = Some (o + Z.of_nat q, y)) as Hbyte.
    { intros q Hq. assert (sm_find (o + Z.of_nat q) (local_map c) = Some (b + Z.of_nat q)) as Hf.
      { rewrite Hblk by lia. f_equal. lia. }
      destruct (Hb _ _ (sm_find_elem _ _ _ Hf)) as (_ & g & y & Hg & Hy).
      exists g, y. replace (Z.to_nat (b + Z.of_nat q)) with (Z.to_nat b + q)%nat in Hg by lia. done. }
    assert (o ∈ fst <$> inputs_ t) as Ho.
    { destruct (Hbyte 0%nat ltac:(lia)) as (g & y & _ & Hy). apply list_elem_of_fmap.
      exists (o, y). split; [done|]. rewrite Z.add_0_r in Hy. by eapply list_elem_of_lookup_2. }
    destruct (results_word t N Hsearch finalized_apart v sol o len Hv Hres Ho (range_shape o len Hin Ho)
      ltac:(lia)) as (r & Hr & Hsol & Hsum).
    rewrite Hsum.
    + replace (8 * len) with (8 * Z.of_nat (Z.to_nat len)) by lia. symmetry. apply le_bytes_of; [done|].
      intros q Hq. unfold patched. rewrite Hsol by done. simpl. unfold byte_of. by rewrite Zmod_mod.
    + intros q g Hq Hg. destruct (Hbyte q Hq) as (g' & y & Hm' & Hy).
      assert (g = g') as ->.
      { apply (NoDup_lookup (fst <$> inputs_ t) g g' (o + Z.of_nat q)); [apply Hfin|done|].
        by rewrite list_lookup_fmap, Hy. }
      replace (b + RET_OFFSET + Z.of_nat q) with (Z.of_nat (Z.to_nat b + q) + RET_OFFSET) by lia.
      rewrite (arg_array_at v cm _ _ Hm'). unfold arg_value. simpl. by rewrite Nat2Z.id.
Qed.

End finalized.

(** ** The whole way *)

Section solve.
Context {LLVM : InstructionDef} {IR : LLVMSemantics}.
Context {U : Unspecified} {MC : MachineCode}.

(** The machine code of a constraint computes what its function says. *)
Definition runs_compiled (t : SearchTask) : Prop := forall k c f l m',
  constraints_ t !! k = Some c -> addFunction (ast c) (local_map c) = Ok (Some f) ->
  Forall (is_u 64) l -> run_function f (fun j => l !!! Z.to_nat j) = Some m' ->
  fn k l = (u64 (m' 0), u64 (m' 1)).

(** A comparison whose 64-bit distance means what the operands' width means:
    the function zero-extends the operands, so narrower signed comparisons are
    out. *)
Definition plain_kind (k : rgd.AstKind) (w : Z) : Prop :=
  rgd.isRelationalKind k = true /\ (rgd.isSignedCmp k = false \/ w = 64).

Lemma plain_compare k w a b : plain_kind k w -> rgd.compare k 64 a b = rgd.compare k w a b.
Proof. intros [Hr [Hs| ->]]; [|done]. by destruct k. Qed.

(** Label [l] of [p], parsed into the constraint [c]. *)
Record parsed (p : parser) (buf : list Z) (R : list (Z * Z)) (last l : Z) (c : Constraint) : Prop := {
  pd_cmp : cmp_ok p buf R l;
  pd_last : l <= last;
  pd_nodes : nodes (base_ p) l < 2 ^ 32;
  pd_args : arg_need p l < 2 ^ 30;
  pd_parse : parse_constraint p l = Ok (Some c)
}.

Section scanned.
Context (p0 : parser) (buf : list Z) (R : list (Z * Z)) (last : Z) (p : parser).
Context (Hs : scannable (snd (restart [buf] p0)) last).
Context (Hscan : scan_labels last (snd (restart [buf] p0)) = (Ok true, p)).

Lemma scanned_parser : 0 <= last -> p = scan_state (snd (restart [buf] p0)) (S (Z.to_nat last)).
Proof.
  intros H0. pose proof Hscan as E. rewrite <- (scan_state_0 (snd (restart [buf] p0))) in E by done.
  rewrite scan_labels_run in E by (done || lia). by injection E as <-.
Qed.

Lemma scanned_dag : 0 <= last -> dag (base_ p) last.
Proof. intros H0. rewrite (scanned_parser H0). apply Hs. Qed.

(** The tree of a parsed comparison. *)
Lemma parsed_tree l c : Z.of_nat (length buf) < 2 ^ 30 -> no_overlap R -> parsed p buf R last l c ->
  exists tr f V, repr (ast c) Root tr f /\ tree_for p c ∅ l tr V /\ hashed (local_map c) tr /\
    args_inv buf c /\ Z.of_nat (length (input_args c)) < 2 ^ 30.
Proof.
  intros Hbuf Hno [Hc Hlast Hnodes Hargs Hparse]. pose proof Hc as [[Hr _ _ _ _ _] _ _ _ _].
  pose proof (scanned_parser ltac:(lia)) as Ep. pose proof (nodes_pos p buf l) as Hpos.
  destruct (parse_constraint_run p buf R Hbuf Hno last (scanned_dag ltac:(lia)) l
    (u32 (nodes (base_ p) l)) Hc Hlast)
    as (c' & tr & f & V & E & Hrepr & Hinv & _ & Hlen & Ht & Hh); [| |done|].
  - rewrite Ep. rewrite <- (Z2Nat.id l) at 2 by lia.
    apply (tabulate_lookup (fun k => u32 (nodes (base_ (snd (restart [buf] p0))) (Z.of_nat k)))). lia.
  - rewrite wrap_small; [done|]. unfold is_u. lia.
  - rewrite Hparse in E. injection E as <-. by exists tr, f, V.
Qed.

End scanned.

(** The comparison [k] of the operands of label [l] on the input [env]. *)
Definition holds (p : parser) (env : input_env) (l : Z) (k : rgd.AstKind) : Prop :=
  let i := info_at (base_ p) l in
  rgd.compare k (i_size i) (operand1 (base_ p) (eval (base_ p) env) i)
    (operand2 (base_ p) (eval (base_ p) env) i) = true.

Lemma parsed_run p0 buf R last p l c :
  let p1 := snd (restart [buf] p0) in
  scannable p1 last -> scan_labels last p1 = (Ok true, p) -> Z.of_nat (length buf) < 2 ^ 30 ->
  no_overlap R -> parsed p buf R last l c ->
  exists f, args_inv buf c /\ blocks R c /\ addFunction (ast c) (local_map c) = Ok (Some f) /\
    computes_cmp p R l c f /\ stores_operands (length (input_args c)) f.
Proof.
  intros p1 Hs Hrun Hbuf Hno [Hc Hlast Hnodes Hargs Hparse]. rewrite <- (scan_state_0 p1) in Hrun by done.
  pose proof Hc as [[Hr _ _ _ _ _] _ _ _ _].
  rewrite scan_labels_run in Hrun by (done || lia). injection Hrun as <-.
  pose proof (nodes_pos (scan_state p1 (0 `max` S (Z.to_nat last))) buf l) as Hpos.
  destruct (compile_run (scan_state p1 (S (Z.to_nat last))) buf R last l
    (u32 (nodes (base_ p1) l))) as (c' & f & E & Hinv & Hbl & Ef & Hcmp & Hst); try done.
  - apply Hs.
  - rewrite <- (Z2Nat.id l) at 2 by lia.
    apply (tabulate_lookup (fun k => u32 (nodes (base_ p1) (Z.of_nat k)))). lia.
  - rewrite wrap_small; [done|]. unfold is_u. exact (conj (Z.le_trans _ _ _ Z.le_0_1 Hpos) Hnodes).
  - simpl in Hparse. rewrite Hparse in E. injection E as <-. by exists f.
Qed.

(** From a label to a solved input. Comparisons that the parser turned into
    constraints, with reads that do not overlap, are put into a task, finalized,
    compiled and searched; if the search reports success, the input patched with
    the solution makes every comparison of the task true, provided the operations
    in it are defined on that input. *)
Lemma solve_run p0 buf R last p ls A t0 t N dist min_dist plus_dist minus_dist seed
    (scratch0 : list Z) t' {CF : CompiledFor t} :
  let p1 := snd (restart [buf] p0) in
  scannable p1 last -> scan_labels last p1 = (Ok true, p) ->
  Z.of_nat (length buf) < 2 ^ 30 -> Forall (is_u 8) buf -> reads_ok R ->
  Forall2 (parsed p buf R last) ls (constraints_ t0) ->
  Forall2 (fun l k => plain_kind k (i_size (info_at (base_ p) l))) ls (comparisons_ t0) ->
  ready A t0 -> stopped t0 = false -> solved t0 = false -> finalize t0 = Ok t ->
  runs_compiled t -> scratch_args t = Some N -> length scratch0 = N ->
  length dist = length (constraints_ t) -> length min_dist = length (constraints_ t) ->
  gd_entry t scratch0 dist min_dist plus_dist minus_dist seed = (Ok true, t') ->
  let env := patched buf (solution t') in
  Forall2 (fun l k => defined p env l -> holds p env l k) ls (comparisons_ t0).
Proof.
  intros p1 Hs Hscan Hbuf H8 HR Hls Hks Hready Hst Hso Hfin Hcode HN Hlen Hd Hm Hrun env.
  destruct (finalize_run A t0 Hready) as (t1 & E & Hf). rewrite Hfin in E. injection E as <-.
  destruct (fz_kept _ _ Hf) as (Kc & Kk & Km & Ks & Ko).
  assert (forall i l c, ls !! i = Some l -> constraints_ t0 !! i = Some c ->
    exists f, args_inv buf c /\ blocks R c /\ addFunction (ast c) (local_map c) = Ok (Some f) /\
      computes_cmp p R l c f /\ stores_operands (length (input_args c)) f) as Hparsed.
  { intros i l c Hi Hc. apply (parsed_run p0 buf R last p l c Hs Hscan Hbuf (proj1 HR)).
    by eapply (Forall2_lookup_lr _ _ _ _ _ _ Hls). }
  assert (Forall (fun c => args_inv buf c /\ blocks R c) (constraints_ t0)) as Hcons.
  { apply Forall_lookup. intros i c Hc. destruct (Forall2_lookup_r _ _ _ _ _ Hls Hc) as (l & Hi & _).
    destruct (Hparsed i l c Hi Hc) as (f & ? & ? & _). done. }
  assert (Forall (fun k => rgd.isRelationalKind k = true) (comparisons_ t0)) as Hkinds.
  { apply Forall_lookup. intros i k Hk. destruct (Forall2_lookup_r _ _ _ _ _ Hks Hk) as (l & _ & [? _]).
    done. }
  pose proof (rd_lengths _ _ Hready) as Hlens.
  pose proof (finalized_searchable buf R t0 t HR H8 Hcons Hkinds Hlens Hf N HN) as Hsearch.
  assert (startable t scratch0 dist min_dist) as Hstart.
  { split; [by rewrite Hlen|]. split_and!; [done|done|congruence|congruence]. }
  destruct (gd_entry_run t scratch0 dist min_dist plus_dist minus_dist seed Hstart)
    as (b & t2 & E & Hsound). rewrite Hrun in E. injection E as <- <-.
  destruct (Hsound eq_refl) as (v & Hv & Hsat & Hres).
  apply Forall2_same_length_lookup_2; [rewrite (Forall2_length _ _ _ Hks); done|].
  intros i l k Hl Hk Hdef.
  destruct (Forall2_lookup_l _ _ _ _ _ Hls Hl) as (c & Hc & _).
  destruct (Forall2_lookup_l _ _ _ _ _ Hks Hl) as (k' & Hk' & Hplain).
  rewrite Hk in Hk'. injection Hk' as <-.
  destruct (Hparsed i l c Hl Hc) as (f & _ & _ & Ef & Hcmp & _).
  assert (i < length (constraints_ t))%nat as Hi by (rewrite Kc; by eapply lookup_lt_Some).
  destruct (lookup_lt_is_Some_2 (consmetas_ t) i) as [cm Hcm]; [rewrite Km, <- Kc; done|].
  destruct (meta_at_args buf R t0 t Hcons Hkinds Hlens Hf i c cm Hc Hcm) as [_ Hk2].
  rewrite Hk in Hk2. injection Hk2 as ->.
  pose proof (solved_args buf R t0 t HR H8 Hcons Hkinds Hlens Hf N i c cm v _ HN Hc Hcm Hv Hres) as Hargs.
  destruct (Hcmp env _ Hargs Hdef) as (m' & Hm' & E1 & E2 & U1 & U2 & _).
  assert (fn i ([0; 0] ++ arguments v cm) = (u64 (m' 0), u64 (m' 1))) as Hfn.
  { apply (Hcode i c f); [by rewrite Kc|done| |exact Hm']. apply Forall_lookup. intros j x Hj.
    pose proof (af_words _ _ _ _ Hargs (Z.of_nat j)) as Hu. unfold arg_array in Hu.
    by rewrite Nat2Z.id, (list_lookup_total_correct _ _ _ Hj) in Hu. }
  destruct (Forall2_lookup_l _ _ _ _ _ Hls Hl) as (c' & _ & [[[_ _ _ [_ H64] _ _] _ _ _ _] _ _ _ _]).
  assert (is_u 64 (m' 0) /\ is_u 64 (m' 1)) as [V1 V2].
  { unfold is_u in *. pose proof (Z.pow_le_mono_r 2 _ 64 ltac:(lia) H64). lia. }
  rewrite !wrap_small in Hfn by done. specialize (Hsat i Hi). unfold cdist, cons_ops in Hsat. rewrite Hcm in Hsat.
  rewrite Hfn in Hsat. unfold holds. rewrite <- E1, <- E2, <- plain_compare by done.
  apply get_distance_zero; [apply Hplain|done..].
Qed.

End solve.

(** ** A search run

    The comparison of the sum of two input bytes with 7, to be made false. *)

#[local] Existing Instance llvm14.
#[local] Existing Instance ir_semantics.

Lemma ir_value_ext m m' v : (forall s, s ∈ loads v -> m s = m' s) -> ir_value m v = ir_value m' v.
Proof.
  induction v as [| |v IH w|v IH w|v IH w|v IH w|o v1 IH1 v2 IH2|v IH|v IH|v1 IH1 v2 IH2|c IHc v1 IH1 v2 IH2];
    simpl; intros H; try done; try (by rewrite IH).
  - rewrite H; [done|]. by left.
  - rewrite IH1, IH2; [done| |]; intros s Hs; apply H, elem_of_app; tauto.
  - rewrite IH1, IH2; [done| |]; intros s Hs; apply H, elem_of_app; tauto.
  - rewrite IHc, IH1, IH2; [done| | |]; intros s Hs; apply H; rewrite !elem_of_app; tauto.
Qed.

(** What a function that stores to slots 0 and 1 leaves in them. *)
Definition machine_run (f : list (Z * Value)) (l : list Z) : Z * Z :=
  match run_function f (fun j => l !!! Z.to_nat j) with
  | Some m => (u64 (m 0), u64 (m 1))
  | None => (0, 0)
  end.

Lemma machine_run_words f l : is_u 64 (fst (machine_run f l)) /\ is_u 64 (snd (machine_run f l)).
Proof. unfold machine_run. destruct (run_function _ _); [|done]. split; by apply wrap_bound. Qed.

Lemma machine_run_args f nargs l l' : stores_operands nargs f ->
  (forall j, (j < nargs)%nat -> l !! (2 + j)%nat = l' !! (2 + j)%nat) ->
  machine_run f l = machine_run f l'.
Proof.
  intros (v1 & v2 & -> & Hl) Heq. apply Forall_app in Hl as [H1 H2].
  unfold machine_run, run_function, run_stores. simpl.
  assert (forall s, 2 <= s < 2 + Z.of_nat nargs -> l !!! Z.to_nat s = l' !!! Z.to_nat s) as Hs.
  { intros s Hs. rewrite !list_lookup_total_alt.
    replace (Z.to_nat s) with (2 + Z.to_nat (s - 2))%nat by lia. rewrite Heq; [done|lia]. }
  rewrite (ir_value_ext _ (fun j => l' !!! Z.to_nat j) v1) by (rewrite Forall_forall in H1; auto).
  rewrite (ir_value_ext _ (fun j => l' !!! Z.to_nat j) v2) by (rewrite Forall_forall in H2; auto).
  destruct (ir_value _ v1); [|done]. by destruct (ir_value _ v2).
Qed.

Definition machine_code (fs : list (list (Z * Value))) : MachineCode := fun k l =>
  match fs !! k with Some f => machine_run f l | None => (0, 0) end.

Lemma machine_code_compiled fs t :
  Forall2 (fun f cm => stores_operands (length (m_input_args cm)) f) fs (consmetas_ t) ->
  CompiledFor t (MC := machine_code fs).
Proof.
  intros Hfs. split; unfold fn, machine_code.
  - intros k l. destruct (fs !! k); [apply machine_run_words|done].
  - intros k cm l l' Hcm Heq. destruct (Forall2_lookup_r _ _ _ _ _ Hfs Hcm) as (f & -> & Hf).
    by apply (machine_run_args f (length (m_input_args cm))).
Qed.

Definition sample_cons : Constraint :=
  match parse_constraint sample_scan 4 with Ok (Some c) => c | _ => new_constraint 0 end.
Definition sample_code : list (Z * Value) :=
  match addFunction (ast sample_cons) (local_map sample_cons) with Ok (Some f) => f | _ => [] end.
Definition sample_task : SearchTask :=
  mk_task [sample_cons] [rgd.Distinct] [] [] ∅ ∅ 0 ∅ None false 0 false ∅ None false.
Definition sample_final : SearchTask :=
  match finalize sample_task with Ok t => t | Err _ => new_task end.

#[local] Instance sample_unspecified : Unspecified :=
  {| cast_overflow := fun _ => 0; uninit := fun _ _ => 0; rand_byte := fun _ => 5 |}.
#[local] Instance sample_machine : MachineCode := machine_code [sample_code].

Definition sample_run : res bool * SearchTask :=
  gd_entry sample_final (replicate 6 0) [0] [0] [0] [0] 0.

Lemma Ok_inj {A} (a b : A) : Ok a = Ok b -> a = b.
Proof. by intros [= ->]. Qed.

Lemma sample_parsed : parse_constraint sample_scan 4 = Ok (Some sample_cons).
Proof. vm_compute. reflexivity. Qed.

Lemma sample_added : addFunction (ast sample_cons) (local_map sample_cons) = Ok (Some sample_code).
Proof. vm_compute. reflexivity. Qed.

Lemma sample_finalized : finalize sample_task = Ok sample_final.
Proof. vm_compute. reflexivity. Qed.

Lemma sample_constraints : constraints_ sample_final = [sample_cons].
Proof. vm_compute. reflexivity. Qed.

Lemma sample_compiled : CompiledFor sample_final.
Proof.
  apply machine_code_compiled.
  destruct (consmetas_ sample_final) as [|cm [|]] eqn:E; vm_compute in E; [done| |done].
  injection E as <-. constructor; [|constructor].
  eexists _, _. split; [vm_compute; reflexivity|]. vm_compute. repeat constructor; discriminate.
Qed.
#[local] Existing Instance sample_compiled.

Lemma sample_reads_ok : reads_ok sample_reads.
Proof.
  split; [exact sample_no_overlap|]. intros o len. unfold sample_reads.
  rewrite !elem_of_cons, elem_of_nil. intros [[= -> ->]|[[= -> ->]|[]]]; lia.
Qed.

Lemma sample_pd : parsed sample_scan [3; 4] sample_reads 4 4 sample_cons.
Proof.
  split; [exact sample_cmp|done|vm_compute; reflexivity|vm_compute; reflexivity|exact sample_parsed].
Qed.

Lemma sample_inv : args_inv [3; 4] sample_cons /\ blocks sample_reads sample_cons.
Proof.
  destruct (parsed_run (new_parser sample_infos (32 * 5) true 200) [3; 4] sample_reads 4 sample_scan 4
    sample_cons sample_scannable sample_scanned ltac:(done) sample_no_overlap sample_pd)
    as (f & Hi & Hb & _). done.
Qed.

Lemma sample_ready : ready ∅ sample_task.
Proof.
  split; try reflexivity.
  - apply Forall_singleton. apply sample_inv.
  - apply Forall_singleton. replace (atoi_info sample_cons) with (∅ : gmap Z (Z * Z * Z)); [done|].
    vm_compute. reflexivity.
Qed.

Lemma sample_startable : startable sample_final (replicate 6 0) [0] [0].
Proof.
  split; [|split_and!; vm_compute; reflexivity].
  destruct (finalize_run ∅ sample_task sample_ready) as (t & E & Hf).
  rewrite sample_finalized in E. apply Ok_inj in E. rewrite <- E in Hf.
  apply (finalized_searchable [3; 4] sample_reads sample_task sample_final).
  - exact sample_reads_ok.
  - by repeat constructor.
  - apply Forall_singleton. exact sample_inv.
  - by apply Forall_singleton.
  - reflexivity.
  - exact Hf.
  - vm_compute. reflexivity.
Qed.

Lemma sample_solved : sample_run = (Ok true, snd sample_run).
Proof. vm_compute. reflexivity. Qed.

Lemma sample_defined env : defined sample_scan env 4.
Proof.
  assert (forall m, sub_label sample_scan 4 m -> m = 1 \/ m = 2 \/ m = 3 \/ m = 4) as Hsub.
  { intros m Hm.
    assert (forall l k, sub_label sample_scan l k -> 1 <= l <= 4 -> 1 <= k <= 4) as Hr.
    { induction 1 as [l|l k Hl Hn _ IH|l k Hl Hn _ IH]; intros Hb; [done| |]; apply IH;
        pose proof (lo_below _ _ (sample_label l Hb)); lia. }
    specialize (Hr 4 m Hm). lia. }
  intros m Hm. unfold op_defined, value_defined.
  destruct (Hsub m Hm) as [-> | [-> | [-> | ->]]]; reflexivity.
Qed.

Lemma gd_entry_returns_witness : exists b t',
  gd_entry sample_final (replicate 6 0) [0] [0] [0] [0] 0 = (Ok b, t').
Proof. exact (gd_entry_returns sample_final _ _ _ _ _ _ sample_startable). Defined.

Lemma gd_entry_sound_witness : exists v, words sample_final v /\ satisfies sample_final v /\
  results sample_final v (solution (snd sample_run)).
Proof.
  exact (gd_entry_sound sample_final _ _ _ _ _ _ _ sample_startable sample_solved).
Defined.

(** ** Signed comparisons of narrow operands

    An input byte that should be less than -1, as 8-bit numbers. *)

Definition signed_infos : gmap Z dfsan_label_info :=
  <[1 := mk_info 0 0 0 0 0 8 0]> (<[2 := mk_info 1 0 0 255 (icmp bvslt) 8 0]> ∅).

Definition signed_parser : parser :=
  snd (scan_labels 2 (snd (restart [[1]] (new_parser signed_infos (32 * 3) true 200)))).

(** A signed comparison of operands narrower than 64 bits is misjudged: the
    compiled function zero-extends the operands and [get_distance] compares them
    as 64-bit signed numbers. On the byte 1 the distance of [x < -1] is zero, but
    the comparison is false. *)
Theorem narrow_signed_misjudged : exists c f m m' (env : input_env),
  parse_constraint signed_parser 2 = Ok (Some c) /\
  addFunction (ast c) (local_map c) = Ok (Some f) /\ run_function f m = Some m' /\
  map_Forall (fun o v => env o = v) (inputs c) /\
  Forall (fun '(o, k) => m (k + RET_OFFSET) = env o) (local_map c) /\
  (forall k v, input_args c !! k = Some (false, v) -> m (Z.of_nat k + RET_OFFSET) = v) /\
  get_distance (kind (a_root (ast c))) (m' 0) (m' 1) = 0 /\ eval signed_infos env 2 = 0.
Proof.
  set (env := fun o : Z => if o =? 0 then 1 else 0).
  set (m := fun k : Z => if k =? 2 then 1 else if k =? 3 then 255 else 0).
  destruct (parse_constraint signed_parser 2) as [[c|]|] eqn:E; vm_compute in E;
    [injection E as <-|discriminate..].
  match goal with |- context [Some ?c] => destruct (addFunction (ast c) (local_map c))
    as [[f|]|] eqn:Ef end; vm_compute in Ef; [injection Ef as <-|discriminate..].
  eexists _, _, m, _, env. split; [reflexivity|].
  split; [vm_compute; reflexivity|]. split; [reflexivity|]. split_and!.
  - apply (bool_decide_unpack _). vm_compute. exact I.
  - repeat constructor.
  - intros [|[|k]] v; vm_compute; congruence.
  - vm_compute. reflexivity.
  - rewrite eval_eq. vm_compute. reflexivity.
Qed.
