(* ===== verification/I2S.v ===== *)
(** * The input-to-state solver: [solvers/i2s-solver.cpp]

    Input bytes that show up unchanged (or reversed, or after one operation with
    a constant, or as a number in text) as an operand of a comparison are replaced
    by what the comparison asks for. [get_i2s_value] and [SWAP64] are the same
    text as in [gd.cc]. *)

From S2P Require Import Prelude Dfsan Ast Task Gd Cstr.
Local Open Scope prog_scope.

Inductive solver_result_t := SOLVER_ERROR | SOLVER_SAT | SOLVER_UNSAT | SOLVER_TIMEOUT.

#[global] Instance solver_result_eq_dec : EqDecision solver_result_t.
Proof. solve_decision. Defined.

(** [static_cast<uint64_t>(std::log2(r))]. The mathematical library is exact on
    powers of two. *)
Class Libm := {
  log2_u64 : Z -> Z;
  log2_pow2 n : 0 <= n < 64 -> log2_u64 (2 ^ n) = n
}.

(** ** Operations and their inverses *)

(** The division instruction traps on a quotient that does not fit. *)
Definition sdiv_ok (a b : Z) : bool := negb (b =? 0) && negb ((s64 a =? - 2 ^ 63) && (s64 b =? -1)).

Definition _get_binop_value (v1 v2 : Z) (kind : rgd.AstKind) : res Z :=
  match kind with
  | rgd.Add => Ok (u64 (v1 + v2))
  | rgd.Sub => Ok (u64 (v1 - v2))
  | rgd.Mul => Ok (u64 (v1 * v2))
  | rgd.UDiv => Ok (if v2 =? 0 then 0 else v1 / v2)
  | rgd.SDiv => if v2 =? 0 then Ok 0
                else if sdiv_ok v1 v2 then Ok (u64 (Z.quot (s64 v1) (s64 v2))) else Err Undefined
  | rgd.URem => Ok (if v2 =? 0 then 0 else v1 mod v2)
  | rgd.SRem => if v2 =? 0 then Ok 0
                else if sdiv_ok v1 v2 then Ok (u64 (Z.rem (s64 v1) (s64 v2))) else Err Undefined
  | rgd.And => Ok (Z.land v1 v2)
  | rgd.Or => Ok (Z.lor v1 v2)
  | rgd.Xor => Ok (Z.lxor v1 v2)
  | rgd.Shl => Ok (shl64 v1 v2)
  | rgd.LShr => Ok (shr64 v1 v2)
  | rgd.AShr => Ok (u64 (Z.shiftr (s64 v1) (v2 mod 64)))
  | _ => Ok 0
  end.

(** A value [v] with [const_op op v = r] if [rhs], else with [v op const_op = r]. *)
Definition _get_binop_value_r {L : Libm} (r const_op : Z) (kind : rgd.AstKind) (rhs : bool) : res Z :=
  match kind with
  | rgd.Add => Ok (u64 (r - const_op))
  | rgd.Sub => Ok (if rhs then u64 (const_op - r) else u64 (r + const_op))
  | rgd.Mul => if const_op =? 0 then Err Undefined else Ok (r / const_op)
  | rgd.UDiv => if rhs then (if r =? 0 then Err Undefined else Ok (const_op / r))
                else Ok (u64 (r * const_op))
  | rgd.SDiv => if rhs then (if sdiv_ok const_op r then Ok (u64 (Z.quot (s64 const_op) (s64 r)))
                             else Err Undefined)
                else Ok (u64 (s64 r * s64 const_op))
  | rgd.URem => if rhs then
                  if const_op <? r then Ok r
                  else Ok (if r <? const_op then u64 (const_op - r) else u64 (const_op + 1))
                else Ok r
  | rgd.SRem => if rhs then
                  if s64 const_op <? s64 r then Ok r
                  else Ok (if s64 r <? s64 const_op then u64 (s64 const_op - s64 r)
                           else u64 (s64 const_op + 1))
                else Ok r
  | rgd.And => Ok (if Z.land r const_op =? r then r else const_op)
  | rgd.Or => Ok (if Z.lor r const_op =? r then r else const_op)
  | rgd.Xor => Ok (Z.lxor r const_op)
  | rgd.Shl => if rhs then Ok (if const_op =? 1 then u64 (log2_u64 r) else 0)
               else Ok (shr64 r const_op)
  | rgd.LShr => Ok (if rhs then r else shl64 r const_op)
  | rgd.AShr => Ok (if rhs then r else shl64 (s64 r) const_op)
  | _ => Ok 0
  end.

(** [node.children(i)] *)
Definition child_node (a : Ast) (n : AstNode) (second : bool) : res AstNode :=
  let? c := child_of (link second n) a in idx (node_at c a).

(** The value of the operation [node] when its other operand is [value]; the two
    reference parameters are returned too, unchanged when neither operand is a
    constant. *)
Definition get_binop_value (c : Constraint) (node : AstNode) (value const_op : Z) (rhs : bool)
    : res (Z * Z * bool) :=
  let? nl := child_node (ast c) node false in
  let? nr := child_node (ast c) node true in
  if bool_decide (kind nl = rgd.Constant) then
    let? arg := idx (input_args c !! Z.to_nat (index nl)) in
    let? r := _get_binop_value (snd arg) value (kind node) in
    Ok (r, snd arg, true)
  else if bool_decide (kind nr = rgd.Constant) then
    let? arg := idx (input_args c !! Z.to_nat (index nr)) in
    let? r := _get_binop_value value (snd arg) (kind node) in
    Ok (r, snd arg, false)
  else Ok (0, const_op, rhs).

(** ** The solver *)

(** Its state, with the buffer it writes to. *)
Record i2s := mk_i2s { matches : Z; mismatches : Z; out_buf : list Z; out_size : Z }.

Definition set_out (b : list Z) (n : Z) (s : i2s) : i2s := mk_i2s (matches s) (mismatches s) b n.
Definition count_match (s : i2s) : i2s := mk_i2s (u64 (matches s + 1)) (mismatches s) (out_buf s) (out_size s).
Definition count_mismatch (s : i2s) : i2s := mk_i2s (matches s) (u64 (mismatches s + 1)) (out_buf s) (out_size s).

(** The operations that are tried. *)
Definition binop_mask : list rgd.AstKind :=
  [rgd.Add; rgd.Sub; rgd.Mul; rgd.UDiv; rgd.SDiv; rgd.URem; rgd.SRem; rgd.And; rgd.Xor;
   rgd.LShr; rgd.AShr].

Definition masked_ops (c : Constraint) : nat :=
  length (filter (fun k => rgd.num k ∈ ops c) binop_mask).

(** The bytes of [x] in reverse, for a word of [bytes] bytes. *)
Definition swap_bytes (bytes x : Z) : Z := shr64 (SWAP64 x) (64 - bytes * 8).

Section solver.
Context {L : Libm} (infos : gmap Z dfsan_label_info) (in_buf : list Z).

Definition in_size : Z := Z.of_nat (length in_buf).

(** "make a copy", once. *)
Definition copy_input : M i2s unit :=
  let! s := gets id in
  if out_size s =? 0 then
    let! b := lift (write_bytes (out_buf s) 0 in_buf) in modify (set_out b (out_size s))
  else ret tt.

(** What was found out about the operation: its constant, whether the input is
    on its right, its kind, the side of the comparison, and the byte order. *)
Record guess := mk_guess {
  const_op : Z; bop_rhs : bool; g_kind : rgd.AstKind; g_rhs : bool; is_reversed : bool
}.

(** One side of the comparison, [node], with recorded operand [opv]: try the
    value, then the reversed value. *)
Definition try_side (c : Constraint) (node : AstNode) (rhs : bool) (opv value value_r mask : Z)
    (g : guess) : res guess :=
  if rgd.isBinaryOperation (kind node) then
    let? (r, co, br) := get_binop_value c node value (const_op g) (bop_rhs g) in
    if Z.land r mask =? opv then Ok (mk_guess co br (kind node) rhs (is_reversed g))
    else
      let? (r, co, br) := get_binop_value c node value_r co br in
      if Z.land r mask =? opv then Ok (mk_guess co br (kind node) rhs true)
      else Ok (mk_guess 0 br (g_kind g) (g_rhs g) (is_reversed g))
  else Ok g.

(** "try some simple binary operations"; [None] is "nothing matches". *)
Definition try_binop (c : Constraint) (comp : rgd.AstKind) (o1 o2 value value_r bytes : Z)
    : res (option Z) :=
  let? nl := child_node (ast c) (a_root (ast c)) false in
  let? nr := child_node (ast c) (a_root (ast c)) true in
  let mask := u64 (shl64 1 (bytes * 8) - 1) in
  let? g := try_side c nl false o1 value value_r mask (mk_guess 0 false rgd.Bool false false) in
  let? g := try_side c nr true o2 value value_r mask g in
  if const_op g =? 0 then Ok None
  else
    let r := get_i2s_value comp (if g_rhs g then o1 else o2) (g_rhs g) in
    let? r := _get_binop_value_r r (const_op g) (g_kind g) (bop_rhs g) in
    let r := Z.land r mask in
    Ok (Some (if is_reversed g then swap_bytes bytes r else r)).

(** The value to write for a candidate of [bytes] bytes that hold [value]. *)
Definition icmp_value (c : Constraint) (comp : rgd.AstKind) (value bytes : Z) : res (option Z) :=
  let value_r := swap_bytes bytes value in
  let? o1 := idx (op1 c) in
  let? o2 := idx (op2 c) in
  if o1 =? value then Ok (Some (get_i2s_value comp o2 false))
  else if o2 =? value then Ok (Some (get_i2s_value comp o1 true))
  else if o1 =? value_r then Ok (Some (swap_bytes bytes (get_i2s_value comp o2 false)))
  else if o2 =? value_r then Ok (Some (swap_bytes bytes (get_i2s_value comp o1 true)))
  else if (masked_ops c =? 1)%nat then try_binop c comp o1 o2 value value_r bytes
  else Ok None.

(** A number in text: what [strtoul] reads, and whether it has a sign. *)
Definition atoi_number (offset base old_len : Z) : res (Z * bool) :=
  if 0 <? old_len then
    let? buf := read_bytes in_buf offset old_len in
    Ok (strtoul buf base, bool_decide (buf !! 0%nat = Some 45))
  else Ok (0, false).

Definition atoi_text (base r : Z) (is_signed : bool) : option (list Z) :=
  if base =? 2 then Some (print_unsigned 2 r)
  else if base =? 8 then Some (print_unsigned 8 r)
  else if base =? 10 then Some (if is_signed then print_signed r else print_unsigned 10 r)
  else if base =? 16 then Some (print_unsigned 16 r)
  else None.

(** The text of the new number in place of the old one; what follows moves. *)
Definition atoi_write (offset old_len : Z) (text : list Z) : M i2s unit :=
  let! s := gets id in
  if out_size s =? 0 then
    let copy_len := u64 (in_size - offset - old_len) in
    let! front := lift (read_bytes in_buf 0 offset) in
    let! b := lift (write_bytes (out_buf s) 0 front) in
    let! (num_len, b) := lift (snprintf b offset 64 text) in
    let! rest := lift (read_bytes in_buf (offset + old_len) copy_len) in
    let! b := lift (write_bytes b (offset + num_len) rest) in
    modify (set_out b (u64 (in_size + num_len - old_len)))
  else
    let copy_len := u64 (out_size s - offset - old_len) in
    let! saved := lift (read_bytes (out_buf s) (offset + old_len) copy_len) in
    let! (num_len, b) := lift (snprintf (out_buf s) offset 64 text) in
    let! b := lift (write_bytes b (offset + num_len) saved) in
    modify (set_out b (u64 (out_size s + num_len - old_len))).

(** The candidates of a comparison; [value] keeps the upper bytes of an earlier,
    longer one. *)
Fixpoint icmp_loop (c : Constraint) (comp : rgd.AstKind) (cands : list (Z * Z)) (value : Z)
    : M i2s solver_result_t :=
  match cands with
  | [] => ret SOLVER_TIMEOUT
  | (offset, bytes) :: cands' =>
      if 8 <? bytes then icmp_loop c comp cands' value
      else
        match atoi_info c !! u32 offset with
        | None =>
            let! bs := lift (read_bytes in_buf offset bytes) in
            let value := patch_word value bs in
            let! r := lift (icmp_value c comp value bytes) in
            match r with
            | None => icmp_loop c comp cands' value
            | Some r =>
                modify count_match ;;;
                copy_input ;;;
                let! s := gets id in
                let! b := lift (write_bytes (out_buf s) offset (word_bytes (Z.to_nat bytes) r)) in
                modify (set_out b in_size) ;;;
                ret SOLVER_SAT
            end
        | Some (_, base, old_len) =>
            let! (unum, is_signed) := lift (atoi_number offset base old_len) in
            let! o1 := lift (idx (op1 c)) in
            let! o2 := lift (idx (op2 c)) in
            let r := if o1 =? unum then Some (get_i2s_value comp o2 false)
                     else if o2 =? unum then Some (get_i2s_value comp o1 true) else None in
            match r with
            | None => icmp_loop c comp cands' value
            | Some r =>
                modify count_match ;;;
                match atoi_text base r is_signed with
                | None => icmp_loop c comp cands' value
                | Some text => atoi_write offset old_len text ;;; ret SOLVER_SAT
                end
            end
        end
  end.

Definition solve_icmp (c : Constraint) (cm : ConsMeta) (comp : rgd.AstKind) : M i2s solver_result_t :=
  icmp_loop c comp (i2s_candidates cm) 0.

(** ** [memcmp] *)

(** Bytes [o] to [o + n - 1] become [f] of the bytes of the constant. *)
Fixpoint fill_loop (f : Z -> res Z) (c : Constraint) (o : Z) (n : nat) (i : Z) (const_index : nat)
    (value : Z) (b : list Z) : res (list Z) :=
  match n with
  | O => Ok b
  | S n' =>
      let? value := (if i =? 0 then let? arg := idx (input_args c !! const_index) in Ok (snd arg)
                     else Ok value) in
      let? v := f (Z.land (Z.shiftr value i) 0xff) in
      let? b := write_bytes b o [u8 v] in
      if i + 8 =? 64 then fill_loop f c (o + 1) n' 0 (S const_index) value b
      else fill_loop f c (o + 1) n' (i + 8) const_index value b
  end.

(** The single operation that can be undone, among those of the tree. *)
Fixpoint undo_kind (l : list rgd.AstKind) (c : Constraint) (found : option rgd.AstKind)
    : option rgd.AstKind :=
  match l with
  | [] => found
  | k :: l' =>
      if bool_decide (rgd.num k ∈ ops c)
      then match found with Some _ => None | None => undo_kind l' c (Some k) end
      else undo_kind l' c found
  end.

Definition undo_kinds : list rgd.AstKind :=
  [rgd.Add; rgd.Sub; rgd.Mul; rgd.UDiv; rgd.SDiv; rgd.URem; rgd.SRem; rgd.Xor].

(** "check simple encoding": only the last byte counts. *)
Fixpoint case_loop (offset : Z) (sample : list Z) (res0 : bool * bool) : res (bool * bool) :=
  match sample with
  | [] => Ok res0
  | x :: sample' =>
      let? b := idx (in_buf !! Z.to_nat offset) in
      case_loop (offset + 1) sample' (Z.land b 0x5f =? x, Z.lor b 0x20 =? x)
  end.

(** How the bytes of the constant are changed: undo an operation, or the case;
    [None] is a timeout. *)
Definition memcmp_encoding (c : Constraint) (offset : Z) : res (option (Z -> res Z)) :=
  let? info := idx (infos !! label (a_root (ast c))) in
  let sample := word_bytes (Z.to_nat (if 8 <? i_size info then 8 else i_size info)) (i_op2 info) in
  let? (encode_val, kind, (toupper, tolower)) :=
    match undo_kind undo_kinds c None with
    | Some k =>
        let? x := idx (sample !! 0%nat) in
        let? b := idx (in_buf !! Z.to_nat offset) in
        let? e := _get_binop_value_r x b k false in
        Ok (u8 e, k, (false, false))
    | None => let? cases := case_loop offset sample (false, false) in Ok (0, rgd.Bool, cases)
    end in
  Ok (if negb (encode_val =? 0) then Some (fun v => _get_binop_value_r v encode_val kind false)
      else if toupper : bool then Some (fun v => Ok (Z.lor v 0x20))
      else if tolower : bool then Some (fun v => Ok (Z.land v 0x5f))
      else None).

Definition solve_memcmp (c : Constraint) (cm : ConsMeta) : M i2s solver_result_t :=
  let const_index := first_const (input_args c) in
  if (const_index =? length (input_args c))%nat then
    modify count_mismatch ;;; ret SOLVER_TIMEOUT
  else match i2s_candidates cm with
  | [(offset, size)] =>
      if negb (size =? Z.of_nat (length (local_map c))) then ret SOLVER_TIMEOUT
      else
        copy_input ;;;
        let! nr := lift (child_node (ast c) (a_root (ast c)) true) in
        let! f := (if bool_decide (kind nr = rgd.Read) then ret (Some (fun v => Ok v))
                   else lift (memcmp_encoding c offset)) in
        match f with
        | None => ret SOLVER_TIMEOUT
        | Some f =>
            let! s := gets id in
            let! b := lift (fill_loop f c offset (Z.to_nat size) 0 const_index 0 (out_buf s)) in
            modify (set_out b in_size) ;;;
            ret SOLVER_SAT
        end
  | _ => ret SOLVER_TIMEOUT
  end.

(** ** All constraints of a task *)

(** "copy the matching bytes" *)
Definition solve_memcmpN (cm : ConsMeta) : M i2s unit :=
  copy_input ;;;
  let! (offset, _) := lift (idx (i2s_candidates cm !! 0%nat)) in
  let! b := lift (idx (in_buf !! Z.to_nat offset)) in
  let! s := gets id in
  let! b := lift (write_bytes (out_buf s) offset [u8 (b + 8)]) in
  modify (set_out b in_size).

Fixpoint solve_loop (t : SearchTask) (i n : nat) (r : solver_result_t) : M i2s solver_result_t :=
  match n with
  | O => ret r
  | S n' =>
      let! c := lift (at_ (constraints_ t !! i)) in
      let! cm := lift (at_ (consmetas_ t !! i)) in
      let! comparison := lift (at_ (comparisons_ t !! i)) in
      let! r :=
        (if rgd.isRelationalKind comparison then
           let! r1 := solve_icmp c cm comparison in
           if bool_decide (r1 = SOLVER_SAT) then ret SOLVER_SAT
           else modify count_mismatch ;;; ret r
         else if bool_decide (comparison = rgd.Memcmp) then
           let! r1 := solve_memcmp c cm in
           if bool_decide (r1 = SOLVER_SAT) then ret SOLVER_SAT
           else modify count_mismatch ;;; ret r
         else if bool_decide (comparison = rgd.MemcmpN) then
           solve_memcmpN cm ;;; ret SOLVER_SAT
         else ret r) in
      solve_loop t (S i) n' r
  end.

Definition i2s_solve (t : SearchTask) : M i2s solver_result_t :=
  modify (fun s => set_out (out_buf s) 0 s) ;;;
  solve_loop t 0 (length (constraints_ t)) SOLVER_TIMEOUT.

End solver.
