(* ===== verification/I2SSpec.v ===== *)
(** * The input-to-state solver at work

    What the solver writes for a comparison, for [memcmp] and for numbers in text
    makes the comparison true. *)

From stdpp Require Import list_numbers.
From S2P Require Import Prelude Dfsan Ast Task Gd GdSpec Cstr I2S.
Local Open Scope prog_scope.

(** ** The value a comparison asks for *)

Lemma signed_wrap w z : 0 < w -> - 2 ^ (w - 1) <= z < 2 ^ (w - 1) -> signed w (wrap w z) = z.
Proof.
  intros Hw Hz. assert (2 ^ w = 2 * 2 ^ (w - 1)) as E.
  { rewrite <- Z.pow_succ_r by lia. f_equal. lia. }
  unfold signed, wrap. destruct (decide (0 <= z)).
  - rewrite Z.mod_small by lia. by rewrite (proj2 (Z.ltb_lt _ _)) by lia.
  - replace (z mod 2 ^ w) with (z + 2 ^ w).
    + rewrite (proj2 (Z.ltb_ge _ _)) by lia. lia.
    + rewrite <- (Z.mod_small (z + 2 ^ w) (2 ^ w)) by lia.
      replace (z + 2 ^ w) with (z + 1 * 2 ^ w) by lia. by rewrite Z_mod_plus_full.
Qed.

Lemma wrap_signed_add w v k : 0 < w -> is_u w v -> wrap w (v + k) = wrap w (signed w v + k).
Proof.
  intros Hw Hv. rewrite <- (wrap_signed w v Hw Hv) at 1. unfold wrap.
  by rewrite Zplus_mod_idemp_l.
Qed.

Lemma wrap_add_l w a b : wrap w (wrap w a + b) = wrap w (a + b).
Proof. unfold wrap. by rewrite Zplus_mod_idemp_l. Qed.
Lemma wrap_add_r w a b : wrap w (a + wrap w b) = wrap w (a + b).
Proof. unfold wrap. by rewrite Zplus_mod_idemp_r. Qed.
Lemma wrap_sub_l w a b : wrap w (wrap w a - b) = wrap w (a - b).
Proof. unfold wrap. by rewrite Zminus_mod_idemp_l. Qed.
Lemma wrap_sub_r w a b : wrap w (a - wrap w b) = wrap w (a - b).
Proof. unfold wrap. by rewrite Zminus_mod_idemp_r. Qed.

Lemma signed_step w v k : 0 < w -> is_u w v -> - 2 ^ (w - 1) <= signed w v + k < 2 ^ (w - 1) ->
  signed w (wrap w (v + k)) = signed w v + k.
Proof. intros Hw Hv Hk. rewrite wrap_signed_add by done. by apply signed_wrap. Qed.

Section target.
Context (comp : rgd.AstKind) (w o : Z) (Hw : 0 < w <= 64) (Ho : is_u w o).
Context (Hrel : rgd.isRelationalKind comp = true).

Lemma narrow v : wrap w (u64 v) = wrap w v.
Proof. apply wrap_wrap_le. lia. Qed.

Lemma signed_diff k : k = 1 \/ k = -1 -> wrap w (o + k) <> o.
Proof.
  intros Hk E. unfold wrap in E. assert (1 < 2 ^ w) by (apply Z.pow_gt_1; lia). unfold is_u in Ho.
  rewrite <- (Z.mod_small o (2 ^ w)) in E at 2 by lia. apply Z.cong_iff_0 in E.
  replace (o + k - o) with k in E by lia. apply Z.mod_divide in E as [q Hq]; [|lia].
  assert (q <= -1 \/ q = 0 \/ 1 <= q) as [Hq0|[Hq0|Hq0]] by lia; nia.
Qed.

(** The target makes the comparison true whenever some value does; the input is
    on the left. *)
Lemma i2s_value_left : (exists x, is_u w x /\ rgd.compare comp w x o = true) ->
  rgd.compare comp w (wrap w (get_i2s_value comp o false)) o = true.
Proof.
  intros (x & Hx & Hc). pose proof (signed_bound w x ltac:(lia) Hx).
  pose proof (signed_bound w o ltac:(lia) Ho). unfold is_u in Hx. pose proof Ho as Ho'. unfold is_u in Ho'.
  destruct comp; try done; simpl in *; rewrite ?narrow; bool_hyps;
    try (rewrite (wrap_small w o) by done; lia);
    first [ apply signed_diff; lia
          | rewrite (wrap_small w) by (unfold is_u; lia); lia
          | unfold Z.sub; rewrite signed_step by (done || lia); lia ].
Qed.

Lemma i2s_value_right : (exists x, is_u w x /\ rgd.compare comp w o x = true) ->
  rgd.compare comp w o (wrap w (get_i2s_value comp o true)) = true.
Proof.
  intros (x & Hx & Hc). pose proof (signed_bound w x ltac:(lia) Hx).
  pose proof (signed_bound w o ltac:(lia) Ho). unfold is_u in Hx. pose proof Ho as Ho'. unfold is_u in Ho'.
  destruct comp; try done; simpl in *; rewrite ?narrow; bool_hyps;
    try (rewrite (wrap_small w o) by done; lia);
    first [ apply not_eq_sym, signed_diff; lia
          | rewrite (wrap_small w) by (unfold is_u; lia); lia
          | unfold Z.sub; rewrite signed_step by (done || lia); lia ].
Qed.

End target.

(** ** Reversing bytes *)

(** One step of [SWAP64]: fields of [k] bits change places. *)
Lemma swap_step_bit mask k r i : 0 < k <= 64 -> is_u (64 - k) mask ->
  Z.testbit (Z.lor (u64 (Z.shiftl (Z.land r mask) k)) (Z.shiftr (Z.land r (Z.shiftl mask k)) k)) i =
    ((k <=? i) && Z.testbit mask (i - k) && Z.testbit r (i - k)) ||
    (Z.testbit mask i && Z.testbit r (i + k)).
Proof.
  intros Hk Hm. destruct (Z.lt_ge_cases i 0) as [Hn|Hi].
  { rewrite !(Z.testbit_neg_r _ i) by done. by rewrite (proj2 (Z.leb_gt _ _)) by lia. }
  rewrite Z.lor_spec, Z.shiftr_spec, Z.land_spec by lia. f_equal.
  - unfold wrap. destruct (Z.lt_ge_cases i 64).
    + rewrite Z.mod_pow2_bits_low, Z.shiftl_spec, Z.land_spec by lia.
      destruct (Z.leb_spec k i); simpl; [by rewrite andb_comm|]. by rewrite Z.testbit_neg_r by lia.
    + rewrite Z.mod_pow2_bits_high by lia. rewrite (testbit_high _ mask (i - k) Hm) by lia.
      by rewrite andb_false_r.
  - rewrite Z.shiftl_spec by lia. rewrite andb_comm. do 2 f_equal. lia.
Qed.

Lemma SWAP64_bit x i : 0 <= i < 64 -> Z.testbit (SWAP64 x) i = Z.testbit x (56 - 8 * (i / 8) + i mod 8).
Proof.
  intros Hi. unfold SWAP64. rewrite !swap_step_bit by done. generalize (Z.testbit x) as b. intros b.
  assert (i ∈ seqZ 0 64) as Hin by (apply elem_of_seqZ; lia). clear Hi.
  let l := eval vm_compute in (seqZ 0 64) in change (seqZ 0 64) with l in Hin.
  repeat (apply elem_of_cons in Hin as [->|Hin]; 
    [vm_compute; match goal with |- _ = ?y => by destruct y end|]).
  by apply elem_of_nil in Hin.
Qed.

Lemma word_bytes_lookup n x j : (j < n)%nat ->
  word_bytes n x !! j = Some (u8 (Z.shiftr x (8 * Z.of_nat j))).
Proof.
  revert x j. induction n as [|n IH]; intros x j Hj; [lia|]. destruct j as [|j]; simpl.
  - by rewrite Z.shiftr_0_r.
  - rewrite IH by lia. rewrite Z.shiftr_shiftr by lia. do 3 f_equal. lia.
Qed.

Section swap.
Context (n : nat) (Hn : (1 <= n <= 8)%nat).

Lemma swap_bytes_shift x : swap_bytes (Z.of_nat n) x = Z.shiftr (SWAP64 x) (64 - 8 * Z.of_nat n).
Proof.
  unfold swap_bytes, shr64. f_equal. rewrite Z.mod_small; lia.
Qed.

Lemma word_bytes_swap x : word_bytes n (swap_bytes (Z.of_nat n) x) = reverse (word_bytes n x).
Proof.
  apply list_eq. intros j. destruct (decide (j < n)%nat) as [Hj|Hj].
  - rewrite word_bytes_lookup by done. rewrite reverse_lookup by (rewrite length_word_bytes; lia).
    rewrite length_word_bytes, word_bytes_lookup by lia. f_equal.
    apply Z.bits_inj'. intros i Hi. unfold wrap. destruct (Z.lt_ge_cases i 8).
    + rewrite !Z.mod_pow2_bits_low, swap_bytes_shift, !Z.shiftr_spec by lia.
      rewrite SWAP64_bit by lia. f_equal.
      replace (i + 8 * Z.of_nat j + (64 - 8 * Z.of_nat n)) with (i + (Z.of_nat j + 8 - Z.of_nat n) * 8) by lia.
      rewrite Z_div_plus_full, Z_mod_plus_full, Z.div_small, Z.mod_small by lia. lia.
    + by rewrite !Z.mod_pow2_bits_high by lia.
  - rewrite !lookup_ge_None_2; [done|rewrite length_reverse, length_word_bytes; lia|].
    rewrite length_word_bytes. lia.
Qed.

Lemma SWAP64_bound x : is_u 64 x -> is_u 64 (SWAP64 x).
Proof.
  intros Hx. unfold SWAP64.
  repeat (apply lor_bound; [done|by apply wrap_bound|apply shiftr_bound; [done|]; apply land_bound; [done|]]).
  done.
Qed.

Lemma swap_bytes_word x : is_u 64 x -> swap_bytes (Z.of_nat n) x = bytes_word (reverse (word_bytes n x)).
Proof.
  intros Hx. pose proof (SWAP64_bound x Hx) as Hs. rewrite <- word_bytes_swap.
  rewrite swap_bytes_shift. rewrite bytes_word_bytes by (apply Z.shiftr_nonneg, Hs).
  symmetry. apply wrap_small. split; [apply Z.shiftr_nonneg, Hs|].
  rewrite Z.shiftr_div_pow2 by lia. apply Z.div_lt_upper_bound; [apply pow2_pos; lia|].
  rewrite <- Z.pow_add_r by lia. replace (64 - 8 * Z.of_nat n + 8 * Z.of_nat n) with 64 by lia. apply Hs.
Qed.

End swap.

(** ** Comparisons of input bytes *)

(** The bytes as an operand, in memory order or reversed. *)
Definition as_word (reversed : bool) (bs : list Z) : Z :=
  bytes_word (if reversed then reverse bs else bs).

(** [x] in the place of the operand on one side. *)
Definition compare_with (comp : rgd.AstKind) (w : Z) (rhs : bool) (o1 o2 x : Z) : bool :=
  if rhs then rgd.compare comp w o1 x else rgd.compare comp w x o2.

Definition operand (rhs : bool) (o1 o2 : Z) : Z := if rhs then o2 else o1.

(** The bytes written for the target [r] of a comparison. *)
Lemma target_word n rev r : (1 <= n <= 8)%nat -> 0 <= r ->
  as_word rev (word_bytes n (if rev then swap_bytes (Z.of_nat n) r else r)) =
    wrap (8 * Z.of_nat n) r.
Proof.
  intros Hn Hr. unfold as_word. destruct rev.
  - rewrite word_bytes_swap, reverse_involutive by done. by apply bytes_word_bytes.
  - by apply bytes_word_bytes.
Qed.

Lemma i2s_value_u64 comp v rhs : is_u 64 v -> is_u 64 (get_i2s_value comp v rhs).
Proof. intros Hv. destruct comp, rhs; simpl; try done; by apply wrap_bound. Qed.

Section solver_spec.
Context {L : Libm} (in_buf : list Z).

(** The first of the four tests that succeeds for the word of [bs]: its side of the
    comparison, and whether the bytes are reversed. *)
Definition matched (o1 o2 : Z) (bs : list Z) : option (bool * bool) :=
  if o1 =? as_word false bs then Some (false, false)
  else if o2 =? as_word false bs then Some (true, false)
  else if o1 =? as_word true bs then Some (false, true)
  else if o2 =? as_word true bs then Some (true, true)
  else None.

(** A side of a comparison that a word can make true. *)
Definition solvable (comp : rgd.AstKind) (w : Z) (rhs : bool) (o1 o2 : Z) : Prop :=
  exists x, is_u w x /\ compare_with comp w rhs o1 o2 x = true.

(** The target of a comparison solves it if anything does. *)
Lemma target_solves comp w rhs o1 o2 : rgd.isRelationalKind comp = true -> 0 < w <= 64 ->
  is_u w o1 -> is_u w o2 ->
  compare_with comp w rhs o1 o2 (wrap w (get_i2s_value comp (operand (negb rhs) o1 o2) rhs)) = true <->
  solvable comp w rhs o1 o2.
Proof.
  intros Hrel Hw U1 U2. split.
  - intros H. eexists. split; [|exact H]. apply wrap_bound. lia.
  - intros Hs. destruct rhs; unfold compare_with; simpl negb; unfold operand.
    + by apply i2s_value_right.
    + by apply i2s_value_left.
Qed.

(** A value that is an operand, in either order, is replaced by one that makes
    the comparison true, if there is one. *)
Lemma icmp_value_direct c comp bs o1 o2 rhs rev : rgd.isRelationalKind comp = true ->
  (1 <= length bs <= 8)%nat -> Forall (is_u 8) bs ->
  let w := 8 * Z.of_nat (length bs) in
  op1 c = Some o1 -> op2 c = Some o2 -> is_u w o1 -> is_u w o2 -> matched o1 o2 bs = Some (rhs, rev) ->
  exists r, icmp_value c comp (bytes_word bs) (Z.of_nat (length bs)) = Ok (Some r) /\
    (compare_with comp w rhs o1 o2 (as_word rev (word_bytes (length bs) r)) = true <->
     solvable comp w rhs o1 o2).
Proof.
  intros Hrel Hlen Hbs w E1 E2 U1 U2 Hm.
  assert (0 < w <= 64) as Hw by (unfold w; lia).
  assert (forall x, is_u w x -> is_u 64 x) as Hwide.
  { intros x. unfold is_u. pose proof (Z.pow_le_mono_r 2 w 64). lia. }
  pose proof (bytes_word_bound bs Hbs) as Ub. fold w in Ub.
  assert (swap_bytes (Z.of_nat (length bs)) (bytes_word bs) = as_word true bs) as Es.
  { rewrite swap_bytes_word by auto. by rewrite word_bytes_of by done. }
  set (r := get_i2s_value comp (operand (negb rhs) o1 o2) rhs).
  exists (if rev then swap_bytes (Z.of_nat (length bs)) r else r). split.
  - unfold icmp_value. rewrite E1, E2, Es. cbn [idx]. change (bytes_word bs) with (as_word false bs).
    unfold matched in Hm. unfold r. by repeat (case_match; simplify_eq/=).
  - rewrite target_word; [by apply target_solves|done|]. apply i2s_value_u64, Hwide. by destruct rhs.
Qed.

(** Candidates of more than eight bytes are passed over. *)
Lemma icmp_loop_skip c comp skipped cands v s : Forall (fun x => 8 < snd x) skipped ->
  icmp_loop in_buf c comp (skipped ++ cands) v s = icmp_loop in_buf c comp cands v s.
Proof.
  induction 1 as [|[o n] l Hn _ IH]; [done|]. simpl in Hn |- *. by rewrite (proj2 (Z.ltb_lt 8 n)).
Qed.

(** The buffer that the solver fills: [n] bytes, and what they are. *)
Definition outcome (s : i2s) (out : list Z) : Prop :=
  out_size s = Z.of_nat (length out) /\ take (length out) (out_buf s) = out.

Lemma copy_input_run s : out_size s = 0 -> (length in_buf <= length (out_buf s))%nat ->
  exists b, copy_input in_buf s = (Ok tt, set_out b 0 s) /\ length b = length (out_buf s) /\
    take (length in_buf) b = in_buf.
Proof.
  intros Hs Hcap. unfold copy_input, bind, gets, id. rewrite Hs, Z.eqb_refl.
  unfold lift. rewrite write_bytes_run by lia. exists (written (out_buf s) in_buf 0).
  unfold modify. split_and!; [done|apply length_written; lia|].
  unfold written. simpl. by rewrite take_app_length.
Qed.

Lemma take_written (b bs : list Z) off n : 0 <= off ->
  off + Z.of_nat (length bs) <= Z.of_nat n -> (n <= length b)%nat ->
  take n (written b bs off) = written (take n b) bs off.
Proof.
  intros H0 Hn Hb. apply list_eq. intros i. destruct (decide (i < n)%nat).
  - rewrite lookup_take_lt, !written_lookup by (rewrite ?length_take; lia).
    case_decide; [done|]. by rewrite lookup_take_lt.
  - rewrite lookup_take_ge by lia. symmetry. apply lookup_ge_None.
    rewrite length_written by (rewrite ?length_take; lia). rewrite length_take. lia.
Qed.

(** C23: a comparison with an operand that stands in the input: the first candidate
    of at most eight bytes holds, in either byte order, one of the operands
    recorded for it, which both fit in that many bytes. The solver answers SAT, and
    the output is the input with only those bytes replaced. The new bytes in the
    place of that operand make the comparison true exactly if any bytes do, the
    other operand being what it was: a comparison that can be solved on the side
    where the input was found is solved. *)
Theorem solve_icmp_direct c cm comp s skipped offset bs cands o1 o2 rhs rev :
  rgd.isRelationalKind comp = true ->
  i2s_candidates cm = skipped ++ (offset, Z.of_nat (length bs)) :: cands ->
  Forall (fun x => 8 < snd x) skipped ->
  atoi_info c !! u32 offset = None -> (1 <= length bs <= 8)%nat -> Forall (is_u 8) in_buf ->
  read_bytes in_buf offset (Z.of_nat (length bs)) = Ok bs ->
  op1 c = Some o1 -> op2 c = Some o2 ->
  let w := 8 * Z.of_nat (length bs) in
  is_u w o1 -> is_u w o2 -> matched o1 o2 bs = Some (rhs, rev) ->
  out_size s = 0 -> (length in_buf <= length (out_buf s))%nat ->
  exists s' bs', solve_icmp in_buf c cm comp s = (Ok SOLVER_SAT, s') /\
    length bs' = length bs /\ outcome s' (written in_buf bs' offset) /\
    (compare_with comp w rhs o1 o2 (as_word rev bs') = true <->
     exists x, is_u w x /\ compare_with comp w rhs o1 o2 x = true).
Proof.
  intros Hrel Hc Hskip Ha Hlen Hin Hread E1 E2 w U1 U2 Hm Hs Hcap.
  pose proof Hread as Hr. unfold read_bytes in Hr. case_match eqn:Eb; [|done]. bool_hyps.
  assert (Forall (is_u 8) bs) as Hbs.
  { injection Hr as <-. by apply Forall_take, Forall_drop. }
  destruct (icmp_value_direct c comp bs o1 o2 rhs rev Hrel Hlen Hbs E1 E2 U1 U2 Hm) as (r & Er & Hcmp).
  unfold solve_icmp. rewrite Hc, icmp_loop_skip by done. simpl icmp_loop.
  rewrite (proj2 (Z.ltb_ge 8 _)) by lia. rewrite Ha.
  unfold bind at 1, lift at 1. rewrite Hread.
  assert (patch_word 0 bs = bytes_word bs) as ->.
  { unfold patch_word. rewrite Z.shiftr_0_l, Z.shiftl_0_l. lia. }
  unfold bind at 1, lift at 1. rewrite Er. unfold bind at 1, modify at 1.
  destruct (copy_input_run (count_match s) Hs Hcap) as (b & Ec & Hb & Ht).
  erewrite bind_eq by exact Ec. unfold bind at 1, gets, id. cbn [out_buf set_out].
  unfold bind at 1, lift. rewrite Nat2Z.id.
  rewrite write_bytes_run by (rewrite ?length_word_bytes; simpl in Hb; unfold count_match in Hb; simpl in *; lia).
  eexists _, (word_bytes (length bs) r).
  split; [reflexivity|]. split; [apply length_word_bytes|]. split; [|exact Hcmp].
  simpl in Hb. split; simpl.
  - by rewrite length_written by (rewrite ?length_word_bytes; lia).
  - rewrite length_written by (rewrite ?length_word_bytes; lia).
    rewrite take_written by (rewrite ?length_word_bytes; lia). by rewrite Ht.
Qed.

End solver_spec.

(** ** Undoing an operation *)

(** [v op const_op], or [const_op op v] when the input is on the right. *)
Definition apply_op (kind : rgd.AstKind) (rhs : bool) (v const_op : Z) : res Z :=
  if rhs then _get_binop_value const_op v kind else _get_binop_value v const_op kind.

(** The cases in which an inverse is computed: not for a product that wraps around,
    a shift by the input, a division of the constant that traps, nor a signed
    remainder of a negative constant. *)
Definition inverse_tried (kind : rgd.AstKind) (rhs : bool) (r const_op : Z) : bool :=
  match kind with
  | rgd.Add | rgd.Sub | rgd.Xor | rgd.URem | rgd.And | rgd.Or => true
  | rgd.Mul => negb (const_op =? 0) && (r mod const_op =? 0)
  | rgd.UDiv => negb rhs || negb (r =? 0)
  | rgd.SDiv => negb rhs || sdiv_ok const_op r
  | rgd.SRem => negb rhs || (0 <=? s64 const_op) || (r =? 0)
  | rgd.Shl => negb rhs || (const_op =? 1)
  | rgd.LShr | rgd.AShr => negb rhs
  | _ => false
  end.

(** *** Divisions *)

Lemma div_back c v r : 0 <= c -> 0 < v -> c / v = r -> r <> 0 -> c / (c / r) = r /\ v <= c / r.
Proof.
  intros Hc Hv <- Hr. pose proof (Z.div_pos c v Hc Hv). set (r := c / v) in *.
  pose proof (Z.div_mod c v ltac:(lia)) as D1. pose proof (Z.mod_pos_bound c v Hv). fold r in D1.
  assert (v <= c / r) as Hle by (apply Z.div_le_lower_bound; nia). split; [|done].
  pose proof (Z.div_mod c r ltac:(lia)) as D2. pose proof (Z.mod_pos_bound c r ltac:(lia)).
  symmetry. apply (Z.div_unique _ _ _ (c - r * (c / r))); nia.
Qed.

Lemma quot_back c v r : v <> 0 -> Z.quot c v = r -> r <> 0 ->
  Z.quot c (Z.quot c r) = r /\ Z.quot c r <> 0.
Proof.
  assert (forall c v r, 0 <= c -> 0 < v -> Z.quot c v = r -> r <> 0 -> Z.quot c (Z.quot c r) = r /\ 0 < Z.quot c r)
    as Hpos.
  { intros c0 v0 r0 Hc Hv Hq Hr. rewrite Z.quot_div_nonneg in Hq by lia.
    pose proof (Z.div_pos c0 v0 Hc Hv). destruct (div_back c0 v0 r0 Hc Hv Hq Hr) as [E Hle].
    rewrite (Z.quot_div_nonneg c0 r0), Z.quot_div_nonneg by lia. split; [done|lia]. }
  assert (forall c v r, 0 <= c -> v <> 0 -> Z.quot c v = r -> r <> 0 ->
    Z.quot c (Z.quot c r) = r /\ Z.quot c r <> 0) as Hnn.
  { intros c0 v0 r0 Hc Hv Hq Hr. destruct (Z.lt_ge_cases v0 0).
    - destruct (Hpos c0 (- v0) (- r0) Hc ltac:(lia)) as [E1 E2]; [rewrite Z.quot_opp_r by lia; lia|lia|].
      rewrite Z.quot_opp_r in E1, E2 by lia. rewrite Z.quot_opp_r in E1 by lia. lia.
    - destruct (Hpos c0 v0 r0 Hc ltac:(lia) Hq Hr). split; [done|lia]. }
  intros Hv Hq Hr. destruct (Z.lt_ge_cases c 0).
  - destruct (Hnn (- c) v (- r) ltac:(lia) Hv) as [E1 E2]; [rewrite Z.quot_opp_l by lia; lia|lia|].
    rewrite Z.quot_opp_opp in E1, E2 by lia. rewrite Z.quot_opp_l in E1 by lia. lia.
  - by apply (Hnn c v r).
Qed.

Lemma quot_small a b : b <> 0 -> Z.abs (Z.quot a b) <= Z.abs a /\
  (2 <= Z.abs b -> 2 * Z.abs (Z.quot a b) <= Z.abs a).
Proof.
  intros Hb. rewrite <- Z.quot_abs, Z.quot_div_nonneg by lia. set (x := Z.abs a) in *. set (y := Z.abs b) in *.
  pose proof (Z.div_mod x y ltac:(lia)). pose proof (Z.mod_pos_bound x y ltac:(lia)).
  pose proof (Z.div_pos x y ltac:(lia) ltac:(lia)). split; nia.
Qed.

Section undo.
Context {L : Libm} (rhs : bool) (r co : Z) (Ur : is_u 64 r) (Uc : is_u 64 co).

(** Some operand gives [r]; the one that is computed does. *)
Definition invertible (kind : rgd.AstKind) : Prop := exists v, is_u 64 v /\ apply_op kind rhs v co = Ok r.
Definition undone (kind : rgd.AstKind) : Prop :=
  exists v, _get_binop_value_r r co kind rhs = Ok v /\ is_u 64 v /\ apply_op kind rhs v co = Ok r.

(** The words of signed numbers. *)
Lemma s64_u64 z : - 2 ^ 63 <= z < 2 ^ 63 -> s64 (u64 z) = z.
Proof. intros. by apply signed_wrap. Qed.
Lemma u64_is z : u64 z = r -> - 2 ^ 63 <= z < 2 ^ 63 -> z = s64 r.
Proof. intros <- Hz. by rewrite s64_u64. Qed.
Lemma u64_s64 : u64 (s64 r) = r.
Proof. by apply wrap_signed. Qed.
Lemma s64_bound x : is_u 64 x -> - 2 ^ 63 <= s64 x < 2 ^ 63.
Proof. intros Hx. pose proof (signed_bound 64 x ltac:(lia) Hx) as H. exact H. Qed.
Lemma s64_zero x : is_u 64 x -> s64 x = 0 -> x = 0.
Proof. intros Hx E. rewrite <- (wrap_signed 64 x) by done. by rewrite E. Qed.

Lemma sdiv_ok_iff a b : is_u 64 b -> sdiv_ok a b = true <-> s64 b <> 0 /\ ~ (s64 a = - 2 ^ 63 /\ s64 b = -1).
Proof.
  intros Hb. unfold sdiv_ok. rewrite andb_true_iff, !negb_true_iff, andb_false_iff, !Z.eqb_neq.
  split; intros [H1 H2]; split.
  - intros E. by apply H1, s64_zero.
  - tauto.
  - intros ->. by apply H1.
  - lia.
Qed.

(** A quotient that does not trap fits. *)
Lemma quot_range a b : is_u 64 a -> is_u 64 b -> sdiv_ok a b = true ->
  - 2 ^ 63 <= Z.quot (s64 a) (s64 b) < 2 ^ 63.
Proof.
  intros Ha Hb [H0 H1]%sdiv_ok_iff; [|done]. pose proof (s64_bound a Ha). pose proof (s64_bound b Hb).
  destruct (quot_small (s64 a) (s64 b) H0) as [Q1 Q2].
  destruct (decide (s64 b = 1)) as [->|]; [by rewrite Z.quot_1_r|].
  destruct (decide (s64 b = -1)) as [E|].
  - rewrite E in H1 |- *. change (-1) with (- (1)). rewrite Z.quot_opp_r, Z.quot_1_r by lia. lia.
  - lia.
Qed.

Lemma undo_linear kind : kind = rgd.Add \/ kind = rgd.Sub \/ kind = rgd.Xor -> undone kind.
Proof.
  assert (forall a, a = r -> Ok (u64 a) = Ok r) as Hr by (intros a ->; by rewrite wrap_small).
  intros [-> |[-> | ->]]; unfold undone, apply_op; simpl; eexists; (split; [done|]).
  - split; [by apply wrap_bound|].
    destruct rhs; rewrite ?wrap_add_l, ?wrap_add_r; apply Hr; lia.
  - split; [by destruct rhs; apply wrap_bound|].
    destruct rhs; rewrite ?wrap_sub_l, ?wrap_sub_r; apply Hr; lia.
  - split; [by apply lxor_bound|]. destruct rhs; f_equal; [rewrite Z.lxor_comm|];
      by rewrite Z.lxor_assoc, Z.lxor_nilpotent, Z.lxor_0_r.
Qed.

Lemma undo_mul : inverse_tried rgd.Mul rhs r co = true -> undone rgd.Mul.
Proof.
  simpl. intros [Hc%negb_true_iff Hm%Z.eqb_eq]%andb_true_iff. unfold undone, apply_op. simpl.
  rewrite Hc. apply Z.eqb_neq in Hc. unfold is_u in Uc. pose proof Ur as Ur'. unfold is_u in Ur'.
  pose proof (Z.div_mod r co Hc) as Hd. rewrite Hm in Hd. eexists. split; [done|]. split.
  - split; [apply Z.div_pos; lia|]. apply Z.le_lt_trans with r; [|lia].
    apply Z.div_le_upper_bound; nia.
  - destruct rhs; f_equal; rewrite wrap_small; try lia; unfold is_u; lia.
Qed.

Lemma undo_udiv : inverse_tried rgd.UDiv rhs r co = true -> invertible rgd.UDiv -> undone rgd.UDiv.
Proof.
  unfold invertible, undone, apply_op. simpl. pose proof Ur as Ur'. pose proof Uc as Uc'. unfold is_u in Ur', Uc'.
  destruct rhs; simpl.
  - intros Hr%negb_true_iff (v & Uv & [= E]). rewrite Hr. apply Z.eqb_neq in Hr. unfold is_u in Uv.
    destruct (Z.eqb_spec v 0); [lia|]. destruct (div_back co v r ltac:(lia) ltac:(lia) E Hr) as [E1 E2].
    eexists. split; [done|]. split.
    + split; [lia|]. apply Z.le_lt_trans with co; [|lia]. apply Z.div_le_upper_bound; nia.
    + by rewrite (proj2 (Z.eqb_neq _ _)), E1 by lia.
  - intros _ (v & Uv & [= E]). unfold is_u in Uv. eexists. split; [done|]. split; [by apply wrap_bound|].
    f_equal. destruct (Z.eqb_spec co 0); [done|]. pose proof (Z.mul_div_le v co ltac:(lia)).
    rewrite wrap_small by (unfold is_u; nia). apply Z.div_mul. lia.
Qed.

Lemma undo_sdiv : inverse_tried rgd.SDiv rhs r co = true -> invertible rgd.SDiv -> undone rgd.SDiv.
Proof.
  unfold invertible, undone, apply_op. simpl. pose proof (s64_bound r Ur) as Br. pose proof (s64_bound co Uc) as Bc.
  destruct rhs; simpl.
  - intros Hok (v & Uv & E). rewrite Hok. pose proof (quot_range co r Uc Ur Hok) as Hq.
    apply sdiv_ok_iff in Hok as [Hr0 Hr1]; [|done].
    destruct (Z.eqb_spec v 0) as [->|Hv]; [injection E as <-; done|].
    destruct (sdiv_ok co v) eqn:Ev; [|done]. injection E as E. apply u64_is in E; [|by apply quot_range].
    apply sdiv_ok_iff in Ev as [Ev0 _]; [|done].
    pose proof (quot_back _ _ _ Ev0 E Hr0) as [Eb Hn]. set (v1 := Z.quot (s64 co) (s64 r)) in *.
    eexists. split; [done|]. split; [by apply wrap_bound|].
    assert (sdiv_ok co (u64 v1) = true) as ->.
    { apply sdiv_ok_iff; [by apply wrap_bound|]. rewrite s64_u64 by done. split; [done|].
      intros [E1 E2]. rewrite E1, E2 in Eb. change (Z.quot (- 2 ^ 63) (-1)) with (2 ^ 63) in Eb. lia. }
    destruct (Z.eqb_spec (u64 v1) 0) as [E0|].
    + exfalso. apply Hn. rewrite <- (s64_u64 v1), E0 by done. done.
    + by rewrite s64_u64, Eb, u64_s64 by done.
  - intros _ (v & Uv & E). eexists. split; [done|]. split; [by apply wrap_bound|].
    destruct (Z.eqb_spec co 0) as [->|Hco]; [done|].
    destruct (sdiv_ok v co) eqn:Ev; [|done]. injection E as E. apply u64_is in E; [|by apply quot_range].
    apply sdiv_ok_iff in Ev as [Ev0 _]; [|done]. pose proof (s64_bound v Uv) as Bv.
    assert (- 2 ^ 63 <= s64 r * s64 co < 2 ^ 63) as Hp.
    { rewrite <- E, Z.mul_comm. destruct (Z.le_ge_cases 0 (s64 v)) as [H|H].
      - pose proof (Z.mul_quot_le _ (s64 co) H Ev0). lia.
      - pose proof (Z.mul_quot_ge _ (s64 co) H Ev0). lia. }
    assert (sdiv_ok (u64 (s64 r * s64 co)) co = true) as ->.
    { apply sdiv_ok_iff; [done|]. rewrite s64_u64 by done. split; [done|]. intros [E1 E2]. rewrite E2 in E1. lia. }
    by rewrite s64_u64, Z.quot_mul, u64_s64 by done.
Qed.

Lemma undo_urem : invertible rgd.URem -> undone rgd.URem.
Proof.
  unfold invertible, undone, apply_op. simpl. pose proof Ur as Ur'. pose proof Uc as Uc'. unfold is_u in Ur', Uc'.
  intros (v & Uv & E). unfold is_u in Uv. destruct rhs.
  - injection E as E. assert (r <= co /\ (r < co -> 2 * r < co) /\ (r = co -> co + 1 < 2 ^ 64)) as (H1 & H2 & H3).
    { destruct (Z.eqb_spec v 0); [lia|]. pose proof (Z.div_mod co v ltac:(lia)). pose proof (Z.mod_pos_bound co v ltac:(lia)).
      pose proof (Z.div_pos co v ltac:(lia) ltac:(lia)). rewrite E in *.
      assert (co / v = 0 \/ 1 <= co / v) as [D|D] by lia; [rewrite D in *; lia|]. split_and!; nia. }
    rewrite (proj2 (Z.ltb_ge co r)) by lia. destruct (Z.ltb_spec r co).
    + rewrite (wrap_small 64) by (unfold is_u; lia). eexists. split; [done|].
      split; [unfold is_u; lia|]. rewrite (proj2 (Z.eqb_neq _ _)) by lia. f_equal.
      symmetry. apply (Z.mod_unique _ _ 1); lia.
    + rewrite (wrap_small 64) by (unfold is_u; lia). eexists. split; [done|].
      split; [unfold is_u; lia|]. rewrite (proj2 (Z.eqb_neq _ _)) by lia. f_equal.
      replace r with co by lia. apply Z.mod_small. lia.
  - injection E as E. eexists. split; [done|]. split; [done|]. f_equal. destruct (Z.eqb_spec co 0); [done|].
    apply Z.mod_small. pose proof (Z.mod_pos_bound v co ltac:(lia)). lia.
Qed.

Lemma undo_srem : inverse_tried rgd.SRem rhs r co = true -> invertible rgd.SRem -> undone rgd.SRem.
Proof.
  unfold invertible, undone, apply_op. simpl. pose proof (s64_bound r Ur) as Br. pose proof (s64_bound co Uc) as Bc.
  assert (forall a b, is_u 64 a -> is_u 64 b -> s64 b <> 0 -> u64 (Z.rem (s64 a) (s64 b)) = r ->
    Z.rem (s64 a) (s64 b) = s64 r) as Hrem.
  { intros a b Ha Hb Hn E. apply u64_is; [done|]. pose proof (s64_bound a Ha). pose proof (s64_bound b Hb).
    pose proof (Z.rem_bound_abs (s64 a) (s64 b) Hn). lia. }
  destruct rhs; simpl.
  - intros Ht (v & Uv & E).
    destruct (Z.lt_ge_cases (s64 co) 0) as [Hneg|Hpos].
    { assert (r = 0) as -> by lia. change (s64 0) with 0. rewrite (proj2 (Z.ltb_lt _ _)) by lia. by exists 0. }
    set (C := s64 co) in *. set (R := s64 r) in *.
    assert (0 <= R <= C /\ (R < C -> 2 * R < C)) as [HR H2].
    { destruct (Z.eqb_spec v 0) as [->|Hv]; [injection E as <-; change R with 0; lia|].
      destruct (sdiv_ok co v) eqn:Ev; [|done]. injection E as E. apply sdiv_ok_iff in Ev as [Ev0 _]; [|done].
      apply Hrem in E; [|done..]. fold C R in E. pose proof (Z.quot_rem C (s64 v) Ev0) as D. rewrite E in D.
      pose proof (Z.rem_bound_abs C (s64 v) Ev0). pose proof (Z.rem_nonneg C (s64 v) Ev0 Hpos).
      pose proof (Z.mul_quot_le C (s64 v) Hpos Ev0). rewrite E in *.
      assert (Z.quot C (s64 v) = 0 \/ Z.quot C (s64 v) <> 0) as [Q|Q] by lia; [rewrite Q in D; lia|].
      assert (Z.abs (s64 v) <= Z.abs (s64 v * Z.quot C (s64 v))) by (rewrite Z.abs_mul; nia). lia. }
    rewrite (proj2 (Z.ltb_ge C R)) by lia. destruct (Z.ltb_spec R C).
    + eexists. split; [done|]. split; [by apply wrap_bound|].
      assert (s64 (u64 (C - R)) = C - R) as Es by (apply s64_u64; lia).
      destruct (Z.eqb_spec (u64 (C - R)) 0) as [E0|]; [exfalso; rewrite E0 in Es; change (s64 0) with 0 in Es; lia|].
      assert (sdiv_ok co (u64 (C - R)) = true) as ->.
      { apply sdiv_ok_iff; [by apply wrap_bound|]. rewrite Es. fold C. lia. }
      rewrite Es. fold C. rewrite Z.rem_mod_nonneg by lia. do 2 f_equal.
      rewrite <- (Z.mod_unique C (C - R) 1 R) by lia. apply u64_s64.
    + assert (R = C) as EC by lia. eexists. split; [done|]. split; [by apply wrap_bound|].
      assert (Z.rem C (s64 (u64 (C + 1))) = C /\ s64 (u64 (C + 1)) <> 0) as [Er Hn].
      { destruct (decide (C + 1 < 2 ^ 63)).
        - rewrite s64_u64 by lia. split; [apply Z.rem_small; lia|lia].
        - replace C with (2 ^ 63 - 1) by lia. by vm_compute. }
      destruct (Z.eqb_spec (u64 (C + 1)) 0) as [E0|]; [exfalso; by rewrite E0 in Hn|].
      assert (sdiv_ok co (u64 (C + 1)) = true) as ->.
      { apply sdiv_ok_iff; [by apply wrap_bound|]. split; [done|]. fold C. lia. }
      fold C. rewrite Er, <- EC. f_equal. apply u64_s64.
  - intros _ (v & Uv & E). eexists. split; [done|]. split; [done|].
    destruct (Z.eqb_spec co 0) as [->|Hco]; [done|].
    destruct (sdiv_ok v co) eqn:Ev; [|done]. injection E as E. apply sdiv_ok_iff in Ev as [Ev0 _]; [|done].
    apply Hrem in E; [|done..]. pose proof (Z.rem_bound_abs (s64 v) (s64 co) Ev0) as Hb. rewrite E in Hb.
    assert (sdiv_ok r co = true) as -> by (apply sdiv_ok_iff; [done|]; lia).
    rewrite <- E, Z.rem_rem by done. f_equal. rewrite E. apply u64_s64.
Qed.

Lemma undo_bits kind : kind = rgd.And \/ kind = rgd.Or -> invertible kind -> undone kind.
Proof.
  assert (forall v, Z.land (Z.land v co) co = Z.land v co) as Ha by (intros; by rewrite <- Z.land_assoc, Z.land_diag).
  assert (forall v, Z.lor (Z.lor v co) co = Z.lor v co) as Ho by (intros; by rewrite <- Z.lor_assoc, Z.lor_diag).
  intros [-> | ->] (v & _ & E); unfold undone, apply_op in *; simpl in *.
  - assert (Z.land r co = r) as Er by (destruct rhs; injection E as <-; rewrite ?(Z.land_comm co v); apply Ha).
    rewrite Er, Z.eqb_refl. eexists. split; [done|]. split; [done|].
    by destruct rhs; rewrite ?(Z.land_comm co r), Er.
  - assert (Z.lor r co = r) as Er by (destruct rhs; injection E as <-; rewrite ?(Z.lor_comm co v); apply Ho).
    rewrite Er, Z.eqb_refl. eexists. split; [done|]. split; [done|].
    by destruct rhs; rewrite ?(Z.lor_comm co r), Er.
Qed.

Lemma undo_shl : inverse_tried rgd.Shl rhs r co = true -> invertible rgd.Shl -> undone rgd.Shl.
Proof.
  unfold invertible, undone, apply_op. simpl. unfold shl64, shr64. destruct rhs; simpl.
  - intros ->%Z.eqb_eq (v & Uv & [= E]). simpl. pose proof (Z.mod_pos_bound v 64 ltac:(lia)) as Hm.
    rewrite Z.shiftl_1_l in E.
    rewrite wrap_small in E by (split; [apply Z.pow_nonneg; lia|apply Z.pow_lt_mono_r; lia]).
    assert (log2_u64 r = v mod 64) as -> by (rewrite <- E; by apply log2_pow2). eexists. split; [done|].
    rewrite (wrap_small 64 (v mod 64)) by (unfold is_u; lia). split; [unfold is_u; lia|].
    rewrite Zmod_mod, Z.shiftl_1_l, E. f_equal. by apply wrap_small.
  - intros _ (v & Uv & [= E]). pose proof (Z.mod_pos_bound co 64 ltac:(lia)) as Hm. set (k := co mod 64) in *.
    eexists. split; [done|]. split; [apply shiftr_bound; [lia|done]|]. f_equal.
    pose proof (pow2_pos k ltac:(lia)). rewrite Z.shiftr_div_pow2, Z.shiftl_mul_pow2 by lia.
    assert (r mod 2 ^ k = 0) as H0.
    { rewrite <- E. change (wrap k (wrap 64 (Z.shiftl v k)) = 0). rewrite wrap_wrap_le by lia.
      rewrite Z.shiftl_mul_pow2 by lia. unfold wrap. apply Z.mod_mul. lia. }
    pose proof (Z.div_mod r (2 ^ k) ltac:(lia)) as Hd. rewrite H0 in Hd.
    replace (r / 2 ^ k * 2 ^ k) with r by lia. by apply wrap_small.
Qed.

Lemma undo_lshr : inverse_tried rgd.LShr rhs r co = true -> invertible rgd.LShr -> undone rgd.LShr.
Proof.
  unfold invertible, undone, apply_op. simpl. intros ->%negb_true_iff (v & Uv & [= E]). unfold shr64, shl64 in *.
  pose proof (Z.mod_pos_bound co 64 ltac:(lia)) as Hm. set (k := co mod 64) in *. pose proof (pow2_pos k ltac:(lia)).
  rewrite Z.shiftr_div_pow2 in E by lia. pose proof (Z.mul_div_le v (2 ^ k) ltac:(lia)). unfold is_u in Uv.
  eexists. split; [done|]. split; [by apply wrap_bound|]. f_equal. rewrite Z.shiftl_mul_pow2 by lia.
  rewrite wrap_small by (unfold is_u in *; nia). rewrite Z.shiftr_div_pow2 by lia. apply Z.div_mul. lia.
Qed.

Lemma undo_ashr : inverse_tried rgd.AShr rhs r co = true -> invertible rgd.AShr -> undone rgd.AShr.
Proof.
  unfold invertible, undone, apply_op. simpl. intros ->%negb_true_iff (v & Uv & [= E]). unfold shl64.
  pose proof (Z.mod_pos_bound co 64 ltac:(lia)) as Hm. set (k := co mod 64) in *. pose proof (pow2_pos k ltac:(lia)) as Hp.
  pose proof (s64_bound v Uv) as Bv. pose proof (Z.mul_div_le (s64 v) (2 ^ k) ltac:(lia)) as D1.
  pose proof (Z.mul_succ_div_gt (s64 v) (2 ^ k) ltac:(lia)) as D2.
  assert (2 ^ 63 = 2 ^ k * 2 ^ (63 - k)) as H63 by (rewrite <- Z.pow_add_r by lia; f_equal; lia).
  pose proof (pow2_pos (63 - k) ltac:(lia)).
  rewrite Z.shiftr_div_pow2 in E by lia. set (q := s64 v / 2 ^ k) in *.
  assert (- 2 ^ (63 - k) <= q < 2 ^ (63 - k)) as Hq by nia.
  apply u64_is in E; [|nia]. rewrite <- E. eexists. split; [done|]. split; [by apply wrap_bound|]. f_equal.
  rewrite Z.shiftl_mul_pow2 by lia. rewrite s64_u64 by nia.
  rewrite Z.shiftr_div_pow2, Z.div_mul by lia. rewrite E. apply u64_s64.
Qed.

(** C24: the operand that [_get_binop_value_r] computes for a wanted result of an
    operation with a constant gives that result whenever any operand does, for
    every operation and both sides. Left out are the cases in which the code gives
    up: a constant that does not divide the result of a multiplication (only a
    product that wraps around could give it), an input on the right of a shift
    (but for [1 << v]), a division of the constant by a wanted result of zero or
    that overflows, and the signed remainder of a negative constant with a wanted
    result other than zero. *)
Theorem binop_undone kind : inverse_tried kind rhs r co = true ->
  (exists v, is_u 64 v /\ apply_op kind rhs v co = Ok r) ->
  exists v, _get_binop_value_r r co kind rhs = Ok v /\ is_u 64 v /\ apply_op kind rhs v co = Ok r.
Proof.
  destruct kind; try done; intros Ht Hi; first [apply undo_linear; tauto | by apply undo_mul
    | by apply undo_udiv | by apply undo_sdiv | by apply undo_urem | by apply undo_srem
    | (apply undo_bits; [tauto|done]) | by apply undo_shl | by apply undo_lshr | by apply undo_ashr].
Qed.

End undo.

(** ** Numbers in text *)

Lemma print_length base fuel n : 2 <= base -> forall v acc, 0 <= v < base ^ Z.of_nat n -> (0 < n)%nat ->
  (length (print_loop fuel base v acc) <= n + length acc)%nat.
Proof.
  intros Hb. revert n. induction fuel as [|fuel IH]; intros n v acc Hv Hn; simpl; [lia|].
  destruct (Z.eqb_spec (v / base) 0) as [E|E]; simpl; [lia|].
  destruct n as [|n]; [lia|]. rewrite Nat2Z.inj_succ, Z.pow_succ_r in Hv by lia.
  assert (0 <= v / base < base ^ Z.of_nat n) as Hq.
  { split; [apply Z.div_pos; lia|]. apply Z.div_lt_upper_bound; lia. }
  destruct n as [|n].
  - exfalso. apply E. simpl in Hq. lia.
  - specialize (IH (S n) (v / base) (digit_char (v mod base) :: acc) Hq ltac:(lia)). simpl in IH. lia.
Qed.

(** The bases whose text always fits the buffer of 64 characters. *)
Definition text_base (base : Z) : Prop := base = 8 \/ base = 10 \/ base = 16.

Lemma atoi_text_short base r sg : text_base base -> is_u 64 r ->
  exists text, atoi_text base r sg = Some text /\ (length text <= 23)%nat /\
    forall rest, no_digit rest -> strtoul (text ++ rest) base = r.
Proof.
  intros Hb Hr. assert (forall v, is_u 64 v -> (length (print_unsigned base v) <= 22)%nat) as Hlen.
  { intros v Hv. unfold print_unsigned. pose proof (print_length base 64 22) as Hl.
    specialize (Hl ltac:(destruct Hb as [|[|]]; lia) v []). cbn [length] in Hl. rewrite Nat.add_0_r in Hl.
    apply Hl; [|lia]. unfold is_u in Hv. split; [lia|]. apply Z.lt_le_trans with (2 ^ 64); [lia|].
    destruct Hb as [-> |[-> | ->]]; apply Z.leb_le; vm_compute; reflexivity. }
  assert (2 <= base <= 16) as Hb16 by (destruct Hb as [|[|]]; lia).
  destruct Hb as [-> |[-> | ->]].
  - exists (print_unsigned 8 r). split; [reflexivity|].
    split; [specialize (Hlen r Hr); lia|]. intros. by apply strtoul_print.
  - destruct sg.
    + exists (print_signed r). split; [reflexivity|]. split; [|intros; by apply strtoul_print_signed].
      unfold print_signed. pose proof (signed_bound 64 r ltac:(lia) Hr).
      destruct (Z.ltb_spec (s64 r) 0); cbn [length]; [|specialize (Hlen r Hr); lia].
      specialize (Hlen (- s64 r)). unfold is_u in Hlen. lia.
    + exists (print_unsigned 10 r). split; [reflexivity|].
      split; [specialize (Hlen r Hr); lia|]. intros. by apply strtoul_print.
  - exists (print_unsigned 16 r). split; [reflexivity|].
    split; [specialize (Hlen r Hr); lia|]. intros. by apply strtoul_print.
Qed.

Section atoi.
Context {L : Libm} (in_buf : list Z).

(** The text [text] in the place of [old_len] bytes. *)
Definition replaced (offset old_len : Z) (text : list Z) : list Z :=
  take (Z.to_nat offset) in_buf ++ text ++ drop (Z.to_nat (offset + old_len)) in_buf.

Lemma atoi_write_run offset old_len text s : out_size s = 0 -> 0 <= offset -> 0 <= old_len ->
  offset + old_len <= in_size in_buf -> (length in_buf + 64 <= length (out_buf s))%nat ->
  Z.of_nat (length (out_buf s)) < 2 ^ 63 -> (length text <= 63)%nat ->
  exists s', atoi_write in_buf offset old_len text s = (Ok tt, s') /\
    outcome s' (replaced offset old_len text).
Proof.
  unfold in_size. intros Hs H0 H1 Hin Hcap H63 Ht. unfold atoi_write, in_size.
  unfold bind at 1, gets, id. rewrite Hs. simpl.
  assert (read_bytes in_buf 0 offset = Ok (take (Z.to_nat offset) in_buf)) as Er.
  { unfold read_bytes. rewrite (proj2 (Z.leb_le 0 offset)), (proj2 (Z.leb_le (0 + offset) _)) by lia. done. }
  unfold bind at 1, lift at 1. rewrite Er.
  assert (length (take (Z.to_nat offset) in_buf) = Z.to_nat offset) as El by (rewrite length_take; lia).
  unfold bind at 1, lift at 1. rewrite write_bytes_run by lia. set (b1 := written _ _ _).
  assert (length b1 = length (out_buf s)) as L1 by (apply length_written; lia).
  unfold bind at 1, lift at 1, snprintf. simpl. rewrite take_ge by (change (Z.to_nat 63) with 63%nat; lia).
  assert (length (text ++ [0]) = S (length text)) as Lt by (rewrite length_app; simpl; lia).
  rewrite write_bytes_run by lia. set (b2 := written _ _ _).
  assert (length b2 = length (out_buf s)) as L2 by (unfold b2; rewrite length_written; lia).
  rewrite (wrap_small 64) by (unfold is_u; lia). set (rest := drop (Z.to_nat (offset + old_len)) in_buf).
  assert (Z.of_nat (length rest) = Z.of_nat (length in_buf) - offset - old_len) as Lr
    by (unfold rest; rewrite length_drop; lia).
  assert (read_bytes in_buf (offset + old_len) (Z.of_nat (length in_buf) - offset - old_len) = Ok rest) as Er2.
  { unfold read_bytes. rewrite (proj2 (Z.leb_le 0 _)), (proj2 (Z.leb_le 0 _)), (proj2 (Z.leb_le _ _)) by lia.
    simpl. f_equal. fold rest. apply take_ge. lia. }
  unfold bind at 1, lift at 1. rewrite Er2.
  unfold bind at 1, lift at 1. rewrite write_bytes_run by lia. unfold modify.
  eexists. split; [done|]. unfold outcome, replaced. cbn [out_size out_buf set_out]. fold rest.
  rewrite !length_app, El. split; [rewrite wrap_small; [lia|unfold is_u; lia]|].
  apply list_eq. intros i. destruct (decide (i < Z.to_nat offset + (length text + length rest))%nat) as [Hi|Hi].
  - rewrite lookup_take_lt, written_lookup by lia. case_decide as D1.
    + rewrite !lookup_app_r by (rewrite ?El; lia). f_equal. lia.
    + unfold b2. rewrite written_lookup by lia. case_decide as D2.
      * rewrite lookup_app_l by lia. rewrite lookup_app_r, lookup_app_l by (rewrite ?El; lia).
        f_equal. rewrite El. lia.
      * unfold b1. rewrite written_lookup by lia. rewrite decide_True by lia.
        rewrite lookup_app_l by lia. f_equal. lia.
  - rewrite lookup_take_ge by lia. symmetry. apply lookup_ge_None. rewrite !length_app, El. lia.
Qed.

(** The operand that a number in text is, the left one first. *)
Definition text_side (o1 o2 u : Z) : option bool :=
  if o1 =? u then Some false else if o2 =? u then Some true else None.

(** C25: a number in text that is an operand of a comparison, in base 8, 10 or 16,
    at the first candidate of at most eight bytes, with no digit behind it. The
    solver answers SAT, and the output is the input with a new text in the place of
    the old one: what stands before it stays and what follows it moves. The number
    that [strtoul] reads back there makes the comparison true exactly if any
    64-bit number does, the other operand being what it was. *)
Theorem solve_icmp_atoi c cm comp s skipped offset bytes cands len base old o1 o2 rhs :
  rgd.isRelationalKind comp = true ->
  i2s_candidates cm = skipped ++ (offset, bytes) :: cands -> Forall (fun x => 8 < snd x) skipped ->
  bytes <= 8 -> text_base base ->
  let old_len := Z.of_nat (length old) in
  let rest := drop (Z.to_nat (offset + old_len)) in_buf in
  atoi_info c !! u32 offset = Some (len, base, old_len) -> old <> [] ->
  read_bytes in_buf offset old_len = Ok old -> no_digit rest ->
  op1 c = Some o1 -> op2 c = Some o2 -> is_u 64 o1 -> is_u 64 o2 ->
  text_side o1 o2 (strtoul old base) = Some rhs ->
  out_size s = 0 -> (length in_buf + 64 <= length (out_buf s))%nat ->
  Z.of_nat (length (out_buf s)) < 2 ^ 63 ->
  exists s' text, solve_icmp in_buf c cm comp s = (Ok SOLVER_SAT, s') /\
    outcome s' (take (Z.to_nat offset) in_buf ++ text ++ rest) /\
    (compare_with comp 64 rhs o1 o2 (strtoul (text ++ rest) base) = true <->
     exists x, is_u 64 x /\ compare_with comp 64 rhs o1 o2 x = true).
Proof.
  intros Hrel Hc Hskip H8 Hbase old_len rest Ha Hne Hread Hrest E1 E2 U1 U2 Hm Hs Hcap H63.
  pose proof Hread as Hr. unfold read_bytes in Hr. case_match eqn:Eb; [|done]. clear Hr. bool_hyps.
  assert (0 < old_len) as Hpos by (unfold old_len; destruct old; [done|simpl; lia]).
  unfold solve_icmp. rewrite Hc, icmp_loop_skip by done. simpl icmp_loop.
  rewrite (proj2 (Z.ltb_ge 8 _)) by lia. rewrite Ha.
  unfold bind at 1, lift at 1, atoi_number. rewrite (proj2 (Z.ltb_lt 0 _)), Hread by lia.
  unfold bind at 1, lift at 1. rewrite E1. unfold bind at 1, lift at 1. rewrite E2. cbn [idx].
  set (u := strtoul old base) in *. set (r := get_i2s_value comp (operand (negb rhs) o1 o2) rhs).
  assert ((if o1 =? u then Some (get_i2s_value comp o2 false)
     else if o2 =? u then Some (get_i2s_value comp o1 true) else None) = Some r) as ->.
  { unfold text_side in Hm. unfold r. by repeat (case_match; simplify_eq/=). }
  assert (is_u 64 r) as Ur by (apply i2s_value_u64; by destruct rhs).
  unfold bind at 1, modify at 1.
  destruct (atoi_text_short base r (bool_decide (old !! 0%nat = Some 45)) Hbase Ur)
    as (text & -> & Hlt & Hback).
  destruct (atoi_write_run offset old_len text (count_match s)) as (s' & Ew & Hout);
    [done|lia|lia|unfold in_size; lia|done|done|lia|].
  erewrite bind_eq by exact Ew. exists s', text. split; [done|]. split; [exact Hout|].
  rewrite Hback by done. rewrite <- (wrap_small 64 r Ur). by apply target_solves.
Qed.

End atoi.

(** ** [memcmp] with a constant *)

Lemma written_cons (b bs : list Z) x o : 0 <= o ->
  o + Z.of_nat (length (x :: bs)) <= Z.of_nat (length b) ->
  written (written b [x] o) bs (o + 1) = written b (x :: bs) o.
Proof.
  intros H0 Hl. simpl length in Hl. apply list_eq. intros i.
  assert (length (written b [x] o) = length b) as L1 by (apply length_written; simpl; lia).
  rewrite !written_lookup by (simpl length; lia). simpl length.
  destruct (decide (o + 1 <= Z.of_nat i < o + 1 + Z.of_nat (length bs))).
  - rewrite decide_True by lia. destruct (i - Z.to_nat o)%nat eqn:E; [lia|]. simpl. f_equal. lia.
  - destruct (decide (Z.of_nat i = o)).
    + rewrite !decide_True by lia. replace (i - Z.to_nat o)%nat with 0%nat by lia. done.
    + rewrite !decide_False by lia. done.
Qed.

(** Byte [k] of a word made of bytes. *)
Lemma word_byte bs k x : Forall (is_u 8) bs -> bs !! k = Some x ->
  Z.land (Z.shiftr (bytes_word bs) (8 * Z.of_nat k)) 0xff = x.
Proof.
  intros Hb Hk. rewrite <- (word_bytes_of bs Hb) in Hk. pose proof (lookup_lt_Some _ _ _ Hk) as Hlt.
  rewrite length_word_bytes in Hlt. rewrite word_bytes_lookup in Hk by done. injection Hk as <-.
  change 0xff with (Z.ones 8). by rewrite Z.land_ones by lia.
Qed.

Section memcmp.
Context {L : Libm} (infos : gmap Z dfsan_label_info) (in_buf : list Z).

(** The constant: eight bytes in each argument from number [ci] on. *)
Definition constant_at (c : Constraint) (ci : nat) (target : list Z) : Prop :=
  forall j, (8 * j < length target)%nat ->
    input_args c !! (ci + j)%nat = Some (false, bytes_word (take 8 (drop (8 * j) target))).

Lemma fill_loop_run c ci target offset : Forall (is_u 8) target -> 0 <= offset ->
  constant_at c ci target -> forall n p v b, (p + n = length target)%nat ->
  offset + Z.of_nat (length target) <= Z.of_nat (length b) ->
  ((p mod 8 <> 0)%nat -> v = bytes_word (take 8 (drop (8 * (p / 8)) target))) ->
  fill_loop (fun v => Ok v) c (offset + Z.of_nat p) n (8 * Z.of_nat (p mod 8)) (ci + p / 8) v b =
    Ok (written b (drop p target) (offset + Z.of_nat p)).
Proof.
  intros Ht Hoff Hc. induction n as [|n IH]; intros p v b Hp Hb Hv; cbn [fill_loop].
  { rewrite drop_ge by lia. unfold written. simpl. f_equal. rewrite Nat.add_0_r.
    symmetry. apply take_drop. }
  pose proof (Nat.div_mod p 8 ltac:(lia)) as Hdm. pose proof (Nat.mod_upper_bound p 8 ltac:(lia)) as Hm8.
  set (W := bytes_word (take 8 (drop (8 * (p / 8)) target))) in *.
  assert ((if 8 * Z.of_nat (p mod 8) =? 0
           then match idx (input_args c !! (ci + p / 8)%nat) with Ok arg => Ok (snd arg) | Err e => Err e end
           else Ok v) = Ok W) as ->.
  { destruct (Z.eqb_spec (8 * Z.of_nat (p mod 8)) 0); [|by rewrite Hv by lia].
    by rewrite Hc by lia. }
  destruct (lookup_lt_is_Some_2 target p) as [x Hx]; [lia|].
  assert (Z.land (Z.shiftr W (8 * Z.of_nat (p mod 8))) 0xff = x) as ->.
  { apply word_byte; [by apply Forall_take, Forall_drop|].
    rewrite lookup_take_lt, lookup_drop by lia. rewrite <- Hx. f_equal. lia. }
  pose proof (Forall_lookup_1 _ _ _ _ Ht Hx) as Ux. simpl in Ux. rewrite (wrap_small 8) by done.
  rewrite write_bytes_run by (simpl length; lia).
  assert (drop p target = x :: drop (S p) target) as Ed by (by apply drop_S).
  rewrite Ed. rewrite <- (written_cons b (drop (S p) target) x) by (simpl length; rewrite ?length_drop; lia).
  assert (length (written b [x] (offset + Z.of_nat p)) = length b) as L1
    by (apply length_written; simpl; lia).
  replace (offset + Z.of_nat p + 1) with (offset + Z.of_nat (S p)) by lia.
  destruct (Z.eqb_spec (8 * Z.of_nat (p mod 8) + 8) 64) as [E64|N64].
  - assert (S p = 8 * S (p / 8))%nat as E8 by lia.
    assert (S p / 8 = S (p / 8) /\ S p mod 8 = 0)%nat as [D M]
      by (rewrite E8, Nat.mul_comm, Nat.div_mul, Nat.Div0.mod_mul; lia).
    specialize (IH (S p) W (written b [x] (offset + Z.of_nat p)) ltac:(lia) ltac:(lia)).
    rewrite D, M in IH. rewrite Nat.add_succ_r in IH. change (8 * Z.of_nat 0) with 0 in IH. apply IH. done.
  - assert (S p / 8 = p / 8 /\ S p mod 8 = S (p mod 8))%nat as [D M].
    { split; symmetry; [apply (Nat.div_unique _ _ _ (S (p mod 8)))|apply (Nat.mod_unique _ _ (p / 8))]; lia. }
    specialize (IH (S p) W (written b [x] (offset + Z.of_nat p)) ltac:(lia) ltac:(lia)).
    rewrite D, M in IH. replace (8 * Z.of_nat (p mod 8) + 8) with (8 * Z.of_nat (S (p mod 8))) by lia.
    apply IH. done.
Qed.

(** C26: [memcmp] of a constant with a run of input bytes is always solved: the
    solver answers SAT, and the output is the input with the constant written over
    those bytes, however long it is. *)
Theorem solve_memcmp_direct c cm s offset target nr :
  (first_const (input_args c) < length (input_args c))%nat ->
  constant_at c (first_const (input_args c)) target -> Forall (is_u 8) target ->
  i2s_candidates cm = [(offset, Z.of_nat (length target))] ->
  length (local_map c) = length target ->
  child_node (ast c) (a_root (ast c)) true = Ok nr -> kind nr = rgd.Read ->
  0 <= offset -> offset + Z.of_nat (length target) <= Z.of_nat (length in_buf) ->
  out_size s = 0 -> (length in_buf <= length (out_buf s))%nat ->
  exists s', solve_memcmp infos in_buf c cm s = (Ok SOLVER_SAT, s') /\
    outcome s' (written in_buf target offset).
Proof.
  intros Hfc Hconst Ht Hcand Hlm Hnr Hk H0 Hin Hs Hcap. unfold solve_memcmp.
  rewrite (proj2 (Nat.eqb_neq _ _)) by lia. rewrite Hcand, Hlm, Z.eqb_refl. change (negb true) with false. cbv iota.
  destruct (copy_input_run in_buf s Hs Hcap) as (b & Ec & Hb & Htk).
  erewrite bind_eq by exact Ec. unfold bind at 1, lift at 1. rewrite Hnr, bool_decide_eq_true_2 by done.
  unfold bind at 1, ret at 1, bind at 1, gets, id. cbn [out_buf set_out].
  unfold bind at 1, lift at 1. rewrite Nat2Z.id.
  pose proof (fill_loop_run c _ target offset Ht H0 Hconst (length target) 0 0 b eq_refl ltac:(lia)
    ltac:(done)) as Hfill.
  simpl in Hfill. rewrite Nat.add_0_r, Z.add_0_r in Hfill. change (8 * Z.of_nat 0) with 0 in Hfill. rewrite drop_0 in Hfill. rewrite Hfill.
  eexists. split; [reflexivity|]. unfold outcome. cbn [out_size out_buf set_out].
  rewrite length_written by lia. split; [done|]. rewrite take_written by lia. by rewrite Htk.
Qed.

End memcmp.

(** ** The same idea in the gradient search *)

(** Strict orders. *)
Definition strict (comp : rgd.AstKind) : bool :=
  match comp with rgd.Ult | rgd.Ugt | rgd.Slt | rgd.Sgt => true | _ => false end.

Lemma strict_asym comp a b : strict comp = true ->
  rgd.compare comp 64 a b = true -> rgd.compare comp 64 b a = false.
Proof. destruct comp; try done; simpl; intros _; bool_hyps; lia. Qed.

(** [try_i2s] of the gradient search takes the sides of a comparison the
    other way round than the input-to-state solver: for a strict order, the value
    it proposes for an operand that is in the input leaves the comparison false
    (unless the value wraps around), so it is never taken. *)
Theorem gd_strict_match_misses comp o1 o2 inp v :
  strict comp = true -> is_u 64 o1 -> is_u 64 o2 ->
  (exists x, is_u 64 x /\ rgd.compare comp 64 o2 x = true) ->
  (exists x, is_u 64 x /\ rgd.compare comp 64 x o1 = true) ->
  i2s_match comp (o1, o2) inp = Some v ->
  (inp = o1 -> get_distance comp v o2 <> 0) /\ (inp <> o1 -> get_distance comp o1 v <> 0).
Proof.
  intros Hst U1 U2 H2 H1 Hm. assert (rgd.isRelationalKind comp = true) as Hrel by (by destruct comp).
  unfold i2s_match in Hm. simpl in Hm. destruct (Z.eqb_spec inp o1) as [->|Hne].
  - injection Hm as <-. split; [|done]. intros _ Hz.
    pose proof (i2s_value_u64 comp o2 true U2) as Uv.
    apply get_distance_zero in Hz; [|done..].
    pose proof (i2s_value_right comp 64 o2 ltac:(lia) U2 Hrel H2) as Hr. rewrite wrap_small in Hr by done.
    apply strict_asym in Hr; [congruence|done].
  - destruct (Z.eqb_spec inp o2) as [->|]; [|done]. injection Hm as <-. split; [done|]. intros _ Hz.
    pose proof (i2s_value_u64 comp o1 false U1) as Uv.
    apply get_distance_zero in Hz; [|done..].
    pose proof (i2s_value_left comp 64 o1 ltac:(lia) U1 Hrel H1) as Hr. rewrite wrap_small in Hr by done.
    apply strict_asym in Hr; [congruence|done].
Qed.

(** ** Sample inputs *)

#[local] Instance exact_log2 : Libm.
Proof. refine {| log2_u64 := Z.log2 |}. intros n Hn. apply Z.log2_pow2. lia. Defined.

(** The comparison of the two input bytes at offset 1 with 513. *)
Definition word_cons : Constraint :=
  mk_cons (new_ast 0) [] [] ∅ ∅ ∅ ∅ 0 (Some 0x0403) (Some 513).
(** A longer candidate comes first. *)
Definition word_meta : ConsMeta := mk_meta [] rgd.Equal [(0, 16); (1, 2)].
Definition blank (n : nat) : i2s := mk_i2s 0 0 (replicate n 0) 0.

Lemma solve_icmp_direct_witness : exists s' bs',
  solve_icmp [9; 3; 4] word_cons word_meta rgd.Ugt (blank 3) = (Ok SOLVER_SAT, s') /\
  length bs' = 2%nat /\ outcome s' (written [9; 3; 4] bs' 1) /\
  (compare_with rgd.Ugt 16 false 0x0403 513 (as_word false bs') = true <->
   exists x, is_u 16 x /\ compare_with rgd.Ugt 16 false 0x0403 513 x = true).
Proof.
  apply (solve_icmp_direct [9; 3; 4] word_cons word_meta rgd.Ugt (blank 3) [(0, 16)] 1 [3; 4] [] 0x0403 513
    false false); try reflexivity.
  - by repeat constructor.
  - simpl. lia.
  - by repeat constructor.
  - done.
  - done.
Defined.

(** [v / -3 = 7]; the other operands are -21 and -22. *)
Lemma binop_undone_witness : exists v,
  _get_binop_value_r 7 (2 ^ 64 - 3) rgd.SDiv false = Ok v /\ is_u 64 v /\
  apply_op rgd.SDiv false v (2 ^ 64 - 3) = Ok 7.
Proof. apply (binop_undone false 7 (2 ^ 64 - 3)); [done..|]. by exists (2 ^ 64 - 22). Defined.

(** The text 42 at offset 1, of which [strtoul] makes a number that is compared
    with 5. *)
Definition text_cons : Constraint :=
  mk_cons (new_ast 0) [] [] ∅ ∅ {[1 := (4, 10, 2)]} ∅ 0 (Some 42) (Some 5).

Lemma solve_icmp_atoi_witness : exists s' text,
  solve_icmp [9; 52; 50; 0] text_cons word_meta rgd.Ult (blank 80) = (Ok SOLVER_SAT, s') /\
  outcome s' ([9] ++ text ++ [0]) /\
  (compare_with rgd.Ult 64 false 42 5 (strtoul (text ++ [0]) 10) = true <->
   exists x, is_u 64 x /\ compare_with rgd.Ult 64 false 42 5 x = true).
Proof.
  apply (solve_icmp_atoi [9; 52; 50; 0] text_cons word_meta rgd.Ult (blank 80) [(0, 16)] 1 2 [] 4 10 [52; 50]
    42 5 false); try reflexivity.
  - by repeat constructor.
  - lia.
  - right. by left.
  - done.
  - done.
  - done.
  - simpl. lia.
Defined.

(** The node of a [memcmp] of the constant 1, 2, 3 with the input. *)
Definition bytes_ast : Ast :=
  let leaf k := mk_node 0 0 k 24 0 0 0 0 in
  mk_ast (mk_node 1 2 rgd.Memcmp 24 0 0 0 0) [fresh_node; leaf rgd.Constant; leaf rgd.Read] 3.
Definition bytes_cons : Constraint :=
  mk_cons bytes_ast [(1, 0); (2, 1); (3, 2)] [(true, 0); (true, 0); (true, 0); (false, 0x030201)]
    ∅ ∅ ∅ ∅ 1 None None.

Lemma solve_memcmp_direct_witness : exists s',
  solve_memcmp ∅ [9; 0; 0; 0; 8] bytes_cons (mk_meta [] rgd.Memcmp [(1, 3)]) (blank 5) = (Ok SOLVER_SAT, s') /\
  outcome s' [9; 1; 2; 3; 8].
Proof.
  apply (solve_memcmp_direct ∅ [9; 0; 0; 0; 8] bytes_cons (mk_meta [] rgd.Memcmp [(1, 3)]) (blank 5) 1
    [1; 2; 3] (mk_node 0 0 rgd.Read 24 0 0 0 0)); try reflexivity; try (simpl; lia).
  - intros j Hj. simpl in Hj. assert (j = 0%nat) as -> by lia. reflexivity.
  - by repeat constructor.
Defined.

Lemma gd_strict_match_misses_witness :
  get_distance rgd.Ult (get_i2s_value rgd.Ult 7 true) 7 <> 0.
Proof.
  apply (gd_strict_match_misses rgd.Ult 3 7 3 (get_i2s_value rgd.Ult 7 true)); try reflexivity.
  - done.
  - done.
  - by exists 8.
  - by exists 2.
Defined.
