(* ===== verification/JitSolver.v ===== *)
(** * The JIT solver: [solvers/jit-solver.cpp]

    A task is solved by compiling its constraints, or by reusing functions that
    were compiled for equal trees, and searching. *)

From Stdlib Require Import SpecFloat.
From S2P Require Import Prelude Ast Task LProbe Jit Gd Cstr I2S.
Local Open Scope prog_scope.

(** ** The cache of functions *)

(** [myHash]: entries are pairs of a tree and a function, named by the number of
    its module. A tree has fewer levels than nodes. *)
#[global] Instance myHash : Table.HashStruct (Ast * Z) Ast := {|
  Table.getKey := fst;
  Table.hs_hash := fun a => hash (a_root a);
  Table.hs_cmp := fun v b =>
    let? e := isEqualAst (S (length (a_vec v))) v Root b Root in Ok (if e : bool then 0 else -1);
  Table.replaceQ := fun _ _ => false;
  Table.hs_update := fun v _ => v
|}.

(** [fCache(8000016, myHash(), 1.3)]; 1.3 is [10905190 * 2^-23] as a [float]. *)
Definition new_fCache : Table.Table (Ast * Z) :=
  Table.new_table 8000016 (S754_finite false 10905190 (-23)).

(** What the machine code that LLVM makes of a function leaves in slots 0 and 1. *)
Class NativeCode := native : list (Z * Value) -> list Z -> Z * Z.

(** ** The solver *)

Record jit := mk_jit {
  fCache : Table.Table (Ast * Z);
  uuid : Z;
  cache_hits : Z;
  cache_misses : Z;
  num_solved : Z;
  num_timeout : Z;
  jit_modules : gmap Z (list (Z * Value));   (* modules added to the JIT *)
  fns : gmap Z Z;                            (* c->fn of the constraint at an address *)
  tasks : gmap Z SearchTask;                 (* the task at an address *)
  jit_buf : list Z;                          (* out_buf *)
  jit_size : Z                               (* out_size *)
}.

Definition set_task (i : Z) (t : SearchTask) (s : jit) : jit :=
  mk_jit (fCache s) (uuid s) (cache_hits s) (cache_misses s) (num_solved s) (num_timeout s)
    (jit_modules s) (fns s) (<[i := t]> (tasks s)) (jit_buf s) (jit_size s).
Definition set_jit_out (b : list Z) (n : Z) (s : jit) : jit :=
  mk_jit (fCache s) (uuid s) (cache_hits s) (cache_misses s) (num_solved s) (num_timeout s)
    (jit_modules s) (fns s) (tasks s) b n.
Definition count_result (solved : bool) (s : jit) : jit :=
  mk_jit (fCache s) (uuid s) (cache_hits s) (cache_misses s)
    (if solved then u64 (num_solved s + 1) else num_solved s)
    (if solved then num_timeout s else u64 (num_timeout s + 1))
    (jit_modules s) (fns s) (tasks s) (jit_buf s) (jit_size s).
(** A cache hit, and a miss that was compiled. *)
Definition reuse_fn (c : Z) (id : Z) (s : jit) : jit :=
  mk_jit (fCache s) (uuid s) (u64 (cache_hits s + 1)) (cache_misses s) (num_solved s) (num_timeout s)
    (jit_modules s) (<[c := id]> (fns s)) (tasks s) (jit_buf s) (jit_size s).
Definition count_miss (s : jit) : jit :=
  mk_jit (fCache s) (u64 (uuid s + 1)) (cache_hits s) (u64 (cache_misses s + 1)) (num_solved s)
    (num_timeout s) (jit_modules s) (fns s) (tasks s) (jit_buf s) (jit_size s).
Definition add_fn (c : Z) (cache : Table.Table (Ast * Z)) (f : list (Z * Value)) (s : jit) : jit :=
  mk_jit cache (uuid s) (cache_hits s) (cache_misses s) (num_solved s) (num_timeout s)
    (<[uuid s := f]> (jit_modules s)) (<[c := uuid s]> (fns s)) (tasks s) (jit_buf s) (jit_size s).

Section solver.
Context {U : Unspecified} {NC : NativeCode}.
Context (in_buf : list Z).

Definition get_task (i : Z) : M jit SearchTask := fun s => (idx (tasks s !! i), s).

(** [memcpy(out_buf, in_buf, in_size)] and the bytes of a solution over it. *)
Fixpoint write_solution (l : list (Z * Z)) (b : list Z) : res (list Z) :=
  match l with
  | [] => Ok b
  | (offset, value) :: l' => let? b := write_bytes b offset [value] in write_solution l' b
  end.

Definition output (sol : option (gmap Z Z)) : M jit unit :=
  let! b := gets jit_buf in
  let! b := lift (write_bytes b 0 in_buf) in
  let! b := lift (match sol with
                  | Some sol => write_solution (map_to_list sol) b
                  | None => Ok b
                  end) in
  modify (set_jit_out b (Z.of_nat (length in_buf))).

(** The tasks that this one extends: one that says so ends the search, a solved
    one is a hint. The chain is acyclic, so the number of tasks is fuel enough. *)
Fixpoint base_loop (fuel : nat) (tid : Z) (base : option Z) : M jit (option solver_result_t) :=
  match base with
  | None => ret None
  | Some b =>
      match fuel with
      | O => throw NoFuel
      | S fuel' =>
          let! bt := get_task b in
          let! t := get_task tid in
          if skip_next bt then
            modify (set_task tid (mk_task (constraints_ t) (comparisons_ t) (consmetas_ t) (inputs_ t)
              (shapes_ t) (atoi_info_ t) (max_const_num_ t) (cmap_ t) (scratch_args t) (stopped t)
              (attempts t) (solved t) (solution t) (base_task t) true)) ;;;
            if solved bt then output (Some (solution bt)) ;;; ret (Some SOLVER_SAT)
            else output None ;;; ret (Some SOLVER_UNSAT)
          else
            (if solved bt then
               let! direct := gets (fun s => b ← base_task t; tasks s !! b) in
               modify (set_task tid (load_hint direct t))
             else ret tt) ;;;
            base_loop fuel' tid (base_task bt)
      end
  end.

(** One constraint, at address [addr]: the function it has, one for an equal
    tree, or a new one. [false] is an error. *)
Definition compile_one (addr : Z) (c : Constraint) : M jit bool :=
  let! s := gets id in
  match fns s !! addr with
  | Some _ => ret true
  | None =>
      let! r := lift (Table.find (ast c) (fCache s)) in
      match r with
      | Some (_, id) => modify (reuse_fn addr id) ;;; ret true
      | None =>
          modify count_miss ;;;
          let! f := lift (addFunction (ast c) (local_map c)) in
          match f with
          | None => ret false
          | Some f =>
              let! s := gets id in
              let! (_, cache) := lift (Table.insert (ast c, uuid s) (fCache s)) in
              modify (add_fn addr cache f) ;;; ret true
          end
      end
  end.

Fixpoint compile_loop (cs : list (Z * Constraint)) : M jit bool :=
  match cs with
  | [] => ret true
  | (addr, c) :: cs' =>
      let! ok := compile_one addr c in
      if ok : bool then compile_loop cs' else ret false
  end.

(** The code that the constraints of a task run. *)
Definition task_code (addrs : list Z) (s : jit) : MachineCode := fun k l =>
  match (addr ← addrs !! k; id ← fns s !! addr; jit_modules s !! id) with
  | Some f => native f l
  | None => (0, 0)
  end.

(** ** Numbers in text *)

(** [b << k] on an [int], converted to [uint64_t]; the x86-64 instruction takes
    the count modulo 32. *)
Definition int_shl (b k : Z) : Z := u64 (signed 32 (u32 (Z.shiftl b (k mod 32)))).

(** The value of the [i] bytes of the solution from [offset] on. *)
Fixpoint atoi_value (sol : gmap Z Z) (offset : Z) (i : nat) (val : Z) : res Z :=
  match i with
  | O => Ok val
  | S i' =>
      match sol !! (offset + Z.of_nat i') with
      | Some b => atoi_value sol offset i' (Z.lor val (int_shl b (8 * Z.of_nat i')))
      | None => Err AssertFailure
      end
  end.

(** [snprintf] of a number with the format of its base. *)
Definition print_number (offset base val : Z) (b : list Z) : res (list Z) :=
  let text := if base =? 2 then Some (print_unsigned 2 val)
              else if base =? 8 then Some (print_unsigned 8 val)
              else if base =? 10 then Some (print_signed val)
              else if base =? 16 then Some (print_unsigned 16 val)
              else None in
  match text with
  | Some text =>
      let? (_, b) := snprintf b offset (u64 (Z.of_nat (length in_buf) - offset)) text in Ok b
  | None => Ok b
  end.

Fixpoint atoi_output (sol : gmap Z Z) (l : list (Z * (Z * Z * Z))) (b : list Z) : res (list Z) :=
  match l with
  | [] => Ok b
  | (offset, (len, base, _)) :: l' =>
      let? old := read_bytes in_buf offset len in
      let? b := write_bytes b offset old in
      let? val := atoi_value sol offset (Z.to_nat len) 0 in
      let? b := print_number offset base val b in
      atoi_output sol l' b
  end.

(** ** [solve] *)

(** Task [tid], whose constraints are at the addresses [addrs]; the other
    arguments are what the arrays of the search hold. *)
Definition jit_solve (tid : Z) (addrs : list Z) (scratch0 dist min_dist plus_dist minus_dist : list Z)
    (seed : nat) : M jit solver_result_t :=
  let! t := get_task tid in
  let! n := gets (fun s => size (tasks s)) in
  let! r := base_loop n tid (base_task t) in
  match r with
  | Some r => ret r
  | None =>
      let! t := get_task tid in
      let! ok := compile_loop (zip addrs (constraints_ t)) in
      if negb ok then ret SOLVER_ERROR
      else
        let! code := gets (task_code addrs) in
        let '(r, t') := gd_entry (MC := code) t scratch0 dist min_dist plus_dist minus_dist seed in
        modify (set_task tid t') ;;;
        let! solved := lift r in
        if solved : bool then
          output (Some (solution t')) ;;;
          let! b := gets jit_buf in
          let! b := lift (atoi_output (solution t') (map_to_list (atoi_info_ t')) b) in
          modify (set_jit_out b (Z.of_nat (length in_buf))) ;;;
          modify (count_result true) ;;;
          ret SOLVER_SAT
        else modify (count_result false) ;;; ret SOLVER_TIMEOUT
  end.

End solver.
