(* ===== verification/CacheSpec.v ===== *)
(** * The cache of compiled functions: what its keys tell apart

    [myHash] compares trees with [isEqualAst], which looks at shapes, sizes,
    kinds and hashes. On the trees of parsed comparisons that is an equivalence
    which agrees with the hash of the table, so the cache is a map; and trees
    that compare as equal compile to the same function, if no operand repeats a
    label and nothing is extracted above bit 0. *)

From S2P Require Import Prelude Dfsan Runtime LabelSem Ast Task TaskSpec Parser ScanSpec ConsSpec UtaSpec LProbe Jit JitSpec Gd GdSpec SolveSpec Cstr I2S JitSolver.
Local Open Scope prog_scope.

(** ** [xxhash] keeps its third argument apart *)

Section xxhash.

(** One-to-one on 32-bit words. *)
Definition one_to_one (f : Z -> Z) : Prop :=
  forall x y, is_u 32 x -> is_u 32 y -> f x = f y -> x = y.

Lemma mul_one_to_one k q : (k * q) mod 2 ^ 32 = 1 -> one_to_one (fun x => u32 (x * k)).
Proof.
  intros Hq x y Hx Hy E.
  assert (forall z, is_u 32 z -> u32 (u32 (z * k) * q) = z) as Hinv.
  { intros z Hz. unfold wrap. rewrite Zmult_mod_idemp_l, <- Z.mul_assoc, <- Zmult_mod_idemp_r, Hq.
    rewrite Z.mul_1_r. by apply Z.mod_small. }
  by rewrite <- (Hinv x), <- (Hinv y), E.
Qed.

Lemma add_one_to_one k : one_to_one (fun x => u32 (k + x)).
Proof.
  intros x y Hx Hy E. unfold wrap in E. rewrite <- (Z.mod_small x (2 ^ 32)), <- (Z.mod_small y (2 ^ 32)) by done.
  replace x with (k + x - k) by lia. replace y with (k + y - k) by lia.
  by rewrite Zminus_mod, E, <- Zminus_mod.
Qed.

Lemma xorshift_one_to_one k : 0 < k -> one_to_one (fun x => Z.lxor x (Z.shiftr x k)).
Proof.
  intros Hk x y Hx Hy E. apply Z.lxor_eq. set (z := Z.lxor x y).
  assert (0 <= z) as Hz by (apply Z.lxor_nonneg; unfold is_u in *; lia).
  assert (z = Z.shiftr z k) as Ez.
  { apply Z.lxor_eq. unfold z. rewrite Z.shiftr_lxor.
    replace (Z.lxor (Z.lxor x y) (Z.lxor (Z.shiftr x k) (Z.shiftr y k)))
      with (Z.lxor (Z.lxor x (Z.shiftr x k)) (Z.lxor y (Z.shiftr y k))).
    - rewrite E. apply Z.lxor_nilpotent.
    - rewrite !Z.lxor_assoc. f_equal. rewrite <- !Z.lxor_assoc. f_equal. apply Z.lxor_comm. }
  destruct (Z.eq_dec z 0) as [|Hne]; [done|]. rewrite Z.shiftr_div_pow2 in Ez by lia.
  assert (z / 2 ^ k < z); [|lia]. apply Z.div_lt; [lia|]. apply Z.pow_gt_1; lia.
Qed.

Lemma xorshift_bound k x : 0 <= k -> is_u 32 x -> is_u 32 (Z.lxor x (Z.shiftr x k)).
Proof. intros. apply lxor_bound; [lia|done|by apply shiftr_bound]. Qed.

Lemma rotl_eq x : is_u 32 x ->
  Z.lor (u32 (Z.shiftl x 17)) (Z.shiftr x (32 - 17)) = x / 2 ^ 15 + 2 ^ 17 * (x mod 2 ^ 15).
Proof.
  intros Hx. assert (u32 (Z.shiftl x 17) = Z.shiftl (x mod 2 ^ 15) 17) as ->.
  { unfold wrap. rewrite !Z.shiftl_mul_pow2 by lia. change (2 ^ 32) with (2 ^ 15 * 2 ^ 17).
    by rewrite Z.mul_mod_distr_r by lia. }
  rewrite Z.shiftr_div_pow2 by lia. change (32 - 17) with 15.
  apply lor_disjoint; unfold is_u in *.
  - lia.
  - split; [apply Z.div_pos; lia|]. apply Z.div_lt_upper_bound; lia.
  - apply Z.mod_pos_bound. lia.
Qed.

Lemma rotl_one_to_one :
  one_to_one (fun x => Z.lor (u32 (Z.shiftl x 17)) (Z.shiftr x (32 - 17))).
Proof.
  intros x y Hx Hy E. rewrite !rotl_eq in E by done. unfold is_u in *.
  pose proof (Z.div_mod x (2 ^ 15)). pose proof (Z.div_mod y (2 ^ 15)).
  pose proof (Z.mod_pos_bound x (2 ^ 15)). pose proof (Z.mod_pos_bound y (2 ^ 15)).
  assert (0 <= x / 2 ^ 15 < 2 ^ 17) by (split; [apply Z.div_pos|apply Z.div_lt_upper_bound]; lia).
  assert (0 <= y / 2 ^ 15 < 2 ^ 17) by (split; [apply Z.div_pos|apply Z.div_lt_upper_bound]; lia).
  lia.
Qed.

Lemma rotl_bound x : is_u 32 x -> is_u 32 (Z.lor (u32 (Z.shiftl x 17)) (Z.shiftr x (32 - 17))).
Proof.
  intros Hx. apply lor_bound; [lia|by apply wrap_bound|]. apply shiftr_bound; [lia|done].
Qed.

Lemma wrap32 x : is_u 32 (u32 x).
Proof. by apply wrap_bound. Qed.

Lemma xxhash_apart h1 h2 x y : is_u 32 x -> is_u 32 y ->
  u32 (xxhash h1 h2 x) = u32 (xxhash h1 h2 y) -> x = y.
Proof.
  intros Hx Hy. unfold xxhash. cbv zeta.
  rewrite !(wrap_small 32 (Z.lxor _ (Z.shiftr _ 16))) by (apply xorshift_bound; [lia|apply wrap32]).
  intros E. apply xorshift_one_to_one in E; [|lia|apply wrap32..].
  apply (mul_one_to_one 3266489917 2828982549) in E; [|reflexivity|apply xorshift_bound; [lia|apply wrap32]..].
  apply xorshift_one_to_one in E; [|lia|apply wrap32..].
  apply (mul_one_to_one 2246822519 3066638151) in E; [|reflexivity|apply xorshift_bound; [lia|apply wrap32]..].
  apply xorshift_one_to_one in E; [|lia|apply wrap32..].
  apply (mul_one_to_one 668265263 2701016015) in E; [|reflexivity|apply rotl_bound, wrap32..].
  apply rotl_one_to_one in E; [|apply wrap32..].
  apply add_one_to_one in E; [|apply wrap32..].
  by apply (mul_one_to_one 3266489917 2828982549) in E.
Qed.

End xxhash.

(** ** [isEqualAst] on trees *)

(** Nodes of one kind must have the same hash, relations may differ. *)
Definition same_node (n1 n2 : AstNode) : bool :=
  (bits n1 =? bits n2) &&
  (if bool_decide (kind n1 = kind n2) then hash n1 =? hash n2
   else rgd.isRelationalKind (kind n1) && rgd.isRelationalKind (kind n2)).

Fixpoint same_tree (t1 t2 : tree) : bool :=
  same_node (tree_node t1) (tree_node t2) &&
  match t1, t2 with
  | Leaf _, Leaf _ => true
  | Un _ s1, Un _ s2 => same_tree s1 s2
  | Bin _ s1 s1', Bin _ s2 s2' => same_tree s1 s2 && same_tree s1' s2'
  | _, _ => false
  end.

Section equal.
Context (a1 a2 : Ast).

Lemma isEqualAst_run t1 : forall r1 f1 t2 r2 f2 fuel, repr a1 r1 t1 f1 -> repr a2 r2 t2 f2 ->
  (depth t1 < fuel)%nat -> isEqualAst fuel a1 r1 a2 r2 = Ok (same_tree t1 t2).
Proof.
  induction t1 as [n1|n1 s1 IH|n1 s1 IH1 s1' IH2]; intros r1 f1 t2 r2 f2 fuel R1 R2 Hd;
    (destruct fuel as [|fuel]; [lia|]); simpl in Hd; cbn [isEqualAst];
    inversion R1 as [? m1 N1 A1 B1|? m1 c1 ? g1 N1 A1 C1 B1 T1|? m1 c1 d1 ? ? g1 g1' N1 A1 C1 B1 D1 T1 T1'];
    inversion R2 as [? m2 N2 A2 B2|? m2 c2 ? g2 N2 A2 C2 B2 T2|? m2 c2 d2 ? ? g2 g2' N2 A2 C2 B2 D2 T2 T2'];
    subst; rewrite N1, N2; cbn [idx]; unfold children_size; cbn [same_tree tree_node payload];
    rewrite ?A1, ?B1, ?A2, ?B2;
    repeat match goal with
    | H : child0_ _ <> O |- _ => apply Nat.eqb_neq in H
    | H : child1_ _ <> O |- _ => apply Nat.eqb_neq in H
    end; rewrite ?C1, ?D1, ?C2, ?D2; cbn;
    unfold same_node; cbn;
    (destruct (bits m1 =? bits m2); cbn; [|by rewrite ?andb_false_r]).
  all: case_bool_decide; cbn; rewrite ?andb_false_r; try done;
    (match goal with |- (if negb ?b then _ else _) = _ => destruct b; [|done] end); cbn; try done;
    rewrite (child_of_repr a1 _ _ _ T1), (child_of_repr a2 _ _ _ T2), (IH _ _ _ _ _ fuel T1 T2 ltac:(lia))
      || rewrite (child_of_repr a1 _ _ _ T1), (child_of_repr a2 _ _ _ T2), (IH1 _ _ _ _ _ fuel T1 T2 ltac:(lia));
    cbn; (destruct (same_tree _ _); [|done]); cbn; try done.
  all: by rewrite (child_of_repr a1 _ _ _ T1'), (child_of_repr a2 _ _ _ T2'), (IH2 _ _ _ _ _ fuel T1' T2' ltac:(lia)).
Qed.

Lemma isEqualAst_root t1 t2 f1 f2 : repr a1 Root t1 f1 -> repr a2 Root t2 f2 ->
  isEqualAst (S (length (a_vec a1))) a1 Root a2 Root = Ok (same_tree t1 t2).
Proof.
  intros R1 R2. destruct (repr_size _ _ _ _ R1). eapply isEqualAst_run; [done..|lia].
Qed.

End equal.

(** No relation below the root. *)
Fixpoint no_relation (t : tree) : bool :=
  negb (rgd.isRelationalKind (kind (tree_node t))) &&
  match t with
  | Leaf _ => true
  | Un _ s => no_relation s
  | Bin _ s1 s2 => no_relation s1 && no_relation s2
  end.

(** The tree of a comparison, whose hash does not depend on the relation. *)
Definition cmp_tree (t : tree) : Prop :=
  match t with
  | Bin n s1 s2 => rgd.isRelationalKind (kind n) = true /\
      no_relation s1 = true /\ no_relation s2 = true /\
      hash n = u32 (xxhash (hash (tree_node s1)) (bits n) (hash (tree_node s2)))
  | _ => False
  end.

Lemma same_node_refl n : same_node n n = true.
Proof. unfold same_node. by rewrite bool_decide_eq_true_2, !Z.eqb_refl. Qed.

Lemma same_node_sym n1 n2 : same_node n1 n2 = same_node n2 n1.
Proof.
  unfold same_node. rewrite (Z.eqb_sym (bits n1)), (Z.eqb_sym (hash n1)), (andb_comm (rgd.isRelationalKind _)).
  by rewrite (bool_decide_ext (kind n1 = kind n2) (kind n2 = kind n1)).
Qed.

Lemma same_tree_refl t : same_tree t t = true.
Proof. induction t as [n|n t IH|n t1 IH1 t2 IH2]; simpl; by rewrite same_node_refl, ?IH, ?IH1, ?IH2. Qed.

Lemma same_tree_sym t1 : forall t2, same_tree t1 t2 = same_tree t2 t1.
Proof.
  induction t1 as [n|n t IH|n s IH1 s' IH2]; intros [m|m t2|m u u']; simpl; rewrite same_node_sym; f_equal;
    [done|by rewrite IH1, IH2].
Qed.

(** Below the root, nodes that are the same have one kind and one hash. *)
Lemma same_plain n1 n2 : rgd.isRelationalKind (kind n1) = false -> same_node n1 n2 = true ->
  bits n1 = bits n2 /\ kind n1 = kind n2 /\ hash n1 = hash n2.
Proof.
  intros Hr. unfold same_node. rewrite Hr. intros [Hb H]%andb_true_iff.
  case_bool_decide; [|done]. apply Z.eqb_eq in Hb, H. done.
Qed.

Lemma same_node_plain t1 t2 : no_relation t1 = true -> same_tree t1 t2 = true ->
  bits (tree_node t1) = bits (tree_node t2) /\ kind (tree_node t1) = kind (tree_node t2) /\
  hash (tree_node t1) = hash (tree_node t2).
Proof.
  intros Hn Hs. apply same_plain.
  - destruct t1; simpl in Hn |- *; by apply andb_true_iff in Hn as [?%negb_true_iff _].
  - destruct t1; simpl in Hs; by apply andb_true_iff in Hs as [? _].
Qed.

Lemma same_tree_trans t1 : no_relation t1 = true -> forall t2 t3,
  same_tree t1 t2 = true -> same_tree t2 t3 = true -> same_tree t1 t3 = true.
Proof.
  assert (forall n1 n2 n3, rgd.isRelationalKind (kind n1) = false -> same_node n1 n2 = true ->
    same_node n2 n3 = true -> same_node n1 n3 = true) as Hnode.
  { intros n1 n2 n3 Hr H12 H23. destruct (same_plain _ _ Hr H12) as (B & K & E).
    unfold same_node in *. by rewrite B, K, E. }
  induction t1 as [n|n t IH|n s IH1 s' IH2]; intros Hn [m|m t2|m u u'] [q|q t3|q v v']; simpl in *;
    rewrite ?andb_false_r; try done; rewrite ?andb_true_iff in *; rewrite ?negb_true_iff in *;
    intros; destruct_and?; split_and?; eauto.
Qed.

(** Comparisons that are the same have one hash. *)
Lemma same_cmp_hash t1 t2 : cmp_tree t1 -> cmp_tree t2 -> same_tree t1 t2 = true ->
  hash (tree_node t1) = hash (tree_node t2).
Proof.
  destruct t1 as [|?|n s s'], t2 as [|?|m u u']; try done. intros (_ & N1 & N2 & E) (_ & _ & _ & E').
  cbn [same_tree tree_node]. unfold same_node. rewrite !andb_true_iff. intros ((Hb%Z.eqb_eq & _) & H1 & H2).
  destruct (same_node_plain _ _ N1 H1) as (_ & _ & G1), (same_node_plain _ _ N2 H2) as (_ & _ & G2).
  by rewrite E, E', Hb, G1, G2.
Qed.

Lemma same_cmp_trans t1 t2 t3 : cmp_tree t1 -> cmp_tree t2 -> cmp_tree t3 ->
  same_tree t1 t2 = true -> same_tree t2 t3 = true -> same_tree t1 t3 = true.
Proof.
  intros C1 C2 C3 H12 H23. pose proof (same_cmp_hash _ _ C1 C2 H12) as E12.
  pose proof (same_cmp_hash _ _ C2 C3 H23) as E23.
  destruct t1 as [|?|n s s'], t2 as [|?|m u u'], t3 as [|?|q v v']; try done. simpl in *.
  destruct C1 as (K1 & N1 & N2 & _), C3 as (K3 & _).
  rewrite !andb_true_iff in *. destruct H12 as (S12 & A12 & B12), H23 as (S23 & A23 & B23).
  split; [|split; by eapply same_tree_trans].
  unfold same_node in *. rewrite andb_true_iff in *. destruct S12 as [B1%Z.eqb_eq _], S23 as [B2%Z.eqb_eq _].
  split; [apply Z.eqb_eq; congruence|]. case_bool_decide; [apply Z.eqb_eq; congruence|by rewrite K1, K3].
Qed.

(** ** The keys of the cache *)

Definition cmp_key (a : Ast) : Prop := exists t f, repr a Root t f /\ cmp_tree t.

(** What [myHash::cmp] finds equal. *)
Definition equal_keys (a1 a2 : Ast) : bool :=
  match isEqualAst (S (length (a_vec a1))) a1 Root a2 Root with Ok b => b | Err _ => false end.

Lemma equal_keys_ok a1 a2 : cmp_key a1 -> cmp_key a2 ->
  isEqualAst (S (length (a_vec a1))) a1 Root a2 Root = Ok (equal_keys a1 a2).
Proof.
  intros (t1 & f1 & R1 & _) (t2 & f2 & R2 & _). unfold equal_keys.
  by rewrite (isEqualAst_root a1 a2 t1 t2 f1 f2).
Qed.

#[export] Instance cmp_keys_first_come : FirstCome cmp_key equal_keys.
Proof.
  assert (forall a t f, repr a Root t f -> hash (a_root a) = hash (tree_node t)) as Hroot.
  { intros a t f Hr. destruct (repr_node _ _ _ _ Hr) as (n & [= <-] & <-). done. }
  split; unfold equal_keys.
  - intros a1 a2 H1 H2. cbn [Table.hs_cmp myHash]. by rewrite equal_keys_ok.
  - intros a (t & f & R & _). rewrite (isEqualAst_root a a t t f f) by done. apply same_tree_refl.
  - intros a1 a2 (t1 & f1 & R1 & _) (t2 & f2 & R2 & _).
    rewrite (isEqualAst_root a1 a2 t1 t2 f1 f2), (isEqualAst_root a2 a1 t2 t1 f2 f1) by done.
    by rewrite same_tree_sym.
  - intros a1 a2 a3 (t1 & f1 & R1 & C1) (t2 & f2 & R2 & C2) (t3 & f3 & R3 & C3).
    rewrite (isEqualAst_root a1 a2 t1 t2 f1 f2), (isEqualAst_root a2 a3 t2 t3 f2 f3),
      (isEqualAst_root a1 a3 t1 t3 f1 f3) by done. by apply same_cmp_trans.
  - intros a1 a2 (t1 & f1 & R1 & C1) (t2 & f2 & R2 & C2).
    rewrite (isEqualAst_root a1 a2 t1 t2 f1 f2) by done. cbn [Table.hs_hash myHash].
    rewrite (Hroot _ _ _ R1), (Hroot _ _ _ R2). by apply same_cmp_hash.
  - done.
Qed.

(** ** The function of a tree

    Without repeated labels the function depends on the tree and on where its
    reads find their arguments. *)

Definition leaf_code (lm : smap Z) (n : AstNode) : Value :=
  match kind n with
  | rgd.Constant => LoadArg (bits n) (u32 (index n + RET_OFFSET))
  | _ => let start := default 0 (sm_find (index n) lm) in
         read_loop (bits n) start 1 (Z.to_nat (bits n / 8) - 1) (read_byte (bits n) start 0)
  end.

Definition concat_code (n1 n2 : AstNode) (v1 v2 : Value) : Value :=
  let w := bits n1 + bits n2 in
  CreateBin BOr (CreateBin BShl (CreateZExt v2 w) (ConstantInt w (bits n1))) (CreateZExt v1 w).

Fixpoint code_of (lm : smap Z) (t : tree) : Value :=
  match t with
  | Leaf n => leaf_code lm n
  | Un n s => unary_gen n (code_of lm s)
  | Bin n s1 s2 =>
      match binary_gen (kind n) (bits n) with
      | Some g => g (code_of lm s1) (code_of lm s2)
      | None => concat_code (tree_node s1) (tree_node s2) (code_of lm s1) (code_of lm s2)
      end
  end.

(** No operand is a repeated label, nothing is extracted above bit 0. *)
Fixpoint whole (t : tree) : Prop :=
  match t with
  | Leaf n => kind n <> rgd.Bool
  | Un n s => index n = 0 /\ whole s
  | Bin _ s1 s2 => whole s1 /\ whole s2
  end.

Section code.
Context (lm : smap Z) (a : Ast).

(** [m] yields [v] and caches values only for labels of [V']. *)
Definition yields (V V' : gset Z) (v : Value) (m : M cg (option Value)) : Prop := forall s o s',
  dom (value_cache s) ⊆ V -> m s = (Ok o, s') ->
  o = Some v /\ stores s' = stores s /\ dom (value_cache s') ⊆ V'.

Lemma yields_ret V v : yields V V v (ret (Some v)).
Proof. intros s o s' Hd E. by run E. Qed.

Lemma yields_finish V W W' v n (m : M cg (option Value)) : yields V W v m -> W ⊆ W' ->
  label n = 0 \/ label n ∈ W' ->
  yields V W' v (let! v := m in
    match v with
    | Some v => (if label n =? 0 then ret tt else cache_value (label n) v) ;;; ret (Some v)
    | None => ret None
    end).
Proof.
  intros Hm HW Hl s o s' Hd E. apply bind_ok in E as (o1 & s1 & E1 & E).
  destruct (Hm s o1 s1 Hd E1) as (-> & Hs & Hd1).
  apply bind_ok in E as (u & s2 & E2 & E). run E.
  destruct (Z.eqb_spec (label n) 0).
  - run E2. split_and!; [done|done|by etrans].
  - unfold cache_value in E2. run E2. split_and!; [done|done|]. simpl.
    destruct Hl as [|Hl]; [done|]. destruct (value_cache s1 !! label n); [by etrans|]. set_solver.
Qed.

(** The first steps of [codegen] at a node that is not in the cache. *)
Lemma yields_enter V W v fuel r n : node_at r a = Some n -> label n = 0 \/ label n ∉ V ->
  (forall s o s', dom (value_cache s) ⊆ V -> (label n = 0 \/ value_cache s !! label n = None) ->
     codegen lm a (S fuel) r s = (Ok o, s') ->
     o = Some v /\ stores s' = stores s /\ dom (value_cache s') ⊆ W) ->
  yields V W v (codegen lm a (S fuel) r).
Proof.
  intros Hn Hl H s o s' Hd E. apply (H s o s' Hd); [|done].
  destruct Hl as [|Hl]; [by left|]. right. apply not_elem_of_dom. set_solver.
Qed.

Lemma yields_unary V W v fuel n t f (g : Value -> Value) : repr a (At (child0_ n)) t f ->
  yields V W v (codegen lm a fuel (At (child0_ n))) ->
  yields V W (g v) (let! rc := lift (child_of (child0_ n) a) in
    let! c := codegen lm a fuel rc in let! c := deref c in ret (Some (g c))).
Proof.
  intros Hr Hc s o s' Hd E. unfold lift in E at 1. rewrite (child_of_repr a _ _ _ Hr) in E.
  run_step E. injection Hr0 as <- <-. run_step E. destruct (Hc _ _ _ Hd Hr0) as (-> & Hs & Hd1).
  run_step E. apply deref_slots in Hr1 as [[= <-] ->]. by run E.
Qed.

Section both.
Context (V W1 W2 : gset Z) (v1 v2 : Value) (fuel : nat) (n : AstNode) (t1 t2 : tree) (f1 f2 : list nat).
Context (R1 : repr a (At (child0_ n)) t1 f1) (R2 : repr a (At (child1_ n)) t2 f2).
Context (Y1 : yields V W1 v1 (codegen lm a fuel (At (child0_ n)))).
Context (Y2 : yields W1 W2 v2 (codegen lm a fuel (At (child1_ n)))).
Context (g : AstNode -> AstNode -> Value -> Value -> M cg (option Value)).

Local Abbreviation both := (let! rc1 := lift (child_of (child0_ n) a) in
               let! rc2 := lift (child_of (child1_ n) a) in
               let! n1 := lift (idx (node_at rc1 a)) in
               let! n2 := lift (idx (node_at rc2 a)) in
               let! c1 := codegen lm a fuel rc1 in
               let! c2 := codegen lm a fuel rc2 in
               let! c1 := deref c1 in
               let! c2 := deref c2 in
               g n1 n2 c1 c2).

(** Both operands, and what is made of them. *)
Lemma both_ok s o s' : dom (value_cache s) ⊆ V -> both s = (Ok o, s') ->
  exists n1 n2 s2, payload n1 = tree_node t1 /\ payload n2 = tree_node t2 /\
    stores s2 = stores s /\ dom (value_cache s2) ⊆ W2 /\ g n1 n2 v1 v2 s2 = (Ok o, s').
Proof.
  intros Hd E.
  unfold lift in E at 1. rewrite (child_of_repr a _ _ _ R1) in E. run_step E. injection Hr as <- <-.
  unfold lift in E at 1. rewrite (child_of_repr a _ _ _ R2) in E. run_step E. injection Hr as <- <-.
  destruct (repr_node _ _ _ _ R1) as (n1 & N1 & P1), (repr_node _ _ _ _ R2) as (n2 & N2 & P2).
  unfold lift in E at 1. rewrite N1 in E. run_step E. injection Hr as <- <-.
  unfold lift in E at 1. rewrite N2 in E. run_step E. injection Hr as <- <-.
  run_step E. destruct (Y1 _ _ _ Hd Hr) as (-> & S1 & D1). run_step E.
  destruct (Y2 _ _ _ D1 Hr0) as (-> & S2 & D2).
  run_step E. apply deref_slots in Hr1 as [[= <-] ->]. run_step E. apply deref_slots in Hr1 as [[= <-] ->].
  exists n1, n2, s1. split_and!; [done|done|congruence|done|exact E].
Qed.

Lemma yields_both v :
  (forall n1 n2, payload n1 = tree_node t1 -> payload n2 = tree_node t2 -> g n1 n2 v1 v2 = ret (Some v)) ->
  yields V W2 v both.
Proof.
  intros Hg s o s' Hd E. destruct (both_ok s o s' Hd E) as (n1 & n2 & s2 & P1 & P2 & Hs & Hd2 & E2).
  rewrite Hg in E2 by done. by run E2.
Qed.

End both.

End code.

(** A node whose label is new: what is left is the match on its kind. *)
Ltac enter E Hn Hl :=
  cbn [codegen] in E; unfold lift in E at 1; rewrite Hn in E; run_step E;
  match goal with H : (idx _, _) = (Ok _, _) |- _ => injection H as <- <- end; run_step E;
  match type of E with context [if ?b then None else ?x] =>
    replace (if b then None else x) with (@None Value) in E
      by (destruct Hl as [-> | ->]; [done|by destruct b])
  end; cbv iota in E.

Section trees.
Context {LLVM : InstructionDef} (p : parser) (buf : list Z) (R : list (Z * Z)) (c : Constraint) (a : Ast).
Local Abbreviation tbl := (base_ p).
Local Abbreviation lm := (local_map c).

Lemma constant_code fuel r f V w v t : repr a r t f -> constant_leaf c w v t ->
  yields V V (code_of lm t) (codegen lm a (S fuel) r).
Proof.
  intros Hr (n & k & -> & Hk & Hlab & _). inversion Hr as [? n' Hn _ _| |]; subst.
  change (kind (payload n')) with (kind n') in Hk. change (label (payload n')) with (label n') in Hlab.
  eapply yields_enter; [exact Hn|by left|]. intros s o s' Hd Hl E. enter E Hn Hl.
  refine (yields_finish V V V _ n' _ _ (reflexivity V) _ s o s' Hd E); [|by left].
  rewrite Hk. unfold code_of, leaf_code. cbn [kind payload clear_children set_children]. rewrite Hk.
  apply yields_ret.
Qed.

Definition code_ok (t : tree) : Prop := forall fuel r f V l V', repr a r t f ->
  tree_for p c V l t V' -> expr_ok p buf R l -> whole t ->
  yields V ({[l]} ∪ V') (code_of lm t) (codegen lm a fuel r).

Lemma yields_fuel V W v r : yields V W v (codegen lm a O r).
Proof. by intros s o s' _ [=]. Qed.

Lemma code_leaf n : code_ok (Leaf n).
Proof.
  intros fuel r f V l V' Hr (Hlab & _ & -> & Hcase) He Hw. simpl in Hw.
  destruct fuel as [|fuel]; [apply yields_fuel|].
  destruct Hcase as [[_ Hk]|(HV & Hread & Hk & Hix & b & Hb0 & Hblk)]; [done|].
  inversion Hr as [? n' Hn _ _| |]; subst. change (kind (payload n')) with (kind n') in *.
  change (label (payload n')) with (label n') in *. change (index (payload n')) with (index n') in *.
  eapply yields_enter; [exact Hn|by right|]. intros s o s' Hd Hl E. enter E Hn Hl.
  refine (yields_finish V _ _ _ n' _ _ (union_subseteq_r _ _) _ s o s' Hd E); [|right; set_solver].
  rewrite Hk. intros s0 o0 s1 Hd0 E0. run_step E0. unfold lift in Hr0.
  destruct (sm_find (index n') (local_map c)) as [start|] eqn:Ef; [|done]. injection Hr0 as <- <-.
  run E0. unfold code_of, leaf_code. cbn [kind index bits payload clear_children set_children].
  by rewrite Hk, Ef.
Qed.

Lemma code_un n t : code_ok t -> code_ok (Un n t).
Proof.
  intros IH fuel r f V l V' Hr (HV & Hlab & _ & Hu & Hop & _ & W & Ht & ->) He [_ Hw].
  destruct fuel as [|fuel]; [apply yields_fuel|].
  inversion Hr as [|? n' k ? f1 Hn E1 E2 Hk R1 _|]; subst.
  change (label (payload n')) with (label n') in *. change (kind (payload n')) with (kind n') in *.
  assert (expr_ok p buf R (i_l1 (info_at tbl (label n')))) as He1.
  { destruct He as [l Hl' Hrd|l _ _ He1|l Hl' Hbin _ _]; [|done|]; exfalso.
    - destruct Hrd as [Hrd _ _ _ _]. by rewrite unary_is_read in Hrd.
    - destruct (binary_not_unary (i_op (info_at tbl l))) as [E _]; [tauto|]. congruence. }
  eapply yields_enter; [exact Hn|by right|]. intros s o s' Hd Hl E. enter E Hn Hl.
  refine (yields_finish V _ _ _ n' _ _ (union_subseteq_r _ _) _ s o s' Hd E); [|right; set_solver].
  pose proof (IH fuel _ _ V _ W R1 Ht He1 Hw) as Hc.
  rewrite (OP_MAP_unary _ Hu) in Hop. injection Hop as Hop.
  simpl code_of. unfold unary_gen. cbn [kind index bits payload clear_children set_children].
  rewrite <- Hop. destruct (_ =? ZExt); [|destruct (_ =? SExt)].
  - exact (yields_unary lm a _ _ _ fuel n' t f1 (fun v => CreateZExtOrTrunc v (bits n')) R1 Hc).
  - exact (yields_unary lm a _ _ _ fuel n' t f1 (fun v => CreateSExt v (bits n')) R1 Hc).
  - exact (yields_unary lm a _ _ _ fuel n' t f1 (fun v => CreateTrunc
      (CreateBin BLShr v (ConstantInt (type_bits v) (index n'))) (bits n')) R1 Hc).
Qed.

Lemma side_code t fuel r f V k w v V' : code_ok t -> repr a r t f -> side_for p c V k w v t V' ->
  (k <> 0 -> expr_ok p buf R k) -> whole t -> yields V V' (code_of lm t) (codegen lm a fuel r).
Proof.
  intros Hok Hr Hs Hk Hw. unfold side_for in Hs. destruct (Z.eqb_spec k 0).
  - destruct Hs as [Hs ->]. destruct fuel; [apply yields_fuel|by eapply constant_code].
  - destruct Hs as (W0 & Ht & ->). eapply Hok; eauto.
Qed.

Lemma code_bin n t1 t2 : code_ok t1 -> code_ok t2 -> code_ok (Bin n t1 t2).
Proof.
  intros IH1 IH2 fuel r f V l V' Hr (HV & Hlab & _ & Hu & Hrd & Hop & W & S1 & S2) He [W1 W2].
  destruct fuel as [|fuel]; [apply yields_fuel|].
  destruct (expr_binary p buf R l He Hu Hrd) as (Hb & H1 & H2).
  inversion Hr as [| |? n' c1 c2 ? ? f1 f2 Hn E1 Hc1 E2 Hc2 R1 R2]; subst.
  change (label (payload n')) with (label n') in *. change (kind (payload n')) with (kind n') in *.
  pose proof (side_code t1 fuel _ _ _ _ _ _ _ IH1 R1 S1 H1 W1) as Y1.
  pose proof (side_code t2 fuel _ _ _ _ _ _ _ IH2 R2 S2 H2 W2) as Y2.
  eapply yields_enter; [exact Hn|by right|]. intros s o s' Hd Hl E. enter E Hn Hl.
  refine (yields_finish V _ _ _ n' _ _ (union_subseteq_r _ _) _ s o s' Hd E); [|right; set_solver].
  rewrite (OP_MAP_binary _ Hb) in Hop. injection Hop as Hop.
  simpl code_of. cbn [kind bits payload clear_children set_children].
  assert (kind n' = rgd.Concat \/ is_Some (binary_gen (kind n') (bits n'))) as Hk.
  { rewrite <- Hop. destruct Hb as [Hb| ->]; [|left; unfold binary_kind; by ops]. right.
    destruct (binary_value_run _ (bits n') Hb (IR := ir_semantics)) as (g & -> & _). eauto. }
  destruct (kind n'); (destruct Hk as [Hk|[g Hg]]; try discriminate; try discriminate Hk);
    simpl; (eapply yields_both; [exact R1|exact R2|exact Y1|exact Y2|]); intros n1 n2 P1 P2; try done.
  unfold concat_code. by rewrite <- P1, <- P2.
Qed.

Lemma code_expr t : code_ok t.
Proof. induction t; [apply code_leaf|by apply code_un|by apply code_bin]. Qed.

(** The function of a comparison. *)
Lemma addFunction_code n t1 t2 f V l fn : repr a Root (Bin n t1 t2) f ->
  tree_for p c ∅ l (Bin n t1 t2) V -> cmp_ok p buf R l -> whole (Bin n t1 t2) ->
  addFunction a lm = Ok (Some fn) ->
  fn = [(0, CreateZExt (code_of lm t1) 64); (1, CreateZExt (code_of lm t2) 64)].
Proof.
  intros Hr (_ & Hlab & _ & _ & _ & Hop & W & S1 & S2) [Hl Hi _ H1 H2] [W1 W2] E.
  destruct (OP_MAP_icmp _ _ Hi Hop) as [Hrel _].
  inversion Hr as [| |? n' c1 c2 ? ? f1 f2 Hn E1 Hc1 E2 Hc2 R1 R2]; subst. injection Hn as <-.
  change (kind (payload (a_root a))) with (kind (a_root a)) in *.
  unfold addFunction in E. rewrite Hrel in E. cbn [negb andb] in E. set (fuel := length (a_vec a)) in E.
  pose proof (side_code t1 fuel _ _ _ _ _ _ _ (code_expr t1) R1 S1 H1 W1) as Y1.
  pose proof (side_code t2 fuel _ _ _ _ _ _ _ (code_expr t2) R2 S2 H2 W2) as Y2.
  destruct (codegen lm a (S fuel) Root (mk_cg ∅ [])) as [[[v|]|e] s] eqn:Ec; [done| |by destruct e].
  injection E as <-. assert (Hn : node_at Root a = Some (a_root a)) by done.
  assert (Hmiss : label (a_root a) = 0 \/ value_cache (mk_cg ∅ []) !! label (a_root a) = None)
    by (right; apply lookup_empty).
  enter Ec Hn Hmiss. apply bind_ok in Ec as (o & s1 & E1 & E).
  assert (s = s1 /\ o = None) as [-> ->].
  { destruct o as [v|]; [|by run E]. apply bind_ok in E as (u & s2 & _ & E). by run E. }
  clear E. assert (dom (value_cache (mk_cg ∅ [])) ⊆ (∅ : gset Z)) as Hd by (simpl; by rewrite dom_empty_L).
  destruct (kind (a_root a)); try discriminate Hrel;
    destruct (both_ok _ a _ _ _ _ _ _ _ _ _ _ _ R1 R2 Y1 Y2 _ _ _ _ Hd E1)
      as (n1 & n2 & s2 & _ & _ & Hs & _ & E); unfold emit_store in E; run E; simpl; by rewrite Hs.
Qed.

(** Operands have no relations in them. *)
Lemma expr_no_relation t : forall V l V', tree_for p c V l t V' -> expr_ok p buf R l ->
  no_relation t = true.
Proof.
  induction t as [n|n t IH|n t1 IH1 t2 IH2]; intros V l V' Ht He; simpl.
  - destruct Ht as (_ & _ & _ & [[_ ->]|(_ & _ & -> & _)]); done.
  - destruct Ht as (_ & _ & _ & Hu & Hop & _ & W & Ht & _).
    rewrite (IH _ _ _ Ht), andb_true_r.
    + rewrite (OP_MAP_unary _ Hu) in Hop. injection Hop as <-. by repeat case_match.
    + destruct He as [l _ [Hrd _ _ _ _]|l _ _ He|l _ Hb _ _]; [|done|].
      * by rewrite unary_is_read in Hrd.
      * destruct (binary_not_unary (i_op (info_at tbl l))) as [E _]; [tauto|]. congruence.
  - destruct Ht as (_ & _ & _ & Hu & Hrd & Hop & W & S1 & S2).
    destruct (expr_binary p buf R l He Hu Hrd) as (Hb & H1 & H2).
    rewrite (OP_MAP_binary _ Hb) in Hop. injection Hop as <-.
    assert (forall W m w v s W', (forall V l V', tree_for p c V l s V' -> expr_ok p buf R l ->
      no_relation s = true) -> (m <> 0 -> expr_ok p buf R m) -> side_for p c W m w v s W' ->
      no_relation s = true) as Hside.
    { intros W0 m w v s W' IH Hm. unfold side_for. destruct (Z.eqb_spec m 0).
      - intros [(n' & k & -> & Hk & _) _]. simpl. by rewrite Hk.
      - intros (W1 & Hs & _). eauto. }
    rewrite (Hside _ _ _ _ _ _ IH1 H1 S1), (Hside _ _ _ _ _ _ IH2 H2 S2), !andb_true_r.
    unfold binary_kind. by repeat case_match.
Qed.

Lemma side_no_relation W m w v s W' : (m <> 0 -> expr_ok p buf R m) -> side_for p c W m w v s W' ->
  no_relation s = true.
Proof.
  intros Hm. unfold side_for. destruct (Z.eqb_spec m 0).
  - intros [(n & k & -> & Hk & _) _]. simpl. by rewrite Hk.
  - intros (W1 & Hs & _). eapply expr_no_relation; eauto.
Qed.

(** Nodes below the root. *)
Definition plain_node (n : AstNode) : Prop :=
  kind n <> rgd.Bool /\ (kind n = rgd.Extract -> index n = 0).

Lemma below_whole t : Forall plain_node (drop 1 (a_vec a)) -> forall i f V l V', i <> O ->
  repr a (At i) t f -> tree_for p c V l t V' -> whole t.
Proof.
  intros Hall. assert (forall i n, i <> O -> node_at (At i) a = Some n -> plain_node n) as Hat.
  { intros i n Hi Hn. apply (Forall_lookup_1 _ _ (i - 1) _ Hall).
    rewrite lookup_drop. by replace (1 + (i - 1))%nat with i by lia. }
  assert (forall s i f W m w v W', i <> O -> repr a (At i) s f -> (forall V l V', tree_for p c V l s V' ->
    whole s) -> side_for p c W m w v s W' -> whole s) as Hside.
  { intros s i f W m w v W' Hi Hr IH Hs. unfold side_for in Hs. destruct (m =? 0).
    - destruct Hs as [(n & k & -> & Hk & _) _]. simpl. by rewrite Hk.
    - destruct Hs as (W1 & Hs & _). eauto. }
  induction t as [n|n t IH|n t1 IH1 t2 IH2]; intros i f V l V' Hi Hr Ht;
    inversion Hr as [? n' Hn _ _|? n' k ? f1 Hn E1 E2 Hk R1 _|? n' c1 c2 ? ? f1 f2 Hn E1 Hc1 E2 Hc2 R1 R2];
    subst; destruct (Hat i n' Hi Hn) as [Hb He].
  - done.
  - destruct Ht as (_ & _ & _ & Hu & Hop & Hix & W & Ht & _). split; [|exact (IH _ _ _ _ _ E2 R1 Ht)].
    change (kind (payload n')) with (kind n') in Hop. change (index (payload n')) with (index n') in Hix |- *.
    rewrite Hix in He |- *. destruct (Z.eqb_spec (i_op (info_at tbl l)) Extract) as [E|]; [|done].
    apply He. rewrite (OP_MAP_unary _ Hu), E in Hop. injection Hop as <-. by ops.
  - destruct Ht as (_ & _ & _ & _ & _ & _ & W & S1 & S2). split.
    + eapply (Hside t1); [exact Hc1|exact R1| |exact S1]. intros ??? Ht. exact (IH1 _ _ _ _ _ Hc1 R1 Ht).
    + eapply (Hside t2); [exact Hc2|exact R2| |exact S2]. intros ??? Ht. exact (IH2 _ _ _ _ _ Hc2 R2 Ht).
Qed.

Lemma side_whole s i f W m w v W' : Forall plain_node (drop 1 (a_vec a)) -> i <> O ->
  repr a (At i) s f -> side_for p c W m w v s W' -> whole s.
Proof.
  intros Hall Hi Hr Hs. unfold side_for in Hs. destruct (m =? 0).
  - destruct Hs as [(n & k & -> & Hk & _) _]. simpl. by rewrite Hk.
  - destruct Hs as (W1 & Hs & _). by eapply below_whole.
Qed.

End trees.

(** ** Equal keys, equal functions *)

Section same.
Context (lm1 lm2 : smap Z) (k1 k2 : nat) (Hk1 : Z.of_nat k1 < 2 ^ 30) (Hk2 : Z.of_nat k2 < 2 ^ 30).

Lemma same_leaf n1 n2 : args_in lm1 k1 (Leaf n1) -> args_in lm2 k2 (Leaf n2) ->
  hashed lm1 (Leaf n1) -> hashed lm2 (Leaf n2) -> kind n1 <> rgd.Bool ->
  bits n1 = bits n2 -> kind n1 = kind n2 -> hash n1 = hash n2 -> leaf_code lm1 n1 = leaf_code lm2 n2.
Proof.
  intros A1 A2 H1 H2 Hb B K E. simpl in *. unfold leaf_code. rewrite <- K in *. rewrite <- B in *.
  destruct (kind n1); try done.
  - rewrite H1, H2 in E. apply xxhash_apart in E as ->; [done|unfold is_u; lia..].
  - destruct H1 as (b1 & F1 & H1), H2 as (b2 & F2 & H2). destruct (A1 _ F1), (A2 _ F2).
    rewrite H1, H2 in E. apply xxhash_apart in E as ->; [by rewrite F1, F2|unfold is_u; lia..].
Qed.

Lemma same_code t1 : forall t2, args_in lm1 k1 t1 -> args_in lm2 k2 t2 -> hashed lm1 t1 -> hashed lm2 t2 ->
  no_relation t1 = true -> whole t1 -> whole t2 -> same_tree t1 t2 = true ->
  code_of lm1 t1 = code_of lm2 t2.
Proof.
  induction t1 as [n|n s IH|n s IH1 s' IH2]; intros t2 A1 A2 H1 H2 Hn W1 W2 Hs;
    destruct (same_node_plain _ _ Hn Hs) as (B & K & E);
    destruct t2 as [m|m u|m u u']; simpl in Hs; rewrite ?andb_false_r in Hs; try done; simpl in B, K, E.
  - by apply same_leaf.
  - simpl in *. apply andb_true_iff in Hs as [_ Hs], Hn as [_ Hn].
    destruct A1 as [_ A1], A2 as [_ A2], W1 as [I1 W1], W2 as [I2 W2].
    unfold unary_gen. by rewrite <- K, <- B, I1, I2, (IH u).
  - simpl in *. rewrite !andb_true_iff in Hs, Hn. destruct Hs as (_ & Hs & Hs'), Hn as (_ & Hn & Hn').
    destruct A1 as (_ & A1 & A1'), A2 as (_ & A2 & A2'), W1 as [W1 W1'], W2 as [W2 W2'],
      H1 as (H1 & H1' & _), H2 as (H2 & H2' & _).
    destruct (same_node_plain _ _ Hn Hs) as (B1 & _), (same_node_plain _ _ Hn' Hs') as (B2 & _).
    rewrite <- K, <- B, (IH1 u), (IH2 u') by done. unfold concat_code. by rewrite B1, B2.
Qed.

End same.

(** ** Comparisons *)

Section comparisons.
Context {LLVM : InstructionDef}.

(** A constraint that some parser made of a comparison of some input. *)
Definition comparison (c : Constraint) : Prop := exists p0 buf R last p l,
  scannable (snd (restart [buf] p0)) last /\
  scan_labels last (snd (restart [buf] p0)) = (Ok true, p) /\
  Z.of_nat (length buf) < 2 ^ 30 /\ no_overlap R /\ parsed p buf R last l c.

(** No operand is a repeated label and nothing is extracted above bit 0; slot 0
    of the vector is not a node of the tree. *)
Definition reusable (c : Constraint) : Prop := Forall plain_node (drop 1 (a_vec (ast c))).

Record compiles_to (c : Constraint) (n : AstNode) (t1 t2 : tree) : Prop := {
  ct_repr : exists f, repr (ast c) Root (Bin n t1 t2) f;
  ct_cmp : cmp_tree (Bin n t1 t2);
  ct_hashed : hashed (local_map c) (Bin n t1 t2);
  ct_args : args_in (local_map c) (length (input_args c)) (Bin n t1 t2);
  ct_count : Z.of_nat (length (input_args c)) < 2 ^ 30;
  ct_code : reusable c -> whole t1 /\ whole t2 /\
    addFunction (ast c) (local_map c) = Ok (Some [(0, CreateZExt (code_of (local_map c) t1) 64);
      (1, CreateZExt (code_of (local_map c) t2) 64)])
}.

Lemma comparison_compiles c : comparison c -> exists n t1 t2, compiles_to c n t1 t2.
Proof.
  intros (p0 & buf & R & last & p & l & Hs & Hscan & Hbuf & Hno & Hp).
  destruct (parsed_tree p0 buf R last p Hs Hscan l c Hbuf Hno Hp) as (tr & f & V & Hr & Ht & Hh & Hinv & Hlen).
  destruct (parsed_run p0 buf R last p l c Hs Hscan Hbuf Hno Hp (IR := ir_semantics))
    as (fn & _ & _ & Ef & _). destruct Hp as [Hcmp _ _ _ _].
  pose proof (cmp_tree_args p buf R c Hinv tr V l Ht Hcmp) as Ha. pose proof Hcmp as [Hl Hi _ H1 H2].
  assert (is_binary (i_op (info_at (base_ p) l)) = true \/ i_op (info_at (base_ p) l) = Concat \/
    is_icmp (i_op (info_at (base_ p) l)) = true) as Hop by tauto.
  pose proof (binary_not_unary _ Hop) as [Hu _]. pose proof (binary_is_read _ Hop) as Hrd.
  destruct tr as [n|n t|n t1 t2].
  { destruct Ht as (_ & _ & _ & [[HV _]|(_ & Hrd' & _)]); [set_solver|congruence]. }
  { destruct Ht as (_ & _ & _ & Hu' & _). congruence. }
  pose proof Ht as (_ & _ & _ & _ & _ & Hk & W & S1 & S2).
  destruct (OP_MAP_icmp _ _ Hi Hk) as [Hrel _].
  exists n, t1, t2. split; [by exists f| |done|done|done|].
  - split_and!; [done|exact (side_no_relation p buf R c _ _ _ _ _ _ H1 S1)|
      exact (side_no_relation p buf R c _ _ _ _ _ _ H2 S2)|]. by apply Hh.
  - intros Hre. inversion Hr as [| |? n' c1 c2 ? ? f1 f2 Hn E1 Hc1 E2 Hc2 R1 R2]; subst.
    pose proof (side_whole p c (ast c) t1 _ _ _ _ _ _ _ Hre Hc1 R1 S1) as W1.
    pose proof (side_whole p c (ast c) t2 _ _ _ _ _ _ _ Hre Hc2 R2 S2) as W2.
    split_and!; [done..|]. rewrite Ef. do 2 f_equal. by eapply (addFunction_code p buf R c (ast c)).
Qed.

Lemma comparison_key c : comparison c -> cmp_key (ast c).
Proof.
  intros Hc. destruct (comparison_compiles c Hc) as (n & t1 & t2 & [[f Hr] Ht _ _ _ _]). by eexists _, f.
Qed.

(** Trees of reusable comparisons that compare as equal have one function. *)
Lemma equal_keys_code c1 c2 : comparison c1 -> comparison c2 -> reusable c1 -> reusable c2 ->
  equal_keys (ast c1) (ast c2) = true ->
  addFunction (ast c1) (local_map c1) = addFunction (ast c2) (local_map c2).
Proof.
  intros H1 H2 R1 R2 E. destruct (comparison_compiles c1 H1) as (n & s & s' & [[f1 Q1] C1 D1 A1 K1 F1]).
  destruct (comparison_compiles c2 H2) as (m & u & u' & [[f2 Q2] C2 D2 A2 K2 F2]).
  unfold equal_keys in E. rewrite (isEqualAst_root _ _ _ _ _ _ Q1 Q2) in E.
  destruct (F1 R1) as (W1 & W1' & ->), (F2 R2) as (W2 & W2' & ->).
  cbn [same_tree] in E. rewrite !andb_true_iff in E. destruct E as (_ & E & E').
  destruct C1 as (_ & N & N' & _), D1 as (D1 & D1' & _), D2 as (D2 & D2' & _),
    A1 as (_ & A1 & A1'), A2 as (_ & A2 & A2').
  rewrite (same_code (local_map c1) (local_map c2) _ _ K1 K2 s u) by done.
  by rewrite (same_code (local_map c1) (local_map c2) _ _ K1 K2 s' u').
Qed.


End comparisons.

(** ** Three comparisons

    [7 == x + y], [9 < x + y] and [1 == x - y] for input bytes [x] and [y]. The
    first two have one function: relations are not part of it and constants are
    arguments. *)

#[local] Existing Instance llvm14.
#[local] Existing Instance ir_semantics.

Definition trio_infos : gmap Z dfsan_label_info :=
  <[1 := mk_info 0 0 0 0 0 8 0]> (<[2 := mk_info 0 0 1 0 0 8 0]>
  (<[3 := mk_info 1 2 0 0 Add 8 0]> (<[4 := mk_info 0 3 7 0 (icmp bveq) 8 0]>
  (<[5 := mk_info 0 3 9 0 (icmp bvult) 8 0]> (<[6 := mk_info 1 2 0 0 Sub 8 0]>
  (<[7 := mk_info 0 6 1 0 (icmp bveq) 8 0]> ∅)))))).

Definition trio_parser : parser := snd (restart [[3; 4]] (new_parser trio_infos (32 * 8) true 200)).
Definition trio_scan : parser := scan_state trio_parser 8.

Ltac trio_cases l Hl :=
  assert (l = 1 \/ l = 2 \/ l = 3 \/ l = 4 \/ l = 5 \/ l = 6 \/ l = 7)
    as [-> | [-> | [-> | [-> | [-> | [-> | ->]]]]]] by lia; clear Hl.

Lemma trio_scannable : scannable trio_parser 7.
Proof.
  split; [|split; [done|]].
  - intros l Hl. trio_cases l Hl; vm_compute; intuition congruence.
  - intros l Hl i Hop. exists [3; 4]. subst i.
    trio_cases l Hl; try (vm_compute in Hop; destruct Hop; discriminate);
      clear Hop; vm_compute; intuition congruence.
Qed.

Lemma trio_scanned : scan_labels 7 trio_parser = (Ok true, trio_scan).
Proof.
  rewrite <- (scan_state_0 trio_parser) at 1 by reflexivity.
  exact (scan_labels_run trio_parser 7 0 trio_scannable eq_refl ltac:(done)).
Qed.

Lemma trio_label l : 1 <= l <= 7 -> label_ok trio_scan l.
Proof. intros Hl. trio_cases l Hl; split; vm_compute; intuition congruence. Qed.

Lemma trio_cmp l : l = 4 \/ l = 5 \/ l = 7 -> cmp_ok trio_scan [3; 4] sample_reads l.
Proof.
  assert (forall l, l = 1 \/ l = 2 -> expr_ok trio_scan [3; 4] sample_reads l) as Hb.
  { intros k Hk. apply eo_read; [apply trio_label; lia|].
    destruct Hk as [-> | ->]; split; vm_compute;
      try (intuition congruence); apply list_elem_of_In; simpl; tauto. }
  assert (forall l, l = 3 \/ l = 6 -> expr_ok trio_scan [3; 4] sample_reads l) as He.
  { intros k Hk. apply eo_binary; [apply trio_label; lia|destruct Hk as [-> | ->]; by left| |];
      intros _; apply Hb; destruct Hk as [-> | ->]; [by left..|by right|by right]. }
  intros Hl. split; [apply trio_label; lia|by destruct Hl as [-> | [-> | ->]]| | |].
  - destruct Hl as [-> | [-> | ->]]; by eexists.
  - destruct Hl as [-> | [-> | ->]]; vm_compute; congruence.
  - intros _. apply He. destruct Hl as [-> | [-> | ->]]; [by left|by left|by right].
Qed.

Definition trio_cons (l : Z) : Constraint :=
  match parse_constraint trio_scan l with Ok (Some c) => c | _ => new_constraint 0 end.

Lemma trio_parsed l : l = 4 \/ l = 5 \/ l = 7 -> parsed trio_scan [3; 4] sample_reads 7 l (trio_cons l).
Proof.
  intros Hl. split; [by apply trio_cmp|lia| | |]; destruct Hl as [-> | [-> | ->]]; vm_compute; reflexivity.
Qed.

Lemma trio_comparison l : l = 4 \/ l = 5 \/ l = 7 -> comparison (trio_cons l).
Proof.
  intros Hl. exists (new_parser trio_infos (32 * 8) true 200), [3; 4], sample_reads, 7, trio_scan, l.
  split_and!; [exact trio_scannable|exact trio_scanned|done|exact sample_no_overlap|by apply trio_parsed].
Qed.

Lemma trio_reusable l : l = 4 \/ l = 5 \/ l = 7 -> reusable (trio_cons l).
Proof.
  intros [-> | [-> | ->]]; unfold reusable; vm_compute drop;
    repeat (apply Forall_cons; split; [split; discriminate|]); by apply Forall_nil.
Qed.

Lemma trio_equal :
  isEqualAst (S (length (a_vec (ast (trio_cons 5))))) (ast (trio_cons 5)) Root (ast (trio_cons 4)) Root = Ok true /\
  isEqualAst (S (length (a_vec (ast (trio_cons 7))))) (ast (trio_cons 7)) Root (ast (trio_cons 4)) Root = Ok false /\
  isEqualAst (S (length (a_vec (ast (trio_cons 7))))) (ast (trio_cons 7)) Root (ast (trio_cons 5)) Root = Ok false.
Proof. split_and!; vm_compute; reflexivity. Qed.

