(* ===== verification/JitSolverSpec.v ===== *)
(** * The JIT solver: what its answers mean

    The theorem that joins the parser, the compiler, the cache of functions and
    the search, and the confusions of the cache. *)

From S2P Require Import Prelude Dfsan Runtime LabelSem Ast Task TaskSpec Parser ScanSpec ConsSpec UtaSpec LProbe Jit JitSpec Gd GdSpec Cstr SolveSpec I2S JitSolver CacheSpec.
Local Open Scope prog_scope.

(** ** Machine code

    What LLVM promises of the functions: the slots are 64-bit words, a run whose
    instructions are all defined leaves what the language reference says, and a
    function that stores both slots depends only on what it loads. *)
Class NativeLaws {IR : LLVMSemantics} {NC : NativeCode} : Prop := {
  native_words f l : is_u 64 (fst (native f l)) /\ is_u 64 (snd (native f l));
  native_run f l m' : Forall (is_u 64) l ->
    run_function f (fun j => l !!! Z.to_nat j) = Some m' -> native f l = (u64 (m' 0), u64 (m' 1));
  native_args f nargs l l' : stores_operands nargs f ->
    (forall j, (j < nargs)%nat -> l !! (2 + j)%nat = l' !! (2 + j)%nat) -> native f l = native f l'
}.

(** ** The cache *)

Section cache.
(** The constraint objects in memory, by address. *)
Context (objs : gmap Z Constraint).

(** Function [id] is that of constraint [c]. *)
Definition runs (s : jit) (id : Z) (c : Constraint) : Prop :=
  exists f, jit_modules s !! id = Some f /\ addFunction (ast c) (local_map c) = Ok (Some f).

(** Cached functions and the functions of constraints are right. *)
Record valid (s : jit) : Prop := {
  va_cache i a id : Table.TA (fCache s) !! i = Some (a, id) ->
    exists addr c, objs !! addr = Some c /\ ast c = a /\ runs s id c;
  va_fns addr id : fns s !! addr = Some id -> exists c, objs !! addr = Some c /\ runs s id c;
  va_ids id f : jit_modules s !! id = Some f -> id <= uuid s;
  va_uuid : 0 <= uuid s
}.

(** Trees that compare as equal compile to the same function. *)
Definition no_confusion : Prop := forall a1 a2 c1 c2,
  objs !! a1 = Some c1 -> objs !! a2 = Some c2 -> Table.hs_cmp (ast c1) (ast c2) = Ok 0 ->
  addFunction (ast c1) (local_map c1) = addFunction (ast c2) (local_map c2).

Context (Hconf : no_confusion).

(** What compiling leaves as it is. *)
Record compiled_from (n : Z) (s s' : jit) : Prop := {
  cf_valid : valid s';
  cf_fns : fns s ⊆ fns s';
  cf_modules : jit_modules s ⊆ jit_modules s';
  cf_uuid : uuid s' <= uuid s + n;
  cf_tasks : tasks s' = tasks s;
  cf_buf : jit_buf s' = jit_buf s
}.

Lemma runs_grow s s' id c : jit_modules s ⊆ jit_modules s' -> runs s id c -> runs s' id c.
Proof. intros Hm (f & Hf & Ef). exists f. split; [|done]. by eapply lookup_weaken. Qed.

Lemma compile_one_run addr c s s' : valid s -> objs !! addr = Some c -> uuid s + 1 < 2 ^ 64 ->
  compile_one addr c s = (Ok true, s') ->
  compiled_from 1 s s' /\ exists id, fns s' !! addr = Some id /\ runs s' id c.
Proof.
  intros Hv Hc Hu E. unfold compile_one in E. run_step E. unfold id in E.
  destruct (fns s !! addr) as [id|] eqn:Ef.
  { run E. split; [by split; lia || done|]. exists id. split; [done|].
    destruct (va_fns _ Hv _ _ Ef) as (c' & Hc' & Hr). rewrite Hc in Hc'. by injection Hc' as <-. }
  apply bind_ok in E as (r & s1 & Er & E). injection Er as Er <-. destruct r as [[a id]|].
  - run E. destruct (find_sound _ _ _ Er) as (i & Hi & Hcmp).
    destruct (va_cache _ Hv _ _ _ Hi) as (addr' & c' & Hc' & <- & Hr).
    assert (runs s id c) as Hrun.
    { destruct Hr as (f & Hf & E1). exists f. split; [done|]. rewrite <- E1. by eapply Hconf. }
    split; [|exists id; split; [apply lookup_insert_eq|done]].
    split; simpl; try done; [|by apply insert_subseteq|lia]. split; simpl; try apply Hv.
    intros addr1 id1. rewrite lookup_insert. case_decide; [|apply Hv].
    intros [= <-]. subst addr1. by exists c.
  - run_step E. apply bind_ok in E as (f & s1 & Ea & E). injection Ea as Ea <-.
    destruct f as [f|]; [|by run E]. run_step E. unfold id in E.
    apply bind_ok in E as ([b cache] & s1 & Ei & E). injection Ei as Ei <-. run E.
    set (u := u64 (uuid s + 1)) in *. pose proof (va_uuid _ Hv) as H0.
    assert (u = uuid s + 1) as Eu by (apply wrap_small; unfold is_u; lia).
    assert (jit_modules s !! u = None) as Hnew.
    { destruct (jit_modules s !! u) as [g|] eqn:Eg; [|done].
      pose proof (va_ids _ Hv _ _ Eg). lia. }
    assert (jit_modules s ⊆ <[u := f]> (jit_modules s)) as Hsub by (by apply insert_subseteq).
    assert (runs (add_fn addr cache f (count_miss s)) u c) as Hrun.
    { exists f. split; [apply lookup_insert_eq|done]. }
    split; [|exists u; split; [apply lookup_insert_eq|done]].
    split; simpl; try done; [|by apply insert_subseteq|fold u; lia]. split; simpl; fold u.
    + intros i x id1 Hi. destruct (insert_entries _ _ _ _ Ei i _ Hi) as [[= -> ->]|[j Hj]];
        [by exists addr, c|].
      destruct (va_cache _ Hv _ _ _ Hj) as (addr' & c' & Hc' & Ea' & Hr).
      exists addr', c'. split_and!; [done..|]. by eapply runs_grow.
    + intros addr1 id1. rewrite lookup_insert. case_decide.
      * intros [= <-]. subst addr1. by exists c.
      * intros Hid. destruct (va_fns _ Hv _ _ Hid) as (c' & Hc' & Hr). exists c'. split; [done|].
        by eapply runs_grow.
    + intros id g. rewrite lookup_insert. case_decide; [lia|]. intros Hg.
      pose proof (va_ids _ Hv _ _ Hg). lia.
    + lia.
Qed.

Lemma compile_loop_run cs : Forall (fun p => objs !! fst p = Some (snd p)) cs -> forall s s',
  valid s -> uuid s + Z.of_nat (length cs) < 2 ^ 64 -> compile_loop cs s = (Ok true, s') ->
  compiled_from (Z.of_nat (length cs)) s s' /\
  Forall (fun p => exists id, fns s' !! fst p = Some id /\ runs s' id (snd p)) cs.
Proof.
  induction 1 as [|[addr c] cs Hc _ IH]; intros s s' Hv Hu E; simpl in E.
  { run E. split; [by split; lia || done|constructor]. }
  simpl in Hu. apply bind_ok in E as (ok & s1 & E1 & E). destruct ok; [|by run E].
  destruct (compile_one_run addr c s s1 Hv Hc ltac:(lia) E1) as [[V1 F1 M1 U1 T1 B1] (id & Hid & Hr)].
  destruct (IH s1 s' V1 ltac:(lia) E) as [[V2 F2 M2 U2 T2 B2] Hall]. split.
  - split; [done|by etrans|by etrans|simpl; lia|congruence..].
  - constructor; [|done]. exists id. split; [by eapply lookup_weaken|]. by eapply runs_grow.
Qed.

End cache.

(** ** The output *)

Lemma write_solution_run l : forall b b', NoDup (fst <$> l) -> write_solution l b = Ok b' ->
  length b' = length b /\ (forall k v, (k, v) ∈ l -> b' !! Z.to_nat k = Some v) /\
  forall i, Z.of_nat i ∉ fst <$> l -> b' !! i = b !! i.
Proof.
  induction l as [|[k v] l IH]; intros b b' Hnd E; simpl in E.
  { injection E as <-. split_and!; [done| |done]. intros k v H. by apply elem_of_nil in H. }
  destruct (write_bytes b k [v]) as [b1|] eqn:Ew; [|done]. pose proof Ew as Ew'.
  unfold write_bytes in Ew'. destruct ((0 <=? k) && _) eqn:Ec; [|done]. clear Ew'. simpl length in Ec.
  bool_hyps. rewrite write_bytes_run in Ew by (simpl; lia). injection Ew as <-. simpl in Hnd. apply NoDup_cons in Hnd as [Hk Hnd].
  destruct (IH _ _ Hnd E) as (Hlen & Hin & Hout).
  assert (length (written b [v] k) = length b) as L1 by (apply length_written; simpl; lia).
  split_and!; [congruence| |].
  - intros k' v' [[= -> ->]|H']%elem_of_cons; [|by apply Hin].
    rewrite Hout by (rewrite Z2Nat.id by lia; done). rewrite written_lookup by (simpl; lia).
    simpl length. rewrite decide_True by lia. by rewrite Nat.sub_diag.
  - intros i [Hi Hi']%not_elem_of_cons. rewrite Hout by done. rewrite written_lookup by (simpl; lia).
    simpl length. rewrite decide_False; [done|]. simpl in Hi. lia.
Qed.

Lemma output_run in_buf sol s u s' : output in_buf (Some sol) s = (Ok u, s') ->
  exists b, s' = set_jit_out b (Z.of_nat (length in_buf)) s /\
    forall i, (i < length in_buf)%nat -> b !! i = Some (patched in_buf sol (Z.of_nat i)).
Proof.
  unfold output. intros E. run_step E.
  apply bind_ok in E as (b1 & s1 & E1 & E). injection E1 as E1 <-.
  apply bind_ok in E as (b2 & s1 & E2 & E). injection E2 as E2 <-. run E.
  exists b2. split; [done|]. intros i Hi.
  destruct (write_solution_run (map_to_list sol) b1 b2 (NoDup_fst_map_to_list sol) E2) as (_ & Hin & Hout).
  unfold patched. destruct (sol !! Z.of_nat i) as [v|] eqn:Es; simpl.
  - rewrite <- (Nat2Z.id i) at 1. by apply Hin, elem_of_map_to_list.
  - rewrite Hout.
    + unfold write_bytes in E1. case_match; [|done]. injection E1 as <-. simpl.
      rewrite lookup_app_l by lia. rewrite Nat2Z.id.
      destruct (lookup_lt_is_Some_2 in_buf i Hi) as [x Hx]. by rewrite Hx.
    + intros ([k v] & Ek & Hk)%list_elem_of_fmap. simpl in Ek. subst k.
      apply elem_of_map_to_list in Hk. congruence.
Qed.

(** ** The whole way *)

Section solve.
Context {LLVM : InstructionDef} {IR : LLVMSemantics} {U : Unspecified}.
Context {NC : NativeCode} {NL : NativeLaws}.

Lemma gd_entry_atoi {MC : MachineCode} t scratch0 d md pd mid seed r t' :
  gd_entry t scratch0 d md pd mid seed = (r, t') -> atoi_info_ t' = atoi_info_ t.
Proof. unfold gd_entry. destruct (gd_search t _) as [r0 s]. by intros [= _ <-]. Qed.

Section code.
Context (objs : gmap Z Constraint) (s : jit) (addrs : list Z) (t : SearchTask).
Context (Hlen : length addrs = length (constraints_ t)).
Context (Hruns : Forall (fun p => exists id, fns s !! fst p = Some id /\ runs s id (snd p))
                   (zip addrs (constraints_ t))).

Lemma task_code_at k c : constraints_ t !! k = Some c -> exists f,
  addFunction (ast c) (local_map c) = Ok (Some f) /\ forall l, task_code addrs s k l = native f l.
Proof.
  intros Hc. destruct (lookup_lt_is_Some_2 addrs k) as [addr Ha].
  { rewrite Hlen. by eapply lookup_lt_Some. }
  assert (zip addrs (constraints_ t) !! k = Some (addr, c)) as Hz
    by (by rewrite lookup_zip_with, Ha, Hc).
  destruct (Forall_lookup_1 _ _ _ _ Hruns Hz) as (id & Hid & f & Hf & Ef). simpl in Hid.
  exists f. split; [done|]. intros l. unfold task_code. by rewrite Ha; simpl; rewrite Hid; simpl; rewrite Hf.
Qed.

Lemma task_code_compiled :
  (forall k c cm f, constraints_ t !! k = Some c -> consmetas_ t !! k = Some cm ->
     addFunction (ast c) (local_map c) = Ok (Some f) -> stores_operands (length (m_input_args cm)) f) ->
  length (consmetas_ t) = length (constraints_ t) ->
  CompiledFor t (MC := task_code addrs s).
Proof.
  intros Hst Hm. split.
  - intros k l. unfold fn, task_code. destruct (_ ← addrs !! k; _) as [f|]; [apply native_words|done].
  - intros k cm l l' Hcm Heq. destruct (lookup_lt_is_Some_2 (constraints_ t) k) as [c Hc].
    { rewrite <- Hm. by eapply lookup_lt_Some. }
    destruct (task_code_at k c Hc) as (f & Ef & Hcode). unfold fn. rewrite !Hcode.
    apply (native_args f (length (m_input_args cm))); [by eapply Hst|done].
Qed.

Lemma task_code_runs : runs_compiled t (MC := task_code addrs s).
Proof.
  intros k c f l m' Hc Ef Hl Hm. destruct (task_code_at k c Hc) as (f' & Ef' & Hcode).
  rewrite Ef in Ef'. injection Ef' as <-. unfold fn. rewrite Hcode. by apply native_run.
Qed.

End code.
(** The functions of parsed constraints store their operands and use no
    argument that the task does not give them. *)
Lemma parsed_stores p0 buf R last p ls A t0 t :
  let p1 := snd (restart [buf] p0) in
  scannable p1 last -> scan_labels last p1 = (Ok true, p) -> Z.of_nat (length buf) < 2 ^ 30 ->
  reads_ok R -> Forall2 (parsed p buf R last) ls (constraints_ t0) -> ready A t0 ->
  finalized t0 t -> forall k c cm f, constraints_ t !! k = Some c -> consmetas_ t !! k = Some cm ->
  addFunction (ast c) (local_map c) = Ok (Some f) -> stores_operands (length (m_input_args cm)) f.
Proof.
  intros p1 Hs Hscan Hbuf HR Hls Hready Hfin k c cm f Hc Hcm Ef.
  destruct (fz_kept _ _ Hfin) as (Kc & _). rewrite Kc in Hc.
  destruct (Forall2_lookup_r _ _ _ _ _ Hls Hc) as (l & _ & Hp).
  destruct (parsed_run p0 buf R last p l c Hs Hscan Hbuf (proj1 HR) Hp) as (f' & _ & _ & Ef' & _ & Hst).
  rewrite Ef in Ef'. injection Ef' as <-.
  destruct (lookup_lt_is_Some_2 (comparisons_ t0) k) as [kd Hk].
  { rewrite <- (rd_lengths _ _ Hready). by eapply lookup_lt_Some. }
  destruct (fz_args _ _ Hfin k c kd Hc Hk) as (cm' & Hcm' & _ & Hn & _).
  rewrite Hcm in Hcm'. injection Hcm' as <-. by rewrite Hn.
Qed.

(** Trees that the cache finds equal have one function, if the constraints in
    memory are reusable comparisons. *)
Lemma reusable_no_confusion objs :
  map_Forall (fun _ c => comparison c /\ reusable c) objs -> no_confusion objs.
Proof.
  intros Hall a1 a2 c1 c2 H1 H2 Hcmp.
  destruct (Hall _ _ H1) as [C1 R1], (Hall _ _ H2) as [C2 R2]. apply equal_keys_code; [done..|].
  rewrite (fc_cmp cmp_key equal_keys (ast c1) (ast c2)) in Hcmp by (by apply comparison_key).
  by destruct (equal_keys (ast c1) (ast c2)).
Qed.

(** C20: an input that the JIT solver reports is a solution. The task is finalized,
    is not based on another task, has no numbers read by [atoi], and its
    constraints are parsed comparisons whose reads do not overlap, to be made true
    with relations that mean the same on 64 bits (a signed one only for 64-bit
    operands, as the operands are zero-extended). It is compiled, or runs functions
    cached for earlier tasks, and is searched; if [solve] answers [SOLVER_SAT], the
    bytes it leaves in the output buffer are those of an input on which every
    comparison of the task is true, if its operations are defined there (no
    division by zero, no shift by the width or more), and the cache is right for
    the next task. The constraints in memory, those of earlier tasks included, are
    comparisons in which no operand repeats a label and nothing is extracted above
    bit 0: the cache confuses others ([function_cache_confuses],
    [function_cache_confuses_extracts]). *)
Theorem jit_solve_correct objs p0 buf R last p ls A t0 t N tid addrs dist min_dist plus_dist minus_dist
    seed scratch0 s s' :
  let p1 := snd (restart [buf] p0) in
  scannable p1 last -> scan_labels last p1 = (Ok true, p) ->
  Z.of_nat (length buf) < 2 ^ 30 -> Forall (is_u 8) buf -> reads_ok R ->
  Forall2 (parsed p buf R last) ls (constraints_ t0) ->
  Forall2 (fun l k => plain_kind k (i_size (info_at (base_ p) l))) ls (comparisons_ t0) ->
  ready A t0 -> stopped t0 = false -> solved t0 = false -> finalize t0 = Ok t ->
  base_task t = None -> atoi_info_ t = ∅ -> scratch_args t = Some N -> length scratch0 = N ->
  length dist = length (constraints_ t) -> length min_dist = length (constraints_ t) ->
  map_Forall (fun _ c => comparison c /\ reusable c) objs -> valid objs s -> uuid s + Z.of_nat (length (constraints_ t)) < 2 ^ 64 ->
  tasks s !! tid = Some t -> Forall2 (fun a c => objs !! a = Some c) addrs (constraints_ t) ->
  jit_solve buf tid addrs scratch0 dist min_dist plus_dist minus_dist seed s = (Ok SOLVER_SAT, s') ->
  valid objs s' /\ jit_size s' = Z.of_nat (length buf) /\
  exists env : input_env, (forall i, (i < length buf)%nat -> jit_buf s' !! i = Some (env (Z.of_nat i))) /\
    Forall2 (fun l k => defined p env l -> holds p env l k) ls (comparisons_ t0).
Proof.
  intros p1 Hs Hscan Hbuf H8 HR Hls Hks Hready Hst Hso Hfin Hbase Hatoi HN Hlen Hd Hm Hmem Hv Hu Ht
    Haddr E. pose proof (reusable_no_confusion objs Hmem) as Hconf.
  destruct (finalize_run A t0 Hready) as (t1 & E1 & Hf). rewrite Hfin in E1. injection E1 as <-.
  assert (length (consmetas_ t) = length (constraints_ t)) as Hmetas.
  { destruct (fz_kept _ _ Hf) as (Kc & _ & Km & _). congruence. }
  pose proof (Forall2_length _ _ _ Haddr) as Hla.
  assert (Forall (fun p => objs !! fst p = Some (snd p)) (zip addrs (constraints_ t))) as Hobjs.
  { apply Forall_lookup. intros i [a c] (a' & c' & [= -> ->] & Ha & Hc)%lookup_zip_with_Some.
    by apply (Forall2_lookup_lr _ _ _ i _ _ Haddr). }
  unfold jit_solve in E. apply bind_ok in E as (t1 & s1 & Et & E). unfold get_task in Et.
  rewrite Ht in Et. injection Et as <- <-. run_step E. rewrite Hbase in E. simpl in E.
  apply bind_ok in E as (r & s1 & Er & E). assert (r = None /\ s1 = s) as [-> ->] by (destruct (size (tasks s)); by injection Er as <- <-).
  apply bind_ok in E as (t1 & s1 & Et & E). unfold get_task in Et. rewrite Ht in Et. injection Et as <- <-.
  apply bind_ok in E as (ok & s1 & Ec & E). destruct ok; [|by run E]. change (negb true) with false in E. cbv iota in E.
  destruct (compile_loop_run objs Hconf _ Hobjs s s1 Hv) as [[V1 F1 M1 U1 T1 B1] Hruns]; [|done|].
  { rewrite length_zip. lia. }
  run_step E.
  pose proof (task_code_compiled s1 addrs t Hla Hruns
    (parsed_stores p0 buf R last p ls A t0 t Hs Hscan Hbuf HR Hls Hready Hf) Hmetas) as CF.
  destruct (gd_entry t scratch0 dist min_dist plus_dist minus_dist seed) as [r t'] eqn:Eg.
  run_step E. apply bind_ok in E as (sv & s2 & Es & E). injection Es as -> <-. destruct sv; [|by run E].
  apply bind_ok in E as (u & s2 & Eo & E). apply output_run in Eo as (b & -> & Hb).
  rewrite (gd_entry_atoi _ _ _ _ _ _ _ _ _ Eg), Hatoi in E. rewrite map_to_list_empty in E. run E. injection Hr as <- <-.
  split; [|split; [done|]].
  - destruct V1. by split.
  - exists (patched buf (solution t')). split; [exact Hb|].
    apply (solve_run p0 buf R last p ls A t0 t (length scratch0) dist min_dist plus_dist minus_dist seed
      scratch0 t' (MC := task_code addrs s1)); try done. by apply task_code_runs.
Qed.

End solve.

(** ** Two tasks solved

    First [7 == x + y] is to be made false; then [9 < x + y] and [1 == x - y] are
    to be true, the one with the function of the first task, which is in the
    cache. *)

#[local] Existing Instance llvm14.
#[local] Existing Instance ir_semantics.
#[local] Instance run_native : NativeCode := machine_run.

#[local] Instance run_native_laws : NativeLaws.
Proof.
  split.
  - exact machine_run_words.
  - intros f l m' _ E. unfold native, run_native, machine_run. by rewrite E.
  - exact machine_run_args.
Qed.

#[local] Instance fixed_unspecified : Unspecified :=
  {| cast_overflow := fun _ => 0; uninit := fun _ _ => 0; rand_byte := fun _ => 5 |}.

(** A solver that starts, with tasks in memory. *)
Definition new_jit (l : list SearchTask) : jit :=
  mk_jit new_fCache 0 0 0 0 0 ∅ ∅ (list_to_map (zip (seqZ 0 (Z.of_nat (length l))) l))
    (replicate 2 0) 0.

Lemma new_jit_valid objs l : valid objs (new_jit l).
Proof. by split. Qed.

Definition plain_task (cs : list Constraint) (ks : list rgd.AstKind) : SearchTask :=
  mk_task cs ks [] [] ∅ ∅ 0 ∅ None false 0 false ∅ None false.

Definition first_task : SearchTask := plain_task [trio_cons 4] [rgd.Distinct].
Definition second_task : SearchTask := plain_task [trio_cons 5; trio_cons 7] [rgd.Ult; rgd.Equal].
Definition final (t : SearchTask) : SearchTask := match finalize t with Ok t => t | Err _ => t end.

Definition trio_objs : gmap Z Constraint :=
  <[100 := trio_cons 4]> (<[200 := trio_cons 5]> {[300 := trio_cons 7]}).

Definition first_run : res solver_result_t * jit :=
  jit_solve [3; 4] 0 [100] (replicate 6 0) [0] [0] [0] [0] 0 (new_jit [final first_task; final second_task]).
Definition second_run : res solver_result_t * jit :=
  jit_solve [3; 4] 1 [200; 300] (replicate 6 0) [0; 0] [0; 0] [0; 0] [0; 0] 0 (snd first_run).

Lemma trio_ready cs ks : length cs = length ks -> Forall (fun c => exists l, (l = 4 \/ l = 5 \/ l = 7) /\ c = trio_cons l) cs ->
  Z.of_nat (total_keys (zip cs ks)) < 2 ^ 32 -> ready ∅ (plain_task cs ks).
Proof.
  intros Hlen Hcs Hsmall. split; try reflexivity; try done; simpl.
  - eapply Forall_impl; [exact Hcs|]. intros c (l & Hl & ->).
    destruct (parsed_run (new_parser trio_infos (32 * 8) true 200) [3; 4] sample_reads 7 trio_scan l
      (trio_cons l) trio_scannable trio_scanned ltac:(done) sample_no_overlap (trio_parsed l Hl))
      as (f & Hi & _). apply Hi.
  - eapply Forall_impl; [exact Hcs|]. intros c (l & Hl & ->).
    replace (atoi_info (trio_cons l)) with (∅ : gmap Z (Z * Z * Z)); [done|].
    destruct Hl as [-> | [-> | ->]]; vm_compute; reflexivity.
Qed.

Lemma first_constraints : constraints_ (final first_task) = [trio_cons 4].
Proof. vm_compute. reflexivity. Qed.

Lemma second_constraints : constraints_ (final second_task) = [trio_cons 5; trio_cons 7].
Proof. vm_compute. reflexivity. Qed.

Lemma trio_memory : map_Forall (fun _ c => comparison c /\ reusable c) trio_objs.
Proof.
  apply map_Forall_insert_2; [split; [apply trio_comparison|apply trio_reusable]; tauto|].
  apply map_Forall_insert_2; [split; [apply trio_comparison|apply trio_reusable]; tauto|].
  apply map_Forall_singleton. split; [apply trio_comparison|apply trio_reusable]; tauto.
Qed.

Lemma trio_defined env l : 1 <= l <= 7 -> defined trio_scan env l.
Proof.
  intros Hl m Hm. assert (1 <= m <= 7) as Hb.
  { induction Hm as [l|l k Hr Hn _ IH|l k Hr Hn _ IH]; [done| |]; apply IH;
      pose proof (lo_below _ _ (trio_label l Hl)); lia. }
  clear Hm Hl l. unfold op_defined, value_defined. trio_cases m Hb; reflexivity.
Qed.

(** The second run takes the function of [7 == x + y] for [9 < x + y], and the
    two bytes of its output satisfy both comparisons. *)
Lemma jit_solve_correct_witness : cache_hits (snd second_run) = 1 /\ exists env : input_env,
  (forall i, (i < 2)%nat -> jit_buf (snd second_run) !! i = Some (env (Z.of_nat i))) /\
  holds trio_scan env 5 rgd.Ult /\ holds trio_scan env 7 rgd.Equal.
Proof.
  split; [vm_compute; reflexivity|].
  assert (valid trio_objs (snd first_run)) as Hv.
  { apply (jit_solve_correct trio_objs (new_parser trio_infos (32 * 8) true 200) [3; 4] sample_reads 7
      trio_scan [4] ∅ first_task (final first_task) 6 0 [100] [0] [0] [0] [0] 0 (replicate 6 0)
      (new_jit [final first_task; final second_task]) (snd first_run) trio_scannable trio_scanned).
    - done.
    - by repeat constructor.
    - exact sample_reads_ok.
    - constructor; [apply trio_parsed; tauto|constructor].
    - constructor; [split; [done|by left]|constructor].
    - apply trio_ready; [done|apply Forall_singleton; exists 4; tauto|vm_compute; reflexivity].
    - reflexivity.
    - reflexivity.
    - vm_compute. reflexivity.
    - vm_compute. reflexivity.
    - vm_compute. reflexivity.
    - vm_compute. reflexivity.
    - reflexivity.
    - vm_compute. reflexivity.
    - vm_compute. reflexivity.
    - exact trio_memory.
    - apply new_jit_valid.
    - vm_compute. reflexivity.
    - reflexivity.
    - rewrite first_constraints. unfold trio_objs. constructor; [by rewrite lookup_insert_eq|constructor].
    - vm_compute. reflexivity. }
  destruct (jit_solve_correct trio_objs (new_parser trio_infos (32 * 8) true 200) [3; 4] sample_reads 7
    trio_scan [5; 7] ∅ second_task (final second_task) 6 1 [200; 300] [0; 0] [0; 0] [0; 0] [0; 0] 0
    (replicate 6 0) (snd first_run) (snd second_run) trio_scannable trio_scanned)
    as (_ & _ & env & Hb & Hall).
  - done.
  - by repeat constructor.
  - exact sample_reads_ok.
  - constructor; [apply trio_parsed; tauto|]. constructor; [apply trio_parsed; tauto|constructor].
  - constructor; [split; [done|by left]|]. constructor; [split; [done|by left]|constructor].
  - apply trio_ready; [done| |vm_compute; reflexivity].
    apply Forall_cons; split; [exists 5; tauto|]. apply Forall_singleton. exists 7; tauto.
  - reflexivity.
  - reflexivity.
  - vm_compute. reflexivity.
  - vm_compute. reflexivity.
  - vm_compute. reflexivity.
  - vm_compute. reflexivity.
  - reflexivity.
  - vm_compute. reflexivity.
  - vm_compute. reflexivity.
  - exact trio_memory.
  - exact Hv.
  - vm_compute. reflexivity.
  - vm_compute. reflexivity.
  - rewrite second_constraints. unfold trio_objs.
    constructor; [by rewrite lookup_insert_ne, lookup_insert_eq|].
    constructor; [by rewrite !lookup_insert_ne, lookup_singleton_eq by done|constructor].
  - vm_compute. reflexivity.
  - exists env. split; [exact Hb|]. apply Forall2_cons in Hall as [H5 Hall].
    apply Forall2_cons in Hall as [H7 _]. split; [apply H5|apply H7]; by apply trio_defined.
Defined.

(** ** Confused trees

    Tasks of one comparison, that should be true, of the first two input bytes. *)

Definition one_task (infos : gmap Z dfsan_label_info) (l : Z) : res SearchTask :=
  let p := snd (scan_labels l (snd (restart [[1; 2]] (new_parser infos (32 * (l + 1)) true 200)))) in
  match parse_constraint p l with
  | Ok (Some c) => finalize (plain_task [c] [rgd.Equal])
  | _ => Err AssertFailure
  end.

Definition solve_one (n : nat) (tid : Z) : M jit solver_result_t :=
  jit_solve [1; 2] tid [100 + tid] (replicate n 0) [0] [0] [0] [0] 0.

(** The environment of the bytes in the output buffer. *)
Definition out_env (s : jit) : input_env := fun o => nth (Z.to_nat o) (jit_buf s) 0.

(** [solve] takes label [l2] for [l1], which it has seen before: it answers
    [SOLVER_SAT] with an input on which the comparison is false, though a solver
    that starts with this task finds an input on which it is true. *)
Definition confused (infos : gmap Z dfsan_label_info) (n : nat) (l1 l2 : Z) : Prop :=
  exists t1 t2 s1 s2 s3,
    one_task infos l1 = Ok t1 /\ one_task infos l2 = Ok t2 /\
    solve_one n 0 (new_jit [t1; t2]) = (Ok SOLVER_SAT, s1) /\ eval infos (out_env s1) l1 = 1 /\
    solve_one n 1 s1 = (Ok SOLVER_SAT, s2) /\ cache_hits s2 = 1 /\ eval infos (out_env s2) l2 = 0 /\
    solve_one n 1 (new_jit [t1; t2]) = (Ok SOLVER_SAT, s3) /\ eval infos (out_env s3) l2 = 1.

Ltac confusion :=
  eexists _, _, _, _, _; split; [vm_compute; reflexivity|]; split; [vm_compute; reflexivity|];
  split; [vm_compute; reflexivity|]; rewrite !eval_eq; split; [vm_compute; reflexivity|];
  split; [vm_compute; reflexivity|]; split; [vm_compute; reflexivity|];
  split; [vm_compute; reflexivity|]; split; [vm_compute; reflexivity|]; vm_compute; reflexivity.

(** An operand that repeats a label of the tree is a leaf with no kind and no
    hash, so [x + y == x] and [x + y == y] compare as equal. *)
Theorem function_cache_confuses : confused
  (<[1 := mk_info 0 0 0 0 0 8 0]> (<[2 := mk_info 0 0 1 0 0 8 0]>
  (<[3 := mk_info 1 2 0 0 Add 8 0]> (<[4 := mk_info 3 1 0 0 (icmp bveq) 8 0]>
  (<[5 := mk_info 3 2 0 0 (icmp bveq) 8 0]> ∅))))) 6 4 5.
Proof. confusion. Qed.

(** Where an extraction starts is neither hashed nor compared, so the low byte of
    [w + 1] equal to 5 and its high byte equal to 5 compare as equal, for the word
    [w] of the two bytes. *)
Theorem function_cache_confuses_extracts : confused
  (<[1 := mk_info 0 0 0 0 0 8 0]> (<[2 := mk_info 0 0 1 0 0 8 0]>
  (<[3 := mk_info 1 2 0 0 Load 16 0]> (<[4 := mk_info 3 0 0 1 Add 16 0]>
  (<[5 := mk_info 4 0 0 8 Trunc 8 0]> (<[6 := mk_info 5 0 0 5 (icmp bveq) 8 0]>
  (<[7 := mk_info 4 0 0 8 Extract 8 0]> (<[8 := mk_info 7 0 0 5 (icmp bveq) 8 0]> ∅)))))))) 7 6 8.
Proof. confusion. Qed.
