(* ===== verification/Z3.v ===== *)
(** * Z3, as the solvers use it

    The expressions that calls of Z3's C++ interface build, the sort check that
    Z3 makes on every call, and what SMT-LIB's theory of fixed-size bit-vectors
    says they mean. The simplifier and the solver are parameters. *)

From S2P Require Import Prelude.
Local Open Scope prog_scope.

Module z3.

(** ** Syntax *)

Inductive symbol := StrSymbol (s : list Z) | IntSymbol (n : Z).
Inductive sort := BoolSort | BvSort (n : Z).

Inductive unop := Not | BvNot | BvNeg | ZeroExt (k : Z) | SignExt (k : Z) | Extract (hi lo : Z).
Inductive logop := And | Or | Xor.
Inductive bvop :=
  BvAnd | BvOr | BvXor | BvAdd | BvSub | BvMul | BvUDiv | BvSDiv | BvURem | BvSRem | BvShl | BvLShr | BvAShr.
Inductive bvrel := Ult | Ule | Ugt | Uge | Slt | Sle | Sgt | Sge.
Inductive binop := Eq | Distinct | Concat | Logic (o : logop) | BvOp (o : bvop) | BvRel (o : bvrel).

Inductive expr :=
  | Const (s : symbol) (t : sort)
  | BvVal (v n : Z)
  | BoolVal (b : bool)
  | Un (o : unop) (e : expr)
  | Bin (o : binop) (e1 e2 : expr)
  | Ite (c e1 e2 : expr).

#[global] Instance symbol_eq_dec : EqDecision symbol.
Proof. solve_decision. Defined.
#[global] Instance sort_eq_dec : EqDecision sort.
Proof. solve_decision. Defined.
#[global] Instance unop_eq_dec : EqDecision unop.
Proof. solve_decision. Defined.
#[global] Instance logop_eq_dec : EqDecision logop.
Proof. solve_decision. Defined.
#[global] Instance bvop_eq_dec : EqDecision bvop.
Proof. solve_decision. Defined.
#[global] Instance bvrel_eq_dec : EqDecision bvrel.
Proof. solve_decision. Defined.
#[global] Instance binop_eq_dec : EqDecision binop.
Proof. solve_decision. Defined.
(** Z3 shares equal expressions, so that equality of [id]s is equality. *)
#[global] Instance expr_eq_dec : EqDecision expr.
Proof. solve_decision. Defined.

(** The constants of an expression. *)
Fixpoint consts (e : expr) : list (symbol * sort) :=
  match e with
  | Const s t => [(s, t)]
  | BvVal _ _ | BoolVal _ => []
  | Un _ e => consts e
  | Bin _ e1 e2 => consts e1 ++ consts e2
  | Ite c e1 e2 => consts c ++ consts e1 ++ consts e2
  end.

(** ** Sorts *)

Definition sort_un (o : unop) (s : sort) : option sort :=
  match o, s with
  | Not, BoolSort => Some BoolSort
  | (BvNot | BvNeg), BvSort n => Some (BvSort n)
  | (ZeroExt k | SignExt k), BvSort n => if 0 <=? k then Some (BvSort (n + k)) else None
  | Extract hi lo, BvSort n =>
      if (0 <=? lo) && (lo <=? hi) && (hi <? n) then Some (BvSort (hi - lo + 1)) else None
  | _, _ => None
  end.

Definition sort_bin (o : binop) (s1 s2 : sort) : option sort :=
  match o, s1, s2 with
  | (Eq | Distinct), _, _ => if decide (s1 = s2) then Some BoolSort else None
  | Concat, BvSort n1, BvSort n2 => Some (BvSort (n1 + n2))
  | Logic _, BoolSort, BoolSort => Some BoolSort
  | BvOp _, BvSort n1, BvSort n2 => if n1 =? n2 then Some (BvSort n1) else None
  | BvRel _, BvSort n1, BvSort n2 => if n1 =? n2 then Some BoolSort else None
  | _, _, _ => None
  end.

Fixpoint sort_of (e : expr) : option sort :=
  match e with
  | Const _ BoolSort => Some BoolSort
  | Const _ (BvSort n) | BvVal _ n => if 0 <? n then Some (BvSort n) else None
  | BoolVal _ => Some BoolSort
  | Un o e => s ← sort_of e; sort_un o s
  | Bin o e1 e2 => s1 ← sort_of e1; s2 ← sort_of e2; sort_bin o s1 s2
  | Ite c e1 e2 =>
      match sort_of c, sort_of e1, sort_of e2 with
      | Some BoolSort, Some s1, Some s2 => if decide (s1 = s2) then Some s1 else None
      | _, _, _ => None
      end
  end.

(** A call returns the expression or throws when its sort check fails. *)
Definition mk (e : expr) : res expr :=
  match sort_of e with Some _ => Ok e | None => Err Z3Exception end.

Definition is_bool (e : expr) : bool := bool_decide (sort_of e = Some BoolSort).
Definition is_bv (e : expr) : bool :=
  match sort_of e with Some (BvSort _) => true | _ => false end.

(** [e.get_sort().bv_size()] *)
Definition bv_size (e : expr) : res Z :=
  match sort_of e with Some (BvSort n) => Ok n | _ => Err Z3Exception end.

(** The overloaded operators that take booleans too. *)
Definition overloaded (l : logop) (b : bvop) (e1 e2 : expr) : res expr :=
  mk (Bin (if is_bool e1 && is_bool e2 then Logic l else BvOp b) e1 e2).

(** ** Meaning *)

Definition assignment := symbol -> sort -> Z.

Definition width (e : expr) : Z :=
  match sort_of e with Some (BvSort n) => n | _ => 1 end.

Definition un_value (o : unop) (n v : Z) : Z :=
  match o with
  | Not => Z.b2z (v =? 0)
  | BvNot => wrap n (Z.lnot v)
  | BvNeg => wrap n (- v)
  | ZeroExt _ => v
  | SignExt k => wrap (n + k) (signed n v)
  | Extract hi lo => wrap (hi - lo + 1) (Z.shiftr v lo)
  end.

Definition log_value (o : logop) (v1 v2 : Z) : Z :=
  match o with And => Z.land v1 v2 | Or => Z.lor v1 v2 | Xor => Z.lxor v1 v2 end.

(** Division by zero has a value. *)
Definition bv_value (o : bvop) (n v1 v2 : Z) : Z :=
  match o with
  | BvAnd => Z.land v1 v2
  | BvOr => Z.lor v1 v2
  | BvXor => Z.lxor v1 v2
  | BvAdd => wrap n (v1 + v2)
  | BvSub => wrap n (v1 - v2)
  | BvMul => wrap n (v1 * v2)
  | BvUDiv => if v2 =? 0 then 2 ^ n - 1 else v1 / v2
  | BvSDiv =>
      if v2 =? 0 then (if signed n v1 <? 0 then 1 mod 2 ^ n else 2 ^ n - 1)
      else wrap n (Z.quot (signed n v1) (signed n v2))
  | BvURem => if v2 =? 0 then v1 else v1 mod v2
  | BvSRem => if v2 =? 0 then v1 else wrap n (Z.rem (signed n v1) (signed n v2))
  | BvShl => if n <=? v2 then 0 else wrap n (Z.shiftl v1 v2)
  | BvLShr => if n <=? v2 then 0 else Z.shiftr v1 v2
  | BvAShr => wrap n (Z.shiftr (signed n v1) (Z.min v2 n))
  end.

Definition rel_value (o : bvrel) (n v1 v2 : Z) : bool :=
  match o with
  | Ult => v1 <? v2
  | Ule => v1 <=? v2
  | Ugt => v2 <? v1
  | Uge => v2 <=? v1
  | Slt => signed n v1 <? signed n v2
  | Sle => signed n v1 <=? signed n v2
  | Sgt => signed n v2 <? signed n v1
  | Sge => signed n v2 <=? signed n v1
  end.

Definition bin_value (o : binop) (n1 n2 v1 v2 : Z) : Z :=
  match o with
  | Eq => Z.b2z (v1 =? v2)
  | Distinct => Z.b2z (negb (v1 =? v2))
  | Concat => v1 * 2 ^ n2 + v2
  | Logic o => log_value o v1 v2
  | BvOp o => bv_value o n1 v1 v2
  | BvRel o => Z.b2z (rel_value o n1 v1 v2)
  end.

(** The value of an expression; that of a boolean is 0 or 1. *)
Fixpoint value (a : assignment) (e : expr) : Z :=
  match e with
  | Const s BoolSort => wrap 1 (a s BoolSort)
  | Const s (BvSort n) => wrap n (a s (BvSort n))
  | BvVal v n => wrap n v
  | BoolVal b => Z.b2z b
  | Un o e => un_value o (width e) (value a e)
  | Bin o e1 e2 => bin_value o (width e1) (width e2) (value a e1) (value a e2)
  | Ite c e1 e2 => if value a c =? 1 then value a e1 else value a e2
  end.

Lemma value_ext a a' e : (forall s t, (s, t) ∈ consts e -> a s t = a' s t) -> value a e = value a' e.
Proof.
  induction e as [s t| | |o e IH|o e1 IH1 e2 IH2|c IHc e1 IH1 e2 IH2]; simpl; intros H; try done.
  - destruct t; rewrite H by (by left); done.
  - by rewrite IH.
  - rewrite IH1, IH2; [done| |]; intros s t Hs; apply H, elem_of_app; tauto.
  - rewrite IHc, IH1, IH2; [done| | |]; intros s t Hs; apply H; rewrite !elem_of_app; tauto.
Qed.

(** ** The simplifier and the solver *)

(** A model gives values to constants. *)
Definition model := list (symbol * sort * Z).
Inductive check_result := sat (m : model) | unsat | unknown.

(** An assignment that takes the values of a model. *)
Definition extends (a : assignment) (m : model) : Prop := forall s t v, (s, t, v) ∈ m -> a s t = v.

Class Library := {
  simplify : expr -> expr;
  check : list expr -> check_result    (* the assertions *)
}.

(** A simplified expression means the same and has no new constants; a model is
    of the constants in the assertions, gives every one at most one value, and
    makes them true whatever the constants that it leaves out are. *)
Class LibraryLaws {L : Library} : Prop := {
  simplify_sort e s : sort_of e = Some s -> sort_of (simplify e) = Some s;
  simplify_value e s a : sort_of e = Some s -> value a (simplify e) = value a e;
  simplify_consts e c : c ∈ consts (simplify e) -> c ∈ consts e;
  check_sat l m : check l = sat m -> forall a, extends a m -> Forall (fun e => value a e = 1) l;
  check_unsat l : check l = unsat -> forall a, ~ Forall (fun e => value a e = 1) l;
  check_consts l m s t v : check l = sat m -> (s, t, v) ∈ m -> exists e, e ∈ l /\ (s, t) ∈ consts e;
  check_once l m : check l = sat m -> NoDup (fst <$> m);
  check_range l m s n v : check l = sat m -> (s, BvSort n, v) ∈ m -> is_u n v
}.

(** [context.int_symbol(n)]: "the legal range of unsigned integers is 0 to 2^30-1". *)
Definition int_symbol (n : Z) : res symbol :=
  if (0 <=? n) && (n <? 2 ^ 30) then Ok (IntSymbol n) else Err Z3Exception.

(** [e.get_numeral_int()]: throws when the number is not an [int]. *)
Definition get_numeral_int (v : Z) : res Z := if v <? 2 ^ 31 then Ok v else Err Z3Exception.

End z3.
