(* ===== verification/Z3Ts.v ===== *)
(** * The Z3 parser and solver: [include/parse-z3.h] and [solvers/z3-ts.cpp]

    Reads the label table of a run, turns labels into Z3 expressions in one
    linear pass, keeps the constraints of earlier branches by the input bytes
    they read, and solves a branch together with the earlier branches that share
    bytes with it. The sources are modelled as they are built, with
    [FILTER_WRONG_AST] off. *)

From S2P Require Import Prelude Dfsan Cstr Z3.
Local Open Scope prog_scope.

Module Z3AstParser.

(** ** State *)

(** An input and an offset in it. *)
Definition offset_t : Type := Z * Z.

Record branch_dependency := mk_dep {
  expr_deps : list z3.expr;
  input_deps : gset offset_t
}.

(** The parser; a null expression is [None]. [out_tasks] is the vector of task
    numbers that the caller passes. *)
Record state := mk_state {
  prev_task_id_ : Z;
  tasks_ : gmap Z (list z3.expr);
  memcmp_cache_ : gmap Z (list Z);
  tsize_cache_ : list Z;                     (* uint32_t *)
  expr_cache_ : list (option z3.expr);
  deps_cache_ : list (gset offset_t);
  branch_deps_ : list (list (option branch_dependency));
  has_fsize : bool;
  out_tasks : list Z
}.

Definition set_tasks t i out s := mk_state i t (memcmp_cache_ s) (tsize_cache_ s) (expr_cache_ s)
  (deps_cache_ s) (branch_deps_ s) (has_fsize s) out.
Definition set_memcmp_cache x s := mk_state (prev_task_id_ s) (tasks_ s) x (tsize_cache_ s)
  (expr_cache_ s) (deps_cache_ s) (branch_deps_ s) (has_fsize s) (out_tasks s).
Definition set_caches t e d s := mk_state (prev_task_id_ s) (tasks_ s) (memcmp_cache_ s) t e d
  (branch_deps_ s) (has_fsize s) (out_tasks s).
Definition set_branch_deps b s := mk_state (prev_task_id_ s) (tasks_ s) (memcmp_cache_ s)
  (tsize_cache_ s) (expr_cache_ s) (deps_cache_ s) b (has_fsize s) (out_tasks s).
Definition set_has_fsize b s := mk_state (prev_task_id_ s) (tasks_ s) (memcmp_cache_ s)
  (tsize_cache_ s) (expr_cache_ s) (deps_cache_ s) (branch_deps_ s) b (out_tasks s).

Definition new_state : state := mk_state 0 ∅ ∅ [] [] [] [] false [].

(** The reserved entries are those of label 0. *)
Definition restart (inputs : list (list Z)) : M state Z := fun s =>
  (Ok 0, mk_state (prev_task_id_ s) (tasks_ s) ∅ [0] [None] [∅]
           ((fun b => replicate (length b) None) <$> inputs) (has_fsize s) (out_tasks s)).

Definition record_memcmp (label : Z) (buf : list Z) : M state Z :=
  modify (fun s => match memcmp_cache_ s !! label with
                   | Some _ => s
                   | None => set_memcmp_cache (<[label := buf]> (memcmp_cache_ s)) s
                   end) ;;;
  ret 0.

Definition save_task (task : list z3.expr) : M state Z :=
  let! tid := gets prev_task_id_ in
  modify (fun s => set_tasks (<[tid := task]> (tasks_ s)) (u64 (tid + 1)) (out_tasks s) s) ;;;
  ret tid.

Definition retrieve_task (id : Z) : M state (option (list z3.expr)) :=
  let! t := gets (fun s => tasks_ s !! id) in
  match t with
  | None => ret None
  | Some _ =>
      modify (fun s => set_tasks (delete id (tasks_ s)) (prev_task_id_ s) (out_tasks s) s) ;;; ret t
  end.

(** [tasks.push_back(save_task(task))] *)
Definition push_task (task : list z3.expr) : M state unit :=
  let! tid := save_task task in
  modify (fun s => set_tasks (tasks_ s) (prev_task_id_ s) (out_tasks s ++ [tid]) s).

(** ** Caches *)

Definition cache_expr (l : Z) (e : z3.expr) : M state unit :=
  let! s := gets id in
  if negb (l =? Z.of_nat (length (expr_cache_ s))) then throw Z3Exception
  else modify (set_caches (tsize_cache_ s) (expr_cache_ s ++ [Some e]) (deps_cache_ s)).

(** The expression of a label and the inputs it depends on. *)
Definition get_cached_expr (l : Z) : M state (z3.expr * gset offset_t) :=
  let! s := gets id in
  if Z.of_nat (length (expr_cache_ s)) <=? l then throw Z3Exception
  else
    let! o := lift (idx (expr_cache_ s !! Z.to_nat l)) in
    match o with
    | None => throw Z3Exception
    | Some e => let! d := lift (idx (deps_cache_ s !! Z.to_nat l)) in ret (e, d)
    end.

(** [tsize_cache_.emplace_back(n)], [deps_cache_.emplace_back()] *)
Definition push_tsize (n : Z) : M state unit :=
  modify (fun s => set_caches (tsize_cache_ s ++ [u32 n]) (expr_cache_ s) (deps_cache_ s) s).
Definition push_deps : M state unit :=
  modify (fun s => set_caches (tsize_cache_ s) (expr_cache_ s) (deps_cache_ s ++ [∅]) s).
(** [input_deps], a reference to the last entry, grows. *)
Definition add_deps (d : gset offset_t) : M state unit :=
  modify (fun s => set_caches (tsize_cache_ s) (expr_cache_ s)
    (alter (fun x => x ∪ d) (pred (length (deps_cache_ s))) (deps_cache_ s)) s).

(** [get_cached_expr(l, input_deps)] *)
Definition cached (l : Z) : M state z3.expr :=
  let! (e, d) := get_cached_expr l in add_deps d ;;; ret e.

Definition tsize_of (l : Z) : M state Z :=
  let! s := gets id in lift (idx (tsize_cache_ s !! Z.to_nat l)).

(** ** Names *)

Definition input_prefix : list Z := [105; 110; 112; 117; 116].            (* "input" *)
Definition atoi_prefix : list Z := [97; 116; 111; 105].                    (* "atoi" *)
Definition fsize_name : list Z := [102; 115; 105; 122; 101].               (* "fsize" *)

(** [input_name_format] and [atoi_name_format]; the character 45 is the dash. *)
Definition input_name (input offset : Z) : list Z :=
  input_prefix ++ 45 :: print_unsigned 10 input ++ 45 :: print_unsigned 10 offset.
Definition atoi_name (input offset base : Z) : list Z :=
  atoi_prefix ++ 45 :: print_unsigned 10 input ++ 45 :: print_unsigned 10 offset ++
    45 :: print_signed (u64 (signed 32 base)).

(** The constant of an input byte. *)
Definition input_byte (input offset : Z) : z3.expr :=
  z3.Const (z3.StrSymbol (input_name input offset)) (z3.BvSort 8).

(** ** Serialisation *)

Section parser.
Context {LLVM : InstructionDef} {L : z3.Library}.
(** The label table and the number of labels it can hold. *)
Context (base_ : gmap Z dfsan_label_info) (size_ : Z).

Definition get_label_info (l : Z) : res dfsan_label_info :=
  if size_ <=? l then Err OutOfRange else Ok (info_at base_ l).

(** The bytes recorded for a [memcmp]. The counter is a [uint8_t], so the loop
    never ends for a size of 256 or more, and 256 is fuel enough for the others. *)
Fixpoint concrete_loop (fuel : nat) (content : list Z) (size i : Z) (val : z3.expr) : res z3.expr :=
  if i <? size then
    match fuel with
    | O => Err NoFuel
    | S fuel' =>
        let? b := idx (content !! Z.to_nat i) in
        let? val := z3.mk (z3.Bin z3.Concat (z3.BvVal b 8) val) in
        concrete_loop fuel' content size (u8 (i + 1)) val
    end
  else Ok val.

Definition read_concrete (label size : Z) : M state z3.expr :=
  let! s := gets id in
  match memcmp_cache_ s !! label with
  | None => throw Z3Exception
  | Some content =>
      let! b := lift (idx (content !! 0%nat)) in
      lift (concrete_loop 256 content size 1 (z3.BvVal b 8))
  end.

Definition get_cmd (lhs rhs : z3.expr) (predicate : Z) : res z3.expr :=
  let rel r := z3.mk (z3.Bin (z3.BvRel r) lhs rhs) in
  if predicate =? bveq then z3.mk (z3.Bin z3.Eq lhs rhs)
  else if predicate =? bvneq then z3.mk (z3.Bin z3.Distinct lhs rhs)
  else if predicate =? bvugt then rel z3.Ugt
  else if predicate =? bvuge then rel z3.Uge
  else if predicate =? bvult then rel z3.Ult
  else if predicate =? bvule then rel z3.Ule
  else if predicate =? bvsgt then rel z3.Sgt
  else if predicate =? bvsge then rel z3.Sge
  else if predicate =? bvslt then rel z3.Slt
  else if predicate =? bvsle then rel z3.Sle
  else Err Z3Exception.

(** Bytes [offset + i] to [offset + i + n - 1] in front of [out], with the inputs
    they depend on. *)
Fixpoint load_loop (n : nat) (input offset i : Z) (out : z3.expr) (d : gset offset_t)
    : res (z3.expr * gset offset_t) :=
  match n with
  | O => Ok (out, d)
  | S n' =>
      let o := u32 (offset + i) in
      let? out := z3.mk (z3.Bin z3.Concat (input_byte input o) out) in
      load_loop n' input offset (i + 1) out (d ∪ {[(input, o)]})
  end.

(** *** Labels with a rule of their own *)

Definition input_label (l : Z) (info : dfsan_label_info) : M state unit :=
  let offset := u32 (i_op1 info) in
  let input := u32 (i_op2 info) in
  push_tsize 1 ;;; add_deps {[(input, offset)]} ;;; cache_expr l (input_byte input offset).

Definition load_label (l : Z) (info : dfsan_label_info) : M state unit :=
  let! src := lift (get_label_info (i_l1 info)) in
  let offset := u32 (i_op1 src) in
  let input := u32 (i_op2 src) in
  let! (out, d) := lift (load_loop (Z.to_nat (i_l2 info - 1)) input offset 1
                           (input_byte input offset) {[(input, offset)]}) in
  add_deps d ;;; push_tsize 1 ;;; cache_expr l out.

(** "dirty hack since llvm lacks bool" *)
Definition bool_to_bv (e : z3.expr) : res z3.expr :=
  if z3.is_bool e then z3.mk (z3.Ite e (z3.BvVal 1 1) (z3.BvVal 0 1)) else Ok e.

(** A label whose expression is made from that of one operand [l0]. *)
Definition unary_label (l l0 : Z) (prepare f : z3.expr -> res z3.expr) : M state unit :=
  let! e := cached l0 in
  let! e := lift (prepare e) in
  let! n := tsize_of l0 in
  push_tsize n ;;;
  let! e := lift (f e) in
  cache_expr l e.

Definition extend (o : Z -> z3.unop) (size : Z) (e : z3.expr) : res z3.expr :=
  let? n := z3.bv_size e in z3.mk (z3.Un (o (u32 (size - n))) e).

Definition memcmp_label (l : Z) (info : dfsan_label_info) : M state unit :=
  let! op1 := (if CONST_OFFSET <=? i_l1 info then cached (i_l1 info)
               else read_concrete l (i_size info)) in
  if i_l2 info <? CONST_OFFSET then throw Z3Exception
  else
    let! op2 := cached (i_l2 info) in
    push_tsize 1 ;;;
    let! c := lift (z3.mk (z3.Bin z3.Eq op1 op2)) in
    let! e := lift (z3.mk (z3.Ite c (z3.BvVal 0 32) (z3.BvVal 1 32))) in
    cache_expr l e.

Definition fsize_label (l : Z) (info : dfsan_label_info) : M state unit :=
  let! b := lift (z3.mk (z3.Const (z3.StrSymbol fsize_name) (z3.BvSort (i_size info)))) in
  push_tsize 1 ;;;
  modify (set_has_fsize true) ;;;
  if negb (i_op1 info =? 0) then
    let! offset := lift (z3.mk (z3.BvVal (i_op1 info) (i_size info))) in
    let! e := lift (z3.mk (z3.Bin (z3.BvOp z3.BvSub) b offset)) in
    cache_expr l e
  else cache_expr l b.

Definition atoi_label (l : Z) (info : dfsan_label_info) : M state unit :=
  assert_ ((i_l1 info =? 0) && (CONST_OFFSET <=? i_l2 info)) ;;;
  let! src := lift (get_label_info (i_l2 info)) in
  assert_ (i_op src =? Load) ;;;
  let! b := lift (get_label_info (i_l1 src)) in
  push_tsize 1 ;;;
  let name := atoi_name (u32 (i_op2 b)) (u32 (i_op1 b)) (u32 (i_op1 info)) in
  let! e := lift (z3.mk (z3.Const (z3.StrSymbol name) (z3.BvSort (i_size info)))) in
  cache_expr l e.

(** *** Common operators *)

(** The size of a constant operand of [Concat] is what the other operand leaves. *)
Definition concat_size (info : dfsan_label_info) (l other size : Z) : M state Z :=
  if (i_op info =? Concat) && (l =? 0) then
    assert_ (CONST_OFFSET <=? other) ;;;
    let! o := lift (get_label_info other) in
    ret (u8 (i_size info - i_size o))
  else ret size.

(** Operand [l], or the constant [v] of [size] bits; "fix size mismatch, only for
    bv and not concat". *)
Definition common_operand (info : dfsan_label_info) (l v size : Z) : M state z3.expr :=
  let! c := lift (z3.mk (z3.BvVal v size)) in
  if CONST_OFFSET <=? l then
    let! e := cached l in
    let e := z3.simplify e in
    if z3.is_bv e && negb (i_op info =? Concat) then
      let! n := lift (z3.bv_size e) in
      let op_size := u8 n in
      if size <? op_size then lift (z3.mk (z3.Un (z3.Extract (size - 1) 0) e))
      else if op_size <? size then lift (z3.mk (z3.Un (z3.ZeroExt (size - op_size)) e))
      else ret e
    else ret e
  else if i_size info =? 1 then ret (z3.BoolVal (v =? 1))
  else ret c.

Definition common_expr (info : dfsan_label_info) (op1 op2 : z3.expr) : res z3.expr :=
  let op := Z.land (i_op info) 0xff in
  let bv o := z3.mk (z3.Bin (z3.BvOp o) op1 op2) in
  if op =? And then
    if negb (i_size info =? 1) then z3.overloaded z3.And z3.BvAnd op1 op2
    else z3.mk (z3.Bin (z3.Logic z3.And) op1 op2)
  else if op =? Or then
    if negb (i_size info =? 1) then z3.overloaded z3.Or z3.BvOr op1 op2
    else z3.mk (z3.Bin (z3.Logic z3.Or) op1 op2)
  else if op =? Xor then z3.overloaded z3.Xor z3.BvXor op1 op2
  else if op =? Shl then bv z3.BvShl
  else if op =? LShr then bv z3.BvLShr
  else if op =? AShr then bv z3.BvAShr
  else if op =? Add then bv z3.BvAdd
  else if op =? Sub then bv z3.BvSub
  else if op =? Mul then bv z3.BvMul
  else if op =? UDiv then bv z3.BvUDiv
  else if op =? SDiv then bv z3.BvSDiv
  else if op =? URem then bv z3.BvURem
  else if op =? SRem then bv z3.BvSRem
  else if op =? ICmp then get_cmd op1 op2 (Z.shiftr (i_op info) 8)
  else if op =? Concat then z3.mk (z3.Bin z3.Concat op2 op1)     (* little endian *)
  else Err Z3Exception.

Definition common_label (l : Z) (info : dfsan_label_info) : M state unit :=
  let! size := concat_size info (i_l1 info) (i_l2 info) (u8 (i_size info)) in
  let! op1 := common_operand info (i_l1 info) (i_op1 info) size in
  let! size := concat_size info (i_l2 info) (i_l1 info) size in
  let! op2 := common_operand info (i_l2 info) (i_op2 info) size in
  let! n1 := tsize_of (i_l1 info) in
  let! n2 := tsize_of (i_l2 info) in
  push_tsize (n1 + n2) ;;;
  let! e := lift (common_expr info op1 op2) in
  cache_expr l e.

(** *** The pass over the labels *)

Definition serialize_label (l : Z) : M state unit :=
  let! info := lift (get_label_info l) in
  push_deps ;;;
  let size := i_size info in
  if i_op info =? 0 then input_label l info
  else if i_op info =? Load then load_label l info
  else if i_op info =? ZExt then unary_label l (i_l1 info) bool_to_bv (extend z3.ZeroExt size)
  else if i_op info =? SExt then unary_label l (i_l1 info) Ok (extend z3.SignExt size)
  else if i_op info =? Trunc then
    unary_label l (i_l1 info) Ok (fun e => z3.mk (z3.Un (z3.Extract (u32 (size - 1)) 0) e))
  else if i_op info =? IntToPtr then unary_label l (i_l1 info) Ok Ok
  else if i_op info =? Extract then
    unary_label l (i_l1 info) Ok
      (fun e => z3.mk (z3.Un (z3.Extract (u32 (i_op2 info + size - 1)) (u32 (i_op2 info))) e))
  else if i_op info =? Not then
    if (i_l2 info =? 0) || negb (size =? 1) then throw Z3Exception
    else unary_label l (i_l2 info) Ok (fun e => z3.mk (z3.Un z3.Not e))
  else if i_op info =? Neg then
    if i_l2 info =? 0 then throw Z3Exception
    else unary_label l (i_l2 info) Ok (fun e => z3.mk (z3.Un z3.BvNeg e))
  else if i_op info =? fmemcmp then memcmp_label l info
  else if i_op info =? fsize then fsize_label l info
  else if i_op info =? fatoi then atoi_label l info
  else if (i_op info =? Alloca) || (i_op info =? Free) then
    push_tsize 0 ;;;
    modify (fun s => set_caches (tsize_cache_ s) (expr_cache_ s ++ [None]) (deps_cache_ s) s)
  else common_label l info.

Fixpoint serialize_loop (n : nat) (l : Z) : M state unit :=
  match n with
  | O => ret tt
  | S n' => serialize_label l ;;; serialize_loop n' (l + 1)
  end.

(** The expression of a label and the inputs it depends on. *)
Definition serialize (label : Z) : M state (z3.expr * gset offset_t) :=
  if (label <? CONST_OFFSET) || (label =? kInitializingLabel) then throw Z3Exception
  else
    let! s := gets id in
    let first := Z.of_nat (length (expr_cache_ s)) in
    serialize_loop (Z.to_nat (label + 1 - first)) first ;;;
    get_cached_expr label.

End parser.

(** ** Branches *)

Definition get_branch_dep (off : offset_t) : M state (option branch_dependency) :=
  let! b := gets branch_deps_ in
  let! offsets := lift (at_ (b !! Z.to_nat (fst off))) in
  lift (at_ (offsets !! Z.to_nat (snd off))).

(** The vector is as long as the input, and [get_branch_dep] comes first. *)
Definition set_branch_dep (off : offset_t) (d : branch_dependency) : M state unit :=
  modify (fun s => set_branch_deps
    (alter (fun offsets => <[Z.to_nat (snd off) := Some d]> offsets) (Z.to_nat (fst off)) (branch_deps_ s)) s).

(** Insertion into a set of expressions. *)
Definition insert_expr (e : z3.expr) (l : list z3.expr) : list z3.expr :=
  if bool_decide (e ∈ l) then l else l ++ [e].

Definition save_constraint (e : z3.expr) (inputs : gset offset_t) : M state unit :=
  for_each (elements inputs) (fun off =>
    let! c := get_branch_dep off in
    let c := default (mk_dep [] ∅) c in
    set_branch_dep off (mk_dep (insert_expr e (expr_deps c)) (input_deps c ∪ inputs))).

(** Offsets are taken from the end of the worklist; every new input of theirs is
    added to it and to the set. *)
Fixpoint push_new (l : list offset_t) (worklist : list offset_t) (inputs : gset offset_t)
    : list offset_t * gset offset_t :=
  match l with
  | [] => (worklist, inputs)
  | i :: l' =>
      if bool_decide (i ∈ inputs) then push_new l' worklist inputs
      else push_new l' (worklist ++ [i]) (inputs ∪ {[i]})
  end.

Fixpoint collect_loop (fuel : nat) (worklist : list offset_t) (inputs : gset offset_t)
    : M state (gset offset_t) :=
  match last worklist with
  | None => ret inputs
  | Some off =>
      match fuel with
      | O => throw NoFuel
      | S fuel' =>
          let worklist := removelast worklist in
          let! deps := get_branch_dep off in
          match deps with
          | None => collect_loop fuel' worklist inputs
          | Some d =>
              let '(worklist, inputs) := push_new (elements (input_deps d)) worklist inputs in
              collect_loop fuel' worklist inputs
          end
      end
  end.

(** Every input that occurs in a set of dependencies. *)
Definition all_deps (s : state) : gset offset_t :=
  ⋃ ((fun o => match o with Some d => input_deps d | None => ∅ end) <$> concat (branch_deps_ s)).

(** An input enters the worklist at most once, so their number is fuel enough. *)
Definition collect_more_deps (inputs : gset offset_t) : M state (gset offset_t) :=
  let! s := gets id in
  collect_loop (size (inputs ∪ all_deps s)) (elements inputs) inputs.

Fixpoint nested_loop (offs : list offset_t) (added : list z3.expr) : M state (list z3.expr) :=
  match offs with
  | [] => ret added
  | off :: offs' =>
      let! deps := get_branch_dep off in
      nested_loop offs' (foldl (fun l e => insert_expr e l) added
                           (match deps with Some d => expr_deps d | None => [] end))
  end.

(** The expressions that are appended to the task. *)
Definition add_nested_constraints (inputs : gset offset_t) : M state (list z3.expr) :=
  nested_loop (elements inputs) [].

(** [catch (z3::exception e) { return -1; }] *)
Definition or_fail (m : M state Z) : M state Z :=
  catch m (fun e => if bool_decide (e = Z3Exception) then ret (-1) else throw e).

Section branches.
Context {LLVM : InstructionDef} {L : z3.Library}.
Context (base_ : gmap Z dfsan_label_info) (size_ : Z).

Definition invalid_label (l : Z) : bool := (l =? kInitializingLabel) || (size_ <=? l).

Definition parse_cond (label : Z) (result add_nested : bool) : M state Z :=
  if (label <? CONST_OFFSET) || invalid_label label then ret (-1)
  else or_fail (
    modify (set_has_fsize false) ;;;
    let! (cond, inputs) := serialize base_ size_ label in
    let r := z3.BoolVal result in
    let! e := lift (z3.mk (z3.Bin z3.Distinct cond r)) in
    let! inputs := collect_more_deps inputs in
    let! nested := add_nested_constraints inputs in
    push_task (e :: nested) ;;;
    let! f := gets has_fsize in
    (if add_nested && negb f then
       let! c := lift (z3.mk (z3.Bin z3.Eq cond r)) in save_constraint c inputs
     else ret tt) ;;;
    ret 0).

(** One task for every index in [[i, ub)], by [step], but the current one. The
    loop does not end for a step of 0; else it has at most [ub - i] rounds. *)
Fixpoint construct_index_tasks (fuel : nat) (index : z3.expr) (curr i ub step : Z)
    (nested : list z3.expr) : M state unit :=
  if i <? ub then
    match fuel with
    | O => throw NoFuel
    | S fuel' =>
        (if i =? curr then ret tt
         else let! e := lift (z3.mk (z3.Bin z3.Eq index (z3.BvVal i 64))) in push_task (e :: nested)) ;;;
        construct_index_tasks fuel' index curr (u64 (i + step)) ub step nested
    end
  else ret tt.

Definition parse_gep (ptr_label ptr index_label index num_elems elem_size current_offset : Z)
    (enum_index : bool) : M state Z :=
  if (index_label <? CONST_OFFSET) || invalid_label index_label || invalid_label ptr_label then ret (-1)
  else if negb enum_index || ((num_elems =? 0) && (ptr_label =? 0)) then ret 0
  else or_fail (
    let! info := lift (get_label_info base_ size_ index_label) in
    let sz := u8 (i_size info) in
    let! r := lift (z3.mk (z3.BvVal index sz)) in
    let! (i, inputs) := serialize base_ size_ index_label in
    let! inputs := collect_more_deps inputs in
    let! nested := add_nested_constraints inputs in
    let! idx := lift (z3.mk (z3.Un (z3.ZeroExt (u32 (64 - sz))) i)) in
    (if 0 <? num_elems then
       construct_index_tasks (Z.to_nat num_elems) idx (u64 index) 0 num_elems 1 nested
     else
       let! bounds := lift (get_label_info base_ size_ ptr_label) in
       if ((i_op bounds =? Alloca) || (i_op bounds =? Free)) && (i_l2 bounds =? 0) then
         let! m := lift (z3.mk (z3.Bin (z3.BvOp z3.BvMul) idx (z3.BvVal elem_size 64))) in
         let! m := lift (z3.mk (z3.Bin (z3.BvOp z3.BvAdd) m (z3.BvVal current_offset 64))) in
         let! np := lift (z3.mk (z3.Bin (z3.BvOp z3.BvAdd) m (z3.BvVal ptr 64))) in
         construct_index_tasks (Z.to_nat (i_op2 bounds - i_op1 bounds)) np (u64 index)
           (i_op1 bounds) (i_op2 bounds) elem_size nested
       else ret tt) ;;;
    let! c := lift (z3.mk (z3.Bin z3.Eq i r)) in
    save_constraint c inputs ;;;
    ret 0).

(** The constraint that a label has the value [result]. *)
Definition value_constraint (label result : Z) : M state (z3.expr * gset offset_t) :=
  let! (e, inputs) := serialize base_ size_ label in
  let! inputs := collect_more_deps inputs in
  let! info := lift (get_label_info base_ size_ label) in
  let! r := lift (z3.mk (z3.BvVal result (u8 (i_size info)))) in
  let r := if z3.is_bool e then z3.BoolVal (negb (result =? 0)) else r in
  let! c := lift (z3.mk (z3.Bin z3.Eq e r)) in
  ret (c, inputs).

Definition add_constraints (label result : Z) : M state Z :=
  if (label <? CONST_OFFSET) || invalid_label label then ret (-1)
  else or_fail (
    let! (c, inputs) := value_constraint label result in save_constraint c inputs ;;; ret 0).

(** Returns the code and the number of the task, which replaces [task_id]. *)
Definition add_constraints_as_task (label result task_id : Z) : M state (Z * Z) :=
  if (label <? CONST_OFFSET) || invalid_label label then ret (-1, task_id)
  else
    let! t := retrieve_task task_id in
    let task := default [] t in
    catch (
      let! (c, inputs) := value_constraint label result in
      save_constraint c inputs ;;;
      let! tid := save_task (task ++ [c]) in
      ret (0, tid))
      (fun e => if bool_decide (e = Z3Exception) then ret (-1, task_id) else throw e).

End branches.

(** ** Solving *)

Inductive solving_status :=
  invalid_task | opt_sat | opt_unsat | opt_timeout | nested_sat | opt_sat_nested_unsat
  | opt_sat_nested_timeout | unknown_error.

#[global] Instance solving_status_eq_dec : EqDecision solving_status.
Proof. solve_decision. Defined.

Record solution_val := mk_val { sv_id : Z; sv_offset : Z; sv_val : Z }.

(** [sscanf] with [input_name_format] and [atoi_name_format]. *)
Definition scan_input_name (s : list Z) : option (Z * Z) :=
  s ← scan_literal (input_prefix ++ [45]) s;
  '(input, s) ← scan_int s;
  s ← scan_literal [45] s;
  '(offset, _) ← scan_int s;
  Some (input, offset).
Definition scan_atoi_name (s : list Z) : option (Z * Z * Z) :=
  s ← scan_literal (atoi_prefix ++ [45]) s;
  '(input, s) ← scan_int s;
  s ← scan_literal [45] s;
  '(offset, s) ← scan_int s;
  s ← scan_literal [45] s;
  '(base, _) ← scan_int s;
  Some (input, offset, base).

Definition starts_with (p s : list Z) : bool := bool_decide (take (length p) s = p).

(** The text of a number and the NUL after it. *)
Fixpoint text_solution (input offset : Z) (text : list Z) : list solution_val :=
  match text with
  | [] => [mk_val input offset 0]
  | c :: text' => mk_val input offset c :: text_solution input (u32 (offset + 1)) text'
  end.

(** The solution values of one constant of the model. *)
Definition const_solution (s : z3.symbol) (v : Z) : res (list solution_val) :=
  match s with
  | z3.IntSymbol _ => Ok []
  | z3.StrSymbol name =>
      if starts_with input_prefix name then
        let? (input, offset) := idx (scan_input_name name) in
        let? x := z3.get_numeral_int v in
        Ok [mk_val input offset (u8 x)]
      else if bool_decide (name = fsize_name) then Err Z3Exception
      else if starts_with atoi_prefix name then
        let? (input, offset, base) := idx (scan_atoi_name name) in
        if bool_decide (base ∈ [2; 8; 10; 16]) then
          let? x := z3.get_numeral_int v in
          Ok (text_solution input offset (print_unsigned base x))
        else Err Z3Exception
      else Err Z3Exception
  end.

(** The values, as far as the loop gets. *)
Fixpoint generate_solution (m : z3.model) : res unit * list solution_val :=
  match m with
  | [] => (Ok tt, [])
  | (s, _, v) :: m' =>
      match const_solution s v with
      | Err e => (Err e, [])
      | Ok l => let '(r, l') := generate_solution m' in (r, l ++ l')
      end
  end.

Definition solve_task {L : z3.Library} (task_id : Z) : M state (solving_status * list solution_val) :=
  let! t := retrieve_task task_id in
  match t with
  | None => ret (invalid_task, [])
  | Some task =>
      let! e := lift (at_ (task !! 0%nat)) in
      match z3.check [e] with
      | z3.unsat => ret (opt_unsat, [])
      | z3.unknown => ret (opt_timeout, [])
      | z3.sat m =>
          let '(status, m) :=
            if (1 <? length task)%nat then
              match z3.check task with
              | z3.sat m' => (nested_sat, m')
              | z3.unsat => (opt_sat_nested_unsat, m)
              | z3.unknown => (opt_sat_nested_timeout, m)
              end
            else (nested_sat, m) in
          let '(r, solutions) := generate_solution m in
          match r with
          | Ok _ => ret (status, solutions)
          | Err Z3Exception => ret (unknown_error, solutions)
          | Err e => throw e
          end
      end
  end.

End Z3AstParser.
