(* ===== verification/Z3Spec.v ===== *)
(** * The Z3 expression of a label

    [serialize] gives every label an expression of the right sort, that means
    what the label means on every input and mentions only input bytes that are
    recorded as dependencies. *)

From S2P Require Import Prelude Dfsan LabelSem Cstr Runtime Z3 Z3Ts.
Import Z3AstParser.
Local Open Scope prog_scope.

(** ** Names of input bytes *)

Lemma scan_input_name_print i off : is_u 32 i -> is_u 32 off ->
  scan_input_name (input_name i off) = Some (i, off).
Proof.
  intros Hi Ho. unfold scan_input_name, input_name.
  change (scan_literal (input_prefix ++ [45])
    (input_prefix ++ 45 :: print_unsigned 10 i ++ 45 :: print_unsigned 10 off))
    with (Some (print_unsigned 10 i ++ 45 :: print_unsigned 10 off)). simpl.
  rewrite scan_print_unsigned by done. simpl.
  rewrite <- (app_nil_r (print_unsigned 10 off)), scan_print_unsigned by done. done.
Qed.

Lemma input_name_inj off off' : is_u 32 off -> is_u 32 off' -> input_name 0 off = input_name 0 off' -> off = off'.
Proof.
  intros Ho Ho' E. pose proof (scan_input_name_print 0 off ltac:(done) Ho) as H1.
  rewrite E, scan_input_name_print in H1 by done. by injection H1.
Qed.

(** The symbol that stands for an input byte. *)
Class Naming := byte_symbol : Z -> z3.symbol.

(** The names of this parser. *)
Definition ts_naming : Naming := fun off => z3.StrSymbol (input_name 0 off).
#[local] Existing Instance ts_naming.

(** The assignment takes the bytes of the input [env]. *)
Definition reads {N : Naming} (a : z3.assignment) (env : input_env) : Prop :=
  forall off, is_u 32 off -> a (byte_symbol off) (z3.BvSort 8) mod 256 = env off mod 256.

(** ** Expressions and what they mean *)

Definition sort_width (s : z3.sort) : Z := match s with z3.BvSort n => n | z3.BoolSort => 1 end.

Section means.
Context {N : Naming} (len : Z).

(** [e] has the sort [s] and the value [v env] on the input [env]; it reads
    bytes in [d], which are bytes of the input. *)
Record means (e : z3.expr) (s : z3.sort) (v : input_env -> Z) (d : gset offset_t) : Prop := {
  mn_sort : z3.sort_of e = Some s;
  mn_value : forall a env, reads a env -> z3.value a e = v env;
  mn_consts : forall c, c ∈ z3.consts e -> exists off, (0, off) ∈ d /\
    c = (byte_symbol off, z3.BvSort 8);
  mn_deps : forall i off, (i, off) ∈ d -> i = 0 /\ 0 <= off < len
}.

Lemma means_width e s v d : means e s v d -> z3.width e = sort_width s.
Proof. intros [Hs _ _ _]. unfold z3.width. rewrite Hs. by destruct s. Qed.

Lemma means_mk e s v d : means e s v d -> z3.mk e = Ok e.
Proof. intros [Hs _ _ _]. unfold z3.mk. by rewrite Hs. Qed.

Lemma means_ext e s v v' d : (forall env, v env = v' env) -> means e s v d -> means e s v' d.
Proof. intros Hv [H1 H2 H3 H4]. split; [done| |done..]. intros a env Hr. by rewrite <- Hv, (H2 a env Hr). Qed.

Lemma means_deps e s v d d' : means e s v d -> d ⊆ d' ->
  (forall i off, (i, off) ∈ d' -> i = 0 /\ 0 <= off < len) -> means e s v d'.
Proof.
  intros [H1 H2 H3 H4] Hd Hd'. split; [done..| |done].
  intros c Hc. destruct (H3 c Hc) as (off & Ho & ->). exists off. split; [set_solver|done].
Qed.

Lemma means_bv v n : 0 < n -> means (z3.BvVal v n) (z3.BvSort n) (fun _ => wrap n v) ∅.
Proof.
  intros Hn. split; simpl; [|done| |set_solver].
  - by rewrite (proj2 (Z.ltb_lt 0 n)) by lia.
  - intros c Hc. by apply elem_of_nil in Hc.
Qed.

Lemma means_bool b : means (z3.BoolVal b) z3.BoolSort (fun _ => Z.b2z b) ∅.
Proof. split; simpl; [done|done| |set_solver]. intros c Hc. by apply elem_of_nil in Hc. Qed.

Lemma means_byte off : len <= 2 ^ 32 -> 0 <= off < len ->
  means (z3.Const (byte_symbol off) (z3.BvSort 8)) (z3.BvSort 8) (fun env => env off mod 256) {[(0, off)]}.
Proof.
  intros Hlen Ho. split; simpl; [done| | |].
  - intros a env Hr. unfold wrap. change (2 ^ 8) with 256. apply Hr. unfold is_u. lia.
  - intros c Hc. apply list_elem_of_singleton in Hc as ->. exists off. split; [set_solver|done].
  - intros i o. rewrite elem_of_singleton. intros [= -> ->]. lia.
Qed.

Lemma means_un o e s s' v d : means e s v d -> z3.sort_un o s = Some s' ->
  means (z3.Un o e) s' (fun env => z3.un_value o (sort_width s) (v env)) d.
Proof.
  intros He Hs. pose proof (means_width _ _ _ _ He) as Hw. destruct He as [H1 H2 H3 H4]. split; simpl.
  - by rewrite H1.
  - intros a env Hr. by rewrite Hw, (H2 a env Hr).
  - done.
  - done.
Qed.

Lemma means_bin o e1 e2 s1 s2 s v1 v2 d : means e1 s1 v1 d -> means e2 s2 v2 d ->
  z3.sort_bin o s1 s2 = Some s ->
  means (z3.Bin o e1 e2) s
    (fun env => z3.bin_value o (sort_width s1) (sort_width s2) (v1 env) (v2 env)) d.
Proof.
  intros He1 He2 Hs. pose proof (means_width _ _ _ _ He1) as Hw1.
  pose proof (means_width _ _ _ _ He2) as Hw2.
  destruct He1 as [H1 H2 H3 H4], He2 as [K1 K2 K3 K4]. split; simpl.
  - by rewrite H1, K1.
  - intros a env Hr. by rewrite Hw1, Hw2, (H2 a env Hr), (K2 a env Hr).
  - intros c [Hc|Hc]%elem_of_app; auto.
  - done.
Qed.

(** The next byte of a load. *)
Lemma means_load off j out d : len <= 2 ^ 32 -> 0 <= off -> off + Z.of_nat j < len ->
  means out (z3.BvSort (8 * Z.of_nat j)) (fun env => le_bytes env off j) d ->
  means (z3.Bin z3.Concat (z3.Const (byte_symbol (off + Z.of_nat j)) (z3.BvSort 8)) out)
    (z3.BvSort (8 * Z.of_nat (S j))) (fun env => le_bytes env off (S j)) (d ∪ {[(0, off + Z.of_nat j)]}).
Proof.
  intros Hlen H0 Hj Hm. set (o := off + Z.of_nat j) in *.
  pose proof (means_byte o Hlen ltac:(unfold o; lia)) as Hbyte.
  assert (forall a b, (a, b) ∈ d ∪ {[(0, o)]} -> a = 0 /\ 0 <= b < len) as Hd.
  { intros a b [Hab|Hab]%elem_of_union; [by apply (mn_deps _ _ _ _ Hm)|].
    apply elem_of_singleton in Hab as [= -> ->]. unfold o. lia. }
  eapply means_ext; [|eapply means_bin; [eapply means_deps; [exact Hbyte|set_solver|done]|
    eapply means_deps; [exact Hm|set_solver|done]|]].
  - intros env. cbn [z3.bin_value sort_width]. rewrite (le_bytes_snoc env off j). fold o. lia.
  - simpl. do 2 f_equal. lia.
Qed.

Lemma means_bool_to_bv e v d : means e z3.BoolSort v d -> (forall env, is_u 1 (v env)) ->
  exists e', bool_to_bv e = Ok e' /\ means e' (z3.BvSort 1) v d.
Proof.
  intros He Hv. pose proof He as [H1 H2 H3 H4]. unfold bool_to_bv.
  unfold z3.is_bool. rewrite bool_decide_eq_true_2 by done. unfold z3.mk. simpl. rewrite H1. simpl.
  eexists. split; [reflexivity|]. split; simpl.
  - by rewrite H1.
  - intros a env Hr. rewrite (H2 a env Hr). specialize (Hv env). unfold is_u in Hv. change (2 ^ 1) with 2 in Hv.
    destruct (Z.eqb_spec (v env) 1) as [->|]; [done|]. by assert (v env = 0) as -> by lia.
  - intros c Hc. rewrite !app_nil_r in Hc. auto.
  - done.
Qed.

Context {L : z3.Library} {LL : z3.LibraryLaws}.

Lemma means_simplify e s v d : means e s v d -> means (z3.simplify e) s v d.
Proof.
  intros [H1 H2 H3 H4]. split; [by apply z3.simplify_sort| | |done].
  - intros a env Hr. rewrite (z3.simplify_value e s) by done. by apply H2.
  - intros c Hc. by apply H3, z3.simplify_consts.
Qed.

End means.

Lemma means_input len off : len <= 2 ^ 32 -> 0 <= off < len ->
  means len (input_byte 0 off) (z3.BvSort 8) (fun env => env off mod 256) {[(0, off)]}.
Proof. exact (means_byte len off). Qed.

(** ** The labels that Z3 expressions are made for *)

Section support.
Context {LLVM : InstructionDef} (t : gmap Z dfsan_label_info).

Definition is_logic (op : Z) : bool := (op =? And) || (op =? Or) || (op =? Xor).

(** Comparisons, negations and one-bit logic are booleans of Z3. *)
Definition label_sort (i : dfsan_label_info) : z3.sort :=
  if is_icmp (i_op i) || (i_op i =? Not) || (is_logic (i_op i) && (i_size i =? 1))
  then z3.BoolSort else z3.BvSort (i_size i).

Definition boolean (l : Z) : bool := bool_decide (label_sort (info_at t l) = z3.BoolSort).

(** A one-bit operand: a boolean label, or 0 or 1. *)
Definition bool_operand (l v : Z) : bool := if l =? 0 then (v =? 0) || (v =? 1) else boolean l.

(** What [serialize] asks for beyond the sizes of [well_sized]: bytes of input 0,
    which has [len] bytes, sizes that fit into 8 bits, and no boolean where Z3
    wants a bit-vector. *)
Definition z3_ok (len : Z) (i : dfsan_label_info) : Prop :=
  i_size i < 256 /\
  if i_op i =? 0 then i_op2 i = 0 /\ 0 <= i_op1 i < len
  else if i_op i =? Load then
    let src := info_at t (i_l1 i) in
    1 <= i_l2 i /\ i_op2 src = 0 /\ 0 <= i_op1 src /\ i_op1 src + i_l2 i <= len
  else if i_op i =? ZExt then True
  else if (i_op i =? SExt) || (i_op i =? Trunc) || (i_op i =? Extract) then boolean (i_l1 i) = false
  else if i_op i =? Concat then
    (i_l1 i <> 0 -> boolean (i_l1 i) = false) /\ (i_l2 i <> 0 -> boolean (i_l2 i) = false)
  else if i_op i =? Not then boolean (i_l2 i) = true
  else
    ((is_binary (i_op i) = true /\ (i_size i = 1 -> is_logic (i_op i) = true)) \/
     (is_icmp (i_op i) = true /\ bveq <= Z.shiftr (i_op i) 8 <= bvsle /\
      (i_size i = 1 -> Z.shiftr (i_op i) 8 <= bvneq))) /\
    (i_size i = 1 -> bool_operand (i_l1 i) (i_op1 i) = true /\ bool_operand (i_l2 i) (i_op2 i) = true).

Lemma sort_bits i : boolean i = false -> label_sort (info_at t i) = z3.BvSort (i_size (info_at t i)).
Proof.
  unfold boolean. intros H%bool_decide_eq_false. unfold label_sort in *.
  by destruct (is_icmp _ || _ || _).
Qed.

Lemma sort_bool i : boolean i = true -> label_sort (info_at t i) = z3.BoolSort.
Proof. unfold boolean. by intros H%bool_decide_eq_true. Qed.

(** The width of a label is that of its sort. *)
Lemma label_sort_width l : well_sized t (info_at t l) ->
  sort_width (label_sort (info_at t l)) = label_width t l.
Proof.
  intros [Hs Hw]. unfold label_width, label_sort. destruct (is_icmp (i_op (info_at t l))) eqn:Ei; simpl.
  { by rewrite width_icmp. }
  rewrite width_other by done. destruct (Z.eqb_spec (i_op (info_at t l)) Not) as [E|]; simpl.
  - revert Hw. rewrite E. ops. lia.
  - destruct (is_logic _ && _) eqn:E; [|done]. apply andb_true_iff in E as [_ E%Z.eqb_eq]. by rewrite E.
Qed.

(** The operator of Z3 for a binary operator, and for one-bit logic. *)
Definition bv_of (op : Z) : z3.bvop :=
  if op =? Add then z3.BvAdd else if op =? Sub then z3.BvSub else if op =? Mul then z3.BvMul
  else if op =? UDiv then z3.BvUDiv else if op =? SDiv then z3.BvSDiv else if op =? URem then z3.BvURem
  else if op =? SRem then z3.BvSRem else if op =? Shl then z3.BvShl else if op =? LShr then z3.BvLShr
  else if op =? AShr then z3.BvAShr else if op =? And then z3.BvAnd else if op =? Or then z3.BvOr
  else z3.BvXor.
Definition log_of (op : Z) : z3.logop :=
  if op =? And then z3.And else if op =? Or then z3.Or else z3.Xor.

Lemma bv_of_value op w w1 v1 v2 : is_binary op = true ->
  z3.bv_value (bv_of op) w v1 v2 = op_value op w w1 v1 v2.
Proof.
  rewrite binary_iff. intros Hb. destruct_or! Hb; subst op; unfold bv_of, op_value; by ops.
Qed.

Lemma log_of_value op w w1 v1 v2 : is_logic op = true ->
  z3.log_value (log_of op) v1 v2 = op_value op w w1 v1 v2.
Proof.
  unfold is_logic. rewrite !orb_true_iff, !Z.eqb_eq. clear t.
  intros [[-> | ->]| ->]; unfold log_of, op_value; by ops.
Qed.

Lemma overloaded_bits lo bo e1 e2 w : z3.sort_of e1 = Some (z3.BvSort w) ->
  z3.overloaded lo bo e1 e2 = z3.mk (z3.Bin (z3.BvOp bo) e1 e2).
Proof. intros E. unfold z3.overloaded, z3.is_bool. rewrite E. by rewrite bool_decide_eq_false_2. Qed.

Lemma overloaded_bools lo bo e1 e2 : z3.sort_of e1 = Some z3.BoolSort -> z3.sort_of e2 = Some z3.BoolSort ->
  z3.overloaded lo bo e1 e2 = z3.mk (z3.Bin (z3.Logic lo) e1 e2).
Proof. intros E1 E2. unfold z3.overloaded, z3.is_bool. by rewrite E1, E2, !bool_decide_eq_true_2. Qed.

Lemma common_expr_bits info e1 e2 w : is_binary (i_op info) = true -> i_size info <> 1 ->
  z3.sort_of e1 = Some (z3.BvSort w) ->
  common_expr info e1 e2 = z3.mk (z3.Bin (z3.BvOp (bv_of (i_op info))) e1 e2).
Proof.
  intros Hb Hn1%Z.eqb_neq S1. unfold common_expr. rewrite land_byte by (by apply binary_small). rewrite Hn1.
  apply binary_iff in Hb. clear t. destruct_or! Hb; rewrite Hb; unfold bv_of; ops;
    rewrite ?(overloaded_bits _ _ _ _ _ S1); done.
Qed.

Lemma common_expr_bools info e1 e2 : is_logic (i_op info) = true -> i_size info = 1 ->
  z3.sort_of e1 = Some z3.BoolSort -> z3.sort_of e2 = Some z3.BoolSort ->
  common_expr info e1 e2 = z3.mk (z3.Bin (z3.Logic (log_of (i_op info))) e1 e2).
Proof.
  intros Hl E S1 S2. unfold is_logic in Hl. rewrite !orb_true_iff, !Z.eqb_eq in Hl.
  unfold common_expr. rewrite land_byte
    by (pose proof instruction_order; destruct Hl as [[-> | ->]| ->]; lia).
  rewrite E, Z.eqb_refl. simpl. clear t.
  destruct Hl as [[->| ->]| ->]; unfold log_of; ops; [done..|]. by rewrite overloaded_bools.
Qed.

Lemma common_expr_icmp info e1 e2 : is_icmp (i_op info) = true ->
  common_expr info e1 e2 = get_cmd e1 e2 (Z.shiftr (i_op info) 8).
Proof. unfold is_icmp. intros Hi%Z.eqb_eq. unfold common_expr. rewrite Hi. by ops. Qed.

End support.

(** ** One label *)

Section serialize.
Context {LLVM : InstructionDef} {L : z3.Library} {LL : z3.LibraryLaws}.
Context (t : gmap Z dfsan_label_info) (size_ last len : Z).
Context (Hdag : dag t last) (Hsized : sized t last) (Hsize : last < size_) (Hlen : len <= 2 ^ 32).
Context (Hok : forall l, 1 <= l <= last -> z3_ok t len (info_at t l)) (Hinit : last < kInitializingLabel).

(** The expression and the dependencies of label [l]. *)
Definition made (l : Z) (e : z3.expr) (d : gset offset_t) : Prop :=
  means len e (label_sort (info_at t l)) (fun env => eval t env l) d.

(** The caches hold labels 1 to [n]. *)
Record scanned (n : nat) (s : state) : Prop := {
  sc_exprs : length (expr_cache_ s) = S n;
  sc_deps : length (deps_cache_ s) = S n;
  sc_tsizes : length (tsize_cache_ s) = S n;
  sc_label : forall l, 1 <= l <= Z.of_nat n -> exists e d,
    expr_cache_ s !! Z.to_nat l = Some (Some e) /\ deps_cache_ s !! Z.to_nat l = Some d /\ made l e d
}.

(** The states while a label is added: its dependencies so far are [x]. *)
Definition cur (s : state) (x : gset offset_t) : state :=
  set_caches (tsize_cache_ s) (expr_cache_ s) (deps_cache_ s ++ [x]) s.
Definition added (s : state) (m : Z) (e : z3.expr) (d : gset offset_t) : state :=
  set_caches (tsize_cache_ s ++ [m]) (expr_cache_ s ++ [Some e]) (deps_cache_ s ++ [d]) s.

Lemma scanned_step n s m e d : scanned n s -> made (Z.of_nat (S n)) e d -> scanned (S n) (added s m e d).
Proof.
  intros [H1 H2 H3 H4] He. split; simpl; rewrite ?length_app; simpl; try lia.
  intros l Hl. destruct (decide (l = Z.of_nat (S n))) as [->|].
  - exists e, d. rewrite Nat2Z.id. rewrite !lookup_app_r by lia. rewrite H1, H2, Nat.sub_diag. done.
  - destruct (H4 l ltac:(lia)) as (e' & d' & E1 & E2 & Hm). exists e', d'.
    split_and!; [by apply lookup_app_l_Some..|done].
Qed.

Lemma made_deps l e d i off : made l e d -> (i, off) ∈ d -> i = 0 /\ 0 <= off < len.
Proof. intros Hm. apply (mn_deps _ _ _ _ _ Hm). Qed.

Section label.
Context (n : nat) (s : state) (Hs : scanned n s).

Lemma add_deps_run x d : add_deps d (cur s x) = (Ok tt, cur s (x ∪ d)).
Proof.
  unfold add_deps, modify, cur, set_caches. simpl. rewrite length_app. simpl.
  replace (pred (length (deps_cache_ s) + 1)) with (length (deps_cache_ s)) by lia.
  rewrite alter_app_r_alt by lia. by rewrite Nat.sub_diag.
Qed.

Lemma cached_run x l : 1 <= l <= Z.of_nat n -> exists e d, made l e d /\
  cached l (cur s x) = (Ok e, cur s (x ∪ d)).
Proof.
  intros Hl. destruct (sc_label _ _ Hs l Hl) as (e & d & E1 & E2 & Hm). exists e, d. split; [done|].
  assert (get_cached_expr l (cur s x) = (Ok (e, d), cur s x)) as Eg.
  { unfold get_cached_expr, bind, gets, id. simpl.
    rewrite (proj2 (Z.leb_gt _ _)) by (rewrite (sc_exprs _ _ Hs); lia). rewrite E1. simpl.
    by rewrite (lookup_app_l_Some _ _ _ _ E2). }
  unfold cached. erewrite bind_eq by exact Eg. cbv beta iota. by erewrite bind_eq by apply add_deps_run.
Qed.

Lemma tsize_run x l : 0 <= l <= Z.of_nat n -> exists m, tsize_of l (cur s x) = (Ok m, cur s x).
Proof.
  intros Hl. destruct (lookup_lt_is_Some_2 (tsize_cache_ s) (Z.to_nat l)) as [m Hm].
  { rewrite (sc_tsizes _ _ Hs). lia. }
  exists m. unfold tsize_of, bind, gets, id, lift. simpl. by rewrite Hm.
Qed.

(** [push_tsize] and [cache_expr] at the end. *)
Lemma finish_run x m e :
  (push_tsize m ;;; cache_expr (Z.of_nat (S n)) e) (cur s x) = (Ok tt, added s (u32 m) e x).
Proof.
  unfold bind, push_tsize, modify, cache_expr, bind, gets, id. simpl.
  rewrite (sc_exprs _ _ Hs), Z.eqb_refl. done.
Qed.

Lemma unary_run (x : gset offset_t) (l0 : Z) (prepare f : z3.expr -> res z3.expr)
    (P : z3.expr -> gset offset_t -> Prop) : 1 <= l0 <= Z.of_nat n ->
  (forall e d, made l0 e d -> exists e1 e2, prepare e = Ok e1 /\ f e1 = Ok e2 /\ P e2 d) ->
  exists m e d, unary_label (Z.of_nat (S n)) l0 prepare f (cur s x) = (Ok tt, added s m e (x ∪ d)) /\ P e d.
Proof.
  intros Hl HP. destruct (cached_run x l0 Hl) as (e & d & Hm & Ec).
  destruct (HP e d Hm) as (e1 & e2 & E1 & E2 & Hp). destruct (tsize_run (x ∪ d) l0 ltac:(lia)) as [m Et].
  exists (u32 m), e2, d. split; [|done]. unfold unary_label. erewrite bind_eq by exact Ec.
  unfold bind at 1, lift at 1. rewrite E1. erewrite bind_eq by exact Et.
  pose proof (finish_run (x ∪ d) m e2) as Hf. unfold bind in Hf |- *.
  destruct (push_tsize m (cur s (x ∪ d))) as [[]]; [|done]. unfold lift. by rewrite E2.
Qed.

Context (Hn : Z.of_nat (S n) <= last).
Abbreviation l := (Z.of_nat (S n)).
Abbreviation i := (info_at t l).

Lemma label_facts : well_sized t i /\ z3_ok t len i /\ 0 <= i_l1 i <= Z.of_nat n /\ 0 <= i_l2 i <= Z.of_nat n /\
  forall env, eval t env l = info_value t env (eval t env) i.
Proof.
  destruct (Hdag l ltac:(lia)) as [H1 H2]. split_and!; try lia; [by apply Hsized; lia|by apply Hok; lia|].
  intros env. by apply (eval_unfold t env last); [|lia].
Qed.

Lemma z3_operand_bound env k : 1 <= k <= Z.of_nat n -> is_u (label_width t k) (eval t env k).
Proof. intros Hk. apply (eval_bound t env last); [done|done|lia]. Qed.

(** What adding the label must establish. *)
Definition adds (m : M state unit) : Prop := exists w e d,
  m (cur s ∅) = (Ok tt, added s w e d) /\ made l e d.

(** The sort of a label that is none of the boolean ones. *)
Lemma plain_sort : is_icmp (i_op i) = false -> i_op i <> Not -> is_logic (i_op i) = false ->
  label_sort i = z3.BvSort (i_size i).
Proof. intros H1 H2%Z.eqb_neq H3. unfold label_sort. by rewrite H1, H2, H3. Qed.

Lemma input_adds : i_op i = 0 -> adds (input_label l i).
Proof.
  intros E. destruct label_facts as (Hw & Hz & H1 & H2 & Hev). destruct Hz as [_ Hz].
  destruct Hw as [_ Hw]. rewrite E in Hz, Hw. destruct Hz as [Hz1 Hz2], Hw as (_ & _ & Hsz).
  assert (u32 (i_op1 i) = i_op1 i) as E1 by (apply wrap_small; unfold is_u; lia).
  exists 1, (input_byte 0 (i_op1 i)), {[(0, i_op1 i)]}. split.
  - unfold input_label. rewrite Hz1, E1. unfold bind, push_tsize, add_deps, modify, cache_expr, gets, id. simpl.
    unfold bind. simpl.
    rewrite length_app. simpl. replace (pred (length (deps_cache_ s) + 1)) with (length (deps_cache_ s)) by lia.
    rewrite alter_app_r_alt, Nat.sub_diag by lia. simpl. rewrite (left_id_L ∅ (∪)).
    rewrite (sc_exprs _ _ Hs), Z.eqb_refl. done.
  - unfold made. assert (label_sort i = z3.BvSort 8) as ->.
    { rewrite plain_sort; [by rewrite Hsz|rewrite E; plain_op|rewrite E; done|].
      rewrite E. unfold is_logic. by ops. }
    eapply means_ext; [|by apply means_input; lia]. intros env. rewrite Hev. unfold info_value. by rewrite E.
Qed.

(** The bytes of a load. *)
Lemma load_loop_run off k : forall j out d, 0 <= off -> off + Z.of_nat j + Z.of_nat k <= len ->
  (0 < j)%nat ->
  means len out (z3.BvSort (8 * Z.of_nat j)) (fun env => le_bytes env off j) d ->
  exists e d', load_loop k 0 off (Z.of_nat j) out d = Ok (e, d') /\
    means len e (z3.BvSort (8 * Z.of_nat (j + k))) (fun env => le_bytes env off (j + k)) d'.
Proof.
  induction k as [|k IH]; intros j out d H0 Hb Hj Hm; simpl.
  { rewrite Nat.add_0_r. by exists out, d. }
  rewrite wrap_small by (unfold is_u; lia). set (o := off + Z.of_nat j).
  pose proof (means_load len off j out d Hlen H0 ltac:(lia) Hm) as Hm'. fold o in Hm'.
  change (z3.Const (byte_symbol o) (z3.BvSort 8)) with (input_byte 0 o) in Hm'.
  rewrite (means_mk _ _ _ _ _ Hm').
  destruct (IH (S j) _ _ H0 ltac:(lia) ltac:(lia) Hm') as (e & d' & E & He). exists e, d'.
  replace (Z.of_nat j + 1) with (Z.of_nat (S j)) by lia. rewrite E.
  by replace (j + S k)%nat with (S j + k)%nat by lia.
Qed.

Lemma get_info_run k : 0 <= k <= last -> get_label_info t size_ k = Ok (info_at t k).
Proof. intros Hk. unfold get_label_info. by rewrite (proj2 (Z.leb_gt _ _)) by lia. Qed.

Lemma load_adds : i_op i = Load -> adds (load_label t size_ l i).
Proof.
  intros E. destruct label_facts as (Hw & Hz & H1 & H2 & Hev). destruct Hz as [_ Hz].
  destruct Hw as [_ Hw]. revert Hz Hw. rewrite E. ops. intros (Z1 & Z2 & Z3 & Z4) (W1 & W2 & W3).
  set (src := info_at t (i_l1 i)) in *. unfold adds, load_label.
  unfold bind at 1, lift at 1. rewrite get_info_run by lia. fold src.
  rewrite Z2, (wrap_small 32 (i_op1 src)) by (unfold is_u; lia). change (u32 0) with 0.
  destruct (load_loop_run (i_op1 src) (Z.to_nat (i_l2 i - 1)) 1 (input_byte 0 (i_op1 src))
    {[(0, i_op1 src)]}) as (e & d & El & He); [lia|lia|lia| |].
  { eapply means_ext; [|apply means_input; lia]. intros env. simpl. lia. }
  change (Z.of_nat 1) with 1 in El. unfold bind at 1, lift at 1. rewrite El.
  replace (1 + Z.to_nat (i_l2 i - 1))%nat with (Z.to_nat (i_l2 i)) in He by lia.
  erewrite bind_eq by apply add_deps_run. exists 1, e, d. rewrite finish_run by done.
  rewrite (left_id_L ∅ (∪)). split; [done|]. unfold made.
  rewrite plain_sort; [|rewrite E; plain_op|rewrite E; pose proof instruction_order; unfold_ops; lia|
    rewrite E; unfold is_logic; by ops].
  rewrite W3. rewrite Z2Nat.id in He by lia. eapply means_ext; [|exact He].
  intros env. rewrite Hev. unfold info_value. rewrite E. by ops.
Qed.

Lemma unary_adds l0 (prepare f : z3.expr -> res z3.expr) : 1 <= l0 <= Z.of_nat n ->
  (forall e d, made l0 e d -> exists e1 e2, prepare e = Ok e1 /\ f e1 = Ok e2 /\ made l e2 d) ->
  adds (unary_label l l0 prepare f).
Proof.
  intros Hl Hf. destruct (unary_run ∅ l0 prepare f (made l) Hl Hf) as (m & e & d & E & Hm).
  exists m, e, d. by rewrite (left_id_L ∅ (∪)) in E.
Qed.

(** A label that is a bit-vector. *)
Lemma made_bits k e d : 1 <= k <= last -> boolean t k = false -> made k e d ->
  means len e (z3.BvSort (label_width t k)) (fun env => eval t env k) d.
Proof.
  intros Hk Hb Hm. unfold made in Hm. rewrite sort_bits in Hm by done.
  pose proof (label_sort_width t k (Hsized k Hk)) as Hw. rewrite sort_bits in Hw by done.
  simpl in Hw. by rewrite <- Hw.
Qed.

Lemma extend_run o e w v d : (o = z3.ZeroExt \/ o = z3.SignExt) -> means len e (z3.BvSort w) v d ->
  0 <= w <= i_size i -> i_size i < 256 -> exists e', extend o (i_size i) e = Ok e' /\
  means len e' (z3.BvSort (i_size i)) (fun env => z3.un_value (o (i_size i - w)) w (v env)) d.
Proof.
  intros Ho He Hw H8. unfold extend, z3.bv_size. rewrite (mn_sort _ _ _ _ _ He).
  rewrite wrap_small by (unfold is_u; lia).
  assert (means len (z3.Un (o (i_size i - w)) e) (z3.BvSort (i_size i))
    (fun env => z3.un_value (o (i_size i - w)) w (v env)) d) as Hm.
  { apply (means_un len _ e (z3.BvSort w) _ v d He).
    destruct Ho as [-> | ->]; simpl; rewrite (proj2 (Z.leb_le 0 _)) by lia; do 2 f_equal; lia. }
  exists (z3.Un (o (i_size i - w)) e). by rewrite (means_mk _ _ _ _ _ Hm).
Qed.

(** An operator number other than those of booleans. *)
Ltac not_boolean E :=
  rewrite plain_sort; [|rewrite E; plain_op|rewrite E; pose proof instruction_order; unfold_ops; lia
    |rewrite E; unfold is_logic; by ops].

Lemma ZExt_adds : i_op i = ZExt ->
  adds (unary_label l (i_l1 i) bool_to_bv (extend z3.ZeroExt (i_size i))).
Proof.
  intros E. destruct label_facts as (Hw & Hz & H1 & H2 & Hev). destruct Hz as [Hz _].
  destruct Hw as [_ Hw]. revert Hw. rewrite E. ops. intros (W1 & W2 & W3).
  apply unary_adds; [lia|]. intros e d Hm.
  assert (exists e1, bool_to_bv e = Ok e1 /\
    means len e1 (z3.BvSort (label_width t (i_l1 i))) (fun env => eval t env (i_l1 i)) d) as (e1 & E1 & M1).
  { destruct (boolean t (i_l1 i)) eqn:Hb.
    - pose proof (label_sort_width t (i_l1 i) (Hsized (i_l1 i) ltac:(lia))) as Hsw.
      rewrite sort_bool in Hsw by done. simpl in Hsw. rewrite <- Hsw.
      apply means_bool_to_bv; [unfold made in Hm; by rewrite sort_bool in Hm|].
      intros env. rewrite Hsw. apply z3_operand_bound. lia.
    - exists e. split; [|apply made_bits; [lia|done|done]]. unfold bool_to_bv, z3.is_bool.
      rewrite (mn_sort _ _ _ _ _ Hm), sort_bits by done. by rewrite bool_decide_eq_false_2. }
  destruct (extend_run z3.ZeroExt e1 _ _ _ ltac:(by left) M1) as (e2 & E2 & M2); [|done|].
  { pose proof (label_width_bounds t (i_l1 i) (Hsized (i_l1 i) ltac:(lia))). lia. }
  exists e1, e2. split_and!; [done..|]. unfold made. not_boolean E. eapply means_ext; [|exact M2].
  intros env. rewrite Hev. unfold info_value. rewrite E, op_value_ZExt. ops.
  unfold operand1. by rewrite (proj2 (Z.eqb_neq _ _) W1).
Qed.

Lemma SExt_adds : i_op i = SExt -> adds (unary_label l (i_l1 i) Ok (extend z3.SignExt (i_size i))).
Proof.
  intros E. destruct label_facts as (Hw & Hz & H1 & H2 & Hev). destruct Hz as [Hz1 Hz].
  destruct Hw as [_ Hw]. revert Hz Hw. rewrite E. ops. intros Hb (W1 & W2 & W3).
  apply unary_adds; [lia|]. intros e d Hm. apply made_bits in Hm; [|lia|done].
  destruct (extend_run z3.SignExt e _ _ _ ltac:(by right) Hm) as (e2 & E2 & M2); [|done|].
  { pose proof (label_width_bounds t (i_l1 i) (Hsized (i_l1 i) ltac:(lia))). lia. }
  exists e, e2. split_and!; [done..|]. unfold made. not_boolean E. eapply means_ext; [|exact M2].
  intros env. rewrite Hev. unfold info_value. rewrite E, op_value_SExt. ops.
  unfold operand1, width1. rewrite (proj2 (Z.eqb_neq _ _) W1). f_equal. lia.
Qed.

(** Bits [lo] to [lo + size - 1]. *)
Lemma extract_run e w v d lo : means len e (z3.BvSort w) v d -> 0 < i_size i -> 0 <= lo ->
  lo + i_size i <= w -> w < 2 ^ 16 ->
  exists e', z3.mk (z3.Un (z3.Extract (u32 (lo + i_size i - 1)) (u32 lo)) e) = Ok e' /\
  means len e' (z3.BvSort (i_size i)) (fun env => wrap (i_size i) (Z.shiftr (v env) lo)) d.
Proof.
  intros He Hsz H0 Hw H16. rewrite !wrap_small by (unfold is_u; lia).
  assert (means len (z3.Un (z3.Extract (lo + i_size i - 1) lo) e) (z3.BvSort (i_size i))
    (fun env => wrap (i_size i) (Z.shiftr (v env) lo)) d) as Hm.
  { eapply means_ext; [|eapply means_un; [exact He|]].
    - intros env. simpl. f_equal. lia.
    - simpl. rewrite (proj2 (Z.leb_le 0 lo)), (proj2 (Z.leb_le lo _)), (proj2 (Z.ltb_lt _ w)) by lia.
      simpl. do 2 f_equal. lia. }
  eexists. split; [by apply (means_mk _ _ _ _ _ Hm)|exact Hm].
Qed.

Lemma Trunc_adds : i_op i = Trunc ->
  adds (unary_label l (i_l1 i) Ok (fun e => z3.mk (z3.Un (z3.Extract (u32 (i_size i - 1)) 0) e))).
Proof.
  intros E. destruct label_facts as (Hw & Hz & H1 & H2 & Hev). destruct Hz as [Hz1 Hz].
  destruct Hw as [Hs1 Hw]. revert Hz Hw. rewrite E. ops. intros Hb (W1 & W2 & W3).
  apply unary_adds; [lia|]. intros e d Hm. apply made_bits in Hm; [|lia|done].
  destruct (extract_run e _ _ _ 0 Hm) as (e2 & E2 & M2); [lia..| |].
  { pose proof (label_width_bounds t (i_l1 i) (Hsized (i_l1 i) ltac:(lia))). lia. }
  exists e, e2. split_and!; [done|done|]. unfold made. not_boolean E. eapply means_ext; [|exact M2].
  intros env. rewrite Hev. unfold info_value. rewrite E, op_value_Trunc. ops.
  unfold operand1. rewrite (proj2 (Z.eqb_neq _ _) W1). by rewrite Z.shiftr_0_r.
Qed.

Lemma Extract_adds : i_op i = Extract ->
  adds (unary_label l (i_l1 i) Ok
    (fun e => z3.mk (z3.Un (z3.Extract (u32 (i_op2 i + i_size i - 1)) (u32 (i_op2 i))) e))).
Proof.
  intros E. destruct label_facts as (Hw & Hz & H1 & H2 & Hev). destruct Hz as [Hz1 Hz].
  destruct Hw as [Hs1 Hw]. revert Hz Hw. rewrite E. ops. intros Hb (W1 & W2 & W3 & W4).
  apply unary_adds; [lia|]. intros e d Hm. apply made_bits in Hm; [|lia|done].
  destruct (extract_run e _ _ _ (i_op2 i) Hm) as (e2 & E2 & M2); [lia..| |].
  { pose proof (label_width_bounds t (i_l1 i) (Hsized (i_l1 i) ltac:(lia))). lia. }
  exists e, e2. split_and!; [done|done|]. unfold made. not_boolean E. eapply means_ext; [|exact M2].
  intros env. rewrite Hev. unfold info_value. rewrite E, op_value_Extract. ops.
  unfold operand1, operand2. rewrite (proj2 (Z.eqb_neq _ _) W1), W2, Z.eqb_refl, E, Z.eqb_refl. done.
Qed.

Lemma Not_adds : i_op i = Not -> adds (unary_label l (i_l2 i) Ok (fun e => z3.mk (z3.Un z3.Not e))).
Proof.
  intros E. destruct label_facts as (Hw & Hz & H1 & H2 & Hev). destruct Hz as [Hz1 Hz].
  destruct Hw as [Hs1 Hw]. revert Hz Hw. rewrite E. ops. intros Hb (W1 & W2 & W3 & W4).
  apply unary_adds; [lia|]. intros e d Hm. unfold made in Hm. rewrite sort_bool in Hm by done.
  assert (means len (z3.Un z3.Not e) z3.BoolSort
    (fun env => z3.un_value z3.Not 1 (eval t env (i_l2 i))) d) as M2 by (by apply (means_un len z3.Not e z3.BoolSort)).
  exists e, (z3.Un z3.Not e). split_and!; [done|by apply (means_mk _ _ _ _ _ M2)|]. unfold made.
  unfold label_sort. rewrite E, Z.eqb_refl, orb_true_r. eapply means_ext; [|exact M2].
  intros env. rewrite Hev. unfold info_value. rewrite E, op_value_Not. ops.
  unfold operand2. rewrite (proj2 (Z.eqb_neq _ _) W2), W3.
  pose proof (z3_operand_bound env (i_l2 i) ltac:(lia)) as Hv. rewrite W4 in Hv. unfold is_u in Hv.
  change (2 ^ 1) with 2 in Hv.
  assert (eval t env (i_l2 i) = 0 \/ eval t env (i_l2 i) = 1) as [-> | ->] by lia; done.
Qed.

(** *** Common operators *)

(** The sort and the value of an operand. *)
Definition op_sort (k size : Z) : z3.sort :=
  if k =? 0 then (if i_size i =? 1 then z3.BoolSort else z3.BvSort size) else label_sort (info_at t k).
Definition op_val (k v size : Z) (env : input_env) : Z :=
  if k =? 0 then (if i_size i =? 1 then Z.b2z (v =? 1) else wrap size v) else eval t env k.

Lemma z3_operand_run x k v size : 0 <= k <= Z.of_nat n -> 0 < size < 256 ->
  (k <> 0 -> boolean t k = true \/ i_size (info_at t k) = size \/ i_op i = Concat) ->
  exists e d, common_operand i k v size (cur s x) = (Ok e, cur s (x ∪ d)) /\
    means len e (op_sort k size) (op_val k v size) d.
Proof.
  intros Hk Hsz Hfit. unfold common_operand, op_sort, op_val.
  pose proof (means_bv len v size ltac:(lia)) as Hc. unfold bind at 1, lift at 1.
  rewrite (means_mk _ _ _ _ _ Hc). destruct (Z.eqb_spec k 0) as [->|Hne].
  { change (CONST_OFFSET <=? 0) with false. cbv iota. destruct (i_size i =? 1); eexists _, ∅;
      rewrite (right_id_L ∅ (∪)); (split; [done|]); [apply means_bool|done]. }
  unfold CONST_OFFSET. rewrite (proj2 (Z.leb_le 1 k)) by lia.
  destruct (cached_run x k ltac:(lia)) as (e & d & Hm & Ec). erewrite bind_eq by exact Ec.
  pose proof (means_simplify len _ _ _ _ Hm) as Hsm. exists (z3.simplify e), d.
  split; [|exact Hsm]. unfold z3.is_bv, z3.bv_size. rewrite (mn_sort _ _ _ _ _ Hsm).
  destruct (boolean t k) eqn:Hb; [by rewrite sort_bool|]. rewrite sort_bits by done.
  destruct (Z.eqb_spec (i_op i) Concat) as [EC|EC]; [done|].
  destruct (Hfit Hne) as [?|[Hss|?]]; [done| |done]. rewrite Hss. unfold bind, lift. simpl.
  rewrite wrap_small by (unfold is_u; lia). by rewrite Z.ltb_irrefl.
Qed.

Lemma common_adds sz1 sz2 : 0 < sz1 < 256 -> 0 < sz2 < 256 ->
  (forall x, concat_size t size_ i (i_l1 i) (i_l2 i) (u8 (i_size i)) (cur s x) = (Ok sz1, cur s x)) ->
  (forall x, concat_size t size_ i (i_l2 i) (i_l1 i) sz1 (cur s x) = (Ok sz2, cur s x)) ->
  (i_l1 i <> 0 -> boolean t (i_l1 i) = true \/ i_size (info_at t (i_l1 i)) = sz1 \/ i_op i = Concat) ->
  (i_l2 i <> 0 -> boolean t (i_l2 i) = true \/ i_size (info_at t (i_l2 i)) = sz2 \/ i_op i = Concat) ->
  (forall e1 e2 d, means len e1 (op_sort (i_l1 i) sz1) (op_val (i_l1 i) (i_op1 i) sz1) d ->
     means len e2 (op_sort (i_l2 i) sz2) (op_val (i_l2 i) (i_op2 i) sz2) d ->
     exists e, common_expr i e1 e2 = Ok e /\ made l e d) ->
  adds (common_label t size_ l i).
Proof.
  intros B1 B2 C1 C2 F1 F2 Hf. destruct label_facts as (_ & _ & H1 & H2 & _).
  destruct (z3_operand_run ∅ (i_l1 i) (i_op1 i) sz1 H1 B1 F1) as (e1 & d1 & E1 & M1).
  destruct (z3_operand_run (∅ ∪ d1) (i_l2 i) (i_op2 i) sz2 H2 B2 F2) as (e2 & d2 & E2 & M2).
  assert (forall a b, (a, b) ∈ ∅ ∪ d1 ∪ d2 -> a = 0 /\ 0 <= b < len) as Hd.
  { intros a b [[Hab|Hab]%elem_of_union|Hab]%elem_of_union; [by apply elem_of_empty in Hab| |];
      [by apply (mn_deps _ _ _ _ _ M1)|by apply (mn_deps _ _ _ _ _ M2)]. }
  destruct (Hf e1 e2 (∅ ∪ d1 ∪ d2)) as (e & Ee & Hm);
    [eapply means_deps; [exact M1|set_solver|done]|eapply means_deps; [exact M2|set_solver|done]|].
  destruct (tsize_run (∅ ∪ d1 ∪ d2) (i_l1 i) ltac:(lia)) as [m1 T1].
  destruct (tsize_run (∅ ∪ d1 ∪ d2) (i_l2 i) ltac:(lia)) as [m2 T2].
  exists (u32 (m1 + m2)), e, (∅ ∪ d1 ∪ d2). split; [|done]. unfold common_label.
  erewrite bind_eq by apply C1. erewrite bind_eq by exact E1. erewrite bind_eq by apply C2.
  erewrite bind_eq by exact E2. erewrite bind_eq by exact T1. erewrite bind_eq by exact T2.
  pose proof (finish_run (∅ ∪ d1 ∪ d2) (m1 + m2) e) as Hfin. unfold bind in Hfin |- *.
  destruct (push_tsize (m1 + m2) (cur s (∅ ∪ d1 ∪ d2))) as [[]]; [|done]. unfold lift. by rewrite Ee.
Qed.

Lemma bits_width k : 1 <= k <= last -> boolean t k = false -> i_size (info_at t k) = label_width t k.
Proof.
  intros Hk Hb. pose proof (label_sort_width t k (Hsized k Hk)) as Hw. by rewrite sort_bits in Hw.
Qed.

Lemma Concat_adds : i_op i = Concat -> adds (common_label t size_ l i).
Proof.
  intros E. destruct label_facts as (Hw & Hz & H1 & H2 & Hev). destruct Hz as [Hz1 Hz].
  destruct Hw as [Hs1 Hw]. revert Hz Hw. rewrite E. ops. intros [B1 B2] (W1 & W2 & W3).
  set (w1 := width1 t i) in *. set (w2 := i_size i - w1).
  assert (i_l1 i <> 0 -> i_size (info_at t (i_l1 i)) = w1) as D1.
  { intros Hne. rewrite bits_width by (try lia; auto). unfold w1, width1. by rewrite (proj2 (Z.eqb_neq _ _) Hne). }
  assert (i_l2 i <> 0 -> i_size (info_at t (i_l2 i)) = w2) as D2.
  { intros Hne. rewrite bits_width by (try lia; auto). rewrite (W3 Hne) in *. unfold w2. lia. }
  set (sz1 := if i_l1 i =? 0 then w1 else i_size i). set (sz2 := if i_l2 i =? 0 then w2 else sz1).
  assert (0 < w2 < 256) as Hw2 by (unfold w2; lia).
  assert (0 < sz1 < 256) as Hsz1 by (unfold sz1; destruct (i_l1 i =? 0); lia).
  assert (0 < sz2 < 256) as Hsz2 by (unfold sz2; destruct (i_l2 i =? 0); lia).
  apply (common_adds sz1 sz2); [done|done| | |by auto|by auto|].
  - intros x. unfold concat_size, sz1. rewrite E, Z.eqb_refl. simpl.
    destruct (Z.eqb_spec (i_l1 i) 0) as [E1|]; [|by rewrite wrap_small by (unfold is_u; lia)].
    destruct W1 as [|W1]; [done|]. unfold CONST_OFFSET. rewrite (proj2 (Z.leb_le 1 _)) by lia.
    unfold bind, assert_, ret, lift. rewrite get_info_run by lia. rewrite D2 by done.
    do 2 f_equal. unfold w2. replace (i_size i - (i_size i - w1)) with w1 by lia.
    apply wrap_small. unfold is_u. lia.
  - intros x. unfold concat_size, sz2. rewrite E, Z.eqb_refl. simpl.
    destruct (Z.eqb_spec (i_l2 i) 0) as [E2|]; [|done].
    destruct W1 as [W1|]; [|done]. unfold CONST_OFFSET. rewrite (proj2 (Z.leb_le 1 _)) by lia.
    unfold bind, assert_, ret, lift. rewrite get_info_run by lia. rewrite D1 by done.
    do 2 f_equal. apply wrap_small. unfold is_u. lia.
  - intros e1 e2 d M1 M2. assert ((i_size i =? 1) = false) as Es by (apply Z.eqb_neq; lia).
    assert (op_sort (i_l1 i) sz1 = z3.BvSort w1 /\ op_sort (i_l2 i) sz2 = z3.BvSort w2) as [S1 S2].
    { unfold op_sort, sz1, sz2. rewrite Es. split.
      - destruct (Z.eqb_spec (i_l1 i) 0); [done|]. rewrite sort_bits by auto. by rewrite D1.
      - destruct (Z.eqb_spec (i_l2 i) 0); [done|]. rewrite sort_bits by auto. by rewrite D2. }
    rewrite S1 in M1. rewrite S2 in M2.
    assert (made l (z3.Bin z3.Concat e2 e1) d) as Hm.
    { unfold made. not_boolean E. eapply means_ext; [|eapply means_bin; [exact M2|exact M1|]].
      - intros env. rewrite Hev. unfold info_value. rewrite E, op_value_Concat. ops. fold w1.
        unfold op_val, operand1, operand2, width2, sz1, sz2. rewrite Es, E. ops. fold w1.
        assert (i_l2 i = 0 -> i_size i - label_width t (i_l1 i) = w2) as Ew.
        { intros E2. destruct W1 as [W1|]; [|done]. rewrite <- bits_width by (try lia; auto). by rewrite D1. }
        destruct (Z.eqb_spec (i_l1 i) 0), (Z.eqb_spec (i_l2 i) 0); rewrite ?Ew by done; lia.
      - simpl. do 2 f_equal. unfold w2. lia. }
    exists (z3.Bin z3.Concat e2 e1). split; [|done]. unfold common_expr. rewrite E.
    rewrite land_byte by (pose proof instruction_order; unfold_ops; lia). ops.
    by apply (means_mk _ _ _ _ _ Hm).
Qed.

(** Operators and comparisons: the operands are as wide as the label says. *)
Lemma operands_fit k v w : (k <> 0 -> label_width t k = i_size i) -> 0 <= k <= Z.of_nat n -> i_op i <> Concat ->
  w = i_size i -> (i_size i = 1 -> bool_operand t k v = true) ->
  op_sort k w = (if i_size i =? 1 then z3.BoolSort else z3.BvSort w) /\
  (k <> 0 -> boolean t k = true \/ i_size (info_at t k) = w \/ i_op i = Concat) /\
  forall env, op_val k v w env = if k =? 0 then wrap (i_size i) v else eval t env k.
Proof.
  intros Hw Hk HC -> Hb. unfold op_sort, op_val, bool_operand in *.
  destruct (Z.eqb_spec k 0) as [->|Hne].
  { split_and!; [done|done|]. intros env. destruct (Z.eqb_spec (i_size i) 1) as [E|]; [|done].
    rewrite E. specialize (Hb E). apply orb_true_iff in Hb as [->%Z.eqb_eq| ->%Z.eqb_eq]; done. }
  specialize (Hw Hne). split_and!; [| |done].
  - pose proof (label_sort_width t k (Hsized k ltac:(lia))) as Hsw. rewrite Hw in Hsw.
    destruct (Z.eqb_spec (i_size i) 1) as [E|Hn1]; [by apply sort_bool, Hb|].
    destruct (boolean t k) eqn:Hbk; [rewrite sort_bool in Hsw by done; simpl in Hsw; lia|].
    rewrite sort_bits in Hsw |- * by done. simpl in Hsw. by rewrite Hsw.
  - intros _. destruct (boolean t k) eqn:Hbk; [by left|]. right. left. rewrite <- Hw. apply bits_width; [lia|done].
Qed.

(** [e1 o e2] for operands of the size of the label. *)
Lemma operator_adds : is_binary (i_op i) = true \/ is_icmp (i_op i) = true ->
  i_op i <> Concat -> i_op i <> Extract ->
  (i_l1 i <> 0 -> label_width t (i_l1 i) = i_size i) -> (i_l2 i <> 0 -> label_width t (i_l2 i) = i_size i) ->
  (i_size i = 1 -> bool_operand t (i_l1 i) (i_op1 i) = true /\ bool_operand t (i_l2 i) (i_op2 i) = true) ->
  (let w := i_size i in let srt := if w =? 1 then z3.BoolSort else z3.BvSort w in
   exists o, (forall e1 e2, z3.sort_of e1 = Some srt -> z3.sort_of e2 = Some srt ->
                common_expr i e1 e2 = z3.mk (z3.Bin o e1 e2)) /\
     z3.sort_bin o srt srt = Some (label_sort i) /\
     forall w1 v1 v2, z3.bin_value o (sort_width srt) (sort_width srt) v1 v2 = op_value (i_op i) w w1 v1 v2) ->
  adds (common_label t size_ l i).
Proof.
  intros Hop HC HE HW1 HW2 Hb (o & Ho1 & Ho2 & Ho3).
  destruct label_facts as (Hw & Hz & H1 & H2 & Hev). destruct Hz as [Hz _], Hw as [Hs1 _].
  assert (u8 (i_size i) = i_size i) as E8 by (apply wrap_small; unfold is_u; lia).
  destruct (operands_fit (i_l1 i) (i_op1 i) (i_size i) HW1 H1 HC eq_refl ltac:(naive_solver)) as (S1 & F1 & V1).
  destruct (operands_fit (i_l2 i) (i_op2 i) (i_size i) HW2 H2 HC eq_refl ltac:(naive_solver)) as (S2 & F2 & V2).
  pose proof (proj2 (Z.eqb_neq _ _) HC) as EC. pose proof (proj2 (Z.eqb_neq _ _) HE) as EE.
  apply (common_adds (i_size i) (i_size i)); [lia|lia| | |done|done|].
  - intros x. unfold concat_size. by rewrite EC, E8.
  - intros x. unfold concat_size. by rewrite EC.
  - intros e1 e2 d M1 M2. rewrite S1 in M1. rewrite S2 in M2.
    assert (made l (z3.Bin o e1 e2) d) as Hm.
    { unfold made. eapply means_ext; [|eapply means_bin; [exact M1|exact M2|exact Ho2]].
      intros env. rewrite Hev. unfold info_value, operand1, operand2, width1, width2. rewrite EC, EE.
      assert (i_op i <> 0 /\ i_op i <> Load) as [N1%Z.eqb_neq N2%Z.eqb_neq].
      { destruct Hop as [Hop|Hop]; [apply binary_small in Hop|apply icmp_not_arith in Hop]; tauto. }
      rewrite N1, N2. simpl. rewrite V1, V2. rewrite (Ho3 (if i_l1 i =? 0 then i_size i else label_width t (i_l1 i))).
      by destruct (i_l1 i =? 0). }
    exists (z3.Bin o e1 e2). split; [|done].
    rewrite Ho1 by (apply (mn_sort _ _ _ _ _ M1) || apply (mn_sort _ _ _ _ _ M2)).
    by apply (means_mk _ _ _ _ _ Hm).
Qed.

Lemma binary_adds : is_binary (i_op i) = true -> adds (common_label t size_ l i).
Proof.
  intros Hb. destruct label_facts as (Hw & Hz & H1 & H2 & Hev). destruct Hz as [Hz1 Hz].
  destruct Hw as [Hs1 Hw]. pose proof (binary_small _ Hb) as (Hr & NI & N0 & NL & NZ & NS & NT & NE & NC & NN).
  revert Hz Hw. rewrite (proj2 (Z.eqb_neq _ _) N0), (proj2 (Z.eqb_neq _ _) NL), (proj2 (Z.eqb_neq _ _) NZ),
    (proj2 (Z.eqb_neq _ _) NS), (proj2 (Z.eqb_neq _ _) NT), (proj2 (Z.eqb_neq _ _) NE),
    (proj2 (Z.eqb_neq _ _) NC), (proj2 (Z.eqb_neq _ _) NN), Hb. simpl. intros [Hz2 Hz3] [W1 W2].
  apply operator_adds; [by left|done..|]. cbv zeta.
  destruct (Z.eqb_spec (i_size i) 1) as [E|Hn1].
  - assert (is_logic (i_op i) = true) as Hl.
    { destruct Hz2 as [[_ Hz2]|[Hz2 _]]; [by apply Hz2|]. by rewrite binary_not_icmp in Hz2. }
    exists (z3.Logic (log_of (i_op i))). split_and!.
    + intros e1 e2 S1 S2. by apply common_expr_bools.
    + unfold label_sort. by rewrite E, Z.eqb_refl, Hl, orb_true_r.
    + intros w1 v1 v2. by apply log_of_value.
  - exists (z3.BvOp (bv_of (i_op i))). split_and!.
    + intros e1 e2 S1 S2. by apply (common_expr_bits i e1 e2 (i_size i)).
    + simpl. rewrite Z.eqb_refl. f_equal. unfold label_sort. rewrite binary_not_icmp by done.
      rewrite (proj2 (Z.eqb_neq _ _) NN), (proj2 (Z.eqb_neq _ _) Hn1). by rewrite andb_false_r.
    + intros w1 v1 v2. by apply bv_of_value.
Qed.

(** The relation of a predicate, on bit-vectors. *)
Definition cmp_of (pred : Z) : z3.binop :=
  if pred =? bveq then z3.Eq else if pred =? bvneq then z3.Distinct
  else z3.BvRel (if pred =? bvugt then z3.Ugt else if pred =? bvuge then z3.Uge
                 else if pred =? bvult then z3.Ult else if pred =? bvule then z3.Ule
                 else if pred =? bvsgt then z3.Sgt else if pred =? bvsge then z3.Sge
                 else if pred =? bvslt then z3.Slt else z3.Sle).

Lemma pred_cases p : bveq <= p <= bvsle ->
  p = bveq \/ p = bvneq \/ p = bvugt \/ p = bvuge \/ p = bvult \/ p = bvule \/ p = bvsgt \/ p = bvsge \/
  p = bvslt \/ p = bvsle.
Proof. unfold bveq, bvneq, bvugt, bvuge, bvult, bvule, bvsgt, bvsge, bvslt, bvsle. lia. Qed.

Lemma icmp_adds : is_icmp (i_op i) = true -> adds (common_label t size_ l i).
Proof.
  intros Hi. destruct label_facts as (Hw & Hz & H1 & H2 & Hev). destruct Hz as [Hz1 Hz].
  destruct Hw as [Hs1 Hw]. pose proof (icmp_not_arith _ Hi) as (N0 & NL & NZ & NS & NT & NE & NC & NN & Hb).
  revert Hz Hw. rewrite (proj2 (Z.eqb_neq _ _) N0), (proj2 (Z.eqb_neq _ _) NL), (proj2 (Z.eqb_neq _ _) NZ),
    (proj2 (Z.eqb_neq _ _) NS), (proj2 (Z.eqb_neq _ _) NT), (proj2 (Z.eqb_neq _ _) NE),
    (proj2 (Z.eqb_neq _ _) NC), (proj2 (Z.eqb_neq _ _) NN), Hi, Hb. simpl. intros [Hz2 Hz3] [W1 W2].
  destruct Hz2 as [[? _]|(_ & Hp & Hp1)]; [done|].
  apply operator_adds; [by right|done..|]. cbv zeta. set (p := Z.shiftr (i_op i) 8) in *.
  exists (cmp_of p). split_and!.
  - intros e1 e2 _ _. rewrite common_expr_icmp by done. fold p. unfold get_cmd, cmp_of. by destruct (pred_cases p Hp) as [->|[->|[->|[->|[->|[->|[->|[->|[->| ->]]]]]]]]].
  - unfold label_sort. rewrite Hi. simpl. destruct (Z.eqb_spec (i_size i) 1) as [E|Hn1].
    + specialize (Hp1 E). assert (p = bveq \/ p = bvneq) as [-> | ->] by (unfold bveq, bvneq in *; lia); done.
    + unfold cmp_of. destruct (p =? bveq), (p =? bvneq); simpl; rewrite ?Z.eqb_refl; try done;
        by rewrite decide_True.
  - intros w1 v1 v2. rewrite op_value_icmp by done. fold p. unfold cmp_of, cmp_value.
    destruct (Z.eqb_spec (i_size i) 1) as [E|Hn1].
    + specialize (Hp1 E). assert (p = bveq \/ p = bvneq) as [-> | ->] by (unfold bveq, bvneq in *; lia); done.
    + by destruct (pred_cases p Hp) as [->|[->|[->|[->|[->|[->|[->|[->|[->| ->]]]]]]]]].
Qed.

Lemma other_ops op P Q : (is_binary op = true /\ P) \/ (is_icmp op = true /\ Q) ->
  op <> IntToPtr /\ op <> Neg /\ op <> fmemcmp /\ op <> fsize /\ op <> fatoi /\ op <> Alloca /\ op <> Free.
Proof.
  pose proof instruction_order. unfold_ops. intros [[Hop _]|[Hop _]].
  - apply binary_iff in Hop. destruct_or! Hop; lia.
  - unfold is_icmp in Hop. apply Z.eqb_eq in Hop. split_and!; intros ->; rewrite land_byte in Hop by lia; lia.
Qed.

Lemma label_run : exists w e d, serialize_label t size_ l s = (Ok tt, added s w e d) /\ made l e d.
Proof.
  destruct label_facts as (Hw & Hz & H1 & H2 & _). destruct Hw as [_ Hw], Hz as [_ Hz].
  unfold serialize_label. unfold bind at 1, lift at 1. rewrite get_info_run by lia.
  unfold bind at 1, push_deps, modify. cbv zeta. revert Hw Hz.
  destruct (Z.eqb_spec (i_op i) 0) as [E|N0]; [intros _ _; by apply input_adds|].
  destruct (Z.eqb_spec (i_op i) Load) as [E|NL]; [intros _ _; by apply load_adds|].
  destruct (Z.eqb_spec (i_op i) ZExt) as [E|NZ]; [intros _ _; by apply ZExt_adds|].
  destruct (Z.eqb_spec (i_op i) SExt) as [E|NS]; [intros _ _; by apply SExt_adds|].
  destruct (Z.eqb_spec (i_op i) Trunc) as [E|NT]; [intros _ _; by apply Trunc_adds|].
  destruct (Z.eqb_spec (i_op i) Extract) as [E|NE].
  { intros _ _. replace (i_op i =? IntToPtr) with false; [by apply Extract_adds|].
    symmetry. rewrite E. apply Z.eqb_neq. pose proof instruction_order. unfold_ops. lia. }
  destruct (Z.eqb_spec (i_op i) Concat) as [E|NC].
  { intros _ _. rewrite E. ops. by apply Concat_adds. }
  destruct (Z.eqb_spec (i_op i) Not) as [E|NN].
  { simpl. intros (W1 & W2 & W3 & W4) _. replace (i_op i =? IntToPtr) with false.
    - rewrite (proj2 (Z.eqb_neq _ 0) W2), W3. simpl. by apply Not_adds.
    - symmetry. rewrite E. apply Z.eqb_neq. pose proof instruction_order. unfold_ops. lia. }
  simpl. intros _ [Hop _].
  assert (i_op i <> IntToPtr /\ i_op i <> Neg /\ i_op i <> fmemcmp /\ i_op i <> fsize /\ i_op i <> fatoi /\
    i_op i <> Alloca /\ i_op i <> Free) as (E1 & E2 & E3 & E4 & E5 & E6 & E7) by (by eapply other_ops).
  apply Z.eqb_neq in E1, E2, E3, E4, E5, E6, E7. rewrite E1, E2, E3, E4, E5, E6, E7. simpl.
  destruct Hop as [[Hop _]|[Hop _]]; [by apply binary_adds|by apply icmp_adds].
Qed.

End label.
(** ** The pass *)

(** What the pass leaves as it is. *)
Definition same_rest (s s' : state) : Prop :=
  exists ts es ds, s' = set_caches ts es ds s.

Lemma same_rest_refl s : same_rest s s.
Proof. exists (tsize_cache_ s), (expr_cache_ s), (deps_cache_ s). by destruct s. Qed.

Lemma serialize_loop_app k : forall j l s s', serialize_loop t size_ k l s = (Ok tt, s') ->
  serialize_loop t size_ (k + j) l s = serialize_loop t size_ j (l + Z.of_nat k) s'.
Proof.
  induction k as [|k IH]; intros j l s s' E; simpl in E |- *.
  { injection E as <-. by rewrite Z.add_0_r. }
  apply bind_ok in E as ([] & s1 & E1 & E). unfold bind. rewrite E1. rewrite (IH j (l + 1) s1 s' E).
  f_equal. lia.
Qed.

Lemma loop_run k : forall n s, scanned n s -> Z.of_nat (n + k) <= last ->
  exists s', serialize_loop t size_ k (Z.of_nat (S n)) s = (Ok tt, s') /\ scanned (n + k) s' /\ same_rest s s'.
Proof.
  induction k as [|k IH]; intros n s Hs Hk; simpl.
  { exists s. rewrite Nat.add_0_r. split_and!; [done|done|apply same_rest_refl]. }
  destruct (label_run n s Hs ltac:(lia)) as (w & e & d & E & Hm).
  erewrite bind_eq by exact E. pose proof (scanned_step n s w e d Hs Hm) as Hs'.
  destruct (IH (S n) _ Hs' ltac:(lia)) as (s' & E' & Hsc & (ts & es & ds & ->)).
  replace (Z.of_nat (S n) + 1) with (Z.of_nat (S (S n))) by lia.
  exists (set_caches ts es ds (added s w e d)).
  split_and!; [exact E'|by replace (n + S k)%nat with (S n + k)%nat by lia|]. by exists ts, es, ds.
Qed.

Lemma serialize_run n s label : scanned n s -> 1 <= label <= last -> Z.of_nat n <= last ->
  exists e d s' n', serialize t size_ label s = (Ok (e, d), s') /\ made label e d /\
    scanned n' s' /\ (n <= n')%nat /\ Z.of_nat n' <= last /\ same_rest s s'.
Proof.
  intros Hs Hl Hn. unfold serialize, CONST_OFFSET.
  rewrite (proj2 (Z.ltb_ge label 1)), (proj2 (Z.eqb_neq label kInitializingLabel)) by lia. simpl.
  unfold bind at 1, gets, id. rewrite (sc_exprs _ _ Hs).
  set (k := Z.to_nat (label + 1 - Z.of_nat (S n))).
  destruct (loop_run k n s Hs ltac:(lia)) as (s' & E & Hs' & Hr). erewrite bind_eq by exact E.
  destruct (sc_label _ _ Hs' label ltac:(lia)) as (e & d & E1 & E2 & Hm).
  exists e, d, s', (n + k)%nat. split_and!; [|done|done|lia|lia|done].
  unfold get_cached_expr, bind, gets, id, lift.
  rewrite (proj2 (Z.leb_gt _ _)) by (rewrite (sc_exprs _ _ Hs'); lia).
  rewrite E1. simpl. rewrite E2. done.
Qed.

Lemma restart_scanned inputs s : scanned 0 (snd (restart inputs s)).
Proof. split; simpl; [done..|lia]. Qed.

(** C29: the pass over the labels never throws on a well-sized table of
    operators that Z3 has, and gives a comparison, negation or one-bit operator a
    boolean and every other label a bit-vector of its size. The caches are right
    before and after. *)
Theorem serialize_sorted n s label : scanned n s -> Z.of_nat n <= last -> 1 <= label <= last ->
  exists e d s' n', serialize t size_ label s = (Ok (e, d), s') /\
    z3.sort_of e = Some (label_sort (info_at t label)) /\ scanned n' s' /\ Z.of_nat n' <= last.
Proof.
  intros Hs Hn Hl. destruct (serialize_run n s label Hs Hl Hn) as (e & d & s' & n' & E & Hm & Hs' & _ & Hn' & _).
  exists e, d, s', n'. split_and!; [done|apply (mn_sort _ _ _ _ _ Hm)|done|done].
Qed.

(** C30: the expression of a label means what the label means: on every input its
    value in SMT-LIB is the value of the label, and the only constants in it are
    input bytes that [serialize] reports as dependencies. *)
Theorem serialize_value n s label e d s' : scanned n s -> Z.of_nat n <= last -> 1 <= label <= last ->
  serialize t size_ label s = (Ok (e, d), s') ->
  (forall a env, reads a env -> z3.value a e = eval t env label) /\
    (forall c, c ∈ z3.consts e -> exists off, (0, off) ∈ d /\ 0 <= off < len /\
     c = (z3.StrSymbol (input_name 0 off), z3.BvSort 8)).
Proof.
  intros Hs Hn Hl E. destruct (serialize_run n s label Hs Hl Hn) as (e1 & d1 & s1 & n' & E1 & Hm & _).
  rewrite E in E1. injection E1 as <- <- <-. split; [apply (mn_value _ _ _ _ _ Hm)|].
  intros c Hc. destruct (mn_consts _ _ _ _ _ Hm c Hc) as (off & Ho & ->). exists off.
  destruct (mn_deps _ _ _ _ _ Hm 0 off Ho) as [_ Hb]. split_and!; [done|lia..|done].
Qed.

End serialize.

(** ** A small table: two input bytes, their sum, a comparison of it with 7, the
    sum as a pointer made an integer, and a comparison of the first byte *)

#[local] Existing Instance llvm14.

Definition z3_sample : gmap Z dfsan_label_info :=
  <[1 := mk_info 0 0 0 0 0 8 0]> (<[2 := mk_info 0 0 1 0 0 8 0]>
  (<[3 := mk_info 1 2 0 0 Add 8 0]> (<[4 := mk_info 0 3 7 0 (icmp bveq) 8 0]>
  (<[5 := mk_info 3 0 0 0 PtrToInt 8 0]> (<[6 := mk_info 1 0 0 5 (icmp bvult) 8 0]> ∅))))).

(** The task of the comparison after the first byte was observed to be 3, and a
    model of it: the bytes 3 and 0. *)
Definition sample_goal : z3.expr :=
  z3.Bin z3.Distinct (z3.Bin z3.Eq (z3.BvVal 7 8)
    (z3.Bin (z3.BvOp z3.BvAdd) (input_byte 0 0) (input_byte 0 1))) (z3.BoolVal true).
Definition sample_fact : z3.expr := z3.Bin z3.Eq (input_byte 0 0) (z3.BvVal 3 8).
Definition sample_model : z3.model :=
  [(z3.StrSymbol (input_name 0 0), z3.BvSort 8, 3); (z3.StrSymbol (input_name 0 1), z3.BvSort 8, 0)].

(** A library that knows this task. *)
#[local] Instance sample_library : z3.Library := {
  simplify e := e;
  check l := if bool_decide (l = [sample_goal] \/ l = [sample_goal; sample_fact]) then z3.sat sample_model
             else z3.unknown
}.

Lemma sample_check l m : z3.check l = z3.sat m ->
  (l = [sample_goal] \/ l = [sample_goal; sample_fact]) /\ m = sample_model.
Proof. simpl. case_bool_decide; [|done]. by intros [= <-]. Qed.

#[local] Instance sample_laws : z3.LibraryLaws.
Proof.
  split; [done..| | | | |].
  - intros l m [Hl ->]%sample_check a Ha.
    pose proof (Ha (z3.StrSymbol (input_name 0 0)) (z3.BvSort 8) 3 ltac:(by left)) as H0.
    pose proof (Ha (z3.StrSymbol (input_name 0 1)) (z3.BvSort 8) 0 ltac:(by right; left)) as H1.
    assert (z3.value a sample_goal = 1 /\ z3.value a sample_fact = 1) as [G F].
    { unfold sample_goal, sample_fact, input_byte. cbn [z3.value]. rewrite H0, H1. done. }
    by destruct Hl as [->| ->]; repeat constructor.
  - intros l. simpl. by case_bool_decide.
  - intros l m s u v [Hl ->]%sample_check Hm. exists sample_goal. split; [destruct Hl as [->| ->]; by left|].
    unfold sample_model in Hm. unfold sample_goal. cbn [z3.consts].
    apply elem_of_cons in Hm as [[= -> -> ->]|[[= -> -> ->]|Hm%elem_of_nil]%elem_of_cons]; [..|done].
    + by left.
    + by right; left.
  - intros l m [_ ->]%sample_check. apply (bool_decide_unpack _). by vm_compute.
  - intros l m s n v [_ ->]%sample_check Hm. unfold sample_model in Hm.
    by apply elem_of_cons in Hm as [[= -> -> ->]|[[= -> -> ->]|Hm%elem_of_nil]%elem_of_cons].
Qed.

Lemma sample_labels l : 1 <= l <= 4 -> l = 1 \/ l = 2 \/ l = 3 \/ l = 4.
Proof. lia. Qed.

Lemma z3_sample_dag : dag z3_sample 4.
Proof. intros l [-> | [-> | [-> | ->]]]%sample_labels; vm_compute; intuition congruence. Qed.

Lemma z3_sample_sized : sized z3_sample 4.
Proof. intros l [-> | [-> | [-> | ->]]]%sample_labels; vm_compute; intuition congruence. Qed.

Lemma z3_sample_ok l : 1 <= l <= 4 -> z3_ok z3_sample 2 (info_at z3_sample l).
Proof.
  intros [-> | [-> | [-> | ->]]]%sample_labels; vm_compute; (split; [done|]); [intuition congruence..| |];
    (split; [first [by left | right; intuition congruence]|done]).
Qed.

(** The comparison has a boolean. *)
Lemma serialize_sorted_witness : exists e d s' n',
  serialize z3_sample 10 4 (snd (restart [[3; 4]] new_state)) = (Ok (e, d), s') /\
  z3.sort_of e = Some z3.BoolSort /\ scanned z3_sample 2 n' s' /\ Z.of_nat n' <= 4.
Proof.
  exact (serialize_sorted z3_sample 10 4 2 z3_sample_dag z3_sample_sized ltac:(lia) ltac:(lia) z3_sample_ok
    ltac:(done) 0 _ 4 (restart_scanned _ _ _ _) ltac:(lia) ltac:(lia)).
Defined.

(** On the bytes 3 and 4 the comparison is true. *)
Lemma serialize_value_witness :
  z3.value (fun s _ => if bool_decide (s = z3.StrSymbol (input_name 0 0)) then 3 else 4)
    (z3.Bin z3.Eq (z3.BvVal 7 8) (z3.Bin (z3.BvOp z3.BvAdd) (input_byte 0 0) (input_byte 0 1))) = 1.
Proof.
  destruct (serialize_value z3_sample 10 4 2 z3_sample_dag z3_sample_sized ltac:(lia) ltac:(lia) z3_sample_ok
    ltac:(done) 0 (snd (restart [[3; 4]] new_state)) 4
    (z3.Bin z3.Eq (z3.BvVal 7 8) (z3.Bin (z3.BvOp z3.BvAdd) (input_byte 0 0) (input_byte 0 1)))
    {[(0, 0); (0, 1)]} (snd (serialize z3_sample 10 4 (snd (restart [[3; 4]] new_state))))
    (restart_scanned _ _ _ _) ltac:(lia) ltac:(lia) ltac:(by vm_compute)) as [Hv _].
  rewrite (Hv _ (fun off => if off =? 0 then 3 else 4)).
  - rewrite eval_eq. by vm_compute.
  - intros off Ho. unfold byte_symbol, ts_naming. case_bool_decide as E.
    + assert (input_name 0 off = input_name 0 0) as En by congruence. by rewrite (input_name_inj off 0).
    + destruct (Z.eqb_spec off 0) as [->|_]; [|done]. by destruct E.
Defined.
