(* ===== verification/Z3PathSpec.v ===== *)
(** * Branches that share input bytes

    The Z3 parser keeps the constraints of earlier branches with the input bytes
    they read. [collect_more_deps] closes a set of bytes under sharing a
    constraint, and a solution of a task leaves every earlier constraint true:
    those that share bytes with the branch are part of the task, the others read
    none of the bytes that change. *)

From S2P Require Import Prelude Dfsan LabelSem Cstr Z3 Z3Ts Z3Spec.
Import Z3AstParser.
Local Open Scope prog_scope.
#[local] Existing Instance ts_naming.

Section deps.
(** The length of the input. *)
Context (len : Z) (Hlen : 0 <= len <= 2 ^ 32).

Definition in_range (d : gset offset_t) : Prop := forall i off, (i, off) ∈ d -> i = 0 /\ 0 <= off < len.

(** What is recorded for a byte. *)
Definition dep (s : state) (off : Z) : option branch_dependency :=
  if 0 <=? off then match branch_deps_ s with [row] => mjoin (row !! Z.to_nat off) | _ => None end else None.

(** The saved constraints, with the bytes they were saved for, and the records
    of the bytes. *)
Record deps_inv (path : list (z3.expr * gset offset_t)) (s : state) : Prop := {
  di_row : exists row, branch_deps_ s = [row] /\ Z.of_nat (length row) = len;
  di_saved : forall e I off, (e, I) ∈ path -> (0, off) ∈ I ->
    exists b, dep s off = Some b /\ e ∈ expr_deps b /\ I ⊆ input_deps b;
  di_only : forall off b e, dep s off = Some b -> e ∈ expr_deps b -> exists I, (e, I) ∈ path /\ (0, off) ∈ I;
  di_range : forall off b, dep s off = Some b -> in_range (input_deps b);
  di_path : forall e I, (e, I) ∈ path -> in_range I
}.

Section state.
Context (path : list (z3.expr * gset offset_t)) (s : state) (Hs : deps_inv path s).

Lemma get_dep_run off : 0 <= off < len -> get_branch_dep (0, off) s = (Ok (dep s off), s).
Proof.
  intros Ho. destruct (di_row _ _ Hs) as (row & Er & Hl). unfold get_branch_dep, bind, gets, lift, dep.
  rewrite Er, (proj2 (Z.leb_le 0 off)) by lia. simpl. destruct (lookup_lt_is_Some_2 row (Z.to_nat off)) as [o Hr]; [lia|].
  rewrite Hr. done.
Qed.

End state.

(** Nothing is recorded at the start. *)
Lemma restart_deps buf s : Z.of_nat (length buf) = len -> deps_inv [] (snd (restart [buf] s)).
Proof.
  intros Hb. assert (forall off, dep (snd (restart [buf] s)) off = None) as Hd.
  { intros off. unfold dep. simpl. destruct (0 <=? off); [|done].
    destruct (replicate _ _ !! _) as [o|] eqn:Eo; [|done]. by apply lookup_replicate in Eo as [-> _]. }
  split; [|by intros e I off H%elem_of_nil|by intros off b; rewrite Hd..|by intros e I H%elem_of_nil].
  simpl. eexists. split; [done|]. by rewrite length_replicate.
Qed.

(** ** Saving a constraint *)

Lemma dep_set off off' b s row : branch_deps_ s = [row] -> Z.of_nat (length row) = len -> 0 <= off < len ->
  0 <= off' < len ->
  dep (snd (set_branch_dep (0, off) b s)) off' = if decide (off' = off) then Some b else dep s off'.
Proof.
  intros Er Hl Ho Ho'. unfold set_branch_dep, modify, dep. simpl. rewrite Er. simpl.
  rewrite (proj2 (Z.leb_le 0 off')) by lia. case_decide as E.
  - subst off'. by rewrite list_lookup_insert_eq by lia.
  - by rewrite list_lookup_insert_ne by lia.
Qed.

(** The record of a byte after the loop over [l] has reached it. *)
Definition saved_dep (e : z3.expr) (I : gset offset_t) (o : option branch_dependency) : branch_dependency :=
  let c := default (mk_dep [] ∅) o in mk_dep (insert_expr e (expr_deps c)) (input_deps c ∪ I).

Lemma save_loop_run e I : forall l s row, NoDup l -> (forall i off, (i, off) ∈ l -> i = 0 /\ 0 <= off < len) ->
  branch_deps_ s = [row] -> Z.of_nat (length row) = len ->
  exists row', for_each l (fun off =>
    let! c := get_branch_dep off in
    let c := default (mk_dep [] ∅) c in
    set_branch_dep off (mk_dep (insert_expr e (expr_deps c)) (input_deps c ∪ I))) s =
      (Ok tt, set_branch_deps [row'] s) /\ length row' = length row /\
    forall off, 0 <= off < len -> dep (set_branch_deps [row'] s) off =
      if decide ((0, off) ∈ l) then Some (saved_dep e I (dep s off)) else dep s off.
Proof.
  induction l as [|[i o] l IH]; intros s row Hnd Hl Er Hlr; simpl.
  { exists row. split_and!; [by rewrite <- Er; destruct s|done|]. intros off Ho.
     unfold dep. by rewrite Er. }
  apply NoDup_cons in Hnd as [Hni Hnd].
  destruct (Hl i o) as [-> Ho]; [by left|].
  assert (get_branch_dep (0, o) s = (Ok (dep s o), s)) as Eg.
  { unfold get_branch_dep, bind, gets, lift, dep. rewrite Er, (proj2 (Z.leb_le 0 o)) by lia. simpl.
    destruct (lookup_lt_is_Some_2 row (Z.to_nat o)) as [x Hx]; [lia|]. by rewrite Hx. }
  set (b := saved_dep e I (dep s o)). set (row1 := <[Z.to_nat o := Some b]> row).
  assert (set_branch_dep (0, o) b s = (Ok tt, set_branch_deps [row1] s)) as Es.
  { unfold set_branch_dep, modify. rewrite Er. done. }
  destruct (IH (set_branch_deps [row1] s) row1 Hnd) as (row' & E & Hr & Hd); [set_solver|done| |].
  { unfold row1. by rewrite length_insert. }
  exists row'. split_and!.
  - unfold bind at 1. unfold bind at 1. rewrite Eg. fold (saved_dep e I (dep s o)). fold b. rewrite Es.
    exact E.
  - rewrite Hr. unfold row1. by rewrite length_insert.
  - intros off Hoff. specialize (Hd off Hoff).
    change (set_branch_deps [row'] (set_branch_deps [row1] s)) with (set_branch_deps [row'] s) in Hd.
    rewrite Hd. pose proof (dep_set o off b s row Er Hlr Ho Hoff) as Hset. rewrite Es in Hset. simpl in Hset.
    rewrite Hset. destruct (decide (off = o)) as [->|Hne].
    + rewrite decide_False by done. rewrite decide_True by (by left). done.
    + destruct (decide ((0, off) ∈ l)) as [Hin|Hin].
      * rewrite decide_True by (by right). done.
      * rewrite decide_False; [done|]. intros [[= ->]|?]%elem_of_cons; done.
Qed.

Lemma insert_expr_elem e l x : x ∈ insert_expr e l <-> x = e \/ x ∈ l.
Proof.
  unfold insert_expr. case_bool_decide; [set_solver|]. rewrite elem_of_app, list_elem_of_singleton. tauto.
Qed.

Lemma save_constraint_run path s e I : deps_inv path s -> in_range I ->
  exists s' row, save_constraint e I s = (Ok tt, s') /\ s' = set_branch_deps [row] s /\
    deps_inv (path ++ [(e, I)]) s'.
Proof.
  intros Hs HI. destruct (di_row _ _ Hs) as (row & Er & Hl).
  destruct (save_loop_run e I (elements I) s row) as (row' & E & Hr & Hd);
    [apply NoDup_elements|intros i off; rewrite elem_of_elements; apply HI|done|done|].
  exists (set_branch_deps [row'] s), row'. split; [exact E|]. split; [done|].
  assert (forall off, (0, off) ∈ I -> 0 <= off < len) as HIr by (intros off ?; by apply (HI 0)).
  assert (forall off b, dep (set_branch_deps [row'] s) off = Some b -> 0 <= off < len) as Hin.
  { intros off b Hb. unfold dep in Hb. destruct (Z.leb_spec 0 off); [|done]. simpl in Hb.
    destruct (row' !! Z.to_nat off) eqn:Ho; [|done]. apply lookup_lt_Some in Ho. lia. }
  assert (forall off, 0 <= off < len -> dep (set_branch_deps [row'] s) off =
    if decide ((0, off) ∈ I) then Some (saved_dep e I (dep s off)) else dep s off) as Hd'.
  { intros off Ho. rewrite Hd by done. destruct (decide ((0, off) ∈ I)) as [D|D].
    - by rewrite decide_True by (by apply elem_of_elements).
    - by rewrite decide_False by (by rewrite elem_of_elements). }
  clear Hd. split.
  - exists row'. split; [done|]. by rewrite Hr.
  - intros e' I' off [Hp|[= -> ->]%list_elem_of_singleton]%elem_of_app Ho.
    + pose proof (proj2 (di_path _ _ Hs e' I' Hp _ _ Ho)) as Hrange.
      destruct (di_saved _ _ Hs e' I' off Hp Ho) as (b & Hb & He & Hi). rewrite Hd' by done.
      case_decide; [|by exists b]. exists (saved_dep e I (dep s off)). split; [done|].
      unfold saved_dep. rewrite Hb. simpl. rewrite insert_expr_elem. split; [by right|set_solver].
    + rewrite Hd' by auto. rewrite decide_True by done. eexists. split; [done|].
      unfold saved_dep. simpl. rewrite insert_expr_elem. split; [by left|set_solver].
  - intros off b e' Hb He. pose proof (Hin off b Hb) as Ho. rewrite Hd' in Hb by done.
    destruct (decide ((0, off) ∈ I)) as [D|D].
    + injection Hb as <-. unfold saved_dep in He. simpl in He. apply insert_expr_elem in He as [->|He].
      * exists I. split; [set_solver|done].
      * destruct (dep s off) as [b|] eqn:Hb; simpl in He; [|by apply elem_of_nil in He].
        destruct (di_only _ _ Hs off b e' Hb He) as (I' & HI' & Ho'). exists I'. split; [set_solver|done].
    + destruct (di_only _ _ Hs off b e' Hb He) as (I' & HI' & Ho'). exists I'. split; [set_solver|done].
  - intros off b Hb. pose proof (Hin off b Hb) as Ho. rewrite Hd' in Hb by done.
    destruct (decide ((0, off) ∈ I)) as [D|D]; [|by apply (di_range _ _ Hs off)].
    injection Hb as <-. unfold saved_dep. simpl. intros i o [Hio|Hio]%elem_of_union; [|by apply HI].
    destruct (dep s off) as [b|] eqn:Hb; simpl in Hio; [|by apply elem_of_empty in Hio].
    by apply (di_range _ _ Hs off b Hb).
  - intros e' I' [Hp|[= -> ->]%list_elem_of_singleton]%elem_of_app; [by apply (di_path _ _ Hs e')|done].
Qed.

(** ** Collecting dependencies *)

(** A set with every byte that shares a constraint with one of its bytes. *)
Definition closed (s : state) (C : gset offset_t) : Prop :=
  forall off b, (0, off) ∈ C -> dep s off = Some b -> input_deps b ⊆ C.

Definition closed_under (s : state) (P : offset_t -> Prop) : Prop :=
  forall off b x, P (0, off) -> dep s off = Some b -> x ∈ input_deps b -> P x.

Lemma push_new_run l : forall W S, exists N, push_new l W S = (W ++ N, S ∪ list_to_set N) /\
  NoDup N /\ (forall x, x ∈ N -> x ∈ l /\ x ∉ S) /\ (forall x, x ∈ l -> x ∈ S \/ x ∈ N).
Proof.
  induction l as [|i l IH]; intros W S; simpl.
  { exists []. rewrite app_nil_r. simpl. rewrite (right_id_L ∅ (∪)).
    split_and!; [done|constructor|set_solver|set_solver]. }
  case_bool_decide as Hi.
  - destruct (IH W S) as (N & E & H1 & H2 & H3). exists N. split_and!; [done|done|set_solver|set_solver].
  - destruct (IH (W ++ [i]) (S ∪ {[i]})) as (N & E & H1 & H2 & H3). exists (i :: N). split_and!.
    + rewrite E. f_equal; [by rewrite <- app_assoc|]. simpl. by rewrite (assoc_L (∪)).
    + constructor; [|done]. intros Hin. destruct (H2 i Hin). set_solver.
    + set_solver.
    + intros x [->|Hx]%elem_of_cons; [set_solver|]. destruct (H3 x Hx); set_solver.
Qed.

Section collect.
Context (path : list (z3.expr * gset offset_t)) (s : state) (Hs : deps_inv path s).

(** Every recorded dependency is counted in the fuel. *)
Lemma dep_all off b : dep s off = Some b -> input_deps b ⊆ all_deps s.
Proof.
  unfold dep. destruct (Z.leb_spec 0 off); [|done]. destruct (di_row _ _ Hs) as (row & Er & _).
  intros Hb. unfold all_deps. rewrite Er in Hb |- *. simpl in Hb |- *. rewrite app_nil_r.
  destruct (row !! Z.to_nat off) as [o|] eqn:Ho; [|done]. simpl in Hb. subst o.
  intros x Hx. apply elem_of_union_list. exists (input_deps b). split; [|done].
  apply list_elem_of_fmap. exists (Some b). split; [done|]. by eapply list_elem_of_lookup_2.
Qed.

Lemma collect_loop_run (U : gset offset_t) : all_deps s ⊆ U -> forall fuel W S,
  NoDup W -> (forall x, x ∈ W -> x ∈ S) -> S ⊆ U -> in_range S ->
  (forall off b, (0, off) ∈ S -> (0, off) ∉ W -> dep s off = Some b -> input_deps b ⊆ S) ->
  (length W + size (U ∖ S) <= fuel)%nat ->
  exists R, collect_loop fuel W S s = (Ok R, s) /\ S ⊆ R /\ in_range R /\ closed s R /\
    forall P, (forall x, x ∈ S -> P x) -> closed_under s P -> forall x, x ∈ R -> P x.
Proof.
  intros HU fuel. induction fuel as [|fuel IH]; intros W S Hnd HW HSU Hr Hcl Hf;
    destruct W as [|x W _] using rev_ind.
  - exists S. split_and!; [done|done|done| |done]. intros off b Ho. apply (Hcl off b Ho). by intros ?%elem_of_nil.
  - rewrite length_app in Hf. simpl in Hf. lia.
  - exists S. split_and!; [done|done|done| |done]. intros off b Ho. apply (Hcl off b Ho). by intros ?%elem_of_nil.
  - apply NoDup_app in Hnd as (HndW & Hdis & _). rewrite length_app in Hf. simpl in Hf.
    assert (x ∈ S) as HxS by (apply HW; set_solver). destruct x as [i off].
    destruct (Hr _ _ HxS) as [-> Ho].
    simpl collect_loop. rewrite last_snoc, removelast_last.
    erewrite bind_eq by (by apply (get_dep_run path)). destruct (dep s off) as [b|] eqn:Hb.
    + destruct (push_new_run (elements (input_deps b)) W S) as (N & E & HN1 & HN2 & HN3). rewrite E.
      assert (forall y, y ∈ N -> y ∈ input_deps b) as HNb.
      { intros y Hy. destruct (HN2 y Hy) as [Hy' _]. by apply elem_of_elements. }
      pose proof (dep_all off b Hb) as Hball.
      assert (input_deps b ⊆ S ∪ list_to_set N) as Hsub.
      { intros y Hy. apply elem_of_elements in Hy. destruct (HN3 y Hy); set_solver. }
      destruct (IH (W ++ N) (S ∪ list_to_set N)) as (R & ER & H1 & H2 & H3 & H4).
      * apply NoDup_app. split_and!; [done| |done]. intros y Hy HyN. destruct (HN2 y HyN) as [_ Hn].
        apply Hn, HW. set_solver.
      * set_solver.
      * set_solver.
      * intros j o [Hjo|Hjo]%elem_of_union; [by apply Hr|]. apply elem_of_list_to_set in Hjo.
        by apply (di_range _ _ Hs off b Hb), HNb.
      * intros o' b' Ho' HnW Hb'. destruct (decide (o' = off)) as [->|Hne].
        { rewrite Hb in Hb'. by injection Hb' as <-. }
        assert ((0, o') ∈ S) as HoS by set_solver.
        assert ((0, o') ∉ W ++ [(0, off)]) as Hn'.
        { intros [?|[= ?]%list_elem_of_singleton]%elem_of_app; [set_solver|congruence]. }
        specialize (Hcl o' b' HoS Hn' Hb'). set_solver.
      * rewrite length_app.
        assert (size (U ∖ S) = size (U ∖ (S ∪ list_to_set N)) + length N)%nat as Hsz; [|lia].
        assert (size (list_to_set N : gset offset_t) = length N) as <- by (by apply size_list_to_set).
        rewrite <- size_union by set_solver.
        f_equal. apply set_eq. intros y. rewrite elem_of_union, !elem_of_difference, elem_of_union.
        rewrite elem_of_list_to_set.
        destruct (decide (y ∈ N)) as [D|D]; [|tauto]. destruct (HN2 y D) as [_ Hn].
        assert (y ∈ U) by set_solver. tauto.
      * exists R. split_and!; [done|set_solver|done|done|]. intros C HC HcC. apply H4; [|done].
        intros y [Hy|Hy%elem_of_list_to_set]%elem_of_union; [by apply HC|].
        apply (HcC off b y); [by apply HC|done|by apply HNb].
    + destruct (IH W S) as (R & ER & H1 & H2 & H3 & H4); [done|set_solver|done|done| |lia|].
      * intros o' b' Ho' HnW Hb'. destruct (decide (o' = off)) as [->|Hne]; [congruence|].
        apply (Hcl o' b' Ho'); [|done].
        intros [?|[= ?]%list_elem_of_singleton]%elem_of_app; [done|congruence].
      * by exists R.
Qed.

(** The fuel is enough, and the result is the least closed set. *)
Lemma collect_run I : in_range I -> exists R, collect_more_deps I s = (Ok R, s) /\ I ⊆ R /\ in_range R /\
  closed s R /\ forall P, (forall x, x ∈ I -> P x) -> closed_under s P -> forall x, x ∈ R -> P x.
Proof.
  intros HI. unfold collect_more_deps, bind, gets, id.
  apply (collect_loop_run (I ∪ all_deps s)); [set_solver|apply NoDup_elements| |set_solver|done| |].
  - intros x. by rewrite elem_of_elements.
  - intros off b Ho Hn. rewrite elem_of_elements in Hn. done.
  - change (length (elements I)) with (size I). rewrite <- size_union by set_solver.
    apply Nat.eq_le_incl. f_equal. apply set_eq. intros x. destruct (decide (x ∈ I)); set_solver.
Qed.

(** The bytes that share a constraint with a byte of [I], directly or through
    others. *)
Inductive reach (I : gset offset_t) : offset_t -> Prop :=
  | reach_in x : x ∈ I -> reach I x
  | reach_dep off b x : reach I (0, off) -> dep s off = Some b -> x ∈ input_deps b -> reach I x.

(** C32: the worklist of [collect_more_deps] always ends, with exactly the bytes
    that share a constraint with one of the given bytes, directly or through
    others. *)
Theorem collect_reaches I : in_range I ->
  exists R, collect_more_deps I s = (Ok R, s) /\ forall x, x ∈ R <-> reach I x.
Proof.
  intros HI. destruct (collect_run I HI) as (R & E & H1 & H2 & H3 & H4). exists R. split; [done|].
  intros x. split.
  - apply H4; [by apply reach_in|]. intros off b y Hr Hb Hy. by eapply reach_dep.
  - induction 1 as [x Hx|off b x _ IH Hb Hx]; [by apply H1|]. by apply (H3 off b).
Qed.

(** ** The constraints of a task *)

Lemma foldl_insert es : forall acc x, x ∈ foldl (fun l e => insert_expr e l) acc es <-> x ∈ acc \/ x ∈ es.
Proof.
  induction es as [|e es IH]; intros acc x; simpl; [set_solver|]. rewrite IH, insert_expr_elem.
  rewrite elem_of_cons. tauto.
Qed.

Lemma nested_loop_run l : (forall i off, (i, off) ∈ l -> i = 0 /\ 0 <= off < len) -> forall acc,
  exists N, nested_loop l acc s = (Ok N, s) /\ forall x, x ∈ N <-> x ∈ acc \/
    exists off b, (0, off) ∈ l /\ dep s off = Some b /\ x ∈ expr_deps b.
Proof.
  induction l as [|[i o] l IH]; intros Hl acc; simpl.
  { exists acc. split; [done|]. intros x. set_solver. }
  destruct (Hl i o) as [-> Ho]; [by left|]. erewrite bind_eq by (by apply (get_dep_run path)).
  destruct (IH ltac:(set_solver) (foldl (fun l e => insert_expr e l) acc
    (match dep s o with Some d => expr_deps d | None => [] end))) as (N & E & HN).
  exists N. split; [done|]. intros x. rewrite HN, foldl_insert. split.
  - intros [[?|Hx]|(off & b & H1 & H2 & H3)]; [by left| |].
    + right. destruct (dep s o) as [b|] eqn:Hb; [|by apply elem_of_nil in Hx]. exists o, b.
      split; [by left|done].
    + right. exists off, b. split; [by right|done].
  - intros [?|(off & b & [[= ->]|H1]%elem_of_cons & H2 & H3)]; [by left; left| |].
    + left. right. by rewrite H2.
    + right. by exists off, b.
Qed.

End collect.

End deps.

(** ** Calls of the parser *)

Section calls.
Context {LLVM : InstructionDef} {L : z3.Library} {LL : z3.LibraryLaws}.
Context (t : gmap Z dfsan_label_info) (size_ last len : Z).
Context (Hdag : dag t last) (Hsized : sized t last) (Hsize : last < size_) (Hlen : 0 <= len <= 2 ^ 32).
Context (Hok : forall l, 1 <= l <= last -> z3_ok t len (info_at t l)) (Hinit : last < kInitializingLabel).

(** A saved constraint says that a label has a value. *)
Definition says (f : Z * Z) (c : z3.expr * gset offset_t) : Prop :=
  means len (fst c) z3.BoolSort (fun env => Z.b2z (eval t env (fst f) =? snd f)) (snd c).

(** The parser after the facts [facts] were saved: its caches are right, and the
    constraints it keeps are those facts. *)
Record parser_inv (facts : list (Z * Z)) (s : state) : Prop := {
  pi_scanned : exists n, scanned t len n s /\ Z.of_nat n <= last;
  pi_path : exists path, deps_inv len path s /\ Forall2 says facts path
}.

(** A task for [goal]: its other constraints are those saved facts that share
    bytes with it, directly or not; no other fact reads a byte of [R]. *)
Record task_for (facts : list (Z * Z)) (goal : input_env -> Z) (task : list z3.expr) : Prop := {
  tf_parts : exists e rest R, task = e :: rest /\ means len e z3.BoolSort goal R /\
    (forall x, x ∈ rest -> exists f I, f ∈ facts /\ says f (x, I) /\ I ⊆ R) /\
    (forall f, f ∈ facts -> exists x I, says f (x, I) /\ (x ∈ rest \/ forall y, y ∈ I -> y ∉ R))
}.

Lemma scanned_rest n s s' : expr_cache_ s' = expr_cache_ s -> deps_cache_ s' = deps_cache_ s ->
  tsize_cache_ s' = tsize_cache_ s -> scanned t len n s -> scanned t len n s'.
Proof. intros E1 E2 E3 [H1 H2 H3 H4]. split; rewrite ?E1, ?E2, ?E3; done. Qed.

Lemma deps_inv_rest path s s' : branch_deps_ s' = branch_deps_ s -> deps_inv len path s -> deps_inv len path s'.
Proof.
  intros E [H1 H2 H3 H4 H5]. assert (forall off, dep s' off = dep s off) as Hd.
  { intros off. unfold dep. by rewrite E. }
  split; try done.
  - by rewrite E.
  - intros e I off. rewrite Hd. apply H2.
  - intros off b e. rewrite Hd. apply H3.
  - intros off b. rewrite Hd. apply H4.
Qed.

Lemma says_ext f e I I' : says f (e, I) -> I ⊆ I' -> in_range len I' -> says f (e, I').
Proof. intros H1 H2 H3. by eapply means_deps. Qed.

(** The constraint that an expression has the value [v]. *)
Lemma equals_made l e d c v : made t len l e d -> means len c (label_sort (info_at t l)) (fun _ => v) ∅ ->
  means len (z3.Bin z3.Eq e c) z3.BoolSort (fun env => Z.b2z (eval t env l =? v)) d /\
  means len (z3.Bin z3.Distinct e c) z3.BoolSort (fun env => Z.b2z (negb (eval t env l =? v))) d.
Proof.
  intros He Hc. pose proof (mn_deps _ _ _ _ _ He) as Hd. unfold made in He.
  apply (means_deps _ _ _ _ _ d) in Hc; [|set_solver|done].
  set (srt := label_sort (info_at t l)) in *.
  assert (forall o, o = z3.Eq \/ o = z3.Distinct -> z3.sort_bin o srt srt = Some z3.BoolSort) as Ho.
  { intros o [-> | ->]; simpl; by rewrite decide_True. }
  split; (eapply means_ext; [|eapply means_bin; [exact He|exact Hc|apply Ho; tauto]]); done.
Qed.

(** Serialisation, closure and nested constraints together. *)
Lemma collected_run facts s l : parser_inv facts s -> 1 <= l <= last ->
  exists e d s' path R N, serialize t size_ l s = (Ok (e, d), s') /\ same_rest s s' /\ made t len l e d /\
    (exists n, scanned t len n s' /\ Z.of_nat n <= last) /\ deps_inv len path s' /\ Forall2 says facts path /\
    collect_more_deps d s' = (Ok R, s') /\ d ⊆ R /\ in_range len R /\
    add_nested_constraints R s' = (Ok N, s') /\
    (forall x, x ∈ N -> exists f I, f ∈ facts /\ says f (x, I) /\ I ⊆ R) /\
    (forall f, f ∈ facts -> exists x I, says f (x, I) /\ (x ∈ N \/ forall y, y ∈ I -> y ∉ R)).
Proof.
  intros [(n & Hsc & Hn) (path & Hdi & Hf)] Hl.
  destruct (serialize_run t size_ last len Hdag Hsized Hsize ltac:(lia) Hok Hinit n s l Hsc Hl Hn)
    as (e & d & s' & n' & E & Hm & Hsc' & _ & Hn' & Hr).
  assert (deps_inv len path s') as Hdi'.
  { destruct Hr as (ts & es & ds & ->). by apply (deps_inv_rest path s). }
  destruct (collect_run len Hlen path s' Hdi' d (mn_deps _ _ _ _ _ Hm)) as (R & Ec & HdR & HRr & Hcl & _).
  destruct (nested_loop_run len Hlen path s' Hdi' (elements R)
    ltac:(intros i off; rewrite elem_of_elements; apply HRr) []) as (N & EN & HN).
  exists e, d, s', path, R, N. split_and!; try done; [by exists n'| |].
  - intros x Hx. apply HN in Hx as [Hx|(off & b & Ho & Hb & Hx)]; [by apply elem_of_nil in Hx|].
    apply elem_of_elements in Ho. destruct (di_only _ _ _ Hdi' off b x Hb Hx) as (I & HI & HoI).
    destruct (proj1 (list_elem_of_lookup _ _) HI) as [k Hk].
    destruct (Forall2_lookup_r _ _ _ _ _ Hf Hk) as (f & Hfk & Hsays). exists f, I.
    split_and!; [by eapply list_elem_of_lookup_2|done|].
    destruct (di_saved _ _ _ Hdi' x I off HI HoI) as (b' & Hb' & _ & Hsub). rewrite Hb in Hb'.
    injection Hb' as <-. etrans; [exact Hsub|]. by apply (Hcl off b).
  - intros f Hff. apply list_elem_of_lookup in Hff as [k Hk].
    destruct (Forall2_lookup_l _ _ _ _ _ Hf Hk) as ([x I] & Hxk & Hsays). exists x, I. split; [done|].
    assert ((x, I) ∈ path) as Hin by (by eapply list_elem_of_lookup_2).
    destruct (decide (I ∩ R = ∅)) as [D|[[i off] Hy]%set_choose_L]; [right; set_solver|]. left.
    assert (i = 0) as -> by (apply (HRr i off); set_solver).
    destruct (di_saved _ _ _ Hdi' x I off Hin ltac:(set_solver)) as (b & Hb & Hxb & _).
    apply HN. right. exists off, b. split_and!; [|done|done]. apply elem_of_elements. set_solver.
Qed.

Lemma or_fail_ok m s s' : m s = (Ok 0, s') -> or_fail m s = (Ok 0, s').
Proof. unfold or_fail, catch. by intros ->. Qed.

Lemma valid_label l : 1 <= l <= last -> (l <? CONST_OFFSET) || invalid_label size_ l = false.
Proof.
  intros Hl. unfold CONST_OFFSET, invalid_label.
  rewrite (proj2 (Z.ltb_ge l 1)), (proj2 (Z.eqb_neq l kInitializingLabel)), (proj2 (Z.leb_gt size_ l)) by lia.
  done.
Qed.

(** Saving one more fact. *)
Lemma save_run facts path s l v c R : (exists n, scanned t len n s /\ Z.of_nat n <= last) ->
  deps_inv len path s -> Forall2 says facts path -> says (l, v) (c, R) -> in_range len R ->
  exists s' row, save_constraint c R s = (Ok tt, s') /\ s' = set_branch_deps [row] s /\
    parser_inv (facts ++ [(l, v)]) s'.
Proof.
  intros Hn Hdi Hf Hc HR. destruct (save_constraint_run len Hlen path s c R Hdi HR) as (s' & row & E & -> & Hdi').
  exists (set_branch_deps [row] s), row. split_and!; [done|done|]. split.
  - destruct Hn as (n & Hsc & Hn). exists n. split; [by apply (scanned_rest n s)|done].
  - exists (path ++ [(c, R)]). split; [done|]. by apply Forall2_app; [|constructor; [|constructor]].
Qed.

Lemma parse_cond_run facts s l r nested : parser_inv facts s -> 1 <= l <= last -> boolean t l = true ->
  exists s' task, parse_cond t size_ l r nested s = (Ok 0, s') /\
    parser_inv (facts ++ (if nested : bool then [(l, Z.b2z r)] else [])) s' /\
    tasks_ s' = <[prev_task_id_ s := task]> (tasks_ s) /\ out_tasks s' = out_tasks s ++ [prev_task_id_ s] /\
    task_for facts (fun env => Z.b2z (negb (eval t env l =? Z.b2z r))) task.
Proof.
  intros Hp Hl Hb. unfold parse_cond. rewrite valid_label by done.
  set (s0 := set_has_fsize false s).
  assert (parser_inv facts s0) as Hp0.
  { destruct Hp as [(n & Hsc & Hn) (path & Hdi & Hf)]. split.
    - exists n. split; [by apply (scanned_rest n s)|done].
    - exists path. split; [by apply (deps_inv_rest path s)|done]. }
  destruct (collected_run facts s0 l Hp0 Hl)
    as (e & d & s1 & path & R & N & E & Hr & Hm & Hsc & Hdi & Hf & Ec & HdR & HRr & EN & HN1 & HN2).
  destruct (equals_made l e d (z3.BoolVal r) (Z.b2z r) Hm) as [Meq Mne].
  { rewrite sort_bool by done. apply means_bool. }
  assert (has_fsize s1 = false /\ prev_task_id_ s1 = prev_task_id_ s /\ tasks_ s1 = tasks_ s /\
    out_tasks s1 = out_tasks s) as (Hfs & Hid & Hts & Hout) by (destruct Hr as (? & ? & ? & ->); done).
  set (task := z3.Bin z3.Distinct e (z3.BoolVal r) :: N).
  set (s2 := set_tasks (<[prev_task_id_ s1 := task]> (tasks_ s1)) (u64 (prev_task_id_ s1 + 1))
    (out_tasks s1 ++ [prev_task_id_ s1]) s1).
  assert (push_task task s1 = (Ok tt, s2)) as Ep by done.
  assert (task_for facts (fun env => Z.b2z (negb (eval t env l =? Z.b2z r))) task) as Htask.
  { split. exists (z3.Bin z3.Distinct e (z3.BoolVal r)), N, R. split_and!; try done. by eapply means_deps. }
  assert ((exists n, scanned t len n s2 /\ Z.of_nat n <= last) /\ deps_inv len path s2) as [Hsc2 Hdi2].
  { split; [|by apply (deps_inv_rest path s1)]. destruct Hsc as (n & Hsc & Hn). exists n.
    split; [by apply (scanned_rest n s1)|done]. }
  assert (exists s3, (let! f := gets has_fsize in
    (if nested && negb f then
       let! c := lift (z3.mk (z3.Bin z3.Eq e (z3.BoolVal r))) in save_constraint c R
     else ret tt) ;;; ret 0) s2 = (Ok 0, s3) /\
    parser_inv (facts ++ (if nested then [(l, Z.b2z r)] else [])) s3 /\
    tasks_ s3 = tasks_ s2 /\ out_tasks s3 = out_tasks s2) as (s3 & E3 & Hp3 & Ht3 & Ho3).
  { unfold bind at 1, gets. change (has_fsize s2) with (has_fsize s1). rewrite Hfs.
    destruct nested; simpl andb; cbv iota.
    - assert (says (l, Z.b2z r) (z3.Bin z3.Eq e (z3.BoolVal r), R)) as Hc by (by eapply means_deps).
      destruct (save_run facts path s2 l (Z.b2z r) _ R Hsc2 Hdi2 Hf Hc HRr) as (s3 & row & E3 & -> & Hp3).
      exists (set_branch_deps [row] s2). split; [|done]. unfold bind, lift.
      rewrite (means_mk _ _ _ _ _ Meq). by rewrite E3.
    - exists s2. split_and!; [done| |done|done]. rewrite app_nil_r. split; [done|]. by exists path. }
  exists s3, task. split.
  { apply or_fail_ok. erewrite bind_eq by done. erewrite bind_eq by exact E. cbv beta iota.
    unfold bind at 1, lift at 1. rewrite (means_mk _ _ _ _ _ Mne).
    erewrite bind_eq by exact Ec. erewrite bind_eq by exact EN. erewrite bind_eq by exact Ep. exact E3. }
  split_and!; [done| | |done].
  - rewrite Ht3. simpl. by rewrite Hid, Hts.
  - rewrite Ho3. simpl. by rewrite Hid, Hout.
Qed.

(** The constraint that a label has a value of its width. *)
Lemma value_constraint_run facts s l v : parser_inv facts s -> 1 <= l <= last -> is_u (label_width t l) v ->
  exists c R s1 path, value_constraint t size_ l v s = (Ok (c, R), s1) /\ same_rest s s1 /\
    (exists n, scanned t len n s1 /\ Z.of_nat n <= last) /\ deps_inv len path s1 /\ Forall2 says facts path /\
    in_range len R /\ says (l, v) (c, R).
Proof.
  intros Hp Hl Hbound. destruct (collected_run facts s l Hp Hl)
    as (e & d & s1 & path & R & N & E & Hr & Hm & Hsc & Hdi & Hf & Ec & HdR & HRr & _).
  destruct (Hok l Hl) as [H256 _]. pose proof (well_sized_size _ _ (Hsized l Hl)) as Hpos.
  assert (u8 (i_size (info_at t l)) = i_size (info_at t l)) as E8 by (apply wrap_small; unfold is_u; lia).
  pose proof (means_bv len v (i_size (info_at t l)) ltac:(lia)) as Hbv.
  set (c := if z3.is_bool e then z3.BoolVal (negb (v =? 0)) else z3.BvVal v (i_size (info_at t l))).
  assert (means len c (label_sort (info_at t l)) (fun _ => v) ∅) as Hc.
  { unfold c, z3.is_bool. rewrite (mn_sort _ _ _ _ _ Hm).
    pose proof (label_sort_width t l (Hsized l Hl)) as Hw. unfold is_u in Hbound. rewrite <- Hw in Hbound.
    destruct (boolean t l) eqn:Hb.
    - rewrite sort_bool in Hbound |- * by done. rewrite bool_decide_eq_true_2 by done. simpl in Hbound.
      eapply means_ext; [|apply means_bool]. intros env0. change (2 ^ 1) with 2 in Hbound.
      assert (v = 0 \/ v = 1) as [-> | ->] by lia; done.
    - rewrite sort_bits in Hbound |- * by done. rewrite bool_decide_eq_false_2 by done.
      eapply means_ext; [|exact Hbv]. intros env0. by apply wrap_small. }
  destruct (equals_made l e d c v Hm Hc) as [Meq _].
  exists (z3.Bin z3.Eq e c), R, s1, path. split_and!; try done; [|by eapply means_deps].
  unfold value_constraint. erewrite bind_eq by exact E. cbv beta iota. erewrite bind_eq by exact Ec.
  unfold bind, lift, ret. unfold get_label_info. rewrite (proj2 (Z.leb_gt size_ l)) by lia.
  rewrite E8, (means_mk _ _ _ _ _ Hbv). fold c. by rewrite (means_mk _ _ _ _ _ Meq).
Qed.

(** The value a call of [add_constraints] records. *)
Lemma z3_constraint_run facts s l v env : parser_inv facts s -> 1 <= l <= last -> eval t env l = v ->
  exists s', add_constraints t size_ l v s = (Ok 0, s') /\ parser_inv (facts ++ [(l, v)]) s' /\
    tasks_ s' = tasks_ s /\ out_tasks s' = out_tasks s.
Proof.
  intros Hp Hl Hv. unfold add_constraints. rewrite valid_label by done.
  pose proof (eval_bound t env last Hdag Hsized l Hl) as Hbound. rewrite Hv in Hbound.
  destruct (value_constraint_run facts s l v Hp Hl Hbound) as (c & R & s1 & path & Ev & Hr & Hsc & Hdi & Hf & HRr & Hsays).
  destruct (save_run facts path s1 l v _ R Hsc Hdi Hf Hsays HRr) as (s3 & row & E3 & -> & Hp3).
  exists (set_branch_deps [row] s1). split.
  { apply or_fail_ok. erewrite bind_eq by exact Ev. cbv beta iota. by erewrite bind_eq by exact E3. }
  split; [done|]. destruct Hr as (? & ? & ? & ->). done.
Qed.

(** A constraint of a task that asks for a value. *)
Definition asked (f : Z * Z) (c : z3.expr) : Prop := exists R, in_range len R /\ says f (c, R).

(** [add_constraints_as_task]: the constraint is added to the task, under a new number. *)
Lemma as_task_run facts s l v tid : parser_inv facts s -> 1 <= l <= last -> is_u (label_width t l) v ->
  exists s' c, add_constraints_as_task t size_ l v tid s = (Ok (0, prev_task_id_ s), s') /\
    parser_inv (facts ++ [(l, v)]) s' /\ asked (l, v) c /\
    tasks_ s' !! prev_task_id_ s = Some (default [] (tasks_ s !! tid) ++ [c]).
Proof.
  intros Hp Hl Hv. unfold add_constraints_as_task. rewrite valid_label by done.
  assert (exists s0, retrieve_task tid s = (Ok (tasks_ s !! tid), s0) /\ parser_inv facts s0 /\
    prev_task_id_ s0 = prev_task_id_ s) as (s0 & E0 & Hp0 & Hid).
  { unfold retrieve_task, bind, gets. destruct (tasks_ s !! tid); [|by exists s]. eexists. split; [reflexivity|].
    split; [|done]. destruct Hp as [(n & Hsc & Hn) (path & Hdi & Hf)]. split.
    - exists n. split; [by apply (scanned_rest n s)|done].
    - exists path. split; [by apply (deps_inv_rest path s)|done]. }
  erewrite bind_eq by exact E0.
  destruct (value_constraint_run facts s0 l v Hp0 Hl Hv) as (c & R & s1 & path & Ev & Hr & Hsc & Hdi & Hf & HRr & Hsays).
  destruct (save_run facts path s1 l v _ R Hsc Hdi Hf Hsays HRr) as (s3 & row & E3 & -> & Hp3).
  assert (prev_task_id_ s1 = prev_task_id_ s) as Hid1 by (rewrite <- Hid; by destruct Hr as (? & ? & ? & ->)).
  eexists _, c. split.
  { unfold catch. erewrite bind_eq by exact Ev. cbv beta iota. erewrite bind_eq by exact E3. cbn.
    rewrite Hid1. reflexivity. }
  split_and!; [|by exists R|cbn; apply lookup_insert_eq].
  destruct Hp3 as [(n & Hsc3 & Hn) (path3 & Hdi3 & Hf3)]. split.
  - exists n. split; [by apply (scanned_rest n (set_branch_deps [row] s1))|done].
  - exists path3. split; [by apply (deps_inv_rest path3 (set_branch_deps [row] s1))|done].
Qed.

(** ** Solutions *)

(** The input with the bytes of a solution. *)
Definition new_input (sol : list solution_val) (env : input_env) : input_env :=
  foldl (fun env v off => if sv_offset v =? off then sv_val v else env off) env sol.

Lemma new_input_other sol : forall env off, off ∉ sv_offset <$> sol -> new_input sol env off = env off.
Proof.
  induction sol as [|v sol IH]; intros env off Ho; simpl; [done|]. unfold new_input in *. simpl.
  rewrite IH by set_solver. rewrite (proj2 (Z.eqb_neq _ _)); [done|set_solver].
Qed.

Lemma new_input_at sol : forall env v, NoDup (sv_offset <$> sol) -> v ∈ sol ->
  new_input sol env (sv_offset v) = sv_val v.
Proof.
  induction sol as [|w sol IH]; intros env v Hnd Hv; [by apply elem_of_nil in Hv|].
  simpl in Hnd. apply NoDup_cons in Hnd as [Hn Hnd]. unfold new_input in *. simpl.
  apply elem_of_cons in Hv as [->|Hv]; [|by apply IH].
  pose proof (new_input_other sol (fun off => if sv_offset w =? off then sv_val w else env off) (sv_offset w) Hn)
    as Hother. unfold new_input in Hother. by rewrite Hother, Z.eqb_refl.
Qed.

(** The assignment of an input. *)
Definition input_assignment (env : input_env) : z3.assignment := fun s _ =>
  match s with
  | z3.StrSymbol name => match scan_input_name name with Some (_, off) => env off | None => 0 end
  | z3.IntSymbol _ => 0
  end.

Lemma input_assignment_at env off srt : is_u 32 off ->
  input_assignment env (z3.StrSymbol (input_name 0 off)) srt = env off.
Proof. intros Ho. unfold input_assignment. by rewrite scan_input_name_print. Qed.

Lemma reads_input env : reads (input_assignment env) env.
Proof. intros off Ho. unfold byte_symbol, ts_naming. by rewrite input_assignment_at. Qed.

(** A model of input bytes in [R], and its solution. *)
Definition byte_entry (R : gset offset_t) (c : z3.symbol * z3.sort * Z) (v : solution_val) : Prop :=
  (0, sv_offset v) ∈ R /\ is_u 8 (sv_val v) /\ sv_id v = 0 /\
  c = (z3.StrSymbol (input_name 0 (sv_offset v)), z3.BvSort 8, sv_val v).

Lemma generate_run R m : in_range len R ->
  (forall s srt v, (s, srt, v) ∈ m -> exists off, (0, off) ∈ R /\ is_u 8 v /\
     (s, srt) = (z3.StrSymbol (input_name 0 off), z3.BvSort 8)) ->
  exists sol, generate_solution m = (Ok tt, sol) /\ Forall2 (byte_entry R) m sol.
Proof.
  intros HR. induction m as [|[[s srt] v] m IH]; intros Hm; simpl.
  { exists []. split; [done|constructor]. }
  destruct (Hm s srt v) as (off & Ho & Hv & [= -> ->]); [by left|].
  destruct (IH ltac:(intros; apply Hm; by right)) as (sol & E & Hsol). destruct (HR _ _ Ho) as [_ Hoff].
  exists (mk_val 0 off v :: sol). split; [|by constructor].
  assert (const_solution (z3.StrSymbol (input_name 0 off)) v = Ok [mk_val 0 off v]) as ->.
  { unfold const_solution, starts_with. rewrite bool_decide_eq_true_2 by reflexivity.
    rewrite scan_input_name_print by (unfold is_u; lia). simpl. unfold z3.get_numeral_int.
    unfold is_u in Hv. rewrite (proj2 (Z.ltb_lt v _)) by lia. by rewrite wrap_small. }
  by rewrite E.
Qed.

Lemma model_input R m sol env : in_range len R -> Forall2 (byte_entry R) m sol -> NoDup (fst <$> m) ->
  z3.extends (input_assignment (new_input sol env)) m /\
  forall off, (0, off) ∉ R -> new_input sol env off = env off.
Proof.
  intros HR Hsol Hnd. assert (NoDup (sv_offset <$> sol)) as Hnd'.
  { clear - Hsol Hnd. induction Hsol as [|c v m sol (_ & _ & _ & ->) Hsol IH]; simpl in *; [constructor|].
    apply NoDup_cons in Hnd as [Hn Hnd]. constructor; [|by apply IH]. intros Hin. apply Hn.
    apply list_elem_of_fmap in Hin as (w & -> & Hw). apply list_elem_of_lookup in Hw as [k Hk].
    destruct (Forall2_lookup_r _ _ _ _ _ Hsol Hk) as (c & Hc & _ & _ & _ & ->).
    apply list_elem_of_fmap. eexists. split; [|by eapply list_elem_of_lookup_2]. done. }
  split.
  - intros s srt v Hin. apply list_elem_of_lookup in Hin as [k Hk].
    destruct (Forall2_lookup_l _ _ _ _ _ Hsol Hk) as (w & Hw & Ho & _ & _ & [= -> -> ->]).
    destruct (HR _ _ Ho) as [_ Hoff]. rewrite input_assignment_at by (unfold is_u; lia).
    apply new_input_at; [done|by eapply list_elem_of_lookup_2].
  - intros off Ho. apply new_input_other. intros Hin. apply Ho.
    apply list_elem_of_fmap in Hin as (w & -> & Hw). apply list_elem_of_lookup in Hw as [k Hk].
    by destruct (Forall2_lookup_r _ _ _ _ _ Hsol Hk) as (c & _ & ? & _).
Qed.

(** What a saved fact says depends on the bytes it was saved for. *)
Lemma means_agree e srt v d env env' : means len e srt v d ->
  (forall off, (0, off) ∈ d -> env off = env' off) -> v env = v env'.
Proof.
  intros [H1 H2 H3 H4] Hagree. rewrite <- (H2 _ _ (reads_input env)), <- (H2 _ _ (reads_input env')).
  apply z3.value_ext. intros s srt' Hc. destruct (H3 _ Hc) as (off & Ho & [= -> ->]).
  destruct (H4 _ _ Ho) as [_ Hoff]. unfold byte_symbol, ts_naming. rewrite !input_assignment_at by (unfold is_u; lia). by apply Hagree.
Qed.

(** Expressions over input bytes in [R]. *)
Definition over (R : gset offset_t) (e : z3.expr) : Prop := forall c, c ∈ z3.consts e ->
  exists off, (0, off) ∈ R /\ c = (z3.StrSymbol (input_name 0 off), z3.BvSort 8).

(** A value of the solution is a byte of the input. *)
Definition byte_value (v : solution_val) : Prop := 0 <= sv_offset v < len /\ is_u 8 (sv_val v).

Lemma solution_run R l m env : in_range len R -> Forall (over R) l -> z3.check l = z3.sat m ->
  exists sol, generate_solution m = (Ok tt, sol) /\ Forall byte_value sol /\
    Forall (fun e => z3.value (input_assignment (new_input sol env)) e = 1) l /\
    forall off, (0, off) ∉ R -> new_input sol env off = env off.
Proof.
  intros HR Hl Hc. destruct (generate_run R m HR) as (sol & E & Hsol).
  { intros s srt v Hin. destruct (z3.check_consts _ _ _ _ _ Hc Hin) as (e & He & Hs).
    rewrite Forall_forall in Hl. destruct (Hl e He _ Hs) as (off & Ho & [= -> ->]). exists off.
    split_and!; [done| |done]. by apply (z3.check_range _ _ _ _ _ Hc Hin). }
  destruct (model_input R m sol env HR Hsol (z3.check_once _ _ Hc)) as [Hext Hother].
  exists sol. split_and!; [done| | |done]; [|by apply (z3.check_sat _ _ Hc)].
  apply Forall_forall. intros v Hv. apply list_elem_of_lookup in Hv as [k Hk].
  destruct (Forall2_lookup_r _ _ _ _ _ Hsol Hk) as (c & _ & Ho & Hv & _). split; [by apply (HR 0)|done].
Qed.

(** A model of a whole task: the goal is reached and the facts stay true. *)
Lemma nested_model facts goal e rest R m env : means len e z3.BoolSort goal R -> Forall (over R) (e :: rest) ->
  (forall f, f ∈ facts -> exists x I, says f (x, I) /\ (x ∈ rest \/ forall y, y ∈ I -> y ∉ R)) ->
  Forall (fun f => eval t env (fst f) = snd f) facts -> z3.check (e :: rest) = z3.sat m ->
  exists sol, generate_solution m = (Ok tt, sol) /\ Forall byte_value sol /\ goal (new_input sol env) = 1 /\
    Forall (fun f => eval t (new_input sol env) (fst f) = snd f) facts.
Proof.
  intros He Hover Hall Hfacts Hm. pose proof (mn_deps _ _ _ _ _ He) as HR.
  destruct (solution_run R (e :: rest) m env HR Hover Hm) as (sol & Eg & Hbytes & Hv & Hother).
  exists sol. apply Forall_cons in Hv as [Hv1 Hv2]. rewrite (mn_value _ _ _ _ _ He _ _ (reads_input _)) in Hv1.
  split_and!; [done..|].
  rewrite Forall_forall in Hfacts. rewrite Forall_forall in Hv2. apply Forall_forall.
  intros f Hf. specialize (Hfacts f Hf). destruct (Hall f Hf) as (x & I & Hs & [Hx|Hdis]).
  - specialize (Hv2 x Hx). rewrite (mn_value _ _ _ _ _ Hs _ _ (reads_input _)) in Hv2.
    destruct (Z.eqb_spec (eval t (new_input sol env) (fst f)) (snd f)); done.
  - pose proof (means_agree _ _ _ _ env (new_input sol env) Hs) as Ha. cbv beta in Ha.
    rewrite Hfacts, Z.eqb_refl in Ha.
    destruct (Z.eqb_spec (eval t (new_input sol env) (fst f)) (snd f)) as [|Hne]; [done|].
    exfalso. assert (1 = 0) as H1; [|done]. apply Ha. intros off Ho. symmetry. apply Hother. by apply Hdis.
Qed.

(** What a status and a solution tell, for a task with the goal [goal]. *)
Definition answer (facts : list (Z * Z)) (goal : input_env -> Z) (task : list z3.expr) (env : input_env)
    (status : solving_status) (sol : list solution_val) : Prop :=
  match status with
  | nested_sat => goal (new_input sol env) = 1 /\
      Forall (fun f => eval t (new_input sol env) (fst f) = snd f) facts
  | opt_sat_nested_unsat => goal (new_input sol env) = 1 /\
      forall env', Forall (fun f => eval t env' (fst f) = snd f) facts -> goal env' <> 1
  | opt_sat_nested_timeout => goal (new_input sol env) = 1 /\ z3.check task = z3.unknown
  | opt_unsat => sol = [] /\ forall env', goal env' <> 1
  | opt_timeout => sol = [] /\ z3.check (take 1 task) = z3.unknown
  | _ => False
  end.

Lemma nested_unsat facts goal e rest R : means len e z3.BoolSort goal R ->
  (forall x, x ∈ rest -> exists f I, f ∈ facts /\ says f (x, I) /\ I ⊆ R) -> z3.check (e :: rest) = z3.unsat ->
  forall env', Forall (fun f => eval t env' (fst f) = snd f) facts -> goal env' <> 1.
Proof.
  intros He Hrest Hc env' Hf Hg. rewrite Forall_forall in Hf. apply (z3.check_unsat _ Hc (input_assignment env')).
  constructor; [by rewrite (mn_value _ _ _ _ _ He _ _ (reads_input _))|].
  apply Forall_forall. intros x Hx. destruct (Hrest x Hx) as (f & I & Hff & Hs & _).
  rewrite (mn_value _ _ _ _ _ Hs _ _ (reads_input _)). by rewrite (Hf f Hff), Z.eqb_refl.
Qed.

Lemma solve_task_run facts goal task s tid env : task_for facts goal task ->
  Forall (fun f => eval t env (fst f) = snd f) facts -> tasks_ s !! tid = Some task ->
  exists status sol, solve_task tid s =
      (Ok (status, sol), set_tasks (delete tid (tasks_ s)) (prev_task_id_ s) (out_tasks s) s) /\
    Forall byte_value sol /\ answer facts goal task env status sol.
Proof.
  intros [(e & rest & R & -> & He & Hrest & Hall)] Hfacts Ht. pose proof (mn_deps _ _ _ _ _ He) as HR.
  assert (Forall (over R) (e :: rest)) as Hover.
  { constructor; [exact (mn_consts _ _ _ _ _ He)|]. apply Forall_forall. intros x Hx c Hc.
    destruct (Hrest x Hx) as (f & I & _ & Hs & HI). destruct (mn_consts _ _ _ _ _ Hs c Hc) as (off & Ho & ->).
    exists off. split; [set_solver|done]. }
  pose proof (fun m => nested_model facts goal e rest R m env He Hover Hall Hfacts) as Hnested.
  assert (forall m, z3.check [e] = z3.sat m -> exists sol, generate_solution m = (Ok tt, sol) /\
    Forall byte_value sol /\ goal (new_input sol env) = 1) as Hopt.
  { intros m Hm. assert (Forall (over R) [e]) as Hover1 by (inversion Hover; by repeat constructor).
    destruct (solution_run R [e] m env HR Hover1 Hm) as (sol & Eg & Hb & Hv & _). exists sol.
    apply Forall_cons in Hv as [Hv _]. by rewrite (mn_value _ _ _ _ _ He _ _ (reads_input _)) in Hv. }
  unfold solve_task, retrieve_task, bind, gets. rewrite Ht. simpl.
  destruct (z3.check [e]) as [m| |] eqn:E1.
  - destruct (Hopt m eq_refl) as (sol1 & Eg1 & Hb1 & Hg1). destruct rest as [|e' rest]; simpl.
    + destruct (Hnested m E1) as (sol2 & Eg2 & Hb2 & Hg2). rewrite Eg2. by exists nested_sat, sol2.
    + destruct (z3.check (e :: e' :: rest)) as [m'| |] eqn:E2.
      * destruct (Hnested m' eq_refl) as (sol2 & Eg2 & Hb2 & Hg2). rewrite Eg2. by exists nested_sat, sol2.
      * rewrite Eg1. exists opt_sat_nested_unsat, sol1. split_and!; [done..|]. split; [done|].
        by apply (nested_unsat facts goal e (e' :: rest) R).
      * rewrite Eg1. by exists opt_sat_nested_timeout, sol1.
  - exists opt_unsat, []. split_and!; [done|constructor|]. split; [done|]. intros env' Hg.
    apply (z3.check_unsat _ E1 (input_assignment env')). constructor; [|constructor].
    by rewrite (mn_value _ _ _ _ _ He _ _ (reads_input _)).
  - exists opt_timeout, []. by split_and!; [|constructor|].
Qed.

(** A task that asks for several values: a solution of all of them, or of the first. *)
Definition asked_answer (wants : list (Z * Z)) (cs : list z3.expr) (env : input_env) (status : solving_status)
    (sol : list solution_val) : Prop :=
  let holds env' (f : Z * Z) := eval t env' (fst f) = snd f in
  match status with
  | nested_sat => Forall (holds (new_input sol env)) wants
  | opt_sat_nested_unsat => Forall (holds (new_input sol env)) (take 1 wants) /\ forall env', ~ Forall (holds env') wants
  | opt_sat_nested_timeout => Forall (holds (new_input sol env)) (take 1 wants) /\ z3.check cs = z3.unknown
  | opt_unsat => forall env', ~ Forall (holds env') (take 1 wants)
  | opt_timeout => z3.check (take 1 cs) = z3.unknown
  | _ => False
  end.

Lemma asked_over wants cs : Forall2 asked wants cs -> exists R, in_range len R /\ Forall (over R) cs.
Proof.
  induction 1 as [|f c wants cs (R1 & HR1 & Hs) _ (R2 & HR2 & Hover)].
  - exists ∅. split; [intros i off H; set_solver|constructor].
  - exists (R1 ∪ R2). split; [intros i off [|]%elem_of_union; eauto|]. constructor.
    + intros x Hx. destruct (mn_consts _ _ _ _ _ Hs x Hx) as (off & Ho & ->). exists off. split; [set_solver|done].
    + eapply Forall_impl; [exact Hover|]. intros e He x Hx. destruct (He x Hx) as (off & Ho & ->).
      exists off. split; [set_solver|done].
Qed.

Lemma asked_values wants cs env : Forall2 asked wants cs ->
  Forall (fun e => z3.value (input_assignment env) e = 1) cs <-> Forall (fun f => eval t env (fst f) = snd f) wants.
Proof.
  induction 1 as [|f c wants cs (R & _ & Hs) _ IH]; [by split|]. rewrite !Forall_cons, IH.
  pose proof (mn_value _ _ _ _ _ Hs _ _ (reads_input env)) as Hv. cbn [fst snd] in Hv. rewrite Hv.
  destruct (Z.eqb_spec (eval t env (fst f)) (snd f)); split; intros []; done.
Qed.

Lemma solve_asked_run wants cs s tid env : Forall2 asked wants cs -> wants <> [] -> tasks_ s !! tid = Some cs ->
  exists status sol s', solve_task tid s = (Ok (status, sol), s') /\ Forall byte_value sol /\
    asked_answer wants cs env status sol.
Proof.
  intros Ha Hne Ht. destruct (asked_over wants cs Ha) as (R & HR & Hover).
  destruct Ha as [|f c wants cs Hf Ha]; [done|]. assert (Forall2 asked (f :: wants) (c :: cs)) as Hall by (by constructor).
  assert (Forall2 asked [f] [c]) as Hone by (by repeat constructor).
  assert (forall ws l m, Forall2 asked ws l -> Forall (over R) l -> z3.check l = z3.sat m ->
    exists sol, generate_solution m = (Ok tt, sol) /\ Forall byte_value sol /\
      Forall (fun f => eval t (new_input sol env) (fst f) = snd f) ws) as Hsat.
  { intros ws l m Hl Ho Hm. destruct (solution_run R l m env HR Ho Hm) as (sol & Eg & Hb & Hv & _).
    exists sol. split_and!; [done..|]. by rewrite <- (asked_values ws l). }
  assert (forall ws l, Forall2 asked ws l -> z3.check l = z3.unsat ->
    forall env', ~ Forall (fun f => eval t env' (fst f) = snd f) ws) as Hunsat.
  { intros ws l Hl Hc env'. rewrite <- (asked_values ws l) by done. apply (z3.check_unsat _ Hc). }
  assert (Forall (over R) [c]) as Hover1 by (inversion Hover; by repeat constructor).
  unfold solve_task, retrieve_task, bind, gets. rewrite Ht. simpl.
  destruct (z3.check [c]) as [m| |] eqn:E1.
  - destruct (Hsat [f] [c] m Hone Hover1 E1) as (sol1 & Eg1 & Hb1 & Hg1).
    destruct cs as [|c' cs]; simpl.
    + inversion Ha; subst. rewrite Eg1. by eexists nested_sat, sol1, _.
    + destruct (z3.check (c :: c' :: cs)) as [m'| |] eqn:E2.
      * destruct (Hsat _ _ m' Hall Hover E2) as (sol2 & Eg2 & Hb2 & Hg2). rewrite Eg2. by eexists nested_sat, sol2, _.
      * rewrite Eg1. eexists opt_sat_nested_unsat, sol1, _. split_and!; [done..|]. split; [done|]. exact (Hunsat _ _ Hall E2).
      * rewrite Eg1. by eexists opt_sat_nested_timeout, sol1, _.
  - eexists opt_unsat, [], _. split_and!; [done|constructor|]. exact (Hunsat [f] [c] Hone E1).
  - by eexists opt_timeout, [], _.
Qed.

(** The other side of a boolean label. *)
Lemma flipped_value l r : 1 <= l <= last -> boolean t l = true -> forall env',
  Z.b2z (negb (eval t env' l =? Z.b2z r)) = 1 <-> eval t env' l = Z.b2z (negb r).
Proof.
  intros Hl Hb env'. pose proof (eval_bound t env' last Hdag Hsized l Hl) as Hbd.
  pose proof (label_sort_width t l (Hsized l Hl)) as Hw. rewrite sort_bool in Hw by done. rewrite <- Hw in Hbd.
  unfold is_u in Hbd. simpl in Hbd. change (2 ^ 1) with 2 in Hbd.
  destruct (Z.eqb_spec (eval t env' l) (Z.b2z r)), r; simpl in *; lia.
Qed.

(** ** A run *)

(** The calls the driver makes while it follows a run of the program. *)
Inductive call := Cond (l : Z) (result add_nested : bool) | Value (l v : Z).

Definition run_call (c : call) : M state Z :=
  match c with
  | Cond l r n => parse_cond t size_ l r n
  | Value l v => add_constraints t size_ l v
  end.

(** The fact a call records, and what it relies on: the label has the value that
    the program observed. *)
Definition fact (c : call) : list (Z * Z) :=
  match c with Cond l r true => [(l, Z.b2z r)] | Cond _ _ false => [] | Value l v => [(l, v)] end.
Definition observed (env : input_env) (c : call) : Prop :=
  match c with
  | Cond l r _ => 1 <= l <= last /\ boolean t l = true /\ eval t env l = Z.b2z r
  | Value l v => 1 <= l <= last /\ eval t env l = v
  end.

Lemma calls_run env calls : Forall (observed env) calls -> forall facts s, parser_inv facts s ->
  Forall (fun f => eval t env (fst f) = snd f) facts ->
  exists s', for_each calls (fun c => run_call c ;;; ret tt) s = (Ok tt, s') /\
    parser_inv (facts ++ mjoin (fact <$> calls)) s' /\
    Forall (fun f => eval t env (fst f) = snd f) (facts ++ mjoin (fact <$> calls)).
Proof.
  induction 1 as [|c calls Hc _ IH]; intros facts s Hp Hf; simpl.
  { exists s. by rewrite app_nil_r. }
  assert (exists s1, run_call c s = (Ok 0, s1) /\ parser_inv (facts ++ fact c) s1 /\
    Forall (fun f => eval t env (fst f) = snd f) (facts ++ fact c)) as (s1 & E & Hp1 & Hf1).
  { destruct c as [l r n|l v]; simpl in Hc |- *.
    - destruct Hc as (Hl & Hb & Hv). destruct (parse_cond_run facts s l r n Hp Hl Hb) as (s1 & task & E & Hp1 & _).
      exists s1. split_and!; [done|by destruct n|]. apply Forall_app. split; [done|].
      destruct n; by repeat constructor.
    - destruct Hc as [Hl Hv]. destruct (z3_constraint_run facts s l v env Hp Hl Hv) as (s1 & E & Hp1 & _).
      exists s1. split_and!; [done|done|]. apply Forall_app. split; [done|]. by repeat constructor. }
  destruct (IH (facts ++ fact c) s1 Hp1 Hf1) as (s2 & E2 & Hp2 & Hf2). exists s2.
  unfold bind at 1. unfold bind at 1. rewrite E. simpl. by rewrite <- app_assoc in Hp2, Hf2.
Qed.

Lemma restart_inv buf s : Z.of_nat (length buf) = len -> 0 <= last -> parser_inv [] (snd (restart [buf] s)).
Proof.
  intros Hb H0. split.
  - exists 0%nat. split; [apply restart_scanned|done].
  - exists []. split; [by apply restart_deps|constructor].
Qed.

(** C31: a nested solution keeps the path. The calls of a run record the branches
    and values the program observed on the input [buf]; the next branch condition
    makes a task. If [solve_task] answers [nested_sat], the input changed by the
    solution takes the other side of that branch and still makes every recorded
    observation true, although the task has only those that share bytes with the
    branch. Any other solution takes the other side, and [opt_unsat] means that no
    input does. *)
Theorem nested_solution_keeps_path buf env calls l r add_nested p0 :
  Z.of_nat (length buf) = len -> Forall (observed env) calls -> observed env (Cond l r add_nested) ->
  exists s1 s2 tid, for_each calls (fun c => run_call c ;;; ret tt) (snd (restart [buf] p0)) = (Ok tt, s1) /\
    parse_cond t size_ l r add_nested s1 = (Ok 0, s2) /\ out_tasks s2 = out_tasks s1 ++ [tid] /\
    exists status sol s3, solve_task tid s2 = (Ok (status, sol), s3) /\
      match status with
      | nested_sat => eval t (new_input sol env) l = Z.b2z (negb r) /\
          Forall (fun f => eval t (new_input sol env) (fst f) = snd f) (mjoin (fact <$> calls))
      | opt_sat_nested_unsat => eval t (new_input sol env) l = Z.b2z (negb r) /\
          forall env', Forall (fun f => eval t env' (fst f) = snd f) (mjoin (fact <$> calls)) ->
            eval t env' l = Z.b2z r
      | opt_sat_nested_timeout => eval t (new_input sol env) l = Z.b2z (negb r)
      | opt_unsat => forall env', eval t env' l = Z.b2z r
      | opt_timeout => True
      | _ => False
      end.
Proof.
  intros Hb Hcalls (Hl & Hbool & Hv).
  destruct (calls_run env calls Hcalls [] _ (restart_inv buf p0 Hb ltac:(lia)) ltac:(constructor))
    as (s1 & E1 & Hp1 & Hf1). simpl in Hp1, Hf1.
  destruct (parse_cond_run _ s1 l r add_nested Hp1 Hl Hbool) as (s2 & task & E2 & _ & Ht & Ho & Htask).
  destruct (solve_task_run _ _ task s2 (prev_task_id_ s1) env Htask Hf1
    ltac:(by rewrite Ht, lookup_insert_eq)) as (status & sol & E3 & _ & Ha).
  exists s1, s2, (prev_task_id_ s1). split_and!; [done..|]. eexists status, sol, _. split; [exact E3|].
  pose proof (flipped_value l r Hl Hbool) as Hflip.
  assert (forall env', Z.b2z (negb (eval t env' l =? Z.b2z r)) <> 1 -> eval t env' l = Z.b2z r) as Hstay.
  { intros env'. destruct (Z.eqb_spec (eval t env' l) (Z.b2z r)); [done|]. by simpl. }
  destruct status; try done; destruct Ha as [Ha1 Ha2]; rewrite ?Hflip in Ha1; auto.
Qed.

End calls.

(** ** Long comparisons *)

(** [read_concrete] never returns for a [memcmp] of 256 bytes or more: its
    counter is a [uint8_t], which stays below the size for ever. *)
Theorem long_memcmp_diverges content size : 256 <= size -> (256 <= length content)%nat ->
  forall fuel i val n, 0 <= i < 256 -> z3.sort_of val = Some (z3.BvSort n) ->
  concrete_loop fuel content size i val = Err NoFuel.
Proof.
  intros Hsize Hlen fuel. induction fuel as [|fuel IH]; intros i val n Hi Hs; simpl;
    rewrite (proj2 (Z.ltb_lt i size)) by lia; [done|].
  destruct (lookup_lt_is_Some_2 content (Z.to_nat i)) as [b Hb]; [lia|]. rewrite Hb. simpl.
  unfold z3.mk. simpl. rewrite Hs. simpl. apply (IH _ _ (8 + n)).
  - pose proof (wrap_bound 8 (i + 1) ltac:(lia)) as Hw. exact Hw.
  - simpl. by rewrite Hs.
Qed.

(** ** A label that blocks the pass *)

Section blocked.
Context {LLVM : InstructionDef} {L : z3.Library} {LL : z3.LibraryLaws}.
Context (t : gmap Z dfsan_label_info) (size_ last len : Z).
Context (Hdag : dag t last) (Hsized : sized t last) (Hsize : last + 1 < size_) (Hlen : len <= 2 ^ 32).
Context (Hok : forall l, 1 <= l <= last -> z3_ok t len (info_at t l)) (Hinit : last + 1 < kInitializingLabel).

(** The next label is a pointer as an integer. *)
Context (l1 : Z) (Hl1 : 1 <= l1 <= last) (Hb1 : boolean t l1 = false).
Context (Hnext : info_at t (last + 1) = mk_info l1 0 0 0 PtrToInt (i_size (info_at t l1)) 0).

(** No label after [last] has an expression. *)
Record stuck (s : state) : Prop := {
  st_exprs : Z.of_nat (length (expr_cache_ s)) = last + 1;
  st_tsizes : last < Z.of_nat (length (tsize_cache_ s));
  st_operand : exists e d, expr_cache_ s !! Z.to_nat l1 = Some (Some e) /\ deps_cache_ s !! Z.to_nat l1 = Some d /\
    z3.sort_of e = Some (z3.BvSort (i_size (info_at t l1)))
}.

Lemma scanned_stuck n s : Z.of_nat n = last -> scanned t len n s -> stuck s.
Proof.
  intros Hn [H1 H2 H3 H4]. destruct (H4 l1 ltac:(lia)) as (e & d & E1 & E2 & Hm).
  split; [lia|lia|]. exists e, d. split_and!; [done..|]. rewrite <- sort_bits by done.
  apply (mn_sort _ _ _ _ _ Hm).
Qed.

Lemma cached_stuck s x : stuck s -> exists e d, z3.sort_of e = Some (z3.BvSort (i_size (info_at t l1))) /\
  cached l1 (cur s x) = (Ok e, cur s (x ∪ d)).
Proof.
  intros [H1 H2 (e & d & E1 & E2 & Hs)]. exists e, d. split; [done|]. unfold cached.
  assert (get_cached_expr l1 (cur s x) = (Ok (e, d), cur s x)) as Eg.
  { unfold get_cached_expr, bind, gets, id. simpl. rewrite (proj2 (Z.leb_gt _ _)) by lia. rewrite E1. simpl.
    by rewrite (lookup_app_l_Some _ _ _ _ E2). }
  erewrite bind_eq by exact Eg. cbv beta iota. by erewrite bind_eq by apply add_deps_run.
Qed.

Lemma label_stuck s : stuck s -> exists s', serialize_label t size_ (last + 1) s = (Err Z3Exception, s') /\ stuck s'.
Proof.
  intros Hs. pose proof Hs as [H1 H2 (e0 & d0 & E1 & E2 & Hs0)].
  destruct (Hok l1 Hl1) as [H256 _]. pose proof (well_sized_size _ _ (Hsized l1 Hl1)) as Hpos.
  set (w := i_size (info_at t l1)) in *.
  assert (u8 w = w) as E8 by (apply wrap_small; unfold is_u; lia).
  assert (forall m x, stuck (set_caches (tsize_cache_ s ++ m) (expr_cache_ s) (deps_cache_ s ++ x) s)) as Hst.
  { intros m x. split; simpl; [done|rewrite length_app; lia|]. exists e0, d0.
    split_and!; [done|by apply lookup_app_l_Some|done]. }
  unfold serialize_label, bind at 1, lift at 1, get_label_info. rewrite (proj2 (Z.leb_gt _ _)) by lia.
  rewrite Hnext. unfold bind at 1, push_deps, modify. cbv beta iota zeta. cbn [i_op i_l1 i_l2 i_size i_op1 i_op2].
  fold (cur s ∅). ops. unfold common_label, concat_size. cbn [i_op i_l1 i_l2 i_size i_op1 i_op2]. ops.
  rewrite E8. unfold bind at 1, ret at 1.
  destruct (cached_stuck s ∅ Hs) as (e & d & Hse & Ec). fold w in Hse.
  set (i := mk_info l1 0 0 0 PtrToInt w 0).
  assert (common_operand i l1 0 w (cur s ∅) = (Ok (z3.simplify e), cur s (∅ ∪ d))) as Eop1.
  { unfold common_operand, CONST_OFFSET. rewrite (proj2 (Z.leb_le 1 l1)) by lia. unfold bind at 1, lift at 1.
    unfold z3.mk. simpl. rewrite (proj2 (Z.ltb_lt 0 w)) by lia. erewrite bind_eq by exact Ec.
    unfold z3.is_bv, z3.bv_size. rewrite (z3.simplify_sort _ _ Hse). simpl. ops.
    unfold bind, lift. rewrite E8, Z.ltb_irrefl. done. }
  erewrite bind_eq by exact Eop1. unfold bind at 1, ret at 1.
  assert (exists c, common_operand i 0 0 w (cur s (∅ ∪ d)) = (Ok c, cur s (∅ ∪ d))) as [c Eop2].
  { unfold common_operand, bind, lift, z3.mk. simpl. rewrite (proj2 (Z.ltb_lt 0 w)) by lia.
    destruct (w =? 1); by eexists. }
  erewrite bind_eq by exact Eop2.
  assert (forall k, 0 <= k <= last -> exists m, tsize_of k (cur s (∅ ∪ d)) = (Ok m, cur s (∅ ∪ d))) as Hts.
  { intros k Hk. destruct (lookup_lt_is_Some_2 (tsize_cache_ s) (Z.to_nat k)) as [m Hm]; [lia|].
    exists m. unfold tsize_of, bind, gets, id, lift. simpl. by rewrite Hm. }
  destruct (Hts l1 ltac:(lia)) as [m1 T1]. destruct (Hts 0 ltac:(lia)) as [m2 T2].
  erewrite bind_eq by exact T1. erewrite bind_eq by exact T2.
  unfold bind, push_tsize, modify, lift. cbv beta iota.
  assert (common_expr i (z3.simplify e) c = Err Z3Exception) as ->.
  { unfold common_expr, i. cbn [i_op i_size]. rewrite land_byte by (pose proof instruction_order; lia). by ops. }
  eexists. split; [reflexivity|]. apply (Hst [u32 (m1 + m2)] [∅ ∪ d]).
Qed.

Definition behind (s : state) : Prop := (exists n, scanned t len n s /\ Z.of_nat n <= last) \/ stuck s.

Lemma loop_stuck k s : (0 < k)%nat -> stuck s ->
  exists s', serialize_loop t size_ k (last + 1) s = (Err Z3Exception, s') /\ stuck s'.
Proof.
  intros Hk Hs. destruct k as [|k]; [lia|]. destruct (label_stuck s Hs) as (s' & E & Hs'). exists s'.
  split; [|done]. simpl. unfold bind. by rewrite E.
Qed.

Lemma serialize_stuck s l : behind s -> last + 1 <= l -> l <> kInitializingLabel ->
  exists s', serialize t size_ l s = (Err Z3Exception, s') /\ stuck s'.
Proof.
  intros Hs Hl Hi. unfold serialize, CONST_OFFSET.
  rewrite (proj2 (Z.ltb_ge l 1)), (proj2 (Z.eqb_neq _ _) Hi) by lia. simpl. unfold bind at 1, gets, id.
  assert (exists s', serialize_loop t size_ (Z.to_nat (l + 1 - Z.of_nat (length (expr_cache_ s))))
    (Z.of_nat (length (expr_cache_ s))) s = (Err Z3Exception, s') /\ stuck s') as (s' & E & Hs').
  2:{ exists s'. split; [|done]. unfold bind. by rewrite E. }
  destruct Hs as [(n & Hsc & Hn)|Hs].
  2:{ rewrite (st_exprs _ Hs). apply loop_stuck; [lia|done]. }
  rewrite (sc_exprs _ _ _ _ Hsc). set (k := Z.to_nat (last - Z.of_nat n)).
  destruct (loop_run t size_ last len Hdag Hsized ltac:(lia) Hlen Hok ltac:(lia) k n s Hsc ltac:(lia)) as (s1 & E1 & Hs1 & _).
  destruct (loop_stuck (Z.to_nat (l - last)) s1) as (s2 & E2 & Hs2);
    [lia|apply (scanned_stuck (n + k)); [lia|done]|].
  exists s2. split; [|done].
  replace (Z.to_nat (l + 1 - Z.of_nat (S n))) with (k + Z.to_nat (l - last))%nat by lia.
  rewrite (serialize_loop_app t size_ k _ _ s s1 E1).
  replace (Z.of_nat (S n) + Z.of_nat k) with (last + 1) by lia. done.
Qed.

(** Conditions, one after the other. *)
Fixpoint parse_conds (l : list (Z * bool * bool)) : M state (list Z) :=
  match l with
  | [] => ret []
  | (label, result, add_nested) :: l' =>
      let! r := parse_cond t size_ label result add_nested in
      let! rs := parse_conds l' in
      ret (r :: rs)
  end.

(** A label that the Z3 parser has no expression for blocks all later labels:
    once a program has made an integer of a pointer that depends on the input, no
    condition with a later label is parsed, whatever it depends on. *)
Theorem unsupported_label_blocks conds s : behind s ->
  Forall (fun c => last + 1 <= fst (fst c) /\ fst (fst c) <> kInitializingLabel) conds ->
  exists s', parse_conds conds s = (Ok (replicate (length conds) (-1)), s').
Proof.
  intros Hs Hc. revert s Hs. induction Hc as [|[[l r] b] conds [Hl Hi] _ IH]; intros s Hs; simpl.
  { by exists s. }
  assert (exists s', parse_cond t size_ l r b s = (Ok (-1), s') /\ behind s') as (s1 & E & Hs1).
  { unfold parse_cond, CONST_OFFSET, invalid_label. simpl in Hl, Hi.
    rewrite (proj2 (Z.ltb_ge l 1)), (proj2 (Z.eqb_neq _ _) Hi) by lia. simpl.
    destruct (size_ <=? l); [by exists s|].
    assert (behind (set_has_fsize false s)) as Hs0.
    { destruct Hs as [(n & Hsc & Hn)|[H1 H2 H3]]; [left|by right].
      exists n. split; [by apply (scanned_rest t len n s)|done]. }
    destruct (serialize_stuck _ l Hs0 Hl Hi) as (s1 & E & Hs1). exists s1. split; [|by right].
    unfold or_fail, catch, bind at 1, modify. unfold bind at 1. by rewrite E. }
  destruct (IH s1 Hs1) as (s2 & E2). exists s2. erewrite bind_eq by exact E. by erewrite bind_eq by exact E2.
Qed.

End blocked.

(** ** Runs of the sample table *)

#[local] Existing Instances llvm14 sample_library sample_laws.

(** The first byte was observed to be 3; then the comparison of the sum with 7
    is true. *)
Definition sample_env : input_env := fun off => if off =? 0 then 3 else 4.
Definition sample_run : state :=
  snd (for_each [Value 1 3] (fun c => run_call z3_sample 10 c ;;; ret tt) (snd (restart [[3; 4]] new_state))).
Definition sample_asked : state := snd (parse_cond z3_sample 10 4 true true sample_run).

(** The task is solved with the nested constraint, and the solution makes the
    comparison false and keeps the first byte. *)
Lemma nested_solution_keeps_path_witness : exists sol,
  fst (solve_task 0 sample_asked) = Ok (nested_sat, sol) /\
  eval z3_sample (new_input sol sample_env) 4 = 0 /\ eval z3_sample (new_input sol sample_env) 1 = 3.
Proof.
  destruct (nested_solution_keeps_path z3_sample 10 4 2 z3_sample_dag z3_sample_sized ltac:(lia) ltac:(lia)
    z3_sample_ok ltac:(done) [3; 4] sample_env [Value 1 3] 4 true true new_state) as (s1 & s2 & tid & E1 & E2 & E3 & H).
  - done.
  - apply Forall_singleton. split; [lia|]. rewrite eval_eq. by vm_compute.
  - split_and!; [lia..|by vm_compute|]. rewrite eval_eq. by vm_compute.
  - assert (s1 = sample_run) as ->. { unfold sample_run. by rewrite E1. }
    assert (s2 = sample_asked) as ->. { unfold sample_asked. by rewrite E2. }
    assert (tid = 0) as ->. { vm_compute in E3. congruence. }
    destruct H as (status & sol & s3 & E4 & H). exists [mk_val 0 0 3; mk_val 0 1 0].
    assert (fst (solve_task 0 sample_asked) = Ok (nested_sat, [mk_val 0 0 3; mk_val 0 1 0])) as E5 by (by vm_compute).
    rewrite E4 in E5. simpl in E5. injection E5 as -> ->. rewrite E4. destruct H as [H1 H2].
    split_and!; [done|exact H1|]. by apply Forall_inv in H2.
Defined.

(** A condition after the integer of a pointer, on a byte of the input. *)
Lemma unsupported_label_blocks_witness : exists s',
  parse_conds z3_sample 10 [(6, true, true); (6, false, true)] (snd (restart [[3; 4]] new_state))
    = (Ok [-1; -1], s').
Proof.
  apply (unsupported_label_blocks z3_sample 10 4 2 z3_sample_dag z3_sample_sized ltac:(lia) ltac:(lia)
    z3_sample_ok ltac:(done) 3 ltac:(lia) ltac:(by vm_compute) ltac:(by vm_compute)
    [(6, true, true); (6, false, true)]).
  - left. exists 0%nat. split; [apply restart_scanned|lia].
  - repeat constructor; done.
Defined.

Lemma long_memcmp_diverges_witness :
  concrete_loop 1000 (replicate 256 0) 256 1 (z3.BvVal 0 8) = Err NoFuel.
Proof.
  apply (long_memcmp_diverges (replicate 256 0) 256 ltac:(lia) ltac:(by rewrite length_replicate) 1000 1 _ 8);
    [lia|done].
Defined.

(** Byte 0 was saved with byte 1. *)
Definition sample_path : list (z3.expr * gset offset_t) := [(sample_fact, {[(0, 0); (0, 1)]})].
Definition sample_saved : state :=
  snd (save_constraint sample_fact {[(0, 0); (0, 1)]} (snd (restart [[3; 4]] new_state))).

Lemma sample_saved_inv : deps_inv 2 sample_path sample_saved.
Proof.
  destruct (save_constraint_run 2 ltac:(lia) [] (snd (restart [[3; 4]] new_state)) sample_fact {[(0, 0); (0, 1)]})
    as (s' & row & E & _ & H); [by apply restart_deps|intros i off; set_solver by lia|].
  unfold sample_saved. by rewrite E.
Qed.

(** From byte 0 the worklist finds byte 1. *)
Lemma collect_reaches_witness : exists R, collect_more_deps {[(0, 0)]} sample_saved = (Ok R, sample_saved) /\ (0, 1) ∈ R.
Proof.
  destruct (collect_reaches 2 ltac:(lia) sample_path sample_saved sample_saved_inv {[(0, 0)]}) as (R & E & HR);
    [intros i off; set_solver by lia|].
  exists R. split; [exact E|]. apply HR.
  apply (reach_dep _ _ 0 (mk_dep [sample_fact] {[(0, 0); (0, 1)]})); [apply reach_in; set_solver|by vm_compute|].
  set_solver.
Defined.
