(* ===== verification/Z3Solver.v ===== *)
(** * The Z3 solver of constraint trees: [solvers/z3-solver.cpp]

    The constraints of a task as Z3 expressions, and the model that Z3 finds as
    bytes of a new input. *)

From S2P Require Import Prelude Ast Task Cstr I2S Jit JitSolver Z3.
Local Open Scope prog_scope.

Module Z3Solver.

(** ** Expressions *)

(** [expr_cache], shared by the constraints of a task; [insert] keeps an entry. *)
Abbreviation exprs := (gmap Z z3.expr).

Definition cache_expr (l : Z) (e : z3.expr) : M exprs z3.expr :=
  modify (fun s => if l =? 0 then s else match s !! l with Some _ => s | None => <[l := e]> s end) ;;;
  ret e.

(** The constant of an input byte. *)
Definition byte (off : Z) : res z3.expr :=
  let? s := z3.int_symbol off in z3.mk (z3.Const s (z3.BvSort 8)).

(** Bytes [off + i] to [off + i + n - 1] in front of [out]. *)
Fixpoint read_bytes_loop (n : nat) (off i : Z) (out : z3.expr) : res z3.expr :=
  match n with
  | O => Ok out
  | S n' =>
      let? b := byte (u32 (off + i)) in
      let? out := z3.mk (z3.Bin z3.Concat b out) in
      read_bytes_loop n' off (i + 1) out
  end.

Section constraint.
Context (a : Ast) (input_args : list (bool * Z)).

(** The value of argument [i]. *)
Definition arg (i : Z) : res Z := let? x := idx (input_args !! Z.to_nat i) in Ok (snd x).

(** Arguments [i] to [i + n - 1], 64 bits each, in front of [out]. *)
Fixpoint chunks_loop (n : nat) (i : Z) (out : z3.expr) : res z3.expr :=
  match n with
  | O => Ok out
  | S n' =>
      let? val := arg i in
      let? out := z3.mk (z3.Bin z3.Concat (z3.BvVal val 64) out) in
      chunks_loop n' (i + 1) out
  end.

Definition constant (node : AstNode) : res z3.expr :=
  let? val := arg (index node) in
  if bits node =? 1 then Ok (z3.BoolVal (val =? 1))
  else if bits node <=? 64 then z3.mk (z3.BvVal val (bits node))
  else
    let chunks := bits node / 64 in
    let remain := bits node mod 64 in
    let? out := chunks_loop (Z.to_nat (chunks - 1)) (u32 (index node + 1)) (z3.BvVal val 64) in
    if 0 <? remain then
      let? val := arg (u32 (index node + chunks)) in
      z3.mk (z3.Bin z3.Concat (z3.BvVal val remain) out)
    else Ok out.

(** A tree has fewer levels than nodes, whose number is fuel enough. *)
Fixpoint serialize (fuel : nat) (r : ref) : M exprs z3.expr :=
  match fuel with
  | O => throw NoFuel
  | S fuel' =>
      let! node := lift (idx (node_at r a)) in
      let! hit := gets (fun s => s !! label node) in
      match (if label node =? 0 then None else hit) with
      | Some e => ret e
      | None =>
          let unary (f : AstNode -> z3.expr -> res z3.expr) : M exprs z3.expr :=
            let! rc := lift (child_of (child0_ node) a) in
            let! n1 := lift (idx (node_at rc a)) in
            let! c1 := serialize fuel' rc in
            let! e := lift (f n1 c1) in
            cache_expr (label node) e in
          let binary (f : z3.expr -> z3.expr -> res z3.expr) : M exprs z3.expr :=
            let! rc1 := lift (child_of (child0_ node) a) in
            let! c1 := serialize fuel' rc1 in
            let! rc2 := lift (child_of (child1_ node) a) in
            let! c2 := serialize fuel' rc2 in
            let! e := lift (f c1 c2) in
            cache_expr (label node) e in
          let bv (o : z3.bvop) := binary (fun c1 c2 => z3.mk (z3.Bin (z3.BvOp o) c1 c2)) in
          match kind node with
          | rgd.Bool => ret (z3.BoolVal (negb (boolvalue node =? 0)))
          | rgd.Constant => lift (constant node)
          | rgd.Read =>
              let! b := lift (byte (index node)) in
              let! e := lift (read_bytes_loop (Z.to_nat (bits node / 8) - 1) (index node) 1 b) in
              cache_expr (label node) e
          | rgd.Concat => binary (fun c1 c2 => z3.mk (z3.Bin z3.Concat c2 c1))
          | rgd.Extract =>
              unary (fun _ c1 => z3.mk
                (z3.Un (z3.Extract (u32 (index node + bits node - 1)) (index node)) c1))
          | rgd.ZExt =>
              unary (fun n1 c1 =>
                let? c1 := (if z3.is_bool c1 then z3.mk (z3.Ite c1 (z3.BvVal 1 1) (z3.BvVal 0 1))
                            else Ok c1) in
                z3.mk (z3.Un (z3.ZeroExt (u32 (bits node - bits n1))) c1))
          | rgd.SExt => unary (fun n1 c1 => z3.mk (z3.Un (z3.SignExt (u32 (bits node - bits n1))) c1))
          | rgd.Add => bv z3.BvAdd
          | rgd.Sub => bv z3.BvSub
          | rgd.Mul => bv z3.BvMul
          | rgd.UDiv => bv z3.BvUDiv
          | rgd.SDiv => bv z3.BvSDiv
          | rgd.URem => bv z3.BvURem
          | rgd.SRem => bv z3.BvSRem
          | rgd.Neg => unary (fun _ c1 => z3.mk (z3.Un z3.BvNeg c1))
          | rgd.Not => unary (fun _ c1 => z3.mk (z3.Un z3.BvNot c1))
          | rgd.And => binary (z3.overloaded z3.And z3.BvAnd)
          | rgd.Or => binary (z3.overloaded z3.Or z3.BvOr)
          | rgd.Xor => binary (z3.overloaded z3.Xor z3.BvXor)
          | rgd.Shl => bv z3.BvShl
          | rgd.LShr => bv z3.BvLShr
          | rgd.AShr => bv z3.BvAShr
          | _ => throw Z3Exception
          end
      end
  end.

(** The relation of a comparison. *)
Definition relation (comparison : rgd.AstKind) (c1 c2 : z3.expr) : res z3.expr :=
  let rel r := z3.mk (z3.Bin (z3.BvRel r) c1 c2) in
  match comparison with
  | rgd.Equal | rgd.Memcmp => z3.mk (z3.Bin z3.Eq c1 c2)
  | rgd.Distinct | rgd.MemcmpN => z3.mk (z3.Bin z3.Distinct c1 c2)
  | rgd.Ult => rel z3.Ult
  | rgd.Ule => rel z3.Ule
  | rgd.Ugt => rel z3.Ugt
  | rgd.Uge => rel z3.Uge
  | rgd.Slt => rel z3.Slt
  | rgd.Sle => rel z3.Sle
  | rgd.Sgt => rel z3.Sgt
  | rgd.Sge => rel z3.Sge
  | _ => Err Z3Exception
  end.

Definition serialize_rel (comparison : rgd.AstKind) : M exprs z3.expr :=
  let node := a_root a in
  if negb (children_size node =? 2)%nat then throw Z3Exception
  else
    let fuel := length (a_vec a) in
    let! rc1 := lift (child_of (child0_ node) a) in
    let! c1 := serialize fuel rc1 in
    let! rc2 := lift (child_of (child1_ node) a) in
    let! c2 := serialize fuel rc2 in
    lift (relation comparison c1 c2).

End constraint.

(** The assertions of a task. *)
Fixpoint assertions (cs : list (Constraint * rgd.AstKind)) : M exprs (list z3.expr) :=
  match cs with
  | [] => ret []
  | (c, k) :: cs' =>
      let! e := serialize_rel (ast c) (input_args c) k in
      let! es := assertions cs' in
      ret (e :: es)
  end.

(** ** The solver *)

Record solver := mk_solver {
  tasks : gmap Z SearchTask;      (* the task at an address *)
  out_buf : list Z;
  out_size : Z
}.

Definition set_task (i : Z) (t : SearchTask) (s : solver) : solver :=
  mk_solver (<[i := t]> (tasks s)) (out_buf s) (out_size s).
Definition set_out (b : list Z) (n : Z) (s : solver) : solver := mk_solver (tasks s) b n.

(** [task->skip_next = true], and what a solution changes. *)
Definition skip (t : SearchTask) : SearchTask :=
  mk_task (constraints_ t) (comparisons_ t) (consmetas_ t) (inputs_ t) (shapes_ t) (atoi_info_ t)
    (max_const_num_ t) (cmap_ t) (scratch_args t) (stopped t) (attempts t) (solved t) (solution t)
    (base_task t) true.
Definition set_solution (sol : gmap Z Z) (b : bool) (t : SearchTask) : SearchTask :=
  mk_task (constraints_ t) (comparisons_ t) (consmetas_ t) (inputs_ t) (shapes_ t) (atoi_info_ t)
    (max_const_num_ t) (cmap_ t) (scratch_args t) (stopped t) (attempts t) b sol
    (base_task t) (skip_next t).

Section solver.
Context {L : z3.Library}.
Context (in_buf : list Z).

Definition get_task (i : Z) : M solver SearchTask := fun s => (idx (tasks s !! i), s).

(** [memcpy(out_buf, in_buf, in_size)] and the bytes of a solution over it. *)
Definition output (sol : option (gmap Z Z)) : M solver unit :=
  let! b := gets out_buf in
  let! b := lift (write_bytes b 0 in_buf) in
  let! b := lift (match sol with Some sol => write_solution (map_to_list sol) b | None => Ok b end) in
  modify (set_out b (Z.of_nat (length in_buf))).

(** The equations of a solution. *)
Fixpoint equations (l : list (Z * Z)) : res (list z3.expr) :=
  match l with
  | [] => Ok []
  | (offset, value) :: l' =>
      let? i := byte offset in
      let? e := z3.mk (z3.Bin z3.Eq i (z3.BvVal value 8)) in
      let? es := equations l' in
      Ok (e :: es)
  end.

(** The tasks that this one extends: one that says so ends the search, a solved
    one gives assumptions. The chain is acyclic, so the number of tasks is fuel
    enough. *)
Fixpoint base_loop (fuel : nat) (tid : Z) (base : option Z) (assumptions : list z3.expr)
    : M solver (option solver_result_t * list z3.expr) :=
  match base with
  | None => ret (None, assumptions)
  | Some b =>
      match fuel with
      | O => throw NoFuel
      | S fuel' =>
          let! bt := get_task b in
          if skip_next bt then
            let! t := get_task tid in
            modify (set_task tid (skip t)) ;;;
            if solved bt then output (Some (solution bt)) ;;; ret (Some SOLVER_SAT, assumptions)
            else output None ;;; ret (Some SOLVER_UNSAT, assumptions)
          else
            let! es := (if solved bt then lift (equations (map_to_list (solution bt))) else ret []) in
            base_loop fuel' tid (base_task bt) (assumptions ++ es)
      end
  end.

(** The bytes that a model gives, into the buffer and the solution. *)
Fixpoint extract_model (m : z3.model) (buf_size : Z) (b : list Z) (sol : gmap Z Z)
    : res (list Z * gmap Z Z) :=
  match m with
  | [] => Ok (b, sol)
  | (z3.IntSymbol offset, _, v) :: m' =>
      let? v := z3.get_numeral_int v in
      let value := u8 v in
      if offset <? buf_size then
        let? b := write_bytes b offset [value] in
        extract_model m' buf_size b (<[offset := value]> sol)
      else extract_model m' buf_size b sol
  | (z3.StrSymbol _, _, _) :: m' => extract_model m' buf_size b sol
  end.

(** The value of the [i] bytes of the solution from [offset] on; a byte that it
    does not have is 0. *)
Fixpoint atoi_value (sol : gmap Z Z) (offset : Z) (i : nat) (val : Z) : Z :=
  match i with
  | O => val
  | S i' =>
      let b := default 0 (sol !! (offset + Z.of_nat i')) in
      atoi_value sol offset i' (Z.lor val (int_shl b (8 * Z.of_nat i')))
  end.

Fixpoint atoi_output (sol : gmap Z Z) (l : list (Z * (Z * Z * Z))) (b : list Z) : res (list Z) :=
  match l with
  | [] => Ok b
  | (offset, (len, base, _)) :: l' =>
      let? old := read_bytes in_buf offset len in
      let? b := write_bytes b offset old in
      let? b := print_number in_buf offset base (atoi_value sol offset (Z.to_nat len) 0) b in
      atoi_output sol l' b
  end.

(** The model of a task, as a new input. The constants of input bytes have eight
    bits, so that their values are [int]s. *)
Definition write_model (tid : Z) (m : z3.model) : M solver unit :=
  output None ;;;
  let! t := get_task tid in
  let! b := gets out_buf in
  let! (b, sol) := lift (extract_model m (Z.of_nat (length in_buf)) b (solution t)) in
  let! b := lift (atoi_output sol (map_to_list (atoi_info_ t)) b) in
  modify (set_out b (Z.of_nat (length in_buf))) ;;;
  modify (set_task tid (set_solution sol true t)).

Definition solve_checked (tid : Z) : M solver solver_result_t :=
  let! t := get_task tid in
  let! n := gets (fun s => size (tasks s)) in
  let! (r, _) := base_loop n tid (base_task t) [] in
  match r with
  | Some r => ret r
  | None =>
      let! t := get_task tid in
      let! es := lift (fst (assertions (zip (constraints_ t) (comparisons_ t)) ∅)) in
      match z3.check es with
      | z3.sat m => write_model tid m ;;; ret SOLVER_SAT
      | z3.unsat => ret SOLVER_UNSAT
      | z3.unknown => ret SOLVER_TIMEOUT
      end
  end.

(** [catch (z3::exception e)] *)
Definition solve (tid : Z) : M solver solver_result_t :=
  catch (solve_checked tid)
    (fun e => if bool_decide (e = Z3Exception) then ret SOLVER_ERROR else throw e).

End solver.

End Z3Solver.
