(* ===== verification/Z3SolverSpec.v ===== *)
(** * The Z3 solver of constraint trees: what its answers mean

    The expression of a parsed constraint means the comparison it was parsed
    from, whatever was cached for earlier constraints of the task, so that the
    bytes of a model make every comparison of the task true. *)

From S2P Require Import Prelude Dfsan Runtime LabelSem Ast Task TaskSpec Parser ScanSpec ConsSpec UtaSpec Cstr Jit JitSpec Gd GdSpec SolveSpec I2S JitSolver JitSolverSpec Z3 Z3Ts Z3Spec Z3Solver.
Import Z3Solver.
Local Open Scope prog_scope.

(** Input bytes are named by their offsets. *)
#[local] Instance int_naming : Naming := z3.IntSymbol.

(** ** Expressions of labels *)

Section terms.
Context {LLVM : InstructionDef}.
Context (p : parser) (buf : list Z) (R : list (Z * Z)) (last : Z) (Hdag : dag (base_ p) last).
Context (Hbuf : Z.of_nat (length buf) < 2 ^ 30).

Local Abbreviation tbl := (base_ p).
Local Abbreviation len := (Z.of_nat (length buf)).

(** A bit-vector of [w] bits with the value [v] on every input. *)
Definition word (e : z3.expr) (w : Z) (v : input_env -> Z) : Prop :=
  exists d, means len e (z3.BvSort w) v d.

Definition of_label (e : z3.expr) (l : Z) : Prop :=
  word e (i_size (info_at tbl l)) (fun env => eval tbl env l).

Lemma word_sort e w v : word e w v -> z3.sort_of e = Some (z3.BvSort w).
Proof. intros [d Hm]. apply (mn_sort _ _ _ _ _ Hm). Qed.

Lemma word_mk e w v : word e w v -> z3.mk e = Ok e.
Proof. intros [d Hm]. apply (means_mk _ _ _ _ _ Hm). Qed.

Lemma word_ext e w v v' : (forall env, v env = v' env) -> word e w v -> word e w v'.
Proof. intros Hv [d Hm]. exists d. by eapply means_ext. Qed.

Lemma word_un o e w w' v : word e w v -> z3.sort_un o (z3.BvSort w) = Some (z3.BvSort w') ->
  word (z3.Un o e) w' (fun env => z3.un_value o w (v env)).
Proof. intros [d Hm] Hs. exists d. by apply (means_un len o e (z3.BvSort w)). Qed.

(** Two expressions over the union of what they read. *)
Lemma means_both e1 e2 s1 s2 v1 v2 d1 d2 : means len e1 s1 v1 d1 -> means len e2 s2 v2 d2 ->
  exists d, means len e1 s1 v1 d /\ means len e2 s2 v2 d.
Proof.
  intros M1 M2. exists (d1 ∪ d2).
  assert (forall i off, (i, off) ∈ d1 ∪ d2 -> i = 0 /\ 0 <= off < len) as Hd.
  { intros i off [Hi|Hi]%elem_of_union; [by apply (mn_deps _ _ _ _ _ M1)|by apply (mn_deps _ _ _ _ _ M2)]. }
  split; [eapply means_deps; [exact M1|set_solver|done]|eapply means_deps; [exact M2|set_solver|done]].
Qed.

Lemma word_bin o e1 e2 w1 w2 s v1 v2 : word e1 w1 v1 -> word e2 w2 v2 ->
  z3.sort_bin o (z3.BvSort w1) (z3.BvSort w2) = Some s ->
  exists d, means len (z3.Bin o e1 e2) s (fun env => z3.bin_value o w1 w2 (v1 env) (v2 env)) d.
Proof.
  intros [d1 M1] [d2 M2] Hs. destruct (means_both _ _ _ _ _ _ _ _ M1 M2) as (d & M1' & M2').
  exists d. by apply (means_bin len o e1 e2 (z3.BvSort w1) (z3.BvSort w2)).
Qed.

(** ** Reads *)

Lemma byte_run off : 0 <= off < len -> byte off = Ok (z3.Const (byte_symbol off) (z3.BvSort 8)).
Proof.
  intros Ho. unfold byte, z3.int_symbol. rewrite (proj2 (Z.leb_le 0 off)), (proj2 (Z.ltb_lt off _)) by lia.
  done.
Qed.

Lemma read_bytes_run off n : forall j out d, 0 <= off -> off + Z.of_nat j + Z.of_nat n <= len -> (0 < j)%nat ->
  means len out (z3.BvSort (8 * Z.of_nat j)) (fun env => le_bytes env off j) d ->
  exists e, read_bytes_loop n off (Z.of_nat j) out = Ok e /\
    word e (8 * Z.of_nat (j + n)) (fun env => le_bytes env off (j + n)).
Proof.
  induction n as [|n IH]; intros j out d H0 Hb Hj Hm; simpl.
  { rewrite Nat.add_0_r. exists out. split; [done|]. by exists d. }
  rewrite wrap_small by (unfold is_u; lia). rewrite byte_run by lia.
  pose proof (means_load len off j out d ltac:(lia) H0 ltac:(lia) Hm) as Hm'.
  rewrite (means_mk _ _ _ _ _ Hm').
  destruct (IH (S j) _ _ H0 ltac:(lia) ltac:(lia) Hm') as (e & E & He). exists e.
  replace (Z.of_nat j + 1) with (Z.of_nat (S j)) by lia. rewrite E.
  by replace (j + S n)%nat with (S j + n)%nat by lia.
Qed.

Lemma read_run l : expr_ok p buf R l -> l <= last -> is_read (info_at tbl l) = true ->
  let i := info_at tbl l in
  exists b e, byte (read_offset tbl i) = Ok b /\
    read_bytes_loop (Z.to_nat (i_size i / 8) - 1) (read_offset tbl i) 1 b = Ok e /\ of_label e l.
Proof.
  intros He Hlast Hr i. destruct (expr_read p buf R l He Hr) as [Hl Hrd].
  pose proof Hl as [_ _ Hsz _ _ _]. pose proof (read_bits p _ Hsz Hr) as Hbits.
  pose proof Hrd as [_ _ Hoff _ [Hin Hcnt]]. fold i in Hbits, Hin, Hcnt, Hoff.
  assert (0 <= read_offset tbl i) as H0.
  { unfold read_offset. pose proof (wrap_bound 32 (i_op1 (read_source tbl i)) ltac:(lia)) as Hw. apply Hw. }
  destruct (read_bytes_run (read_offset tbl i) (Z.to_nat (read_count i) - 1) 1
    (z3.Const (byte_symbol (read_offset tbl i)) (z3.BvSort 8)) {[(0, read_offset tbl i)]}) as (e & E & Hw);
    [lia|lia|lia| |].
  { eapply means_ext; [|apply means_byte; lia]. intros env. simpl. lia. }
  exists (z3.Const (byte_symbol (read_offset tbl i)) (z3.BvSort 8)), e. split_and!.
  - apply byte_run. lia.
  - rewrite Hbits, Z.mul_comm, Z.div_mul by lia. exact E.
  - unfold of_label. fold i. rewrite Hbits.
    replace (8 * read_count i) with (8 * Z.of_nat (1 + (Z.to_nat (read_count i) - 1))) by lia.
    eapply word_ext; [|exact Hw]. intros env. rewrite (read_value p buf R last Hdag env l Hl Hrd Hlast).
    fold i. f_equal. lia.
Qed.

(** ** Unary operations *)

(** The unary operations and what they mean. *)
Lemma unary_eval l : expr_ok p buf R l -> l <= last -> let i := info_at tbl l in
  is_unary (i_op i) = true ->
  let w := i_size (info_at tbl (i_l1 i)) in
  let ix := if i_op i =? Extract then i_op2 i else 0 in
  i_l1 i <= last /\ expr_ok p buf R (i_l1 i) /\ 0 < w <= 64 /\ 0 < i_size i <= 64 /\
  ((i_op i = ZExt /\ w <= i_size i /\ forall env, eval tbl env l = eval tbl env (i_l1 i)) \/
   (i_op i = SExt /\ w <= i_size i /\
      forall env, eval tbl env l = wrap (i_size i) (signed w (eval tbl env (i_l1 i)))) \/
   ((i_op i = Extract \/ i_op i = Trunc) /\ 0 <= ix /\ ix + i_size i <= w /\
      forall env, eval tbl env l = wrap (i_size i) (Z.shiftr (eval tbl env (i_l1 i)) ix))).
Proof.
  intros He Hlast i Hu w ix.
  assert (label_ok p l /\ expr_ok p buf R (i_l1 i)) as [Hl He1].
  { destruct He as [l Hl Hrd|l Hl _ He1|l Hl Hbin _ _]; [| done |]; exfalso.
    - destruct Hrd as [Hr _ _ _ _]. by rewrite unary_is_read in Hr.
    - destruct (binary_not_unary (i_op (info_at tbl l))) as [E _]; [tauto|]. subst i. congruence. }
  destruct (unary_operand p buf R l Hl Hu He1) as (Hn1 & Hn2 & Hix30). fold i in Hn1, Hn2, Hix30.
  pose proof Hl as [Hr [Hb1 _] [Hs Hsz] [_ H64] _ _]. fold i in Hb1, Hsz, Hs, H64.
  pose proof (expr_label p buf R _ He1) as [_ _ [Hs1 _] [_ H641] _ _].
  pose proof (expr_width p buf R _ He1) as Hw1. fold w in Hw1.
  split_and!; [lia|done|unfold w; lia..|lia|lia|].
  assert (forall env, eval tbl env l = op_value (i_op i) (i_size i) (width1 tbl i)
    (operand1 tbl (eval tbl env) i) (operand2 tbl (eval tbl env) i)) as Hev.
  { intros env. rewrite (eval_unfold _ _ last) by (done || lia). fold i. unfold info_value.
    pose proof (unary_is_read _ Hu) as Hrd. unfold is_read in Hrd. by apply orb_false_iff in Hrd as [-> ->]. }
  assert (forall env, operand1 tbl (eval tbl env) i = eval tbl env (i_l1 i)) as Ho1.
  { intros env. unfold operand1. by rewrite (proj2 (Z.eqb_neq _ _) Hn1). }
  assert (width1 tbl i = w) as Ew.
  { unfold width1. by rewrite (proj2 (Z.eqb_neq _ _) Hn1). }
  apply unary_ops in Hu. unfold ix in *.
  destruct_or! Hu; rewrite Hu in Hsz, Hix30, Hev |- *; revert Hsz Hix30; ops; intros Hsz Hix30; rewrite ?Hw1 in Hsz.
  - left. destruct Hsz as (_ & _ & Hle). split_and!; [done|lia|]. intros env.
    by rewrite Hev, op_value_ZExt, Ho1.
  - right. left. destruct Hsz as (_ & _ & Hle). split_and!; [done|lia|]. intros env.
    by rewrite Hev, op_value_SExt, Ho1, Ew.
  - right. right. destruct Hsz as (_ & _ & H0 & Hle). split_and!; [by left|lia|lia|]. intros env.
    rewrite Hev, op_value_Extract, Ho1. unfold operand2. by rewrite Hn2, Hu, !Z.eqb_refl.
  - right. right. destruct Hsz as (_ & _ & Hle). split_and!; [by right|lia|lia|]. intros env.
    by rewrite Hev, op_value_Trunc, Ho1, Z.shiftr_0_r.
Qed.

(** The expression for a unary node [n] over the node [n1]. *)
Definition unary_expr (n n1 : AstNode) (c1 : z3.expr) : option (res z3.expr) :=
  match kind n with
  | rgd.Extract => Some (z3.mk (z3.Un (z3.Extract (u32 (index n + bits n - 1)) (index n)) c1))
  | rgd.ZExt =>
      Some (let? c1 := (if z3.is_bool c1 then z3.mk (z3.Ite c1 (z3.BvVal 1 1) (z3.BvVal 0 1)) else Ok c1) in
            z3.mk (z3.Un (z3.ZeroExt (u32 (bits n - bits n1))) c1))
  | rgd.SExt => Some (z3.mk (z3.Un (z3.SignExt (u32 (bits n - bits n1))) c1))
  | _ => None
  end.

Lemma unary_expr_run l n n1 c1 : expr_ok p buf R l -> l <= last -> let i := info_at tbl l in
  is_unary (i_op i) = true -> OP_MAP (i_op i) = Some (kind n) -> bits n = i_size i ->
  index n = (if i_op i =? Extract then i_op2 i else 0) -> bits n1 = i_size (info_at tbl (i_l1 i)) ->
  of_label c1 (i_l1 i) -> exists e, unary_expr n n1 c1 = Some (Ok e) /\ of_label e l.
Proof.
  intros He Hlast i Hu Hk Hb Hix Hb1 Hc1. rewrite (OP_MAP_unary _ Hu) in Hk. injection Hk as Hk.
  destruct (unary_eval l He Hlast Hu) as (_ & _ & Hw & Hsz & Hcase). fold i in Hcase, Hw, Hsz.
  unfold of_label in *. fold i. set (w := i_size (info_at tbl (i_l1 i))) in *. unfold unary_expr. rewrite <- Hk.
  assert (z3.is_bool c1 = false) as Hnb.
  { unfold z3.is_bool. rewrite (word_sort _ _ _ Hc1). by rewrite bool_decide_eq_false_2. }
  destruct Hcase as [(-> & Hle & Hev)|[(-> & Hle & Hev)|(Hop & H0 & Hle & Hev)]].
  - ops. rewrite Hnb, Hb, Hb1, wrap_small by (unfold is_u; lia).
    assert (word (z3.Un (z3.ZeroExt (i_size i - w)) c1) (i_size i) (fun env => eval tbl env l)) as He'.
    { eapply word_ext; [|eapply word_un; [exact Hc1|]].
      - intros env. simpl. by rewrite Hev.
      - simpl. rewrite (proj2 (Z.leb_le 0 _)) by lia. do 2 f_equal. lia. }
    rewrite (word_mk _ _ _ He'). by eexists.
  - ops. rewrite Hb, Hb1, wrap_small by (unfold is_u; lia).
    assert (word (z3.Un (z3.SignExt (i_size i - w)) c1) (i_size i) (fun env => eval tbl env l)) as He'.
    { eapply word_ext; [|eapply word_un; [exact Hc1|]].
      - intros env. simpl. rewrite Hev. f_equal. lia.
      - simpl. rewrite (proj2 (Z.leb_le 0 _)) by lia. do 2 f_equal. lia. }
    rewrite (word_mk _ _ _ He'). by eexists.
  - set (ix := if i_op i =? Extract then i_op2 i else 0) in *.
    assert ((if i_op i =? ZExt then rgd.ZExt else if i_op i =? SExt then rgd.SExt else rgd.Extract)
      = rgd.Extract) as -> by (destruct Hop as [-> | ->]; by ops).
    rewrite Hb, Hix, wrap_small by (unfold is_u; lia).
    assert (word (z3.Un (z3.Extract (ix + i_size i - 1) ix) c1) (i_size i) (fun env => eval tbl env l)) as He'.
    { eapply word_ext; [|eapply word_un; [exact Hc1|]].
      - intros env. simpl. rewrite Hev. f_equal. lia.
      - simpl. rewrite (proj2 (Z.leb_le 0 ix)), (proj2 (Z.leb_le ix _)), (proj2 (Z.ltb_lt _ w)) by lia.
        simpl. do 2 f_equal. lia. }
    rewrite (word_mk _ _ _ He'). by eexists.
Qed.

(** ** Binary operations *)

(** The expression for a binary node. *)
Definition binary_expr (k : rgd.AstKind) (c1 c2 : z3.expr) : option (res z3.expr) :=
  let bv o := Some (z3.mk (z3.Bin (z3.BvOp o) c1 c2)) in
  match k with
  | rgd.Concat => Some (z3.mk (z3.Bin z3.Concat c2 c1))
  | rgd.Add => bv z3.BvAdd
  | rgd.Sub => bv z3.BvSub
  | rgd.Mul => bv z3.BvMul
  | rgd.UDiv => bv z3.BvUDiv
  | rgd.SDiv => bv z3.BvSDiv
  | rgd.URem => bv z3.BvURem
  | rgd.SRem => bv z3.BvSRem
  | rgd.And => Some (z3.overloaded z3.And z3.BvAnd c1 c2)
  | rgd.Or => Some (z3.overloaded z3.Or z3.BvOr c1 c2)
  | rgd.Xor => Some (z3.overloaded z3.Xor z3.BvXor c1 c2)
  | rgd.Shl => bv z3.BvShl
  | rgd.LShr => bv z3.BvLShr
  | rgd.AShr => bv z3.BvAShr
  | _ => None
  end.

Lemma binary_expr_bits op c1 c2 w : is_binary op = true -> z3.sort_of c1 = Some (z3.BvSort w) ->
  binary_expr (binary_kind op) c1 c2 = Some (z3.mk (z3.Bin (z3.BvOp (bv_of op)) c1 c2)).
Proof.
  intros Hb%binary_iff Hs. destruct_or! Hb; subst op; unfold binary_kind, bv_of; ops; simpl;
    rewrite ?(overloaded_bits _ _ _ _ _ Hs); done.
Qed.

(** An operand: the label [k], or the [w]-bit constant [v]. *)
Definition of_side (e : z3.expr) (k w v : Z) : Prop := word e w (side_value p k w v).

Section operands.
Context (c : Constraint) (l : Z) (Hl : label_ok p l) (Hlast : l <= last).
Let i := info_at tbl l.
Context (H1 : i_l1 i <> 0 -> expr_ok p buf R (i_l1 i)) (H2 : i_l2 i <> 0 -> expr_ok p buf R (i_l2 i)).
Context (c1 c2 : z3.expr).
Context (S1 : of_side c1 (i_l1 i) (sw1 p i) (i_op1 i)) (S2 : of_side c2 (i_l2 i) (sw2 p i) (i_op2 i)).

Lemma binary_expr_run : is_binary (i_op i) = true \/ i_op i = Concat ->
  exists e, binary_expr (binary_kind (i_op i)) c1 c2 = Some (Ok e) /\ of_label e l.
Proof.
  intros Hb.
  assert (is_binary (i_op i) = true \/ i_op i = Concat \/ is_icmp (i_op i) = true) as Hop by tauto.
  assert (Hr : is_read i = false) by (by apply binary_is_read).
  destruct (sw_facts p buf R c l Hl Hop H1 H2) as [Hcat Hnot]. fold i in Hcat, Hnot.
  assert (forall env, eval tbl env l = op_value (i_op i) (i_size i) (width1 tbl i)
    (side_value p (i_l1 i) (sw1 p i) (i_op1 i) env) (side_value p (i_l2 i) (sw2 p i) (i_op2 i) env)) as Hev.
  { intros env. rewrite (eval_operation p last Hdag c l Hl Hlast) by done. fold i.
    destruct (operands_side p l Hop env) as [O1 O2]. fold i in O1, O2. by rewrite O1, O2. }
  destruct (decide (i_op i = Concat)) as [E|E].
  - destruct (Hcat E) as (P1 & P2 & Hsum & Hw). rewrite E. unfold binary_kind. ops. cbv beta iota delta [binary_expr].
    destruct (word_bin z3.Concat c2 c1 (sw2 p i) (sw1 p i) (z3.BvSort (i_size i)) _ _ S2 S1) as (d & Hm).
    { simpl. do 2 f_equal. lia. }
    rewrite (means_mk _ _ _ _ _ Hm). eexists. split; [reflexivity|]. unfold of_label. fold i.
    exists d. eapply means_ext; [|exact Hm]. intros env. cbn [z3.bin_value].
    rewrite Hev, E, op_value_Concat, Hw. lia.
  - destruct Hb as [Hb|]; [|done]. destruct (Hnot E) as [W1 W2]. rewrite W1, W2 in *.
    rewrite (binary_expr_bits _ _ _ _ Hb (word_sort _ _ _ S1)).
    destruct (word_bin (z3.BvOp (bv_of (i_op i))) c1 c2 (i_size i) (i_size i) (z3.BvSort (i_size i)) _ _ S1 S2)
      as (d & Hm). { simpl. by rewrite Z.eqb_refl. }
    rewrite (means_mk _ _ _ _ _ Hm). eexists. split; [reflexivity|]. unfold of_label. fold i.
    exists d. eapply means_ext; [|exact Hm]. intros env. cbn [z3.bin_value].
    by rewrite (bv_of_value _ _ (width1 tbl i)), Hev.
Qed.

(** The relation of a comparison. *)
Lemma relation_run k : is_icmp (i_op i) = true -> rgd.isRelationalKind k = true ->
  exists e d, relation k c1 c2 = Ok e /\ means len e z3.BoolSort (fun env =>
    Z.b2z (rgd.compare k (i_size i) (operand1 tbl (eval tbl env) i) (operand2 tbl (eval tbl env) i))) d.
Proof.
  intros Hi Hk.
  assert (is_binary (i_op i) = true \/ i_op i = Concat \/ is_icmp (i_op i) = true) as Hop by tauto.
  assert (i_op i <> Concat) as Hnc by (pose proof (icmp_not_arith _ Hi); tauto).
  destruct (sw_facts p buf R c l Hl Hop H1 H2) as [_ Hnot]. fold i in Hnot.
  destruct (Hnot Hnc) as [W1 W2]. pose proof (operands_side p l Hop) as Hside. fold i in Hside. rewrite W1, W2 in *.
  assert (forall o, z3.sort_bin o (z3.BvSort (i_size i)) (z3.BvSort (i_size i)) = Some z3.BoolSort ->
    (forall v1 v2, z3.bin_value o (i_size i) (i_size i) v1 v2 = Z.b2z (rgd.compare k (i_size i) v1 v2)) ->
    exists e d, z3.mk (z3.Bin o c1 c2) = Ok e /\ means len e z3.BoolSort (fun env =>
      Z.b2z (rgd.compare k (i_size i) (operand1 tbl (eval tbl env) i) (operand2 tbl (eval tbl env) i))) d) as Hrel.
  { intros o Hs Ho. destruct (word_bin o c1 c2 _ _ _ _ _ S1 S2 Hs) as (d & Hm).
    exists (z3.Bin o c1 c2), d. split; [apply (means_mk _ _ _ _ _ Hm)|]. eapply means_ext; [|exact Hm].
    intros env. cbv beta. rewrite Ho. by destruct (Hside env) as [-> ->]. }
  assert (forall r, z3.sort_bin (z3.BvRel r) (z3.BvSort (i_size i)) (z3.BvSort (i_size i)) = Some z3.BoolSort) as Hr.
  { intros r. simpl. by rewrite Z.eqb_refl. }
  destruct k; try done; apply Hrel; try apply Hr; try done; simpl; by rewrite decide_True.
Qed.

End operands.

(** ** The cache

    It has right expressions, and with an operation its operands. *)
Record cache_good (s : exprs) : Prop := {
  cg_label : forall l e, s !! l = Some e -> of_label e l;
  cg_closed : forall l, l ∈ dom s -> is_read (info_at tbl l) = false ->
    (i_l1 (info_at tbl l) <> 0 -> i_l1 (info_at tbl l) ∈ dom s) /\
    (i_l2 (info_at tbl l) <> 0 -> i_l2 (info_at tbl l) ∈ dom s)
}.

Lemma cache_step s l e : cache_good s -> l <> 0 -> of_label e l ->
  (is_read (info_at tbl l) = false ->
    (i_l1 (info_at tbl l) <> 0 -> i_l1 (info_at tbl l) ∈ dom s) /\
    (i_l2 (info_at tbl l) <> 0 -> i_l2 (info_at tbl l) ∈ dom s)) ->
  exists s', cache_expr l e s = (Ok e, s') /\ cache_good s' /\ dom s' = {[l]} ∪ dom s.
Proof.
  intros Hs Hl He Hops. unfold cache_expr, bind, modify, ret. rewrite (proj2 (Z.eqb_neq _ _) Hl).
  destruct (s !! l) as [e'|] eqn:Hn.
  { exists s. split_and!; [done|done|]. apply elem_of_dom_2 in Hn. set_solver. }
  exists (<[l := e]> s). split; [done|]. split; [|apply dom_insert_L]. destruct Hs as [Hs Hclosed]. split.
  - intros k e' Hk. destruct (decide (k = l)) as [->|Hne].
    + rewrite lookup_insert_eq in Hk. by injection Hk as <-.
    + rewrite lookup_insert_ne in Hk by done. by apply Hs.
  - intros k Hk Hr. rewrite dom_insert_L in Hk |- *. apply elem_of_union in Hk as [->%elem_of_singleton|Hk].
    + destruct (Hops Hr) as [O1 O2]. split; intros Hne; apply elem_of_union_r; auto.
    + destruct (Hclosed k Hk Hr) as [O1 O2]. split; intros Hne; apply elem_of_union_r; auto.
Qed.

Section tree.
Context (a : Ast) (c : Constraint).

(** The labels below one that is cached. *)
Lemma covered s tr : cache_good s -> forall V l V', tree_for p c V l tr V' -> expr_ok p buf R l -> l <= last ->
  l ∈ dom s -> V ⊆ dom s -> V' ⊆ dom s.
Proof.
  intros Hs. induction tr as [n|n t IH|n t1 IH1 t2 IH2]; intros V l V' Ht He Hlast Hl HV; simpl in Ht.
  - by destruct Ht as (_ & _ & -> & _).
  - destruct Ht as (_ & _ & _ & Hu & _ & _ & W & Ht & ->).
    destruct (unary_eval l He Hlast Hu) as (Hl1 & He1 & _).
    destruct (cg_closed _ Hs l Hl (unary_is_read _ Hu)) as [O1 _].
    assert (i_l1 (info_at tbl l) ∈ dom s) as Hin.
    { apply O1. pose proof (expr_label p buf R _ He1) as [[? _] _ _ _ _ _]. lia. }
    pose proof (IH _ _ _ Ht He1 Hl1 Hin HV). set_solver.
  - destruct Ht as (_ & _ & _ & Hu & Hr & _ & W & T1 & T2).
    destruct (expr_binary p buf R l He Hu Hr) as (_ & E1 & E2).
    destruct (cg_closed _ Hs l Hl Hr) as [O1 O2].
    pose proof (expr_label p buf R _ He) as [_ [B1 B2] _ _ _ _].
    assert (W ⊆ dom s) as HW.
    { destruct (Z.eqb_spec (i_l1 (info_at tbl l)) 0) as [|N1]; [by destruct T1 as [_ ->]|].
      destruct T1 as (W0 & T1 & ->). pose proof (IH1 _ _ _ T1 (E1 N1) ltac:(lia) (O1 N1) HV).
      specialize (O1 N1). set_solver. }
    destruct (Z.eqb_spec (i_l2 (info_at tbl l)) 0) as [|N2]; [by destruct T2 as [_ ->]|].
    destruct T2 as (W0 & T2 & ->). pose proof (IH2 _ _ _ T2 (E2 N2) ltac:(lia) (O2 N2) HW).
    specialize (O2 N2). set_solver.
Qed.

Local Abbreviation ser := (serialize a (input_args c)).

(** A node whose label is cached. *)
Lemma ser_hit fuel r n e s : node_at r a = Some n -> label n <> 0 -> s !! label n = Some e ->
  ser (S fuel) r s = (Ok e, s).
Proof.
  intros Hn Hl He. cbn [serialize]. erewrite bind_eq by (unfold lift; rewrite Hn; reflexivity).
  erewrite bind_eq by reflexivity. by rewrite He, (proj2 (Z.eqb_neq _ _) Hl).
Qed.

Lemma ser_constant fuel r n s : node_at r a = Some n -> label n = 0 -> kind n = rgd.Constant ->
  ser (S fuel) r s = lift (constant (input_args c) n) s.
Proof.
  intros Hn Hl Hk. cbn [serialize]. erewrite bind_eq by (unfold lift; rewrite Hn; reflexivity).
  erewrite bind_eq by reflexivity. by rewrite Hl, Z.eqb_refl, Hk.
Qed.

Lemma ser_read fuel r n s b e : node_at r a = Some n -> s !! label n = None -> kind n = rgd.Read ->
  byte (index n) = Ok b -> read_bytes_loop (Z.to_nat (bits n / 8) - 1) (index n) 1 b = Ok e ->
  ser (S fuel) r s = cache_expr (label n) e s.
Proof.
  intros Hn Hl Hk Hb He. cbn [serialize]. erewrite bind_eq by (unfold lift; rewrite Hn; reflexivity).
  erewrite bind_eq by reflexivity. rewrite Hl, Hk.
  replace (if label n =? 0 then None else None) with (@None z3.expr) by (by case_match).
  erewrite bind_eq by (unfold lift; rewrite Hb; reflexivity).
  by erewrite bind_eq by (unfold lift; rewrite He; reflexivity).
Qed.

Lemma ser_unary fuel r n n1 c1 e s s1 : node_at r a = Some n -> s !! label n = None ->
  child_of (child0_ n) a = Ok (At (child0_ n)) -> node_at (At (child0_ n)) a = Some n1 ->
  ser fuel (At (child0_ n)) s = (Ok c1, s1) -> unary_expr n n1 c1 = Some (Ok e) ->
  ser (S fuel) r s = cache_expr (label n) e s1.
Proof.
  intros Hn Hl Hc Hn1 E1 He. cbn [serialize]. erewrite bind_eq by (unfold lift; rewrite Hn; reflexivity).
  erewrite bind_eq by reflexivity. rewrite Hl.
  replace (if label n =? 0 then None else None) with (@None z3.expr) by (by case_match).
  unfold unary_expr in He. destruct (kind n); try discriminate He; injection He as He; cbv iota;
    (erewrite bind_eq by (unfold lift; rewrite Hc; reflexivity));
    (erewrite bind_eq by (unfold lift; rewrite Hn1; reflexivity));
    erewrite bind_eq by exact E1; by erewrite bind_eq by (unfold lift; rewrite He; reflexivity).
Qed.

Lemma ser_binary fuel r n c1 c2 e s s1 s2 : node_at r a = Some n -> s !! label n = None ->
  child_of (child0_ n) a = Ok (At (child0_ n)) -> child_of (child1_ n) a = Ok (At (child1_ n)) ->
  ser fuel (At (child0_ n)) s = (Ok c1, s1) -> ser fuel (At (child1_ n)) s1 = (Ok c2, s2) ->
  binary_expr (kind n) c1 c2 = Some (Ok e) -> ser (S fuel) r s = cache_expr (label n) e s2.
Proof.
  intros Hn Hl C1 C2 E1 E2 He. cbn [serialize]. erewrite bind_eq by (unfold lift; rewrite Hn; reflexivity).
  erewrite bind_eq by reflexivity. rewrite Hl.
  replace (if label n =? 0 then None else None) with (@None z3.expr) by (by case_match).
  unfold binary_expr in He. destruct (kind n); try discriminate He; injection He as He; cbv iota;
    (erewrite bind_eq by (unfold lift; rewrite C1; reflexivity)); erewrite bind_eq by exact E1;
    (erewrite bind_eq by (unfold lift; rewrite C2; reflexivity)); erewrite bind_eq by exact E2;
    by erewrite bind_eq by (unfold lift; rewrite He; reflexivity).
Qed.

(** [serialize] is right for the tree [tr]. *)
Definition ser_ok (tr : tree) : Prop := forall r f V l V' s fuel,
  repr a r tr f -> tree_for p c V l tr V' -> expr_ok p buf R l -> l <= last -> cache_good s -> V ⊆ dom s ->
  (depth tr < fuel)%nat ->
  exists e s', ser fuel r s = (Ok e, s') /\ of_label e l /\ cache_good s' /\ dom s ⊆ dom s' /\
    {[l]} ∪ V' ⊆ dom s'.

Lemma ser_cached r tr f V l V' s fuel : repr a r tr f -> tree_for p c V l tr V' -> expr_ok p buf R l ->
  l <= last -> cache_good s -> V ⊆ dom s -> (depth tr < fuel)%nat -> l ∈ dom s ->
  exists e s', ser fuel r s = (Ok e, s') /\ of_label e l /\ cache_good s' /\ dom s ⊆ dom s' /\
    {[l]} ∪ V' ⊆ dom s'.
Proof.
  intros Hr Ht He Hlast Hs HV Hd Hin. destruct fuel as [|fuel]; [lia|].
  destruct (repr_node _ _ _ _ Hr) as (n & Hn & Hp).
  assert (label n = l) as Hlab.
  { change (label n) with (label (payload n)). rewrite Hp. destruct tr; simpl in Ht; tauto. }
  pose proof (expr_label p buf R _ He) as [[Hpos _] _ _ _ _ _].
  pose proof Hin as Hin'. apply elem_of_dom in Hin' as [e Hl]. exists e, s. split_and!.
  - apply (ser_hit fuel r n); [done|lia|by rewrite Hlab].
  - by apply (cg_label _ Hs).
  - done.
  - done.
  - pose proof (covered s tr Hs V l V' Ht He Hlast Hin HV). set_solver.
Qed.

Lemma ser_leaf nd : ser_ok (Leaf nd).
Proof.
  intros r f V l V' s fuel Hr Ht He Hlast Hs HV Hd.
  destruct (decide (l ∈ dom s)) as [Hin|Hout]; [by eapply ser_cached|].
  pose proof (expr_label p buf R l He) as [Hrange _ _ _ _ _].
  destruct fuel as [|fuel]; [lia|]. destruct Ht as (Hlab & Hbits & -> & Hcase).
  inversion Hr as [? n Hn E1 E2| |]; subst.
  change (label (payload n)) with (label n) in *. change (bits (payload n)) with (bits n) in *.
  change (index (payload n)) with (index n) in *. change (kind (payload n)) with (kind n) in *.
  destruct Hcase as [[Hv _]|(_ & Hread & Hk & Hix & _)]; [set_solver|].
  destruct (read_run (label n) He Hlast Hread) as (b & e & Eb & Ee & Hw). cbv zeta in Eb, Ee.
  apply not_elem_of_dom in Hout as Hnone.
  destruct (cache_step s (label n) e Hs ltac:(lia) Hw) as (s' & Ec & Hs' & Hdom); [congruence|].
  exists e, s'. split_and!; [|done|done|set_solver|set_solver].
  rewrite <- Ec. apply (ser_read fuel r n s b e); [done..|by rewrite Hix|by rewrite Hix, Hbits].
Qed.

Lemma ser_un nd t : ser_ok t -> ser_ok (Un nd t).
Proof.
  intros IH r f V l V' s fuel Hr Ht He Hlast Hs HV Hd.
  destruct (decide (l ∈ dom s)) as [Hin|Hout]; [by eapply ser_cached|].
  pose proof (expr_label p buf R l He) as [Hrange [Hb1 _] _ _ _ _].
  destruct fuel as [|fuel]; [lia|].
  destruct Ht as (_ & Hlab & Hbits & Hu & Hop & Hix & W & Ht & ->).
  inversion Hr as [|? n k ? f1 Hn E1 E2 Hk R1 _|]; subst.
  change (label (payload n)) with (label n) in *. change (bits (payload n)) with (bits n) in *.
  change (kind (payload n)) with (kind n) in *. change (index (payload n)) with (index n) in *.
  destruct (unary_eval (label n) He Hlast Hu) as (Hl1 & He1 & _). simpl in Hd.
  destruct (IH _ _ V _ W s fuel R1 Ht He1 Hl1 Hs HV ltac:(lia)) as (c1 & s1 & E1 & Hc1 & Hs1 & D1 & C1).
  destruct (repr_node _ _ _ _ R1) as (n1 & N1 & P1).
  destruct (unary_expr_run (label n) n n1 c1 He Hlast Hu Hop Hbits Hix) as (e & Ee & Hw); [|done|].
  { change (bits n1) with (bits (payload n1)). rewrite P1. by eapply tree_for_bits. }
  apply not_elem_of_dom in Hout as Hnone.
  destruct (cache_step s1 (label n) e Hs1 ltac:(lia) Hw) as (s' & Ec & Hs' & Hdom).
  { intros _. split; [set_solver|]. intros Hne.
    destruct (unary_operand p buf R (label n) (expr_label p buf R _ He) Hu He1) as (_ & E0 & _). lia. }
  exists e, s'. split_and!; [|done|done|set_solver|set_solver]. rewrite <- Ec.
  apply (ser_unary fuel r n n1 c1 e s s1); [done..|by eapply child_of_repr|done|done|done].
Qed.

Lemma ser_side tr r f k w v V V' s fuel : ser_ok tr -> repr a r tr f ->
  side_for p c V k w v tr V' -> cache_good s -> V ⊆ dom s -> (depth tr < fuel)%nat ->
  (k = 0 -> 0 < w <= 64 /\ w mod 8 = 0) ->
  (k <> 0 -> expr_ok p buf R k /\ k <= last /\ w = i_size (info_at tbl k)) ->
  exists e s', ser fuel r s = (Ok e, s') /\ of_side e k w v /\ cache_good s' /\ dom s ⊆ dom s' /\
    V' ⊆ dom s' /\ (k <> 0 -> k ∈ dom s').
Proof.
  intros Hok Hr Hs Hc HV Hd H0 Hk. unfold side_for, of_side, side_value in *.
  destruct (Z.eqb_spec k 0) as [->|Hne].
  - destruct Hs as [(n & j & -> & Hkind & Hlab & Hbits & Hidx & Harg) ->].
    inversion Hr as [? n' Hn' ? ?| |]; subst. simpl in Hkind, Hlab, Hidx.
    destruct fuel as [|fuel]; [lia|]. destruct H0 as [Hw Hmod]; [done|]. change (bits (payload n')) with (bits n') in *.
    exists (z3.BvVal v (bits n')), s. split_and!; [|exists ∅; apply means_bv; lia|done..].
    rewrite (ser_constant fuel r n' s Hn' Hlab Hkind). unfold constant, arg, lift.
    rewrite Hidx, Nat2Z.id, Harg. cbn [idx snd].
    assert (bits n' <> 1) as ->%Z.eqb_neq by (intros E; by rewrite E in Hmod).
    rewrite (proj2 (Z.leb_le _ _)) by lia. by rewrite (means_mk len _ _ _ _ (means_bv len v (bits n') ltac:(lia))).
  - destruct Hs as (V0 & Ht & ->). destruct (Hk Hne) as (He & Hl & ->).
    destruct (Hok r f V k V0 s fuel Hr Ht He Hl Hc HV Hd) as (e & s' & E & Hw & Hc' & D & C).
    exists e, s'. split_and!; [done..|set_solver].
Qed.

(** Both operands of a binary node. *)
Lemma ser_operands l r nd t1 t2 f V V' s fuel : label_ok p l -> l <= last -> let i := info_at tbl l in
  is_binary (i_op i) = true \/ i_op i = Concat \/ is_icmp (i_op i) = true ->
  (i_l1 i <> 0 -> expr_ok p buf R (i_l1 i)) -> (i_l2 i <> 0 -> expr_ok p buf R (i_l2 i)) ->
  repr a r (Bin nd t1 t2) f -> tree_for p c V l (Bin nd t1 t2) V' -> ser_ok t1 -> ser_ok t2 ->
  cache_good s -> V ⊆ dom s -> (depth (Bin nd t1 t2) < S fuel)%nat ->
  exists n c1 c2 s1 s2, node_at r a = Some n /\ payload n = nd /\ children_size n = 2%nat /\
    child_of (child0_ n) a = Ok (At (child0_ n)) /\ child_of (child1_ n) a = Ok (At (child1_ n)) /\
    ser fuel (At (child0_ n)) s = (Ok c1, s1) /\ ser fuel (At (child1_ n)) s1 = (Ok c2, s2) /\
    of_side c1 (i_l1 i) (sw1 p i) (i_op1 i) /\ of_side c2 (i_l2 i) (sw2 p i) (i_op2 i) /\
    cache_good s2 /\ dom s ⊆ dom s2 /\ V' ⊆ dom s2 /\
    (i_l1 i <> 0 -> i_l1 i ∈ dom s2) /\ (i_l2 i <> 0 -> i_l2 i ∈ dom s2).
Proof.
  intros Hl Hlast i Hop H1 H2 Hr Ht G1 G2 Hs HV Hd.
  destruct (sw_const p buf R c l Hl Hop H1 H2) as [K1 K2]. fold i in K1, K2.
  inversion Hr as [| |? n k1 k2 ? ? f1 f2 Hn E1 Hk1 E2 Hk2 R1 R2 _ _]; subst.
  destruct Ht as (_ & _ & _ & _ & _ & _ & W & S1 & S2). fold i in S1, S2.
  fold (side_for p c V (i_l1 i) (width1 tbl i) (i_op1 i) t1 W) in S1.
  fold (side_for p c W (i_l2 i) (width2 tbl i) (i_op2 i) t2 V') in S2. simpl in Hd.
  assert (side_for p c V (i_l1 i) (sw1 p i) (i_op1 i) t1 W) as S1'.
  { unfold sw1. destruct (Z.eqb_spec (i_l1 i) 0) as [E|E]; [done|]. by eapply side_for_width. }
  assert (side_for p c W (i_l2 i) (sw2 p i) (i_op2 i) t2 V') as S2'.
  { unfold sw2. destruct (Z.eqb_spec (i_l2 i) 0) as [E|E]; [done|]. by eapply side_for_width. }
  destruct (ser_side t1 _ _ _ _ _ _ _ s fuel G1 R1 S1' Hs HV ltac:(lia) K1 (sub1 p buf R last c l Hl Hlast H1))
    as (c1 & s1 & Ea & C1 & Hs1 & D1 & W1 & I1).
  destruct (ser_side t2 _ _ _ _ _ _ _ s1 fuel G2 R2 S2' Hs1 W1 ltac:(lia) K2 (sub2 p buf R last c l Hl Hlast H2))
    as (c2 & s2 & Eb & C2 & Hs2 & D2 & W2 & I2).
  exists n, c1, c2, s1, s2. split_and!; [done|done| |by eapply child_of_repr|by eapply child_of_repr|done..| | | |].
  - unfold children_size. destruct (child0_ n), (child1_ n); done.
  - by etrans.
  - done.
  - intros N1. apply D2, I1, N1.
  - done.
Qed.

Lemma ser_bin nd t1 t2 : ser_ok t1 -> ser_ok t2 -> ser_ok (Bin nd t1 t2).
Proof.
  intros G1 G2 r f V l V' s fuel Hr Ht He Hlast Hs HV Hd.
  destruct (decide (l ∈ dom s)) as [Hin|Hout]; [by eapply ser_cached|].
  pose proof (expr_label p buf R l He) as Hl. pose proof Hl as [Hrange _ _ _ _ _].
  destruct fuel as [|fuel]; [lia|].
  pose proof Ht as (_ & Hlab & _ & Hu & Hrd & Hk & _).
  destruct (expr_binary p buf R l He Hu Hrd) as (Hb & H1 & H2).
  destruct (ser_operands l r nd t1 t2 f V V' s fuel Hl Hlast ltac:(tauto) H1 H2 Hr Ht G1 G2 Hs HV Hd)
    as (n & c1 & c2 & s1 & s2 & Hn & <- & _ & C1 & C2 & E1 & E2 & S1 & S2 & Hs2 & D & W2 & I1 & I2).
  change (label (payload n)) with (label n) in *. change (kind (payload n)) with (kind n) in *. subst l.
  rewrite (OP_MAP_binary _ Hb) in Hk. injection Hk as Hk.
  destruct (binary_expr_run c (label n) Hl Hlast H1 H2 c1 c2 S1 S2 Hb) as (e & Ee & Hw). rewrite Hk in Ee.
  apply not_elem_of_dom in Hout as Hnone.
  destruct (cache_step s2 (label n) e Hs2 ltac:(lia) Hw) as (s' & Ec & Hs' & Hdom); [done|].
  exists e, s'. split_and!; [|done|done|set_solver|set_solver]. rewrite <- Ec.
  by apply (ser_binary fuel r n c1 c2 e s s1 s2).
Qed.

Lemma ser_expr tr : ser_ok tr.
Proof. induction tr; [apply ser_leaf|by apply ser_un|by apply ser_bin]. Qed.

(** The relation of a parsed comparison. *)
Lemma serialize_rel_run tr f V l k s : cmp_ok p buf R l -> l <= last -> repr a Root tr f ->
  tree_for p c ∅ l tr V -> rgd.isRelationalKind k = true -> cache_good s ->
  exists e d s', serialize_rel a (input_args c) k s = (Ok e, s') /\ cache_good s' /\
    means len e z3.BoolSort (fun env => Z.b2z (rgd.compare k (i_size (info_at tbl l))
      (operand1 tbl (eval tbl env) (info_at tbl l)) (operand2 tbl (eval tbl env) (info_at tbl l)))) d.
Proof.
  intros [Hl Hi _ H1 H2] Hlast Hr Ht Hk Hs.
  assert (is_binary (i_op (info_at tbl l)) = true \/ i_op (info_at tbl l) = Concat \/
    is_icmp (i_op (info_at tbl l)) = true) as Hop by tauto.
  pose proof (binary_not_unary _ Hop) as [Hu _]. pose proof (binary_is_read _ Hop) as Hrd.
  destruct (repr_size _ _ _ _ Hr) as [Hd1 Hd2].
  destruct tr as [n|n t|nd t1 t2].
  - destruct Ht as (_ & _ & _ & [[HV _]|(_ & Hrd' & _)]); [set_solver|congruence].
  - destruct Ht as (_ & _ & _ & Hu' & _). congruence.
  - destruct (ser_operands l Root nd t1 t2 f ∅ V s (length (a_vec a)) Hl Hlast Hop H1 H2 Hr Ht (ser_expr t1)
      (ser_expr t2) Hs ltac:(set_solver) ltac:(lia))
      as (n & c1 & c2 & s1 & s2 & Hn & <- & Hch & C1 & C2 & E1 & E2 & S1 & S2 & Hs2 & _).
    injection Hn as <-.
    destruct (relation_run c l Hl H1 H2 c1 c2 S1 S2 k Hi Hk) as (e & d & Ee & Hm).
    exists e, d, s2. split_and!; [|done|done]. unfold serialize_rel. rewrite Hch. cbv beta iota zeta.
    change (negb (2 =? 2)%nat) with false. cbv iota.
    erewrite bind_eq by (unfold lift; rewrite C1; reflexivity). erewrite bind_eq by exact E1.
    erewrite bind_eq by (unfold lift; rewrite C2; reflexivity). erewrite bind_eq by exact E2.
    unfold lift. by rewrite Ee.
Qed.

End tree.

End terms.

(** ** Tasks *)

Section solve.
Context {LLVM : InstructionDef} {L : z3.Library} {LL : z3.LibraryLaws}.
Context (p0 : parser) (buf : list Z) (R : list (Z * Z)) (last : Z) (p : parser).
Context (Hs : scannable (snd (restart [buf] p0)) last).
Context (Hscan : scan_labels last (snd (restart [buf] p0)) = (Ok true, p)).
Context (H0 : 0 <= last) (Hbuf : Z.of_nat (length buf) < 2 ^ 30) (Hno : no_overlap R).

Local Abbreviation len := (Z.of_nat (length buf)).

(** What an assertion means. *)
Definition asserts (e : z3.expr) (l : Z) (k : rgd.AstKind) : Prop :=
  (forall a env, reads a env -> (z3.value a e = 1 <-> holds p env l k)) /\
  forall x, x ∈ z3.consts e -> exists off, 0 <= off < len /\ x = (z3.IntSymbol off, z3.BvSort 8).

Lemma assertions_run ls cs : Forall2 (parsed p buf R last) ls cs -> forall ks s,
  length cs = length ks -> Forall (fun k => rgd.isRelationalKind k = true) ks -> cache_good p buf s ->
  exists es s', assertions (zip cs ks) s = (Ok es, s') /\
    Forall2 (fun e lk => asserts e (fst lk) (snd lk)) es (zip ls ks).
Proof.
  induction 1 as [|l c ls cs Hp _ IH]; intros ks s Hlen Hks Hc; simpl.
  { exists [], s. split; [done|constructor]. }
  destruct ks as [|k ks]; [done|]. apply Forall_cons in Hks as [Hk Hks]. injection Hlen as Hlen.
  destruct (parsed_tree p0 buf R last p Hs Hscan l c Hbuf Hno Hp) as (tr & f & V & Hr & Ht & _). destruct Hp as [Hcmp Hlast _ _ _].
  destruct (serialize_rel_run p buf R last (scanned_dag p0 buf last p Hs Hscan H0) Hbuf (ast c) c tr f V l k s Hcmp Hlast Hr Ht Hk Hc)
    as (e & d & s1 & E1 & Hc1 & [_ Hv Hx Hd]).
  destruct (IH ks s1 Hlen Hks Hc1) as (es & s2 & E2 & Hes). exists (e :: es), s2. split.
  - simpl. erewrite bind_eq by exact E1. by erewrite bind_eq by exact E2.
  - constructor; [|done]. split.
    + intros a env Hr'. rewrite (Hv a env Hr'). unfold holds. simpl.
      by destruct (rgd.compare _ _ _ _).
    + intros x Hin. destruct (Hx x Hin) as (off & Ho & ->). exists off. split; [by apply (Hd 0)|done].
Qed.

(** The bytes of a model. *)
Lemma extract_model_run m : forall b sol, NoDup (fst <$> m) ->
  (forall x srt v, (x, srt, v) ∈ m -> exists off, x = z3.IntSymbol off /\ srt = z3.BvSort 8 /\
     0 <= off < len /\ is_u 8 v) -> (length buf <= length b)%nat ->
  exists b' sol', extract_model m len b sol = Ok (b', sol') /\ length b' = length b /\
    forall off v, (z3.IntSymbol off, z3.BvSort 8, v) ∈ m -> b' !! Z.to_nat off = Some v.
Proof.
  assert (forall m b sol b' sol' i, extract_model m len b sol = Ok (b', sol') ->
    (z3.IntSymbol (Z.of_nat i), z3.BvSort 8) ∉ fst <$> m ->
    (forall x srt v, (x, srt, v) ∈ m -> exists off, x = z3.IntSymbol off /\ srt = z3.BvSort 8 /\
     0 <= off < len /\ is_u 8 v) -> (length buf <= length b)%nat -> b' !! i = b !! i) as Hother.
  { clear m. induction m as [|[[x srt] v] m IH]; intros b sol b' sol' i E Hi Hm Hb; simpl in E.
    { by injection E as <- _. }
    destruct (Hm x srt v) as (off & -> & -> & Ho & Hv); [by left|].
    destruct (z3.get_numeral_int v) as [v'|]; [|done]. rewrite (proj2 (Z.ltb_lt _ _)) in E by lia.
    rewrite write_bytes_run in E by (simpl; lia). simpl in Hi. apply not_elem_of_cons in Hi as [Hne Hi].
    rewrite (IH _ _ _ _ _ E Hi ltac:(intros; apply Hm; by right)) by (by rewrite length_written by (simpl; lia)).
    rewrite written_lookup by (simpl; lia). rewrite decide_False; [done|]. simpl length.
    intros Hx. apply Hne. do 2 f_equal. lia. }
  induction m as [|[[x srt] v] m IH]; intros b sol Hnd Hm Hb; simpl.
  { exists b, sol. split_and!; [done|done|]. intros off v Hin. by apply elem_of_nil in Hin. }
  destruct (Hm x srt v) as (off & -> & -> & Ho & Hv); [by left|].
  unfold z3.get_numeral_int. unfold is_u in Hv. rewrite (proj2 (Z.ltb_lt v _)) by lia.
  rewrite (proj2 (Z.ltb_lt _ _)) by lia. rewrite write_bytes_run by (simpl; lia).
  simpl in Hnd. apply NoDup_cons in Hnd as [Hout Hnd].
  assert (length (written b [u8 v] off) = length b) as Hlen by (apply length_written; simpl; lia).
  destruct (IH (written b [u8 v] off) (<[off := u8 v]> sol) Hnd) as (b' & sol' & E & Hl & Hin);
    [intros; apply Hm; by right|lia|].
  exists b', sol'. split_and!; [done|lia|]. intros off' v' [[= -> ->]|Hin']%elem_of_cons; [|by apply Hin].
  rewrite (Hother _ _ _ _ _ (Z.to_nat off) E); [| |intros; apply Hm; by right|lia].
  - rewrite written_lookup by (simpl; lia). rewrite decide_True by (simpl; lia).
    replace (Z.to_nat off - Z.to_nat off)%nat with 0%nat by lia. simpl. by rewrite wrap_small.
  - by rewrite Z2Nat.id by lia.
Qed.

(** The input in a buffer, and the assignment of an input. *)
Definition buffer_env (b : list Z) : input_env := fun off => default 0 (b !! Z.to_nat off).
Definition offset_assignment (env : input_env) : z3.assignment := fun s _ =>
  match s with z3.IntSymbol off => env off | z3.StrSymbol _ => 0 end.

Lemma reads_offsets env : reads (offset_assignment env) env.
Proof. by intros off _. Qed.

Lemma asserts_holds env ls : forall ks es, length ls = length ks ->
  Forall2 (fun e lk => asserts e (fst lk) (snd lk)) es (zip ls ks) ->
  Forall (fun e => z3.value (offset_assignment env) e = 1) es <-> Forall2 (holds p env) ls ks.
Proof.
  induction ls as [|l ls IH]; intros [|k ks] es Hl Hes; try done.
  - inversion Hes; subst. split; constructor.
  - simpl in Hes. apply Forall2_cons_inv_r in Hes as (e & es' & [He _] & Hes & ->). injection Hl as Hl.
    rewrite Forall_cons, Forall2_cons, (He _ _ (reads_offsets env)), (IH _ _ Hl Hes). done.
Qed.

(** The tasks that a task extends, directly or not. *)
Inductive bases (ts : gmap Z SearchTask) : option Z -> list (Z * SearchTask) -> Prop :=
  | bases_nil : bases ts None []
  | bases_cons b bt l : ts !! b = Some bt -> bases ts (base_task bt) l -> bases ts (Some b) ((b, bt) :: l).

Lemma bases_fun ts o l1 : bases ts o l1 -> forall l2, bases ts o l2 -> l1 = l2.
Proof.
  induction 1 as [|b bt l E _ IH]; intros l2 H2; inversion H2 as [|b' bt' l' E' H']; subst; [done|].
  rewrite E in E'. injection E' as <-. by rewrite (IH _ H').
Qed.

Lemma bases_suffix ts o l b bt : bases ts o l -> (b, bt) ∈ l ->
  exists l', bases ts (Some b) l' /\ (length l' <= length l)%nat.
Proof.
  induction 1 as [|b' bt' l E Hl IH]; [by intros ?%elem_of_nil|].
  intros [[= -> ->]|Hin]%elem_of_cons.
  - exists ((b', bt') :: l). split; [by constructor|done].
  - destruct (IH Hin) as (l' & ? & ?). exists l'. split; [done|]. simpl. lia.
Qed.

Lemma bases_known ts o l : bases ts o l -> NoDup (fst <$> l) /\ Forall (fun x => ts !! fst x = Some (snd x)) l.
Proof.
  induction 1 as [|b bt l E Hl [IH1 IH2]]; simpl; [by repeat constructor|]. split; [|by constructor].
  constructor; [|done]. intros ([b' bt'] & -> & Hin)%list_elem_of_fmap. simpl in *.
  destruct (bases_suffix ts _ l b' bt' Hl Hin) as (l' & Hl' & Hlen).
  rewrite <- (bases_fun ts _ _ (bases_cons ts b' bt l E Hl) _ Hl') in Hlen. simpl in Hlen. lia.
Qed.

(** The number of tasks is fuel enough. *)
Lemma bases_length ts o l : bases ts o l -> (length l <= size ts)%nat.
Proof.
  intros Hl. destruct (bases_known ts o l Hl) as [Hnd Hall].
  rewrite <- size_dom, <- (length_fmap fst l), <- (size_list_to_set (C := gset Z)) by done.
  apply subseteq_size. intros b ([b' bt] & -> & Hin)%elem_of_list_to_set%list_elem_of_fmap.
  apply elem_of_dom. rewrite Forall_forall in Hall. specialize (Hall _ Hin). by exists bt.
Qed.

(** The bytes of a solution are bytes of the input. *)
Definition inside (bt : SearchTask) : Prop := map_Forall (fun off _ => 0 <= off < len) (solution bt).

Lemma equations_run sol : Forall (fun x => 0 <= fst x < len) sol -> exists es, equations sol = Ok es.
Proof.
  induction 1 as [|[off v] l Ho _ [es IH]]; [by exists []|]. simpl in Ho |- *.
  unfold byte, z3.int_symbol. rewrite (proj2 (andb_true_iff _ _)) by lia. simpl. rewrite IH. by eexists.
Qed.

Lemma write_solution_ok l : forall b, Forall (fun x => 0 <= fst x < Z.of_nat (length b)) l ->
  exists b', write_solution l b = Ok b'.
Proof.
  induction l as [|[k v] l IH]; intros b Hl; simpl; [by exists b|].
  apply Forall_cons in Hl as [Hk Hl]. simpl in Hk. rewrite write_bytes_run by (simpl; lia).
  apply IH. by rewrite length_written by (simpl; lia).
Qed.

(** The output when a task is skipped. *)
Lemma output_sol_run sol (s : solver) : (length buf <= length (out_buf s))%nat ->
  map_Forall (fun off _ => 0 <= off < len) sol ->
  exists b, Z3Solver.output buf (Some sol) s = (Ok tt, set_out b len s) /\
    forall i, (i < length buf)%nat -> b !! i = Some (patched buf sol (Z.of_nat i)).
Proof.
  intros Hb Hsol. unfold Z3Solver.output, bind, gets, lift, modify. rewrite write_bytes_run by lia.
  assert (length (written (out_buf s) buf 0) = length (out_buf s)) as Hw by (apply length_written; lia).
  destruct (write_solution_ok (map_to_list sol) (written (out_buf s) buf 0)) as [b Eb].
  { apply Forall_forall. intros [k v] Hk%elem_of_map_to_list. specialize (Hsol _ _ Hk). simpl in *. lia. }
  rewrite Eb. exists b. split; [done|]. intros i Hi.
  destruct (write_solution_run _ _ _ (NoDup_fst_map_to_list sol) Eb) as (_ & Hin & Hout).
  unfold patched. destruct (sol !! Z.of_nat i) as [v|] eqn:Es; simpl.
  - rewrite <- (Nat2Z.id i) at 1. by apply Hin, elem_of_map_to_list.
  - rewrite Hout.
    + rewrite written_lookup, decide_True by lia. rewrite Nat2Z.id, Nat.sub_0_r.
      destruct (lookup_lt_is_Some_2 buf i Hi) as [x Hx]. by rewrite Hx.
    + intros ([k v] & Ek & Hk)%list_elem_of_fmap. simpl in Ek. subst k.
      apply elem_of_map_to_list in Hk. congruence.
Qed.

Lemma output_none (s : solver) : Z3Solver.output buf None s = Z3Solver.output buf (Some ∅) s.
Proof. unfold Z3Solver.output. by rewrite map_to_list_empty. Qed.

(** The first base task that says so decides. *)
Definition decider (l : list (Z * SearchTask)) : option SearchTask := List.find skip_next (snd <$> l).

Lemma base_loop_run t tid (s : solver) o l : tasks s !! tid = Some t -> (length buf <= length (out_buf s))%nat ->
  bases (tasks s) o l -> Forall (fun x => inside (snd x)) l -> forall fuel a, (length l <= fuel)%nat ->
  match decider l with
  | Some bt => exists b a', base_loop buf fuel tid o a s =
        (Ok (Some (if solved bt then SOLVER_SAT else SOLVER_UNSAT), a'), set_out b len (set_task tid (skip t) s)) /\
      forall i, (i < length buf)%nat ->
        b !! i = Some (patched buf (if solved bt then solution bt else ∅) (Z.of_nat i))
  | None => exists a', base_loop buf fuel tid o a s = (Ok (None, a'), s)
  end.
Proof.
  intros Ht Hout. induction 1 as [|b bt l E Hl IH]; intros Hin fuel a Hf; [exists a; by destruct fuel|].
  apply Forall_cons in Hin as [Hb Hin]. destruct fuel as [|fuel]; [simpl in Hf; lia|].
  cbn [base_loop]. erewrite bind_eq by (unfold get_task; rewrite E; reflexivity). unfold decider in *.
  cbn [fmap list_fmap List.find snd]. destruct (skip_next bt).
  - erewrite bind_eq by (unfold get_task; rewrite Ht; reflexivity). erewrite bind_eq by reflexivity.
    destruct (solved bt).
    + destruct (output_sol_run (solution bt) (set_task tid (skip t) s) Hout Hb) as (x & Ex & Hx).
      exists x, a. split; [|done]. by erewrite bind_eq by exact Ex.
    + destruct (output_sol_run ∅ (set_task tid (skip t) s) Hout) as (x & Ex & Hx); [done|].
      exists x, a. split; [|done]. rewrite <- output_none in Ex. by erewrite bind_eq by exact Ex.
  - assert (exists es, (if solved bt then lift (equations (map_to_list (solution bt))) else ret []) s = (Ok es, s))
      as [es Ees].
    { destruct (solved bt); [|by exists []]. unfold lift.
      destruct (equations_run (map_to_list (solution bt))) as [es ->]; [|by exists es].
      apply Forall_forall. intros [k v] Hk%elem_of_map_to_list. by apply (Hb _ _ Hk). }
    erewrite bind_eq by exact Ees. apply IH; [done|]. simpl in Hf. lia.
Qed.

(** The tail of [solve], when no base task decides. *)
Lemma checked_run t tid (s : solver) l es s0 : tasks s !! tid = Some t -> (length buf <= length (out_buf s))%nat ->
  bases (tasks s) (base_task t) l -> Forall (fun x => inside (snd x)) l -> decider l = None ->
  assertions (zip (constraints_ t) (comparisons_ t)) ∅ = (Ok es, s0) ->
  solve_checked buf tid s = match z3.check es with
    | z3.sat m => (write_model buf tid m ;;; ret SOLVER_SAT) s
    | z3.unsat => (Ok SOLVER_UNSAT, s)
    | z3.unknown => (Ok SOLVER_TIMEOUT, s)
    end.
Proof.
  intros Ht Hout Hl Hin Hd Ees. unfold solve_checked. erewrite bind_eq by (unfold get_task; rewrite Ht; reflexivity).
  erewrite bind_eq by reflexivity.
  pose proof (base_loop_run t tid s _ l Ht Hout Hl Hin (size (tasks s)) [] (bases_length _ _ _ Hl)) as Hb.
  rewrite Hd in Hb. destruct Hb as [a Ea]. erewrite bind_eq by exact Ea. cbv beta iota.
  erewrite bind_eq by (unfold get_task; rewrite Ht; reflexivity).
  erewrite bind_eq by (unfold lift; rewrite Ees; reflexivity). by destruct (z3.check es).
Qed.

(** A model of assertions over input bytes is written to the buffer. *)
Lemma write_model_run t tid (s : solver) m : atoi_info_ t = ∅ -> tasks s !! tid = Some t ->
  (length buf <= length (out_buf s))%nat -> NoDup (fst <$> m) ->
  (forall x srt v, (x, srt, v) ∈ m -> exists off, x = z3.IntSymbol off /\ srt = z3.BvSort 8 /\
     0 <= off < len /\ is_u 8 v) ->
  exists s', write_model buf tid m s = (Ok tt, s') /\ out_size s' = len /\
    (length buf <= length (out_buf s'))%nat /\ z3.extends (offset_assignment (buffer_env (out_buf s'))) m.
Proof.
  intros Hatoi Ht Hout Hnd Hm.
  destruct (extract_model_run m (written (out_buf s) buf 0) (solution t) Hnd Hm) as (b & sol & Eb & Hl & Hin).
  { by rewrite length_written by lia. }
  rewrite length_written in Hl by lia.
  exists (set_task tid (set_solution sol true t) (set_out b len (set_out (written (out_buf s) buf 0) len s))).
  split_and!; [|done|simpl; lia|].
  - unfold write_model.
    erewrite bind_eq by (unfold Z3Solver.output, bind, gets, lift; rewrite write_bytes_run by lia; reflexivity).
    erewrite bind_eq by (unfold get_task; simpl; rewrite Ht; reflexivity).
    erewrite bind_eq by reflexivity. simpl out_buf.
    erewrite bind_eq by (unfold lift; rewrite Eb; reflexivity). cbv beta iota.
    rewrite Hatoi, map_to_list_empty. reflexivity.
  - intros x srt v Hx. destruct (Hm _ _ _ Hx) as (off & -> & -> & _). simpl. unfold buffer_env.
    by rewrite (Hin off v Hx).
Qed.


End solve.

(** ** A task solved

    The comparison of the sum of two input bytes with 7, to be made false. *)

#[local] Existing Instance llvm14.

Definition offset_byte (off : Z) : z3.expr := z3.Const (z3.IntSymbol off) (z3.BvSort 8).
Definition tree_goal : z3.expr :=
  z3.Bin z3.Distinct (z3.BvVal 7 8) (z3.Bin (z3.BvOp z3.BvAdd) (offset_byte 0) (offset_byte 1)).
Definition tree_model : z3.model :=
  [(z3.IntSymbol 0, z3.BvSort 8, 3); (z3.IntSymbol 1, z3.BvSort 8, 0)].

(** A library that knows this task. *)
#[local] Instance tree_library : z3.Library := {
  simplify e := e;
  check l := if bool_decide (l = [tree_goal]) then z3.sat tree_model else z3.unknown
}.

Lemma tree_check l m : z3.check l = z3.sat m -> l = [tree_goal] /\ m = tree_model.
Proof. simpl. case_bool_decide; [|done]. by intros [= <-]. Qed.

#[local] Instance tree_laws : z3.LibraryLaws.
Proof.
  split; [done..| | | | |].
  - intros l m [-> ->]%tree_check a Ha.
    pose proof (Ha (z3.IntSymbol 0) (z3.BvSort 8) 3 ltac:(by left)) as H0.
    pose proof (Ha (z3.IntSymbol 1) (z3.BvSort 8) 0 ltac:(by right; left)) as H1.
    apply Forall_singleton. unfold tree_goal, offset_byte. cbn [z3.value]. by rewrite H0, H1.
  - intros l. simpl. by case_bool_decide.
  - intros l m s u v [-> ->]%tree_check Hm. exists tree_goal. split; [by left|].
    unfold tree_model in Hm. unfold tree_goal, offset_byte. cbn [z3.consts].
    apply elem_of_cons in Hm as [[= -> -> ->]|[[= -> -> ->]|Hm%elem_of_nil]%elem_of_cons]; [..|done].
    + by left.
    + by right; left.
  - intros l m [_ ->]%tree_check. apply (bool_decide_unpack _). by vm_compute.
  - intros l m s n v [_ ->]%tree_check Hm. unfold tree_model in Hm.
    by apply elem_of_cons in Hm as [[= -> -> ->]|[[= -> -> ->]|Hm%elem_of_nil]%elem_of_cons].
Qed.

(** The task extends one that was solved. *)
Definition solved_task : SearchTask := set_solution {[1 := 200]} true sample_task.
Definition nested_task : SearchTask :=
  mk_task (constraints_ sample_task) (comparisons_ sample_task) (consmetas_ sample_task) (inputs_ sample_task)
    (shapes_ sample_task) (atoi_info_ sample_task) (max_const_num_ sample_task) (cmap_ sample_task)
    (scratch_args sample_task) false 0 false ∅ (Some 1) false.
Definition tree_solver : solver := mk_solver (<[0 := nested_task]> {[1 := solved_task]}) [0; 0] 0.

