(* ===== verification/Pipe.v ===== *)
(** * Messages from the program to the driver: the structures of [dfsan.h]

    The traced program writes packed structures to a pipe; the driver reads them
    back. A message is a [pipe_msg], followed for two of the types by a second
    structure. *)

From S2P Require Import Prelude Dfsan Cstr.
Local Open Scope prog_scope.

Definition F_ADD_CONS : Z := 0x1.
Definition F_LOOP_EXIT : Z := 0x2.
Definition F_LOOP_LATCH : Z := 0x4.
Definition F_BRANCH_TAKEN_HISTORY : Z := 0x1.
Definition F_BRANCH_NOT_TAKEN_HISTORY : Z := 0x2.
Definition F_BRANCH_SYMBOLIC : Z := 0x4.

(** The number of a message type. *)
Definition type_num (t : pipe_msg_type) : Z :=
  match t with
  | cond_type => 0 | gep_type => 1 | memcmp_type => 2 | fsize_type => 3 | memerr_type => 4 | cover_type => 5
  end.

Record pipe_msg := mk_msg {
  m_type : Z;          (* uint16_t *)
  m_flags : Z;         (* uint16_t *)
  m_instance : Z;      (* uint32_t *)
  m_addr : Z;          (* uptr *)
  m_context : Z;       (* uint32_t *)
  m_id : Z;            (* uint64_t *)
  m_label : Z;         (* uint32_t *)
  m_result : Z         (* uint64_t *)
}.

(** The signed fields hold the bits of their values. *)
Record gep_msg := mk_gep {
  g_ptr_label : Z;         (* uint32_t *)
  g_index_label : Z;       (* uint32_t *)
  g_ptr : Z;               (* uptr *)
  g_index : Z;             (* int64_t *)
  g_num_elems : Z;         (* uint64_t *)
  g_elem_size : Z;         (* uint64_t *)
  g_current_offset : Z     (* int64_t *)
}.

(** ** Packed structures: fields of some numbers of bytes, one after the other *)

Fixpoint pack (widths : list nat) (fields : list Z) : list Z :=
  match widths, fields with
  | w :: ws, x :: xs => word_bytes w x ++ pack ws xs
  | _, _ => []
  end.

Fixpoint unpack (widths : list nat) (bs : list Z) : list Z :=
  match widths with
  | [] => []
  | w :: ws => bytes_word (take w bs) :: unpack ws (drop w bs)
  end.

(** A structure that is sent: its layout, its fields, and the structure of some
    fields. *)
Class Packed (A : Type) := {
  widths : list nat;
  fields : A -> list Z;
  of_fields : list Z -> A;
  fields_length x : length (fields x) = length widths;
  of_fields_fields x : of_fields (fields x) = x
}.

Definition size_of (A : Type) {P : Packed A} : nat := sum_list widths.
Definition encode {A} {P : Packed A} (x : A) : list Z := pack widths (fields x).
Definition decode {A} {P : Packed A} (bs : list Z) : A := of_fields (unpack widths bs).

(** Every field fits. *)
Definition fits {A} {P : Packed A} (x : A) : Prop :=
  Forall2 (fun w v => is_u (8 * Z.of_nat w) v) widths (fields x).

#[global] Instance packed_msg : Packed pipe_msg.
Proof.
  refine {| widths := [2; 2; 4; 8; 4; 8; 4; 8]%nat;
            fields m := [m_type m; m_flags m; m_instance m; m_addr m; m_context m; m_id m; m_label m; m_result m];
            of_fields l := mk_msg (nth 0 l 0) (nth 1 l 0) (nth 2 l 0) (nth 3 l 0) (nth 4 l 0) (nth 5 l 0)
                             (nth 6 l 0) (nth 7 l 0) |}.
  - done.
  - by intros [].
Defined.

#[global] Instance packed_gep : Packed gep_msg.
Proof.
  refine {| widths := [4; 4; 8; 8; 8; 8; 8]%nat;
            fields g := [g_ptr_label g; g_index_label g; g_ptr g; g_index g; g_num_elems g; g_elem_size g;
                         g_current_offset g];
            of_fields l := mk_gep (nth 0 l 0) (nth 1 l 0) (nth 2 l 0) (nth 3 l 0) (nth 4 l 0) (nth 5 l 0)
                             (nth 6 l 0) |}.
  - done.
  - by intros [].
Defined.

(** [memcmp_msg]: a label and the bytes of the constant operand. *)
Definition memcmp_bytes (label : Z) (content : list Z) : list Z := word_bytes 4 label ++ content.

(** ** Lemmas *)

Section packed.
Context {A : Type} {P : Packed A}.

Lemma length_pack ws : forall xs, length xs = length ws -> length (pack ws xs) = sum_list ws.
Proof.
  induction ws as [|w ws IH]; intros [|x xs] Hl; try done. simpl. rewrite length_app, length_word_bytes.
  rewrite IH; [done|]. by injection Hl.
Qed.

Lemma unpack_pack ws : forall xs rest, Forall2 (fun w v => is_u (8 * Z.of_nat w) v) ws xs ->
  unpack ws (pack ws xs ++ rest) = xs.
Proof.
  induction ws as [|w ws IH]; intros xs rest Hf.
  - by apply Forall2_nil_inv_l in Hf as ->.
  - apply Forall2_cons_inv_l in Hf as (x & xs' & Hx & Hf & ->). simpl.
    rewrite <- app_assoc, take_app_length', drop_app_length' by (by rewrite length_word_bytes).
    rewrite IH by done. rewrite bytes_word_bytes by apply Hx. by rewrite wrap_small.
Qed.

Lemma length_encode (x : A) : length (encode x) = size_of A.
Proof. apply length_pack, fields_length. Qed.

Lemma decode_encode (x : A) rest : fits x -> decode (encode x ++ rest) = x.
Proof. intros Hf. unfold decode, encode. rewrite unpack_pack by done. apply of_fields_fields. Qed.

Lemma pack_u8 ws : forall xs, Forall (is_u 8) (pack ws xs).
Proof.
  induction ws as [|w ws IH]; intros [|x xs]; simpl; try constructor. apply Forall_app.
  split; [apply word_bytes_u8|apply IH].
Qed.

End packed.
