(* ===== verification/Fastgen.v ===== *)
(** * The tracing back end: [backend/fastgen.cpp]

    The functions that instrumented code and the runtime call at branches,
    comparisons, selects, address computations and memory errors. They write
    messages to the pipe that the driver reads. *)

From S2P Require Import Prelude Dfsan Cstr HashTable Runtime Pipe.
Local Open Scope prog_scope.

Module fastgen.

(** ** State *)

(** What [InitializeSolver] takes from the flags, and the return address that the
    back end sees when the runtime calls it. *)
Record config := mk_config {
  instance_id : Z;
  pipe_fd : Z;
  always_report_coverage : bool;
  runtime_pc : Z
}.

Record backend := mk_backend {
  rt : runtime;
  pipe : list Z;                  (* the bytes written, in order *)
  reader : bool;                  (* the other end is open *)
  trace_callstack : Z;            (* __taint_trace_callstack *)
  switch_label : Z;               (* __switch_true_case *)
  switch_cid : Z;
  line_table : gmap Z Z;          (* a char for every line *)
  branch_table : gmap Z Z         (* a char for every branch *)
}.

Definition set_rt x s := mk_backend x (pipe s) (reader s) (trace_callstack s) (switch_label s)
  (switch_cid s) (line_table s) (branch_table s).
Definition set_pipe x s := mk_backend (rt s) x (reader s) (trace_callstack s) (switch_label s)
  (switch_cid s) (line_table s) (branch_table s).
Definition set_switch l c s := mk_backend (rt s) (pipe s) (reader s) (trace_callstack s) l c
  (line_table s) (branch_table s).
Definition set_line_table x s := mk_backend (rt s) (pipe s) (reader s) (trace_callstack s)
  (switch_label s) (switch_cid s) x (branch_table s).
Definition set_branch_table x s := mk_backend (rt s) (pipe s) (reader s) (trace_callstack s)
  (switch_label s) (switch_cid s) (line_table s) x.

Definition new_backend (r : runtime) : backend := mk_backend r [] true 0 0 0 ∅ ∅.

(** [if (internal_write(__pipe_fd, p, n) < 0) Die();] *)
Definition write (bs : list Z) : M backend unit :=
  let! ok := gets reader in
  if ok : bool then modify (fun s => set_pipe (pipe s ++ bs) s) else throw Died.

(** ** Coverage *)

(** The tables are maps; an entry starts as 0. *)
Definition markLineCovered (line_id : Z) : M backend bool :=
  let! prev := gets (fun s => default 0 (line_table s !! line_id)) in
  modify (fun s => set_line_table (<[line_id := 1]> (line_table s)) s) ;;;
  ret (prev =? 0).

Definition recordBranchCoverage (cid : Z) (taken symbolic : bool) : M backend (bool * Z) :=
  let! old := gets (fun s => default 0 (branch_table s !! cid)) in
  let mask := Z.lor (if taken then 0x1 else 0x2) (if symbolic then 0x4 else 0) in
  let flags := Z.lor old mask in
  modify (fun s => set_branch_table (<[cid := flags]> (branch_table s)) s) ;;;
  ret (negb (flags =? old), flags).

Section backend.
Context {LLVM : InstructionDef} (flags : Flags) (cfg : config).

(** The flags of a branch that leaves a loop or goes back to its header. *)
Definition loop_flags (loop_flag : Z) (result : bool) : Z :=
  if loop_flag =? TrueBranchLoopExit then (if result then F_LOOP_EXIT else F_LOOP_LATCH)
  else if loop_flag =? TrueBranchLoopLatch then (if result then F_LOOP_LATCH else F_LOOP_EXIT)
  else if loop_flag =? FalseBranchLoopExit then (if result then F_LOOP_LATCH else F_LOOP_EXIT)
  else if loop_flag =? FalseBranchLoopLatch then (if result then F_LOOP_EXIT else F_LOOP_LATCH)
  else 0.

(** A message of the running instance. *)
Definition message (type : pipe_msg_type) (fl cid label result addr : Z) : M backend pipe_msg :=
  let! ctx := gets trace_callstack in
  ret (mk_msg (type_num type) fl (instance_id cfg) addr ctx cid label result).

Definition solve_cond (label result : Z) (add_nested : bool) (loop_flag cid addr : Z) : M backend unit :=
  if pipe_fd cfg <? 0 then ret tt
  else
    let fl := Z.lor (if add_nested then F_ADD_CONS else 0) (loop_flags loop_flag (negb (result =? 0))) in
    let! m := message cond_type fl cid label result addr in
    write (encode m).

Definition send_ubi (label result cid addr : Z) : M backend unit :=
  if pipe_fd cfg <? 0 then ret tt
  else let! m := message memerr_type F_MEMERR_UBI cid label result addr in write (encode m).

Definition line_coverage (line_id : Z) (result symbolic : bool) (cid : Z) : M backend unit :=
  if pipe_fd cfg <? 0 then ret tt
  else
    let! (new_branch, msg_flags) :=
      (if negb (cid =? 0) then recordBranchCoverage cid result symbolic else ret (false, 0)) in
    let! new_line := markLineCovered line_id in
    if negb (always_report_coverage cfg || new_branch || new_line) then ret tt
    else write (encode (mk_msg (type_num cover_type) msg_flags 0 0 (u32 (Z.shiftr line_id 32)) cid
                          (Z.land line_id 0xffffffff) (Z.b2z result))).

(** A label that was never initialised: [true] when the caller returns. *)
Definition uninitialized (label value cid addr : Z) : M backend bool :=
  if label =? kInitializingLabel then
    (if solve_ub flags then send_ubi label value cid addr else ret tt) ;;;
    if exit_on_memerror flags then throw Died else ret true
  else ret false.

Definition taint_trace_cond (label : Z) (r : bool) (flag cid addr : Z) : M backend unit :=
  if (label =? 0) &&
     negb ((negb (Z.land flag FalseBranchLoopExit =? 0) && negb r) ||
           (negb (Z.land flag TrueBranchLoopExit =? 0) && r))
  then ret tt
  else
    let! stop := uninitialized label (Z.b2z r) cid addr in
    if stop : bool then ret tt
    else solve_cond label (Z.b2z r) (Z.land flag UndefinedCheck =? 0) (Z.land flag LoopFlagMask) cid addr.

Definition taint_trace_memerr (ptr_label ptr size_label size flag addr : Z) : M backend unit :=
  if (ptr_label =? 0) && (size_label =? 0) then ret tt
  else if pipe_fd cfg <? 0 then ret tt
  else
    let r := if (flag =? F_MEMERR_UAF) || (flag =? F_MEMERR_OLB) then Some ptr
             else if flag =? F_MEMERR_OUB then Some (u64 (ptr + size))
             else if flag =? F_MEMERR_UBI then Some ptr
             else None in
    match r with
    | None => ret tt
    | Some r => let! m := message memerr_type flag 0 ptr_label r addr in write (encode m)
    end.

(** ** Calls into the runtime

    The runtime's own calls of the back end are the events it leaves; they touch
    nothing of the runtime, so they are made when it returns. Arguments take the
    types of the parameters. *)

Definition handle_event (e : event) : M backend unit :=
  match e with
  | trace_cond label r flag cid =>
      taint_trace_cond (u32 label) (negb (r =? 0)) (u8 flag) (u64 cid) (runtime_pc cfg)
  | trace_memerr ptr_label ptr size_label size flag =>
      taint_trace_memerr (u32 ptr_label) (u64 ptr) (u32 size_label) (u64 size) (u16 flag) (runtime_pc cfg)
  end.

Definition no_events (s : runtime) : runtime :=
  mk_rt (last_label s) (infos s) (alloca_stack_bottom s) (alloca_stack_top s) (saved_alloca_stack_top s)
    (current_saved_stack_index s) (union_table s) (alloc s) (shadow s) (app s) [].

Definition in_runtime {A} (m : M runtime A) : M backend A := fun s =>
  let '(r, s') := m (no_events (rt s)) in
  match for_each (rev (events s')) handle_event (set_rt (no_events s') s) with
  | (Ok _, b) => (r, b)
  | (Err e, b) => (Err e, b)
  end.

(** Its parameters and its result have the types of the source. *)
Definition dfsan_union (l1 l2 op size op1 op2 : Z) : M backend Z :=
  let! l := in_runtime (taint_union flags l1 l2 (u16 op) (u16 size) op1 op2) in
  ret (u32 l).

(** ** The functions for instrumented code *)

Definition taint_trace_cmp (op1 op2 size predicate c1 c2 cid addr : Z) : M backend unit :=
  if (op1 =? 0) && (op2 =? 0) then ret tt
  else
    let! stop := uninitialized op1 c1 cid addr in
    if stop : bool then ret tt
    else
      let! stop := uninitialized op2 c2 cid addr in
      if stop : bool then ret tt
      else
        let r := get_const_result c1 c2 predicate in
        let! temp := dfsan_union op1 op2 (icmp predicate) size c1 c2 in
        if negb (r =? 0) then modify (set_switch temp cid)
        else solve_cond temp r false 0 cid addr.

Definition taint_trace_switch_end (cid addr : Z) : M backend unit :=
  let! s := gets id in
  if switch_label s =? 0 then ret tt
  else if negb (switch_cid s =? cid) then ret tt
  else
    solve_cond (switch_label s) 1 true 0 cid addr ;;;
    modify (fun s => set_switch 0 (switch_cid s) s).

Definition taint_trace_select (cond_label true_label false_label r true_op false_op cid addr : Z)
    : M backend Z :=
  let chosen := if negb (r =? 0) then true_label else false_label in
  if cond_label =? 0 then ret chosen
  else
    let! stop := uninitialized cond_label r cid addr in
    if stop : bool then ret chosen
    else if negb (true_label =? 0) && (false_op =? 0) then
      let! land := dfsan_union cond_label true_label And 1 r true_op in
      solve_cond land (Z.b2z (negb (r =? 0) && negb (true_op =? 0))) true 0 cid addr ;;;
      ret land
    else if negb (false_label =? 0) && (true_op =? 1) then
      let! lor := dfsan_union cond_label false_label Or 1 r false_op in
      solve_cond lor (Z.b2z (negb (r =? 0) || negb (false_op =? 0))) true 0 cid addr ;;;
      ret lor
    else
      solve_cond cond_label r true 0 cid addr ;;;
      ret chosen.

Definition taint_trace_gep (ptr_label ptr index_label index num_elems elem_size current_offset cid addr : Z)
    : M backend unit :=
  if index_label =? 0 then ret tt
  else
    let! stop := uninitialized index_label (u64 index) cid addr in
    if stop : bool then ret tt
    else
      let! stop := uninitialized ptr_label ptr cid addr in
      if stop : bool then ret tt
      else if pipe_fd cfg <? 0 then ret tt
      else
        let! m := message gep_type 0 cid index_label (u64 index) addr in
        write (encode m) ;;;
        write (encode (mk_gep ptr_label index_label ptr (u64 index) num_elems elem_size (u64 current_offset))).

(** The bytes at an address. *)
Definition bytes_at (addr : Z) (n : nat) (s : runtime) : list Z :=
  (fun k => u8 (byte_at (addr + Z.of_nat k) s)) <$> seq 0 n.

Definition taint_trace_memcmp (label addr : Z) : M backend unit :=
  if label =? 0 then ret tt
  else
    let! stop := uninitialized label 0 0 addr in
    if stop : bool then ret tt
    else
      let! info := gets (fun s => get_label_info label (rt s)) in
      if pipe_fd cfg <? 0 then ret tt
      else
        let has_content := negb (negb (i_l1 info =? 0) && negb (i_l2 info =? 0)) in
        let! m := message memcmp_type (Z.b2z has_content) 0 label (i_size info) addr in
        write (encode m) ;;;
        if negb has_content then ret tt
        else
          let! content := gets (fun s => bytes_at (i_op1 info) (Z.to_nat (i_size info)) (rt s)) in
          write (memcmp_bytes label content).

(** [__taint_trace_indcall] and [__taint_trace_offset] only print. *)
Definition taint_trace_indcall (label : Z) : M backend unit := ret tt.
Definition taint_trace_offset (offset_label offset size : Z) : M backend unit := ret tt.

End backend.

End fastgen.
