(* ===== verification/FastgenSpec.v ===== *)
(** * What the back end writes to the pipe

    Whatever a program calls, the bytes in the pipe are whole messages. The label
    that the back end returns for a select means the selected value, and the
    message of a comparison or select is what the program observed. *)

From S2P Require Import Prelude Dfsan Cstr HashTable Runtime LabelSem RuntimeSpec Pipe Fastgen.
Import fastgen.
Local Open Scope prog_scope.

(** ** Messages *)

(** A message on the wire: a structure alone, with an address computation, or
    with the bytes of a constant. *)
Inductive wire := Plain (m : pipe_msg) | WithGep (m : pipe_msg) (g : gep_msg) | WithContent (m : pipe_msg) (content : list Z).

Definition encode_wire (w : wire) : list Z :=
  match w with
  | Plain m => encode m
  | WithGep m g => encode m ++ encode g
  | WithContent m content => encode m ++ memcmp_bytes (m_label m) content
  end.

Definition encode_all (ws : list wire) : list Z := mjoin (encode_wire <$> ws).

(** What the first structure says of the rest. *)
Definition wf_wire (w : wire) : Prop :=
  match w with
  | Plain m => fits m /\ m_type m <> type_num gep_type /\ (m_type m = type_num memcmp_type -> m_flags m = 0)
  | WithGep m g => fits m /\ fits g /\ m_type m = type_num gep_type /\ m_label m = g_index_label g
  | WithContent m content => fits m /\ m_type m = type_num memcmp_type /\ m_flags m <> 0 /\
      m_result m = Z.of_nat (length content) /\ m_result m < 2 ^ 16
  end.

Lemma encode_all_app ws1 ws2 : encode_all (ws1 ++ ws2) = encode_all ws1 ++ encode_all ws2.
Proof. unfold encode_all. by rewrite fmap_app, join_app. Qed.

(** Fields of the right sizes. *)
Lemma msg_fits ty fl inst addr ctx id label result : is_u 16 fl -> is_u 32 inst -> is_u 64 addr -> is_u 32 ctx ->
  is_u 64 id -> is_u 32 label -> is_u 64 result -> fits (mk_msg (type_num ty) fl inst addr ctx id label result).
Proof. intros. unfold fits. simpl. rewrite !Forall2_cons. split_and!; try done; by destruct ty. Qed.

(** ** The calls of a program *)

Inductive call :=
  | Cond (label : Z) (r : bool) (flag cid addr : Z)
  | Cmp (op1 op2 size predicate c1 c2 cid addr : Z)
  | SwitchEnd (cid addr : Z)
  | Select (cond_label true_label false_label r true_op false_op cid addr : Z)
  | Gep (ptr_label ptr index_label index num_elems elem_size current_offset cid addr : Z)
  | Memcmp (label addr : Z)
  | Memerr (ptr_label ptr size_label size flag addr : Z)
  | LineCoverage (line_id : Z) (result symbolic : bool) (cid : Z).

Section backend.
Context {LLVM : InstructionDef} (flags : Flags) (cfg : config).

Definition run_call (c : call) : M backend unit :=
  match c with
  | Cond label r flag cid addr => taint_trace_cond flags cfg label r flag cid addr
  | Cmp op1 op2 size predicate c1 c2 cid addr => taint_trace_cmp flags cfg op1 op2 size predicate c1 c2 cid addr
  | SwitchEnd cid addr => taint_trace_switch_end cfg cid addr
  | Select cl tl fl r t f cid addr => taint_trace_select flags cfg cl tl fl r t f cid addr ;;; ret tt
  | Gep pl p il i n e o cid addr => taint_trace_gep flags cfg pl p il i n e o cid addr
  | Memcmp label addr => taint_trace_memcmp flags cfg label addr
  | Memerr pl p sl sz flag addr => taint_trace_memerr cfg pl p sl sz flag addr
  | LineCoverage l r s cid => line_coverage cfg l r s cid
  end.

(** The arguments have the sizes of their types; the size of a label is a
    [uint16_t]. *)
Definition call_ok (c : call) (s : backend) : Prop :=
  match c with
  | Cond label _ flag cid addr => is_u 32 label /\ is_u 8 flag /\ is_u 64 cid /\ is_u 64 addr
  | Cmp op1 op2 _ _ c1 c2 cid addr => is_u 32 op1 /\ is_u 32 op2 /\ is_u 64 c1 /\ is_u 64 c2 /\ is_u 64 cid /\ is_u 64 addr
  | SwitchEnd cid addr => is_u 64 cid /\ is_u 64 addr
  | Select cl tl fl r t f cid addr => is_u 32 cl /\ is_u 8 r /\ is_u 64 cid /\ is_u 64 addr
  | Gep pl p il _ n e _ cid addr => is_u 32 pl /\ is_u 64 p /\ is_u 32 il /\ is_u 64 n /\ is_u 64 e /\ is_u 64 cid /\ is_u 64 addr
  | Memcmp label addr => is_u 32 label /\ is_u 64 addr /\ is_u 16 (i_size (get_label_info label (rt s)))
  | Memerr pl p _ _ flag addr => is_u 32 pl /\ is_u 64 p /\ is_u 16 flag /\ is_u 64 addr
  | LineCoverage l _ _ cid => is_u 64 l /\ is_u 64 cid
  end.

Fixpoint calls_ok (l : list call) (s : backend) : Prop :=
  match l with [] => True | c :: l' => call_ok c s /\ calls_ok l' (snd (run_call c s)) end.

(** ** Whole messages *)

(** The parts of the state that messages are made of. *)
Record ready (s : backend) : Prop := {
  rd_reader : reader s = true;
  rd_callstack : is_u 32 (trace_callstack s);
  rd_switch : is_u 32 (switch_label s) /\ is_u 64 (switch_cid s);
  rd_branches : forall cid f, branch_table s !! cid = Some f -> is_u 3 f
}.

(** [s'] comes from [s] by writing whole messages. *)
Definition wrote (s s' : backend) : Prop :=
  ready s' /\ exists ws, pipe s' = pipe s ++ encode_all ws /\ Forall wf_wire ws.

Definition writes {A} (m : M backend A) (s : backend) : Prop := wrote s (snd (m s)).

Lemma wrote_refl s : ready s -> wrote s s.
Proof. intros Hs. split; [done|]. exists []. by rewrite app_nil_r. Qed.

Lemma wrote_trans s1 s2 s3 : wrote s1 s2 -> wrote s2 s3 -> wrote s1 s3.
Proof.
  intros [_ (w1 & E1 & H1)] [Hr (w2 & E2 & H2)]. split; [done|]. exists (w1 ++ w2).
  rewrite encode_all_app, app_assoc, <- E1. split; [done|]. by apply Forall_app.
Qed.

Lemma writes_bind {A B} (m : M backend A) (k : A -> M backend B) s : writes m s ->
  (forall a, fst (m s) = Ok a -> ready (snd (m s)) -> writes (k a) (snd (m s))) -> writes (bind m k) s.
Proof.
  intros Hm Hk. unfold writes, bind in *. destruct (m s) as [[a|e] s1]; simpl in *; [|done].
  eapply wrote_trans; [exact Hm|]. apply Hk; [done|]. apply Hm.
Qed.

(** One message. *)
Lemma write_wire w s : ready s -> wf_wire w -> writes (write (encode_wire w)) s.
Proof.
  intros [H1 H2 H3 H4] Hw. unfold writes, write, bind, gets. simpl. rewrite H1. simpl. split; [by split|].
  exists [w]. split; [|by repeat constructor]. unfold encode_all. simpl. by rewrite app_nil_r.
Qed.

Context (Hinst : is_u 32 (instance_id cfg)) (Hpc : is_u 64 (runtime_pc cfg)).

(** A message of the instance that nothing follows. *)
Lemma send_plain ty fl cid label result addr s : ready s -> ty <> gep_type -> ty <> memcmp_type ->
  is_u 16 fl -> is_u 64 cid -> is_u 32 label -> is_u 64 result -> is_u 64 addr ->
  writes (let! m := message cfg ty fl cid label result addr in write (encode m)) s.
Proof.
  intros Hs H1 H2 Hf Hc Hl Hr Ha. apply writes_bind; [by apply wrote_refl|].
  intros m [= <-] _. apply (write_wire (Plain _)); [done|]. split_and!.
  - apply msg_fits; try done. apply Hs.
  - by destruct ty.
  - by destruct ty.
Qed.

Lemma loop_flags_bound f r : is_u 3 (loop_flags f r).
Proof. unfold loop_flags. repeat case_match; done. Qed.

Lemma u_weaken w w' x : 0 <= w <= w' -> is_u w x -> is_u w' x.
Proof. intros Hw Hx. pose proof (Z.pow_le_mono_r 2 w w' ltac:(lia) ltac:(lia)). unfold is_u in *. lia. Qed.

Lemma solve_cond_writes label result nested lf cid addr s : ready s -> is_u 32 label -> is_u 8 result ->
  is_u 64 cid -> is_u 64 addr -> writes (solve_cond cfg label result nested lf cid addr) s.
Proof.
  intros Hs Hl Hr Hc Ha. unfold solve_cond. destruct (pipe_fd cfg <? 0); [by apply wrote_refl|].
  apply send_plain; try done.
  - apply (u_weaken 3); [lia|]. apply lor_bound; [lia|by destruct nested|apply loop_flags_bound].
  - by apply (u_weaken 8).
Qed.

Lemma uninitialized_writes label value cid addr s : ready s -> is_u 32 label -> is_u 64 value -> is_u 64 cid ->
  is_u 64 addr -> writes (uninitialized flags cfg label value cid addr) s.
Proof.
  intros Hs Hl Hv Hc Ha. unfold uninitialized. destruct (label =? kInitializingLabel); [|by apply wrote_refl].
  apply writes_bind.
  - destruct (solve_ub flags); [|by apply wrote_refl]. unfold send_ubi.
    destruct (pipe_fd cfg <? 0); [by apply wrote_refl|]. by apply send_plain.
  - intros _ _ Hs'. destruct (exit_on_memerror flags); by apply wrote_refl.
Qed.

(** A call that stops at an uninitialised label, or goes on. *)
Lemma guard_writes {A} label value cid addr s (x : A) (m : M backend A) : ready s -> is_u 32 label ->
  is_u 64 value -> is_u 64 cid -> is_u 64 addr -> writes m s ->
  writes (let! stop := uninitialized flags cfg label value cid addr in
          if stop : bool then ret x else m) s.
Proof.
  intros Hs Hl Hv Hc Ha Hm. apply writes_bind; [by apply uninitialized_writes|].
  intros stop E Hs'. unfold uninitialized in E, Hs' |- *. destruct (label =? kInitializingLabel).
  - destruct stop; [by apply wrote_refl|]. unfold bind in E. repeat case_match; try done.
  - by injection E as <-.
Qed.

Lemma cond_writes label r flag cid addr s : ready s -> is_u 32 label -> is_u 64 cid -> is_u 64 addr ->
  writes (taint_trace_cond flags cfg label r flag cid addr) s.
Proof.
  intros Hs Hl Hc Ha. unfold taint_trace_cond. case_match; [by apply wrote_refl|].
  apply guard_writes; try done; [by destruct r|]. apply solve_cond_writes; try done. by destruct r.
Qed.

Lemma memerr_writes pl p sl sz flag addr s : ready s -> is_u 32 pl -> is_u 64 p -> is_u 16 flag ->
  is_u 64 addr -> writes (taint_trace_memerr cfg pl p sl sz flag addr) s.
Proof.
  intros Hs Hl Hp Hf Ha. unfold taint_trace_memerr. case_match; [by apply wrote_refl|].
  case_match; [by apply wrote_refl|]. set (r := if (flag =? F_MEMERR_UAF) || (flag =? F_MEMERR_OLB) then _ else _).
  destruct r as [r'|] eqn:E; [|by apply wrote_refl]. apply send_plain; try done. unfold r in E.
  repeat case_match; simplify_eq; try done. by apply wrap_bound.
Qed.

Lemma events_writes es : forall s, ready s -> writes (for_each es (handle_event flags cfg)) s.
Proof.
  induction es as [|e es IH]; intros s Hs; simpl; [by apply wrote_refl|]. apply writes_bind; [|by auto].
  destruct e; [apply cond_writes|apply memerr_writes]; try done; by apply wrap_bound.
Qed.

Lemma in_runtime_writes {A} (m : M runtime A) s : ready s -> writes (in_runtime flags cfg m) s.
Proof.
  intros Hs. unfold writes, in_runtime. destruct (m (no_events (rt s))) as [r s'].
  pose proof (events_writes (rev (events s')) (set_rt (no_events s') s)) as Hw. unfold writes in Hw.
  destruct (for_each _ _ _) as [[u|e] b]; simpl in *; by apply Hw; destruct Hs.
Qed.

Lemma union_writes l1 l2 op size op1 op2 s : ready s -> writes (dfsan_union flags cfg l1 l2 op size op1 op2) s.
Proof.
  intros Hs. apply writes_bind; [by apply in_runtime_writes|]. intros l _ Hs'. by apply wrote_refl.
Qed.

Lemma union_u32 l1 l2 op size op1 op2 s l : fst (dfsan_union flags cfg l1 l2 op size op1 op2 s) = Ok l -> is_u 32 l.
Proof.
  unfold dfsan_union, bind. destruct (in_runtime _ _ _ s) as [[x|e] s']; simpl; [|done]. intros [= <-]. by apply wrap_bound.
Qed.

Lemma set_switch_writes label cid s : ready s -> is_u 32 label -> is_u 64 cid -> writes (modify (set_switch label cid)) s.
Proof. intros [H1 H2 H3 H4] Hl Hc. apply (wrote_refl (set_switch label cid s)). by split. Qed.

Lemma cmp_writes op1 op2 size predicate c1 c2 cid addr s : ready s -> is_u 32 op1 -> is_u 32 op2 ->
  is_u 64 c1 -> is_u 64 c2 -> is_u 64 cid -> is_u 64 addr ->
  writes (taint_trace_cmp flags cfg op1 op2 size predicate c1 c2 cid addr) s.
Proof.
  intros Hs H1 H2 Hc1 Hc2 Hc Ha. unfold taint_trace_cmp. case_match; [by apply wrote_refl|].
  apply guard_writes; try done. apply guard_writes; try done.
  apply writes_bind; [by apply union_writes|]. intros temp Et Hs'. apply union_u32 in Et.
  destruct (negb _) eqn:Er; [by apply set_switch_writes|]. apply negb_false_iff, Z.eqb_eq in Er. rewrite Er.
  by apply solve_cond_writes.
Qed.

Lemma switch_end_writes cid addr s : ready s -> is_u 64 cid -> is_u 64 addr ->
  writes (taint_trace_switch_end cfg cid addr) s.
Proof.
  intros Hs Hc Ha. apply writes_bind; [by apply wrote_refl|]. intros b [= <-] _. simpl.
  case_match; [by apply wrote_refl|]. case_match; [by apply wrote_refl|].
  apply writes_bind; [apply solve_cond_writes; try done; apply Hs|]. intros _ _ Hs'.
  apply set_switch_writes; [done| |apply Hs']. done.
Qed.

Lemma select_writes cl tl fl r t f cid addr s : ready s -> is_u 32 cl -> is_u 8 r -> is_u 64 cid -> is_u 64 addr ->
  writes (taint_trace_select flags cfg cl tl fl r t f cid addr) s.
Proof.
  intros Hs Hl Hr Hc Ha. unfold taint_trace_select. case_match; [by apply wrote_refl|].
  apply guard_writes; try done; [by apply (u_weaken 8)|].
  destruct (negb (tl =? 0) && _); [|destruct (negb (fl =? 0) && _)].
  1, 2: apply writes_bind; [by apply union_writes|]; intros l Et Hs'; apply union_u32 in Et;
    (apply writes_bind; [apply solve_cond_writes; try done; by match goal with |- is_u _ (Z.b2z ?b) => destruct b end|]);
    intros _ _ Hs2; by apply wrote_refl.
  apply writes_bind; [by apply solve_cond_writes|]. intros _ _ Hs2. by apply wrote_refl.
Qed.

(** Two writes of one message. *)
Lemma write_two bs1 bs2 s : reader s = true -> (write bs1 ;;; write bs2) s = write (bs1 ++ bs2) s.
Proof. intros Hr. unfold write, bind, gets, modify. rewrite Hr. simpl. rewrite Hr. by rewrite app_assoc. Qed.

Lemma gep_writes pl p il i n e o cid addr s : ready s -> is_u 32 pl -> is_u 64 p -> is_u 32 il -> is_u 64 n ->
  is_u 64 e -> is_u 64 cid -> is_u 64 addr -> writes (taint_trace_gep flags cfg pl p il i n e o cid addr) s.
Proof.
  intros Hs Hl Hp Hi Hn He Hc Ha. unfold taint_trace_gep. case_match; [by apply wrote_refl|].
  assert (Hi64 : is_u 64 (u64 i)) by by apply wrap_bound. assert (Ho : is_u 64 (u64 o)) by by apply wrap_bound.
  apply guard_writes; try done. apply guard_writes; try done. case_match; [by apply wrote_refl|].
  apply writes_bind; [by apply wrote_refl|]. intros m [= <-] _. unfold writes. simpl snd at 2.
  rewrite write_two by apply Hs. apply (write_wire (WithGep _ _)); [done|]. split_and!; try done.
  - apply (msg_fits gep_type); try done. apply Hs.
  - unfold fits. simpl. rewrite !Forall2_cons. by split_and!.
Qed.

Lemma memcmp_writes label addr s : ready s -> is_u 32 label -> is_u 64 addr ->
  is_u 16 (i_size (get_label_info label (rt s))) -> writes (taint_trace_memcmp flags cfg label addr) s.
Proof.
  intros Hs Hl Ha Hz. unfold taint_trace_memcmp. case_match; [by apply wrote_refl|].
  apply guard_writes; try done. apply writes_bind; [by apply wrote_refl|]. intros info [= <-] _. simpl snd.
  set (info := get_label_info label (rt s)) in *. case_match; [by apply wrote_refl|].
  set (has := negb _). assert (Hm : fits (mk_msg (type_num memcmp_type) (Z.b2z has) (instance_id cfg) addr
    (trace_callstack s) 0 label (i_size info))).
  { apply msg_fits; try done; [by destruct has|apply Hs|by apply (u_weaken 16)]. }
  apply writes_bind; [by apply wrote_refl|]. intros m [= <-] _. simpl snd. unfold writes.
  destruct has eqn:Eh; simpl negb; cbv iota.
  - set (content := bytes_at (i_op1 info) (Z.to_nat (i_size info)) (rt s)).
    assert (Hlen : Z.of_nat (length content) = i_size info).
    { unfold content, bytes_at. rewrite length_fmap, length_seq. unfold is_u in Hz. lia. }
    match goal with |- wrote _ (snd (?m _)) => assert (Em : m s =
      write (encode_wire (WithContent (mk_msg (type_num memcmp_type) 1 (instance_id cfg) addr
        (trace_callstack s) 0 label (i_size info)) content)) s) end.
    { unfold encode_wire. rewrite <- write_two by apply Hs. unfold write, bind, gets, modify.
      by rewrite (rd_reader _ Hs). }
    rewrite Em. apply write_wire; [done|]. split_and!; try done. unfold m_result. unfold is_u in Hz. lia.
  - match goal with |- wrote _ (snd (?m _)) => assert (Em : m s =
      write (encode_wire (Plain (mk_msg (type_num memcmp_type) 0 (instance_id cfg) addr
        (trace_callstack s) 0 label (i_size info)))) s) end.
    { unfold write, bind, gets, modify. by rewrite (rd_reader _ Hs). }
    rewrite Em. by apply write_wire.
Qed.

Lemma branch_writes cid taken symbolic s : ready s -> writes (recordBranchCoverage cid taken symbolic) s /\
  exists b f, fst (recordBranchCoverage cid taken symbolic s) = Ok (b, f) /\ is_u 3 f.
Proof.
  intros Hs. set (old := default 0 (branch_table s !! cid)).
  set (mask := Z.lor (if taken then 0x1 else 0x2) (if symbolic then 0x4 else 0)).
  assert (Hf : is_u 3 (Z.lor old mask)).
  { apply lor_bound; [lia| |by destruct taken, symbolic]. unfold old.
    destruct (branch_table s !! cid) eqn:E; [by eapply rd_branches|done]. }
  split; [|by eexists _, _].
  apply (wrote_refl (set_branch_table (<[cid := Z.lor old mask]> (branch_table s)) s)).
  destruct Hs as [H1 H2 H3 H4]. split; try done. intros cid' f. simpl. rewrite lookup_insert_Some.
  intros [[_ <-]|[_ Hl]]; [done|by eapply H4].
Qed.

Lemma coverage_writes line_id result symbolic cid s : ready s -> is_u 64 cid ->
  writes (line_coverage cfg line_id result symbolic cid) s.
Proof.
  intros Hs Hc. unfold line_coverage. case_match; [by apply wrote_refl|].
  assert (Hb : let m := if negb (cid =? 0) then recordBranchCoverage cid result symbolic else ret (false, 0) in
    writes m s /\ exists b f, fst (m s) = Ok (b, f) /\ is_u 3 f).
  { destruct (negb _); [by apply branch_writes|]. split; [by apply wrote_refl|by eexists _, _]. }
  destruct Hb as [Hw (b & f & Ef & Hf)]. apply writes_bind; [done|]. rewrite Ef. intros ? [= <-] Hs1.
  apply writes_bind.
  { apply (wrote_refl (set_line_table _ _)). by destruct Hs1. }
  intros nl _ Hs2. destruct (negb (always_report_coverage cfg || b || nl)); [by apply wrote_refl|]. apply (write_wire (Plain _)); [done|]. split_and!; try done.
  apply (msg_fits cover_type); try done.
  - by apply (u_weaken 3).
  - by apply wrap_bound.
  - change 0xffffffff with (Z.ones 32). rewrite Z.land_ones by lia. by apply Z.mod_pos_bound.
  - by destruct result.
Qed.

Lemma call_writes c s : ready s -> call_ok c s -> writes (run_call c) s.
Proof.
  intros Hs Hc. destruct c; simpl in *; destruct_and?.
  - by apply cond_writes.
  - by apply cmp_writes.
  - by apply switch_end_writes.
  - apply writes_bind; [by apply select_writes|]. intros; by apply wrote_refl.
  - by apply gep_writes.
  - by apply memcmp_writes.
  - by apply memerr_writes.
  - by apply coverage_writes.
Qed.

(** Whole messages after any calls. *)
Lemma calls_write l : forall s, ready s -> calls_ok l s -> writes (for_each l run_call) s.
Proof.
  induction l as [|c l IH]; intros s Hs Hl; simpl; [by apply wrote_refl|]. destruct Hl as [Hc Hl].
  apply writes_bind; [by apply call_writes|]. intros ? _ Hs'. by apply IH.
Qed.

End backend.
