(* ===== verification/TraceSpec.v ===== *)
(** * What the messages of selects and switches mean

    The labels that the back end makes for a select and for the cases of a switch
    mean what the program computed, the messages carry what it observed, and the
    case that a switch takes is sent last. A select whose false arm is symbolic
    can get a wrong label. *)

From S2P Require Import Prelude Dfsan Cstr HashTable Runtime LabelSem RuntimeSpec TotalSpec InputSpec Pipe Fastgen FastgenSpec.
Import fastgen.
Local Open Scope prog_scope.

(** ** Labels of the back end *)

Section trace.
Context {LLVM : InstructionDef}.

(** The runtime is well-formed and has room for [j] labels, and the reader
    listens. *)
Record live (j : Z) (s : backend) : Prop := {
  lv_wf : rt_wf (rt s);
  lv_sized : sized (infos (rt s)) (last_label (rt s));
  lv_room : room (rt s) j;
  lv_reader : reader s = true
}.

(** A label of one bit, or of [w] bits, that is not a bound. *)
Record value_label (s : runtime) (w l : Z) : Prop := {
  vl_range : 1 <= l <= last_label s;
  vl_width : label_width (infos s) l = w;
  vl_bounds : i_op (info_at (infos s) l) <> Alloca
}.

(** A label of [w] bits, or the constant [v] of so many bits. *)
Definition operand_ok (s : runtime) (w l v : Z) : Prop := is_u w v /\ (l = 0 \/ value_label s w l).
Definition operand_value (s : runtime) (env : input_env) (l v : Z) : Z :=
  if l =? 0 then v else eval (infos s) env l.

(** [l] has the value [f], or is zero, and [f] does not depend on the input. *)
Definition names (s : runtime) (l : Z) (f : input_env -> Z) : Prop :=
  (l = 0 /\ exists c, forall env, f env = c) \/ (1 <= l <= last_label s /\ forall env, eval (infos s) env l = f env).

Lemma live_mono j k s : k <= j -> live j s -> live k s.
Proof. intros Hk [H1 H2 H3 H4]. split; try done. by eapply room_mono. Qed.

Context (flags : Flags) (cfg : config).
Context (Hub : solve_ub flags = false) (Hfd : 0 <= pipe_fd cfg).

(** The runtime without its events is as good. *)
Lemma live_quiet j s : live j s -> rt_wf (no_events (rt s)) /\ room (no_events (rt s)) j.
Proof. intros [[] _ [] _]. by split. Qed.

(** A union from the back end: it returns, its label answers the request, and
    nothing is sent. *)
Lemma union_run j s l1 l2 op sz a b : live (7 + j) s -> 0 <= j -> is_u 16 op ->
  good_request (rt s) (mk_info l1 l2 a b op sz 0) ->
  exists l r, dfsan_union flags cfg l1 l2 op sz a b s = (Ok l, set_rt r s) /\ live j (set_rt r s) /\
    extends (rt s) r /\ answers (rt s) r (mk_info l1 l2 a b op sz 0) l.
Proof.
  intros Hs Hj Hop Hg. destruct (live_quiet _ _ Hs) as [Hw Hr]. pose proof (lv_sized _ _ Hs) as Hsz.
  destruct (gr_sized _ _ Hg) as [Hz _]. simpl in Hz.
  destruct (taint_union_run flags (last_label (rt s)) l1 l2 op sz a b (gr_l1 _ _ Hg) (gr_l2 _ _ Hg)
    (no_events (rt s)) j Hw Hj ltac:(simpl; lia) Hr) as (l & r & E & Hwr & He & Hrr).
  assert (good_request (no_events (rt s)) (mk_info l1 l2 a b op sz 0)) as Hg' by (destruct Hg; by split).
  destruct (taint_union_answers flags _ _ _ _ _ _ _ _ _ Hw Hsz Hg' E) as (_ & _ & Ha & Hszr).
  pose proof (taint_union_silent flags _ _ _ _ _ _ _ _ _ Hw Hub E) as Hev.
  assert (u32 l = l) as El.
  { apply wrap_small. pose proof (wf_last _ Hwr). pose proof (wf_top _ Hwr). unfold is_u.
    destruct Ha as [[-> _]|[Hl _]]; lia. }
  exists l, (no_events r). split_and!.
  - unfold dfsan_union, bind, in_runtime. replace (u16 op) with op by (symmetry; by apply wrap_small).
    replace (u16 sz) with sz by (symmetry; apply wrap_small; unfold is_u; lia).
    rewrite E, Hev. simpl. unfold ret. by rewrite El.
  - split; [by destruct Hwr|by apply Hszr|by destruct Hrr|apply Hs].
  - by destruct He.
  - exact Ha.
Qed.

(** One message about a condition. *)
Lemma solve_cond_run label result nested lf cid addr s : reader s = true ->
  solve_cond cfg label result nested lf cid addr s =
    (Ok tt, set_pipe (pipe s ++ encode (mk_msg (type_num cond_type)
       (Z.lor (if nested then F_ADD_CONS else 0) (loop_flags lf (negb (result =? 0)))) (instance_id cfg) addr
       (trace_callstack s) cid label result)) s).
Proof.
  intros Hr. unfold solve_cond. rewrite (proj2 (Z.ltb_ge (pipe_fd cfg) 0)) by lia.
  unfold message, write, bind, ret, gets, modify. cbv beta iota. by rewrite Hr.
Qed.

(** *** Bits *)

Lemma bit_value j s l env : live j s -> value_label (rt s) 1 l ->
  eval (infos (rt s)) env l = 0 \/ eval (infos (rt s)) env l = 1.
Proof.
  intros Hs [Hl Hw _].
  pose proof (eval_bound _ env _ (wf_dag _ (lv_wf _ _ Hs)) (lv_sized _ _ Hs) l Hl) as Hb. rewrite Hw in Hb.
  unfold is_u in Hb. lia.
Qed.

Lemma bit_request s c o cv ov op : op = And \/ op = Or -> value_label s 1 c -> value_label s 1 o ->
  good_request s (mk_info c o cv ov op 1 0).
Proof.
  intros Hop [H1 H2 H3] [H4 H5 H6]. pose proof instruction_order.
  assert (is_binary op = true) as Hb by (destruct Hop as [-> | ->]; by unfold is_binary; rewrite Z.eqb_refl, ?orb_true_r).
  split; simpl; try done; [lia|lia| | |].
  - unfold well_sized. simpl. split; [done|].
    rewrite Hb, orb_true_l.
    repeat match goal with |- context [op =? ?x] =>
      rewrite (proj2 (Z.eqb_neq op x)) by (unfold_ops; destruct Hop as [-> | ->]; lia) end. done.
  - unfold supported. by rewrite Hb; auto 10.
  - destruct Hop as [-> | ->]; unfold_ops; lia.
Qed.

Lemma and_value s env c o cv ov : value_label s 1 c -> value_label s 1 o ->
  request_value (infos s) env (mk_info c o cv ov And 1 0) = Z.land (eval (infos s) env c) (eval (infos s) env o).
Proof.
  intros [H1 _ _] [H2 _ _]. unfold request_value, info_value, operand1, operand2, op_value. simpl.
  rewrite (proj2 (Z.eqb_neq c 0)), (proj2 (Z.eqb_neq o 0)) by lia. by ops.
Qed.

Lemma or_value s env c o cv ov : value_label s 1 c -> value_label s 1 o ->
  request_value (infos s) env (mk_info c o cv ov Or 1 0) = Z.lor (eval (infos s) env c) (eval (infos s) env o).
Proof.
  intros [H1 _ _] [H2 _ _]. unfold request_value, info_value, operand1, operand2, op_value. simpl.
  rewrite (proj2 (Z.eqb_neq c 0)), (proj2 (Z.eqb_neq o 0)) by lia. by ops.
Qed.

(** The conjunction or disjunction of two labels, sent with what was observed. *)
Lemma logic_run s c o cv ov op x cid addr (f : input_env -> Z) : op = And \/ op = Or -> live 7 s ->
  value_label (rt s) 1 c -> value_label (rt s) 1 o ->
  (forall env, request_value (infos (rt s)) env (mk_info c o cv ov op 1 0) = f env) ->
  exists l r, (let! l := dfsan_union flags cfg c o op 1 cv ov in
               solve_cond cfg l x true 0 cid addr ;;; ret l) s =
      (Ok l, set_pipe (pipe s ++ encode (mk_msg (type_num cond_type) F_ADD_CONS (instance_id cfg) addr
         (trace_callstack s) cid l x)) (set_rt r s)) /\
    live 0 (set_rt r s) /\ extends (rt s) r /\ names r l f.
Proof.
  intros Hop Hs Hc Ho Hf.
  assert (is_u 16 op) as H16 by (pose proof instruction_order; unfold is_u; destruct Hop as [-> | ->]; lia).
  destruct (union_run 0 s c o op 1 cv ov Hs ltac:(lia) H16 (bit_request _ _ _ _ _ _ Hop Hc Ho))
    as (l & r & E & Hl & He & Ha).
  exists l, r. split_and!; [|done..|].
  - erewrite bind_eq by exact E. unfold bind. rewrite solve_cond_run by apply Hs. done.
  - destruct Ha as [[-> [k Hk]]|[Hr Hv]].
    + left. split; [done|]. exists k. intros env. by rewrite <- Hf.
    + right. split; [done|]. intros env. by rewrite Hv, Hf.
Qed.

(** What a select computes. *)
Definition select_value (s : runtime) (c tl tv fl fv : Z) (env : input_env) : Z :=
  if eval (infos s) env c =? 1 then operand_value s env tl tv else operand_value s env fl fv.

Lemma not_uninitialized label value cid addr s : 1 <= label <= last_label (rt s) -> rt_wf (rt s) ->
  uninitialized flags cfg label value cid addr s = (Ok false, s).
Proof.
  intros Hl Hw. pose proof (wf_last _ Hw). pose proof (wf_top _ Hw). unfold uninitialized.
  rewrite (proj2 (Z.eqb_neq label kInitializingLabel)) by (unfold kInitializingLabel; lia). done.
Qed.

Lemma and_select j s c o ov env : live j s -> value_label (rt s) 1 c -> value_label (rt s) 1 o ->
  Z.land (eval (infos (rt s)) env c) (eval (infos (rt s)) env o) = select_value (rt s) c o ov 0 0 env.
Proof.
  intros Hs Hc Ho. pose proof (vl_range _ _ _ Ho). unfold select_value, operand_value.
  rewrite (proj2 (Z.eqb_neq o 0)) by lia.
  destruct (bit_value j s c env Hs Hc) as [-> | ->], (bit_value j s o env Hs Ho) as [-> | ->]; done.
Qed.

Lemma or_select j s c o ov env : live j s -> value_label (rt s) 1 c -> value_label (rt s) 1 o ->
  Z.lor (eval (infos (rt s)) env c) (eval (infos (rt s)) env o) = select_value (rt s) c 0 1 o ov env.
Proof.
  intros Hs Hc Ho. pose proof (vl_range _ _ _ Ho). unfold select_value, operand_value.
  rewrite (proj2 (Z.eqb_neq o 0)) by lia.
  destruct (bit_value j s c env Hs Hc) as [-> | ->], (bit_value j s o env Hs Ho) as [-> | ->]; done.
Qed.

(** C38: the label and the message of a boolean select with a constant arm. A
    select that is a logical and, or a logical or, gets a label that has the value
    of the select on every input (or the label zero, when that value is the same
    on every input), and the message says that this label had the value the select
    had in the run. Any other select gets the label of the arm that was taken, and
    the message says that the condition had its observed value; on every input
    with this value the label has the value of the select. *)
Theorem select_label s c tl fl r tv fv cid addr env0 :
  live 7 s -> value_label (rt s) 1 c -> operand_ok (rt s) 1 tl tv -> operand_ok (rt s) 1 fl fv -> tl = 0 \/ fl = 0 ->
  eval (infos (rt s)) env0 c = r -> operand_value (rt s) env0 tl tv = tv -> operand_value (rt s) env0 fl fv = fv ->
  let logical := (negb (tl =? 0) && (fv =? 0)) || (negb (fl =? 0) && (tv =? 1)) in
  let value := select_value (rt s) c tl tv fl fv in
  exists l r' m, taint_trace_select flags cfg c tl fl r tv fv cid addr s =
      (Ok l, set_pipe (pipe s ++ encode m) (set_rt r' s)) /\
    live 0 (set_rt r' s) /\ extends (rt s) r' /\ m_type m = type_num cond_type /\ m_flags m = F_ADD_CONS /\
    if logical then names r' l value /\ m_label m = l /\ m_result m = value env0
    else l = (if r =? 1 then tl else fl) /\ m_label m = c /\ m_result m = r /\
      forall env, eval (infos (rt s)) env c = r -> operand_value (rt s) env l (if r =? 1 then tv else fv) = value env.
Proof.
  intros Hs Hc [Htv Ht] [Hfv Hf] Hconst Er Et Ef logical value. pose proof (bit_value _ _ c env0 Hs Hc) as Hr.
  rewrite Er in Hr. unfold taint_trace_select. pose proof (vl_range _ _ _ Hc) as Hcr.
  rewrite (proj2 (Z.eqb_neq c 0)) by lia. erewrite bind_eq by (apply not_uninitialized; [done|apply Hs]). cbv iota.
  unfold logical. destruct (negb (tl =? 0) && (fv =? 0)) eqn:Eand; [|destruct (negb (fl =? 0) && (tv =? 1)) eqn:Eor].
  - apply andb_true_iff in Eand as [Etl%negb_true_iff%Z.eqb_neq Efv%Z.eqb_eq].
    assert (fl = 0) as -> by tauto. destruct Ht as [?|Ht]; [done|]. subst fv.
    destruct (logic_run s c tl r tv And (Z.b2z (negb (r =? 0) && negb (tv =? 0))) cid addr value
      ltac:(by left) Hs Hc Ht) as (l & r' & E & Hl & He & Hn).
    { intros env. rewrite and_value by done. by apply (and_select 7). }
    eexists l, r', _. split; [exact E|]. split_and!; [done..|]. simpl m_result. unfold value, select_value.
    rewrite Er, Et. change (operand_value (rt s) env0 0 0) with 0. unfold is_u in Htv.
    assert (tv = 0 \/ tv = 1) as [-> | ->] by lia; by destruct Hr as [-> | ->].
  - apply andb_true_iff in Eor as [Efl%negb_true_iff%Z.eqb_neq Etv%Z.eqb_eq].
    assert (tl = 0) as -> by tauto. destruct Hf as [?|Hf]; [done|]. subst tv.
    destruct (logic_run s c fl r fv Or (Z.b2z (negb (r =? 0) || negb (fv =? 0))) cid addr value
      ltac:(by right) Hs Hc Hf) as (l & r' & E & Hl & He & Hn).
    { intros env. rewrite or_value by done. by apply (or_select 7). }
    eexists l, r', _. split; [exact E|]. split_and!; [done..|]. simpl m_result. unfold value, select_value.
    rewrite Er, Ef. change (operand_value (rt s) env0 0 1) with 1. unfold is_u in Hfv.
    assert (fv = 0 \/ fv = 1) as [-> | ->] by lia; by destruct Hr as [-> | ->].
  - eexists _, (rt s), _. split.
    { unfold bind. rewrite solve_cond_run by apply Hs. simpl loop_flags. by destruct s. }
    split_and!; [by destruct s; apply (live_mono 7)|done|done|done|]. change (false || false) with false.
    cbv iota. split_and!; [by destruct Hr as [-> | ->]|done..|]. intros env Ec. unfold value, select_value.
    rewrite Ec. by destruct Hr as [-> | ->].
Qed.

(** A boolean select of two symbolic arms, whose false arm was false in the
    run, is taken for a logical and: its label has the value 0 on every input on
    which the condition is false and the false arm is true, where the select has
    the value 1. *)
Theorem select_symbolic_false s c tl fl r tv cid addr :
  live 7 s -> value_label (rt s) 1 c -> value_label (rt s) 1 tl -> value_label (rt s) 1 fl ->
  exists l s', taint_trace_select flags cfg c tl fl r tv 0 cid addr s = (Ok l, s') /\
    (l <> 0 -> forall env, eval (infos (rt s)) env c = 0 -> eval (infos (rt s)) env fl = 1 ->
       eval (infos (rt s')) env l = 0 /\ select_value (rt s) c tl tv fl 0 env = 1).
Proof.
  intros Hs Hc Ht Hf. unfold taint_trace_select. pose proof (vl_range _ _ _ Hc) as Hcr.
  pose proof (vl_range _ _ _ Ht). pose proof (vl_range _ _ _ Hf).
  rewrite (proj2 (Z.eqb_neq c 0)) by lia. erewrite bind_eq by (apply not_uninitialized; [done|apply Hs]). cbv iota.
  rewrite (proj2 (Z.eqb_neq tl 0)) by lia. simpl andb. cbv iota.
  destruct (logic_run s c tl r tv And (Z.b2z (negb (r =? 0) && negb (tv =? 0))) cid addr _
    ltac:(by left) Hs Hc Ht (fun env => and_value _ env c tl r tv Hc Ht)) as (l & r' & E & _ & _ & Hn).
  exists l. eexists. split; [exact E|]. intros Hl env Ec Ef. destruct Hn as [[-> _]|[_ Hv]]; [done|].
  simpl. rewrite Hv, Ec. split; [done|]. unfold select_value, operand_value. rewrite Ec.
  by rewrite (proj2 (Z.eqb_neq fl 0)) by lia.
Qed.



(** ** Switches *)

(** The calls that the compiler pass puts before a switch on a value of [size]
    bits: one for every case, with the address it returns to, and one at the end. *)
Definition trace_switch (label size value : Z) (cases : list (Z * Z)) (cid addr : Z) : M backend unit :=
  for_each cases (fun c => taint_trace_cmp flags cfg label 0 size bveq value (fst c) cid (snd c)) ;;;
  taint_trace_switch_end cfg cid addr.

(** The messages of the cases, given their labels. *)
Definition other_cases (ctx cid value : Z) (l : list (Z * Z * Z)) : list pipe_msg :=
  omap (fun '(c, a, t) => if value =? c then None
    else Some (mk_msg (type_num cond_type) 0 (instance_id cfg) a ctx cid t 0)) l.
Definition taken_case (ctx cid addr value : Z) (l : list (Z * Z * Z)) : list pipe_msg :=
  omap (fun '(c, a, t) => if (value =? c) && negb (t =? 0)
    then Some (mk_msg (type_num cond_type) F_ADD_CONS (instance_id cfg) addr ctx cid t 1) else None) l.

Definition case_value (s : runtime) (label c : Z) (env : input_env) : Z := Z.b2z (eval (infos s) env label =? c).

Lemma is_icmp_bveq : is_icmp (icmp bveq) = true.
Proof.
  unfold is_icmp. rewrite icmp_range by done. pose proof instruction_order. change 0xff with (Z.ones 8).
  rewrite Z.land_ones by lia. apply Z.eqb_eq. rewrite Z.mul_comm, Z.mod_add by lia. apply Z.mod_small. lia.
Qed.

Lemma case_request s w l v c : rt_wf s -> 0 < w < 2 ^ 16 -> value_label s w l ->
  good_request s (mk_info l 0 v c (icmp bveq) w 0).
Proof.
  intros Hs Hw [H1 H2 H3]. pose proof instruction_order. pose proof (icmp_range bveq ltac:(done)) as Hi.
  assert (bveq = 32) as Hbv by done. rewrite Hbv in Hi. pose proof (wf_last _ Hs).
  assert (forall op, 0 <= op < 256 -> (icmp 32 =? op) = false) as Hne by (intros; apply Z.eqb_neq; lia).
  assert (is_binary (icmp 32) = false) as Hb.
  { unfold is_binary. rewrite !Hne by lia. done. }
  rewrite Hbv. split; simpl; try done; [lia|lia| | | | |].
  - unfold well_sized. simpl. split; [done|]. rewrite !Hne by (unfold_ops; lia). simpl.
    change (is_icmp (icmp 32)) with (is_icmp (icmp bveq)). rewrite is_icmp_bveq, orb_true_r. split; [done|]. intros ?; lia.
  - unfold supported. rewrite <- Hbv. rewrite is_icmp_bveq. auto 10.
  - by rewrite Hb.
  - rewrite (wf_const _ Hs). simpl. lia.
  - lia.
Qed.

Lemma case_request_value s env w l v c : 1 <= l -> is_u w c ->
  request_value (infos s) env (mk_info l 0 v c (icmp bveq) w 0) = case_value s l c env.
Proof.
  intros Hl Hc. unfold request_value, info_value, operand1, operand2, width2. simpl.
  pose proof instruction_order. pose proof (icmp_range bveq ltac:(done)) as Hi. change bveq with 32 in *.
  assert (forall op, 0 <= op < 256 -> (icmp 32 =? op) = false) as Hne by (intros; apply Z.eqb_neq; lia).
  rewrite !Hne by (unfold_ops; lia). rewrite (proj2 (Z.eqb_neq l 0)) by lia.
  rewrite op_value_icmp by exact is_icmp_bveq. assert (Z.shiftr (icmp 32) 8 = 32) as ->.
  { rewrite Hi, Z.shiftr_div_pow2 by lia. symmetry. apply (Z.div_unique _ _ 32 ICmp); lia. }
  unfold cmp_value. simpl. rewrite wrap_small by done. done.
Qed.

(** Labels keep their meaning. *)
Lemma extends_eval s s' env l : rt_wf s -> extends s s' -> 1 <= l <= last_label s ->
  eval (infos s') env l = eval (infos s) env l.
Proof. intros Hs He Hl. apply (eval_agree _ _ env (last_label s)); [apply Hs|apply He|done]. Qed.

Lemma extends_names s s' l f : rt_wf s -> extends s s' -> names s l f -> names s' l f.
Proof.
  intros Hs He [[-> H]|[Hl H]]; [by left|right]. pose proof (ext_last _ _ He). split; [lia|]. intros env.
  by rewrite (extends_eval s).
Qed.

Lemma extends_label s s' w l : extends s s' -> value_label s w l -> value_label s' w l.
Proof.
  intros He [H1 H2 H3]. pose proof (ext_last _ _ He). split; [lia|..];
    unfold label_width in *; by rewrite (ext_infos _ _ He) by lia.
Qed.

(** One case. *)
Definition case_state (value cid c a t : Z) (r : runtime) (s : backend) : backend :=
  if value =? c then set_switch t cid (set_rt r s)
  else set_pipe (pipe s ++ encode (mk_msg (type_num cond_type) 0 (instance_id cfg) a (trace_callstack s) cid t 0))
         (set_rt r s).

Lemma case_run j s w label value c cid a : live (7 + j) s -> 0 <= j -> 0 < w < 2 ^ 16 -> value_label (rt s) w label ->
  is_u w c -> exists t r, taint_trace_cmp flags cfg label 0 w bveq value c cid a s =
      (Ok tt, case_state value cid c a t r s) /\
    live j (case_state value cid c a t r s) /\ extends (rt s) r /\ names r t (case_value (rt s) label c).
Proof.
  intros Hs Hj Hw Hl Hc. pose proof (vl_range _ _ _ Hl) as Hr. unfold taint_trace_cmp.
  rewrite (proj2 (Z.eqb_neq label 0)) by lia. rewrite andb_false_l.
  erewrite bind_eq by (apply not_uninitialized; [done|apply Hs]). cbv iota.
  erewrite bind_eq by done. cbv iota.
  assert (is_u 16 (icmp bveq)) as H16.
  { pose proof instruction_order. rewrite icmp_range by done. change bveq with 32. unfold is_u. lia. }
  destruct (union_run j s label 0 (icmp bveq) w value c Hs Hj H16 (case_request _ _ _ _ _ (lv_wf _ _ Hs) Hw Hl))
    as (t & r & E & Hlr & He & Ha).
  exists t, r. erewrite bind_eq by exact E. unfold get_const_result, case_state. rewrite Z.eqb_refl.
  split_and!; [| |done|].
  - destruct (value =? c); [done|]. change (negb (Z.b2z false =? 0)) with false. cbv iota.
    by rewrite solve_cond_run by apply Hs.
  - by destruct (value =? c); destruct Hlr.
  - destruct Ha as [[-> [k Hk]]|[Ht Hv]].
    + left. split; [done|]. exists k. intros env. by rewrite <- (case_request_value _ env w label value c ltac:(lia) Hc).
    + right. split; [done|]. intros env. by rewrite Hv, (case_request_value _ env w label value c ltac:(lia) Hc).
Qed.



(** The case that is kept for the end. *)
Definition pend (cid value : Z) (sw : Z * Z) (x : Z * Z * Z) : Z * Z :=
  let '(c, _, t) := x in if value =? c then (t, cid) else sw.

Lemma cases_run w label value cid : 0 < w < 2 ^ 16 -> forall cases j s, live (7 * Z.of_nat (length cases) + j) s -> 0 <= j ->
  value_label (rt s) w label -> Forall (fun c => is_u w (fst c)) cases ->
  exists ts s', for_each cases (fun c => taint_trace_cmp flags cfg label 0 w bveq value (fst c) cid (snd c)) s = (Ok tt, s') /\
    live j s' /\ extends (rt s) (rt s') /\
    Forall2 (fun c t => names (rt s') t (case_value (rt s) label (fst c))) cases ts /\
    pipe s' = pipe s ++ encode_all (Plain <$> other_cases (trace_callstack s) cid value (zip cases ts)) /\
    trace_callstack s' = trace_callstack s /\
    (switch_label s', switch_cid s') = foldl (pend cid value) (switch_label s, switch_cid s) (zip cases ts).
Proof.
  intros Hw cases. induction cases as [|[c a] cases IH]; intros j s Hs Hj Hl Hc.
  { exists [], s. split_and!; [done| |done|constructor| |done|done].
    - eapply live_mono; [|exact Hs]. simpl. lia.
    - unfold encode_all. simpl. by rewrite app_nil_r. }
  apply Forall_cons in Hc as [Hc Hcs]. simpl length in Hs.
  destruct (case_run (7 * Z.of_nat (length cases) + j) s w label value c cid a) as (t & r & E & Hlive & He & Hn);
    [|lia|done..|].
  { eapply live_mono; [|exact Hs]. lia. }
  set (s1 := case_state value cid c a t r s) in *.
  assert (rt s1 = r) as Er by (unfold s1, case_state; by destruct (value =? c)).
  assert (trace_callstack s1 = trace_callstack s) as Ec by (unfold s1, case_state; by destruct (value =? c)).
  destruct (IH j s1 Hlive Hj) as (ts & s2 & E2 & Hlive2 & He2 & Hn2 & Hp2 & Hc2 & Hsw2); [|done|].
  { rewrite Er. by eapply extends_label. }
  rewrite Er in He2. pose proof (lv_wf _ _ Hlive) as Hwf. rewrite Er in Hwf.
  exists (t :: ts), s2. split_and!; [|done|by etrans| | |by rewrite Hc2|].
  - cbn [for_each]. by erewrite bind_eq by exact E.
  - constructor; [by eapply extends_names|]. eapply Forall2_impl; [exact Hn2|]. intros c' t' [[-> [k H]]|[Ht H]].
    + left. split; [done|]. exists k. intros env. rewrite <- (H env). unfold case_value.
      by rewrite Er, (extends_eval (rt s) r) by (apply Hs || done || apply Hl).
    + right. split; [done|]. intros env. rewrite H. unfold case_value.
      by rewrite Er, (extends_eval (rt s) r) by (apply Hs || done || apply Hl).
  - rewrite Hp2, Ec. unfold s1, case_state, other_cases. cbn [zip_with omap list_omap].
    destruct (value =? c); [done|]. simpl pipe. rewrite <- app_assoc. done.
  - rewrite Hsw2. unfold s1, case_state. simpl foldl. by destruct (value =? c).
Qed.

(** Cases are different, so at most one is taken. *)
Lemma pend_other cid value ctx addr l : forall sw, value ∉ (fst ∘ fst <$> l) ->
  foldl (pend cid value) sw l = sw /\ taken_case ctx cid addr value l = [].
Proof.
  induction l as [|[[c a] t] l IH]; intros sw Hn; [done|]. simpl in Hn. apply not_elem_of_cons in Hn as [Hne Hn].
  simpl. rewrite (proj2 (Z.eqb_neq value c)) by done. by apply IH.
Qed.

Lemma pend_taken cid value ctx addr l : NoDup (fst ∘ fst <$> l) -> forall c0,
  let sw := foldl (pend cid value) (0, c0) l in
  taken_case ctx cid addr value l =
    (if fst sw =? 0 then [] else
     [mk_msg (type_num cond_type) F_ADD_CONS (instance_id cfg) addr ctx cid (fst sw) 1]) /\
  (fst sw <> 0 -> snd sw = cid).
Proof.
  induction l as [|[[c a] t] l IH]; intros Hnd c0; [done|]. simpl in Hnd. apply NoDup_cons in Hnd as [Hn Hnd].
  simpl foldl. destruct (Z.eqb_spec value c) as [->|Hne].
  - destruct (pend_other cid c ctx addr l (t, cid) Hn) as [-> Et]. split; [|done].
    unfold taken_case in *. simpl. rewrite Z.eqb_refl. destruct (t =? 0); [exact Et|]. simpl. f_equal. exact Et.
  - destruct (IH Hnd c0) as [IH1 IH2]. split; [|done]. rewrite <- IH1. unfold taken_case. simpl.
    by rewrite (proj2 (Z.eqb_neq value c)).
Qed.

(** C39: a switch reports its cases in an order that keeps them independent. Every
    case has a label that compares the switched value with it. The cases that are
    not taken are sent first, in their order, as false and not to be kept; the
    taken one, if any depends on the input, is sent last, as true and to be kept
    for later branches, whatever its place among the cases, and nothing is left
    pending. *)
Theorem switch_order s w label value cases cid addr :
  live (7 * Z.of_nat (length cases)) s -> 0 < w < 2 ^ 16 -> value_label (rt s) w label ->
  Forall (fun c => is_u w (fst c)) cases -> NoDup (fst <$> cases) -> switch_label s = 0 ->
  exists ts s', trace_switch label w value cases cid addr s = (Ok tt, s') /\ live 0 s' /\ extends (rt s) (rt s') /\
    Forall2 (fun c t => names (rt s') t (case_value (rt s) label (fst c))) cases ts /\
    let l := zip cases ts in
    pipe s' = pipe s ++ encode_all (Plain <$> (other_cases (trace_callstack s) cid value l ++
                                               taken_case (trace_callstack s) cid addr value l)) /\
    switch_label s' = 0.
Proof.
  intros Hs Hw Hl Hc Hnd H0.
  destruct (cases_run w label value cid Hw cases 0 s) as (ts & s1 & E & Hlive & He & Hn & Hp & Hctx & Hsw);
    [by rewrite Z.add_0_r|done..|].
  rewrite H0 in Hsw. pose proof (pend_taken cid value (trace_callstack s) addr (zip cases ts)) as Hpend.
  destruct Hpend with (c0 := switch_cid s) as [Ht Hcid].
  { rewrite list_fmap_compose, fst_zip; [done|]. by rewrite (Forall2_length _ _ _ Hn). }
  rewrite <- Hsw in Ht, Hcid. simpl in Ht, Hcid.
  unfold trace_switch. erewrite bind_eq by exact E. unfold taint_trace_switch_end.
  erewrite bind_eq by done. unfold id.
  assert (pipe s ++ encode_all (Plain <$> (other_cases (trace_callstack s) cid value (zip cases ts) ++
    taken_case (trace_callstack s) cid addr value (zip cases ts))) =
    pipe s1 ++ encode_all (Plain <$> taken_case (trace_callstack s) cid addr value (zip cases ts))) as Hall
    by (by rewrite fmap_app, encode_all_app, app_assoc, <- Hp).
  destruct (Z.eqb_spec (switch_label s1) 0) as [E0|Hne].
  - exists ts, s1. split_and!; [done..| |done]. rewrite Hall, Ht. unfold encode_all. simpl. by rewrite app_nil_r.
  - rewrite Hcid, Z.eqb_refl by done. change (negb true) with false. cbv iota. eexists ts, _.
    erewrite bind_eq by (apply solve_cond_run; apply Hlive). split; [done|].
    split_and!; [by destruct Hlive|done|done| |done].
    rewrite Hall, Ht, <- Hctx. unfold encode_all. cbn [fmap list_fmap mjoin list_join encode_wire]. by rewrite app_nil_r.
Qed.


(** A branch of a loop is flagged when one bit of its flag is set. The pass sets
    two for a branch at the end of a loop, whose one side goes back to the header
    and whose other side leaves. *)
Lemma loop_flags_one_bit f r : is_u 4 f -> loop_flags f r <> 0 <-> f ∈ [1; 2; 4; 8].
Proof.
  intros Hf. assert (Forall (fun f => loop_flags f r <> 0 <-> f ∈ [1; 2; 4; 8]) (seqZ 0 16)) as H.
  { apply (bool_decide_unpack _). destruct r; by vm_compute. }
  rewrite Forall_forall in H. apply H. apply elem_of_seqZ. exact Hf.
Qed.

End trace.

(** ** Witnesses *)

Section witnesses.
#[local] Existing Instance llvm14.

Definition trace_config : config := mk_config 1 5 false 0x1000.

(** Three input bytes, and the comparison of each with 5. *)
Definition compare_byte (l : Z) (s : backend) : backend :=
  snd (dfsan_union plain_flags trace_config l 0 (icmp bveq) 8 0 5 s).
Definition bytes_read : backend := new_backend (init_input 3).
Definition bytes_compared : backend := compare_byte 3 (compare_byte 2 (compare_byte 1 bytes_read)).

Lemma bytes_read_live : live 100 bytes_read.
Proof. destruct (init_wf 3 ltac:(done)) as [Hw Hsz]. split; [done|done|by apply init_room|done]. Qed.

Lemma compare_byte_live j s l : live (7 + j) s -> 0 <= j -> value_label (rt s) 8 l -> live j (compare_byte l s).
Proof.
  intros Hs Hj Hl. assert (is_u 16 (icmp bveq)) as H16 by done.
  destruct (union_run plain_flags trace_config eq_refl j s l 0 (icmp bveq) 8 0 5 Hs Hj H16) as (x & r & E & Hr & _).
  { apply case_request; [apply Hs|lia|done]. }
  unfold compare_byte. by rewrite E.
Qed.

Lemma bytes_compared_live : live 79 bytes_compared.
Proof.
  repeat (apply compare_byte_live; [|lia|split; [by vm_compute|by vm_compute|by vm_compute]]). apply bytes_read_live.
Qed.

Lemma compared_label l : l ∈ [4; 5; 6] -> value_label (rt bytes_compared) 1 l.
Proof.
  intros Hl. assert (Forall (fun l => 1 <= l <= last_label (rt bytes_compared) /\
    label_width (infos (rt bytes_compared)) l = 1 /\ i_op (info_at (infos (rt bytes_compared)) l) <> Alloca) [4; 5; 6]) as H.
  { apply (bool_decide_unpack _). by vm_compute. }
  rewrite Forall_forall in H. destruct (H l Hl) as (? & ? & ?). by split.
Qed.

(** Both bytes are 5: a logical and of the two comparisons. *)
Lemma select_label_witness : exists l r' m,
  taint_trace_select plain_flags trace_config 4 5 0 1 1 0 7 0x2000 bytes_compared =
    (Ok l, set_pipe (pipe bytes_compared ++ encode m) (set_rt r' bytes_compared)) /\
  names r' l (select_value (rt bytes_compared) 4 5 1 0 0) /\ m_label m = l /\ m_result m = 1.
Proof.
  pose proof (live_mono 79 7 _ ltac:(lia) bytes_compared_live) as Hs.
  destruct (select_label plain_flags trace_config eq_refl ltac:(done) bytes_compared 4 5 0 1 1 0 7 0x2000 (fun _ => 5) Hs)
    as (l & r' & m & E & _ & _ & _ & _ & Hn & Hl & Hr).
  - apply compared_label. set_solver.
  - split; [done|]. right. apply compared_label. set_solver.
  - split; [done|]. by left.
  - by right.
  - rewrite eval_eq. by vm_compute.
  - unfold operand_value. rewrite eval_eq. by vm_compute.
  - done.
  - exists l, r', m. split_and!; [done..|]. rewrite Hr. unfold select_value, operand_value. rewrite eval_eq. by vm_compute.
Defined.

(** The third byte was not 5, the select is by the first; on an input that starts
    with 0 and whose third byte is 5 the select is true and the label is not. *)
Lemma select_symbolic_false_witness : exists l s',
  taint_trace_select plain_flags trace_config 4 5 6 1 1 0 7 0x2000 bytes_compared = (Ok l, s') /\
  eval (infos (rt s')) (fun off => if off =? 2 then 5 else 0) l = 0 /\
  select_value (rt bytes_compared) 4 5 1 6 0 (fun off => if off =? 2 then 5 else 0) = 1.
Proof.
  pose proof (live_mono 79 7 _ ltac:(lia) bytes_compared_live) as Hs.
  destruct (select_symbolic_false plain_flags trace_config eq_refl ltac:(done) bytes_compared 4 5 6 1 1 7 0x2000 Hs)
    as (l & s' & E & H); [apply compared_label; set_solver..|].
  exists l, s'. split; [done|]. apply H.
  - assert (fst (taint_trace_select plain_flags trace_config 4 5 6 1 1 0 7 0x2000 bytes_compared) = Ok 7) as E7 by (by vm_compute).
    rewrite E in E7. injection E7 as ->. done.
  - rewrite eval_eq. by vm_compute.
  - rewrite eval_eq. by vm_compute.
Defined.

(** A switch on the first byte, which is 7: the second of three cases. *)
Lemma switch_order_witness : exists ts s',
  trace_switch plain_flags trace_config 1 8 7 [(5, 0x2000); (7, 0x2010); (9, 0x2020)] 7 0x2030 bytes_read = (Ok tt, s') /\
  Forall2 (fun c t => names (rt s') t (case_value (rt bytes_read) 1 (fst c))) [(5, 0x2000); (7, 0x2010); (9, 0x2020)] ts /\
  length (pipe s') = 120%nat.
Proof.
  destruct (switch_order plain_flags trace_config eq_refl ltac:(done) bytes_read 8 1 7
    [(5, 0x2000); (7, 0x2010); (9, 0x2020)] 7 0x2030) as (ts & s' & E & _ & _ & Hn & _).
  - apply (live_mono 100); [simpl; lia|]. apply bytes_read_live.
  - lia.
  - split; [by vm_compute|by vm_compute|by vm_compute].
  - by repeat constructor.
  - apply (bool_decide_unpack _). by vm_compute.
  - done.
  - exists ts, s'. split_and!; [done..|].
    assert (s' = snd (trace_switch plain_flags trace_config 1 8 7 [(5, 0x2000); (7, 0x2010); (9, 0x2020)] 7 0x2030 bytes_read))
      as -> by (by rewrite E).
    by vm_compute.
Defined.

End witnesses.
