(* ===== verification/Fgtest.v ===== *)
(** * The driver: [driver/fgtest.cpp]

    Reads the messages of a traced run, hands conditions and address computations
    to the Z3 parser and solver, and writes a new input for every solution.
    [symsan_read_event] of the launcher is a read from the pipe; it is read when
    the program has written its messages, and the label table is what the program
    left. Files are their contents. *)

From S2P Require Import Prelude Dfsan Cstr Pipe Z3 Z3Ts.
Import Z3AstParser.
Local Open Scope prog_scope.

Module fgtest.

Record driver := mk_driver {
  events : list Z;              (* the bytes left in the pipe *)
  parser : state;               (* __z3_parser *)
  msg_bytes : list Z;           (* what msg holds, a structure on the stack *)
  outputs : list (list Z)       (* the files written, in order *)
}.

Definition set_events x s := mk_driver x (parser s) (msg_bytes s) (outputs s).
Definition set_parser x s := mk_driver (events s) x (msg_bytes s) (outputs s).
Definition set_msg x s := mk_driver (events s) (parser s) x (outputs s).
Definition add_output x s := mk_driver (events s) (parser s) (msg_bytes s) (outputs s ++ [x]).

(** [symsan_read_event(buf, n, 0)]: what was read. After a short read the pipe is
    closed, and there was nothing left in it. *)
Definition read_event (n : nat) : M driver (list Z) :=
  let! bs := gets (fun s => take n (events s)) in
  modify (fun s => set_events (drop n (events s)) s) ;;;
  ret bs.

(** A call of the parser. *)
Definition in_parser {A} (m : M state A) : M driver A := fun s =>
  let '(r, p) := m (parser s) in (r, set_parser p s).

Section driver.
Context {LLVM : InstructionDef} {L : z3.Library}.
Context (base_ : gmap Z dfsan_label_info) (size_ : Z) (input_buf : list Z).

(** [lseek] and [write] of one byte; a gap reads as zeros. *)
Definition write_at (off v : Z) (file : list Z) : list Z :=
  if off <? Z.of_nat (length file) then <[Z.to_nat off := v]> file
  else file ++ replicate (Z.to_nat off - length file) 0 ++ [v].

Definition generate_input (solutions : list solution_val) : M driver unit :=
  modify (add_output (foldl (fun file sol => write_at (sv_offset sol) (sv_val sol) file) input_buf solutions)).

(** The tasks of one message, one after the other. *)
Definition solve_tasks (tasks : list Z) : M driver unit :=
  for_each tasks (fun id =>
    let! (_, solutions) := in_parser (solve_task id) in
    if negb (length solutions =? 0)%nat then generate_input solutions else ret tt).

(** The tasks that a call of the parser adds to a new vector; none when it fails. *)
Definition new_tasks (parse : M state Z) : M driver (list Z) :=
  in_parser (modify (fun s => set_tasks (tasks_ s) (prev_task_id_ s) [] s)) ;;;
  let! r := in_parser parse in
  if negb (r =? 0) then ret [] else in_parser (gets out_tasks).

Definition solve_cond (label r : Z) (add_nested : bool) : M driver unit :=
  let! tasks := new_tasks (parse_cond base_ size_ label (negb (r =? 0)) add_nested) in
  solve_tasks tasks.

Definition handle_gep (g : gep_msg) : M driver unit :=
  let! tasks := new_tasks (parse_gep base_ size_ (g_ptr_label g) (g_ptr g) (g_index_label g)
    (s64 (g_index g)) (g_num_elems g) (g_elem_size g) (s64 (g_current_offset g)) true) in
  solve_tasks tasks.

(** What the driver does with a message. *)
Definition handle (m : pipe_msg) : M driver unit :=
  if m_type m =? type_num cond_type then
    solve_cond (m_label m) (u8 (m_result m)) (negb (Z.land (m_flags m) F_ADD_CONS =? 0))
  else if m_type m =? type_num gep_type then
    let! bs := read_event (size_of gep_msg) in
    if negb (length bs =? size_of gep_msg)%nat then ret tt
    else
      let g := decode bs : gep_msg in
      if negb (m_label m =? g_index_label g) then ret tt else handle_gep g
  else if m_type m =? type_num memcmp_type then
    if m_flags m =? 0 then ret tt
    else
      let n := u64 (4 + m_result m) in
      let! bs := read_event (Z.to_nat n) in
      if negb (Z.of_nat (length bs) =? n) then ret tt
      else if negb (m_label m =? bytes_word (take 4 bs)) then ret tt
      else in_parser (record_memcmp (m_label m) (drop 4 bs)) ;;; ret tt
  else ret tt.

(** The loop over the messages. A short read changes only the first bytes of
    [msg]. Every round takes a byte, so the number of bytes is fuel enough. *)
Fixpoint run (fuel : nat) : M driver unit :=
  let! bs := read_event (size_of pipe_msg) in
  if (length bs =? 0)%nat then ret tt
  else
    match fuel with
    | O => throw NoFuel
    | S fuel' =>
        modify (fun s => set_msg (bs ++ drop (length bs) (msg_bytes s)) s) ;;;
        let! m := gets msg_bytes in
        handle (decode m) ;;;
        run fuel'
    end.

(** [main], from [restart] on, with the bytes that the program wrote; [stack] is
    what the memory of [msg] held before. *)
Definition main (stack pipe : list Z) : res unit * driver :=
  let s := mk_driver pipe (snd (restart [input_buf] new_state)) stack [] in
  run (length pipe) s.

End driver.

End fgtest.
