(* ===== verification/FgtestSpec.v ===== *)
(** * From the program's branches to new inputs

    The driver takes apart what the back end wrote: it handles exactly the
    messages that were sent, in their order. Together with the parser and the
    solver, a traced run gives a new input for every branch that can go the other
    way. *)

From S2P Require Import Prelude Dfsan Cstr HashTable Runtime LabelSem Pipe Fastgen FastgenSpec Z3 Z3Ts Z3Spec Z3PathSpec Fgtest.
Import Z3AstParser fgtest.
Local Open Scope prog_scope.
#[local] Existing Instance ts_naming.

(** ** Messages arrive *)

Section deliver.
Context {LLVM : InstructionDef} {L : z3.Library}.
Context (base_ : gmap Z dfsan_label_info) (size_ : Z) (input_buf : list Z).

(** What the driver has to do for a message, without a pipe. *)
Definition deliver (w : wire) : M driver unit :=
  match w with
  | Plain m =>
      if m_type m =? type_num cond_type then
        solve_cond base_ size_ input_buf (m_label m) (u8 (m_result m)) (negb (Z.land (m_flags m) F_ADD_CONS =? 0))
      else ret tt
  | WithGep m g => handle_gep base_ size_ input_buf g
  | WithContent m content => in_parser (record_memcmp (m_label m) content) ;;; ret tt
  end.

(** The driver with other bytes to read. *)
Definition place (evs msg : list Z) (s : driver) : driver := mk_driver evs (parser s) msg (outputs s).

(** Code that does not look at them. *)
Definition quiet {A} (m : M driver A) : Prop := forall evs msg s,
  m (place evs msg s) = (fst (m s), place evs msg (snd (m s))).

Lemma quiet_ret {A} (a : A) : quiet (ret a).
Proof. done. Qed.

Lemma quiet_bind {A B} (m : M driver A) (k : A -> M driver B) : quiet m -> (forall a, quiet (k a)) -> quiet (bind m k).
Proof.
  intros Hm Hk evs msg s. unfold bind. rewrite Hm. destruct (m s) as [[a|e] s']; simpl; [apply Hk|done].
Qed.

Lemma quiet_parser {A} (m : M state A) : quiet (in_parser m).
Proof. intros evs msg s. unfold in_parser. simpl. by destruct (m (parser s)). Qed.

Lemma quiet_for_each {A} (l : list A) (f : A -> M driver unit) : (forall a, quiet (f a)) -> quiet (for_each l f).
Proof. intros Hf. induction l as [|a l IH]; simpl; [apply quiet_ret|]. by apply quiet_bind. Qed.

Lemma quiet_solve tasks : quiet (solve_tasks input_buf tasks).
Proof.
  apply quiet_for_each. intros id. apply quiet_bind; [apply quiet_parser|]. intros [st sol]. by case_match.
Qed.

Lemma quiet_new parse : quiet (new_tasks parse).
Proof.
  apply quiet_bind; [apply quiet_parser|]. intros _. apply quiet_bind; [apply quiet_parser|]. intros r.
  case_match; [apply quiet_ret|apply quiet_parser].
Qed.

Lemma quiet_deliver w : quiet (deliver w).
Proof.
  destruct w as [m|m g|m content]; simpl.
  - case_match; [|apply quiet_ret]. apply quiet_bind; [apply quiet_new|apply quiet_solve].
  - apply quiet_bind; [apply quiet_new|apply quiet_solve].
  - apply quiet_bind; [apply quiet_parser|]. intros. apply quiet_ret.
Qed.

(** Reading the bytes that come first. *)
Lemma read_event_run (bs rest : list Z) n s : events s = bs ++ rest -> length bs = n ->
  read_event n s = (Ok bs, set_events rest s).
Proof.
  intros E <-. unfold read_event, bind, gets, modify. rewrite E.
  by rewrite take_app_length, drop_app_length.
Qed.

(** A message and what follows it are handled together. *)
Lemma handle_wire w : wf_wire w ->
  exists m bs, encode_wire w = encode (A := pipe_msg) m ++ bs /\ fits m /\ forall rest msg s,
    handle base_ size_ input_buf m (place (bs ++ rest) msg s) =
      (fst (deliver w s), place rest msg (snd (deliver w s))).
Proof.
  intros Hw. destruct w as [m|m g|m content]; cbn [wf_wire] in Hw.
  - destruct Hw as (Hf & Hg & Hm). exists m, []. split_and!; [by rewrite app_nil_r|done|]. intros rest msg s. simpl app.
    rewrite <- (quiet_deliver (Plain m) rest msg). unfold handle, deliver.
    destruct (m_type m =? type_num cond_type); [done|]. rewrite (proj2 (Z.eqb_neq _ _) Hg).
    destruct (Z.eqb_spec (m_type m) (type_num memcmp_type)) as [E|]; [|done]. by rewrite (Hm E).
  - destruct Hw as (Hf & Hg & Ht & Hl). exists m, (encode g). split_and!; [done..|]. intros rest msg s.
    rewrite <- (quiet_deliver (WithGep m g) rest msg). unfold handle. rewrite Ht.
    change (type_num gep_type =? type_num cond_type) with false. rewrite Z.eqb_refl. cbv iota.
    erewrite bind_eq by (apply (read_event_run (encode g) rest); [done|apply length_encode]).
    rewrite length_encode, Nat.eqb_refl. change (negb true) with false. cbv iota.
    replace (decode (encode g)) with g by (by rewrite <- (app_nil_r (encode g)), decode_encode).
    rewrite Hl, Z.eqb_refl. done.
  - destruct Hw as (Hf & Ht & Hfl & Hlen & Hsz). exists m, (memcmp_bytes (m_label m) content). split_and!; [done..|]. intros rest msg s.
    rewrite <- (quiet_deliver (WithContent m content) rest msg). unfold handle. rewrite Ht.
    change (type_num memcmp_type =? type_num cond_type) with false.
    change (type_num memcmp_type =? type_num gep_type) with false. rewrite Z.eqb_refl. cbv iota.
    rewrite (proj2 (Z.eqb_neq _ _) Hfl).
    assert (u64 (4 + m_result m) = Z.of_nat (length (memcmp_bytes (m_label m) content))) as ->.
    { unfold memcmp_bytes. rewrite length_app, length_word_bytes, Nat2Z.inj_add, <- Hlen.
      apply wrap_small. unfold is_u. lia. }
    erewrite bind_eq by (apply (read_event_run (memcmp_bytes (m_label m) content) rest); [done|lia]).
    rewrite Z.eqb_refl. change (negb true) with false. cbv iota. unfold memcmp_bytes.
    rewrite take_app_length', drop_app_length' by (by rewrite length_word_bytes).
    assert (is_u 32 (m_label m)) as Hl.
    { unfold fits in Hf. simpl in Hf. rewrite !Forall2_cons in Hf. by destruct_and!. }
    rewrite bytes_word_bytes by apply Hl. rewrite wrap_small by exact Hl. by rewrite Z.eqb_refl.
Qed.

(** The loop of the driver on whole messages. *)
Lemma run_delivers ws : Forall wf_wire ws -> forall fuel msg s, (length (encode_all ws) <= fuel)%nat ->
  length msg = size_of pipe_msg ->
  exists evs msg', run base_ size_ input_buf fuel (place (encode_all ws) msg s) =
    (fst (for_each ws deliver s), place evs msg' (snd (for_each ws deliver s))) /\
    (fst (for_each ws deliver s) = Ok tt -> evs = []).
Proof.
  induction 1 as [|w ws Hw _ IH]; intros fuel msg s Hfuel Hmsg.
  { exists [], msg. split; [|done]. by destruct fuel. }
  change (encode_all (w :: ws)) with (encode_wire w ++ encode_all ws) in *.
  destruct (handle_wire w Hw) as (m & bs & Ew & Hm & Eh). rewrite Ew, <- app_assoc in *.
  rewrite !length_app, length_encode in Hfuel. change (size_of pipe_msg) with 40%nat in Hfuel.
  destruct fuel as [|fuel]; [lia|].
  cbn [run]. erewrite bind_eq by (apply (read_event_run (encode m)); [done|apply length_encode]).
  rewrite length_encode. change (size_of pipe_msg =? 0)%nat with false. cbv iota.
  set (s1 := place (bs ++ encode_all ws) (encode m) s).
  assert (forall k : M driver unit, ((modify (fun s => set_msg (encode m ++ drop (size_of pipe_msg) (msg_bytes s)) s) ;;; k)
    (set_events (bs ++ encode_all ws) (place (encode m ++ bs ++ encode_all ws) msg s))) = k s1) as ->.
  { intros k. unfold bind, modify, set_msg. simpl msg_bytes. by rewrite <- Hmsg, drop_all, app_nil_r. }
  erewrite bind_eq by done. change (msg_bytes s1) with (encode m).
  replace (decode (encode m)) with m by (by rewrite <- (app_nil_r (encode m)), decode_encode).
  unfold bind at 1. unfold s1. rewrite Eh. cbn [for_each]. unfold bind at 1 2 3.
  destruct (deliver w s) as [[[]|e] s2]; simpl fst; simpl snd.
  - apply (IH fuel (encode m) s2); [lia|apply length_encode].
  - exists (encode_all ws), (encode m). by split.
Qed.

(** The driver at the start. *)
Definition started : driver := mk_driver [] (snd (restart [input_buf] new_state)) [] [].

Lemma main_delivers ws stack : Forall wf_wire ws -> length stack = size_of pipe_msg ->
  exists evs msg, main base_ size_ input_buf stack (encode_all ws) =
    (fst (for_each ws deliver started), place evs msg (snd (for_each ws deliver started))) /\
    (fst (for_each ws deliver started) = Ok tt -> evs = []).
Proof. intros Hws Hst. by apply (run_delivers ws Hws (length (encode_all ws)) stack started). Qed.

End deliver.

(** C36: what the driver handles is what the program sent. Whatever functions of
    the back end a program calls, with arguments of their types, the pipe holds
    whole messages; and the driver, whatever its stack held, handles exactly these
    messages, each with the structure that follows it, in the order they were sent,
    until one of them fails, and leaves nothing unread when none does. *)
Theorem pipe_delivers {LLVM : InstructionDef} {L : z3.Library} flags cfg calls s :
  is_u 32 (fastgen.instance_id cfg) -> is_u 64 (fastgen.runtime_pc cfg) -> ready s -> fastgen.pipe s = [] ->
  calls_ok flags cfg calls s ->
  let b := snd (for_each calls (FastgenSpec.run_call flags cfg) s) in
  exists ws, fastgen.pipe b = encode_all ws /\ Forall wf_wire ws /\
    forall base_ size_ input_buf stack, length stack = size_of pipe_msg ->
      let '(r, d) := main base_ size_ input_buf stack (fastgen.pipe b) in
      let '(r', d') := for_each ws (deliver base_ size_ input_buf) (started input_buf) in
      r = r' /\ parser d = parser d' /\ outputs d = outputs d' /\ (r = Ok tt -> events d = []).
Proof.
  intros Hi Hpc Hs Hp Hc b. destruct (calls_write flags cfg Hi Hpc calls s Hs Hc) as [_ (ws & Ew & Hws)].
  rewrite Hp, app_nil_l in Ew. exists ws. split_and!; [done..|]. intros base_ size_ buf stack Hst. unfold b. rewrite Ew.
  destruct (main_delivers base_ size_ buf ws stack Hws Hst) as (evs & msg & -> & He).
  by destruct (for_each ws _ _) as [r d].
Qed.

(** ** A traced run is explored *)

(** The input as the evaluation of labels reads it. *)
Definition env_of (buf : list Z) : input_env := fun off => if 0 <=? off then default 0 (buf !! Z.to_nat off) else 0.

(** A branch that the program takes. *)
Record branch := mk_branch { b_label : Z; b_taken : bool; b_flag : Z; b_cid : Z; b_addr : Z }.

Definition trace (b : branch) : FastgenSpec.call :=
  FastgenSpec.Cond (b_label b) (b_taken b) (b_flag b) (b_cid b) (b_addr b).

(** Whether the driver keeps it for later branches. *)
Definition kept (b : branch) : bool := Z.land (b_flag b) UndefinedCheck =? 0.
Definition fact_of (b : branch) : list (Z * Z) := if kept b then [(b_label b, Z.b2z (b_taken b))] else [].

Lemma write_at_env off v buf o : 0 <= off < Z.of_nat (length buf) ->
  env_of (write_at off v buf) o = if off =? o then v else env_of buf o.
Proof.
  intros Ho. unfold write_at, env_of. rewrite (proj2 (Z.ltb_lt off _)) by lia.
  destruct (Z.leb_spec 0 o); destruct (Z.eqb_spec off o) as [->|Hne]; try lia.
  - rewrite list_lookup_insert_eq by lia. done.
  - rewrite list_lookup_insert_ne by lia. done.
Qed.

Section file.
Context (buf : list Z) (Hbuf : Forall (is_u 8) buf).

(** The file of a solution is the input that the solution describes. *)
Lemma file_run sol : Forall (byte_value (Z.of_nat (length buf))) sol ->
  let out := foldl (fun file v => write_at (sv_offset v) (sv_val v) file) buf sol in
  length out = length buf /\ Forall (is_u 8) out /\ forall o, env_of out o = new_input sol (env_of buf) o.
Proof.
  induction sol as [|v sol IH] using rev_ind; intros Hsol; [done|].
  apply Forall_app in Hsol as [Hsol [Ho Hv]%Forall_singleton]. destruct (IH Hsol) as (Hl & Hu & He).
  rewrite foldl_app. simpl foldl. set (out := foldl _ buf sol) in *. split_and!.
  - unfold write_at. rewrite (proj2 (Z.ltb_lt _ _)) by lia. by rewrite length_insert.
  - unfold write_at. rewrite (proj2 (Z.ltb_lt _ _)) by lia. by apply Forall_insert.
  - intros o. rewrite write_at_env by lia. unfold new_input. rewrite foldl_app. simpl.
    destruct (sv_offset v =? o); [done|]. apply He.
Qed.

End file.

Section sent.
Context {LLVM : InstructionDef} (flags : Flags) (cfg : fastgen.config).
Context (Hinst : is_u 32 (fastgen.instance_id cfg)) (Hfd : 0 <= fastgen.pipe_fd cfg).

(** The message of a branch. *)
Definition sent (ctx : Z) (b : branch) : pipe_msg :=
  mk_msg (type_num cond_type)
    (Z.lor (if kept b then F_ADD_CONS else 0) (fastgen.loop_flags (Z.land (b_flag b) LoopFlagMask) (b_taken b)))
    (fastgen.instance_id cfg) (b_addr b) ctx (b_cid b) (b_label b) (Z.b2z (b_taken b)).

Definition branch_args (b : branch) : Prop :=
  1 <= b_label b < kInitializingLabel /\ is_u 64 (b_cid b) /\ is_u 64 (b_addr b).

Lemma sent_wf ctx b : is_u 32 ctx -> branch_args b -> wf_wire (Plain (sent ctx b)).
Proof.
  intros Hctx (Hl & Hc & Ha). split_and!; try done. apply (msg_fits cond_type); try done.
  - apply (u_weaken 3); [lia|]. apply lor_bound; [lia|by destruct (kept b)|apply loop_flags_bound].
  - unfold is_u, kInitializingLabel in *. lia.
  - by destruct (b_taken b).
Qed.

Lemma sent_adds ctx b : negb (Z.land (m_flags (sent ctx b)) F_ADD_CONS =? 0) = kept b.
Proof. unfold sent, fastgen.loop_flags. simpl. destruct (kept b); repeat case_match; done. Qed.

(** The calls of a run write them. *)
Lemma branches_sent bs : Forall branch_args bs -> forall s, ready s ->
  for_each (trace <$> bs) (FastgenSpec.run_call flags cfg) s =
    (Ok tt, fastgen.set_pipe (fastgen.pipe s ++ encode_all (Plain <$> (sent (fastgen.trace_callstack s) <$> bs))) s).
Proof.
  induction 1 as [|b bs (Hl & Hc & Ha) _ IH]; intros s Hs.
  { simpl. unfold encode_all. simpl. rewrite app_nil_r. by destruct s. }
  cbn [fmap list_fmap for_each]. unfold bind at 1.
  set (s1 := fastgen.set_pipe (fastgen.pipe s ++ encode (sent (fastgen.trace_callstack s) b)) s).
  assert (FastgenSpec.run_call flags cfg (trace b) s = (Ok tt, s1)) as ->.
  { unfold FastgenSpec.run_call, trace, fastgen.taint_trace_cond.
    rewrite (proj2 (Z.eqb_neq (b_label b) 0)) by lia. rewrite andb_false_l.
    unfold fastgen.uninitialized. rewrite (proj2 (Z.eqb_neq (b_label b) kInitializingLabel)) by lia.
    unfold fastgen.solve_cond. rewrite (proj2 (Z.ltb_ge (fastgen.pipe_fd cfg) 0)) by lia.
    unfold fastgen.message, fastgen.write, bind, ret, gets, modify. cbv beta iota.
    rewrite (rd_reader _ Hs).
    unfold s1, sent, kept. by destruct (b_taken b). }
  rewrite IH by (destruct Hs; done). unfold s1. simpl fastgen.pipe. simpl fastgen.trace_callstack.
  unfold encode_all at 2. cbn [fmap list_fmap mjoin list_join]. 
  rewrite <- app_assoc. done.
Qed.

End sent.

Section explore.
Context {LLVM : InstructionDef} {L : z3.Library} {LL : z3.LibraryLaws}.
Context (t : gmap Z dfsan_label_info) (size_ last : Z) (buf : list Z).
Let len := Z.of_nat (length buf).
Context (Hdag : dag t last) (Hsized : sized t last) (Hsize : last < size_) (Hlen : len <= 2 ^ 32).
Context (Hok : forall l, 1 <= l <= last -> z3_ok t len (info_at t l)) (Hinit : last < kInitializingLabel).
Context (Hbuf : Forall (is_u 8) buf).

(** The program took this branch on [buf]. *)
Definition took (b : branch) : Prop :=
  1 <= b_label b <= last /\ boolean t (b_label b) = true /\ eval t (env_of buf) (b_label b) = Z.b2z (b_taken b).

(** An input makes earlier observations true. *)
Definition follows (facts : list (Z * Z)) (env : input_env) : Prop :=
  Forall (fun f => eval t env (fst f) = snd f) facts.
Definition turns (b : branch) (env : input_env) : Prop := eval t env (b_label b) = Z.b2z (negb (b_taken b)).
Definition goal_of (b : branch) : input_env -> Z :=
  fun env => Z.b2z (negb (eval t env (b_label b) =? Z.b2z (b_taken b))).

(** The new inputs for the branches of a run, after the observations [facts]:
    none for a branch that no input turns, or whose question the solver does not
    answer; else an input of the same length that turns it, and that follows the
    run up to it if any such input does and the solver finds out. *)
Inductive explored : list (Z * Z) -> list branch -> list (list Z) -> Prop :=
  | ends facts : explored facts [] []
  | turned facts b bs out outs :
      length out = length buf -> Forall (is_u 8) out -> turns b (env_of out) ->
      (follows facts (env_of out) \/ (forall env, follows facts env -> ~ turns b env) \/
       exists task, task_for t len facts (goal_of b) task /\ z3.check task = z3.unknown) ->
      explored (facts ++ fact_of b) bs outs -> explored facts (b :: bs) (out :: outs)
  | fixed facts b bs outs : (forall env, ~ turns b env) ->
      explored (facts ++ fact_of b) bs outs -> explored facts (b :: bs) outs
  | gave_up facts b bs outs task : task_for t len facts (goal_of b) task -> z3.check (take 1 task) = z3.unknown ->
      explored (facts ++ fact_of b) bs outs -> explored facts (b :: bs) outs.

Lemma goal_turns b env : took b -> goal_of b env = 1 <-> turns b env.
Proof. intros (Hl & Hb & _). by apply (flipped_value t last Hdag Hsized). Qed.

Lemma parser_inv_rest facts s s' : expr_cache_ s' = expr_cache_ s -> deps_cache_ s' = deps_cache_ s ->
  tsize_cache_ s' = tsize_cache_ s -> branch_deps_ s' = branch_deps_ s ->
  parser_inv t last len facts s -> parser_inv t last len facts s'.
Proof.
  intros E1 E2 E3 E4 [(n & Hsc & Hn) (path & Hdi & Hf)]. split.
  - exists n. split; [by apply (scanned_rest t len n s)|done].
  - exists path. split; [by apply (deps_inv_rest len path s)|done].
Qed.

(** One branch: the parser makes a task of it, and the solution is written. *)
Lemma deliver_solves cfg ctx b facts d : took b -> parser_inv t last len facts (parser d) -> follows facts (env_of buf) ->
  exists p task status sol, deliver t size_ buf (Plain (sent cfg ctx b)) d =
      (if negb (length sol =? 0)%nat then generate_input buf sol else ret tt) (set_parser p d) /\
    parser_inv t last len (facts ++ fact_of b) p /\ task_for t len facts (goal_of b) task /\
    Forall (byte_value len) sol /\ answer t facts (goal_of b) task (env_of buf) status sol.
Proof.
  intros (Hl & Hbool & Hv) Hp Hf.
  set (p0 := set_tasks (tasks_ (parser d)) (prev_task_id_ (parser d)) [] (parser d)).
  assert (parser_inv t last len facts p0) as Hp0 by by apply (parser_inv_rest facts (parser d)).
  destruct (parse_cond_run t size_ last len Hdag Hsized Hsize ltac:(lia) Hok Hinit facts p0 (b_label b) (b_taken b)
    (kept b) Hp0 Hl Hbool) as (p1 & task & E1 & Hp1 & Ht & Ho & Htask).
  destruct (solve_task_run t size_ last len Hdag Hsized Hsize ltac:(lia) Hok Hinit facts (goal_of b) task p1
    (prev_task_id_ p0) (env_of buf) Htask Hf ltac:(by rewrite Ht, lookup_insert_eq)) as (status & sol & E2 & Hsol & Ha).
  set (p2 := set_tasks _ _ _ p1) in E2. set (id := prev_task_id_ p0) in *.
  exists p2, task, status, sol. split_and!; [|by apply (parser_inv_rest _ p1)|done..].
  unfold deliver. rewrite sent_adds. cbn [sent m_type m_label m_result]. rewrite Z.eqb_refl. unfold solve_cond.
  replace (negb (u8 (Z.b2z (b_taken b)) =? 0)) with (b_taken b) by (by destruct (b_taken b)).
  assert (new_tasks (parse_cond t size_ (b_label b) (b_taken b) (kept b)) d = (Ok [id], set_parser p1 d)) as En.
  { unfold new_tasks, in_parser, bind, modify, gets. cbn [parser set_parser]. fold p0. rewrite E1.
    simpl. by rewrite Ho. }
  erewrite bind_eq by exact En. unfold solve_tasks. cbn [for_each]. unfold bind at 1. unfold bind at 1.
  unfold in_parser. cbn [parser set_parser]. rewrite E2. cbv beta iota.
  destruct (negb _); done.
Qed.

Lemma deliver_branch cfg ctx b facts d : took b -> parser_inv t last len facts (parser d) -> follows facts (env_of buf) ->
  exists d' out, deliver t size_ buf (Plain (sent cfg ctx b)) d = (Ok tt, d') /\
    parser_inv t last len (facts ++ fact_of b) (parser d') /\ outputs d' = outputs d ++ out /\
    forall bs outs, explored (facts ++ fact_of b) bs outs -> explored facts (b :: bs) (out ++ outs).
Proof.
  intros Hb Hp Hf. destruct (deliver_solves cfg ctx b facts d Hb Hp Hf) as (p & task & status & sol & Ed & Hp2 & Htask & Hsol & Ha).
  destruct (file_run buf Hbuf sol Hsol) as (Hlo & Huo & Heo). set (out := foldl _ buf sol) in *.
  pose proof (fun env => goal_turns b env Hb) as Hgoal.
  destruct (decide (sol = [])) as [->|Hne].
  - assert (goal_of b (env_of buf) <> 1) as Hno.
    { rewrite Hgoal. unfold turns. destruct Hb as (_ & _ & ->). by destruct (b_taken b). }
    eexists _, []. split; [exact Ed|]. split_and!; [done|by rewrite app_nil_r|]. intros bs outs He. simpl app.
    destruct status; try done; destruct Ha as [Ha1 Ha2]; try done.
    + apply fixed; [|done]. intros env. by rewrite <- Hgoal.
    + by apply (gave_up _ _ _ _ task).
  - exists (add_output out (set_parser p d)), [out]. split; [rewrite Ed; by destruct sol|]. split_and!; [done..|]. intros bs outs He.
    assert (forall env, eval t (env_of out) env = eval t (new_input sol (env_of buf)) env) as Hev.
    { intros l. by apply eval_proper. }
    assert (goal_of b (new_input sol (env_of buf)) = 1 -> turns b (env_of out)) as Ht.
    { rewrite Hgoal. unfold turns. by rewrite Hev. }
    assert (follows facts (new_input sol (env_of buf)) -> follows facts (env_of out)) as Hfo.
    { intros Hn. apply (Forall_impl _ _ _ Hn). intros f. by rewrite Hev. }
    destruct status; try done; destruct Ha as [Ha1 Ha2]; try done; (apply turned; [done|done|by apply Ht| |done]).
    + left. by apply Hfo.
    + right. left. intros env Henv. rewrite <- Hgoal. by apply Ha2.
    + right. right. by exists task.
Qed.

Lemma branches_explored cfg ctx bs : Forall took bs -> forall facts d, parser_inv t last len facts (parser d) ->
  follows facts (env_of buf) ->
  exists d' outs, for_each (Plain <$> (sent cfg ctx <$> bs)) (deliver t size_ buf) d = (Ok tt, d') /\
    outputs d' = outputs d ++ outs /\ explored facts bs outs.
Proof.
  induction 1 as [|b bs Hb _ IH]; intros facts d Hp Hf.
  { exists d, []. split_and!; [done|by rewrite app_nil_r|constructor]. }
  destruct (deliver_branch cfg ctx b facts d Hb Hp Hf) as (d1 & out & E1 & Hp1 & Ho1 & Hx).
  destruct (IH (facts ++ fact_of b) d1 Hp1) as (d2 & outs & E2 & Ho2 & Hx2).
  { apply Forall_app. split; [done|]. unfold fact_of. destruct (kept b); [|done]. destruct Hb as (_ & _ & Hv).
    by repeat constructor. }
  exists d2, (out ++ outs). split_and!; [|by rewrite Ho2, Ho1, app_assoc|by apply Hx].
  cbn [fmap list_fmap for_each]. by erewrite bind_eq by exact E1.
Qed.

End explore.

(** C37: a traced run gives a new input for every branch that can go the other
    way. A program on the input [buf] takes the branches [bs], with boolean labels
    of its label table; the back end writes their messages, and the driver reads
    them and ends normally. For every branch, in order, it writes one new file of
    the length of the input, on which the branch goes the other way, and which
    follows the earlier branches that the program reported for the path whenever
    some input does both; unless no input turns the branch, or Z3 does not decide
    the question. *)
Theorem fgtest_explores {LLVM : InstructionDef} {L : z3.Library} {LL : z3.LibraryLaws}
    flags cfg s bs size_ last buf stack :
  let t := infos (fastgen.rt s) in
  is_u 32 (fastgen.instance_id cfg) -> 0 <= fastgen.pipe_fd cfg -> ready s -> fastgen.pipe s = [] ->
  dag t last -> sized t last -> 0 <= last < size_ -> last < kInitializingLabel -> Z.of_nat (length buf) <= 2 ^ 32 ->
  (forall l, 1 <= l <= last -> z3_ok t (Z.of_nat (length buf)) (info_at t l)) -> Forall (is_u 8) buf ->
  Forall (took t last buf) bs -> Forall (fun b => is_u 64 (b_cid b) /\ is_u 64 (b_addr b)) bs ->
  length stack = size_of pipe_msg ->
  exists b d, for_each (trace <$> bs) (FastgenSpec.run_call flags cfg) s = (Ok tt, b) /\
    main (infos (fastgen.rt b)) size_ buf stack (fastgen.pipe b) = (Ok tt, d) /\
    explored t buf [] bs (outputs d).
Proof.
  intros t Hi Hfd Hs Hp Hdag Hsized Hsize Hinit Hlen Hok Hbuf Hbs Hargs Hst.
  assert (Forall branch_args bs) as Hba.
  { rewrite Forall_forall in Hbs, Hargs |- *. intros b Hb. destruct (Hbs b Hb) as (Hl & _), (Hargs b Hb).
    split_and!; [lia..|done|done]. }
  set (ctx := fastgen.trace_callstack s).
  destruct (main_delivers t size_ buf (Plain <$> (sent cfg ctx <$> bs)) stack) as (evs & msg & E & _); [|done|].
  { rewrite !Forall_fmap. eapply Forall_impl; [exact Hba|]. intros b Hb. apply sent_wf; try done. apply Hs. }
  destruct (branches_explored t size_ last buf Hdag Hsized ltac:(lia) Hlen Hok Hinit Hbuf cfg ctx bs Hbs []
    (started buf)) as (d & outs & Ed & Ho & Hx).
  { apply (restart_inv (LLVM := LLVM) t); [done|lia]. }
  { constructor. }
  eexists _, (place evs msg d). split; [by apply branches_sent|]. simpl fastgen.pipe. rewrite Hp, app_nil_l.
  simpl fastgen.rt. fold t ctx. rewrite E, Ed. split; [done|]. simpl in Ho |- *. by rewrite Ho.
Qed.

(** ** Witnesses *)

#[local] Existing Instances llvm14 sample_library sample_laws.

Definition sample_config : fastgen.config := fastgen.mk_config 1 5 false 0x1000.
Definition sample_flags : Flags := mk_flags false false false false.
Definition sample_backend : fastgen.backend :=
  fastgen.new_backend (set_infos z3_sample dfsan_init).

Lemma sample_backend_ready : ready sample_backend.
Proof. split; done. Qed.

(** A comparison of [memcmp] with a constant, an address computation and a branch. *)
Definition sample_calls : list FastgenSpec.call :=
  [FastgenSpec.Memcmp 4 0x1000; FastgenSpec.Gep 0 0x2000 3 7 10 1 0 2 0x1000; FastgenSpec.Cond 4 true 0 3 0x1000].

Definition sample_stack : list Z := replicate 40 0.

Lemma pipe_delivers_witness :
  let b := snd (for_each sample_calls (FastgenSpec.run_call sample_flags sample_config) sample_backend) in
  length (fastgen.pipe b) = 180%nat /\
  exists ws, fastgen.pipe b = encode_all ws /\ Forall wf_wire ws /\
    outputs (snd (main z3_sample 10 [3; 4] sample_stack (fastgen.pipe b))) =
    outputs (snd (for_each ws (deliver z3_sample 10 [3; 4]) (started [3; 4]))).
Proof.
  intros b. split; [by vm_compute|].
  destruct (pipe_delivers sample_flags sample_config sample_calls sample_backend ltac:(done) ltac:(done)
    sample_backend_ready ltac:(done)) as (ws & E & Hws & Hmain).
  - vm_compute. intuition congruence.
  - exists ws. split_and!; [done..|]. fold b in Hmain.
    specialize (Hmain z3_sample 10 [3; 4] sample_stack ltac:(done)).
    destruct (main _ _ _ _ _), (for_each ws _ _). apply Hmain.
Defined.

(** The sum of the bytes is 7; the new input is one whose sum is not. *)
Definition sample_branch : branch := mk_branch 4 true 0 3 0x1000.

Lemma fgtest_explores_witness : exists b d,
  for_each (trace <$> [sample_branch]) (FastgenSpec.run_call sample_flags sample_config) sample_backend = (Ok tt, b) /\
  main z3_sample 10 [3; 4] sample_stack (fastgen.pipe b) = (Ok tt, d) /\
  explored z3_sample [3; 4] [] [sample_branch] (outputs d) /\ outputs d = [[3; 0]].
Proof.
  destruct (fgtest_explores sample_flags sample_config sample_backend [sample_branch] 10 4 [3; 4] sample_stack)
    as (b & d & E1 & E2 & Hx).
  - done.
  - done.
  - apply sample_backend_ready.
  - done.
  - apply z3_sample_dag.
  - apply z3_sample_sized.
  - lia.
  - done.
  - done.
  - apply z3_sample_ok.
  - by repeat constructor.
  - apply Forall_singleton. split_and!; [done..|by vm_compute|]. rewrite eval_eq. by vm_compute.
  - by repeat constructor.
  - done.
  - assert (b = snd (for_each (trace <$> [sample_branch]) (FastgenSpec.run_call sample_flags sample_config) sample_backend))
      as Eb by (by rewrite E1).
    assert (infos (fastgen.rt b) = z3_sample) as Ei by (rewrite Eb; by vm_compute). rewrite Ei in E2.
    exists b, d. split_and!; [done|done|done|].
    assert (d = snd (main z3_sample 10 [3; 4] sample_stack (fastgen.pipe b))) as -> by (by rewrite E2).
    rewrite Eb. by vm_compute.
Defined.
