(* ===== verification/Z3Backend.v ===== *)
(** * The back end that solves in the process: [solvers/z3.cpp]

    Linked into the instrumented program instead of the back end that writes to a
    pipe: it parses every condition with the Z3 parser while the program runs, solves
    its tasks at once and writes the new inputs. A label is solved once, and a place
    of the program sixteen times in a calling context. *)

From S2P Require Import Prelude Dfsan Cstr HashTable Runtime Pipe Z3 Z3Ts Fgtest.
Import Z3AstParser.
Local Open Scope prog_scope.

Module z3_backend.

(** ** State *)

Record solver := mk_solver {
  rt : runtime;
  parser : state;                    (* __z3_parser *)
  trace_callstack : Z;               (* __taint_trace_callstack *)
  solved_labels : gset Z;            (* __solved_labels *)
  branches : gmap (Z * Z) Z;         (* __branches *)
  buffers : gset Z;                  (* __buffers *)
  switch_label : Z;                  (* __switch_true_case *)
  switch_cid : Z;
  outputs : list (list Z)            (* the files written, in order *)
}.

Definition set_rt x s := mk_solver x (parser s) (trace_callstack s) (solved_labels s) (branches s) (buffers s)
  (switch_label s) (switch_cid s) (outputs s).
Definition set_parser x s := mk_solver (rt s) x (trace_callstack s) (solved_labels s) (branches s) (buffers s)
  (switch_label s) (switch_cid s) (outputs s).
Definition set_branches x s := mk_solver (rt s) (parser s) (trace_callstack s) (solved_labels s) x (buffers s)
  (switch_label s) (switch_cid s) (outputs s).
Definition add_solved l s := mk_solver (rt s) (parser s) (trace_callstack s) ({[l]} ∪ solved_labels s) (branches s)
  (buffers s) (switch_label s) (switch_cid s) (outputs s).
Definition add_buffer b s := mk_solver (rt s) (parser s) (trace_callstack s) (solved_labels s) (branches s)
  ({[b]} ∪ buffers s) (switch_label s) (switch_cid s) (outputs s).
Definition set_switch l c s := mk_solver (rt s) (parser s) (trace_callstack s) (solved_labels s) (branches s)
  (buffers s) l c (outputs s).
Definition add_output x s := mk_solver (rt s) (parser s) (trace_callstack s) (solved_labels s) (branches s)
  (buffers s) (switch_label s) (switch_cid s) (outputs s ++ [x]).

Definition MAX_BRANCH_COUNT : Z := 16.

(** A call of the parser. *)
Definition in_parser {A} (m : M state A) : M solver A := fun s =>
  let '(r, p) := m (parser s) in (r, set_parser p s).

Section solver.
Context {LLVM : InstructionDef} {L : z3.Library}.

(** [tainted.buf], [tainted.is_stdin], and the return address that the back end
    sees when the runtime calls it. The files can be written. *)
Context (flags : Flags) (buf : list Z) (is_stdin : bool) (runtime_pc : Z).

Definition size_ : Z := uniontable_size / sizeof_label_info.

Definition generate_input (solutions : list solution_val) : M solver unit :=
  if is_stdin then ret tt
  else modify (add_output
         (foldl (fun file sol => fgtest.write_at (sv_offset sol) (u8 (sv_val sol)) file) buf solutions)).

Definition solve_one (task_id : Z) : M solver bool :=
  let! (_, solutions) := in_parser (solve_task task_id) in
  if negb (length solutions =? 0)%nat then generate_input solutions ;;; ret true
  else ret false.

(** [for (auto id : tasks) __solve_task(id);] *)
Definition solve_tasks (tasks : list Z) : M solver unit :=
  for_each tasks (fun id => let! _ := solve_one id in ret tt).

(** How often a branch was seen in its context: [false] when the caller returns. *)
Definition visit (addr : Z) : M solver bool :=
  let! s := gets id in
  let key := (trace_callstack s, addr) in
  match branches s !! key with
  | None => modify (set_branches (<[key := 1]> (branches s))) ;;; ret true
  | Some n =>
      if n <? MAX_BRANCH_COUNT
      then modify (set_branches (<[key := n + 1]> (branches s))) ;;; ret true
      else ret false
  end.

(** Parse into a new vector of tasks, solve them, and mark [label]. [false] when
    the parser failed. *)
Definition parse_and_solve (parse : gmap Z dfsan_label_info -> M state Z) (label : Z) : M solver bool :=
  let! base := gets (fun s => infos (rt s)) in
  in_parser (modify (fun s => set_tasks (tasks_ s) (prev_task_id_ s) [] s)) ;;;
  let! r := in_parser (parse base) in
  if negb (r =? 0) then ret false
  else
    let! tasks := in_parser (gets out_tasks) in
    solve_tasks tasks ;;;
    modify (add_solved label) ;;;
    ret true.

Definition is_solved (label : Z) : M solver bool :=
  gets (fun s => bool_decide (label ∈ solved_labels s)).

Definition taint_trace_cond (label : Z) (r : bool) (flag cid addr : Z) : M solver unit :=
  if (label =? 0) &&
     negb ((negb (Z.land flag FalseBranchLoopExit =? 0) && negb r) ||
           (negb (Z.land flag TrueBranchLoopExit =? 0) && r))
  then ret tt
  else
    let! go := visit addr in
    if negb go then ret tt
    else
      let! old := is_solved label in
      if old : bool then ret tt
      else
        let! _ := parse_and_solve (fun base => parse_cond base size_ label r true) label in
        ret tt.

(** The runtime's calls are made when it returns; errors of memory are reported to
    nobody. *)
Definition handle_event (e : event) : M solver unit :=
  match e with
  | trace_cond label r flag cid =>
      taint_trace_cond (u32 label) (negb (r =? 0)) (u8 flag) (u64 cid) runtime_pc
  | trace_memerr _ _ _ _ _ => ret tt
  end.

Definition no_events (s : runtime) : runtime :=
  mk_rt (last_label s) (infos s) (alloca_stack_bottom s) (alloca_stack_top s) (saved_alloca_stack_top s)
    (current_saved_stack_index s) (union_table s) (alloc s) (shadow s) (app s) [].

Definition in_runtime {A} (m : M runtime A) : M solver A := fun s =>
  let '(r, s') := m (no_events (rt s)) in
  match for_each (rev (events s')) handle_event (set_rt (no_events s') s) with
  | (Ok _, b) => (r, b)
  | (Err e, b) => (Err e, b)
  end.

Definition dfsan_union (l1 l2 op size op1 op2 : Z) : M solver Z :=
  let! l := in_runtime (taint_union flags l1 l2 (u16 op) (u16 size) op1 op2) in
  ret (u32 l).

Definition taint_trace_cmp (op1 op2 size predicate c1 c2 cid addr : Z) : M solver unit :=
  if (op1 =? 0) && (op2 =? 0) then ret tt
  else
    let! go := visit addr in
    if negb go then ret tt
    else
      let! temp := dfsan_union op1 op2 (icmp predicate) size c1 c2 in
      let r := get_const_result c1 c2 predicate in
      let! old := is_solved temp in
      if old : bool then ret tt
      else if negb (r =? 0) then modify (set_switch temp cid)
      else
        let! _ := parse_and_solve (fun base => parse_cond base size_ temp (negb (r =? 0)) false) temp in
        ret tt.

Definition taint_trace_switch_end (cid addr : Z) : M solver unit :=
  let! s := gets id in
  if switch_label s =? 0 then ret tt
  else if negb (switch_cid s =? cid) then ret tt
  else
    let label := switch_label s in
    let! ok := parse_and_solve (fun base => parse_cond base size_ label true true) label in
    if ok : bool then modify (fun s => set_switch 0 (switch_cid s) s) else ret tt.

Definition taint_trace_select (cond_label true_label false_label r true_op false_op cid addr : Z) : M solver Z :=
  let chosen := if negb (r =? 0) then true_label else false_label in
  if cond_label =? 0 then ret chosen
  else
    let! go := visit addr in
    if negb go then ret chosen
    else
      let! (solving_label, solving_r, ret_label) :=
        (if negb (true_label =? 0) && (false_op =? 0) then
           let! l := dfsan_union cond_label true_label And 1 r true_op in
           ret (l, Z.b2z (negb (r =? 0) && negb (true_op =? 0)), l)
         else if negb (false_label =? 0) && (true_op =? 1) then
           let! l := dfsan_union cond_label false_label Or 1 r false_op in
           ret (l, Z.b2z (negb (r =? 0) || negb (false_op =? 0)), l)
         else ret (cond_label, r, chosen)) in
      let! old := is_solved solving_label in
      if old : bool then ret ret_label
      else
        let! _ := parse_and_solve
          (fun base => parse_cond base size_ solving_label (negb (solving_r =? 0)) true) solving_label in
        ret ret_label.

Definition taint_trace_gep (ptr_label ptr index_label index num_elems elem_size current_offset cid : Z)
    : M solver unit :=
  if index_label =? 0 then ret tt
  else
    let! old := is_solved index_label in
    let! seen := gets (fun s => bool_decide (ptr ∈ buffers s)) in
    if old || seen then ret tt
    else
      let! ok := parse_and_solve (fun base => parse_gep base size_ ptr_label ptr index_label index num_elems
                   elem_size current_offset true) index_label in
      if ok : bool then modify (add_buffer ptr) else ret tt.

Definition taint_trace_offset (offset_label offset size : Z) : M solver unit :=
  if offset_label =? 0 then ret tt
  else
    let! old := is_solved offset_label in
    if old : bool then ret tt
    else
      let! base := gets (fun s => infos (rt s)) in
      let! _ := in_parser (add_constraints base size_ offset_label (u64 offset)) in
      modify (add_solved offset_label).

(** Only prints. *)
Definition taint_trace_indcall (label : Z) : M solver unit := ret tt.

Definition InitializeSolver (r : runtime) : solver :=
  mk_solver r (snd (restart [buf] new_state)) 0 ∅ ∅ ∅ 0 0 [].

End solver.

(** ** Calls *)

Section calls.
Context {LLVM : InstructionDef} {L : z3.Library} (flags : Flags) (buf : list Z) (is_stdin : bool) (runtime_pc : Z).

(** No place is counted beyond the limit. *)
Definition counted (s : solver) : Prop := forall k n, branches s !! k = Some n -> 1 <= n <= MAX_BRANCH_COUNT.

Lemma visit_counted addr s : counted s -> counted (snd (visit addr s)).
Proof.
  intros Hc. unfold visit, bind, gets, modify, ret, id. destruct (branches s !! _) as [n|] eqn:E; simpl.
  - pose proof (Hc _ _ E) as Hn. destruct (n <? MAX_BRANCH_COUNT) eqn:El; simpl; [|done].
    intros k m. simpl. rewrite lookup_insert_Some. intros [[_ <-]|[_ Hk]]; [bool_hyps; lia|by eapply Hc].
  - intros k m. simpl. rewrite lookup_insert_Some. intros [[_ <-]|[_ Hk]]; [unfold MAX_BRANCH_COUNT; lia|by eapply Hc].
Qed.

(** Nothing was parsed, solved or written. *)
Definition idle (s s' : solver) : Prop :=
  parser s' = parser s /\ outputs s' = outputs s /\ solved_labels s' = solved_labels s /\ rt s' = rt s.

(** Once it is marked, a label is not solved again. *)
Lemma solved_once label r flag cid addr s : label ∈ solved_labels s ->
  exists s', taint_trace_cond buf is_stdin label r flag cid addr s = (Ok tt, s') /\ idle s s'.
Proof.
  intros Hl. unfold taint_trace_cond. destruct (_ && _); [by exists s|].
  unfold visit, is_solved, bind, gets, modify, ret, id.
  destruct (branches s !! _) as [n|]; simpl.
  - destruct (n <? MAX_BRANCH_COUNT); simpl; [|by exists s]. rewrite bool_decide_eq_true_2 by done. by eexists.
  - rewrite bool_decide_eq_true_2 by done. by eexists.
Qed.

(** A place that was seen sixteen times in a context is not looked at again. *)
Lemma place_exhausted label r flag cid addr s : branches s !! (trace_callstack s, addr) = Some MAX_BRANCH_COUNT ->
  taint_trace_cond buf is_stdin label r flag cid addr s = (Ok tt, s).
Proof.
  intros Hb. unfold taint_trace_cond. destruct (_ && _); [done|].
  unfold visit, bind, gets, ret, id. rewrite Hb. by rewrite Z.ltb_irrefl.
Qed.

(** A condition that was parsed is marked. *)
Lemma parse_marks parse label s s' : parse_and_solve buf is_stdin parse label s = (Ok true, s') ->
  label ∈ solved_labels s'.
Proof.
  unfold parse_and_solve. intros H. run_step H. run_step H. run_step H. destruct (negb _); [by injection H|].
  run_step H. run_step H. run_step H. injection H as <-. simpl. set_solver.
Qed.

End calls.

End z3_backend.
