(* ===== verification/Libc.v ===== *)
(** * What the wrappers of the C library stand on

    The wrapped functions of [runtime/dfsan/dfsan_custom.cpp] run in a process: the
    back end with the runtime and its memory, the taint sources of
    [runtime/dfsan/dfsan.cpp], and an operating system. This file has the state,
    memory and string functions ([runtime/sanitizer_common/sanitizer_libc.cpp] and
    the C standard), and the taint sources. *)

From S2P Require Import Prelude Dfsan Cstr HashTable Runtime Pipe Fastgen.
Local Open Scope prog_scope.

(** ** The library and the system behind it

    A call of a library function that the model has no definition of: it may read
    application memory, and it returns a value and, in [r_out], what it leaves in
    a local variable of the wrapper (an end pointer, a length, [errno]), and the
    bytes it writes to application memory. *)

Inductive libc_fn :=
  | l_stat | l_xstat | l_fxstat | l_lxstat | l_fstat | l_lstat
  | l_malloc | l_calloc | l_aligned_alloc | l_posix_memalign | l_valloc
  | l_memalign | l_pvalloc | l_free | l_malloc_usable_size
  | l_strtol | l_strtoll | l_strtoul | l_strtoull | l_strtod
  | l_open | l_openat | l_fopen | l_fopen64 | l_freopen | l_close | l_fclose | l_fileno
  | l_lseek | l_ftell | l_fseek | l_fseeko | l_fseeko64 | l_pread | l_read
  | l_fread | l_fread_unlocked | l_getline | l_getdelim | l_ugetdelim | l_fgets | l_fgets_unlocked
  | l_fgetc | l_getc | l_getc_unlocked | l_getchar | l_mmap | l_munmap | l_readlinkat
  | l_utmpxname | l_setutxent | l_getutxent
  | l_clock_gettime | l_getcwd | l_get_current_dir_name | l_getentropy | l_gethostname
  | l_getpeername | l_getsockname | l_getsockopt | l_getrlimit | l_getrusage | l_nanosleep
  | l_ctime_r | l_time | l_inet_pton | l_localtime_r | l_getpwuid_r | l_epoll_wait | l_poll
  | l_select | l_sched_getaffinity | l_sigemptyset | l_sigaction | l_sigaltstack | l_gettimeofday
  | l_connect | l_recv | l_recvfrom | l_recvmsg | l_recvmmsg | l_socketpair | l_pthread_join.

Record reply := mk_reply {
  r_ret : Z;
  r_out : Z;
  r_writes : list (Z * list Z)   (* address and bytes, in order *)
}.

Class Libc (OS : Type) := {
  libc_call : libc_fn -> list Z -> gmap Z Z -> OS -> reply * OS;
  (* the content of the result buffer after [realpath(filename, path)] *)
  realpath : list Z -> OS -> list Z;
  (* the bytes of the address after [inet_pton(family, host, &addr)] *)
  inet_pton_host : Z -> list Z -> OS -> list Z
}.

(** ** Memory *)

(** The bytes [bs] at [addr]. *)
Fixpoint write_at (addr : Z) (bs : list Z) (m : gmap Z Z) : gmap Z Z :=
  match bs with
  | [] => m
  | b :: bs' => write_at (addr + 1) bs' (<[addr := b]> m)
  end.

(** [for (i = 0; i < n; ++i) d[i] = s[i];] on cells of [stride] bytes *)
Fixpoint copy_up (stride d s : Z) (k : nat) (m : gmap Z Z) : gmap Z Z :=
  match k with
  | O => m
  | S k' => copy_up stride (d + stride) (s + stride) k' (<[d := default 0 (m !! s)]> m)
  end.

(** [for (i = n - 1; i >= 0; --i) d[i] = s[i];] *)
Fixpoint copy_down (d s : Z) (k : nat) (m : gmap Z Z) : gmap Z Z :=
  match k with
  | O => m
  | S k' => copy_down d s k' (<[d + Z.of_nat k' := default 0 (m !! (s + Z.of_nat k'))]> m)
  end.

(** On bytes. Label arrays are copied with the same function, a cell for every
    four bytes: shadow addresses are multiples of four. *)
Definition internal_memcpy (dest src n : Z) (m : gmap Z Z) : gmap Z Z :=
  copy_up 1 dest src (Z.to_nat n) m.
Definition memcpy_labels (sdest ssrc n : Z) (m : gmap Z Z) : gmap Z Z :=
  copy_up 4 sdest ssrc (Z.to_nat n) m.

Definition internal_memmove (dest src n : Z) (m : gmap Z Z) : res (gmap Z Z) :=
  if s64 n <? 0 then Err Died
  else if dest <? src then Ok (copy_up 1 dest src (Z.to_nat n) m)
  else if (src <? dest) && (0 <? n) then Ok (copy_down dest src (Z.to_nat n) m)
  else Ok m.

(** [internal_memset]: the byte loop, and the loop over pairs of words. The [int]
    [c] is sign-extended to the word. *)
Fixpoint memset_bytes (t c : Z) (k : nat) (m : gmap Z Z) : gmap Z Z :=
  match k with
  | O => m
  | S k' => memset_bytes (t + 1) c k' (<[t := u8 c]> m)
  end.

Definition memset_word (c : Z) : Z :=
  let v := u64 c in
  let v := Z.lor v (u64 (Z.shiftl v 8)) in
  let v := Z.lor v (u64 (Z.shiftl v 16)) in
  Z.lor v (u64 (Z.shiftl v 32)).

Fixpoint memset_words (p v : Z) (k : nat) (m : gmap Z Z) : gmap Z Z :=
  match k with
  | O => m
  | S k' => memset_words (p + 16) v k' (write_at p (word_bytes 8 v) (write_at (p + 8) (word_bytes 8 v) m))
  end.

Definition internal_memset (s c n : Z) (m : gmap Z Z) : gmap Z Z :=
  if (s mod 16 =? 0) && (n mod 16 =? 0) then memset_words s (memset_word c) (Z.to_nat (n / 16)) m
  else memset_bytes s c (Z.to_nat n) m.

(** [internal_memset(ls, 0, n * sizeof(dfsan_label))] *)
Fixpoint zero_labels (ls : Z) (k : nat) (m : gmap Z Z) : gmap Z Z :=
  match k with
  | O => m
  | S k' => zero_labels (ls + 4) k' (<[ls := 0]> m)
  end.

(** ** Strings

    Bytes that were never written are 0, so a string ends at the latest behind the
    last byte of memory. *)

Section strings.
Context (m : gmap Z Z).

Definition mem (a : Z) : Z := default 0 (m !! a).

Fixpoint strlen_fuel (fuel : nat) (a : Z) : Z :=
  match fuel with
  | O => 0
  | S f => if mem a =? 0 then 0 else 1 + strlen_fuel f (a + 1)
  end.

Definition strlen (a : Z) : Z := strlen_fuel (S (size m)) a.

Definition bytes_of (a : Z) (n : nat) : list Z := (fun k => mem (a + Z.of_nat k)) <$> seq 0 n.
Definition cstring (a : Z) : list Z := bytes_of a (Z.to_nat (strlen a)).

Fixpoint load_word (a : Z) (n : nat) : Z :=
  match n with
  | O => 0
  | S n' => mem a + 256 * load_word (a + 1) n'
  end.

(** [memcmp], [strcmp] and the like: the difference of the first bytes that
    differ, up to a NUL if [nul]; [f] is applied to the bytes. *)
Fixpoint compare_bytes (nul : bool) (f : Z -> Z) (a b : Z) (n : nat) : Z :=
  match n with
  | O => 0
  | S n' =>
      let x := f (mem a) in
      let y := f (mem b) in
      if negb (x =? y) then x - y
      else if nul && (mem a =? 0) then 0
      else compare_bytes nul f (a + 1) (b + 1) n'
  end.

Definition tolower (c : Z) : Z := if (65 <=? c) && (c <=? 90) then c + 32 else c.
Definition toupper (c : Z) : Z := if (97 <=? c) && (c <=? 122) then c - 32 else c.

Definition memcmp (a b n : Z) : Z := compare_bytes false id a b (Z.to_nat n).
Definition strcmp (a b : Z) : Z := compare_bytes true id a b (S (Z.to_nat (strlen a))).
Definition strcasecmp (a b : Z) : Z := compare_bytes true tolower a b (S (Z.to_nat (strlen a))).
Definition strncmp (a b n : Z) : Z := compare_bytes true id a b (Z.to_nat n).
Definition strncasecmp (a b n : Z) : Z := compare_bytes true tolower a b (Z.to_nat n).

(** The first position of [n] from [a] on where [p] holds; 0 if there is none. *)
Fixpoint find_up (p : Z -> bool) (a : Z) (n : nat) : Z :=
  match n with
  | O => 0
  | S n' => if p a then a else find_up p (a + 1) n'
  end.
Fixpoint find_down (p : Z -> bool) (a : Z) (n : nat) : Z :=
  match n with
  | O => 0
  | S n' => if p (a + Z.of_nat n') then a + Z.of_nat n' else find_down p a n'
  end.

Definition memchr (s c n : Z) : Z := find_up (fun a => mem a =? u8 c) s (Z.to_nat n).
Definition strchr (s c : Z) : Z := find_up (fun a => mem a =? u8 c) s (S (Z.to_nat (strlen s))).
Definition strrchr (s c : Z) : Z := find_down (fun a => mem a =? u8 c) s (S (Z.to_nat (strlen s))).
Definition strpbrk (s accept : Z) : Z :=
  find_up (fun a => bool_decide (mem a ∈ cstring accept)) s (Z.to_nat (strlen s)).
Definition strstr (haystack needle : Z) : Z :=
  find_up (fun a => compare_bytes false id a needle (Z.to_nat (strlen needle)) =? 0)
    haystack (S (Z.to_nat (strlen haystack))).

End strings.

(** ** State *)

(** [filename] without its NUL; the mapped copy of the input is left out. *)
Record taint_file := mk_file {
  filename : list Z;
  f_fd : Z;
  f_offset : Z;
  offset_label : Z;
  f_size : Z;
  is_stdin : bool;
  is_utmp : bool
}.

Record taint_socket := mk_socket {
  family : Z;
  port : Z;
  s_fd : Z;
  s_offset : Z;
  host : list Z
}.

(** Static storage is zero at start. *)
Definition no_file : taint_file := mk_file [] 0 0 0 0 false false.
Definition no_socket : taint_socket := mk_socket 0 0 0 0 [].

Record process (OS : Type) := mk_process {
  be : fastgen.backend;
  os : OS;
  tainted : taint_file;
  tainted_socket : taint_socket;
  current_stdin_offset : Z
}.
Arguments mk_process {OS} _ _ _ _ _.
Arguments be {OS} _.
Arguments os {OS} _.
Arguments tainted {OS} _.
Arguments tainted_socket {OS} _.
Arguments current_stdin_offset {OS} _.

Definition set_fd x f := mk_file (filename f) x (f_offset f) (offset_label f) (f_size f) (is_stdin f) (is_utmp f).
Definition set_offset x f := mk_file (filename f) (f_fd f) x (offset_label f) (f_size f) (is_stdin f) (is_utmp f).
Definition set_offset_label x f := mk_file (filename f) (f_fd f) (f_offset f) x (f_size f) (is_stdin f) (is_utmp f).
Definition set_utmp x f := mk_file (filename f) (f_fd f) (f_offset f) (offset_label f) (f_size f) (is_stdin f) x.
Definition set_source n sz b f := mk_file n (f_fd f) (f_offset f) (offset_label f) sz b (is_utmp f).

Definition set_app x s := mk_rt (last_label s) (infos s) (alloca_stack_bottom s) (alloca_stack_top s)
  (saved_alloca_stack_top s) (current_saved_stack_index s) (union_table s) (alloc s) (shadow s) x (events s).

Section process.
Context {OS : Type}.

Definition set_be (x : fastgen.backend) (s : process OS) := mk_process x (os s) (tainted s) (tainted_socket s) (current_stdin_offset s).
Definition set_os (x : OS) (s : process OS) := mk_process (be s) x (tainted s) (tainted_socket s) (current_stdin_offset s).
Definition set_tainted (x : taint_file) (s : process OS) := mk_process (be s) (os s) x (tainted_socket s) (current_stdin_offset s).
Definition set_tainted_socket (x : taint_socket) (s : process OS) := mk_process (be s) (os s) (tainted s) x (current_stdin_offset s).
Definition set_stdin_offset (x : Z) (s : process OS) := mk_process (be s) (os s) (tainted s) (tainted_socket s) x.

Definition prt (s : process OS) : runtime := fastgen.rt (be s).
Definition on_rt (f : runtime -> runtime) (s : process OS) : process OS := set_be (fastgen.set_rt (f (prt s)) (be s)) s.
Definition memory (s : process OS) : gmap Z Z := app (prt s).

(** Direct accesses of the wrappers to application memory and to labels. *)
Definition modify_app (f : gmap Z Z -> gmap Z Z) : M (process OS) unit :=
  modify (on_rt (fun r => set_app (f (app r)) r)).
Definition modify_labels (f : gmap Z Z -> gmap Z Z) : M (process OS) unit :=
  modify (on_rt (fun r => set_shadow (f (shadow r)) r)).

(** A call of the back end. *)
Definition in_be {A} (b : M fastgen.backend A) : M (process OS) A := fun s =>
  let '(r, x) := b (be s) in (r, set_be x s).

Definition apply_writes (ws : list (Z * list Z)) (m : gmap Z Z) : gmap Z Z :=
  foldl (fun m w => write_at (fst w) (snd w) m) m ws.

Context {LIBC : Libc OS}.

(** A call of the library, with what it leaves in a local variable. *)
Definition libc2 (f : libc_fn) (args : list Z) : M (process OS) (Z * Z) := fun s =>
  let '(r, o) := libc_call f args (memory s) (os s) in
  (Ok (r_ret r, r_out r), on_rt (fun t => set_app (apply_writes (r_writes r) (app t)) t) (set_os o s)).
Definition libc (f : libc_fn) (args : list Z) : M (process OS) Z :=
  let! (r, _) := libc2 f args in ret r.

Context {LLVM : InstructionDef} (flags : Flags) (cfg : fastgen.config).

(** A call of the runtime. *)
Definition in_rt {A} (m : M runtime A) : M (process OS) A := in_be (fastgen.in_runtime flags cfg m).

(** ** The tainted file *)

Definition AT_FDCWD : Z := -100.

Definition taint_set_file (dirfd name fd : Z) : M (process OS) unit :=
  let! ok := (if negb (dirfd =? AT_FDCWD)
              then let! len := libc l_readlinkat [dirfd; name] in ret (0 <=? len)
              else ret true) in
  if ok : bool then
    let! s := gets id in
    if bool_decide (filename (tainted s) = realpath (cstring (memory s) name) (os s))
    then modify (fun s => set_tainted (set_fd fd (tainted s)) s)
    else ret tt
  else ret tt.

Definition is_taint_file (name : Z) : M (process OS) bool :=
  let! s := gets id in
  let found := bool_decide (filename (tainted s) = realpath (cstring (memory s) name) (os s)) in
  modify (fun s => set_tainted (set_utmp found (tainted s)) s) ;;;
  ret found.

Definition taint_get_file (fd : Z) : M (process OS) Z :=
  let! t := gets tainted in
  ret (if f_fd t =? fd then f_size t
       else if force_stdin flags && (fd =? 0) then f_size t
       else 0).

Definition taint_close_file (fd : Z) : M (process OS) unit :=
  let! t := gets tainted in
  if fd =? f_fd t then modify (fun s => set_tainted (set_fd (-1) (tainted s)) s) else ret tt.

Definition is_stdin_taint : M (process OS) bool := gets (fun s => is_stdin (tainted s)).
Definition is_utmp_taint : M (process OS) bool := gets (fun s => is_utmp (tainted s)).
Definition set_utmp_offset (o : Z) : M (process OS) unit :=
  modify (fun s => set_tainted (set_offset o (tainted s)) s).
Definition get_utmp_offset : M (process OS) Z := gets (fun s => f_offset (tainted s)).
Definition taint_set_offset_label (l : Z) : M (process OS) unit :=
  modify (fun s => set_tainted (set_offset_label l (tainted s)) s).
Definition taint_get_offset_label : M (process OS) Z := gets (fun s => offset_label (tainted s)).

(** ** The tainted socket *)

Definition AF_UNIX : Z := 1.
Definition AF_INET : Z := 2.
Definition AF_INET6 : Z := 10.

(** [ntohs] of the two bytes at [a] *)
Definition port_at (m : gmap Z Z) (a : Z) : Z := 256 * mem m a + mem m (a + 1).

Definition taint_set_socket (addr fd : Z) : M (process OS) unit :=
  let! s := gets id in
  let m := memory s in
  let t := tainted_socket s in
  let sa_family := load_word m addr 2 in
  let take_fd := modify (fun s => set_tainted_socket
    (mk_socket (family (tainted_socket s)) (port (tainted_socket s)) fd (s_offset (tainted_socket s))
       (host (tainted_socket s))) s) in
  if negb (sa_family =? family t) then ret tt
  else if sa_family =? AF_INET then
    if negb (port t =? port_at m (addr + 2)) then ret tt
    else if negb (bool_decide (inet_pton_host AF_INET (host t) (os s) = bytes_of m (addr + 4) 4)) then ret tt
    else take_fd
  else if sa_family =? AF_INET6 then
    if negb (port t =? port_at m (addr + 2)) then ret tt
    else if negb (bool_decide (inet_pton_host AF_INET6 (host t) (os s) = bytes_of m (addr + 8) 16)) then ret tt
    else take_fd
  else if sa_family =? AF_UNIX then
    if bool_decide (host t = cstring m (addr + 2)) then take_fd else ret tt
  else ret tt.

Definition taint_get_socket (fd : Z) : M (process OS) Z :=
  let! t := gets tainted_socket in
  ret (if s_fd t =? fd then s_offset t else if force_stdin flags then s_offset t else -1).

Definition taint_update_socket_offset (fd sz : Z) : M (process OS) unit :=
  let! t := gets tainted_socket in
  if s_fd t =? fd
  then modify (set_tainted_socket (mk_socket (family t) (port t) (s_fd t) (s_offset t + sz) (host t)))
  else ret tt.

Definition taint_close_socket (fd : Z) : M (process OS) unit :=
  let! t := gets tainted_socket in
  if s_fd t =? fd
  then modify (set_tainted_socket (mk_socket (family t) (port t) (-1) (s_offset t) (host t)))
  else ret tt.

(** ** Start *)

(** What start-up finds out about the input: [fstat] of a regular standard input,
    the real path and the size of the file, and whether it could be mapped. *)
Record input_facts := mk_facts {
  stdin_regular : option Z;
  real_path : option (list Z);
  file_size : Z;
  mapped : bool
}.

Definition stdin_name : list Z := [115; 116; 100; 105; 110].

Definition InitializeTaintFile (name : list Z) (facts : input_facts) : M (process OS) unit :=
  let label_all :=
    let! t := gets tainted in
    if negb (f_fd t =? -1) && negb (is_stdin t) then in_rt (create_labels 0 (Z.to_nat (f_size t))) else ret tt in
  let source (n : option (list Z)) sz b :=
    modify (fun s => set_tainted (set_source (default (filename (tainted s)) n) sz b (tainted s)) s) in
  if bool_decide (name = stdin_name) then
    modify (fun s => set_tainted (set_fd 0 (tainted s)) s) ;;;
    match stdin_regular facts with
    | Some sz =>
        source None sz false ;;;
        if mapped facts then label_all else throw Died
    | None => source None 1 true ;;; label_all
    end
  else if bool_decide (name = []) then
    modify (fun s => set_tainted (set_fd (-1) (tainted s)) s) ;;; label_all
  else
    match real_path facts with
    | None => ret tt
    | Some p =>
        source (Some p) (file_size facts) false ;;;
        if mapped facts then label_all else throw Died
    end.


Definition PATH_MAX : Z := 4096.

(** [atoi] *)
Definition atoi (s : list Z) : Z :=
  let s := skip_spaces s in
  let '(neg, s) := match s with
                   | 45 :: s' => (true, s')
                   | 43 :: s' => (false, s')
                   | _ => (false, s)
                   end in
  let v := parse_digits 10 s 0 in
  signed 32 (u32 (if neg : bool then Z.max (- 2 ^ 63) (- v) else Z.min (2 ^ 63 - 1) v)).

(** [name] without [prefix], if it begins with it. *)
Fixpoint strip (prefix name : list Z) : option (list Z) :=
  match prefix, name with
  | [], _ => Some name
  | a :: prefix', b :: name' => if a =? b then strip prefix' name' else None
  | _ :: _, [] => None
  end.

(** Up to the first [@], and what follows it. *)
Fixpoint split_at (name : list Z) : option (list Z * list Z) :=
  match name with
  | [] => None
  | c :: name' =>
      if c =? 64 then Some ([], name')
      else match split_at name' with Some (h, t) => Some (c :: h, t) | None => None end
  end.

(** [tcp@host@port] and the like; the length of the host is not checked. *)
Definition inet_socket (fam : Z) (name : list Z) : M (process OS) unit :=
  match split_at name with
  | Some (h, t) =>
      if Z.of_nat (length h) <? PATH_MAX
      then modify (fun s => set_tainted_socket
             (mk_socket fam (atoi t) (-1) (s_offset (tainted_socket s)) h) s)
      else throw Undefined
  | None => throw Died
  end.

Definition tcp_prefix : list Z := [116; 99; 112; 64].
Definition udp_prefix : list Z := [117; 100; 112; 64].
Definition tcp6_prefix : list Z := [116; 99; 112; 54; 64].
Definition udp6_prefix : list Z := [117; 100; 112; 54; 64].
Definition unix_prefix : list Z := [117; 110; 105; 120; 64].

Definition first_prefix (p q name : list Z) : option (list Z) :=
  match strip p name with Some r => Some r | None => strip q name end.

Definition InitializeTaintSocket (name : list Z) : M (process OS) unit :=
  modify (fun s => set_tainted_socket (mk_socket (-1) (-1) (-1) (s_offset (tainted_socket s)) []) s) ;;;
  match first_prefix tcp_prefix udp_prefix name with
  | Some rest => inet_socket AF_INET rest
  | None =>
  match first_prefix tcp6_prefix udp6_prefix name with
  | Some rest => inet_socket AF_INET6 rest
  | None =>
  match strip unix_prefix name with
  | Some rest =>
      if Z.of_nat (length rest) <? PATH_MAX
      then modify (fun s => set_tainted_socket
             (mk_socket AF_UNIX (-1) (-1) (s_offset (tainted_socket s)) rest) s)
      else throw Died
  | None => if bool_decide (name = []) then ret tt else throw Died
  end end end.

End process.
