(* ===== verification/Custom.v ===== *)
(** * The wrappers of the C library: [runtime/dfsan/dfsan_custom.cpp]

    Instrumented programs call [__dfsw_f] where the source calls [f]: the wrapper
    does what [f] does, moves or makes the labels of the memory that [f] writes,
    checks the bounds of what it accesses, and stores the label of the result. Here
    [dfsw_f] returns the result and its label. *)

From S2P Require Import Prelude Dfsan Cstr HashTable Runtime Pipe Fastgen Libc.
Local Open Scope prog_scope.

Module custom.

Section wrappers.
Context {OS : Type} {LIBC : Libc OS} {LLVM : InstructionDef}.
Context (flags : Flags) (trace_fsize : bool) (cfg : fastgen.config).

Abbreviation prog := (M (process OS)).
Abbreviation in_rt := (in_rt flags cfg).

(** ** Calls of the runtime and of the back end *)

Definition dfsan_union (l1 l2 op size op1 op2 : Z) : prog Z :=
  in_be (fastgen.dfsan_union flags cfg l1 l2 op size op1 op2).
Definition dfsan_set_label (label addr sz : Z) : prog unit := in_rt (Runtime.dfsan_set_label label addr sz).
Definition dfsan_read_label (addr sz : Z) : prog Z := in_rt (Runtime.dfsan_read_label flags addr sz).
Definition dfsan_get_label (addr : Z) : prog Z := in_rt (Runtime.dfsan_get_label addr).
Definition dfsan_create_label (offset : Z) : prog Z := in_rt (Runtime.dfsan_create_label offset).
Definition check_bounds (addr_label addr size_label sz : Z) : prog unit :=
  in_rt (taint_check_bounds flags addr_label addr size_label (u64 sz)).
Definition solve_bounds (ptr_label ptr index_label index elem_size : Z) : prog unit :=
  in_rt (taint_solve_bounds flags ptr_label ptr index_label index 0 elem_size 0).
Definition trace_memcmp (label : Z) : prog unit :=
  in_be (fastgen.taint_trace_memcmp flags cfg label (fastgen.runtime_pc cfg)).
Definition trace_cond (label : Z) (r : bool) (flag cid : Z) : prog unit :=
  in_be (fastgen.taint_trace_cond flags cfg label r flag cid (fastgen.runtime_pc cfg)).
Definition trace_offset (offset_label offset size : Z) : prog unit :=
  in_be (fastgen.taint_trace_offset offset_label offset size).

(** [if (n_label) __taint_solve_bounds(...)] *)
Definition solve_if (ptr_label ptr n_label n elem_size : Z) : prog unit :=
  if negb (n_label =? 0) then solve_bounds ptr_label ptr n_label n elem_size else ret tt.

Definition get_label_for (fd offset : Z) : prog Z :=
  let! t := is_stdin_taint in
  if t || ((fd =? 0) && force_stdin flags) then
    let! o := gets current_stdin_offset in
    modify (set_stdin_offset (o + 1)) ;;;
    dfsan_create_label o
  else ret (u32 (offset + CONST_OFFSET)).

(** [for (; i < n; i++) dfsan_set_label(label(i), buf + i, 1);], [k] times *)
Fixpoint label_loop (label : Z -> prog Z) (buf i : Z) (k : nat) : prog unit :=
  match k with
  | O => ret tt
  | S k' =>
      let! l := label i in
      dfsan_set_label l (buf + i) 1 ;;;
      label_loop label buf (i + 1) k'
  end.

Definition taint_bytes (fd offset buf n : Z) : prog unit :=
  label_loop (fun i => get_label_for fd (offset + i)) buf 0 (Z.to_nat n).

(** ** File size *)

(** [sizeof(struct stat)], [offsetof(struct stat, st_size)], [sizeof(st_size)] *)
Definition sizeof_stat : Z := 144.
Definition st_size : Z := 48.

Definition stat_labels (buf : Z) (is_tainted : prog bool) : prog unit :=
  dfsan_set_label 0 buf sizeof_stat ;;;
  let! t := (if trace_fsize then is_tainted else ret false) in
  if t : bool then
    let! size := dfsan_union 0 0 fsize (8 * 8) 0 0 in
    dfsan_set_label size (buf + st_size) 8
  else ret tt.

Definition is_tainted_fd (fd : Z) : prog bool :=
  let! sz := taint_get_file flags fd in ret (negb (sz =? 0)).

Definition dfsw_stat (path buf path_label buf_label : Z) : prog (Z * Z) :=
  let! r := libc l_stat [path; buf] in
  (if r =? 0 then stat_labels buf (is_taint_file path) else ret tt) ;;;
  ret (r, 0).

Definition dfsw_xstat (vers path buf vers_label path_label buf_label : Z) : prog (Z * Z) :=
  let! r := libc l_xstat [vers; path; buf] in
  (if r =? 0 then stat_labels buf (is_taint_file path) else ret tt) ;;;
  ret (r, 0).

Definition dfsw_fxstat (vers fd buf vers_label fd_label buf_label : Z) : prog (Z * Z) :=
  let! r := libc l_fxstat [vers; fd; buf] in
  (if r =? 0 then stat_labels buf (is_tainted_fd fd) else ret tt) ;;;
  ret (r, 0).

Definition dfsw_lxstat (vers path buf vers_label path_label buf_label : Z) : prog (Z * Z) :=
  let! r := libc l_lxstat [vers; path; buf] in
  (if r =? 0 then stat_labels buf (is_taint_file path) else ret tt) ;;;
  ret (r, 0).

Definition dfsw_fstat (fd buf fd_label buf_label : Z) : prog (Z * Z) :=
  let! r := libc l_fstat [fd; buf] in
  (if r =? 0 then stat_labels buf (is_tainted_fd fd) else ret tt) ;;;
  ret (r, 0).

Definition dfsw_lstat (path buf path_label buf_label : Z) : prog (Z * Z) :=
  let! r := libc l_lstat [path; buf] in
  (if r =? 0 then stat_labels buf (is_taint_file path) else ret tt) ;;;
  ret (r, 0).

(** ** Searching *)

Definition dfsw_strchr (s c s_label c_label : Z) : prog (Z * Z) :=
  let! m := gets memory in ret (strchr m s c, 0).
Definition dfsw_strpbrk (s accept s_label accept_label : Z) : prog (Z * Z) :=
  let! m := gets memory in ret (strpbrk m s accept, 0).
Definition dfsw_memchr (s c n s_label c_label n_label : Z) : prog (Z * Z) :=
  let! m := gets memory in
  let r := memchr m s c n in
  ret (r, if negb (r =? 0) then s_label else 0).
Definition dfsw_strrchr (s c s_label c_label : Z) : prog (Z * Z) :=
  let! m := gets memory in
  let r := strrchr m s c in
  ret (r, if negb (r =? 0) then s_label else 0).
Definition dfsw_strstr (haystack needle haystack_label needle_label : Z) : prog (Z * Z) :=
  let! m := gets memory in
  let r := strstr m haystack needle in
  ret (r, if negb (r =? 0) then haystack_label else 0).
Definition dfsw_strlen (s s_label : Z) : prog (Z * Z) :=
  let! m := gets memory in ret (strlen m s, 0).

(** ** Comparing *)

(** From the two labels on. *)
Definition taint_compare (s1 s2 n : Z) : prog Z :=
  let! l1 := dfsan_read_label s1 n in
  let! l2 := dfsan_read_label s2 n in
  let! r := dfsan_union l1 l2 fmemcmp n s1 s2 in
  (if negb (r =? 0) then trace_memcmp r else ret tt) ;;;
  ret r.

Definition taint_memcmp (s1 s2 n : Z) : prog Z := taint_compare s1 s2 n.

Definition dfsw_memcmp (s1 s2 n s1_label s2_label n_label : Z) : prog (Z * Z) :=
  check_bounds s1_label s1 n_label n ;;;
  check_bounds s2_label s2 n_label n ;;;
  let! r := gets (fun s => memcmp (memory s) s1 s2 n) in
  let! l := taint_memcmp s1 s2 n in
  ret (r, l).

Definition dfsw_bcmp (s1 s2 n s1_label s2_label n_label : Z) : prog (Z * Z) :=
  check_bounds s1_label s1 n_label n ;;;
  check_bounds s2_label s2 n_label n ;;;
  let! r := gets (fun s => memcmp (memory s) s1 s2 n) in
  let! l := taint_memcmp s1 s2 n in
  ret (r, l).

Definition taint_strcmp (s1 s2 : Z) : prog Z :=
  let! m := gets memory in
  let! l := dfsan_get_label s1 in
  let n := if negb (l =? 0) then strlen m s2 + 1 else strlen m s1 + 1 in
  taint_compare s1 s2 n.

Definition dfsw_strcmp (s1 s2 s1_label s2_label : Z) : prog (Z * Z) :=
  let! r := gets (fun s => strcmp (memory s) s1 s2) in
  let! l := taint_strcmp s1 s2 in
  ret (r, l).

Definition dfsw_strcasecmp (s1 s2 s1_label s2_label : Z) : prog (Z * Z) :=
  let! r := gets (fun s => strcasecmp (memory s) s1 s2) in
  let! l := taint_strcmp s1 s2 in
  ret (r, l).

Definition taint_strncmp (s1 s2 n : Z) : prog Z :=
  if n =? 0 then ret 0
  else
    let! m := gets memory in
    let! l1 := dfsan_get_label s1 in
    let n := if (l1 =? 0) && (strlen m s1 <? n - 1) then strlen m s1 + 1 else n in
    let! l2 := dfsan_get_label s2 in
    let n := if (l2 =? 0) && (strlen m s2 <? n - 1) then strlen m s2 + 1 else n in
    taint_compare s1 s2 n.

Definition dfsw_strncmp (s1 s2 n s1_label s2_label n_label : Z) : prog (Z * Z) :=
  if n =? 0 then ret (0, 0)
  else
    let! r := gets (fun s => strncmp (memory s) s1 s2 n) in
    let! l := taint_strncmp s1 s2 n in
    ret (r, l).

Definition dfsw_strncasecmp (s1 s2 n s1_label s2_label n_label : Z) : prog (Z * Z) :=
  if n =? 0 then ret (0, 0)
  else
    let! r := gets (fun s => strncasecmp (memory s) s1 s2 n) in
    let! l := taint_strncmp s1 s2 n in
    ret (r, l).

(** ** Copying *)

Definition dfsan_memcpy (dest src n : Z) : prog unit :=
  if n =? 0 then ret tt
  else
    modify_labels (memcpy_labels (shadow_for dest) (shadow_for src) n) ;;;
    modify_app (internal_memcpy dest src n).

Definition dfsan_memset (s c c_label n : Z) : prog unit :=
  if n =? 0 then ret tt
  else
    modify_app (internal_memset s c n) ;;;
    dfsan_set_label c_label s n.

Definition dfsw_memcpy (dest src n dest_label src_label n_label : Z) : prog (Z * Z) :=
  check_bounds src_label src n_label n ;;;
  check_bounds dest_label dest n_label n ;;;
  (if negb (n_label =? 0) then
     solve_bounds src_label src n_label n 1 ;;;
     solve_bounds dest_label dest n_label n 1
   else ret tt) ;;;
  dfsan_memcpy dest src n ;;;
  ret (dest, dest_label).

(** The labels of [k] cells, and their storing. *)
Fixpoint read_labels (ls : Z) (k : nat) (m : gmap Z Z) : list Z :=
  match k with
  | O => []
  | S k' => default 0 (m !! ls) :: read_labels (ls + 4) k' m
  end.
Fixpoint write_labels (ls : Z) (tmp : list Z) (m : gmap Z Z) : gmap Z Z :=
  match tmp with
  | [] => m
  | l :: tmp' => write_labels (ls + 4) tmp' (<[ls := l]> m)
  end.

(** The stack has room for the array of saved labels. *)
Definition dfsw_memmove (dest src n dest_label src_label n_label : Z) : prog (Z * Z) :=
  check_bounds src_label src n_label n ;;;
  check_bounds dest_label dest n_label n ;;;
  (if negb (n_label =? 0) then
     solve_bounds src_label src n_label n 1 ;;;
     solve_bounds dest_label dest n_label n 1
   else ret tt) ;;;
  let! tmp := gets (fun s => read_labels (shadow_for src) (Z.to_nat n) (shadow (prt s))) in
  let! m := gets (fun s => internal_memmove dest src n (memory s)) in
  let! m := lift m in
  modify_app (fun _ => m) ;;;
  modify_labels (write_labels (shadow_for dest) tmp) ;;;
  ret (dest, dest_label).

Definition dfsw_memset (s c n s_label c_label n_label : Z) : prog (Z * Z) :=
  check_bounds s_label s n_label n ;;;
  solve_if s_label s n_label n 1 ;;;
  dfsan_memset s c c_label n ;;;
  ret (s, s_label).

Definition dfsw_tolower (c c_label : Z) : prog (Z * Z) :=
  let! l := dfsan_union 0 c_label Or 8 0x20 0 in
  ret (tolower c, l).

Definition dfsw_toupper (c c_label : Z) : prog (Z * Z) :=
  let! l := dfsan_union 0 c_label And 8 0x5f 0 in
  ret (toupper c, l).

Definition dfsw_strcat (dest src d_label s_label : Z) : prog (Z * Z) :=
  let! m := gets memory in
  let dest_len := strlen m dest in
  let copy_len := strlen m src + 1 in
  check_bounds d_label dest 0 (dest_len + copy_len) ;;;
  dfsan_memcpy (dest + dest_len) src copy_len ;;;
  ret (dest, d_label).

(** A null pointer from [malloc] is written through. *)
Definition dfsw_strdup (s s_label : Z) : prog (Z * Z) :=
  let! m := gets memory in
  let len := strlen m s in
  let! p := libc l_malloc [len + 1] in
  if p =? 0 then throw Undefined
  else
    dfsan_memcpy p s (len + 1) ;;;
    ret (p, 0).

Definition dfsw___strdup (s s_label : Z) : prog (Z * Z) :=
  let! m := gets memory in
  let len := strlen m s in
  let! p := libc l_malloc [len + 1] in
  if p =? 0 then throw Undefined
  else
    dfsan_memcpy p s (len + 1) ;;;
    ret (p, 0).

Definition dfsw___strndup (s n s_label n_label : Z) : prog (Z * Z) :=
  let! m := gets memory in
  let len := strlen m s in
  let len := if n <? len then n else len in
  let! p := libc l_malloc [len + 1] in
  if p =? 0 then ret (0, 0)
  else
    dfsan_memcpy p s len ;;;
    modify_app (<[p + len := 0]>) ;;;
    dfsan_set_label 0 (p + len) 1 ;;;
    ret (p, 0).

Definition dfsw_strncpy (s1 s2 n s1_label s2_label n_label : Z) : prog (Z * Z) :=
  let! m := gets memory in
  let len := strlen m s2 in
  solve_if s1_label s1 n_label n 1 ;;;
  (if len <? n then
     dfsan_memcpy s1 s2 (len + 1) ;;;
     dfsan_memset (s1 + len + 1) 0 0 (n - len - 1)
   else dfsan_memcpy s1 s2 n) ;;;
  ret (s1, s1_label).

(** The library's copy, then the labels. [stpcpy] returns the end of the copy. *)
Definition dfsw_stpcpy (dest src dest_label src_label : Z) : prog (Z * Z) :=
  let! m := gets memory in
  let len := strlen m src + 1 in
  check_bounds dest_label dest 0 len ;;;
  modify_app (internal_memcpy dest src len) ;;;
  modify_labels (memcpy_labels (shadow_for dest) (shadow_for src) len) ;;;
  ret (dest + len - 1, dest_label).

Definition dfsw_strcpy (dest src dst_label src_label : Z) : prog (Z * Z) :=
  let! m := gets memory in
  let len := strlen m src + 1 in
  check_bounds dst_label dest 0 len ;;;
  modify_app (internal_memcpy dest src len) ;;;
  modify_labels (memcpy_labels (shadow_for dest) (shadow_for src) len) ;;;
  ret (dest, dst_label).

(** ** Numbers in text *)

(** [sizeof(ret_size)] is the size of a [size_t] whatever [ret_size] is. *)
Definition taint_strtol (nptr len ret_size base : Z) : prog Z :=
  let finish load := dfsan_union 0 load fatoi (8 * 8) (u64 base) len in
  if 0 <? len then
    let! load := dfsan_read_label nptr len in finish load
  else
    let! l := gets (fun s => label_at (shadow_for nptr) (prt s)) in
    if l =? 0 then ret 0
    else let! load := dfsan_union l 0 Load 0 0 0 in finish load.

Definition dfsw_atoi (nptr nptr_label : Z) : prog (Z * Z) :=
  let! (r, tmp_endptr) := libc2 l_strtol [nptr; 10] in
  let! l := taint_strtol nptr (u64 (tmp_endptr - nptr)) 8 10 in
  ret (signed 32 (u32 r), l).

(** [if (endptr) *endptr = tmp_endptr;] *)
Definition store_endptr (endptr tmp_endptr : Z) : prog unit :=
  if negb (endptr =? 0) then modify_app (write_at endptr (word_bytes 8 tmp_endptr)) else ret tt.

Definition dfsw_strtol (nptr endptr base nptr_label endptr_label base_label : Z) : prog (Z * Z) :=
  let! (r, tmp_endptr) := libc2 l_strtol [nptr; base] in
  store_endptr endptr tmp_endptr ;;;
  let! l := taint_strtol nptr (u64 (tmp_endptr - nptr)) 8 base in
  ret (r, l).

Definition dfsw_strtod (nptr endptr nptr_label endptr_label : Z) : prog (Z * Z) :=
  let! (r, tmp_endptr) := libc2 l_strtod [nptr] in
  store_endptr endptr tmp_endptr ;;;
  ret (r, 0).

Definition dfsw_strtoll (nptr endptr base nptr_label endptr_label base_label : Z) : prog (Z * Z) :=
  let! (r, tmp_endptr) := libc2 l_strtoll [nptr; base] in
  store_endptr endptr tmp_endptr ;;;
  let! l := taint_strtol nptr (u64 (tmp_endptr - nptr)) 8 base in
  ret (r, l).

Definition dfsw_strtoul (nptr endptr base nptr_label endptr_label base_label : Z) : prog (Z * Z) :=
  let! (r, tmp_endptr) := libc2 l_strtoul [nptr; base] in
  store_endptr endptr tmp_endptr ;;;
  let! l := taint_strtol nptr (u64 (tmp_endptr - nptr)) 8 base in
  ret (r, l).

(** The parameters in the order of the source, which declares [nptr_label] before
    [base]. *)
Definition dfsw_strtoull (nptr endptr nptr_label base endptr_label base_label : Z) : prog (Z * Z) :=
  let! (r, tmp_endptr) := libc2 l_strtoull [nptr; base] in
  store_endptr endptr tmp_endptr ;;;
  let! l := taint_strtol nptr (u64 (tmp_endptr - nptr)) 8 base in
  ret (r, l).

(** ** Reading input *)

Definition dfsw_pread (fd buf count offset fd_label buf_label count_label offset_label : Z) : prog (Z * Z) :=
  check_bounds buf_label buf count_label count ;;;
  solve_if buf_label buf count_label count 1 ;;;
  let! r := libc l_pread [fd; buf; count; offset] in
  (if 0 <=? r then
     let! t := is_tainted_fd fd in
     if t : bool then taint_bytes fd offset buf r else dfsan_set_label 0 buf r
   else ret tt) ;;;
  ret (r, 0).

Definition SEEK_CUR : Z := 1.

Definition dfsw_read (fd buf count fd_label buf_label count_label : Z) : prog (Z * Z) :=
  let! offset := libc l_lseek [fd; 0; SEEK_CUR] in
  check_bounds buf_label buf count_label count ;;;
  solve_if buf_label buf count_label count 1 ;;;
  let! r := libc l_read [fd; buf; count] in
  (if 0 <=? r then
     let! t := is_tainted_fd fd in
     if t : bool then taint_bytes fd offset buf r else dfsan_set_label 0 buf r
   else ret tt) ;;;
  ret (r, 0).

(** [fread] and [fread_unlocked] *)
Definition fread_with (f : libc_fn) (ptr size nmemb stream ptr_label nmemb_label : Z) : prog (Z * Z) :=
  let! fd := libc l_fileno [stream] in
  let! tfsize := taint_get_file flags fd in
  let! offset := libc l_ftell [stream] in
  check_bounds ptr_label ptr nmemb_label (size * nmemb) ;;;
  solve_if ptr_label ptr nmemb_label nmemb size ;;;
  let! r := libc f [ptr; size; nmemb; stream] in
  (if negb (r =? 0) then
     if negb (tfsize =? 0) then taint_bytes fd offset ptr (u64 (r * size))
     else dfsan_set_label 0 ptr (u64 (r * size))
   else ret tt) ;;;
  ret (r, 0).

Definition dfsw_fread (ptr size nmemb stream ptr_label size_label nmemb_label stream_label : Z) : prog (Z * Z) :=
  fread_with l_fread ptr size nmemb stream ptr_label nmemb_label.
Definition dfsw_fread_unlocked (ptr size nmemb stream ptr_label size_label nmemb_label stream_label : Z)
    : prog (Z * Z) :=
  fread_with l_fread_unlocked ptr size nmemb stream ptr_label nmemb_label.

(** After [getline] and [getdelim]: [ret] is tested against 0 only, and is -1 at
    the end of the file. The buffer is [*lineptr]. *)
Definition line_labels (fd offset lineptr r : Z) : prog unit :=
  if negb (r =? 0) then
    let! line := gets (fun s => load_word (memory s) lineptr 8) in
    let! t := is_tainted_fd fd in
    if t : bool then
      taint_bytes fd offset line r ;;;
      dfsan_set_label 0 (line + r) 1
    else dfsan_set_label 0 line (u64 (r + 1))
  else ret tt.

Definition dfsw_getline (lineptr n stream lineptr_label n_label stream_label : Z) : prog (Z * Z) :=
  let! fd := libc l_fileno [stream] in
  let! offset := libc l_ftell [stream] in
  let! r := libc l_getline [lineptr; n; stream] in
  line_labels fd offset lineptr r ;;;
  ret (r, 0).

Definition dfsw_getdelim (lineptr n delim stream buf_label size_label delim_label stream_label : Z)
    : prog (Z * Z) :=
  let! fd := libc l_fileno [stream] in
  let! offset := libc l_ftell [stream] in
  let! r := libc l_getdelim [lineptr; n; delim; stream] in
  line_labels fd offset lineptr r ;;;
  ret (r, 0).

Definition dfsw___getdelim (lineptr n delim stream buf_label size_label delim_label stream_label : Z)
    : prog (Z * Z) :=
  let! fd := libc l_fileno [stream] in
  let! offset := libc l_ftell [stream] in
  let! r := libc l_ugetdelim [lineptr; n; delim; stream] in
  line_labels fd offset lineptr r ;;;
  ret (r, 0).

(** [sizeof(str)] is the size of the pointer. [stdin] is the stream of the
    library. *)
Definition dfsw_gets (stdin str str_label : Z) : prog (Z * Z) :=
  let! offset := libc l_ftell [stdin] in
  let! r := libc l_fgets [str; 8; stdin] in
  let! t := (if negb (r =? 0) then is_tainted_fd 0 else ret false) in
  if t : bool then
    let! len := gets (fun s => strlen (memory s) r) in
    taint_bytes 0 offset r (len + 1) ;;;
    ret (r, str_label)
  else ret (r, 0).

Definition fgets_with (f : libc_fn) (s size stream s_label size_label : Z) : prog (Z * Z) :=
  let! fd := libc l_fileno [stream] in
  let! offset := libc l_ftell [stream] in
  check_bounds s_label s size_label size ;;;
  solve_if s_label s size_label size 1 ;;;
  let! r := libc f [s; size; stream] in
  if negb (r =? 0) then
    let! len := gets (fun p => strlen (memory p) r) in
    let! t := is_tainted_fd fd in
    (if t : bool then
       taint_bytes fd offset s len ;;;
       dfsan_set_label 0 (s + len) 1
     else dfsan_set_label 0 s (len + 1)) ;;;
    ret (r, s_label)
  else ret (r, 0).

Definition dfsw_fgets (s size stream s_label size_label stream_label : Z) : prog (Z * Z) :=
  fgets_with l_fgets s size stream s_label size_label.
Definition dfsw_fgets_unlocked (s size stream s_label size_label stream_label : Z) : prog (Z * Z) :=
  fgets_with l_fgets_unlocked s size stream s_label size_label.

Definition EOF : Z := -1.

(** The label is made and dropped. *)
Definition taint_getc (fd offset r : Z) : prog Z :=
  let! t := (if negb (r =? EOF) then is_tainted_fd fd else ret false) in
  (if t : bool then
     let! l := get_label_for fd offset in
     let! _ := dfsan_union l CONST_LABEL ZExt 32 0 0 in
     ret tt
   else ret tt) ;;;
  ret 0.

Definition getc_with (f : libc_fn) (stream : Z) : prog (Z * Z) :=
  let! fd := libc l_fileno [stream] in
  let! offset := libc l_ftell [stream] in
  let! r := libc f [stream] in
  let! l := taint_getc fd offset r in
  ret (r, l).

Definition dfsw_fgetc (stream stream_label : Z) : prog (Z * Z) := getc_with l_fgetc stream.
Definition dfsw_fgetc_unlocked (stream stream_label : Z) : prog (Z * Z) := getc_with l_fgetc stream.
Definition dfsw_getc (stream stream_label : Z) : prog (Z * Z) := getc_with l_getc stream.
Definition dfsw_getc_unlocked (stream stream_label : Z) : prog (Z * Z) := getc_with l_getc_unlocked stream.
Definition dfsw__IO_getc (stream stream_label : Z) : prog (Z * Z) := getc_with l_getc stream.

Definition dfsw_getchar (stdin : Z) : prog (Z * Z) :=
  let! offset := libc l_ftell [stdin] in
  let! r := libc l_getchar [] in
  let! l := taint_getc 0 offset r in
  ret (r, l).

Definition MAP_FAILED : Z := 2 ^ 64 - 1.

(** [offset + length > fsize] compares unsigned. *)
Definition tainted_length (offset length fsize : Z) : Z :=
  if u64 fsize <? u64 (offset + length) then u64 (fsize - offset) else length.

Definition dfsw_mmap (start length prot mflags fd offset start_label len_label prot_label flags_label
    fd_label offset_label : Z) : prog (Z * Z) :=
  let! r := libc l_mmap [start; length; prot; mflags; fd; offset] in
  (if negb (r =? MAP_FAILED) then
     let! fsize := taint_get_file flags fd in
     if negb (fsize =? 0) then
       let n := tainted_length offset length fsize in
       taint_bytes fd offset r n ;;;
       label_loop (fun _ => ret kInitializingLabel) r n (Z.to_nat (length - n))
     else dfsan_set_label 0 r length
   else ret tt) ;;;
  ret (r, 0).

Definition dfsw_munmap (addr length addr_label length_label : Z) : prog (Z * Z) :=
  let! r := libc l_munmap [addr; length] in
  (if r =? 0 then dfsan_set_label 0 addr length else ret tt) ;;;
  ret (r, 0).

(** ** Opening, closing and seeking *)

(** [if (fd)]: -1 passes. *)
Definition dfsw_open (path oflags path_label flag_label : Z) : prog (Z * Z) :=
  let! fd := libc l_open [path; oflags] in
  (if negb (fd =? 0) then taint_set_file AT_FDCWD path fd else ret tt) ;;;
  ret (fd, 0).

Definition dfsw_openat (dirfd path oflags dirfd_label path_label flag_label : Z) : prog (Z * Z) :=
  let! fd := libc l_openat [dirfd; path; oflags] in
  (if negb (fd =? 0) then taint_set_file dirfd path fd else ret tt) ;;;
  ret (fd, 0).

Definition fopen_with (f : libc_fn) (args : list Z) (name : Z) : prog (Z * Z) :=
  let! r := libc f args in
  (if negb (r =? 0) then
     let! fd := libc l_fileno [r] in
     taint_set_file AT_FDCWD name fd
   else ret tt) ;;;
  ret (r, 0).

Definition dfsw_fopen (name mode name_label mode_label : Z) : prog (Z * Z) :=
  fopen_with l_fopen [name; mode] name.
Definition dfsw_fopen64 (name mode name_label mode_label : Z) : prog (Z * Z) :=
  fopen_with l_fopen64 [name; mode] name.
Definition dfsw_freopen (name mode stream name_label mode_label stream_label : Z) : prog (Z * Z) :=
  fopen_with l_freopen [name; mode; stream] name.

Definition dfsw_close (fd fd_label : Z) : prog (Z * Z) :=
  taint_close_file fd ;;;
  let! r := libc l_close [fd] in
  ret (r, 0).

Definition dfsw_fclose (fp fp_label : Z) : prog (Z * Z) :=
  let! fd := libc l_fileno [fp] in
  let! r := libc l_fclose [fp] in
  (if r =? 0 then taint_close_file fd else ret tt) ;;;
  ret (r, 0).

(** The label of the offset of a tainted file. *)
Definition record_offset (offset_label offset : Z) : prog unit :=
  taint_set_offset_label offset_label ;;;
  if negb (offset_label =? 0) then trace_offset offset_label offset 64 else ret tt.

Definition dfsw_lseek (fd offset whence fd_label offset_label whence_label : Z) : prog (Z * Z) :=
  let! r := libc l_lseek [fd; offset; whence] in
  if negb (r =? -1) then
    let! t := is_tainted_fd fd in
    (if t : bool then record_offset offset_label offset else ret tt) ;;;
    ret (r, offset_label)
  else ret (r, 0).

Definition fseek_with (f : libc_fn) (stream offset whence offset_label : Z) : prog (Z * Z) :=
  let! fd := libc l_fileno [stream] in
  let! r := libc f [stream; offset; whence] in
  let! t := (if r =? 0 then is_tainted_fd fd else ret false) in
  (if t : bool then record_offset offset_label offset else ret tt) ;;;
  ret (r, 0).

Definition dfsw_fseek (stream offset whence stream_label offset_label whence_label : Z) : prog (Z * Z) :=
  fseek_with l_fseek stream offset whence offset_label.
Definition dfsw_fseeko (stream offset whence stream_label offset_label whence_label : Z) : prog (Z * Z) :=
  fseek_with l_fseeko stream offset whence offset_label.
Definition dfsw_fseeko64 (stream offset whence stream_label offset_label whence_label : Z) : prog (Z * Z) :=
  fseek_with l_fseeko64 stream offset whence offset_label.

(** ** The login records *)

Definition sizeof_utmpx : Z := 384.

Definition dfsw_utmpxname (file file_label : Z) : prog (Z * Z) :=
  let! t := is_taint_file file in
  (if t : bool then set_utmp_offset 0 else ret tt) ;;;
  let! r := libc l_utmpxname [file] in
  ret (r, 0).

Definition dfsw_setutxent : prog unit :=
  let! t := is_utmp_taint in
  (if t : bool then set_utmp_offset 0 else ret tt) ;;;
  let! _ := libc l_setutxent [] in
  ret tt.

Definition dfsw_getutxent : prog (Z * Z) :=
  let! r := libc l_getutxent [] in
  let! t := is_utmp_taint in
  (if negb (r =? 0) && t then
     let! offset := get_utmp_offset in
     taint_bytes (-1) offset r sizeof_utmpx ;;;
     set_utmp_offset (offset + sizeof_utmpx)
   else ret tt) ;;;
  ret (r, 0).

(** ** The heap *)

(** The condition [0 == size] is always reported as false. *)
Definition check_malloc_size (size size_label : Z) : prog unit :=
  if negb (size_label =? 0) && solve_ub flags then
    let! os := dfsan_union 0 size_label (icmp bveq) 64 0 size in
    trace_cond os false 0 0
  else ret tt.

(** What every allocator does with a block: clean labels and a label for its
    bounds. *)
Definition block_label (p l1 l2 bytes : Z) : prog Z :=
  if negb (p =? 0) then
    modify_labels (zero_labels (shadow_for p) (Z.to_nat bytes)) ;;;
    if trace_bounds flags then dfsan_union l1 l2 Alloca 64 p (u64 (p + bytes)) else ret 0
  else ret 0.

Definition malloc_with (f : libc_fn) (args : list Z) (size size_label : Z) : prog (Z * Z) :=
  check_malloc_size size size_label ;;;
  let! p := libc f args in
  let! l := block_label p 0 size_label size in
  ret (p, l).

Definition dfsw_malloc (size size_label : Z) : prog (Z * Z) := malloc_with l_malloc [size] size size_label.
Definition dfsw___libc_malloc (size size_label : Z) : prog (Z * Z) := malloc_with l_malloc [size] size size_label.
Definition dfsw_aligned_alloc (alignment size alignment_label size_label : Z) : prog (Z * Z) :=
  malloc_with l_aligned_alloc [alignment; size] size size_label.
Definition dfsw_valloc (size size_label : Z) : prog (Z * Z) := malloc_with l_valloc [size] size size_label.
Definition dfsw___libc_valloc (size size_label : Z) : prog (Z * Z) := malloc_with l_valloc [size] size size_label.
Definition dfsw_memalign (alignment size alignment_label size_label : Z) : prog (Z * Z) :=
  malloc_with l_memalign [alignment; size] size size_label.
Definition dfsw___libc_memalign (alignment size alignment_label size_label : Z) : prog (Z * Z) :=
  malloc_with l_memalign [alignment; size] size size_label.
Definition dfsw_pvalloc (size size_label : Z) : prog (Z * Z) := malloc_with l_pvalloc [size] size size_label.
Definition dfsw___libc_pvalloc (size size_label : Z) : prog (Z * Z) := malloc_with l_pvalloc [size] size size_label.

(** The pointer is stored by the library at [memptr]. *)
Definition dfsw_posix_memalign (memptr alignment size memptr_label alignment_label size_label : Z)
    : prog (Z * Z) :=
  check_malloc_size size size_label ;;;
  let! r := libc l_posix_memalign [memptr; alignment; size] in
  let! p := gets (fun s => load_word (memory s) memptr 8) in
  (if (r =? 0) && negb (memptr =? 0) && negb (p =? 0) then
     modify_labels (zero_labels (shadow_for p) (Z.to_nat size)) ;;;
     if trace_bounds flags then
       let! bound := dfsan_union 0 size_label Alloca 64 p (u64 (p + size)) in
       dfsan_set_label bound memptr 8
     else ret tt
   else ret tt) ;;;
  ret (r, 0).

Definition check_calloc_size (nmemb size nmemb_label size_label : Z) : prog unit :=
  if negb (nmemb_label =? 0) || negb (size_label =? 0) then
    let! byte_size := dfsan_union nmemb_label size_label Mul 64 nmemb size in
    check_malloc_size (u64 (nmemb * size)) byte_size
  else ret tt.

Definition dfsw_calloc (nmemb size nmemb_label size_label : Z) : prog (Z * Z) :=
  check_calloc_size nmemb size nmemb_label size_label ;;;
  let! p := libc l_calloc [nmemb; size] in
  let! l := block_label p nmemb_label size_label (u64 (size * nmemb)) in
  ret (p, l).
Definition dfsw___libc_calloc (nmemb size nmemb_label size_label : Z) : prog (Z * Z) :=
  check_calloc_size nmemb size nmemb_label size_label ;;;
  let! p := libc l_calloc [nmemb; size] in
  let! l := block_label p nmemb_label size_label (u64 (size * nmemb)) in
  ret (p, l).

(** [info->op = Free] *)
Definition mark_free (label : Z) : prog unit :=
  modify (on_rt (fun r =>
    let i := get_label_info label r in
    set_infos (<[label := mk_info (i_l1 i) (i_l2 i) (i_op1 i) (i_op2 i) Free (i_size i) (i_hash i)]> (infos r)) r)).

(** "mark old buffer as freed without truely free it" *)
Definition retire (p label : Z) : prog unit :=
  if trace_bounds flags then
    let! info := gets (fun s => get_label_info label (prt s)) in
    if negb (i_op info =? Alloca) then ret tt else mark_free label
  else
    let! _ := libc l_free [p] in ret tt.

(** The old block's bytes and labels go to the new one. *)
Definition move_block (p old n : Z) : prog unit :=
  modify_app (internal_memcpy p old n) ;;;
  modify_labels (memcpy_labels (shadow_for p) (shadow_for old) n).

Definition realloc_with (old new_size old_label new_size_label : Z) : prog (Z * Z) :=
  check_malloc_size new_size new_size_label ;;;
  let! p := libc l_malloc [new_size] in
  let! l := block_label p 0 new_size_label new_size in
  (if negb (old =? 0) then
     (if negb (p =? 0) then
        let! size := libc l_malloc_usable_size [old] in
        move_block p old (if size <? new_size then size else new_size)
      else ret tt) ;;;
     retire old old_label
   else ret tt) ;;;
  ret (p, l).

Definition dfsw_realloc (old new_size old_label new_size_label : Z) : prog (Z * Z) :=
  realloc_with old new_size old_label new_size_label.
Definition dfsw___libc_realloc (old new_size old_label new_size_label : Z) : prog (Z * Z) :=
  realloc_with old new_size old_label new_size_label.

(** The old size is compared with the size of one member. *)
Definition reallocarray_size (usable new_size nmemb : Z) : Z :=
  if usable <? new_size then usable else u64 (new_size * nmemb).

(** [l0] is what the label of the result is when the block gets none. *)
Definition reallocarray_with (l0 old nmemb new_size old_label nmemb_label new_size_label : Z) : prog (Z * Z) :=
  check_calloc_size nmemb new_size nmemb_label new_size_label ;;;
  let! p := libc l_calloc [nmemb; new_size] in
  let! l := (if negb (p =? 0) && trace_bounds flags
             then block_label p nmemb_label new_size_label (u64 (new_size * nmemb))
             else let! _ := block_label p nmemb_label new_size_label (u64 (new_size * nmemb)) in ret l0) in
  (if negb (old =? 0) then
     (if negb (p =? 0) then
        let! size := libc l_malloc_usable_size [old] in
        move_block p old (reallocarray_size size new_size nmemb)
      else ret tt) ;;;
     retire old old_label
   else ret tt) ;;;
  ret (p, l).

Definition dfsw_reallocarray (old nmemb new_size old_label nmemb_label new_size_label : Z) : prog (Z * Z) :=
  reallocarray_with 0 old nmemb new_size old_label nmemb_label new_size_label.

(** This one does not initialise [*ret_label]; [ret_label] is what it held. *)
Definition dfsw___libc_reallocarray (ret_label old nmemb new_size old_label nmemb_label new_size_label : Z)
    : prog (Z * Z) :=
  reallocarray_with ret_label old nmemb new_size old_label nmemb_label new_size_label.

Definition free_with (p label addr : Z) : prog unit :=
  if negb (p =? 0) && trace_bounds flags then
    let! info := gets (fun s => get_label_info label (prt s)) in
    if i_op info =? Alloca then mark_free label
    else if i_op info =? Free
    then in_be (fastgen.taint_trace_memerr cfg label p 0 0 F_MEMERR_FREE addr)
    else ret tt
  else
    let! _ := libc l_free [p] in ret tt.

Definition dfsw_free (p label addr : Z) : prog unit := free_with p label addr.
Definition dfsw___libc_free (p label addr : Z) : prog unit := free_with p label addr.

End wrappers.

End custom.
