(* ===== verification/CustomSys.v ===== *)
(** * Wrappers of system functions: [runtime/dfsan/dfsan_custom.cpp]

    Functions that fill a structure or a buffer: what the system writes has no
    label, what it computes from memory takes the label of that memory, and what
    comes from the tainted socket gets labels of input. *)

From S2P Require Import Prelude Dfsan Cstr HashTable Runtime Pipe Fastgen Libc Custom.
Local Open Scope prog_scope.

Module system.
Import custom.

(** Sizes of structures (Linux/x86-64). *)
Definition sizeof_timespec : Z := 16.
Definition sizeof_timeval : Z := 16.
Definition sizeof_timezone : Z := 8.
Definition sizeof_tm : Z := 56.
Definition sizeof_rlimit : Z := 16.
Definition sizeof_rusage : Z := 144.
Definition sizeof_passwd : Z := 48.
Definition sizeof_epoll_event : Z := 12.
Definition sizeof_pollfd : Z := 8.
Definition sizeof_fd_set : Z := 128.
Definition sizeof_sigset : Z := 128.
Definition sizeof_sigaction : Z := 152.
Definition sizeof_stack : Z := 24.
Definition sizeof_msghdr : Z := 56.
Definition sizeof_mmsghdr : Z := 64.
Definition sizeof_iovec : Z := 16.

Section wrappers.
Context {OS : Type} {LIBC : Libc OS} {LLVM : InstructionDef}.
Context (flags : Flags) (cfg : fastgen.config).

Abbreviation prog := (M (process OS)).
Abbreviation set_label := (dfsan_set_label flags cfg).
Abbreviation read_label := (dfsan_read_label flags cfg).

Definition when (b : bool) (c : prog unit) : prog unit := if b then c else ret tt.

(** A little-endian word of memory. *)
Definition word_at (a : Z) (n : nat) : prog Z := gets (fun s => load_word (memory s) a n).

(** ** Time *)

Definition dfsw_clock_gettime (clk_id tp clk_id_label tp_label : Z) : prog (Z * Z) :=
  let! r := libc l_clock_gettime [clk_id; tp] in
  when (r =? 0) (set_label 0 tp sizeof_timespec) ;;;
  ret (r, 0).

Definition dfsw_nanosleep (req rem req_label rem_label : Z) : prog (Z * Z) :=
  let! r := libc l_nanosleep [req; rem] in
  when (r =? -1) (set_label 0 rem sizeof_timespec) ;;;
  ret (r, 0).

Definition dfsw_ctime_r (timep buf timep_label buf_label : Z) : prog (Z * Z) :=
  let! r := libc l_ctime_r [timep; buf] in
  if negb (r =? 0) then
    let! l := read_label timep 8 in
    let! len := gets (fun s => strlen (memory s) buf) in
    set_label l buf (len + 1) ;;;
    ret (r, buf_label)
  else ret (r, 0).

Definition dfsw_time (t t_label : Z) : prog (Z * Z) :=
  let! r := libc l_time [t] in
  when (negb (r =? -1) && negb (t =? 0)) (set_label 0 t 8) ;;;
  ret (r, 0).

Definition dfsw_localtime_r (timep result timep_label result_label : Z) : prog (Z * Z) :=
  let! r := libc l_localtime_r [timep; result] in
  if negb (r =? 0) then
    let! l := read_label timep 8 in
    set_label l result sizeof_tm ;;;
    ret (r, result_label)
  else ret (r, 0).

Definition dfsw_gettimeofday (tv tz tv_label tz_label : Z) : prog (Z * Z) :=
  let! r := libc l_gettimeofday [tv; tz] in
  when (negb (tv =? 0)) (set_label 0 tv sizeof_timeval) ;;;
  when (negb (tz =? 0)) (set_label 0 tz sizeof_timezone) ;;;
  ret (r, 0).

(** ** The process and the machine *)

Definition dfsw_getcwd (buf size buf_label size_label : Z) : prog (Z * Z) :=
  let! r := libc l_getcwd [buf; size] in
  if negb (r =? 0) then
    let! len := gets (fun s => strlen (memory s) r) in
    set_label 0 r (len + 1) ;;;
    ret (r, buf_label)
  else ret (r, 0).

Definition dfsw_get_current_dir_name : prog (Z * Z) :=
  let! r := libc l_get_current_dir_name [] in
  (if negb (r =? 0) then
     let! len := gets (fun s => strlen (memory s) r) in
     set_label 0 r (len + 1)
   else ret tt) ;;;
  ret (r, 0).

Definition dfsw_getentropy (buffer length buffer_label length_label : Z) : prog (Z * Z) :=
  let! r := libc l_getentropy [buffer; length] in
  when (r =? 0) (set_label 0 buffer length) ;;;
  ret (r, 0).

Definition dfsw_gethostname (name len name_label len_label : Z) : prog (Z * Z) :=
  let! r := libc l_gethostname [name; len] in
  (if r =? 0 then
     let! n := gets (fun s => strlen (memory s) name) in
     set_label 0 name (n + 1)
   else ret tt) ;;;
  ret (r, 0).

Definition dfsw_getrlimit (resource rlim resource_label rlim_label : Z) : prog (Z * Z) :=
  let! r := libc l_getrlimit [resource; rlim] in
  when (r =? 0) (set_label 0 rlim sizeof_rlimit) ;;;
  ret (r, 0).

Definition dfsw_getrusage (who usage who_label usage_label : Z) : prog (Z * Z) :=
  let! r := libc l_getrusage [who; usage] in
  when (r =? 0) (set_label 0 usage sizeof_rusage) ;;;
  ret (r, 0).

Definition dfsw_getpwuid_r (uid pwd buf buflen result uid_label pwd_label buf_label buflen_label result_label : Z)
    : prog (Z * Z) :=
  let! r := libc l_getpwuid_r [uid; pwd; buf; buflen; result] in
  (if r =? 0 then
     set_label 0 pwd sizeof_passwd ;;;
     let! len := gets (fun s => strlen (memory s) buf) in
     set_label 0 buf (len + 1)
   else ret tt) ;;;
  set_label 0 result 8 ;;;
  ret (r, 0).

Definition dfsw_sched_getaffinity (pid cpusetsize mask pid_label cpusetsize_label mask_label : Z) : prog (Z * Z) :=
  let! r := libc l_sched_getaffinity [pid; cpusetsize; mask] in
  when (r =? 0) (set_label 0 mask cpusetsize) ;;;
  ret (r, 0).

Definition dfsw_sigemptyset (set set_label0 : Z) : prog (Z * Z) :=
  let! r := libc l_sigemptyset [set] in
  set_label 0 set sizeof_sigset ;;;
  ret (r, 0).

Definition dfsw_sigaction (signum act oldact signum_label act_label oldact_label : Z) : prog (Z * Z) :=
  let! r := libc l_sigaction [signum; act; oldact] in
  when (negb (oldact =? 0)) (set_label 0 oldact sizeof_sigaction) ;;;
  ret (r, 0).

Definition dfsw_sigaltstack (ss old_ss ss_label old_ss_label : Z) : prog (Z * Z) :=
  let! r := libc l_sigaltstack [ss; old_ss] in
  when (negb (r =? -1) && negb (old_ss =? 0)) (set_label 0 old_ss sizeof_stack) ;;;
  ret (r, 0).

Definition dfsw_pthread_join (thread retval thread_label retval_label : Z) : prog (Z * Z) :=
  let! r := libc l_pthread_join [thread; retval] in
  when ((r =? 0) && negb (retval =? 0)) (set_label 0 retval 8) ;;;
  ret (r, 0).

(** ** Waiting for files *)

Definition dfsw_epoll_wait (epfd events maxevents timeout epfd_label events_label maxevents_label timeout_label : Z)
    : prog (Z * Z) :=
  let! r := libc l_epoll_wait [epfd; events; maxevents; timeout] in
  when (0 <? r) (set_label 0 events (r * sizeof_epoll_event)) ;;;
  ret (r, 0).

(** [&fds[nfds - 1].revents] is at offset 6 of its entry. *)
Fixpoint clear_revents (fds : Z) (nfds : nat) : prog unit :=
  match nfds with
  | O => ret tt
  | S n =>
      set_label 0 (fds + sizeof_pollfd * Z.of_nat n + 6) 2 ;;;
      clear_revents fds n
  end.

Definition dfsw_poll (fds nfds timeout dfs_label nfds_label timeout_label : Z) : prog (Z * Z) :=
  let! r := libc l_poll [fds; nfds; timeout] in
  when (0 <=? r) (clear_revents fds (Z.to_nat nfds)) ;;;
  ret (r, 0).

Definition dfsw_select (nfds readfds writefds exceptfds timeout nfds_label readfds_label writefds_label
    exceptfds_label timeout_label : Z) : prog (Z * Z) :=
  let! r := libc l_select [nfds; readfds; writefds; exceptfds; timeout] in
  when (negb (readfds =? 0)) (set_label 0 readfds sizeof_fd_set) ;;;
  when (negb (writefds =? 0)) (set_label 0 writefds sizeof_fd_set) ;;;
  when (negb (exceptfds =? 0)) (set_label 0 exceptfds sizeof_fd_set) ;;;
  when (negb (timeout =? 0)) (set_label 0 timeout sizeof_timeval) ;;;
  ret (r, 0).

(** ** Addresses of sockets *)

(** [getpeername] and [getsockname]; a [socklen_t] has four bytes. *)
Definition getname_with (f : libc_fn) (sockfd addr addrlen : Z) : prog (Z * Z) :=
  let! origlen := (if negb (addrlen =? 0) then word_at addrlen 4 else ret 0) in
  let! r := libc f [sockfd; addr; addrlen] in
  (if negb (r =? -1) && negb (addr =? 0) && negb (addrlen =? 0) then
     let! len := word_at addrlen 4 in
     set_label 0 addrlen 4 ;;;
     set_label 0 addr (if origlen <? len then origlen else len)
   else ret tt) ;;;
  ret (r, 0).

Definition dfsw_getpeername (sockfd addr addrlen sockfd_label addr_label addrlen_label : Z) : prog (Z * Z) :=
  getname_with l_getpeername sockfd addr addrlen.
Definition dfsw_getsockname (sockfd addr addrlen sockfd_label addr_label addrlen_label : Z) : prog (Z * Z) :=
  getname_with l_getsockname sockfd addr addrlen.

Definition dfsw_getsockopt (sockfd level optname optval optlen sockfd_label level_label optname_label
    optval_label optlen_label : Z) : prog (Z * Z) :=
  let! r := libc l_getsockopt [sockfd; level; optname; optval; optlen] in
  (if negb (r =? -1) && negb (optval =? 0) && negb (optlen =? 0) then
     set_label 0 optlen 4 ;;;
     let! len := word_at optlen 4 in
     set_label 0 optval len
   else ret tt) ;;;
  ret (r, 0).

Definition dfsw_inet_pton (af src dst af_label src_label dst_label : Z) : prog (Z * Z) :=
  let! r := libc l_inet_pton [af; src; dst] in
  (if r =? 1 then
     let! len := gets (fun s => strlen (memory s) src) in
     let! l := read_label src (len + 1) in
     set_label l dst (if af =? AF_INET then 4 else 16)
   else ret tt) ;;;
  ret (r, 0).

Definition EALREADY : Z := 114.
Definition EINPROGRESS : Z := 115.

(** With [errno] after the call. *)
Definition dfsw_connect (sockfd addr addrlen sockfd_label addr_label addrlen_label : Z) : prog (Z * Z) :=
  let! (r, errno) := libc2 l_connect [sockfd; addr; addrlen] in
  when ((r =? 0) || (errno =? EINPROGRESS) || (errno =? EALREADY)) (taint_set_socket addr sockfd) ;;;
  ret (r, 0).

Definition dfsw_socketpair (domain type protocol sv domain_label type_label protocol_label sv_label : Z)
    : prog (Z * Z) :=
  let! r := libc l_socketpair [domain; type; protocol; sv] in
  when (r =? 0) (set_label 0 sv 8) ;;;
  ret (r, 0).

(** ** Receiving *)

(** [dfsan_create_label] of every byte received. *)
Definition create_bytes (offset buf n : Z) : prog unit :=
  label_loop flags cfg (fun i => dfsan_create_label flags cfg (offset + i)) buf 0 (Z.to_nat n).

(** From the result on; "we actually readed something" when the call returned 0
    and the buffer, which was cleared, holds a string. *)
Definition received (sockfd buf r : Z) : prog Z :=
  let! readed := gets (fun s => strlen (memory s) buf) in
  let r := if (r =? 0) && (0 <? readed) then readed else r in
  (if 0 <? r then
     let! offset := taint_get_socket flags sockfd in
     if 0 <=? offset then
       create_bytes offset buf r ;;;
       taint_update_socket_offset sockfd r
     else set_label 0 buf r
   else ret tt) ;;;
  ret r.

Definition dfsw_recv (sockfd buf leng rflags sockfd_label buf_label leng_label flags_label : Z) : prog (Z * Z) :=
  check_bounds flags cfg buf_label buf leng_label leng ;;;
  solve_if flags cfg buf_label buf leng_label leng 1 ;;;
  modify_app (internal_memset buf 0 leng) ;;;
  let! r := libc l_recv [sockfd; buf; leng; rflags] in
  let! r := received sockfd buf r in
  ret (r, 0).

(** [alen] is a local variable that is 0 before the call, and what the call leaves
    in it after. *)
Definition dfsw_recvfrom (sockfd buf leng rflags src_addr addrlen sockfd_label buf_label leng_label flags_label
    src_addr_label addrlen_label : Z) : prog (Z * Z) :=
  check_bounds flags cfg buf_label buf leng_label leng ;;;
  solve_if flags cfg buf_label buf leng_label leng 1 ;;;
  modify_app (internal_memset buf 0 leng) ;;;
  let! (r, alen) := libc2 l_recvfrom [sockfd; buf; leng; rflags; src_addr] in
  let! r := received sockfd buf r in
  when (negb (src_addr =? 0)) (set_label 0 src_addr alen) ;;;
  when (negb (addrlen =? 0)) (modify_app (write_at addrlen (word_bytes 4 alen))) ;;;
  ret (r, 0).

(** The bytes of a message are spread over the entries of [msg_iov]. Every round
    passes to the next of [iovlen] entries. *)
Fixpoint handle_iov (sockfd iov offset bytes_written : Z) (iovlen : nat) : prog unit :=
  if bytes_written =? 0 then ret tt
  else
    match iovlen with
    | O => throw AssertFailure
    | S n =>
        let! base := word_at iov 8 in
        let! len := word_at (iov + 8) 8 in
        let iov_written := if bytes_written <? len then bytes_written else len in
        (if 0 <=? offset then
           create_bytes offset base iov_written ;;;
           taint_update_socket_offset sockfd iov_written
         else set_label 0 base iov_written) ;;;
        handle_iov sockfd (iov + sizeof_iovec) (if 0 <=? offset then offset + iov_written else offset)
          (bytes_written - iov_written) n
    end.

(** [struct msghdr]: name 0, namelen 8, iov 16, iovlen 24, control 32,
    controllen 40. *)
Definition taint_handle_msg (sockfd msg msg_len : Z) : prog unit :=
  let! name := word_at msg 8 in
  let! namelen := word_at (msg + 8) 4 in
  when (negb (name =? 0)) (set_label 0 name namelen) ;;;
  let! control := word_at (msg + 32) 8 in
  let! controllen := word_at (msg + 40) 8 in
  when (negb (control =? 0)) (set_label 0 control controllen) ;;;
  let! offset := taint_get_socket flags sockfd in
  let! iov := word_at (msg + 16) 8 in
  let! iovlen := word_at (msg + 24) 8 in
  handle_iov sockfd iov offset msg_len (Z.to_nat iovlen).

Definition dfsw_recvmsg (sockfd msg rflags sockfd_label msg_label flags_label : Z) : prog (Z * Z) :=
  let! r := libc l_recvmsg [sockfd; msg; rflags] in
  when (0 <=? r) (taint_handle_msg sockfd msg r) ;;;
  ret (r, 0).

(** [msgvec[i].msg_len] is at offset 56 of its entry. *)
Fixpoint handle_msgs (sockfd msgvec : Z) (k : nat) : prog unit :=
  match k with
  | O => ret tt
  | S k' =>
      set_label 0 (msgvec + sizeof_msghdr) 4 ;;;
      let! len := word_at (msgvec + sizeof_msghdr) 4 in
      taint_handle_msg sockfd msgvec len ;;;
      handle_msgs sockfd (msgvec + sizeof_mmsghdr) k'
  end.

Definition dfsw_recvmmsg (sockfd msgvec vlen rflags timeout sockfd_label msgvec_label vlen_label flags_label
    timeout_label : Z) : prog (Z * Z) :=
  let! r := libc l_recvmmsg [sockfd; msgvec; vlen; rflags; timeout] in
  handle_msgs sockfd msgvec (Z.to_nat r) ;;;
  ret (r, 0).

End wrappers.

End system.
