(* ===== verification/Printf.v ===== *)
(** * Formatted output: [Formatter], [format_buffer], [__dfsw_sprintf] and
      [__dfsw_snprintf] of [runtime/dfsan/dfsan_custom.cpp]

    The format is cut into pieces, plain text or one directive each, that the
    library formats one after the other; labels go from the arguments of [%s] to the
    bytes of the output. The format is read once, as a list of characters: it may not
    overlap the output. *)

From S2P Require Import Prelude Dfsan Cstr HashTable Runtime Pipe Fastgen Libc Custom.
Local Open Scope prog_scope.

Module printf.
Import custom.

(** ** [struct Formatter] *)

(** [fmt_start] and [fmt_cur] delimit the piece, which is passed as a list of
    characters. *)
Record Formatter := mk_fmt {
  str : Z;
  str_off : Z;
  size : Z;
  width : Z
}.

Definition set_width x f := mk_fmt (str f) (str_off f) (size f) x.
Definition set_off x f := mk_fmt (str f) x (size f) (width f).

Definition str_cur (f : Formatter) : Z := str f + str_off f.

Definition num_avail (f : Formatter) : Z := if str_off f <? size f then size f - str_off f else 0.

Definition num_written_bytes (f : Formatter) (retval : Z) : Z :=
  if retval <? 0 then 0
  else if num_avail f =? 0 then 0
  else if num_avail f <=? retval then retval - num_avail f
  else retval.

(** The characters that the loops look for. *)
Definition c_percent : Z := 37.
Definition is_int_conv (c : Z) : bool := bool_decide (c ∈ [100; 105; 111; 117; 120; 88]).
Definition is_float_conv (c : Z) : bool := bool_decide (c ∈ [97; 65; 101; 69; 102; 70; 103; 71]).

Section format.
Context {OS : Type} {LIBC : Libc OS} {LLVM : InstructionDef} (flags : Flags) (cfg : fastgen.config).

(** The text that [snprintf] makes of one piece of format, a width if it takes one
    from the arguments, an argument and memory; nothing on an error. *)
Context (render : list Z -> option Z -> option Z -> gmap Z Z -> option (list Z)).

Abbreviation prog := (M (process OS)).

(** [snprintf(str, limit, ...)] *)
Definition snprintf_at (addr limit : Z) (text : option (list Z)) : prog Z :=
  match text with
  | None => ret (-1)
  | Some t =>
      (if 0 <? limit then modify_app (write_at addr (take (Z.to_nat (limit - 1)) t ++ [0])) else ret tt) ;;;
      ret (Z.of_nat (length t))
  end.

(** [Formatter::build_format_string] and [Formatter::format] of a piece. *)
Definition format (f : Formatter) (piece : list Z) (arg : option Z) : prog Z :=
  let! m := gets memory in
  let w := match arg with Some _ => if 0 <=? width f then Some (width f) else None | None => None end in
  snprintf_at (str_cur f) (num_avail f) (render piece w arg m).

(** [va_arg]: undefined when the arguments have run out. *)
Definition va_arg (ap : list Z) : prog (Z * list Z) :=
  match ap with
  | x :: ap' => ret (x, ap')
  | [] => throw Undefined
  end.

(** The loop over plain characters: up to a [%] or the end. *)
Fixpoint skip_plain (cs : list Z) : list Z * list Z :=
  match cs with
  | c :: cs' => if c =? c_percent then ([], cs) else let '(piece, rest) := skip_plain cs' in (c :: piece, rest)
  | [] => ([], [])
  end.

(** One character [c] of a directive, the last of [piece]: the formatter, the
    arguments left, what was returned, and whether the directive ends. *)
Definition conversion (f : Formatter) (piece : list Z) (c : Z) (ap : list Z)
    : prog (Formatter * list Z * Z * bool) :=
  if is_int_conv c || is_float_conv c || (c =? 99) || (c =? 112) then
    let! (x, ap) := va_arg ap in
    let! r := format f piece (Some x) in
    ret (f, ap, r, true)
  else if c =? 115 then
    let! (x, ap) := va_arg ap in
    let! r := format f piece (Some x) in
    modify_labels (memcpy_labels (shadow_for (str_cur f)) (shadow_for x) (num_written_bytes f r)) ;;;
    ret (f, ap, r, true)
  else if c =? 110 then
    let! (x, ap) := va_arg ap in
    modify_app (write_at x (word_bytes 4 (str_off f))) ;;;
    dfsan_set_label flags cfg 0 x 8 ;;;
    ret (f, ap, 0, true)
  else if c =? c_percent then
    let! r := format f piece None in
    dfsan_set_label flags cfg 0 (str_cur f) (num_written_bytes f r) ;;;
    ret (f, ap, r, true)
  else if c =? 42 then
    let! (x, ap) := va_arg ap in
    ret (set_width (signed 32 (u32 x)) f, ap, 0, false)
  else ret (f, ap, 0, false).

(** [for (; *fmt_cur && !end_fmt; ) switch ( *++fmt_cur) ...]: [piece] has the
    characters so far. At the end of the format the loop stops at the NUL, and the
    caller steps over it: what follows is read as format. *)
Fixpoint directive (f : Formatter) (piece cs ap : list Z) : prog (Formatter * list Z * list Z * Z) :=
  match cs with
  | [] => throw Undefined
  | c :: cs' =>
      let piece := piece ++ [c] in
      let! (f, ap, r, ends) := conversion f piece c ap in
      if ends : bool then ret (f, cs', ap, r) else directive f piece cs' ap
  end.

Definition plain (f : Formatter) (cs ap : list Z) : prog (Formatter * list Z * list Z * Z) :=
  let '(piece, rest) := skip_plain cs in
  let! r := format f piece None in
  dfsan_set_label flags cfg 0 (str_cur f) (num_written_bytes f r) ;;;
  ret (f, rest, ap, r).

Fixpoint pieces (fuel : nat) (f : Formatter) (cs ap : list Z) : prog Z :=
  match cs with
  | [] => ret (str_off f)
  | c :: cs' =>
      match fuel with
      | O => throw NoFuel
      | S n =>
          let f := set_width (-1) f in
          let! (f, rest, ap, r) := (if negb (c =? c_percent) then plain f cs ap else directive f [c] cs' ap) in
          if r <? 0 then ret r else pieces n (set_off (str_off f + r) f) rest ap
      end
  end.

(** The fuel is the length of the format ([format_buffer_fuel]). *)
Definition format_buffer (s sz fmt : Z) (ap : list Z) : prog Z :=
  let! m := gets memory in
  let cs := cstring m fmt in
  pieces (length cs) (mk_fmt s 0 sz (-1)) cs ap.

Definition dfsw_sprintf (s fmt s_label fmt_label : Z) (ap : list Z) : prog (Z * Z) :=
  let! r := format_buffer s (2 ^ 64 - 1) fmt ap in
  ret (signed 32 (u32 r), 0).

Definition dfsw_snprintf (s sz fmt s_label sz_label fmt_label : Z) (ap : list Z) : prog (Z * Z) :=
  let! r := format_buffer s sz fmt ap in
  ret (signed 32 (u32 r), 0).

End format.

End printf.
