(* ===== verification/LibcSpec.v ===== *)
(** * Memory functions, strings and the address of a label

    Copies move a block as it was, in whatever way source and destination overlap
    if the direction fits; filling by words is filling by bytes for a byte; a string
    ends; the labels of application memory lie four bytes apart in the shadow. *)

From S2P Require Import Prelude Dfsan Cstr HashTable Runtime Pipe Fastgen Libc.
Local Open Scope prog_scope.

(** ** Shadow addresses *)

Definition app_addr (a : Z) : Prop := kAppAddr <= a < 2 ^ 47.

Lemma shadow_mask_app a : app_addr a -> Z.land a kShadowMask = a - kAppBaseAddr.
Proof.
  intros Ha. replace (a - kAppBaseAddr) with (a mod 2 ^ 44).
  2:{ unfold app_addr, kAppAddr, kAppBaseAddr in *. symmetry. apply (Z.mod_unique _ _ 7); lia. }
  apply Z.bits_inj'. intros i Hi. rewrite Z.land_spec. unfold kShadowMask, wrap.
  change 0x700000000000 with (Z.shiftl 7 44). destruct (Z.lt_ge_cases i 44).
  - rewrite Z.mod_pow2_bits_low, Z.mod_pow2_bits_low by lia. rewrite Z.lnot_spec by done.
    rewrite Z.shiftl_spec, (Z.testbit_neg_r 7) by lia. apply andb_true_r.
  - rewrite (Z.mod_pow2_bits_high a) by lia. destruct (Z.lt_ge_cases i 47).
    + rewrite Z.mod_pow2_bits_low, Z.lnot_spec, Z.shiftl_spec by lia.
      assert (i = 44 \/ i = 45 \/ i = 46) as [->|[->| ->]] by lia; apply andb_false_r.
    + rewrite (testbit_high 47) by (unfold is_u; unfold app_addr, kAppAddr, kAppBaseAddr in *; lia). done.
Qed.

Lemma shadow_for_app a : app_addr a -> shadow_for a = 4 * (a - kAppBaseAddr).
Proof.
  intros Ha. unfold shadow_for. rewrite shadow_mask_app, Z.shiftl_mul_pow2 by done.
  unfold app_addr, kAppAddr, kAppBaseAddr in *. rewrite wrap_small by (unfold is_u; lia). lia.
Qed.

(** The shadow of a block. *)
Lemma shadow_for_add a i : app_addr a -> app_addr (a + i) -> shadow_for (a + i) = shadow_for a + 4 * i.
Proof. intros. rewrite !shadow_for_app by done. lia. Qed.

(** A block of application memory. *)
Definition app_range (a n : Z) : Prop := kAppAddr <= a /\ a + n <= 2 ^ 47.

Lemma app_range_addr a n i : app_range a n -> 0 <= i < n -> app_addr (a + i).
Proof. unfold app_range, app_addr. lia. Qed.

Lemma app_range_base a n : app_range a n -> 0 < n -> app_addr a.
Proof. unfold app_range, app_addr. lia. Qed.

(** ** Copies *)

Lemma mem_insert m a b v : mem (<[a := v]> m) b = if a =? b then v else mem m b.
Proof.
  unfold mem. destruct (Z.eqb_spec a b) as [->|H]; [by rewrite lookup_insert_eq|by rewrite lookup_insert_ne].
Qed.

(** [k] cells of [st] bytes at [d] are what the cells at [s] were; nothing else
    changed. *)
Record copied (st d s : Z) (k : nat) (m m' : gmap Z Z) : Prop := {
  cp_cells : forall j, 0 <= j < Z.of_nat k -> mem m' (d + st * j) = mem m (s + st * j);
  cp_frame : forall a, (forall j, 0 <= j < Z.of_nat k -> a <> d + st * j) -> mem m' a = mem m a
}.

(** An upward copy is right when the destination is not inside the source. *)
Lemma copy_up_copied st k : 0 < st -> forall d s m, d <= s \/ s + st * Z.of_nat k <= d ->
  copied st d s k m (copy_up st d s k m).
Proof.
  intros Hst. induction k as [|k IH]; intros d s m Hd; [by split; intros; [lia|]|].
  destruct (IH (d + st) (s + st) (<[d := default 0 (m !! s)]> m) ltac:(lia)) as [Hc Hf].
  simpl. split.
  - intros j Hj. destruct (Z.eq_dec j 0) as [->|Hj0].
    + rewrite Hf by (intros i Hi; nia). rewrite mem_insert, !Z.mul_0_r, !Z.add_0_r, Z.eqb_refl. done.
    + replace (d + st * j) with (d + st + st * (j - 1)) by lia. rewrite Hc by lia.
      rewrite mem_insert. replace (d =? s + st + st * (j - 1)) with false by nia. f_equal. lia.
  - intros a Ha. rewrite Hf.
    + rewrite mem_insert. specialize (Ha 0 ltac:(lia)). by replace (d =? a) with false by lia.
    + intros j Hj. specialize (Ha (j + 1) ltac:(lia)). lia.
Qed.

Lemma copy_down_copied k : forall d s m, s <= d -> copied 1 d s k m (copy_down d s k m).
Proof.
  induction k as [|k IH]; intros d s m Hd; [by split; intros; [lia|]|].
  destruct (IH d s (<[d + Z.of_nat k := default 0 (m !! (s + Z.of_nat k))]> m) Hd) as [Hc Hf].
  simpl. split.
  - intros j Hj. destruct (Z.eq_dec j (Z.of_nat k)) as [->|Hjk].
    + rewrite Hf by (intros i Hi; lia). by rewrite mem_insert, !Z.mul_1_l, Z.eqb_refl.
    + rewrite Hc by lia. rewrite mem_insert. by replace (d + Z.of_nat k =? s + 1 * j) with false by lia.
  - intros a Ha. rewrite Hf by (intros j Hj; apply Ha; lia). rewrite mem_insert.
    specialize (Ha (Z.of_nat k) ltac:(lia)). by replace (d + Z.of_nat k =? a) with false by lia.
Qed.

(** [internal_memmove] is right for every overlap. *)
Lemma memmove_copied d s n m : 0 <= n < 2 ^ 63 ->
  exists m', internal_memmove d s n m = Ok m' /\ copied 1 d s (Z.to_nat n) m m'.
Proof.
  intros Hn. unfold internal_memmove, signed. change (64 - 1) with 63.
  replace (n <? 2 ^ 63) with true by lia. replace (n <? 0) with false by lia.
  destruct (Z.ltb_spec d s).
  { eexists. split; [done|]. apply copy_up_copied; lia. }
  destruct (Z.ltb_spec s d); simpl.
  - destruct (Z.ltb_spec 0 n).
    + eexists. split; [done|]. by apply copy_down_copied.
    + exists m. split; [done|]. replace (Z.to_nat n) with O by lia. by split; intros; [lia|].
  - exists m. split; [done|]. replace s with d by lia. by split.
Qed.

(** ** Filling *)

Lemma empty_range p a k : k <= 0 -> (p <=? a) && (a <? p + k) = false.
Proof. lia. Qed.

Lemma in_range p a k : p <= a < p + k -> (p <=? a) && (a <? p + k) = true.
Proof. lia. Qed.

Lemma out_range p a k : ~ p <= a < p + k -> (p <=? a) && (a <? p + k) = false.
Proof. lia. Qed.

Lemma mem_write_at bs : forall p m a, mem (write_at p bs m) a =
  if (p <=? a) && (a <? p + Z.of_nat (length bs)) then default 0 (bs !! Z.to_nat (a - p)) else mem m a.
Proof.
  induction bs as [|b bs IH]; intros p m a; simpl.
  { by rewrite empty_range by lia. }
  rewrite IH, mem_insert. destruct (Z.eqb_spec p a) as [->|Hp].
  - replace (a + 1 <=? a) with false by lia. simpl. replace (a <=? a) with true by lia.
    rewrite (proj2 (Z.ltb_lt a (a + Z.of_nat (S (length bs))))) by lia. by rewrite Z.sub_diag.
  - replace (p + 1 <=? a) with (p <=? a) by lia.
    replace (p + 1 + Z.of_nat (length bs)) with (p + Z.of_nat (S (length bs))) by lia.
    destruct ((p <=? a) && _) eqn:E; [|done]. bool_hyps.
    replace (Z.to_nat (a - p)) with (S (Z.to_nat (a - (p + 1)))) by lia. done.
Qed.

(** [k] bytes at [p] are [f] of their position; nothing else changed. *)
Definition filled (p : Z) (k : Z) (f : Z -> Z) (m m' : gmap Z Z) : Prop :=
  forall a, mem m' a = if (p <=? a) && (a <? p + k) then f (a - p) else mem m a.

Lemma memset_bytes_filled c k : forall t m, filled t (Z.of_nat k) (fun _ => u8 c) m (memset_bytes t c k m).
Proof.
  induction k as [|k IH]; intros t m a; simpl.
  { by rewrite empty_range by lia. }
  rewrite (IH _ _ a), mem_insert. destruct (Z.eqb_spec t a) as [->|Ht].
  - replace (a + 1 <=? a) with false by lia. simpl.
    by rewrite in_range by lia.
  - destruct (decide (t <= a < t + Z.of_nat (S k))).
    + by rewrite !in_range by lia.
    + by rewrite !out_range by lia.
Qed.

(** The words are filled when every byte of the word is [b]. *)
Lemma memset_words_filled v b : word_bytes 8 v = replicate 8 b -> forall k p m,
  filled p (16 * Z.of_nat k) (fun _ => b) m (memset_words p v k m).
Proof.
  intros Hv. induction k as [|k IH]; intros p m a; cbn [memset_words].
  { by rewrite empty_range by lia. }
  rewrite (IH _ _ a), Hv, !mem_write_at, length_replicate.
  change (Z.of_nat 8) with 8.
  assert (forall q, 0 <= a - q < 8 -> replicate 8 b !! Z.to_nat (a - q) = Some b) as Hr.
  { intros q Hq. apply lookup_replicate_2. lia. }
  destruct ((p + 16 <=? a) && (a <? p + 16 + 16 * Z.of_nat k)) eqn:E1; bool_hyps.
  { by rewrite in_range by lia. }
  destruct ((p <=? a) && (a <? p + 8)) eqn:E2; bool_hyps.
  { rewrite Hr by lia. by rewrite in_range by lia. }
  destruct ((p + 8 <=? a) && (a <? p + 8 + 8)) eqn:E3; bool_hyps.
  { rewrite Hr by lia. by rewrite in_range by lia. }
  by rewrite out_range by lia.
Qed.

(** Every byte of the word is the byte. *)
Lemma memset_word_bytes c : 0 <= c < 256 -> word_bytes 8 (memset_word c) = replicate 8 c.
Proof.
  intros Hc.
  assert (forallb (fun k => bool_decide (word_bytes 8 (memset_word (Z.of_nat k)) = replicate 8 (Z.of_nat k)))
    (seq 0 256) = true) as H by (vm_compute; reflexivity).
  rewrite forallb_forall in H. specialize (H (Z.to_nat c)). rewrite in_seq, Z2Nat.id in H by lia.
  specialize (H ltac:(lia)). by apply bool_decide_eq_true in H.
Qed.

(** Memory that reads the same. *)
Definition same_mem (m m' : gmap Z Z) : Prop := forall a, mem m a = mem m' a.

Lemma memset_filled s c n m : 0 <= c < 256 -> 0 <= n ->
  filled s n (fun _ => c) m (internal_memset s c n m).
Proof.
  intros Hc Hn. unfold internal_memset. destruct ((s mod 16 =? 0) && (n mod 16 =? 0)) eqn:E; bool_hyps.
  - pose proof (memset_words_filled _ _ (memset_word_bytes c Hc) (Z.to_nat (n / 16)) s m) as H.
    pose proof (Z.div_mod n 16 ltac:(lia)). rewrite Z2Nat.id in H by (apply Z.div_pos; lia).
    by replace (16 * (n / 16)) with n in H by lia.
  - pose proof (memset_bytes_filled c (Z.to_nat n) s m) as H. rewrite Z2Nat.id in H by lia.
    rewrite wrap_small in H by (unfold is_u; lia). done.
Qed.

(** ** Strings *)

(** A run of bytes that are not 0 is no longer than the memory is large. *)
Lemma nonzero_run (m : gmap Z Z) a k : (forall j, 0 <= j < Z.of_nat k -> mem m (a + j) <> 0) -> (k <= size m)%nat.
Proof.
  intros H. rewrite <- (size_dom m).
  assert (size (list_to_set ((fun j => a + Z.of_nat j) <$> seq 0 k) : gset Z) = k) as Hk.
  { rewrite size_list_to_set.
    - by rewrite length_fmap, length_seq.
    - apply NoDup_fmap; [intros x y E; lia|apply NoDup_seq]. }
  rewrite <- Hk at 1. apply subseteq_size. intros x. rewrite elem_of_list_to_set, list_elem_of_fmap.
  intros (j & -> & Hj%elem_of_seq). apply elem_of_dom. specialize (H (Z.of_nat j) ltac:(lia)).
  unfold mem in H. destruct (m !! (a + Z.of_nat j)); [by eexists|done].
Qed.

(** The loop stops at the first byte that is 0. *)
Lemma strlen_fuel_spec (m : gmap Z Z) f : forall a, let n := strlen_fuel m f a in
  0 <= n <= Z.of_nat f /\ (forall j, 0 <= j < n -> mem m (a + j) <> 0) /\
  (mem m (a + n) = 0 \/ n = Z.of_nat f).
Proof.
  induction f as [|f IH]; intros a; cbn [strlen_fuel].
  { split; [lia|]. split; [intros; lia|by right]. }
  destruct (Z.eqb_spec (mem m a) 0) as [E|E].
  { split; [lia|]. split; [intros; lia|left; by rewrite Z.add_0_r]. }
  specialize (IH (a + 1)). cbv zeta in IH |- *. destruct IH as (Hn & Hj & Hz). split; [lia|]. split.
  - intros j Hr. destruct (Z.eq_dec j 0) as [->|]; [by rewrite Z.add_0_r|].
    replace (a + j) with (a + 1 + (j - 1)) by lia. apply Hj. lia.
  - destruct Hz as [Hz|Hz]; [left|right; lia]. rewrite <- Hz. f_equal. lia.
Qed.

(** [strlen]: the fuel is enough, whatever memory holds. *)
Lemma strlen_spec (m : gmap Z Z) a :
  0 <= strlen m a /\ mem m (a + strlen m a) = 0 /\ forall j, 0 <= j < strlen m a -> mem m (a + j) <> 0.
Proof.
  pose proof (strlen_fuel_spec m (S (size m)) a) as H. cbv zeta in H. fold (strlen m a) in H.
  destruct H as (Hn & Hj & [Hz|Hz]); [by split_and!; [lia|done|done]|exfalso].
  pose proof (nonzero_run m a (S (size m))) as Hr. rewrite Hz in Hj. specialize (Hr Hj). lia.
Qed.
