(* ===== verification/CustomSpec.v ===== *)
(** * What the wrappers of the C library do to labels

    The wrappers keep the labels of memory in step with the bytes: a copy takes the
    labels along, input read from the tainted file gets the labels of its bytes,
    a block of the heap has the label of its bounds until it is freed, and a
    comparison with a constant is reported with the constant. *)

From S2P Require Import Prelude Dfsan Cstr HashTable Runtime LabelSem RuntimeSpec TotalSpec InputSpec ShadowSpec BoundsSpec Pipe Fastgen Libc Custom LibcSpec.
Import custom.
Local Open Scope prog_scope.

(** ** Processes *)

Section process.
Context {OS : Type}.
Implicit Types p : process OS.

(** The byte and the label at an address. *)
Definition byte_of (a : Z) p : Z := mem (memory p) a.
Definition label_of (a : Z) p : Z := label_at (shadow_for a) (prt p).

(** No call of the back end is under way. *)
Definition quiet p : Prop := events (prt p) = [].

(** [p'] is [p] with other bytes, labels of bytes and another system. *)
Definition mem_only p p' : Prop :=
  exists sh ap o, p' = set_os o (on_rt (fun r => set_app ap (set_shadow sh r)) p).

Lemma mem_only_refl p : mem_only p p.
Proof. exists (shadow (prt p)), (memory p), (os p). by destruct p as [[[]] ? ? ? ?]. Qed.

Lemma mem_only_trans p1 p2 p3 : mem_only p1 p2 -> mem_only p2 p3 -> mem_only p1 p3.
Proof. intros (sh & ap & o & ->) (sh' & ap' & o' & ->). by exists sh', ap', o'. Qed.

Lemma mem_only_shadow sh p : mem_only p (on_rt (set_shadow sh) p).
Proof. exists sh, (memory p), (os p). by destruct p as [[[]] ? ? ? ?]. Qed.

Lemma mem_only_app ap p : mem_only p (on_rt (set_app ap) p).
Proof. exists (shadow (prt p)), ap, (os p). by destruct p as [[[]] ? ? ? ?]. Qed.

Lemma mem_only_quiet p p' : mem_only p p' -> quiet p -> quiet p'.
Proof. by intros (sh & ap & o & ->). Qed.

(** What it leaves alone. *)
Lemma mem_only_state p p' : mem_only p p' ->
  infos (prt p') = infos (prt p) /\ last_label (prt p') = last_label (prt p) /\
  union_table (prt p') = union_table (prt p) /\ alloc (prt p') = alloc (prt p) /\
  alloca_stack_top (prt p') = alloca_stack_top (prt p) /\
  tainted p' = tainted p /\ current_stdin_offset p' = current_stdin_offset p /\
  fastgen.pipe (be p') = fastgen.pipe (be p).
Proof. by intros (sh & ap & o & ->). Qed.

Lemma mem_only_wf p p' : mem_only p p' -> rt_wf (prt p) -> rt_wf (prt p').
Proof. intros (sh & ap & o & ->) []. by split. Qed.

Lemma mem_only_room p p' k : mem_only p p' -> room (prt p) k -> room (prt p') k.
Proof. intros (sh & ap & o & ->) []. by split. Qed.

Context {LLVM : InstructionDef} (flags : Flags) (cfg : fastgen.config).

(** A call of the runtime that reports nothing. *)
Lemma in_rt_quiet {A} (m : M runtime A) p a r : quiet p -> m (prt p) = (Ok a, r) -> events r = [] ->
  in_rt flags cfg m p = (Ok a, on_rt (fun _ => r) p).
Proof.
  intros Hq E He. unfold in_rt, in_be, fastgen.in_runtime.
  replace (fastgen.no_events (fastgen.rt (be p))) with (prt p).
  2:{ revert Hq. unfold quiet, prt. destruct (fastgen.rt (be p)). simpl. by intros ->. }
  rewrite E, He. cbn. unfold on_rt. do 4 f_equal. destruct r. simpl in *. by subst.
Qed.

Lemma on_rt_const_shadow sh p : on_rt (fun _ => set_shadow sh (prt p)) p = on_rt (set_shadow sh) p.
Proof. done. Qed.

Lemma on_rt_same p : on_rt (fun _ => prt p) p = p.
Proof. by destruct p as [[] ? ? ? ?]. Qed.

(** ** Setting labels *)

Lemma set_label_loop_cells label k : forall q s, exists sh,
  set_label_loop label q k s = (Ok tt, set_shadow sh s) /\
  (forall j, 0 <= j < Z.of_nat k -> mem sh (q + 4 * j) = label) /\
  (forall a, (forall j, 0 <= j < Z.of_nat k -> a <> q + 4 * j) -> mem sh a = mem (shadow s) a).
Proof.
  induction k as [|k IH]; intros q s; simpl.
  { exists (shadow s). split; [by destruct s|]. by split; intros; [lia|]. }
  unfold bind, gets. set (s1 := if label =? label_at q s then s else set_shadow (<[q := label]> (shadow s)) s).
  assert (forall a, mem (shadow s1) a = if q =? a then label else mem (shadow s) a) as Hs1.
  { intros a. subst s1. destruct (Z.eqb_spec label (label_at q s)) as [E|E]; simpl; [|by rewrite mem_insert].
    destruct (Z.eqb_spec q a) as [<-|]; [|done]. by rewrite E. }
  destruct (IH (q + 4) s1) as (sh & E & Hc & Hf). exists sh. split_and!.
  - replace ((if label =? label_at q s then ret tt else _) s) with (Ok tt, s1) by (subst s1; by case_if).
    rewrite E. subst s1. by case_if.
  - intros j Hj. destruct (Z.eq_dec j 0) as [->|].
    + rewrite Hf by lia. rewrite Hs1, Z.mul_0_r, Z.add_0_r. by rewrite Z.eqb_refl.
    + replace (q + 4 * j) with (q + 4 + 4 * (j - 1)) by lia. apply Hc. lia.
  - intros a Ha. rewrite Hf by (intros j Hj; specialize (Ha (j + 1) ltac:(lia)); lia).
    rewrite Hs1. specialize (Ha 0 ltac:(lia)). by replace (q =? a) with false by lia.
Qed.

(** [n] bytes from [a] on have the label [label]; nothing else changed. *)
Lemma set_label_run label a n p : quiet p -> app_range a n -> 0 <= n ->
  exists p', dfsan_set_label flags cfg label a n p = (Ok tt, p') /\ mem_only p p' /\
    memory p' = memory p /\ os p' = os p /\
    (forall i, 0 <= i < n -> label_of (a + i) p' = label) /\
    (forall b, app_addr b -> ~ a <= b < a + n -> label_of b p' = label_of b p).
Proof.
  intros Hq Ha Hn. destruct (set_label_loop_cells label (Z.to_nat n) (shadow_for a) (prt p)) as (sh & E & Hc & Hf).
  rewrite Z2Nat.id in * by done. exists (on_rt (set_shadow sh) p). split_and!.
  - unfold dfsan_set_label. rewrite <- on_rt_const_shadow. apply in_rt_quiet; [done| |done].
    unfold Runtime.dfsan_set_label. destruct Ha as [Ha _]. unfold kAppAddr, kAppBaseAddr in Ha.
    by replace (a =? 0) with false by lia.
  - apply mem_only_shadow.
  - done.
  - done.
  - intros i Hi. unfold label_of. rewrite shadow_for_add; [by apply Hc|by apply (app_range_base a n); [|lia]|by eapply app_range_addr].
  - intros b Hb Hout. unfold label_of. apply Hf. intros j Hj.
    pose proof (app_range_base a n Ha ltac:(lia)). rewrite !shadow_for_app by done. lia.
Qed.

(** ** Accesses that are in order *)

(** The access of [n] bytes at [a] through the label [l] is not reported. *)
Definition access_ok (r : runtime) (l a n : Z) : Prop :=
  trace_bounds flags = false \/
  (a <> 0 /\ l <> kInitializingLabel /\ i_op (get_label_info l r) <> Free /\
   (i_op (get_label_info l r) = Alloca ->
    i_op1 (get_label_info l r) <= a /\ a + n <= i_op2 (get_label_info l r) < 2 ^ 64)).

(** The size is concrete, or sizes are not solved. *)
Definition size_ok (n_label : Z) : Prop := n_label = 0 \/ solve_ub flags = false.

Lemma check_bounds_quiet p l a sl n : quiet p -> access_ok (prt p) l a n -> 0 <= a -> is_u 64 n ->
  check_bounds flags cfg l a sl n p = (Ok tt, p).
Proof.
  intros Hq Hok Ha Hn. unfold check_bounds. rewrite wrap_small by done.
  rewrite <- (on_rt_same p) at 2. apply in_rt_quiet; [done| |done]. unfold taint_check_bounds.
  destruct Hok as [->|(H0 & Hl & Hf & Hb)]; [done|]. destruct (trace_bounds flags); [|done].
  apply Z.eqb_neq in H0, Hl, Hf. rewrite H0, Hl. unfold bind, gets. rewrite Hf.
  destruct (Z.eqb_spec (i_op (get_label_info l (prt p))) Alloca) as [E|]; [|done].
  specialize (Hb E). replace (a <? _) with false by lia.
  rewrite wrap_small by (unfold is_u in *; lia).
  by replace ((_ <? a + n) || (a + n <? _)) with false by (unfold is_u in *; lia).
Qed.

Lemma solve_bounds_quiet p l a nl n e : quiet p -> size_ok nl -> solve_bounds flags cfg l a nl n e p = (Ok tt, p).
Proof.
  intros Hq Hok. unfold solve_bounds. rewrite <- (on_rt_same p) at 2. apply in_rt_quiet; [done| |done].
  unfold taint_solve_bounds.
  assert ((nl =? 0) || negb (solve_ub flags) = true) as ->; [|done].
  destruct Hok as [->| ->]; [done|apply orb_true_r].
Qed.

Lemma solve_if_quiet p l a nl n e : quiet p -> size_ok nl -> solve_if flags cfg l a nl n e p = (Ok tt, p).
Proof. intros. unfold solve_if. destruct (negb _); [by apply solve_bounds_quiet|done]. Qed.

(** ** Copies with their labels *)

Lemma read_labels_lookup k : forall q m j, (j < k)%nat ->
  read_labels q k m !! j = Some (mem m (q + 4 * Z.of_nat j)).
Proof.
  induction k as [|k IH]; intros q m j Hj; [lia|]. destruct j as [|j]; simpl.
  - by rewrite Z.add_0_r.
  - rewrite IH by lia. do 2 f_equal. lia.
Qed.

Lemma write_labels_cells tmp : forall q m,
  (forall j l, tmp !! j = Some l -> mem (write_labels q tmp m) (q + 4 * Z.of_nat j) = l) /\
  (forall a, (forall j, (j < length tmp)%nat -> a <> q + 4 * Z.of_nat j) ->
     mem (write_labels q tmp m) a = mem m a).
Proof.
  induction tmp as [|l tmp IH]; intros q m; [done|]. simpl.
  destruct (IH (q + 4) (<[q := l]> m)) as [Hc Hf]. split.
  - intros j l' Hj. destruct j as [|j]; simpl in Hj.
    + injection Hj as <-. rewrite Hf by (intros; lia). by rewrite mem_insert, Z.add_0_r, Z.eqb_refl.
    + rewrite <- (Hc j l' Hj). f_equal. lia.
  - intros a Ha. rewrite Hf.
    + rewrite mem_insert. specialize (Ha O ltac:(lia)). by replace (q =? a) with false by lia.
    + intros j Hj. specialize (Ha (S j) ltac:(lia)). lia.
Qed.

Lemma length_read_labels k : forall q m, length (read_labels q k m) = k.
Proof. induction k as [|k IH]; intros; simpl; [done|]. by rewrite IH. Qed.

(** The labels are read before they are written. *)
Lemma labels_copied d s k m : copied 4 d s k m (write_labels d (read_labels s k m) m).
Proof.
  destruct (write_labels_cells (read_labels s k m) d m) as [Hc Hf]. split.
  - intros j Hj. rewrite <- (Z2Nat.id j) by lia. apply Hc. rewrite read_labels_lookup by lia. done.
  - intros a Ha. apply Hf. intros j Hj. rewrite length_read_labels in Hj. apply Ha. lia.
Qed.

(** [n] bytes at [d] and their labels are what those at [s] were; nothing else
    of application memory changed. *)
Record block_moved (d s n : Z) p p' : Prop := {
  bm_bytes : forall i, 0 <= i < n -> byte_of (d + i) p' = byte_of (s + i) p /\
    label_of (d + i) p' = label_of (s + i) p;
  bm_frame : forall a, app_addr a -> ~ d <= a < d + n ->
    byte_of a p' = byte_of a p /\ label_of a p' = label_of a p
}.

Lemma block_moved_copied d s n p p' : app_range d n -> app_range s n -> 0 <= n ->
  copied 1 d s (Z.to_nat n) (memory p) (memory p') ->
  copied 4 (shadow_for d) (shadow_for s) (Z.to_nat n) (shadow (prt p)) (shadow (prt p')) ->
  block_moved d s n p p'.
Proof.
  intros Hd Hs Hn [Hc Hf] [Lc Lf]. rewrite Z2Nat.id in * by done. split.
  - intros i Hi. split.
    + specialize (Hc i Hi). by rewrite !Z.mul_1_l in Hc.
    + pose proof (app_range_base d n Hd ltac:(lia)). pose proof (app_range_base s n Hs ltac:(lia)).
      pose proof (app_range_addr d n i Hd Hi). pose proof (app_range_addr s n i Hs Hi).
      unfold label_of. rewrite !shadow_for_add by done. by apply Lc.
  - intros a Ha Hout. split; [apply Hf; intros j Hj; lia|]. apply Lf. intros j Hj.
    pose proof (app_range_base d n Hd ltac:(lia)). rewrite !shadow_for_app by done. lia.
Qed.

(** [dfsan_memcpy]: the destination is not inside the source. *)
Lemma memcpy_run d s n p : app_range d n -> app_range s n -> 0 <= n -> d <= s \/ s + n <= d ->
  exists p', dfsan_memcpy d s n p = (Ok tt, p') /\ mem_only p p' /\ os p' = os p /\ block_moved d s n p p'.
Proof.
  intros Hd Hs Hn Hov. unfold dfsan_memcpy. destruct (Z.eqb_spec n 0) as [->|Hn0].
  { exists p. split_and!; [done|apply mem_only_refl|done|]. split; [lia|done]. }
  pose proof (app_range_base d n Hd ltac:(lia)). pose proof (app_range_base s n Hs ltac:(lia)).
  eexists. split; [done|]. split_and!.
  - eapply mem_only_trans; [apply mem_only_shadow|apply mem_only_app].
  - done.
  - apply block_moved_copied; try done.
    + apply copy_up_copied; lia.
    + apply copy_up_copied; [lia|]. rewrite !shadow_for_app by done. lia.
Qed.

(** ** Calls of the library *)

Context {LIBC : Libc OS}.

Lemma libc_run f args p : exists p',
  libc f args p = (Ok (r_ret (fst (libc_call f args (memory p) (os p)))), p') /\ mem_only p p' /\
  shadow (prt p') = shadow (prt p) /\ os p' = snd (libc_call f args (memory p) (os p)) /\
  memory p' = apply_writes (r_writes (fst (libc_call f args (memory p) (os p)))) (memory p).
Proof.
  unfold libc, libc2, bind, ret. destruct (libc_call f args (memory p) (os p)) as [r o] eqn:E. simpl.
  eexists. split; [done|]. split; [|done]. exists (shadow (prt p)), (apply_writes (r_writes r) (memory p)), o.
  by destruct p as [[[]] ? ? ? ?].
Qed.

(** ** Labels from the runtime *)

Lemma union_quiet p l1 l2 op sz a b l r : quiet p -> is_u 16 op -> is_u 16 sz -> is_u 32 l ->
  taint_union flags l1 l2 op sz a b (prt p) = (Ok l, r) -> events r = [] ->
  dfsan_union flags cfg l1 l2 op sz a b p = (Ok l, on_rt (fun _ => r) p).
Proof.
  intros Hq Hop Hsz Hl E He. pose proof (in_rt_quiet _ p l r Hq E He) as H.
  unfold dfsan_union, fastgen.dfsan_union, in_be, bind, ret. rewrite (wrap_small 16 op), (wrap_small 16 sz) by done.
  unfold in_rt, in_be in H. destruct (fastgen.in_runtime _ _ _ (be p)) as [x b']. injection H as -> ->.
  by rewrite (wrap_small 32 l).
Qed.

(** A new or known record: its label has the record. *)
Lemma intern_run info a b s j : rt_wf s -> 0 <= j -> room s (7 + j) ->
  0 <= i_l1 info <= last_label s -> 0 <= i_l2 info <= last_label s ->
  exists l s', union_intern flags (taint_union_fuel flags 1) info a b s = (Ok l, s') /\
    rt_wf s' /\ extends s s' /\ room s' j /\ 1 <= l <= last_label s' /\ is_u 32 l /\
    info_eqb (info_at (infos s') l) info = true.
Proof.
  intros Hw Hj Hr H1 H2.
  destruct (union_intern_total flags (taint_union_fuel flags 1) (last_label s)) with
    (info := info) (a := a) (b := b) (s := s) (j := j) as (l & s' & E & _ & _ & Hrj); try done; try lia.
  { intros. by apply taint_union_icmp_total. }
  destruct (union_intern_spec flags _ (taint_union_fuel_grows flags 1) _ _ _ _ _ _ Hw (proj1 H1) (proj1 H2) E)
    as (Hw' & He & Hl & Hi).
  pose proof (wf_last _ Hw'). pose proof (wf_top _ Hw'). exists l, s'. split_and!; try done; unfold is_u; lia.
Qed.

(** ** The heap *)

(** The label of the bounds of a block. *)
Lemma bounds_union_eq s sl a b : rt_wf s -> 0 <= sl <= last_label s -> is_kind_of_label sl Alloca s = false ->
  taint_union flags 0 sl Alloca 64 a b s =
  union_intern flags (taint_union_fuel flags 1) (union_info s 0 sl Alloca 64 a b) a b s.
Proof.
  intros Hw Hl Hk. pose proof (wf_last _ Hw). pose proof (wf_top _ Hw). pose proof instruction_order as HO.
  unfold taint_union. cbn [taint_union_fuel]. unfold taint_union_with at 1.
  assert (Z.land Alloca 255 = Alloca) as HA.
  { change 255 with (Z.ones 8). rewrite Z.land_ones, Z.mod_small by (unfold_ops; lia). done. }
  assert (is_valid_op Alloca = true) as ->.
  { unfold is_valid_op. rewrite HA. unfold_ops. lia. }
  replace (sl <? 0) with false by lia. cbn [andb negb]. rewrite (Z.eqb_refl Alloca). change (negb true) with false.
  rewrite !andb_false_r. unfold kInitializingLabel. replace (sl =? 2 ^ 32 - 1) with false by lia.
  change (0 =? 2 ^ 32 - 1) with false. cbn [orb]. unfold bind at 1, gets, id.
  unfold union_bounds. rewrite Hk, andb_false_r.
  assert (is_kind_of_label 0 Alloca s = false) as ->.
  { unfold is_kind_of_label, get_label_info. rewrite (wf_const _ Hw). simpl. lia. }
  cbn [orb]. unfold union_operands. rewrite HA.
  replace (Alloca =? fmemcmp) with false by (unfold_ops; lia). rewrite Z.eqb_refl. cbn [andb negb].
  unfold union_simplify, simplify_left, simplify_right. ops. ops.
  replace (if a =? 0 then inr Alloca else _) with (inr Alloca : Z + Z) by (by repeat case_if).
  cbv iota. ops. by rewrite andb_false_r.
Qed.

Lemma zero_labels_eq k : forall q m, zero_labels q k m = write_labels q (replicate k 0) m.
Proof. induction k as [|k IH]; intros; simpl; [done|]. apply IH. Qed.

(** The labels of a block are cleaned. *)
Lemma clean_labels a n p : app_range a n -> 0 <= n ->
  let p' := on_rt (set_shadow (zero_labels (shadow_for a) (Z.to_nat n) (shadow (prt p)))) p in
  (forall i, 0 <= i < n -> label_of (a + i) p' = 0) /\
  (forall b, app_addr b -> ~ a <= b < a + n -> label_of b p' = label_of b p).
Proof.
  intros Ha Hn p'. destruct (write_labels_cells (replicate (Z.to_nat n) 0) (shadow_for a) (shadow (prt p))) as [Hc Hf].
  rewrite <- zero_labels_eq in Hc, Hf. rewrite length_replicate in Hf. split.
  - intros i Hi. pose proof (app_range_addr a n i Ha Hi). pose proof (app_range_base a n Ha ltac:(lia)).
    unfold label_of. rewrite shadow_for_add, <- (Z2Nat.id i) by (done || lia).
    apply Hc, lookup_replicate_2. lia.
  - intros b Hb Hout. apply Hf. intros j Hj. pose proof (app_range_base a n Ha ltac:(lia)).
    rewrite !shadow_for_app by done. lia.
Qed.

(** A block: clean labels, and a label of its bounds. *)
Lemma block_label_run a sl n p : quiet p -> trace_bounds flags = true -> solve_ub flags = false ->
  rt_wf (prt p) -> room (prt p) 7 -> 0 <= sl <= last_label (prt p) ->
  is_kind_of_label sl Alloca (prt p) = false -> app_range a n -> 0 <= n ->
  exists l p', block_label flags cfg a 0 sl n p = (Ok l, p') /\ quiet p' /\ memory p' = memory p /\
    1 <= l <= last_label (prt p') /\ rt_wf (prt p') /\ be p' = fastgen.set_rt (prt p') (be p) /\
    (forall i, 0 <= i < n -> label_of (a + i) p' = 0) /\
    (forall b, app_addr b -> ~ a <= b < a + n -> label_of b p' = label_of b p) /\
    i_op (get_label_info l (prt p')) = Alloca /\
    i_op1 (get_label_info l (prt p')) = a /\ i_op2 (get_label_info l (prt p')) = a + n.
Proof.
  intros Hq Hb Hub Hw Hr Hsl Hk Ha Hn. unfold block_label. rewrite Hb.
  replace (a =? 0) with false by (destruct Ha as [Ha _]; unfold kAppAddr, kAppBaseAddr in Ha; lia). cbn [negb].
  rewrite (wrap_small 64 (a + n)) by (unfold is_u, app_range, kAppAddr, kAppBaseAddr in *; lia).
  set (sh := zero_labels (shadow_for a) (Z.to_nat n) (shadow (prt p))). set (p1 := on_rt (set_shadow sh) p).
  assert (mem_only p p1) as Hm by apply mem_only_shadow.
  pose proof (mem_only_wf _ _ Hm Hw) as Hw1. pose proof (mem_only_room _ _ _ Hm Hr) as Hr1.
  destruct (intern_run (union_info (prt p1) 0 sl Alloca 64 a (a + n)) a (a + n) (prt p1) 0 Hw1 ltac:(lia) Hr1)
    as (l & r & E & Hwr & He & _ & Hl & Hu & Hi); [simpl; pose proof (wf_last _ Hw); lia|done|].
  assert (taint_union flags 0 sl Alloca 64 a (a + n) (prt p1) = (Ok l, r)) as EU by (by rewrite bounds_union_eq).
  pose proof (taint_union_silent flags _ _ _ _ _ _ _ _ _ Hw1 Hub EU) as Hev.
  exists l, (on_rt (fun _ => r) p1). pose proof instruction_order as HO.
  apply info_eqb_eq in Hi as (_ & _ & I3 & _ & I5 & I6).
  assert (forall b, label_of b (on_rt (fun _ => r) p1) = label_of b p1) as Hlab.
  { intros b. unfold label_of, label_at. change (prt (on_rt (fun _ => r) p1)) with r. by rewrite (ext_shadow _ _ He). }
  destruct (clean_labels a n p Ha Hn) as [Hc Hf]. split_and!.
  - unfold bind, modify_labels, modify. apply union_quiet; try done.
    + unfold is_u. lia.
    + by rewrite Hev.
  - unfold quiet. change (prt (on_rt (fun _ => r) p1)) with r. by rewrite Hev.
  - unfold memory. change (prt (on_rt (fun _ => r) p1)) with r. by rewrite (ext_app _ _ He).
  - apply Hl.
  - apply Hl.
  - done.
  - done.
  - intros i Hin. rewrite Hlab. by apply Hc.
  - intros b Hb' Hout. rewrite Hlab. by apply Hf.
  - exact I3.
  - exact I5.
  - exact I6.
Qed.

(** A report of a second [free] goes nowhere. *)
Lemma free_report_dropped l a addr p :
  in_be (fastgen.taint_trace_memerr cfg l a 0 0 F_MEMERR_FREE addr) p = (Ok tt, p).
Proof.
  assert (fastgen.taint_trace_memerr cfg l a 0 0 F_MEMERR_FREE addr = ret tt) as E.
  { unfold fastgen.taint_trace_memerr. case_if; [done|]. by case_if. }
  unfold in_be. rewrite E. by destruct p.
Qed.

Lemma mark_free_info l p : get_label_info l (prt (on_rt (fun r =>
    let i := get_label_info l r in
    set_infos (<[l := mk_info (i_l1 i) (i_l2 i) (i_op1 i) (i_op2 i) Free (i_size i) (i_hash i)]> (infos r)) r) p))
  = let i := get_label_info l (prt p) in
    mk_info (i_l1 i) (i_l2 i) (i_op1 i) (i_op2 i) Free (i_size i) (i_hash i).
Proof. unfold get_label_info at 1. simpl. by rewrite info_at_insert, decide_True. Qed.

(** An access to a freed block. *)
Lemma check_bounds_freed s l addr sl n : trace_bounds flags = true -> exit_on_memerror flags = false ->
  l <> kInitializingLabel -> addr <> 0 -> i_op (get_label_info l s) = Free ->
  taint_check_bounds flags l addr sl n s = (Ok tt, add_event (trace_memerr l addr sl n F_MEMERR_UAF) s).
Proof.
  intros Hb Hx Hl Ha Ho. unfold taint_check_bounds. apply Z.eqb_neq in Hl, Ha. rewrite Hb, Hl, Ha.
  unfold bind, gets. rewrite Ho, Z.eqb_refl. unfold memerr, emit, modify, bind. by rewrite Hx.
Qed.

(** C27: the life of a block of the heap. [malloc] of [n] bytes gives it clean
    labels and a pointer label with which an access is reported exactly when it
    leaves the block; once it is freed every access is reported as a use after
    free; freeing it again is found out, and yet nothing is sent. *)
Theorem heap_lifecycle p n sl a pc :
  trace_bounds flags = true -> exit_on_memerror flags = false -> solve_ub flags = false ->
  quiet p -> rt_wf (prt p) -> room (prt p) 7 ->
  0 <= sl <= last_label (prt p) -> is_kind_of_label sl Alloca (prt p) = false ->
  r_ret (fst (libc_call l_malloc [n] (memory p) (os p))) = a -> app_range a n -> 0 <= n ->
  exists l p1 p2,
    dfsw_malloc flags cfg n sl p = (Ok (a, l), p1) /\
    (forall i, 0 <= i < n -> label_of (a + i) p1 = 0) /\
    (forall addr al k, 0 < addr < 2 ^ 64 -> 0 <= k <= a ->
       taint_check_bounds flags l addr al k (prt p1) =
       (Ok tt, reported (verdict addr k a (a + n)) l addr al k (prt p1))) /\
    dfsw_free flags cfg a l pc p1 = (Ok tt, p2) /\
    (forall addr al k, addr <> 0 ->
       taint_check_bounds flags l addr al k (prt p2) =
       (Ok tt, add_event (trace_memerr l addr al k F_MEMERR_UAF) (prt p2))) /\
    dfsw_free flags cfg a l pc p2 = (Ok tt, p2).
Proof.
  intros Hb Hx Hub Hq Hw Hr Hsl Hk Hret Ha Hn.
  destruct (libc_run l_malloc [n] p) as (p0 & E0 & Hm & _). rewrite Hret in E0.
  pose proof (mem_only_state _ _ Hm) as (Si & Sl & _).
  assert (is_kind_of_label sl Alloca (prt p0) = false) as Hk0.
  { unfold is_kind_of_label, get_label_info. by rewrite Si. }
  destruct (block_label_run a sl n p0) as (l & p1 & E1 & Hq1 & _ & Hl & Hw1 & _ & Hz & _ & Io & I1 & I2);
    try done; [by eapply mem_only_quiet|by eapply mem_only_wf|by eapply mem_only_room|by rewrite Sl|].
  pose proof (wf_last _ Hw1). pose proof (wf_top _ Hw1). pose proof instruction_order as HO.
  assert (l <> kInitializingLabel) as Hli by (unfold kInitializingLabel; lia).
  assert (a <> 0) as Ha0 by (destruct Ha as [Ha _]; unfold kAppAddr, kAppBaseAddr in Ha; lia). apply Z.eqb_neq in Ha0.
  eexists l, p1, _. split_and!.
  - unfold dfsw_malloc, malloc_with, check_malloc_size. rewrite Hub, andb_false_r.
    unfold bind at 1, ret at 1. erewrite bind_eq by exact E0. by erewrite bind_eq by exact E1.
  - done.
  - intros addr al k Haddr Hka. apply check_bounds_run; try done.
    unfold app_range, kAppAddr, kAppBaseAddr in Ha. lia.
  - unfold dfsw_free, free_with. rewrite Ha0, Hb. cbn [negb andb]. unfold bind, gets.
    by rewrite Io, Z.eqb_refl.
  - intros addr al k Haddr. apply check_bounds_freed; try done. by rewrite mark_free_info.
  - unfold dfsw_free, free_with. rewrite Ha0, Hb. cbn [negb andb]. unfold bind at 1, gets.
    rewrite mark_free_info. cbv zeta. cbn [i_op]. rewrite Z.eqb_refl.
    replace (Free =? Alloca) with false by (unfold_ops; lia). apply free_report_dropped.
Qed.

(** The checks before a copy pass. *)
Lemma copy_guards {A} (k : M (process OS) A) d s n dl sl nl p : quiet p ->
  access_ok (prt p) sl s n -> access_ok (prt p) dl d n -> size_ok nl -> 0 <= d -> 0 <= s -> is_u 64 n ->
  (check_bounds flags cfg sl s nl n ;;; check_bounds flags cfg dl d nl n ;;;
   (if negb (nl =? 0) then solve_bounds flags cfg sl s nl n 1 ;;; solve_bounds flags cfg dl d nl n 1 else ret tt) ;;;
   k) p = k p.
Proof.
  intros Hq Hs Hd Hsz Hd0 Hs0 Hn.
  rewrite (bind_eq _ _ p tt p) by (by apply check_bounds_quiet).
  rewrite (bind_eq _ _ p tt p) by (by apply check_bounds_quiet).
  rewrite (bind_eq _ _ p tt p); [done|]. destruct (negb (nl =? 0)); [|done].
  rewrite (bind_eq _ _ p tt p); by apply solve_bounds_quiet.
Qed.

(** C33: [memmove] moves a block with its labels, however source and destination
    overlap, and so does [memcpy] unless the destination begins inside the source;
    nothing else of application memory, no label and no message is touched. *)
Theorem copies_move d s n dl sl nl p : quiet p ->
  access_ok (prt p) sl s n -> access_ok (prt p) dl d n -> size_ok nl ->
  app_range d n -> app_range s n -> 0 <= n ->
  (exists p', dfsw_memmove flags cfg d s n dl sl nl p = (Ok (d, dl), p') /\ mem_only p p' /\ block_moved d s n p p') /\
  (d <= s \/ s + n <= d ->
   exists p', dfsw_memcpy flags cfg d s n dl sl nl p = (Ok (d, dl), p') /\ mem_only p p' /\ block_moved d s n p p').
Proof.
  intros Hq Hs Hd Hsz Rd Rs Hn.
  assert (0 <= d /\ 0 <= s /\ n < 2 ^ 63) as (Hd0 & Hs0 & Hn63) by (unfold app_range, kAppAddr, kAppBaseAddr in *; lia).
  assert (is_u 64 n) by (unfold is_u; lia). split.
  - unfold dfsw_memmove. rewrite copy_guards by done.
    destruct (memmove_copied d s n (memory p)) as (m' & E & Hc); [lia|].
    unfold bind at 1 2 3, gets, lift. rewrite E. eexists. split; [done|]. split.
    + eapply mem_only_trans; [apply (mem_only_app m')|apply mem_only_shadow].
    + apply block_moved_copied; try done. apply labels_copied.
  - intros Hov. unfold dfsw_memcpy. rewrite copy_guards by done.
    destruct (memcpy_run d s n p Rd Rs Hn Hov) as (p' & E & Hm & _ & Hbm).
    exists p'. by rewrite (bind_eq _ _ _ _ _ E).
Qed.

(** ** Input *)

(** [fd] is the tainted file of [n] bytes, not read as standard input; the labels
    of its bytes were made at start ([init_input_spec]). *)
Record input_file (fd n : Z) p : Prop := {
  if_fd : f_fd (tainted p) = fd;
  if_size : f_size (tainted p) = n;
  if_stdin : is_stdin (tainted p) = false;
  if_force : fd = 0 -> force_stdin flags = false;
  if_last : n <= last_label (prt p);
  if_infos : forall i, 0 <= i < n -> info_at (infos (prt p)) (i + 1) = input_info i
}.

Lemma input_file_mem_only fd n p p' : mem_only p p' -> input_file fd n p -> input_file fd n p'.
Proof.
  intros Hm []. pose proof (mem_only_state _ _ Hm) as (Ei & El & _ & _ & _ & Et & _).
  by split; rewrite ?Ei, ?El, ?Et.
Qed.

Lemma get_label_for_run fd n p o : input_file fd n p -> get_label_for flags cfg fd o p = (Ok (u32 (o + 1)), p).
Proof.
  intros []. unfold get_label_for, is_stdin_taint, bind, gets. rewrite if_stdin0. cbn [orb].
  destruct (Z.eqb_spec fd 0) as [E|]; [|done]. by rewrite if_force0.
Qed.

Lemma is_tainted_run fd n p : input_file fd n p -> 0 < n -> is_tainted_fd flags fd p = (Ok true, p).
Proof.
  intros [] Hn. unfold is_tainted_fd, taint_get_file, bind, gets, ret.
  rewrite if_fd0, Z.eqb_refl, if_size0. by replace (n =? 0) with false by lia.
Qed.

(** The loop over the bytes read. *)
Lemma label_loop_run fd n o buf k : 0 <= o -> forall i p, quiet p -> input_file fd n p -> 0 <= i ->
  app_range buf (i + Z.of_nat k) -> o + i + Z.of_nat k < 2 ^ 32 ->
  exists p', label_loop flags cfg (fun i => get_label_for flags cfg fd (o + i)) buf i k p = (Ok tt, p') /\
    mem_only p p' /\ memory p' = memory p /\ os p' = os p /\
    (forall j, i <= j < i + Z.of_nat k -> label_of (buf + j) p' = o + j + 1) /\
    (forall b, app_addr b -> ~ buf + i <= b < buf + i + Z.of_nat k -> label_of b p' = label_of b p).
Proof.
  intros Ho. induction k as [|k IH]; intros i p Hq Hin Hi Hr H32; cbn [label_loop].
  { exists p. split_and!; [done|apply mem_only_refl|done|done|lia|done]. }
  erewrite bind_eq by (by eapply get_label_for_run).
  destruct (set_label_run (u32 (o + i + 1)) (buf + i) 1 p Hq) as (p1 & E1 & Hm1 & M1 & O1 & L1 & F1);
    [unfold app_range in *; lia|lia|].
  rewrite (bind_eq _ _ _ _ _ E1).
  destruct (IH (i + 1) p1) as (p2 & E2 & Hm2 & M2 & O2 & L2 & F2);
    [by eapply mem_only_quiet|by eapply input_file_mem_only|lia|unfold app_range in *; lia|lia|].
  rewrite wrap_small in L1 by (unfold is_u; lia).
  exists p2. split_and!; [done|by eapply mem_only_trans|congruence|congruence| |].
  - intros j Hj. destruct (Z.eq_dec j i) as [->|]; [|apply L2; lia].
    rewrite F2; [|unfold app_range, app_addr in *; lia|lia]. specialize (L1 0 ltac:(lia)).
    by rewrite Z.add_0_r in L1.
  - intros b Hb Hout. rewrite F2 by (done || lia). apply F1; [done|lia].
Qed.

(** Loading [k] cells with the labels of consecutive input bytes. *)
Lemma load_input ls o k r j : rt_wf r -> 0 <= j -> room r (7 + j) -> 4096 <= ls -> 0 <= o -> 1 <= k -> 8 * k < 2 ^ 16 ->
  o + k <= last_label r ->
  (forall i, 0 <= i < k -> info_at (infos r) (o + i + 1) = input_info (o + i)) ->
  (forall m, 0 <= m < k -> ls_at ls m r = o + m + 1) ->
  exists l r', taint_union_load flags ls k r = (Ok l, r') /\ rt_wf r' /\ extends r r' /\ room r' j /\
    (1 <= l <= last_label r' /\ is_kind_of_label l Alloca r' = false) /\
    (solve_ub flags = false -> events r' = events r) /\
    forall env, eval (infos r') env l = le_bytes env o (Z.to_nat k).
Proof.
  intros Hw Hj Hr Hls Ho Hk Hk16 Hlast Hinf Hat. pose proof instruction_order as HO.
  pose proof (wf_last _ Hw) as HL. pose proof (wf_top _ Hw) as HT.
  pose proof (Hinf 0 ltac:(lia)) as H0. rewrite !Z.add_0_r in H0.
  pose proof (Hat 0 ltac:(lia)) as A0. rewrite !Z.add_0_r in A0.
  assert (i_op1 (info_at (infos r) (o + 1)) = o) as Ho1.
  { rewrite H0. simpl. apply wrap_small. unfold is_u. lia. }
  destruct (Z.eq_dec k 1) as [->|Hk1].
  - assert (is_kind_of_label (o + 1) Alloca r = false) as Hka.
    { unfold is_kind_of_label, get_label_info. rewrite H0. simpl. lia. }
    exists (o + 1), r. split_and!; [|done|done|by eapply room_mono; [|done]; lia|lia|lia|done|done|].
    + rewrite (load_head flags r ls 1 (o + 1)); [|done|done|done|lia|..].
      * unfold get_label_info. rewrite H0. simpl. done.
      * unfold get_label_info. by rewrite H0.
      * done.
    + intros env. rewrite (eval_unfold _ env (last_label r) (o + 1)) by (lia || apply Hw).
      rewrite H0. unfold info_value. simpl. ops. rewrite wrap_small by (unfold is_u; lia). lia.
  - assert (input_run r (o + 1) k) as Hrun.
    { split; unfold get_label_info; rewrite ?Ho1; [lia|lia|]. intros i Hi.
      replace (o + 1 + i) with (o + i + 1) by lia. rewrite Hinf by done. simpl. split; [done|].
      apply wrap_small. unfold is_u. lia. }
    destruct (taint_union_load_run flags r (o + 1) k Hw (room_mono r (7 + j) 7 ltac:(lia) Hr) Hk Hrun) as (l & r' & E & Hw' & He & Hl & Hev).
    assert (room r' j /\ is_kind_of_label l Alloca r' = false) as [Hrj Hka].
    { rewrite taint_union_plain_eq in E; [|done|lia| |right; lia].
      2:{ unfold is_kind_of_label, get_label_info. rewrite H0. simpl. lia. }
      destruct (intern_run (union_info r (o + 1) k Load (8 * k) 0 0) 0 0 r j Hw Hj Hr)
        as (l2 & r2 & E2 & _ & _ & Hrj & _ & _ & Hi);
        [simpl; lia..|]. rewrite E in E2. injection E2 as <- <-. apply info_eqb_eq in Hi as (_ & _ & Hop & _).
      split; [done|]. unfold is_kind_of_label, get_label_info. rewrite Hop. simpl. lia. }
    exists l, r'. split_and!; try done; try lia; [| |].
    + rewrite <- E. apply load_of_run; try done; try lia.
      * unfold get_label_info. by rewrite H0.
      * intros m Hm. rewrite Hat by done. lia.
    + intros Hub. by eapply taint_union_silent.
    + intros env. rewrite Hev. unfold get_label_info. by rewrite Ho1.
Qed.


Lemma access_ok_mem_only p p' l a n : mem_only p p' -> access_ok (prt p) l a n -> access_ok (prt p') l a n.
Proof. intros Hm. pose proof (mem_only_state _ _ Hm) as (Ei & _). unfold access_ok, get_label_info. by rewrite Ei. Qed.

Lemma byte_written buf bs m i b : bs !! i = Some b -> mem (apply_writes [(buf, bs)] m) (buf + Z.of_nat i) = b.
Proof.
  intros Hi. pose proof (lookup_lt_Some _ _ _ Hi). simpl. rewrite mem_write_at, in_range by lia.
  replace (Z.to_nat (buf + Z.of_nat i - buf)) with i by lia. by rewrite Hi.
Qed.

(** What the program finds in the block [buf, buf + r) that was filled with the
    input from [o] on: the bytes that were read, and labels with which every word
    of it, of whatever size, means the bytes of the input; the rest of memory is as
    before. *)
Record holds_input (buf r o : Z) (bs : list Z) p p' : Prop := {
  hi_bytes : forall i b, bs !! i = Some b -> byte_of (buf + Z.of_nat i) p' = b;
  hi_words : forall i k, 0 <= i -> 1 <= k -> i + k <= r -> 8 * k < 2 ^ 16 ->
    exists l s, Runtime.dfsan_read_label flags (buf + i) k (prt p') = (Ok l, s) /\
      forall env, eval (infos s) env l = le_bytes env (o + i) (Z.to_nat k);
  hi_frame : forall b, app_addr b -> ~ buf <= b < buf + r ->
    byte_of b p' = byte_of b p /\ label_of b p' = label_of b p
}.

Lemma tainted_holds fd n buf r o bs p p0 : quiet p0 -> rt_wf (prt p0) -> room (prt p0) 7 -> input_file fd n p0 ->
  shadow (prt p0) = shadow (prt p) -> memory p0 = apply_writes [(buf, bs)] (memory p) ->
  Z.of_nat (length bs) = r -> 0 <= o -> o + r <= n -> app_range buf r ->
  exists p', taint_bytes flags cfg fd o buf r p0 = (Ok tt, p') /\ os p' = os p0 /\ holds_input buf r o bs p p'.
Proof.
  intros Hq Hw Hr Hin Hsh Hmem Hlen Ho Hon Hrange. pose proof (wf_last _ Hw). pose proof (wf_top _ Hw).
  pose proof (if_last _ _ _ Hin). unfold taint_bytes.
  destruct (label_loop_run fd n o buf (Z.to_nat r) Ho 0 p0) as (p' & E & Hm & M & O & L & F); try done; try lia;
    [by rewrite Z2Nat.id by lia|].
  rewrite Z2Nat.id, !Z.add_0_l in * by lia. rewrite Z.add_0_r in F.
  pose proof (mem_only_state _ _ Hm) as (Ei & El & _). exists p'. split_and!; [done..|]. split.
  - intros i b Hi. unfold byte_of. rewrite M, Hmem. by apply byte_written.
  - intros i k Hi Hk Hik Hk16. unfold Runtime.dfsan_read_label. replace (k =? 0) with false by lia.
    destruct (load_input (shadow_for (buf + i)) (o + i) k (prt p') 0) as (l & s & E' & _ & _ & _ & _ & _ & Hev); try done; try lia.
    + by eapply mem_only_wf.
    + by eapply mem_only_room.
    + rewrite shadow_for_app by (apply (app_range_addr buf r); [done|lia]).
      unfold app_range, kAppAddr, kAppBaseAddr in *. lia.
    + intros j Hj. rewrite Ei, <- (if_infos _ _ _ Hin (o + i + j)) by lia. f_equal.
    + intros j Hj. unfold ls_at.
      pose proof (app_range_addr buf r i Hrange ltac:(lia)).
      pose proof (app_range_addr buf r (i + j) Hrange ltac:(lia)) as Hij. rewrite Z.add_assoc in Hij.
      rewrite <- shadow_for_add by done.
      specialize (L (i + j) ltac:(lia)). unfold label_of in L. rewrite <- Z.add_assoc, L. lia.
    + by exists l, s.
  - intros b Hb Hout. split.
    + unfold byte_of. rewrite M, Hmem. simpl. rewrite mem_write_at, out_range by lia. done.
    + rewrite F by done. unfold label_of, label_at. by rewrite Hsh.
Qed.

(** C7: a [read] of the tainted file returns what the system read, and the block
    holds it with the labels of the input: every word that the program loads from
    it has, on every input, the value of the bytes of the input at its offset. *)
Theorem read_labels_input fd n buf count fl bl cl o r bs x y o1 o2 p :
  quiet p -> rt_wf (prt p) -> room (prt p) 7 -> input_file fd n p -> 0 < n ->
  access_ok (prt p) bl buf count -> size_ok cl -> is_u 64 count -> app_range buf r ->
  libc_call l_lseek [fd; 0; SEEK_CUR] (memory p) (os p) = (mk_reply o x [], o1) ->
  libc_call l_read [fd; buf; count] (memory p) o1 = (mk_reply r y [(buf, bs)], o2) ->
  Z.of_nat (length bs) = r -> 0 <= o -> o + r <= n ->
  exists p', dfsw_read flags cfg fd buf count fl bl cl p = (Ok (r, 0), p') /\ os p' = o2 /\
    holds_input buf r o bs p p'.
Proof.
  intros Hq Hw Hr Hin Hn Hacc Hsz Hc Hrange Hseek Hread Hlen Ho Hon. unfold dfsw_read.
  destruct (libc_run l_lseek [fd; 0; SEEK_CUR] p) as (p1 & E1 & Hm1 & S1 & O1 & M1).
  rewrite Hseek in *. simpl in *. rewrite (bind_eq _ _ _ _ _ E1).
  pose proof (mem_only_quiet _ _ Hm1 Hq) as Hq1.
  rewrite (bind_eq _ _ p1 tt p1).
  2:{ apply check_bounds_quiet; try done; [by eapply access_ok_mem_only|]. unfold app_range, kAppAddr in *. lia. }
  rewrite (bind_eq _ _ p1 tt p1) by (by apply solve_if_quiet).
  destruct (libc_run l_read [fd; buf; count] p1) as (p2 & E2 & Hm2 & S2 & O2 & M2).
  rewrite O1, M1 in E2, O2, M2. rewrite Hread in *. simpl in *. rewrite (bind_eq _ _ _ _ _ E2).
  pose proof (mem_only_trans _ _ _ Hm1 Hm2) as Hm.
  destruct (tainted_holds fd n buf r o bs p p2) as (p' & E & O & H); try done.
  - by eapply mem_only_quiet.
  - by eapply mem_only_wf.
  - by eapply mem_only_room.
  - by eapply input_file_mem_only.
  - congruence.
  - exists p'. split_and!; [|congruence|done]. replace (0 <=? r) with true by lia.
    rewrite (bind_eq _ _ p2 tt p'); [done|].
    erewrite bind_eq by (eapply is_tainted_run; [by eapply input_file_mem_only|done]). done.
Qed.


(** ** Filling *)

(** C34: [memset] with the value of a byte fills the block with it and gives every
    byte of it the label of the value; the loop over words that it takes for aligned
    blocks does what the loop over bytes does. Other values are a different matter
    ([memset_negative]). *)
Theorem memset_fills a c n al cl nl p : quiet p -> access_ok (prt p) al a n -> size_ok nl ->
  0 <= c < 256 -> app_range a n -> 0 <= n ->
  same_mem (internal_memset a c n (memory p)) (memset_bytes a c (Z.to_nat n) (memory p)) /\
  exists p', dfsw_memset flags cfg a c n al cl nl p = (Ok (a, al), p') /\ mem_only p p' /\
    (forall i, 0 <= i < n -> byte_of (a + i) p' = c /\ label_of (a + i) p' = cl) /\
    (forall b, app_addr b -> ~ a <= b < a + n -> byte_of b p' = byte_of b p /\ label_of b p' = label_of b p).
Proof.
  intros Hq Hacc Hsz Hc Hr Hn. assert (0 <= a /\ is_u 64 n) as [Ha Hn64]
    by (unfold is_u, app_range, kAppAddr in *; lia).
  pose proof (memset_filled a c n (memory p) Hc Hn) as Hf. split.
  { intros b. rewrite (Hf b). pose proof (memset_bytes_filled c (Z.to_nat n) a (memory p) b) as ->.
    rewrite Z2Nat.id, wrap_small by (done || unfold is_u; lia). done. }
  unfold dfsw_memset. rewrite (bind_eq _ _ p tt p) by (by apply check_bounds_quiet).
  rewrite (bind_eq _ _ p tt p) by (by apply solve_if_quiet). unfold dfsan_memset.
  destruct (Z.eqb_spec n 0) as [->|Hn0].
  { exists p. split_and!; [done|apply mem_only_refl|lia|done]. }
  set (p1 := on_rt (set_app (internal_memset a c n (memory p))) p).
  destruct (set_label_run cl a n p1) as (p2 & E2 & Hm2 & M2 & _ & L2 & F2); try done.
  exists p2. split_and!.
  - unfold bind, modify_app, modify. change (on_rt _ p) with p1. by rewrite E2.
  - eapply mem_only_trans; [apply mem_only_app|done].
  - intros i Hi. split; [|by apply L2]. unfold byte_of. rewrite M2.
    change (memory p1) with (internal_memset a c n (memory p)). rewrite (Hf (a + i)), in_range by lia. done.
  - intros b Hb Hout. split; [|by apply F2]. unfold byte_of. rewrite M2.
    change (memory p1) with (internal_memset a c n (memory p)). by rewrite (Hf b), out_range by lia.
Qed.

(** A value that is not a byte is not cut to one in the words: with a negative
    character the second byte of an aligned block becomes 255. *)
Lemma memset_negative a c n m : -128 <= c <= -2 -> a mod 16 = 0 -> n mod 16 = 0 -> 0 < n ->
  mem (internal_memset a c n m) (a + 1) = 255 /\ mem (memset_bytes a c (Z.to_nat n) m) (a + 1) = u8 c /\ u8 c <> 255.
Proof.
  intros Hc Ha Hn Hp. assert (2 <= n) by (destruct (Z.eq_dec n 1) as [->|]; [discriminate Hn|lia]).
  assert (u8 c = c + 256) as E8.
  { unfold wrap. rewrite <- (Z.mod_add c 1) by lia. apply Z.mod_small. lia. }
  split_and!; [|rewrite (memset_bytes_filled c (Z.to_nat n) a m (a + 1)), in_range by lia; done|lia].
  unfold internal_memset. rewrite Ha, Hn. change (0 =? 0) with true. cbn [andb].
  pose proof (Z.div_mod n 16 ltac:(lia)). destruct (Z.to_nat (n / 16)) as [|k] eqn:Ek; [lia|].
  cbn [memset_words]. assert (forall j q m', q > a + 1 -> mem (memset_words q (memset_word c) j m') (a + 1) = mem m' (a + 1)) as Hout.
  { induction j as [|j IH]; intros q m' Hq; cbn [memset_words]; [done|]. rewrite IH by lia.
    rewrite !mem_write_at, !out_range by lia. done. }
  rewrite Hout by lia. rewrite mem_write_at, in_range by (rewrite length_word_bytes; lia).
  replace (a + 1 - a) with 1 by lia.
  assert (forallb (fun k => bool_decide (default 0 (word_bytes 8 (memset_word (- Z.of_nat k)) !! Z.to_nat 1) = 255))
    (seq 2 127) = true) as H' by (vm_compute; reflexivity).
  rewrite forallb_forall in H'. specialize (H' (Z.to_nat (- c))). rewrite in_seq, Z2Nat.id in H' by lia.
  specialize (H' ltac:(lia)). apply bool_decide_eq_true in H'. by replace (- - c) with c in H' by lia.
Qed.


(** ** Reallocation *)

Lemma move_block_run d s n p : app_range d n -> app_range s n -> 0 <= n -> d <= s \/ s + n <= d ->
  exists p', move_block d s n p = (Ok tt, p') /\ mem_only p p' /\ os p' = os p /\ block_moved d s n p p'.
Proof.
  intros Hd Hs Hn Hov. eexists. split; [done|]. split_and!; [|done|].
  - eapply mem_only_trans; [apply mem_only_app|apply mem_only_shadow].
  - apply block_moved_copied; try done.
    + apply copy_up_copied; lia.
    + apply copy_up_copied; [lia|]. destruct (Z.eq_dec n 0) as [->|].
      { simpl. destruct (Z.le_ge_cases (shadow_for d) (shadow_for s)); [by left|right; lia]. }
      rewrite !shadow_for_app by (apply (app_range_base _ n); [done|lia]). lia.
Qed.

(** C40: [reallocarray] of an old block whose size lies between the size of a member
    and the size of the whole array copies as many bytes as the new array has: the
    new block ends with the bytes and the labels of whatever lies behind the old
    one, instead of zeros. *)
Theorem reallocarray_overreads old nmemb sz ol a us x y z o1 o2 o3 p :
  trace_bounds flags = false ->
  libc_call l_calloc [nmemb; sz] (memory p) (os p) =
    (mk_reply a x [(a, replicate (Z.to_nat (sz * nmemb)) 0)], o1) ->
  libc_call l_malloc_usable_size [old] (write_at a (replicate (Z.to_nat (sz * nmemb)) 0) (memory p)) o1 =
    (mk_reply us y [], o2) ->
  (forall m, libc_call l_free [old] m o2 = (mk_reply 0 z [], o3)) ->
  sz <= us < sz * nmemb -> 0 < sz -> app_range a (sz * nmemb) -> app_range old (sz * nmemb) ->
  a + sz * nmemb <= old \/ old + sz * nmemb <= a ->
  exists p', dfsw_reallocarray flags cfg old nmemb sz ol 0 0 p = (Ok (a, 0), p') /\
    forall i, us <= i < sz * nmemb ->
      byte_of (a + i) p' = byte_of (old + i) p /\ label_of (a + i) p' = label_of (old + i) p.
Proof.
  intros Hb Hcalloc Husable Hfree Hus Hsz Ra Ro Hdis. set (n := sz * nmemb) in *.
  assert (u64 n = n) as Hn by (apply wrap_small; unfold is_u, app_range, kAppAddr in *; lia).
  assert (a <> 0 /\ old <> 0) as [Ha0 Ho0] by (unfold app_range, kAppAddr in *; lia). apply Z.eqb_neq in Ha0, Ho0.
  unfold dfsw_reallocarray, reallocarray_with, check_calloc_size. change (negb (0 =? 0)) with false. cbn [orb].
  unfold bind at 1, ret at 1.
  destruct (libc_run l_calloc [nmemb; sz] p) as (p1 & E1 & Hm1 & S1 & O1 & M1). rewrite Hcalloc in *. simpl in *.
  rewrite (bind_eq _ _ _ _ _ E1), Ha0, Hb, Ho0. fold n. rewrite Hn. cbn [negb andb]. unfold block_label.
  rewrite Ha0, Hb. cbn [negb].
  set (p2 := on_rt (set_shadow (zero_labels (shadow_for a) (Z.to_nat n) (shadow (prt p1)))) p1).
  rewrite (bind_eq _ _ p1 0 p2) by done.
  destruct (libc_run l_malloc_usable_size [old] p2) as (p3 & E3 & Hm3 & S3 & O3 & M3).
  change (memory p2) with (memory p1) in E3, O3, M3. change (os p2) with (os p1) in E3, O3, M3.
  rewrite O1, M1 in E3, O3, M3. rewrite Husable in *. simpl in *.
  unfold reallocarray_size. fold n. rewrite Hn. replace (us <? sz) with false by lia.
  destruct (move_block_run a old n p3 Ra Ro ltac:(lia) ltac:(lia)) as (p4 & E4 & Hm4 & O4 & [Hbm _]).
  destruct (libc_run l_free [old] p4) as (p5 & E5 & Hm5 & S5 & O5 & M5).
  rewrite O4, O3, Hfree in *. simpl in *. exists p5. split.
  { rewrite (bind_eq _ _ p2 tt p5); [done|].
    rewrite (bind_eq _ _ p2 tt p4) by (by rewrite (bind_eq _ _ _ _ _ E3); replace (us <? sz) with false by lia).
    unfold retire. rewrite Hb. by rewrite (bind_eq _ _ _ _ _ E5). }
  intros i Hi. destruct (Hbm i ltac:(lia)) as [B L]. destruct (clean_labels a n p1 Ra ltac:(lia)) as [_ Hf].
  split.
  - unfold byte_of in *. rewrite M5, B, M3, mem_write_at. rewrite length_replicate, out_range by lia. done.
  - specialize (Hf (old + i) (app_range_addr old n i Ro ltac:(lia)) ltac:(lia)).
    unfold label_of, label_at in *. rewrite S5, L, S3. rewrite <- S1. exact Hf.
Qed.


(** ** Comparisons *)

Lemma load_same_const (s : runtime) ls k : forall i, 0 <= i ->
  (forall m, i <= m < i + Z.of_nat k -> ls_at ls m s = 0) -> load_same s ls 0 i k = Some true.
Proof.
  induction k as [|k IH]; intros i Hi H; [done|]. cbn [load_same]. rewrite H by lia.
  change (0 =? kInitializingLabel) with false. change (negb (0 =? 0)) with false. apply IH; [lia|].
  intros m Hm. apply H. lia.
Qed.

Lemma load_const ls n (s : runtime) : 4096 <= ls -> 1 <= n -> (forall m, 0 <= m < n -> ls_at ls m s = 0) ->
  taint_union_load flags ls n s = (Ok 0, s).
Proof.
  intros Hls Hn H. unfold taint_union_load. replace (ls <? 4096) with false by lia.
  unfold bind at 1, gets, id. rewrite H by lia. change (0 =? kInitializingLabel) with false.
  unfold CONST_OFFSET. change (1 <=? 0) with false. cbv iota. unfold assert_, bind, ret.
  change (is_constant_label 0) with true. cbn [orb].
  by rewrite load_same_const by (lia || intros; apply H; lia).
Qed.

Lemma memcmp_union_eq s l n a b : rt_wf s -> 1 <= l <= last_label s -> is_kind_of_label l Alloca s = false ->
  taint_union flags 0 l fmemcmp n a b s =
  union_intern flags (taint_union_fuel flags 1)
    (union_info s 0 l fmemcmp n a (memcpy_var b b (if 8 <? n then 8 else n) s)) a b s.
Proof.
  intros Hw Hl Hk. pose proof (wf_last _ Hw). pose proof (wf_top _ Hw). pose proof instruction_order as HO.
  unfold taint_union. cbn [taint_union_fuel]. unfold taint_union_with at 1.
  assert (is_valid_op fmemcmp = true) as ->.
  { unfold is_valid_op. change 255 with (Z.ones 8). rewrite Z.land_ones, Z.mod_small by (unfold_ops; lia).
    unfold_ops. lia. }
  replace (l <? 0) with false by lia. unfold CONST_OFFSET, kInitializingLabel. cbn [andb negb].
  replace (l <? 1) with false by lia. rewrite andb_false_r. cbn [andb].
  replace (l =? 2 ^ 32 - 1) with false by lia. change (0 =? 2 ^ 32 - 1) with false. cbn [orb].
  unfold bind at 1, gets, id. unfold union_bounds. rewrite Hk, andb_false_r.
  assert (is_kind_of_label 0 Alloca s = false) as ->.
  { unfold is_kind_of_label, get_label_info. rewrite (wf_const _ Hw). simpl. lia. }
  cbn [orb]. unfold union_operands, CONST_OFFSET. rewrite Z.eqb_refl. change (1 <=? 0) with false.
  replace (1 <=? l) with true by lia. cbv iota.
  unfold union_simplify, simplify_left, simplify_right. ops. ops.
  replace (if a =? 0 then inr fmemcmp else _) with (inr fmemcmp : Z + Z) by (by repeat case_if).
  cbv iota. ops. ops. by rewrite ?andb_false_r.
Qed.


(** The message about a comparison with a constant, and the constant. *)
Lemma trace_memcmp_run l p : quiet p -> 0 <= fastgen.pipe_fd cfg -> fastgen.reader (be p) = true ->
  l <> 0 -> l <> kInitializingLabel -> i_l1 (get_label_info l (prt p)) = 0 ->
  exists p', trace_memcmp flags cfg l p = (Ok tt, p') /\ prt p' = prt p /\
    fastgen.pipe (be p') = fastgen.pipe (be p) ++
      encode (mk_msg (type_num memcmp_type) 1 (fastgen.instance_id cfg) (fastgen.runtime_pc cfg)
                (fastgen.trace_callstack (be p)) 0 l (i_size (get_label_info l (prt p)))) ++
      memcmp_bytes l (fastgen.bytes_at (i_op1 (get_label_info l (prt p)))
                        (Z.to_nat (i_size (get_label_info l (prt p)))) (prt p)).
Proof.
  intros Hq Hfd Hrd Hl Hli H1. apply Z.eqb_neq in Hl, Hli.
  unfold trace_memcmp, in_be, fastgen.taint_trace_memcmp, fastgen.uninitialized. rewrite Hl, Hli.
  unfold fastgen.message, fastgen.write, bind, ret, gets, modify. cbv beta iota.
  replace (fastgen.pipe_fd cfg <? 0) with false by lia.
  change (fastgen.rt (be p)) with (prt p). rewrite H1. cbn [Z.eqb negb andb]. change (0 =? 0) with true. cbn [negb andb].
  rewrite Hrd. cbn. rewrite Hrd. eexists. split; [done|]. split; [done|]. cbn. by rewrite <- app_assoc.
Qed.


(** The label of a comparison of a constant with input bytes. *)
Lemma compare_run s1 s2 n o p : quiet p -> solve_ub flags = false -> rt_wf (prt p) -> room (prt p) 14 ->
  app_range s1 n -> app_range s2 n -> 1 <= n -> 8 * n < 2 ^ 16 -> 0 <= o -> o + n <= last_label (prt p) ->
  (forall i, 0 <= i < n -> label_of (s1 + i) p = 0) ->
  (forall i, 0 <= i < n -> label_of (s2 + i) p = o + i + 1) ->
  (forall i, 0 <= i < n -> info_at (infos (prt p)) (o + i + 1) = input_info (o + i)) ->
  exists l r, (let! l1 := dfsan_read_label flags cfg s1 n in let! l2 := dfsan_read_label flags cfg s2 n in
               dfsan_union flags cfg l1 l2 fmemcmp n s1 s2) p = (Ok l, on_rt (fun _ => r) p) /\
    events r = [] /\ rt_wf r /\ extends (prt p) r /\ 1 <= l <= last_label r /\
    i_op (get_label_info l r) = fmemcmp /\ i_size (get_label_info l r) = n /\
    i_l1 (get_label_info l r) = 0 /\ i_op1 (get_label_info l r) = s1 /\
    forall env, eval (infos r) env (i_l2 (get_label_info l r)) = le_bytes env o (Z.to_nat n).
Proof.
  intros Hq Hub Hw Hr R1 R2 Hn Hn16 Ho Hlast C1 C2 Hinf. pose proof instruction_order as HO.
  assert (forall s i, app_range s n -> 0 <= i < n -> ls_at (shadow_for s) i (prt p) = label_of (s + i) p) as Hls.
  { intros s i Rs Hi. unfold ls_at, label_of.
    rewrite shadow_for_add; [done|by apply (app_range_base s n); [|lia]|by apply (app_range_addr s n)]. }
  assert (forall s, app_range s n -> 4096 <= shadow_for s) as H4096.
  { intros s Rs. rewrite shadow_for_app by (apply (app_range_base s n); [done|lia]).
    unfold app_range, kAppAddr, kAppBaseAddr in *. lia. }
  assert (dfsan_read_label flags cfg s1 n p = (Ok 0, p)) as E1.
  { rewrite <- (on_rt_same p) at 2. apply in_rt_quiet; [done| |done]. unfold Runtime.dfsan_read_label.
    replace (n =? 0) with false by lia. apply load_const; [by apply H4096|lia|].
    intros m Hm. rewrite Hls by done. by apply C1. }
  destruct (load_input (shadow_for s2) o n (prt p) 7) as (l2 & r & E2 & Hwr & He & Hrr & (Hl2 & Hk2) & Hev & Hval);
    try done; [by apply H4096|intros m Hm; rewrite Hls by done; by apply C2|].
  specialize (Hev Hub). rewrite Hq in Hev.
  assert (dfsan_read_label flags cfg s2 n p = (Ok l2, on_rt (fun _ => r) p)) as E2'.
  { apply in_rt_quiet; [done| |done]. unfold Runtime.dfsan_read_label. by replace (n =? 0) with false by lia. }
  destruct (intern_run (union_info r 0 l2 fmemcmp n s1 (memcpy_var s2 s2 (if 8 <? n then 8 else n) r)) s1 s2 r 0)
    as (l & r2 & E3 & Hw2 & He2 & _ & Hl & Hu & Hi); try done; [simpl; pose proof (wf_last _ Hwr); lia|simpl; lia|].
  rewrite <- memcmp_union_eq in E3 by done.
  pose proof (taint_union_silent flags _ _ _ _ _ _ _ _ _ Hwr Hub E3) as Hev2. rewrite Hev in Hev2.
  apply info_eqb_eq in Hi as (I1 & I2 & I3 & I4 & I5 & _). simpl in *.
  exists l, r2. rewrite (bind_eq _ _ _ _ _ E1), (bind_eq _ _ _ _ _ E2'). split_and!; try done; try lia.
  - apply (union_quiet (on_rt (fun _ => r) p)); try done; unfold is_u; unfold_ops; lia.
  - by transitivity r.
  - intros env. unfold get_label_info. rewrite I2.
    rewrite (eval_agree (infos r) (infos r2) env (last_label r)); [apply Hval|apply Hwr|apply He2|done].
Qed.

(** C21: [memcmp] of a constant with a run of input bytes returns the difference,
    with the label of a comparison whose other side is, on every input, those
    bytes of the input; it sends one message about that label followed by the bytes
    of the constant. *)
Theorem memcmp_reported s1 s2 n o b1 b2 nl p :
  0 <= fastgen.pipe_fd cfg -> fastgen.reader (be p) = true ->
  quiet p -> solve_ub flags = false -> rt_wf (prt p) -> room (prt p) 14 ->
  access_ok (prt p) b1 s1 n -> access_ok (prt p) b2 s2 n ->
  app_range s1 n -> app_range s2 n -> 1 <= n -> 8 * n < 2 ^ 16 -> 0 <= o -> o + n <= last_label (prt p) ->
  (forall i, 0 <= i < n -> label_of (s1 + i) p = 0) ->
  (forall i, 0 <= i < n -> label_of (s2 + i) p = o + i + 1) ->
  (forall i, 0 <= i < n -> info_at (infos (prt p)) (o + i + 1) = input_info (o + i)) ->
  exists l p', dfsw_memcmp flags cfg s1 s2 n b1 b2 nl p = (Ok (memcmp (memory p) s1 s2 n, l), p') /\
    i_op (get_label_info l (prt p')) = fmemcmp /\ i_l1 (get_label_info l (prt p')) = 0 /\
    (forall env, eval (infos (prt p')) env (i_l2 (get_label_info l (prt p'))) = le_bytes env o (Z.to_nat n)) /\
    fastgen.pipe (be p') = fastgen.pipe (be p) ++
      encode (mk_msg (type_num memcmp_type) 1 (fastgen.instance_id cfg) (fastgen.runtime_pc cfg)
                (fastgen.trace_callstack (be p)) 0 l n) ++
      memcmp_bytes l (fastgen.bytes_at s1 (Z.to_nat n) (prt p)).
Proof.
  intros Hfd Hrd Hq Hub Hw Hr A1 A2 R1 R2 Hn Hn16 Ho Hlast C1 C2 Hinf.
  destruct (compare_run s1 s2 n o p) as (l & r & E & Hev & Hwr & He & Hl & J1 & J2 & J3 & J4 & Hval); try done.
  pose proof (wf_last _ Hwr). pose proof (wf_top _ Hwr).
  destruct (trace_memcmp_run l (on_rt (fun _ => r) p)) as (p' & E' & Hp' & Hpipe); try done; [lia|unfold kInitializingLabel; lia|].
  exists l, p'. rewrite Hp'. change (prt (on_rt (fun _ => r) p)) with r in *. split_and!; try done.
  - unfold dfsw_memcmp. unfold is_u, app_range, kAppAddr in *.
    rewrite (bind_eq _ _ p tt p) by (apply check_bounds_quiet; done || (unfold is_u; lia)).
    rewrite (bind_eq _ _ p tt p) by (apply check_bounds_quiet; done || (unfold is_u; lia)).
    unfold bind at 1, gets at 1. rewrite (bind_eq _ _ p l p'); [done|].
    unfold taint_memcmp, taint_compare.
    apply bind_ok in E as (l1 & q1 & Ea & E). apply bind_ok in E as (l2 & q2 & Eb & E).
    rewrite (bind_eq _ _ _ _ _ Ea), (bind_eq _ _ _ _ _ Eb), (bind_eq _ _ _ _ _ E).
    replace (l =? 0) with false by lia. cbn [negb]. by rewrite (bind_eq _ _ _ _ _ E').
  - rewrite Hpipe, J2, J4. by unfold fastgen.bytes_at, byte_at; rewrite (ext_app _ _ He).
Qed.


(** ** Wrappers that lose track *)

(** [getc] and its relatives never label what they return. *)
Lemma getc_unlabelled f stream p r l p' : getc_with flags cfg f stream p = (Ok (r, l), p') -> l = 0.
Proof.
  unfold getc_with. intros H. apply bind_ok in H as (fd & p1 & _ & H). apply bind_ok in H as (o & p2 & _ & H).
  apply bind_ok in H as (r' & p3 & _ & H). apply bind_ok in H as (l' & p4 & H4 & H).
  injection H as _ <- _. unfold taint_getc in H4. apply bind_ok in H4 as (t & p5 & _ & H4).
  apply bind_ok in H4 as ([] & p6 & _ & H4). by injection H4 as <- _.
Qed.

(** Instrumented code passes the arguments, then their labels: the wrapper takes
    the label of the string for the base and never looks at the base. *)
Lemma strtoull_ignores_base nptr endptr base base' nptr_label endptr_label base_label :
  dfsw_strtoull flags cfg nptr endptr base nptr_label endptr_label base_label =
  dfsw_strtoull flags cfg nptr endptr base' nptr_label endptr_label base_label.
Proof. reflexivity. Qed.

(** A mapping that begins behind the end of the tainted file has nearly 2^64
    bytes to label. *)
Lemma mmap_past_end offset length fsize : 0 <= fsize < offset -> 0 <= length -> offset + length < 2 ^ 63 ->
  tainted_length offset length fsize = 2 ^ 64 - (offset - fsize) /\ length < tainted_length offset length fsize.
Proof.
  intros Hf Hl Ho. assert (tainted_length offset length fsize = 2 ^ 64 - (offset - fsize)) as E; [|lia].
  unfold tainted_length. rewrite !(wrap_small 64 fsize), (wrap_small 64 (offset + length)) by (unfold is_u; lia).
  replace (fsize <? offset + length) with true by lia. unfold wrap.
  rewrite <- (Z.mod_add (fsize - offset) 1), Z.mod_small by lia. lia.
Qed.

(** A second, failing [open] of the tainted file ends the tracking of the first. *)
Lemma open_failure_untaints path oflags pl fl x o p :
  libc_call l_open [path; oflags] (memory p) (os p) = (mk_reply (-1) x [], o) ->
  filename (tainted p) = realpath (cstring (memory p) path) o ->
  exists p', dfsw_open path oflags pl fl p = (Ok (-1, 0), p') /\ f_fd (tainted p') = -1.
Proof.
  intros Hc Hn. destruct (libc_run l_open [path; oflags] p) as (p1 & E1 & Hm & _ & O1 & M1).
  rewrite Hc in *. simpl in *. pose proof (mem_only_state _ _ Hm) as (_ & _ & _ & _ & _ & Et & _).
  unfold dfsw_open. rewrite (bind_eq _ _ _ _ _ E1). change (negb (-1 =? 0)) with true. cbv iota.
  exists (set_tainted (set_fd (-1) (tainted p1)) p1). split; [|done].
  rewrite (bind_eq _ _ p1 tt (set_tainted (set_fd (-1) (tainted p1)) p1)); [done|].
  unfold taint_set_file. rewrite Z.eqb_refl. cbn [negb].
  unfold bind, ret, gets, id. rewrite bool_decide_eq_true_2; [done|]. by rewrite Et, O1, M1.
Qed.

(** Until the input file is opened, standard input passes for it. *)
Lemma unopened_is_stdin name facts path p p' : name <> stdin_name -> name <> [] ->
  real_path facts = Some path -> tainted p = no_file ->
  InitializeTaintFile flags cfg name facts p = (Ok tt, p') ->
  taint_get_file flags 0 p' = (Ok (file_size facts), p').
Proof.
  intros H1 H2 Hp Ht. unfold InitializeTaintFile. rewrite !bool_decide_eq_false_2, Hp by done.
  intros H. apply bind_ok in H as ([] & q & Hq & H). injection Hq as <-. rewrite Ht in H.
  destruct (mapped facts); [|done]. unfold bind at 1, gets at 1 in H. cbn in H.
  unfold in_rt, in_be in H. change (negb (0 =? -1) && true) with true in H. cbv iota beta in H.
  destruct (fastgen.in_runtime flags cfg _ _) as [r b]. injection H as -> <-.
  unfold taint_get_file, bind, gets, ret. done.
Qed.

End process.

(** ** A small system *)

Section runs.
#[local] Existing Instance llvm14.

(** A file that is read from position [o] on, a heap with one address, blocks of
    24 bytes. *)
Definition file_content : list Z := [71; 73; 70; 56; 57; 97; 0; 1].
Definition heap_base : Z := 0x700000100000.

Definition small_call (f : libc_fn) (args : list Z) (m : gmap Z Z) (o : Z) : reply * Z :=
  match f, args with
  | l_lseek, _ => (mk_reply o 0 [], o)
  | l_read, [_; buf; count] =>
      let bs := take (Z.to_nat count) (drop (Z.to_nat o) file_content) in
      let r := Z.of_nat (length bs) in
      (mk_reply r 0 [(buf, bs)], o + r)
  | l_malloc, _ => (mk_reply heap_base 0 [], o)
  | l_calloc, [nmemb; sz] =>
      (mk_reply heap_base 0 [(heap_base, replicate (Z.to_nat (sz * nmemb)) 0)], o)
  | l_malloc_usable_size, _ => (mk_reply 24 0 [], o)
  | _, _ => (mk_reply 0 0 [], o)
  end.

#[local] Instance small_libc : Libc Z :=
  {| libc_call := small_call; realpath := fun name _ => name; inet_pton_host := fun _ _ _ => [] |}.

Definition small_cfg : fastgen.config := fastgen.mk_config 1 5 false 0x401000.
Definition buffer : Z := 0x700000200000.

(** The input is open as file 3; the four bytes at [buffer + 64] were read. *)
Definition small_process : process Z :=
  mk_process (fastgen.new_backend (init_input 8)) 0 (mk_file [105] 3 0 0 8 false false) no_socket 0.
Definition read_process : process Z :=
  on_rt (set_shadow (write_labels (shadow_for (buffer + 64)) [1; 2; 3; 4] ∅)) small_process.
Definition quiet_flags : Flags := mk_flags false false false false.

Lemma small_inv : rt_wf (prt small_process) /\ room (prt small_process) 14 /\ quiet small_process /\
  (forall i, 0 <= i < 8 -> info_at (infos (prt small_process)) (i + 1) = input_info i).
Proof.
  split_and!; [by apply init_wf|by apply init_room|vm_compute; reflexivity|].
  intros i Hi. assert (i = 0 \/ i = 1 \/ i = 2 \/ i = 3 \/ i = 4 \/ i = 5 \/ i = 6 \/ i = 7) as Hc by lia.
  by destruct Hc as [->|[->|[->|[->|[->|[->|[->| ->]]]]]]]; vm_compute.
Qed.

Lemma const_access (p : process Z) a n : a <> 0 -> i_op (get_label_info 0 (prt p)) = 0 -> access_ok plain_flags (prt p) 0 a n.
Proof.
  intros Ha H. right. rewrite H. pose proof instruction_order as HO. unfold kInitializingLabel. unfold_ops.
  split_and!; lia.
Qed.

Ltac small :=
  first [assumption | lia | apply const_access; vm_compute; congruence | left; lia
        | split; vm_compute; congruence | vm_compute; congruence].

(** Four bytes from the start of the file. *)
Lemma read_labels_input_witness : exists p',
  dfsw_read plain_flags small_cfg 3 buffer 4 0 0 0 small_process = (Ok (4, 0), p') /\ os p' = 4 /\
  holds_input plain_flags buffer 4 0 [71; 73; 70; 56] small_process p'.
Proof.
  destruct small_inv as (Hw & Hr & Hq & Hi).
  assert (room (prt small_process) 7) by (by eapply room_mono; [|exact Hr]).
  assert (input_file plain_flags 3 8 small_process) by (split; try done; vm_compute; congruence).
  assert (access_ok plain_flags (prt small_process) 0 buffer 4) by (by apply const_access).
  apply (read_labels_input plain_flags small_cfg 3 8 buffer 4 0 0 0 0 4 [71; 73; 70; 56] 0 0 0 4 small_process);
    small.
Defined.

(** A block of 16 bytes. *)
Lemma heap_lifecycle_witness : exists l p1 p2,
  dfsw_malloc plain_flags small_cfg 16 0 small_process = (Ok (heap_base, l), p1) /\
  taint_check_bounds plain_flags l (heap_base + 16) 0 1 (prt p1) =
    (Ok tt, add_event (trace_memerr l (heap_base + 16) 0 1 F_MEMERR_OUB) (prt p1)) /\
  dfsw_free plain_flags small_cfg heap_base l 0 p1 = (Ok tt, p2) /\
  taint_check_bounds plain_flags l heap_base 0 1 (prt p2) =
    (Ok tt, add_event (trace_memerr l heap_base 0 1 F_MEMERR_UAF) (prt p2)).
Proof.
  destruct small_inv as (Hw & Hr & Hq & Hi).
  assert (room (prt small_process) 7) by (by eapply room_mono; [|exact Hr]).
  destruct (heap_lifecycle plain_flags small_cfg small_process 16 0 heap_base 0)
    as (l & p1 & p2 & E1 & _ & H1 & E2 & H2 & _); [small..|].
  exists l, p1, p2. split_and!; [exact E1| |exact E2|apply H2; vm_compute; congruence].
  specialize (H1 (heap_base + 16) 0 1 ltac:(small) ltac:(small)).
  change (verdict (heap_base + 16) 1 heap_base (heap_base + 16)) with (Some F_MEMERR_OUB) in H1. exact H1.
Defined.

(** Three bytes moved up by one. *)
Lemma copies_move_witness : exists p',
  dfsw_memmove plain_flags small_cfg (buffer + 65) (buffer + 64) 3 0 0 0 read_process = (Ok (buffer + 65, 0), p') /\
  block_moved (buffer + 65) (buffer + 64) 3 read_process p'.
Proof.
  destruct small_inv as (Hw & Hr & Hq & Hi).
  destruct (copies_move plain_flags small_cfg (buffer + 65) (buffer + 64) 3 0 0 0 read_process)
    as [(p' & E & _ & H) _]; [small..|]. exists p'. split; [exact E|exact H].
Defined.

Lemma memset_fills_witness : exists p',
  dfsw_memset plain_flags small_cfg buffer 170 32 0 0 0 small_process = (Ok (buffer, 0), p') /\
  byte_of (buffer + 31) p' = 170.
Proof.
  destruct small_inv as (Hw & Hr & Hq & Hi).
  destruct (memset_fills plain_flags small_cfg buffer 170 32 0 0 0 small_process)
    as (_ & p' & E & _ & H & _); [small..|].
  exists p'. split; [exact E|]. apply (H 31). lia.
Defined.

(** Ten members of eight bytes from a block of 24 bytes. *)
Lemma reallocarray_overreads_witness : exists p',
  dfsw_reallocarray quiet_flags small_cfg buffer 10 8 0 0 0 read_process = (Ok (heap_base, 0), p') /\
  byte_of (heap_base + 67) p' = byte_of (buffer + 67) read_process /\
  label_of (heap_base + 67) p' = label_of (buffer + 67) read_process.
Proof.
  destruct (reallocarray_overreads quiet_flags small_cfg buffer 10 8 0 heap_base 24 0 0 0 0 0 0 read_process)
    as (p' & E & H); try done; [by left|].
  exists p'. split; [done|]. by apply H.
Defined.

Lemma memcmp_reported_witness : exists l p',
  dfsw_memcmp plain_flags small_cfg buffer (buffer + 64) 4 0 0 0 read_process = (Ok (0, l), p') /\
  forall env, eval (infos (prt p')) env (i_l2 (get_label_info l (prt p'))) = le_bytes env 0 4.
Proof.
  destruct small_inv as (Hw & Hr & Hq & Hi).
  assert (rt_wf (prt read_process)) as Hw' by (destruct Hw; by split).
  assert (room (prt read_process) 14) as Hr' by (destruct Hr; by split).
  assert (forall a n, a <> 0 -> access_ok plain_flags (prt read_process) 0 a n) as Ha.
  { intros a n Ha. apply const_access; [done|]. vm_compute. reflexivity. }
  assert (forall i, 0 <= i < 4 -> i = 0 \/ i = 1 \/ i = 2 \/ i = 3) as Hc by lia.
  assert (forall i, 0 <= i < 4 -> label_of (buffer + i) read_process = 0) as H1.
  { intros i Hin. destruct (Hc i Hin) as [->|[->|[->| ->]]]; vm_compute; reflexivity. }
  assert (forall i, 0 <= i < 4 -> label_of (buffer + 64 + i) read_process = 0 + i + 1) as H2.
  { intros i Hin. destruct (Hc i Hin) as [->|[->|[->| ->]]]; vm_compute; reflexivity. }
  assert (forall i, 0 <= i < 4 -> info_at (infos (prt read_process)) (0 + i + 1) = input_info (0 + i)) as H3.
  { intros i Hin. apply (Hi (0 + i)). lia. }
  destruct (memcmp_reported plain_flags small_cfg buffer (buffer + 64) 4 0 0 0 0 read_process
    ltac:(vm_compute; congruence) eq_refl Hq eq_refl Hw' Hr' (Ha buffer 4 ltac:(done)) (Ha (buffer + 64) 4 ltac:(done))
    ltac:(split; vm_compute; congruence) ltac:(split; vm_compute; congruence) ltac:(lia) ltac:(lia) ltac:(lia)
    ltac:(vm_compute; congruence) H1 H2 H3) as (l & p' & E & _ & _ & H & _).
  exists l, p'. split; [exact E|exact H].
Defined.

End runs.
