(* ===== verification/CustomSysSpec.v ===== *)
(** * Input from a socket

    What the tainted socket delivers gets new labels, one for every byte, with the
    offset of the byte in the stream; the next receive goes on where this one
    ended. *)

From S2P Require Import Prelude Dfsan Cstr HashTable Runtime LabelSem RuntimeSpec TotalSpec InputSpec ShadowSpec BoundsSpec Pipe Fastgen Libc Custom CustomSys LibcSpec CustomSpec.
Import custom system.
Local Open Scope prog_scope.

Section sockets.
Context {OS : Type} {LIBC : Libc OS} {LLVM : InstructionDef} (flags : Flags) (cfg : fastgen.config).
Implicit Types p : process OS.

(** Everything but the runtime is the same. *)
Definition rt_only p p' : Prop := exists r, p' = on_rt (fun _ => r) p.

Lemma rt_only_trans p1 p2 p3 : rt_only p1 p2 -> rt_only p2 p3 -> rt_only p1 p3.
Proof. intros [r ->] [r' ->]. by exists r'. Qed.

Lemma mem_only_rt_only p p' : mem_only p p' -> os p' = os p -> rt_only p p'.
Proof.
  intros (sh & ap & o & ->) Ho. simpl in Ho. subst o. exists (set_app ap (set_shadow sh (prt p))). by destruct p.
Qed.

(** [n] bytes at [a] got new labels for the bytes of the stream from [o] on. *)
Record streamed (o a n : Z) p p' : Prop := {
  sm_only : rt_only p p';
  sm_quiet : quiet p';
  sm_wf : rt_wf (prt p');
  sm_memory : memory p' = memory p;
  sm_old : agree (infos (prt p)) (infos (prt p')) (last_label (prt p));
  sm_last : last_label (prt p') = last_label (prt p) + n;
  sm_top : alloca_stack_top (prt p') = alloca_stack_top (prt p);
  sm_infos : forall i, 0 <= i < n -> info_at (infos (prt p')) (last_label (prt p) + 1 + i) = input_info (o + i);
  sm_labels : forall i, 0 <= i < n -> label_of (a + i) p' = last_label (prt p) + 1 + i;
  sm_frame : forall b, app_addr b -> ~ a <= b < a + n -> label_of b p' = label_of b p
}.

Lemma streamed_nil o a p : quiet p -> rt_wf (prt p) -> streamed o a 0 p p.
Proof. intros Hq Hw. split; try done; try lia. exists (prt p). by rewrite on_rt_same. Qed.

Lemma streamed_cons o a n p p1 p2 : 0 <= n -> app_range a (n + 1) ->
  streamed o a 1 p p1 -> streamed (o + 1) (a + 1) n p1 p2 -> streamed o a (n + 1) p p2.
Proof.
  intros Hn Hr H1 H2. pose proof (sm_last _ _ _ _ _ H1) as L1. pose proof (sm_last _ _ _ _ _ H2) as L2. split.
  - eapply rt_only_trans; [apply H1|apply H2].
  - apply H2.
  - apply H2.
  - by rewrite (sm_memory _ _ _ _ _ H2), (sm_memory _ _ _ _ _ H1).
  - intros l Hl. rewrite (sm_old _ _ _ _ _ H2) by lia. apply H1. lia.
  - lia.
  - by rewrite (sm_top _ _ _ _ _ H2), (sm_top _ _ _ _ _ H1).
  - intros i Hi. destruct (Z.eq_dec i 0) as [->|].
    + rewrite (sm_old _ _ _ _ _ H2) by (pose proof (wf_last _ (sm_wf _ _ _ _ _ H1)); lia).
      by apply (sm_infos _ _ _ _ _ H1 0).
    + pose proof (sm_infos _ _ _ _ _ H2 (i - 1) ltac:(lia)) as E. rewrite L1 in E.
      replace (last_label (prt p) + 1 + i) with (last_label (prt p) + 1 + 1 + (i - 1)) by lia. rewrite E. f_equal. lia.
  - intros i Hi. destruct (Z.eq_dec i 0) as [->|].
    + rewrite (sm_frame _ _ _ _ _ H2); [by apply (sm_labels _ _ _ _ _ H1 0)|unfold app_range, app_addr in *; lia|lia].
    + pose proof (sm_labels _ _ _ _ _ H2 (i - 1) ltac:(lia)) as E. rewrite L1 in E.
      replace (a + i) with (a + 1 + (i - 1)) by lia. rewrite E. lia.
  - intros b Hb Hout. rewrite (sm_frame _ _ _ _ _ H2), (sm_frame _ _ _ _ _ H1) by (done || lia). done.
Qed.

Lemma create_label_quiet o p : quiet p -> rt_wf (prt p) -> last_label (prt p) + 1 < alloca_stack_top (prt p) ->
  dfsan_create_label flags cfg o p = (Ok (last_label (prt p) + 1), on_rt (fun _ => add_input o (prt p)) p).
Proof. intros Hq Hw Hr. by apply in_rt_quiet; [|apply create_label_run|]. Qed.

(** One byte. *)
Lemma stream_byte o a p : quiet p -> rt_wf (prt p) -> last_label (prt p) + 1 < alloca_stack_top (prt p) ->
  app_range a 1 -> exists p', (let! l := dfsan_create_label flags cfg o in dfsan_set_label flags cfg l a 1) p = (Ok tt, p') /\
    streamed o a 1 p p'.
Proof.
  intros Hq Hw Hroom Hr. rewrite (bind_eq _ _ _ _ _ (create_label_quiet o p Hq Hw Hroom)).
  set (p1 := on_rt (fun _ => add_input o (prt p)) p).
  destruct (add_input_wf (prt p) o Hw Hroom) as [Hw1 He1].
  destruct (set_label_run flags cfg (last_label (prt p) + 1) a 1 p1 Hq) as (p2 & E2 & Hm2 & M2 & O2 & L2 & F2);
    [done|lia|].
  pose proof (mem_only_state _ _ Hm2) as (Ei & El & _ & _ & Et & _).
  change (prt p1) with (add_input o (prt p)) in *. exists p2. split; [done|]. split.
  - eapply rt_only_trans; [by exists (add_input o (prt p))|]. by apply mem_only_rt_only.
  - by eapply mem_only_quiet.
  - by eapply (mem_only_wf p1).
  - done.
  - rewrite Ei. apply He1.
  - by rewrite El.
  - by rewrite Et.
  - intros i Hi. rewrite Ei. simpl. rewrite info_at_insert, decide_True by lia. f_equal. lia.
  - intros i Hi. rewrite L2 by done. lia.
  - intros b Hb Hout. by rewrite F2.
Qed.

(** One label for every byte. *)
Lemma create_loop_run o buf k : forall i p, quiet p -> rt_wf (prt p) -> 0 <= i ->
  last_label (prt p) + Z.of_nat k < alloca_stack_top (prt p) -> app_range buf (i + Z.of_nat k) ->
  exists p', label_loop flags cfg (fun i => dfsan_create_label flags cfg (o + i)) buf i k p = (Ok tt, p') /\
    streamed (o + i) (buf + i) (Z.of_nat k) p p'.
Proof.
  induction k as [|k IH]; intros i p Hq Hw Hi Hroom Hr; cbn [label_loop].
  { exists p. split; [done|]. by apply streamed_nil. }
  destruct (stream_byte (o + i) (buf + i) p Hq Hw) as (p1 & E1 & H1); [lia|unfold app_range in *; lia|].
  destruct (IH (i + 1) p1) as (p2 & E2 & H2); [apply H1|apply H1|lia| |unfold app_range in *; lia|].
  { rewrite (sm_last _ _ _ _ _ H1), (sm_top _ _ _ _ _ H1). lia. }
  exists p2. split.
  - apply bind_ok in E1 as (l & q & Ea & Eb). rewrite (bind_eq _ _ _ _ _ Ea), (bind_eq _ _ _ _ _ Eb). exact E2.
  - replace (Z.of_nat (S k)) with (Z.of_nat k + 1) by lia. rewrite !Z.add_assoc in H2.
    eapply streamed_cons; [lia|unfold app_range in *; lia|exact H1|exact H2].
Qed.

(** [recv] and [recvfrom] on the tainted socket: the [r] bytes get labels for the
    next [r] bytes of the stream, and the offset moves by [r]. *)
Lemma received_streams fd buf r p : quiet p -> rt_wf (prt p) -> 0 < r ->
  last_label (prt p) + r < alloca_stack_top (prt p) -> app_range buf r ->
  s_fd (tainted_socket p) = fd -> 0 <= s_offset (tainted_socket p) ->
  exists p1 p2, received flags cfg fd buf r p = (Ok r, p2) /\
    streamed (s_offset (tainted_socket p)) buf r p p1 /\
    p2 = set_tainted_socket (mk_socket (family (tainted_socket p)) (port (tainted_socket p)) fd
           (s_offset (tainted_socket p) + r) (host (tainted_socket p))) p1.
Proof.
  intros Hq Hw Hr Hroom Hrange Hfd Ho. unfold received, bind at 1, gets. replace (r =? 0) with false by lia. cbn [andb].
  replace (0 <? r) with true by lia.
  destruct (create_loop_run (s_offset (tainted_socket p)) buf (Z.to_nat r) 0 p Hq Hw) as (p1 & E & H); [lia|lia|by rewrite Z2Nat.id by lia|].
  rewrite !Z.add_0_r, Z2Nat.id in H by lia. destruct (sm_only _ _ _ _ _ H) as [x Hp1].
  assert (tainted_socket p1 = tainted_socket p) as Et by (by rewrite Hp1).
  exists p1. eexists. split; [|split; [exact H|reflexivity]].
  rewrite (bind_eq _ _ p tt (set_tainted_socket (mk_socket (family (tainted_socket p)) (port (tainted_socket p)) fd
           (s_offset (tainted_socket p) + r) (host (tainted_socket p))) p1)); [done|].
  unfold taint_get_socket, bind at 1 2, gets, ret. rewrite Hfd, Z.eqb_refl.
  replace (0 <=? s_offset (tainted_socket p)) with true by lia. unfold create_bytes.
  rewrite (bind_eq _ _ _ _ _ E). unfold taint_update_socket_offset, bind, gets. rewrite Et, Hfd, Z.eqb_refl. done.
Qed.

End sockets.
