(* ===== verification/PrintfSpec.v ===== *)
(** * Formatted output: it ends, and a string keeps its labels *)

From S2P Require Import Prelude Dfsan Cstr HashTable Runtime LabelSem RuntimeSpec TotalSpec InputSpec ShadowSpec BoundsSpec Pipe Fastgen Libc Custom Printf LibcSpec CustomSpec.
Import custom printf.
Local Open Scope prog_scope.

(** ** Labels of truncated output *)

(** When the output does not fit, the number of labels written is what did not fit,
    not what did: with twice as much output as room it runs past the buffer. *)
Lemma truncated_labels_overrun f r : 0 < num_avail f -> 2 * num_avail f < r ->
  num_written_bytes f r = r - num_avail f /\ num_avail f < num_written_bytes f r.
Proof.
  intros Ha Hr. unfold num_written_bytes. replace (r <? 0) with false by lia.
  replace (num_avail f =? 0) with false by lia. replace (num_avail f <=? r) with true by lia. lia.
Qed.

Section format.
Context {OS : Type} {LIBC : Libc OS} {LLVM : InstructionDef} (flags : Flags) (cfg : fastgen.config).
Context (render : list Z -> option Z -> option Z -> gmap Z Z -> option (list Z)).
Implicit Types p : process OS.

(** ** Termination *)

(** [m] does not run out of fuel. *)
Definition fuelled {A} (m : M (process OS) A) : Prop := forall p, fst (m p) <> Err NoFuel.

Lemma fuelled_bind {A B} (m : M (process OS) A) (k : A -> M (process OS) B) :
  fuelled m -> (forall a, fuelled (k a)) -> fuelled (bind m k).
Proof. intros Hm Hk p. unfold bind. specialize (Hm p). destruct (m p) as [[a|e] p']; [apply Hk|simpl in *; congruence]. Qed.

Lemma set_label_fuelled l a n : fuelled (dfsan_set_label flags cfg l a n).
Proof.
  intros p. unfold dfsan_set_label, in_rt, in_be, fastgen.in_runtime, Runtime.dfsan_set_label.
  destruct (a =? 0); [done|]. edestruct set_label_loop_run as [sh ->]. done.
Qed.

Lemma format_fuelled f piece arg : fuelled (format render f piece arg).
Proof.
  intros p. unfold format, snprintf_at, bind, gets. destruct (render _ _ _ _); [|done]. by destruct (0 <? _).
Qed.

Lemma va_arg_fuelled ap : fuelled (va_arg ap : M (process OS) _).
Proof. by destruct ap. Qed.

Create HintDb fuel.
#[local] Hint Resolve fuelled_bind set_label_fuelled format_fuelled va_arg_fuelled : fuel.

Lemma conversion_fuelled f piece c ap : fuelled (conversion flags cfg render f piece c ap).
Proof.
  unfold conversion. repeat case_if; repeat (apply fuelled_bind; [auto with fuel; done|intros]);
    repeat case_match; try done; repeat (apply fuelled_bind; [auto with fuel; done|intros]); done.
Qed.

Lemma directive_fuelled cs : forall f piece ap, fuelled (directive flags cfg render f piece cs ap).
Proof.
  induction cs as [|c cs IH]; intros f piece ap; simpl; [done|].
  apply fuelled_bind; [apply conversion_fuelled|]. intros [[[f' ap'] r] []]; [done|apply IH].
Qed.

(** A piece takes at least one character. *)
Lemma directive_shorter cs : forall f piece ap p f' rest ap' r p',
  directive flags cfg render f piece cs ap p = (Ok (f', rest, ap', r), p') -> (length rest < length cs)%nat.
Proof.
  induction cs as [|c cs IH]; intros f piece ap p f' rest ap' r p' H; [done|]. cbn [directive] in H.
  apply bind_ok in H as ([[[f1 ap1] r1] []] & p1 & _ & H).
  - injection H as _ <- _ _ _. simpl. lia.
  - apply IH in H. simpl. lia.
Qed.

Lemma skip_plain_shorter cs : (length (snd (skip_plain cs)) <= length cs)%nat.
Proof.
  induction cs as [|c cs IH]; simpl; [lia|]. destruct (c =? c_percent); [simpl; lia|].
  destruct (skip_plain cs). simpl in *. lia.
Qed.

Lemma plain_shorter c cs f ap p f' rest ap' r p' : c <> c_percent ->
  plain flags cfg render f (c :: cs) ap p = (Ok (f', rest, ap', r), p') -> (length rest <= length cs)%nat.
Proof.
  intros Hc H. apply Z.eqb_neq in Hc. unfold plain in H. simpl in H. rewrite Hc in H.
  pose proof (skip_plain_shorter cs) as Hs. destruct (skip_plain cs) as [piece rest']. simpl in Hs.
  apply bind_ok in H as (r' & p1 & _ & H). apply bind_ok in H as (u & p2 & _ & H). injection H as _ <- _ _ _. done.
Qed.

Lemma plain_fuelled f cs ap : fuelled (plain flags cfg render f cs ap).
Proof.
  unfold plain. destruct (skip_plain cs) as [piece rest]. apply fuelled_bind; [apply format_fuelled|intros].
  by apply fuelled_bind; [apply set_label_fuelled|].
Qed.

Lemma pieces_fuelled n : forall f cs ap, (length cs <= n)%nat -> fuelled (pieces flags cfg render n f cs ap).
Proof.
  induction n as [|n IH]; intros f cs ap Hn; destruct cs as [|c cs]; try done; simpl in Hn; [lia|].
  cbn [pieces]. set (f0 := set_width (-1) f).
  set (m := if negb (c =? c_percent) then plain flags cfg render f0 (c :: cs) ap
            else directive flags cfg render f0 [c] cs ap).
  assert (fuelled m) as Hm by (subst m; case_if; [apply plain_fuelled|apply directive_fuelled]).
  intros p. unfold bind. specialize (Hm p). destruct (m p) as [[[[[f' rest] ap'] r]|e] p'] eqn:E; simpl in *; [|congruence].
  destruct (r <? 0); [done|]. apply IH. subst m.
  destruct (Z.eqb_spec c c_percent) as [->|Hc]; simpl in E.
  - apply directive_shorter in E. lia.
  - apply plain_shorter in E; [lia|done].
Qed.

(** The length of the format is enough fuel. *)
Lemma format_buffer_fuel s sz fmt ap : fuelled (format_buffer flags cfg render s sz fmt ap).
Proof. intros p. unfold format_buffer, bind, gets. by apply pieces_fuelled. Qed.

(** ** Strings *)

Lemma cstring_lookup m a i : 0 <= i < strlen m a -> cstring m a !! Z.to_nat i = Some (mem m (a + i)).
Proof.
  intros Hi. unfold cstring, bytes_of. rewrite list_lookup_fmap, lookup_seq_lt by lia. simpl. do 2 f_equal. lia.
Qed.

Lemma length_cstring m a : Z.of_nat (length (cstring m a)) = strlen m a.
Proof. unfold cstring, bytes_of. rewrite length_fmap, length_seq. pose proof (strlen_spec m a). lia. Qed.

(** A piece whose text fits. *)
Lemma format_fits f piece arg x p : width f < 0 -> render piece None (Some arg) (memory p) = Some x ->
  Z.of_nat (length x) < num_avail f ->
  format render f piece (Some arg) p =
  (Ok (Z.of_nat (length x)), on_rt (set_app (write_at (str_cur f) (x ++ [0]) (memory p))) p).
Proof.
  intros Hw Hr Ha. unfold format, bind, gets. replace (0 <=? width f) with false by lia. rewrite Hr.
  unfold snprintf_at, bind, modify_app, modify. replace (0 <? num_avail f) with true by lia.
  by rewrite take_ge by lia.
Qed.

Lemma written_fits f x : 0 <= x < num_avail f -> num_written_bytes f x = x.
Proof.
  intros Hx. unfold num_written_bytes. replace (x <? 0) with false by lia.
  replace (num_avail f =? 0) with false by lia. by replace (num_avail f <=? x) with false by lia.
Qed.

(** [sprintf(s, "%s", arg)] copies the string with its labels. *)
Lemma sprintf_string s fmt arg sl fl p : let len := strlen (memory p) arg in
  cstring (memory p) fmt = [c_percent; 115] ->
  render [c_percent; 115] None (Some arg) (memory p) = Some (cstring (memory p) arg) ->
  app_range s (len + 1) -> app_range arg (len + 1) -> s + len < arg \/ arg + len < s -> len < 2 ^ 31 ->
  exists p', dfsw_sprintf flags cfg render s fmt sl fl [arg] p = (Ok (len, 0), p') /\
    byte_of (s + len) p' = 0 /\
    forall i, 0 <= i < len -> byte_of (s + i) p' = byte_of (arg + i) p /\ label_of (s + i) p' = label_of (arg + i) p.
Proof.
  intros len Hfmt Hrender Rs Ra Hdis H31. pose proof (strlen_spec (memory p) arg) as (Hlen & _). fold len in Hlen.
  pose proof (length_cstring (memory p) arg) as Hl. fold len in Hl.
  set (f := mk_fmt s 0 (2 ^ 64 - 1) (-1)).
  assert (num_avail f = 2 ^ 64 - 1) as Hav by done.
  assert (num_written_bytes f len = len) as Hnw by (apply written_fits; rewrite Hav; lia).
  set (p1 := on_rt (set_app (write_at s (cstring (memory p) arg ++ [0]) (memory p))) p).
  set (p2 := on_rt (set_shadow (memcpy_labels (shadow_for s) (shadow_for arg) len (shadow (prt p)))) p1).
  assert (format render f [c_percent; 115] (Some arg) p = (Ok len, p1)) as E1.
  { rewrite (format_fits f _ arg _ p eq_refl Hrender) by lia. rewrite Hl. change (str_cur f) with (s + 0). by rewrite Z.add_0_r. }
  exists p2. split_and!.
  - unfold dfsw_sprintf. rewrite (bind_eq _ _ p len p2).
    { unfold ret. rewrite (wrap_small 32 len) by (unfold is_u; lia). unfold signed. by replace (len <? 2 ^ (32 - 1)) with true by lia. }
    unfold format_buffer, bind at 1, gets. rewrite Hfmt. cbn [length pieces]. change (c_percent =? c_percent) with true.
    cbn [negb]. change (set_width (-1) (mk_fmt s 0 (2 ^ 64 - 1) (-1))) with f.
    rewrite (bind_eq _ _ p (f, [], [], len) p2).
    { replace (len <? 0) with false by lia. by cbn. }
    cbn [directive app]. rewrite (bind_eq _ _ p (f, [], len, true) p2); [done|].
    unfold conversion. change (is_int_conv 115 || is_float_conv 115 || (115 =? 99) || (115 =? 112)) with false.
    change (115 =? 115) with true. cbv iota. unfold va_arg, bind at 1, ret at 1. rewrite (bind_eq _ _ _ _ _ E1), Hnw.
    change (str_cur f) with (s + 0). rewrite Z.add_0_r. done.
  - unfold byte_of. change (memory p2) with (write_at s (cstring (memory p) arg ++ [0]) (memory p)).
    rewrite mem_write_at, length_app, in_range by (simpl; lia). replace (Z.to_nat (s + len - s)) with (length (cstring (memory p) arg)) by lia.
    by rewrite lookup_app_r, Nat.sub_diag by lia.
  - intros i Hi. split.
    + unfold byte_of. change (memory p2) with (write_at s (cstring (memory p) arg ++ [0]) (memory p)).
      rewrite mem_write_at, length_app, in_range by (simpl; lia). replace (s + i - s) with i by lia.
      rewrite lookup_app_l by lia. by rewrite cstring_lookup.
    + unfold label_of, label_at. change (shadow (prt p2)) with (memcpy_labels (shadow_for s) (shadow_for arg) len (shadow (prt p))).
      pose proof (app_range_base s _ Rs ltac:(lia)). pose proof (app_range_base arg _ Ra ltac:(lia)).
      destruct (copy_up_copied 4 (Z.to_nat len) ltac:(lia) (shadow_for s) (shadow_for arg) (shadow (prt p))) as [Hc _];
        [rewrite !shadow_for_app by done; lia|].
      pose proof (app_range_addr s _ i Rs ltac:(lia)). pose proof (app_range_addr arg _ i Ra ltac:(lia)).
      rewrite !shadow_for_add by done. apply Hc. lia.
Qed.

End format.
