(* ===== verification/Launcher.v ===== *)
(** * The launcher: [driver/launcher/launch.c]

    Starts the instrumented program with the label table in shared memory and a
    pipe for its messages, and reads the messages. The functions keep one global
    structure; the system is the table of descriptors of this process, the
    children it has not waited for and the bytes in the pipe. Texts are strings.
    Memory does not run out. *)

From stdpp Require Import strings pretty.
From S2P Require Import Prelude Dfsan.
Local Open Scope prog_scope.

Module launcher.

Definition SYMSAN_INVALID_ARGS : Z := 1.
Definition SYMSAN_NO_MEMORY : Z := 2.
Definition SYMSAN_MISSING_BIN : Z := 3.
Definition SYMSAN_MISSING_SHM : Z := 4.
Definition SYMSAN_MISSING_INPUT : Z := 5.
Definition SYMSAN_MISSING_ARGS : Z := 6.

(** ** The system *)

Inductive file := DevNull | Shm | PipeRead | PipeWrite | Foreign (name : Z).

Record symsan_config := mk_config {
  symsan_bin : option string;
  input_file : option string;
  argv : option (list string);
  shm_name : option string;
  shm_fd : Z;
  label_info : Z;                       (* an address, 0 for NULL *)
  pipe_read : Z;                        (* pipefds[0] *)
  pipe_write : Z;                       (* pipefds[1] *)
  symsan_pid : Z;
  shm_size : Z;
  is_input_file : bool;
  is_input_sdtin : bool;
  is_input_network : bool;
  enable_debug : bool;
  enable_bounds_check : bool;
  enable_solve_ub : bool;
  exit_on_memerror : bool;
  trace_file_size : bool;
  force_stdin : bool;
  always_report_coverage : bool;
  dev_null_fd : Z;
  exit_status : Z;
  is_killed : bool
}.

Record world := mk_world {
  config : symsan_config;               (* g_config *)
  fds : gmap Z file;                    (* the open descriptors *)
  children : gset Z;                    (* started and not waited for *)
  files : gmap string (list Z);         (* the contents of files *)
  table : gmap Z dfsan_label_info;      (* the label table, in shared memory *)
  events : list Z;                      (* bytes that the child has written *)
  calls : nat                           (* system calls made so far *)
}.

(** What the system answers to its calls, by their number: whether they succeed,
    the process a [fork] makes, the address of a mapping, the status of a child, the
    time in seconds; and what the program leaves in the pipe and in the label
    table, by the files, its options, its arguments and the descriptor that is its
    standard input. *)
Class Posix := {
  ok : nat -> bool;
  new_pid : nat -> Z;
  new_pid_pos n : 0 < new_pid n;
  mapping : nat -> Z;
  wait_status : nat -> Z;
  now : nat -> Z;
  program : gmap string (list Z) -> string -> list string -> option Z -> list Z * gmap Z dfsan_label_info
}.

Definition set_fds x w := mk_world (config w) x (children w) (files w) (table w) (events w) (calls w).
Definition set_children x w := mk_world (config w) (fds w) x (files w) (table w) (events w) (calls w).
Definition set_events x w := mk_world (config w) (fds w) (children w) (files w) (table w) x (calls w).
Definition set_table x w := mk_world (config w) (fds w) (children w) (files w) x (events w) (calls w).
Definition set_files x w := mk_world (config w) (fds w) (children w) x (table w) (events w) (calls w).
Definition on_config (f : symsan_config -> symsan_config) : M world unit :=
  modify (fun w => mk_world (f (config w)) (fds w) (children w) (files w) (table w) (events w) (calls w)).

Definition set_pipes r p c := mk_config (symsan_bin c) (input_file c) (argv c) (shm_name c) (shm_fd c)
  (label_info c) r p (symsan_pid c) (shm_size c) (is_input_file c) (is_input_sdtin c) (is_input_network c)
  (enable_debug c) (enable_bounds_check c) (enable_solve_ub c) (exit_on_memerror c) (trace_file_size c)
  (force_stdin c) (always_report_coverage c) (dev_null_fd c) (exit_status c) (is_killed c).
Definition set_process pid status killed c := mk_config (symsan_bin c) (input_file c) (argv c) (shm_name c)
  (shm_fd c) (label_info c) (pipe_read c) (pipe_write c) pid (shm_size c) (is_input_file c) (is_input_sdtin c)
  (is_input_network c) (enable_debug c) (enable_bounds_check c) (enable_solve_ub c) (exit_on_memerror c)
  (trace_file_size c) (force_stdin c) (always_report_coverage c) (dev_null_fd c) status killed.
Definition set_shm name fd info c := mk_config (symsan_bin c) (input_file c) (argv c) name fd info
  (pipe_read c) (pipe_write c) (symsan_pid c) (shm_size c) (is_input_file c) (is_input_sdtin c)
  (is_input_network c) (enable_debug c) (enable_bounds_check c) (enable_solve_ub c) (exit_on_memerror c)
  (trace_file_size c) (force_stdin c) (always_report_coverage c) (dev_null_fd c) (exit_status c) (is_killed c).
Definition set_dev_null fd c := mk_config (symsan_bin c) (input_file c) (argv c) (shm_name c) (shm_fd c)
  (label_info c) (pipe_read c) (pipe_write c) (symsan_pid c) (shm_size c) (is_input_file c) (is_input_sdtin c)
  (is_input_network c) (enable_debug c) (enable_bounds_check c) (enable_solve_ub c) (exit_on_memerror c)
  (trace_file_size c) (force_stdin c) (always_report_coverage c) fd (exit_status c) (is_killed c).
Definition set_texts bin input args c := mk_config bin input args (shm_name c) (shm_fd c)
  (label_info c) (pipe_read c) (pipe_write c) (symsan_pid c) (shm_size c) (is_input_file c) (is_input_sdtin c)
  (is_input_network c) (enable_debug c) (enable_bounds_check c) (enable_solve_ub c) (exit_on_memerror c)
  (trace_file_size c) (force_stdin c) (always_report_coverage c) (dev_null_fd c) (exit_status c) (is_killed c).
Definition set_kind f s n c := mk_config (symsan_bin c) (input_file c) (argv c) (shm_name c) (shm_fd c)
  (label_info c) (pipe_read c) (pipe_write c) (symsan_pid c) (shm_size c) f s n (enable_debug c)
  (enable_bounds_check c) (enable_solve_ub c) (exit_on_memerror c) (trace_file_size c) (force_stdin c)
  (always_report_coverage c) (dev_null_fd c) (exit_status c) (is_killed c).
Definition set_flags d b u m t f a c := mk_config (symsan_bin c) (input_file c) (argv c) (shm_name c) (shm_fd c)
  (label_info c) (pipe_read c) (pipe_write c) (symsan_pid c) (shm_size c) (is_input_file c) (is_input_sdtin c)
  (is_input_network c) d b u m t f a (dev_null_fd c) (exit_status c) (is_killed c).

(** The lowest descriptor that is free. *)
Fixpoint free_fd (fuel : nat) (m : gmap Z file) (fd : Z) : Z :=
  match fuel with
  | O => fd
  | S fuel' => match m !! fd with None => fd | Some _ => free_fd fuel' m (fd + 1) end
  end.
Definition next_fd (m : gmap Z file) : Z := free_fd (size m) m 0.

Section launcher.
Context {P : Posix}.

Definition syscall {A} (f : nat -> A) : M world A := fun w =>
  (Ok (f (calls w)), mk_world (config w) (fds w) (children w) (files w) (table w) (events w) (S (calls w))).

Definition new_fd (f : file) : M world Z :=
  let! fd := gets (fun w => next_fd (fds w)) in
  modify (fun w => set_fds (<[fd := f]> (fds w)) w) ;;;
  ret fd.
Definition open (f : file) : M world Z :=
  let! b := syscall ok in if b : bool then new_fd f else ret (-1).
(** There is no descriptor -1. *)
Definition close (fd : Z) : M world unit :=
  modify (fun w => set_fds (if fd =? -1 then fds w else delete fd (fds w)) w).
Definition close_if_open (fd : Z) : M world unit := if fd =? -1 then ret tt else close fd.

(** [waitpid]: -1 is any child. *)
Definition waitpid (pid : Z) : M world Z :=
  let! st := syscall wait_status in
  modify (fun w => set_children (if pid =? -1 then ∅ else children w ∖ {[pid]}) w) ;;;
  ret st.

(** ** Configuration *)

(** The address of the label table, or -1. *)
Definition symsan_init (bin : option string) (uniontable_size pid : Z) : M world Z :=
  match bin with
  | None => ret (-1)
  | Some bin =>
      on_config (fun _ => mk_config (Some bin) None None None (-1) 0 (-1) (-1) (-1) uniontable_size
        false false false false false false true false false false (-1) 0 false) ;;;
      let! null := open DevNull in
      on_config (set_dev_null null) ;;;
      if null =? -1 then ret (-1)
      else
        let name := Some ("/symsan-union-table-" +:+ pretty pid) in
        let! fd := open Shm in
        on_config (set_shm name fd 0) ;;;
        if fd =? -1 then ret (-1)
        else
          let! sized := syscall ok in
          if negb sized then ret (-1)
          else
            let! mapped := gets (fun w => ok (calls w)) in
            let! a := syscall mapping in
            let a := if mapped : bool then a else -1 in
            on_config (set_shm name fd a) ;;;
            ret a
  end.

(** The [is_input] flags of an earlier call stay. *)
Definition symsan_set_input (input : option string) : M world Z :=
  match input with
  | None => ret SYMSAN_INVALID_ARGS
  | Some input =>
      on_config (fun c => set_texts (symsan_bin c) (Some input) (argv c) c) ;;;
      on_config (fun c =>
        if bool_decide (input = "stdin"%string) then set_kind (is_input_file c) true (is_input_network c) c
        else if String.prefix "tcp@" input || String.prefix "udp@" input || String.prefix "unix@" input
        then set_kind (is_input_file c) (is_input_sdtin c) true c
        else set_kind true (is_input_sdtin c) (is_input_network c) c) ;;;
      ret 0
  end.

(** The arguments, [None] for NULL; one that is NULL is an error. *)
Definition symsan_set_args (args : option (list (option string))) : M world Z :=
  match args with
  | None | Some [] => ret SYMSAN_INVALID_ARGS
  | Some args =>
      match mapM id args with
      | Some texts =>
          on_config (fun c => set_texts (symsan_bin c) (input_file c) (Some texts) c) ;;; ret 0
      | None =>
          on_config (fun c => set_texts (symsan_bin c) (input_file c) None c) ;;; ret SYMSAN_INVALID_ARGS
      end
  end.

Definition symsan_set_debug (enable : bool) : M world Z :=
  on_config (fun c => set_flags enable (enable_bounds_check c) (enable_solve_ub c) (exit_on_memerror c)
    (trace_file_size c) (force_stdin c) (always_report_coverage c) c) ;;; ret 0.
Definition symsan_set_bounds_check (enable : bool) : M world Z :=
  on_config (fun c => set_flags (enable_debug c) enable (enable_solve_ub c) (exit_on_memerror c)
    (trace_file_size c) (force_stdin c) (always_report_coverage c) c) ;;; ret 0.
Definition symsan_set_solve_ub (enable : bool) : M world Z :=
  on_config (fun c => set_flags (enable_debug c) (enable_bounds_check c) enable (exit_on_memerror c)
    (trace_file_size c) (force_stdin c) (always_report_coverage c) c) ;;; ret 0.
Definition symsan_set_exit_on_memerror (enable : bool) : M world Z :=
  on_config (fun c => set_flags (enable_debug c) (enable_bounds_check c) (enable_solve_ub c) enable
    (trace_file_size c) (force_stdin c) (always_report_coverage c) c) ;;; ret 0.
Definition symsan_set_trace_file_size (enable : bool) : M world Z :=
  on_config (fun c => set_flags (enable_debug c) (enable_bounds_check c) (enable_solve_ub c)
    (exit_on_memerror c) enable (force_stdin c) (always_report_coverage c) c) ;;; ret 0.
Definition symsan_set_force_stdin (enable : bool) : M world Z :=
  on_config (fun c => set_flags (enable_debug c) (enable_bounds_check c) (enable_solve_ub c)
    (exit_on_memerror c) (trace_file_size c) enable (always_report_coverage c) c) ;;; ret 0.
Definition symsan_set_always_report_coverage (enable : bool) : M world Z :=
  on_config (fun c => set_flags (enable_debug c) (enable_bounds_check c) (enable_solve_ub c)
    (exit_on_memerror c) (trace_file_size c) (force_stdin c) enable c) ;;; ret 0.

(** ** Runs *)

Definition flag (b : bool) : string := if b then "1" else "0".

Definition quote : string := String (Ascii.ascii_of_nat 34) EmptyString.

(** The options that the program reads from its environment. *)
Definition symsan_env (input : string) (c : symsan_config) : string :=
  "taint_file=" +:+ quote +:+ input +:+ quote +:+ ":shm_fd=" +:+ pretty (shm_fd c) +:+ ":pipe_fd=" +:+ pretty (pipe_write c)
  +:+ ":debug=" +:+ flag (enable_debug c) +:+ ":trace_bounds=" +:+ flag (enable_bounds_check c)
  +:+ ":solve_ub=" +:+ flag (enable_solve_ub c) +:+ ":exit_on_memerror=" +:+ flag (exit_on_memerror c)
  +:+ ":trace_fsize=" +:+ flag (trace_file_size c) +:+ ":force_stdin=" +:+ flag (force_stdin c)
  +:+ ":always_report_coverage=" +:+ flag (always_report_coverage c).

(** [pipe(pipefds)]: on failure the array is as before. *)
Definition make_pipe : M world bool :=
  let! b := syscall ok in
  if negb b then ret false
  else
    let! r := new_fd PipeRead in
    let! p := new_fd PipeWrite in
    on_config (set_pipes r p) ;;;
    ret true.

(** [fork] and what the child does: its descriptors are its own, so all that is
    seen of it are its messages and its labels. *)
Definition start (env : string) (args : list string) (stdin : option Z) : M world Z :=
  let! b := gets (fun w => ok (calls w)) in
  let! pid := syscall new_pid in
  if negb b then ret (-1)
  else
    let! (bytes, labels) := gets (fun w => program (files w) env args stdin) in
    modify (set_events bytes) ;;;
    modify (set_table labels) ;;;
    modify (fun w => set_children ({[pid]} ∪ children w) w) ;;;
    ret pid.

Definition symsan_run (fd : Z) : M world Z :=
  let! c := gets config in
  if fd <? 0 then ret SYMSAN_INVALID_ARGS
  else if bool_decide (symsan_bin c = None) then ret SYMSAN_MISSING_BIN
  else if label_info c =? 0 then ret SYMSAN_MISSING_SHM
  else
    match input_file c, argv c with
    | None, _ => ret SYMSAN_MISSING_INPUT
    | _, None => ret SYMSAN_MISSING_ARGS
    | Some input, Some args =>
        close_if_open (pipe_read c) ;;;
        close_if_open (pipe_write c) ;;;
        let! b := make_pipe in
        if negb b then ret SYMSAN_NO_MEMORY
        else
          let! c := gets config in
          let! pid := start (symsan_env input c) args (if is_input_sdtin c then Some fd else None) in
          on_config (fun c => set_process pid (exit_status c) (is_killed c) c) ;;;
          if pid <? 0 then close (pipe_read c) ;;; close (pipe_write c) ;;; ret pid
          else
            close (pipe_write c) ;;;
            on_config (fun c => set_pipes (pipe_read c) (-1) c) ;;;
            on_config (fun c => set_process (symsan_pid c) (exit_status c) false c) ;;;
            ret 0
    end.

(** "error or EOF" *)
Definition end_of_run : M world unit :=
  let! c := gets config in
  let! st := waitpid (symsan_pid c) in
  on_config (fun c => set_process (-1) st (is_killed c) c) ;;;
  close (pipe_read c) ;;;
  on_config (fun c => set_pipes (-1) (pipe_write c) c).

(** [read] of [n] bytes, or of what there is. *)
Definition read_pipe (n : nat) : M world (option (list Z)) :=
  let! c := gets config in
  if pipe_read c =? -1 then ret None
  else
    let! bs := gets (fun w => take n (events w)) in
    modify (fun w => set_events (drop n (events w)) w) ;;;
    ret (Some bs).

(** The bytes read; [None] is -1. The child has written what it will write. A
    descriptor -1 cannot be given to [select]. *)
Definition symsan_read_event (n : nat) (timeout : Z) : M world (option (list Z)) :=
  if (n =? 0)%nat then ret (Some [])
  else
    let! c := gets config in
    let! ready :=
      (if timeout =? 0 then ret true
       else if pipe_read c =? -1 then throw Undefined else syscall ok) in
    let! bs :=
      (if ready : bool then read_pipe n
       else on_config (fun c => set_process (symsan_pid c) (exit_status c) true c) ;;; ret None) in
    (if bool_decide (length <$> bs = Some n) then ret tt else end_of_run) ;;;
    ret bs.

(** [pipefds[0]] keeps its value. *)
Definition symsan_terminate : M world Z :=
  let! c := gets config in
  if symsan_pid c =? -1 then ret 0
  else if 0 <? symsan_pid c then
    let! st := waitpid (symsan_pid c) in
    on_config (set_process (-1) st true) ;;;
    close (pipe_read c) ;;;
    ret 0
  else ret (-1).

(** What is returned, and what is written to [*status] unless that is null. *)
Definition symsan_get_exit_status (null : bool) : M world (Z * option Z) :=
  if null then ret (-1, None)
  else gets (fun w => (Z.b2z (is_killed (config w)), Some (exit_status (config w)))).

Definition symsan_destroy : M world unit :=
  symsan_terminate ;;;
  on_config (fun c => set_shm (shm_name c) (shm_fd c) 0 c) ;;;
  let! c := gets config in
  close_if_open (dev_null_fd c) ;;;
  on_config (set_dev_null (-1)) ;;;
  close_if_open (shm_fd c) ;;;
  on_config (set_shm None (-1) 0) ;;;
  on_config (set_texts None None None) ;;;
  close_if_open (pipe_read c) ;;;
  close_if_open (pipe_write c) ;;;
  on_config (set_pipes (-1) (-1)).

End launcher.

End launcher.
