(* ===== verification/LauncherSpec.v ===== *)
(** * What the launcher guarantees about descriptors and messages *)

From stdpp Require Import strings pretty.
From S2P Require Import Prelude Launcher.
Import launcher.
Local Open Scope prog_scope.

(** ** Free descriptors *)

Lemma free_fd_spec fuel m : forall fd, m !! free_fd fuel m fd = None \/
  free_fd fuel m fd = fd + Z.of_nat fuel /\ (forall i, fd <= i < fd + Z.of_nat fuel -> is_Some (m !! i)).
Proof.
  induction fuel as [|fuel IH]; intros fd; cbn [free_fd].
  - right. split; [lia|intros; lia].
  - destruct (m !! fd) eqn:E; [|by left].
    destruct (IH (fd + 1)) as [H|[H Hall]]; [by left|right].
    split; [lia|]. intros i Hi. destruct (decide (i = fd)) as [->|]; [by rewrite E|apply Hall; lia].
Qed.

Lemma next_fd_free m : m !! next_fd m = None.
Proof.
  unfold next_fd. destruct (free_fd_spec (size m) m 0) as [H|[-> Hall]]; [done|].
  apply eq_None_not_Some. intros Hs.
  assert (Hsub : (list_to_set (seqZ 0 (Z.of_nat (size m) + 1)) : gset Z) ⊆ dom m).
  { intros i Hi. apply elem_of_list_to_set, elem_of_seqZ in Hi. apply elem_of_dom.
    destruct (decide (i = Z.of_nat (size m))) as [->|]; [done|apply Hall; lia]. }
  apply subseteq_size in Hsub. rewrite size_list_to_set in Hsub by apply NoDup_seqZ.
  rewrite length_seqZ, size_dom in Hsub. lia.
Qed.

Lemma next_fd_pos m : 0 <= next_fd m.
Proof.
  unfold next_fd. generalize (size m). intros n. assert (H : forall fd, fd <= free_fd n m fd); [|apply H].
  induction n as [|n IH]; intros fd; cbn [free_fd]; [done|]. destruct (m !! fd); [|done].
  specialize (IH (fd + 1)). lia.
Qed.

(** ** Descriptors *)

(** The descriptors that the launcher remembers are its own. *)
Definition holds (fd : Z) (f : file) (m : gmap Z file) : Prop := fd = -1 \/ m !! fd = Some f.

Record owned (w : world) : Prop := {
  own_null : holds (dev_null_fd (config w)) DevNull (fds w);
  own_shm : holds (shm_fd (config w)) Shm (fds w);
  own_read : holds (pipe_read (config w)) PipeRead (fds w);
  own_write : holds (pipe_write (config w)) PipeWrite (fds w)
}.

Definition foreign_kept (w w' : world) : Prop :=
  forall fd n, fds w !! fd = Some (Foreign n) -> fds w' !! fd = Some (Foreign n).

(** A step after which the launcher still holds its descriptors and has closed none
    of the others. *)
Definition kept (w w' : world) : Prop := owned w' /\ foreign_kept w w'.

Lemma lookup_new g f fd f' (m : gmap Z file) : m !! g = Some f -> m !! fd = None -> <[fd := f']> m !! g = Some f.
Proof. intros H Hn. rewrite lookup_insert_ne; [done|]. intros <-. congruence. Qed.

Lemma lookup_close g f fd f' m : m !! g = Some f -> holds fd f' m -> f <> f' ->
  (if fd =? -1 then m else delete fd m) !! g = Some f.
Proof.
  intros H H' Hf. destruct (Z.eqb_spec fd (-1)) as [|Hne]; [done|].
  rewrite lookup_delete_ne; [done|]. intros <-. destruct H'; congruence.
Qed.

Lemma holds_mono g f (m m' : gmap Z file) : (m !! g = Some f -> m' !! g = Some f) -> holds g f m -> holds g f m'.
Proof. intros H [->|Hg]; [by left|right; auto]. Qed.

Section spec.
Context {P : Posix}.

Lemma close_if_open_eq fd w :
  close_if_open fd w = (Ok tt, set_fds (if fd =? -1 then fds w else delete fd (fds w)) w).
Proof. unfold close_if_open, close, modify. by destruct w, (fd =? -1). Qed.

Lemma bind_close {A} fd (k : unit -> M world A) w :
  bind (close_if_open fd) k w = k tt (set_fds (if fd =? -1 then fds w else delete fd (fds w)) w).
Proof. apply bind_eq, close_if_open_eq. Qed.

Lemma bind_config {A} f (k : unit -> M world A) w :
  bind (on_config f) k w = k tt (mk_world (f (config w)) (fds w) (children w) (files w) (table w) (events w) (calls w)).
Proof. by apply bind_eq. Qed.

Lemma bind_get {A B} (f : world -> A) (k : A -> M world B) w : bind (gets f) k w = k (f w) w.
Proof. by apply bind_eq. Qed.

Lemma flags_owned (f : symsan_config -> symsan_config) w :
  dev_null_fd (f (config w)) = dev_null_fd (config w) -> shm_fd (f (config w)) = shm_fd (config w) ->
  pipe_read (f (config w)) = pipe_read (config w) -> pipe_write (f (config w)) = pipe_write (config w) ->
  owned w -> owned (snd (on_config f w)).
Proof. intros E1 E2 E3 E4 []. by split; cbn; rewrite ?E1, ?E2, ?E3, ?E4. Qed.

(** The table of descriptors when a run has been started: the pipes of the run
    before are gone, and there is the read end of a new one. *)
Definition after_close (w : world) : gmap Z file :=
  let m := if pipe_read (config w) =? -1 then fds w else delete (pipe_read (config w)) (fds w) in
  if pipe_write (config w) =? -1 then m else delete (pipe_write (config w)) m.

Definition run_pipe (w : world) : Z := next_fd (after_close w).

Definition runnable (fd : Z) (w : world) : Prop :=
  0 <= fd /\ symsan_bin (config w) <> None /\ label_info (config w) <> 0 /\
  is_Some (input_file (config w)) /\ is_Some (argv (config w)).

Lemma symsan_run_refused fd w : ~ runnable fd w -> exists r, r <> 0 /\ symsan_run fd w = (Ok r, w).
Proof.
  intros Hr. unfold symsan_run, bind, gets. destruct (Z.ltb_spec fd 0); [by exists SYMSAN_INVALID_ARGS|].
  destruct (bool_decide_reflect (symsan_bin (config w) = None)); [by exists SYMSAN_MISSING_BIN|].
  destruct (Z.eqb_spec (label_info (config w)) 0); [by exists SYMSAN_MISSING_SHM|].
  destruct (input_file (config w)) eqn:Ei, (argv (config w)) eqn:Ea;
    [|by exists SYMSAN_MISSING_ARGS|by exists SYMSAN_MISSING_INPUT|by exists SYMSAN_MISSING_INPUT].
  destruct Hr. split_and!; try done; rewrite ?Ei, ?Ea; eauto.
Qed.

Lemma symsan_run_eq fd w : runnable fd w -> ok (calls w) = true -> ok (S (calls w)) = true ->
  exists env args stdin w', symsan_run fd w = (Ok 0, w') /\
    config w' = set_pipes (run_pipe w) (-1) (set_process (new_pid (S (calls w))) (exit_status (config w)) false (config w)) /\
    fds w' = <[run_pipe w := PipeRead]> (after_close w) /\
    children w' = {[new_pid (S (calls w))]} ∪ children w /\
    argv (config w) = Some args /\ env = symsan_env (default EmptyString (input_file (config w)))
      (set_pipes (run_pipe w) (next_fd (<[run_pipe w := PipeRead]> (after_close w))) (config w)) /\
    stdin = (if is_input_sdtin (config w) then Some fd else None) /\
    (events w', table w') = program (files w) env args stdin /\ files w' = files w.
Proof.
  intros (Hfd & Hb & Hl & [input Hi] & [args Ha]) Ho1 Ho2. pose proof (new_pid_pos (S (calls w))) as Hpid.
  unfold symsan_run, bind, gets.
  rewrite (proj2 (Z.ltb_ge _ _)) by lia. rewrite bool_decide_false by done.
  rewrite (proj2 (Z.eqb_neq _ _)) by done. rewrite Hi, Ha.
  rewrite !close_if_open_eq. cbn -[next_fd]. rewrite Ho1. cbn -[next_fd]. rewrite Ho2. cbn -[next_fd].
  destruct (program _ _ _ _) as [bytes labels] eqn:Ep. cbn -[next_fd].
  rewrite (proj2 (Z.ltb_ge _ _)) by lia. cbn -[next_fd].
  fold (after_close w). fold (run_pipe w). eexists _, _, _, _. split; [reflexivity|].
  cbn -[next_fd]. split_and!; try done.
  rewrite (proj2 (Z.eqb_neq _ _)) by (pose proof (next_fd_pos (<[run_pipe w := PipeRead]> (after_close w))); lia).
  rewrite delete_insert_id; [done|apply next_fd_free].
Qed.

Lemma symsan_run_owned fd w : ok (calls w) = true -> ok (S (calls w)) = true -> owned w ->
  kept w (snd (symsan_run fd w)).
Proof.
  intros Ho1 Ho2 Hw. destruct (decide (0 <= fd /\ symsan_bin (config w) <> None /\ label_info (config w) <> 0 /\
    is_Some (input_file (config w)) /\ is_Some (argv (config w)))) as [Hr|Hr].
  2: { destruct (symsan_run_refused fd w Hr) as (r & _ & ->). by split; [|intros ???]. }
  destruct (symsan_run_eq fd w Hr Ho1 Ho2) as (? & ? & ? & w' & -> & Hc & Hf & _). cbn [snd].
  assert (Hfree : after_close w !! run_pipe w = None) by apply next_fd_free.
  destruct Hw as [Hn Hs Hrd Hwr].
  assert (Hkeep : forall g f, fds w !! g = Some f -> f <> PipeRead -> f <> PipeWrite -> fds w' !! g = Some f).
  { intros g f Hg Hf1 Hf2. rewrite Hf. apply lookup_new; [|done]. unfold after_close.
    eapply (lookup_close _ _ _ PipeWrite); [by eapply lookup_close| |done].
    revert Hwr. apply holds_mono. intros. by eapply lookup_close. }
  split.
  - split; rewrite Hc; cbn; [| |rewrite Hf; right; apply lookup_insert_eq|by left];
      (eapply holds_mono; [|eassumption]); auto.
  - intros g n Hg. by apply Hkeep.
Qed.

(** Steps that change neither descriptors nor what is remembered of them. *)
Definition same_fds (w w' : world) : Prop :=
  fds w' = fds w /\ dev_null_fd (config w') = dev_null_fd (config w) /\ shm_fd (config w') = shm_fd (config w) /\
  pipe_read (config w') = pipe_read (config w) /\ pipe_write (config w') = pipe_write (config w).

Lemma same_fds_owned w w' : same_fds w w' -> owned w -> kept w w'.
Proof.
  intros (Ef & E1 & E2 & E3 & E4) []. split; [split; rewrite Ef|intros ???; rewrite Ef]; by rewrite ?E1, ?E2, ?E3, ?E4.
Qed.

Lemma foreign_kept_trans w1 w2 w3 : foreign_kept w1 w2 -> foreign_kept w2 w3 -> foreign_kept w1 w3.
Proof. intros H1 H2 ???. by apply H2, H1. Qed.

Lemma end_of_run_owned w : owned w -> kept w (snd (end_of_run w)).
Proof.
  intros [Hn Hs Hr Hw]. cbn. split.
  - split; cbn; [| |by left|]; (eapply holds_mono; [|eassumption]); intros; by eapply lookup_close.
  - intros g n Hg. cbn. by eapply lookup_close.
Qed.

Lemma symsan_read_event_owned n timeout w : owned w ->
  kept w (snd (symsan_read_event n timeout w)).
Proof.
  intros Hw. assert (Hid : kept w w) by (by split; [|intros ???]).
  assert (Hend : forall A (bs : A) w1, same_fds w w1 ->
    kept w (snd ((end_of_run ;;; ret bs) w1))).
  { intros A bs w1 H1. destruct (same_fds_owned _ _ H1 Hw) as [Ho Hf].
    destruct (end_of_run_owned w1 Ho) as [Ho' Hf']. split; [done|by eapply foreign_kept_trans]. }
  unfold symsan_read_event. destruct (n =? 0)%nat; [done|].
  rewrite !(bind_eq (gets config) _ w (config w) w) by done.
  assert (Htail : forall ready w1, same_fds w w1 ->
    kept w (snd ((let! bs := (if ready : bool then read_pipe n
       else on_config (fun c => set_process (symsan_pid c) (exit_status c) true c) ;;; ret None) in
    (if bool_decide (length <$> bs = Some n) then ret tt else end_of_run) ;;; ret bs) w1))).
  { intros ready w1 H1. assert (Hsame : forall (bs : option (list Z)) w2, same_fds w w2 ->
      kept w (snd (((if bool_decide (length <$> bs = Some n) then ret tt else end_of_run) ;;; ret bs) w2))).
    { intros bs w2 H2. destruct (bool_decide _); [by apply same_fds_owned|by apply Hend]. }
    assert (Hread : exists bs w2, (if ready then read_pipe n
      else on_config (fun c => set_process (symsan_pid c) (exit_status c) true c) ;;; ret None) w1 = (Ok bs, w2) /\
      same_fds w w2).
    { destruct ready; [|by eexists _, _]. unfold read_pipe, bind, gets.
      destruct (pipe_read (config w1) =? -1); by eexists _, _. }
    destruct Hread as (bs & w2 & E & H2). rewrite (bind_eq _ _ _ _ _ E). by apply Hsame. }
  destruct (timeout =? 0); [by apply (Htail true)|].
  destruct (pipe_read (config w) =? -1); [exact Hid|]. by apply (Htail (ok (calls w))).
Qed.

(** A descriptor that is opened and remembered. *)
Lemma open_cases f w : exists fd w1, open f w = (Ok fd, w1) /\ config w1 = config w /\
  (fd = -1 /\ fds w1 = fds w \/ fds w !! fd = None /\ fd <> -1 /\ fds w1 = <[fd := f]> (fds w)).
Proof.
  unfold open, bind, syscall. destruct (ok (calls w)); cbn -[next_fd]; eexists _, _; (split; [reflexivity|]);
    (split; [done|]); [right|by left]. cbn -[next_fd].
  split_and!; [apply next_fd_free| |done]. pose proof (next_fd_pos (fds w)). lia.
Qed.

Lemma symsan_init_owned bin size pid w :
  bin <> None -> kept w (snd (symsan_init bin size pid w)).
Proof.
  intros Hb. destruct bin as [bin|]; [|done]. unfold symsan_init. unfold bind at 1. cbn [on_config modify].
  set (w0 := mk_world _ _ _ _ _ _ _).
  assert (Hcase : forall f w1, exists fd w2, open f w1 = (Ok fd, w2) /\ config w2 = config w1 /\
    (forall g f', fds w1 !! g = Some f' -> fds w2 !! g = Some f') /\ holds fd f (fds w2)).
  { intros f w1. destruct (open_cases f w1) as (fd & w2 & E & Ec & [[-> Ef]|(Hn & Hne & Ef)]);
      exists fd, w2 || exists (-1), w2; split_and!; try done; rewrite ?Ef; try done.
    - by left.
    - intros. by apply lookup_new.
    - right. apply lookup_insert_eq. }
  destruct (Hcase DevNull w0) as (null & w1 & E1 & Ec1 & Hk1 & H1).
  unfold bind at 1. rewrite E1. unfold bind at 1. cbn [on_config modify]. rewrite Ec1.
  set (w1' := mk_world _ _ _ _ _ _ _). assert (Hf1 : foreign_kept w w1') by (intros g n Hg; by apply Hk1).
  destruct (null =? -1).
  { split; [|done]. split; cbn; [done|by left|by left|by left]. }
  destruct (Hcase Shm w1') as (fd & w2 & E2 & Ec2 & Hk2 & H2).
  assert (Hf2 : forall n c, foreign_kept w (mk_world c (fds w2) (children w2) (files w2) (table w2) (events w2) n))
    by (intros n c g k Hg; by apply Hk2, Hf1).
  assert (Ho : forall n a k, owned (mk_world (set_shm k fd a (config w1')) (fds w2) (children w2) (files w2) (table w2) (events w2) n)).
  { intros n a k. split; cbn; [|done|by left|by left]. revert H1. apply holds_mono. apply Hk2. }
  unfold bind at 1. rewrite E2. unfold bind at 1. cbn [on_config modify]. rewrite Ec2.
  destruct (fd =? -1); [split; [apply Ho|apply Hf2]|].
  unfold bind at 1, syscall at 1. destruct (ok _); cbn [negb]; [|split; [apply Ho|apply Hf2]].
  split; [apply Ho|apply Hf2].
Qed.

Lemma symsan_terminate_idle w : symsan_pid (config w) = -1 -> symsan_terminate w = (Ok 0, w).
Proof. intros E. unfold symsan_terminate, bind, gets. by rewrite E. Qed.

Lemma symsan_destroy_owned w : symsan_pid (config w) = -1 -> owned w -> kept w (snd (symsan_destroy w)).
Proof.
  intros Hp [Hn Hs Hr Hw]. unfold symsan_destroy. rewrite (bind_eq _ _ _ _ _ (symsan_terminate_idle w Hp)).
  repeat (first [rewrite bind_config | rewrite bind_close | rewrite bind_get]; cbn [config fds set_fds]).
  cbn [on_config modify snd config fds set_fds set_dev_null set_shm set_texts set_pipes dev_null_fd shm_fd pipe_read pipe_write].
  set (m1 := if dev_null_fd (config w) =? -1 then fds w else _).
  set (m2 := if shm_fd (config w) =? -1 then m1 else _).
  set (m3 := if pipe_read (config w) =? -1 then m2 else _).
  assert (H1 : forall g f, fds w !! g = Some f -> f <> DevNull -> m1 !! g = Some f) by (intros; by eapply lookup_close).
  assert (H2 : forall g f, m1 !! g = Some f -> f <> Shm -> m2 !! g = Some f).
  { intros. eapply lookup_close; [done| |done]. eapply holds_mono, Hs. auto. }
  assert (H3 : forall g f, m2 !! g = Some f -> f <> PipeRead -> m3 !! g = Some f).
  { intros. eapply lookup_close; [done| |done]. eapply holds_mono, Hr. auto. }
  split; [by split; left|]. intros g n Hg. cbn [fds set_fds].
  eapply (lookup_close _ _ _ PipeWrite); [by apply H3; [apply H2; [apply H1|]|]| |done].
  eapply holds_mono, Hw. auto.
Qed.

(** ** Sequences of calls *)

(** What a program does with the launcher: its calls, and descriptors of its own
    that it opens in between. Pipes and processes can be made, and a run is over
    before it is terminated or the launcher is destroyed. *)
Inductive step (w : world) : world -> Prop :=
  | s_init bin size pid : step w (snd (symsan_init (Some bin) size pid w))
  | s_input i : step w (snd (symsan_set_input i w))
  | s_args a : step w (snd (symsan_set_args a w))
  | s_debug b : step w (snd (symsan_set_debug b w))
  | s_bounds_check b : step w (snd (symsan_set_bounds_check b w))
  | s_solve_ub b : step w (snd (symsan_set_solve_ub b w))
  | s_memerror b : step w (snd (symsan_set_exit_on_memerror b w))
  | s_file_size b : step w (snd (symsan_set_trace_file_size b w))
  | s_stdin b : step w (snd (symsan_set_force_stdin b w))
  | s_coverage b : step w (snd (symsan_set_always_report_coverage b w))
  | s_run fd : ok (calls w) = true -> ok (S (calls w)) = true -> step w (snd (symsan_run fd w))
  | s_read n timeout : step w (snd (symsan_read_event n timeout w))
  | s_terminate : symsan_pid (config w) = -1 -> step w (snd (symsan_terminate w))
  | s_destroy : symsan_pid (config w) = -1 -> step w (snd (symsan_destroy w))
  | s_open n : step w (snd (new_fd (Foreign n) w)).

Lemma new_fd_owned n w : owned w -> kept w (snd (new_fd (Foreign n) w)).
Proof.
  intros []. pose proof (next_fd_free (fds w)) as Hf. cbn -[next_fd].
  split; [split; cbn -[next_fd]; (eapply holds_mono; [|eassumption])|intros ???]; intros; by apply lookup_new.
Qed.

Lemma symsan_set_owned w w' : (exists i, w' = snd (symsan_set_input i w)) \/ (exists a, w' = snd (symsan_set_args a w)) ->
  same_fds w w'.
Proof.
  intros [[[i|] ->]|[[[|x a]|] ->]]; try done.
  - unfold symsan_set_input. rewrite !bind_config. cbn -[String.prefix].
    case_bool_decide; [done|]. by destruct (_ || _).
  - unfold symsan_set_args. by destruct (mapM id (x :: a)).
Qed.

Lemma step_kept w w' : step w w' -> owned w -> kept w w'.
Proof.
  intros H Hw. destruct H.
  1: by apply symsan_init_owned.
  1-2: apply same_fds_owned; [apply symsan_set_owned; eauto|done].
  1-7: by apply same_fds_owned.
  - by apply symsan_run_owned.
  - by apply symsan_read_event_owned.
  - rewrite symsan_terminate_idle by done. by apply same_fds_owned.
  - by apply symsan_destroy_owned.
  - by apply new_fd_owned.
Qed.

(** ** Messages *)

(** A read of as much as there is, or more. *)
Lemma read_event_full n timeout w : (0 < n <= length (events w))%nat -> pipe_read (config w) <> -1 ->
  ok (calls w) = true ->
  exists k, symsan_read_event n timeout w =
    (Ok (Some (take n (events w))), mk_world (config w) (fds w) (children w) (files w) (table w) (drop n (events w)) k).
Proof.
  intros Hn Hp Hok. unfold symsan_read_event. rewrite (proj2 (Nat.eqb_neq n 0)) by lia. rewrite bind_get.
  rewrite (proj2 (Z.eqb_neq (pipe_read _) _)) by done.
  assert (Hread : forall k, (let! bs := read_pipe n in
      (if bool_decide (length <$> bs = Some n) then ret tt else end_of_run) ;;; ret bs)
      (mk_world (config w) (fds w) (children w) (files w) (table w) (events w) k) =
    (Ok (Some (take n (events w))), mk_world (config w) (fds w) (children w) (files w) (table w) (drop n (events w)) k)).
  { intros k. unfold read_pipe, bind, gets. cbn [config]. rewrite (proj2 (Z.eqb_neq _ _)) by done. cbn.
    rewrite bool_decide_true by (by rewrite length_take, Nat.min_l by lia). done. }
  destruct (timeout =? 0).
  - exists (calls w). specialize (Hread (calls w)). by destruct w.
  - exists (S (calls w)). unfold bind at 1, syscall. rewrite Hok. apply Hread.
Qed.

(** The end: the child is waited for and the pipe is closed. *)
Lemma read_event_end n timeout w : (length (events w) < n)%nat -> pipe_read (config w) <> -1 ->
  ok (calls w) = true ->
  exists w', symsan_read_event n timeout w = (Ok (Some (events w)), w') /\
    events w' = [] /\ pipe_read (config w') = -1 /\ symsan_pid (config w') = -1 /\
    fds w' = delete (pipe_read (config w)) (fds w) /\
    (symsan_pid (config w) <> -1 -> children w' = children w ∖ {[symsan_pid (config w)]}).
Proof.
  intros Hn Hp Hok. unfold symsan_read_event. rewrite (proj2 (Nat.eqb_neq n 0)) by lia. rewrite bind_get.
  rewrite (proj2 (Z.eqb_neq (pipe_read _) _)) by done.
  assert (Hread : forall k, exists w', (let! bs := read_pipe n in
      (if bool_decide (length <$> bs = Some n) then ret tt else end_of_run) ;;; ret bs)
      (mk_world (config w) (fds w) (children w) (files w) (table w) (events w) k) = (Ok (Some (events w)), w') /\
    events w' = [] /\ pipe_read (config w') = -1 /\ symsan_pid (config w') = -1 /\
    fds w' = delete (pipe_read (config w)) (fds w) /\
    (symsan_pid (config w) <> -1 -> children w' = children w ∖ {[symsan_pid (config w)]})).
  { intros k. unfold read_pipe, bind, gets. cbn [config]. rewrite (proj2 (Z.eqb_neq _ _)) by done. cbn.
    rewrite take_ge, drop_ge by lia.
    rewrite bool_decide_false by (intros [=]; lia). eexists. split; [reflexivity|]. cbn.
    rewrite (proj2 (Z.eqb_neq (pipe_read _) _)) by done. split_and!; try done.
    intros. by rewrite (proj2 (Z.eqb_neq _ _)) by done. }
  destruct (timeout =? 0).
  - specialize (Hread (calls w)). destruct w. exact Hread.
  - unfold bind at 1, syscall. rewrite Hok. apply Hread.
Qed.

(** Reading never adds messages, and a whole message read is gone from the pipe. *)
Lemma read_event_rest n timeout w r w' : symsan_read_event n timeout w = (r, w') ->
  exists k, (k <= n)%nat /\ events w' = drop k (events w) /\ (forall bs, r = Ok (Some bs) -> bs = take k (events w)).
Proof.
  unfold symsan_read_event. destruct (Nat.eqb_spec n 0) as [->|Hn].
  { intros [= <- <-]. exists 0%nat. split_and!; [done|done|]. by intros bs [= <-]. }
  rewrite bind_get. intros E.
  assert (Htail : forall (ready : bool) w1, events w1 = events w -> (let! bs := (if ready then read_pipe n
       else on_config (fun c => set_process (symsan_pid c) (exit_status c) true c) ;;; ret None) in
    (if bool_decide (length <$> bs = Some n) then ret tt else end_of_run) ;;; ret bs) w1 = (r, w') ->
    exists k, (k <= n)%nat /\ events w' = drop k (events w) /\ (forall bs, r = Ok (Some bs) -> bs = take k (events w))).
  { intros ready w1 E1 E2. assert (Hend : forall (bs : option (list Z)) w2,
      ((if bool_decide (length <$> bs = Some n) then ret tt else end_of_run) ;;; ret bs) w2 = (r, w') ->
      r = Ok bs /\ events w' = events w2) by (intros bs w2; destruct (bool_decide _); by intros [= <- <-]).
    destruct ready.
    - unfold bind at 1, read_pipe in E2. rewrite bind_get in E2. destruct (pipe_read (config w1) =? -1).
      + destruct (Hend None w1 E2) as [-> ->]. rewrite E1. exists 0%nat. split_and!; [lia|done|done].
      + destruct (Hend (Some (take n (events w1))) (set_events (drop n (events w1)) w1) E2) as [-> ->].
        exists n. cbn. rewrite E1. split_and!; [done|done|]. by intros bs [= <-].
    - destruct (Hend None (snd (on_config (fun c => set_process (symsan_pid c) (exit_status c) true c) w1)) E2)
        as [-> ->]. cbn. rewrite E1. exists 0%nat. split_and!; [lia|done|done]. }
  destruct (timeout =? 0); [by apply (Htail true w)|].
  destruct (pipe_read (config w) =? -1).
  - injection E as <- <-. exists 0%nat. split_and!; [lia|done|done].
  - exact (Htail (ok (calls w)) (snd (syscall ok w)) eq_refl E).
Qed.

End spec.

(** ** Loops over messages *)

(** Computations that add no bytes to what [ev] counts. *)
Definition shrinks {S A} (ev : S -> nat) (m : M S A) : Prop := forall s, (ev (snd (m s)) <= ev s)%nat.

Section shrinks.
Context {S : Type} (ev : S -> nat).

Lemma shrinks_ret {A} (a : A) : shrinks ev (ret a).
Proof. intros s. cbn. lia. Qed.
Lemma shrinks_gets {A} (f : S -> A) : shrinks ev (gets f).
Proof. intros s. cbn. lia. Qed.
Lemma shrinks_lift {A} (r : res A) : shrinks ev (lift r).
Proof. intros s. cbn. lia. Qed.
Lemma shrinks_modify f : (forall s, ev (f s) = ev s) -> shrinks ev (modify f).
Proof. intros H s. cbn. rewrite H. lia. Qed.
Lemma shrinks_bind {A B} (m : M S A) (k : A -> M S B) : shrinks ev m -> (forall a, shrinks ev (k a)) -> shrinks ev (bind m k).
Proof.
  intros Hm Hk s. unfold bind. specialize (Hm s). destruct (m s) as [[a|e] s1]; [|done].
  etrans; [apply Hk|exact Hm].
Qed.
Lemma shrinks_for_each {A} (l : list A) (f : A -> M S unit) : (forall x, shrinks ev (f x)) -> shrinks ev (for_each l f).
Proof. intros Hf. induction l as [|x l IH]; [apply shrinks_ret|]. by apply shrinks_bind. Qed.

End shrinks.

(** Take a computation apart; [leaf] is for the calls it makes. *)
Ltac shrink leaf :=
  repeat first
    [ apply shrinks_ret | apply shrinks_gets | apply shrinks_lift | leaf
    | apply shrinks_modify; done
    | apply shrinks_bind; [|intros ?]
    | match goal with
      | |- shrinks _ (if ?b then _ else _) => destruct b
      | |- shrinks _ (match ?x with _ => _ end) => destruct x
      | |- shrinks _ (let _ := _ in _) => cbv zeta
      end ].

(** ** Calls that leave stale descriptors *)

(** A system in which everything succeeds. *)
Definition benign : Posix.
Proof.
  refine {| ok _ := true; new_pid n := 100 + Z.of_nat n; mapping _ := 0x7f0000000000; wait_status _ := 0;
            now _ := 0;
            program _ _ _ _ := ([], ∅) |}.
  intros n. lia.
Defined.

(** A process with its standard descriptors, before the launcher is used. *)
Definition fresh_world : world :=
  mk_world (mk_config None None None None (-1) 0 (-1) (-1) (-1) 0 false false false false false
    false false false false false (-1) 0 false) {[0 := Foreign 0; 1 := Foreign 1; 2 := Foreign 2]} ∅ ∅ ∅ [] 0.

(** C17: whatever sequence of calls a program makes, with files of its own opened in
    between, the launcher remembers no descriptor that it does not hold, and closes
    none that is not its own; provided pipes and processes can be made and a run is
    read to its end before it is terminated. *)
Theorem launcher_descriptors {P : Posix} w w' : owned w -> rtc step w w' ->
  owned w' /\ forall fd n, fds w !! fd = Some (Foreign n) -> fds w' !! fd = Some (Foreign n).
Proof.
  intros Hw H. revert Hw. induction H as [w|w1 w2 w3 H _ IH]; intros Hw; [by apply same_fds_owned|].
  destruct (step_kept _ _ H Hw) as [Ho Hf]. destruct (IH Ho) as [Ho' Hf'].
  split; [done|by eapply foreign_kept_trans].
Qed.

(** The launcher is set up and runs the program twice, with a file opened between
    the runs. *)
Lemma launcher_descriptors_witness :
  let P := benign in
  let w1 := snd (symsan_init (Some "target"%string) 1024 7 fresh_world) in
  let w2 := snd (symsan_set_input (Some "input"%string) w1) in
  let w3 := snd (symsan_set_args (Some [Some "target"%string]) w2) in
  let w4 := snd (symsan_run 0 w3) in
  let w5 := snd (symsan_read_event 40 5000 w4) in
  let w6 := snd (new_fd (Foreign 3) w5) in
  let w7 := snd (symsan_run 0 w6) in
  owned w7 /\ fds w7 !! 2 = Some (Foreign 2) /\ pipe_read (config w7) = 6 /\ fds w7 !! 5 = Some (Foreign 3).
Proof.
  intros P w1 w2 w3 w4 w5 w6 w7.
  destruct (@launcher_descriptors P fresh_world w7) as [Ho Hf].
  - split; by left.
  - eapply rtc_l; [apply s_init|]. eapply rtc_l; [apply s_input|]. eapply rtc_l; [apply s_args|].
    eapply rtc_l; [by apply s_run|]. eapply rtc_l; [apply s_read|]. eapply rtc_l; [apply s_open|].
    eapply rtc_l; [by apply s_run|]. apply rtc_refl.
  - split; [exact Ho|]. split; [by apply Hf|]. split; by vm_compute.
Defined.

(** [symsan_terminate] closes the pipe and remembers its descriptor, which the next
    run closes again, whatever file has it by then. *)
Lemma terminated_pipe_closed_twice :
  let P := benign in
  let prepared := snd ((symsan_init (Some "target"%string) 1024 7 ;;; symsan_set_input (Some "input"%string) ;;;
    symsan_set_args (Some [Some "target"%string]) ;;; symsan_run 0 ;;; symsan_terminate) fresh_world) in
  exists fd w1, new_fd (Foreign 3) prepared = (Ok fd, w1) /\ fds w1 !! fd = Some (Foreign 3) /\
    fst (symsan_run 0 w1) = Ok 0 /\ fds (snd (symsan_run 0 w1)) !! fd <> Some (Foreign 3).
Proof. intros P prepared. eexists _, _. split; [vm_compute; reflexivity|]. by vm_compute. Qed.
