(* ===== verification/Aflpp.v ===== *)
(** * The custom mutator for AFL++: [driver/aflpp/symsan.cpp]

    AFL++ asks [afl_custom_fuzz_count] how many mutations there are of a queue
    entry: the entry is traced and its branches become tasks. Each call of
    [afl_custom_fuzz] then gives the task at hand to one solver, and
    [afl_custom_queue_new_entry] says that the last mutation was worth keeping.
    Tasks are shared between the queue, the solvers and each other, so they live in
    a store and are named by the number the parser gave them. *)

From stdpp Require Import strings.
From S2P Require Import Prelude Dfsan Ast Task Parser Gd Jit I2S LProbe JitSolver Z3 Z3Solver Pipe Launcher.
Local Open Scope prog_scope.

Module aflpp.

Definition MAX_AST_SIZE : Z := 200.
Definition MIN_TIMEOUT : Z := 50.
Definition MAX_LOCAL_BRANCH_COUNTER : Z := 128.

Inductive mutation_state_t := MUTATION_INVALID | MUTATION_IN_VALIDATION | MUTATION_VALIDATED.

#[global] Instance mutation_state_eq_dec : EqDecision mutation_state_t.
Proof. solve_decision. Defined.

(** ** Solvers *)

(** What a call of a solver works on: the tasks, the output buffer and the size it
    reports, and what the solvers keep between calls. *)
Record solving (S : Type) := mk_solving {
  sv_tasks : gmap Z SearchTask;
  sv_buf : list Z;
  sv_size : Z;
  sv_state : S
}.
Arguments mk_solving {S} _ _ _ _.
Arguments sv_tasks {S} _.
Arguments sv_buf {S} _.
Arguments sv_size {S} _.
Arguments sv_state {S} _.

(** [Solver::solve], given the label table, the input and the task. *)
Definition Solver (S : Type) : Type :=
  gmap Z dfsan_label_info -> list Z -> Z -> M (solving S) solver_result_t.

(** The solvers of the repository: what [I2SSolver] counts, and the state of
    [JITSolver] with its buffer and tasks as they were last. *)
Record solver_state := mk_states { i2s_matches : Z; i2s_mismatches : Z; jit_solver : jit }.

Definition I2SSolver {L : Libm} : Solver solver_state := fun infos buf tid w =>
  match sv_tasks w !! tid with
  | None => (Err Undefined, w)
  | Some t =>
      let st := sv_state w in
      let '(r, s) := i2s_solve infos buf t (mk_i2s (i2s_matches st) (i2s_mismatches st) (sv_buf w) (sv_size w)) in
      (r, mk_solving (sv_tasks w) (out_buf s) (out_size s)
            (mk_states (matches s) (mismatches s) (jit_solver st)))
  end.

(** What the arrays of the search hold at a call, and the constraints' addresses. *)
Class SearchMemory := search_memory : Z -> jit -> list Z * (list Z * list Z * list Z * list Z * list Z * nat).

Definition JITSolver {U : Unspecified} {NC : NativeCode} {SM : SearchMemory} : Solver solver_state :=
  fun _ buf tid w =>
  let st := sv_state w in
  let j := jit_solver st in
  let s := set_jit_out (sv_buf w) (sv_size w)
    (mk_jit (fCache j) (uuid j) (cache_hits j) (cache_misses j) (num_solved j) (num_timeout j)
       (jit_modules j) (fns j) (sv_tasks w) (jit_buf j) (jit_size j)) in
  let '(addrs, (scratch0, dist, min_dist, plus_dist, minus_dist, seed)) := search_memory tid s in
  let '(r, s) := jit_solve buf tid addrs scratch0 dist min_dist plus_dist minus_dist seed s in
  (r, mk_solving (JitSolver.tasks s) (jit_buf s) (jit_size s)
        (mk_states (i2s_matches st) (i2s_mismatches st) s)).

Definition Z3Solver {L : z3.Library} : Solver solver_state := fun _ buf tid w =>
  let '(r, s) := Z3Solver.solve buf tid (Z3Solver.mk_solver (sv_tasks w) (sv_buf w) (sv_size w)) in
  (r, mk_solving (Z3Solver.tasks s) (Z3Solver.out_buf s) (Z3Solver.out_size s) (sv_state w)).

(** ** The mutator *)

(** What the mutator reads of [afl_state_t]. *)
Record afl_state := mk_afl {
  queue_id : Z;                 (* queue_cur->id *)
  queue_fname : Z;              (* queue_cur->fname, an address *)
  exec_tmout : Z;
  afl_argv : list string;
  tmp_dir : string;
  use_stdin : bool
}.

(** The filters of one input, and the statistics. *)
Record filters := mk_filters {
  local_counter : gmap Z Z;     (* uint8_t *)
  local_index_filter : gset Z
}.

Record statistics := mk_stats {
  total_branches : Z;
  branches_to_solve : Z;
  total_tasks : Z;
  solved_tasks : Z;
  solved_branches : Z
}.

(** Where the solving is. *)
Record stage := mk_stage {
  cur_task : option Z;
  cur_solver_index : Z;
  cur_mutation_state : mutation_state_t
}.

Record my_mutator_t (S : Type) := mk_mutator {
  sys : launcher.world;
  out_file : string;
  out_fd : Z;
  argv : option (list string);
  cur_queue_entry : Z;
  cur : stage;
  output_buf : list Z;
  fuzzed_inputs : gset Z;
  task_mgr : list (option Z);   (* None is a null pointer *)
  cov_mgr : EdgeCovManager;
  parser_ : parser;
  tasks : gmap Z SearchTask;    (* the tasks that have been handed out *)
  solver_data : S;
  filter_ : filters;
  stats : statistics;
  solved_files : list (list Z)
}.
Arguments mk_mutator {S}.
Arguments sys {S}. Arguments out_file {S}. Arguments out_fd {S}. Arguments argv {S}. Arguments cur_queue_entry {S}.
Arguments cur {S}. Arguments output_buf {S}. Arguments fuzzed_inputs {S}. Arguments task_mgr {S}.
Arguments cov_mgr {S}. Arguments parser_ {S}. Arguments tasks {S}. Arguments solver_data {S}.
Arguments filter_ {S}. Arguments stats {S}. Arguments solved_files {S}.

Section mutator.
Context {S : Type}.
Abbreviation mutator := (my_mutator_t S).

Definition set_sys x (s : mutator) := mk_mutator x (out_file s) (out_fd s) (argv s) (cur_queue_entry s) (cur s)
  (output_buf s) (fuzzed_inputs s) (task_mgr s) (cov_mgr s) (parser_ s) (tasks s) (solver_data s) (filter_ s)
  (stats s) (solved_files s).
Definition set_argv x (s : mutator) := mk_mutator (sys s) (out_file s) (out_fd s) x (cur_queue_entry s) (cur s)
  (output_buf s) (fuzzed_inputs s) (task_mgr s) (cov_mgr s) (parser_ s) (tasks s) (solver_data s) (filter_ s)
  (stats s) (solved_files s).
Definition set_entry e f (s : mutator) := mk_mutator (sys s) (out_file s) (out_fd s) (argv s) e (cur s)
  (output_buf s) f (task_mgr s) (cov_mgr s) (parser_ s) (tasks s) (solver_data s) (filter_ s)
  (stats s) (solved_files s).
Definition set_cur x (s : mutator) := mk_mutator (sys s) (out_file s) (out_fd s) (argv s) (cur_queue_entry s) x
  (output_buf s) (fuzzed_inputs s) (task_mgr s) (cov_mgr s) (parser_ s) (tasks s) (solver_data s) (filter_ s)
  (stats s) (solved_files s).
Definition set_queue q t (s : mutator) := mk_mutator (sys s) (out_file s) (out_fd s) (argv s) (cur_queue_entry s)
  (cur s) (output_buf s) (fuzzed_inputs s) q (cov_mgr s) (parser_ s) t (solver_data s) (filter_ s)
  (stats s) (solved_files s).
Definition set_cov x (s : mutator) := mk_mutator (sys s) (out_file s) (out_fd s) (argv s) (cur_queue_entry s)
  (cur s) (output_buf s) (fuzzed_inputs s) (task_mgr s) x (parser_ s) (tasks s) (solver_data s) (filter_ s)
  (stats s) (solved_files s).
Definition set_parser x (s : mutator) := mk_mutator (sys s) (out_file s) (out_fd s) (argv s) (cur_queue_entry s)
  (cur s) (output_buf s) (fuzzed_inputs s) (task_mgr s) (cov_mgr s) x (tasks s) (solver_data s) (filter_ s)
  (stats s) (solved_files s).
Definition set_solved b t d (s : mutator) : mutator := mk_mutator (sys s) (out_file s) (out_fd s) (argv s)
  (cur_queue_entry s) (cur s) b (fuzzed_inputs s) (task_mgr s) (cov_mgr s) (parser_ s) t d (filter_ s)
  (stats s) (solved_files s).
Definition set_filters x (s : mutator) := mk_mutator (sys s) (out_file s) (out_fd s) (argv s) (cur_queue_entry s)
  (cur s) (output_buf s) (fuzzed_inputs s) (task_mgr s) (cov_mgr s) (parser_ s) (tasks s) (solver_data s) x
  (stats s) (solved_files s).
Definition set_stats x f (s : mutator) := mk_mutator (sys s) (out_file s) (out_fd s) (argv s) (cur_queue_entry s)
  (cur s) (output_buf s) (fuzzed_inputs s) (task_mgr s) (cov_mgr s) (parser_ s) (tasks s) (solver_data s)
  (filter_ s) x f.

Definition count (branch to_solve ntasks solved solvedb : Z) : M mutator unit :=
  modify (fun s => let c := stats s in
    set_stats (mk_stats (u64 (total_branches c + branch)) (u64 (branches_to_solve c + to_solve))
      (u64 (total_tasks c + ntasks)) (u64 (solved_tasks c + solved)) (u64 (solved_branches c + solvedb)))
      (solved_files s) s).

Definition in_launcher {A} (m : M launcher.world A) : M mutator A := fun s =>
  let '(r, w) := m (sys s) in (r, set_sys w s).
Definition in_parser {A} (m : M parser A) : M mutator A := fun s =>
  let '(r, p) := m (parser_ s) in (r, set_parser p s).

(** [task->skip_next = true] *)
Definition skip_task (tid : Z) : M mutator unit :=
  modify (fun s => set_queue (task_mgr s) (alter Z3Solver.skip tid (tasks s)) s).

(** [get_next_task], into [cur_task]. *)
Definition take_task : M mutator (option Z) :=
  let! (t, q) := gets (fun s => get_next_task (task_mgr s)) in
  modify (fun s => set_queue q (tasks s) s) ;;;
  modify (fun s => set_cur (mk_stage (mjoin t) (cur_solver_index (cur s)) (cur_mutation_state (cur s))) s) ;;;
  ret (mjoin t).

Definition set_stage (i : Z) (st : mutation_state_t) : M mutator unit :=
  modify (fun s => set_cur (mk_stage (cur_task (cur s)) i st) s).
Definition set_state (st : mutation_state_t) : M mutator unit :=
  modify (fun s => set_cur (mk_stage (cur_task (cur s)) (cur_solver_index (cur s)) st) s).

Section driver.
Context {LLVM : InstructionDef} {P : launcher.Posix}.
Context (unordered : gset nat -> list nat) (solvers : list (Solver S)).
(** The settings that [afl_custom_init] reads from the environment, and the largest
    input of AFL++. *)
Context (TraceBounds SolveUB ForceStdin SaveSolved : bool) (MAX_FILE : Z).

(** ** Tracing *)

Definition reset_global_caches : M mutator unit := modify (set_filters (mk_filters ∅ ∅)).

(** The tasks of one message go to the queue. *)
Definition add_tasks (ids : list Z) : M mutator unit :=
  for_each ids (fun id =>
    let! task := in_parser (retrieve_task id) in
    modify (fun s =>
      match task with
      | Some t => set_queue (snd (add_task (Some id) (task_mgr s))) (<[id := t]> (tasks s)) s
      | None => set_queue (snd (add_task None (task_mgr s))) (tasks s) s
      end)).

Definition handle_cond (msg : pipe_msg) : M mutator unit :=
  if m_label msg =? 0 then ret tt
  else if m_label msg =? kInitializingLabel then ret tt
  else
    count 1 0 0 0 0 ;;;
    let! f := gets filter_ in
    let lc := default 0 (local_counter f !! m_id msg) in
    let counted x := modify (set_filters (mk_filters (<[m_id msg := x]> (local_counter f)) (local_index_filter f))) in
    if MAX_LOCAL_BRANCH_COUNTER <? lc then counted lc
    else
      counted (u8 (lc + 1)) ;;;
      let! (ctx, cov) := gets (fun s => add_branch (m_addr msg) (negb (m_result msg =? 0)) (cov_mgr s)) in
      modify (set_cov cov) ;;;
      let neg_ctx := mk_ctx (addr ctx) (negb (direction ctx)) in
      let! interesting := lift (is_branch_interesting neg_ctx cov) in
      if negb interesting then ret tt
      else
        let! (r, ids) := in_parser (parse_cond unordered (m_label msg) (direction ctx)
          (negb (Z.land (m_flags msg) F_ADD_CONS =? 0)) []) in
        if negb (r =? 0) then ret tt
        else add_tasks ids ;;; count 0 1 (Z.of_nat (length ids)) 0 0.

(** [parse_gep] adds no tasks. *)
Definition handle_gep (gmsg : gep_msg) (msg : pipe_msg) : M mutator unit :=
  if m_label msg =? 0 then ret tt
  else if m_label msg =? kInitializingLabel then ret tt
  else
    let! f := gets filter_ in
    if bool_decide (m_label msg ∈ local_index_filter f) then ret tt
    else
      modify (set_filters (mk_filters (local_counter f) ({[m_label msg]} ∪ local_index_filter f))) ;;;
      let! _ := in_parser (parse_gep unordered (g_ptr_label gmsg) (g_index_label gmsg) (g_num_elems gmsg) false) in
      ret tt.

Definition MAX_LABEL : Z := uniontable_size / sizeof_label_info.

Definition read_event (n : nat) (timeout : Z) : M mutator (option (list Z)) :=
  in_launcher (launcher.symsan_read_event n timeout).

(** One message. *)
Definition handle (msg : pipe_msg) : M mutator unit :=
  if m_type msg =? type_num cond_type then handle_cond msg
  else if m_type msg =? type_num gep_type then
    let! bs := read_event (size_of gep_msg) 0 in
    match bs with
    | Some bs =>
        if negb (length bs =? size_of gep_msg)%nat then ret tt
        else
          let gmsg := decode bs : gep_msg in
          if negb (m_label msg =? g_index_label gmsg) then ret tt else handle_gep gmsg msg
    | None => ret tt
    end
  else if m_type msg =? type_num memcmp_type then
    if (m_label msg =? 0) || (MAX_LABEL <=? m_label msg) then ret tt
    else
      let! info := gets (fun s => info_at (launcher.table (sys s)) (m_label msg)) in
      if negb (i_l1 info =? 0) && negb (i_l2 info =? 0) then ret tt
      else
        let n := u64 (4 + m_result msg) in
        let! bs := read_event (Z.to_nat n) 0 in
        match bs with
        | Some bs =>
            if negb (Z.of_nat (length bs) =? n) then ret tt
            else if negb (m_label msg =? Cstr.bytes_word (take 4 bs)) then ret tt
            else in_parser (record_memcmp (m_label msg) (drop 4 bs)) ;;; ret tt
        | None => ret tt
        end
  else ret tt.

(** The loop over the messages, which gives up on a program that sends many for a
    long time; every round takes the bytes of a message. *)
Fixpoint trace_loop (fuel : nat) (timeout start num_msgs : Z) : M mutator bool :=
  let! bs := read_event (size_of pipe_msg) timeout in
  if bool_decide (length <$> bs = Some (size_of pipe_msg)) then
    match fuel with
    | O => throw NoFuel
    | Datatypes.S fuel' =>
        handle (decode (default [] bs)) ;;;
        let num_msgs := u32 (num_msgs + 1) in
        let! late :=
          (if negb (Z.land num_msgs 0xffffe000 =? 0)
           then let! t := in_launcher (launcher.syscall launcher.now) in ret (timeout <? (t - start) * 10)
           else ret false) in
        if late : bool then ret true else trace_loop fuel' timeout start num_msgs
    end
  else ret false.

(** [lseek], [ck_write] and [ftruncate] of the input file. *)
Definition write_input (buf : list Z) : M mutator bool :=
  let! name := gets out_file in
  let put (f : list Z -> list Z) := in_launcher (modify (fun w =>
    launcher.set_files (<[name := f (default [] (launcher.files w !! name))]> (launcher.files w)) w)) in
  put (fun old => buf ++ drop (length buf) old) ;;;
  let! b := in_launcher (launcher.syscall launcher.ok) in
  if b : bool then put (take (length buf)) ;;; ret true else ret false.

(** [strstr(text, part) != NULL] *)
Definition occurs (part text : string) : bool := bool_decide (is_Some (String.index 0 part text)).

(** The arguments of the program, set up before the first run. *)
Definition setup_argv (afl : afl_state) : M mutator unit :=
  let! a := gets argv in
  match a with
  | Some _ => ret tt
  | None =>
      let! name := gets out_file in
      let args := (fun x => if occurs (tmp_dir afl) x then name else x) <$> afl_argv afl in
      modify (set_argv (Some args)) ;;;
      in_launcher (
        launcher.symsan_set_input (Some (if use_stdin afl then "stdin"%string else name)) ;;;
        launcher.symsan_set_args (Some (Some <$> args)) ;;;
        launcher.symsan_set_debug false ;;;
        launcher.symsan_set_bounds_check TraceBounds ;;;
        launcher.symsan_set_solve_ub SolveUB ;;;
        launcher.symsan_set_force_stdin ForceStdin) ;;;
      ret tt
  end.

(** The parser reads the label table in shared memory. *)
Definition share_table : M mutator unit :=
  modify (fun s => let p := parser_ s in
    set_parser (mk_parser (launcher.table (sys s)) (size_ p) (prev_task_id_ p) (tasks_ p) (memcmp_cache_ p)
      (solve_nested_ p) (max_ast_size_ p) (inputs_cache p) (root_expr_cache p) (constraint_cache p)
      (ast_size_cache p) (nested_cmp_cache p) (concretize_node p) (input_size_ p) (branch_to_inputs p)
      (data_flow_deps p) (input_to_branches p)) s).

Definition afl_custom_fuzz_count (afl : afl_state) (buf : list Z) : M mutator Z :=
  let timeout := Z.min MIN_TIMEOUT (exec_tmout afl) in
  let! seen := gets fuzzed_inputs in
  if bool_decide (queue_id afl ∈ seen) then ret 0
  else
    modify (set_entry (queue_fname afl) ({[queue_id afl]} ∪ seen)) ;;;
    let! written := write_input buf in
    if negb written then ret 0
    else
      setup_argv afl ;;;
      let! fd := gets out_fd in
      let! r := in_launcher (launcher.symsan_run fd) in
      if negb (r =? 0) then ret 0
      else
        share_table ;;;
        let! start := in_launcher (launcher.syscall launcher.now) in
        in_parser (restart [buf]) ;;;
        reset_global_caches ;;;
        let! n := gets (fun s => length (launcher.events (sys s))) in
        let! timedout := trace_loop n timeout start 0 in
        (if timedout : bool then in_launcher launcher.symsan_terminate ;;; ret tt else ret tt) ;;;
        modify (fun s => set_cur (mk_stage None (cur_solver_index (cur s)) (cur_mutation_state (cur s))) s) ;;;
        let! q := gets task_mgr in
        ret (u32 (Z.of_nat (get_num_tasks q) * Z.of_nat (length solvers))).

(** ** Solving *)

(** What [out_buf] points to. *)
Inductive out := InputBuf | OutputBuf | NullBuf.

(** One solver on the task at hand. *)
Definition attempt (buf : list Z) : M mutator (out * Z) :=
  let! c := gets cur in
  let! tid := lift (idx (cur_task c)) in
  let! solver := lift (idx (solvers !! Z.to_nat (cur_solver_index c))) in
  let! s := gets id in
  let '(r, w) := solver (launcher.table (sys s)) buf tid
    (mk_solving (tasks s) (output_buf s) 0 (solver_data s)) in
  modify (set_solved (sv_buf w) (sv_tasks w) (sv_state w)) ;;;
  let! r := lift r in
  match r with
  | SOLVER_SAT =>
      set_state MUTATION_IN_VALIDATION ;;;
      (if SaveSolved
       then modify (fun s => set_stats (stats s) (solved_files s ++ [take (Z.to_nat (sv_size w)) (output_buf s)]) s)
       else ret tt) ;;;
      count 0 0 0 1 0 ;;;
      ret (OutputBuf, sv_size w)
  | SOLVER_TIMEOUT => set_state MUTATION_IN_VALIDATION ;;; ret (InputBuf, sv_size w)
  | SOLVER_UNSAT =>
      skip_task tid ;;;
      modify (fun s => set_cur (mk_stage None (cur_solver_index (cur s)) (cur_mutation_state (cur s))) s) ;;;
      ret (InputBuf, sv_size w)
  | SOLVER_ERROR => ret (NullBuf, 0)
  end.

(** "try to get a task if we don't already have one", and "check the previous
    mutation state"; [false] when there are no more tasks. *)
Definition first_task : M mutator bool :=
  let! c := gets cur in
  if bool_decide (cur_task c = None) || bool_decide (cur_mutation_state c = MUTATION_VALIDATED) then
    let! t := take_task in
    match t with
    | None => set_state MUTATION_INVALID ;;; ret false
    | Some _ => set_stage 0 MUTATION_INVALID ;;; ret true
    end
  else ret true.

Definition next_solver : M mutator bool :=
  let! c := gets cur in
  if bool_decide (cur_mutation_state c = MUTATION_IN_VALIDATION) then
    let i := u64 (cur_solver_index c + 1) in
    set_stage i (cur_mutation_state c) ;;;
    if Z.of_nat (length solvers) <=? i then
      let! t := take_task in
      match t with
      | None => set_state MUTATION_INVALID ;;; ret false
      | Some _ => set_stage 0 (cur_mutation_state c) ;;; ret true
      end
    else ret true
  else ret true.

Definition afl_custom_fuzz (buf : list Z) : M mutator (out * Z) :=
  if MAX_FILE <? Z.of_nat (length buf) then ret (InputBuf, 0)
  else
    let! more := first_task in
    if negb more then ret (InputBuf, 0)
    else
      let! more := next_solver in
      if negb more then ret (InputBuf, 0) else attempt buf.

(** The names are compared as pointers. *)
Definition afl_custom_queue_new_entry (filename_orig_queue : Z) : M mutator Z :=
  let! s := gets id in
  (if (cur_queue_entry s =? filename_orig_queue) &&
      bool_decide (cur_mutation_state (cur s) = MUTATION_IN_VALIDATION) then
     set_state MUTATION_VALIDATED ;;;
     match cur_task (cur s) with
     | Some tid => skip_task tid ;;; count 0 0 0 0 1
     | None => ret tt
     end
   else ret tt) ;;;
  ret 0.

End driver.

(** ** Setting up *)

Record settings := mk_settings {
  NestedSolving : bool; set_bounds : bool; set_ub : bool; set_stdin : bool; save_solved : bool
}.

(** Solving undefined behaviour needs the bounds. *)
Definition read_settings (getenv : string -> option string) : settings :=
  let is_set x := bool_decide (is_Some (getenv x)) in
  mk_settings (is_set "SYMSAN_USE_NESTED"%string)
    (is_set "SYMSAN_TRACE_BOUNDS"%string || is_set "SYMSAN_SOLVE_UB"%string)
    (is_set "SYMSAN_SOLVE_UB"%string) (is_set "SYMSAN_FORCE_STDIN"%string) (is_set "SYMSAN_SAVE_SOLVED"%string).

(** The input file: in the output directory, as an absolute path. *)
Definition input_path (out_dir cwd : string) (extension : option string) : string :=
  let name := match extension with
    | Some e => (out_dir +:+ "/.cur_input." +:+ e)%string
    | None => (out_dir +:+ "/.cur_input")%string
    end in
  if String.prefix "/" out_dir then name else (cwd +:+ "/" +:+ name)%string.

(** [afl_custom_init], with what the solvers hold at first in [data]; [FATAL] ends
    the process. *)
Definition afl_custom_init {P : launcher.Posix} (getenv : string -> option string) (afl_out_dir cwd : string)
    (extension : option string) (pid MAX_FILE : Z) (data : S) : M launcher.world (settings * mutator) :=
  let set := read_settings getenv in
  match getenv "SYMSAN_TARGET"%string with
  | None => throw Died
  | Some bin =>
      let out_dir := default (afl_out_dir +:+ "/symsan")%string (getenv "SYMSAN_OUTPUT_DIR"%string) in
      let! exists_ := launcher.syscall launcher.ok in
      let! made := (if exists_ : bool then ret true else launcher.syscall launcher.ok) in
      if negb made then throw Died
      else
        let name := input_path out_dir cwd extension in
        let! fd := launcher.open (launcher.Foreign 0) in
        if fd <? 0 then throw Died
        else
          modify (fun w => launcher.set_files (<[name := []]> (launcher.files w)) w) ;;;
          let! base := launcher.symsan_init (Some bin) uniontable_size pid in
          if base =? -1 then throw Died
          else
            let! w := gets id in
            ret (set, mk_mutator w name fd None 0 (mk_stage None (2 ^ 64 - 1) MUTATION_INVALID)
              (replicate (Z.to_nat (MAX_FILE + 1)) 0) ∅ [] (mk_cov ∅ (mk_ctx 0 false))
              (new_parser (launcher.table w) uniontable_size (NestedSolving set) MAX_AST_SIZE) ∅ data
              (mk_filters ∅ ∅) (mk_stats 0 0 0 0 0) [])
  end.

Definition afl_custom_deinit {P : launcher.Posix} : M mutator unit := in_launcher launcher.symsan_destroy.

End mutator.

(** The solvers, the simple one always and first. *)
Definition choose_solvers {L : Libm} {U : Unspecified} {NC : NativeCode} {SM : SearchMemory} {Lib : z3.Library}
    (getenv : string -> option string) : list (Solver solver_state) :=
  [I2SSolver] ++ (if bool_decide (is_Some (getenv "SYMSAN_USE_JIGSAW"%string)) then [JITSolver] else [])
  ++ (if bool_decide (is_Some (getenv "SYMSAN_USE_Z3"%string)) then [Z3Solver] else []).

End aflpp.
