(* ===== verification/AflppSpec.v ===== *)
(** * The schedule of the mutator

    Every task of the queue is given to the solvers one after the other, one call
    of [afl_custom_fuzz] each, until one of them proves it unsolvable or AFL++
    reports that a mutation was worth keeping. *)

From stdpp Require Import strings.
From S2P Require Import Prelude Dfsan Ast Task Parser Gd Jit I2S LProbe JitSolver Z3 Z3Solver Pipe Launcher LauncherSpec Aflpp.
Import aflpp.
Local Open Scope prog_scope.

Section schedule.
Context {S : Type} (solvers : list (Solver S)) (SaveSolved : bool) (MAX_FILE : Z) (buf : list Z).
Abbreviation mutator := (my_mutator_t S).
Abbreviation K := (length solvers).

(** ** The calls that are due *)

Definition stages (t : Z) (i : nat) : list (Z * nat) := pair t <$> seq i (K - i).
Definition agenda_of (q : list Z) : list (Z * nat) := q ≫= fun t => stages t 0.

Definition agenda (c : stage) (q : list Z) : list (Z * nat) :=
  match cur_task c with
  | None => agenda_of q
  | Some t =>
      match cur_mutation_state c with
      | MUTATION_VALIDATED => agenda_of q
      | MUTATION_IN_VALIDATION => stages t (Datatypes.S (Z.to_nat (cur_solver_index c))) ++ agenda_of q
      | MUTATION_INVALID => stages t (Z.to_nat (cur_solver_index c)) ++ agenda_of q
      end
  end.

(** The state between calls, with the tasks [q] in the queue. *)
Record ready (q : list Z) (s : mutator) : Prop := {
  rd_queue : task_mgr s = Some <$> q;
  rd_tasks : Forall (fun t => is_Some (tasks s !! t)) q;
  rd_cur : forall t, cur_task (cur s) = Some t -> is_Some (tasks s !! t) /\
    0 <= cur_solver_index (cur s) < Z.of_nat K /\
    (cur_mutation_state (cur s) = MUTATION_INVALID -> cur_solver_index (cur s) = 0)
}.

Lemma length_agenda_of q : length (agenda_of q) = (length q * K)%nat.
Proof.
  unfold agenda_of. induction q as [|t q IH]; [done|]. cbn. rewrite length_app, IH. unfold stages.
  rewrite length_fmap, length_seq. lia.
Qed.

Context (HK : (0 < K)%nat) (HK64 : Z.of_nat K < 2 ^ 64).

Lemma stages_cons t i : (i < K)%nat -> stages t i = (t, i) :: stages t (Datatypes.S i).
Proof.
  intros Hi. unfold stages. replace (K - i)%nat with (Datatypes.S (K - Datatypes.S i)) by lia. done.
Qed.

Lemma stages_nil t i : (K <= i)%nat -> stages t i = [].
Proof. intros Hi. unfold stages. by replace (K - i)%nat with 0%nat by lia. Qed.

Lemma agenda_of_cons t q : agenda_of (t :: q) = (t, 0%nat) :: stages t 1 ++ agenda_of q.
Proof. unfold agenda_of. cbn. by rewrite stages_cons. Qed.

(** [take_task] on a queue without null pointers. *)
Lemma take_task_eq q (s : mutator) : task_mgr s = Some <$> q ->
  take_task s = (Ok (head q), set_cur (mk_stage (head q) (cur_solver_index (cur s)) (cur_mutation_state (cur s)))
    (set_queue (Some <$> tail q) (tasks s) s)).
Proof. intros E. unfold take_task, bind, gets, modify. rewrite E. by destruct q. Qed.

(** What the choice of task and solver leads to. *)
Definition chosen (s : mutator) (t : Z) (i : nat) (rest : list (Z * nat)) (s' : mutator) : Prop :=
  exists q' st, s' = set_cur (mk_stage (Some t) (Z.of_nat i) st) (set_queue (Some <$> q') (tasks s) s) /\
    (i < K)%nat /\ st <> MUTATION_VALIDATED /\ (st = MUTATION_INVALID -> i = 0%nat) /\
    is_Some (tasks s !! t) /\ Forall (fun t => is_Some (tasks s !! t)) q' /\ rest = stages t (Datatypes.S i) ++ agenda_of q'.

Definition select : M mutator bool :=
  let! more := first_task in if negb more then ret false else next_solver solvers.

Lemma fuzz_select : Z.of_nat (length buf) <= MAX_FILE -> forall s,
  afl_custom_fuzz solvers SaveSolved MAX_FILE buf s =
  (let! more := select in if negb more then ret (InputBuf, 0) else attempt solvers SaveSolved buf) s.
Proof.
  intros Hb s. unfold afl_custom_fuzz, select. rewrite (proj2 (Z.ltb_ge _ _)) by lia. unfold bind.
  destruct (first_task s) as [[[|]|e] s1]; done.
Qed.

(** A state in which a task has just been taken off the queue. *)
Lemma select_take q st (s : mutator) :
  task_mgr s = Some <$> q -> Forall (fun t => is_Some (tasks s !! t)) q -> st <> MUTATION_VALIDATED ->
  (let! t := take_task in
   match t with
   | None => set_state MUTATION_INVALID ;;; ret false
   | Some _ => set_stage 0 st ;;; ret true
   end) s =
  match q with
  | [] => (Ok false, set_cur (mk_stage None (cur_solver_index (cur s)) MUTATION_INVALID) (set_queue [] (tasks s) s))
  | t :: q' => (Ok true, set_cur (mk_stage (Some t) 0 st) (set_queue (Some <$> q') (tasks s) s))
  end.
Proof. intros Hq Ht Hst. rewrite (bind_eq _ _ _ _ _ (take_task_eq q s Hq)). by destruct q. Qed.

(** [select] from the three kinds of states. *)
Lemma select_fresh q (s : mutator) : ready q s ->
  cur_task (cur s) = None \/ cur_mutation_state (cur s) = MUTATION_VALIDATED ->
  select s = match q with
    | [] => (Ok false, set_cur (mk_stage None (cur_solver_index (cur s)) MUTATION_INVALID) (set_queue [] (tasks s) s))
    | t :: q' => (Ok true, set_cur (mk_stage (Some t) 0 MUTATION_INVALID) (set_queue (Some <$> q') (tasks s) s))
    end.
Proof.
  intros [Hq Ht _] Hc. unfold select, first_task.
  assert (Hb : bool_decide (cur_task (cur s) = None) || bool_decide (cur_mutation_state (cur s) = MUTATION_VALIDATED) = true)
    by (apply orb_true_iff; rewrite !bool_decide_eq_true; done).
  unfold bind at 1, bind at 1, gets at 1. rewrite Hb.
  rewrite (select_take q MUTATION_INVALID s Hq Ht) by done. by destruct q.
Qed.

Lemma select_next q (s : mutator) t : ready q s -> cur_task (cur s) = Some t ->
  cur_mutation_state (cur s) = MUTATION_IN_VALIDATION ->
  let i := Datatypes.S (Z.to_nat (cur_solver_index (cur s))) in
  select s =
    if (K <=? i)%nat then
      match q with
      | [] => (Ok false, set_cur (mk_stage None (Z.of_nat i) MUTATION_INVALID) (set_queue [] (tasks s) s))
      | t :: q' => (Ok true, set_cur (mk_stage (Some t) 0 MUTATION_IN_VALIDATION) (set_queue (Some <$> q') (tasks s) s))
      end
    else (Ok true, set_cur (mk_stage (Some t) (Z.of_nat i) MUTATION_IN_VALIDATION) s).
Proof.
  intros [Hq Ht Hc] Et Est i. destruct (Hc t Et) as (_ & Hi & _). unfold select, first_task.
  unfold bind at 1, bind at 1, gets at 1. rewrite Et, Est. cbn [bool_decide decide_rel orb].
  rewrite !bool_decide_false by done. cbn [orb negb ret].
  unfold next_solver. unfold bind at 1, gets at 1. rewrite Est, bool_decide_true by done.
  assert (Hu : u64 (cur_solver_index (cur s) + 1) = Z.of_nat i).
  { rewrite wrap_small; [unfold i; lia|]. unfold is_u. lia. }
  unfold bind at 1, set_stage at 1, modify. rewrite Hu, Et.
  destruct (Nat.leb_spec K i); [rewrite (proj2 (Z.leb_le _ _)) by lia|rewrite (proj2 (Z.leb_gt _ _)) by lia].
  - rewrite (select_take q MUTATION_IN_VALIDATION) by done. by destruct q.
  - done.
Qed.

Lemma select_again q (s : mutator) t : ready q s -> cur_task (cur s) = Some t ->
  cur_mutation_state (cur s) = MUTATION_INVALID -> select s = (Ok true, s).
Proof.
  intros _ Et Est. unfold select, first_task. unfold bind at 1, bind at 1, gets at 1.
  rewrite !bool_decide_false by congruence. cbn. unfold bind, gets. by rewrite bool_decide_false by congruence.
Qed.

Lemma set_cur_self q c (s : mutator) : task_mgr s = q -> set_cur c s = set_cur c (set_queue q (tasks s) s).
Proof. by intros <-. Qed.

Lemma select_spec q (s : mutator) : ready q s ->
  match agenda (cur s) q with
  | [] => exists i, select s = (Ok false, set_cur (mk_stage None i MUTATION_INVALID) (set_queue [] (tasks s) s))
  | (t, i) :: rest => exists s', select s = (Ok true, s') /\ chosen s t i rest s'
  end.
Proof.
  intros Hr. pose proof Hr as [Hq Ht Hc]. unfold agenda.
  assert (Htake : forall st, st <> MUTATION_VALIDATED -> match q with
    | [] => True
    | t :: q' => chosen s t 0 (stages t 1 ++ agenda_of q')
        (set_cur (mk_stage (Some t) 0 st) (set_queue (Some <$> q') (tasks s) s))
    end).
  { intros st Hst. destruct q as [|t q']; [done|]. apply Forall_cons in Ht as [Ht Hts].
    exists q', st. split_and!; try done; lia. }
  assert (Hfresh : cur_task (cur s) = None \/ cur_mutation_state (cur s) = MUTATION_VALIDATED ->
    match agenda_of q with
    | [] => exists i, select s = (Ok false, set_cur (mk_stage None i MUTATION_INVALID) (set_queue [] (tasks s) s))
    | (t, i) :: rest => exists s', select s = (Ok true, s') /\ chosen s t i rest s'
    end).
  { intros Hf. rewrite (select_fresh q s Hr Hf). destruct q as [|t' q']; [by eexists|].
    rewrite agenda_of_cons. eexists. split; [done|]. by apply (Htake MUTATION_INVALID). }
  destruct (cur_task (cur s)) as [t|] eqn:Et, (cur_mutation_state (cur s)) eqn:Est.
  - destruct (Hc t eq_refl) as (Hs & Hi & H0). rewrite H0 by done. cbn [Z.to_nat]. rewrite stages_cons by done. cbn [app].
    exists s. split; [by eapply select_again|]. exists q, MUTATION_INVALID. split_and!; try done.
    rewrite <- Hq. destruct s as [? ? ? ? ? [c1 c2 c3]]. cbn in *. by rewrite Et, Est, H0.
  - pose proof (select_next q s t Hr Et Est) as E. cbn zeta in E. destruct (Hc t eq_refl) as (Hs & Hi & _).
    set (i := Datatypes.S (Z.to_nat (cur_solver_index (cur s)))) in *.
    destruct (Nat.leb_spec K i).
    + rewrite stages_nil by done. cbn [app]. destruct q as [|t' q']; [eexists; exact E|].
      rewrite agenda_of_cons. eexists. split; [exact E|]. by apply (Htake MUTATION_IN_VALIDATION).
    + rewrite stages_cons by done. cbn [app]. eexists. split; [exact E|].
      exists q, MUTATION_IN_VALIDATION. split_and!; try done. by apply set_cur_self.
  - apply Hfresh. auto.
  - apply Hfresh. auto.
  - apply Hfresh. auto.
  - apply Hfresh. auto.
Qed.

(** ** Solvers that return *)

(** What the theorem needs of the solvers: on a task of the store they return, the
    first one without an error; the store keeps its tasks; and [log] is a record of
    the calls. *)
Context (Inv : gmap Z SearchTask -> list Z -> S -> Prop) (log : S -> list (Z * nat * solver_result_t)).

Record lawful : Prop := {
  lawful_solve infos i f T b x t : solvers !! i = Some f -> Inv T b x -> is_Some (T !! t) ->
    exists r w, f infos buf t (mk_solving T b 0 x) = (Ok r, w) /\ (i = 0%nat -> r <> SOLVER_ERROR) /\
      Inv (sv_tasks w) (sv_buf w) (sv_state w) /\ (forall t, is_Some (T !! t) -> is_Some (sv_tasks w !! t)) /\
      log (sv_state w) = log x ++ [(t, i, r)];
  lawful_skip T b x t : Inv T b x -> Inv (alter Z3Solver.skip t T) b x
}.

Definition good (q : list Z) (s : mutator) : Prop :=
  ready q s /\ Inv (tasks s) (output_buf s) (solver_data s).

Lemma is_Some_alter (T : gmap Z SearchTask) f t t' : is_Some (T !! t') -> is_Some (alter f t T !! t').
Proof.
  intros [x Hx]. destruct (decide (t = t')) as [->|]; [rewrite lookup_alter_eq, Hx|rewrite lookup_alter_ne, Hx by done]; eauto.
Qed.

Context (Hlaw : lawful).

Lemma attempt_spec (s s1 : mutator) t i rest : chosen s t i rest s1 ->
  Inv (tasks s) (output_buf s) (solver_data s) ->
  exists r (w : solving S) o s' q', attempt solvers SaveSolved buf s1 = (Ok o, s') /\
    (i = 0%nat -> r <> SOLVER_ERROR) /\ log (solver_data s') = log (solver_data s) ++ [(t, i, r)] /\
    (r = SOLVER_SAT -> o = (OutputBuf, sv_size w) /\ output_buf s' = sv_buf w) /\
    good q' s' /\ rest = stages t (Datatypes.S i) ++ agenda_of q' /\
    agenda (cur s') q' = (if bool_decide (r = SOLVER_UNSAT) then agenda_of q' else rest).
Proof.
  intros (q' & st & -> & Hi & Hst & Hst0 & Ht & Hq' & ->) HInv.
  destruct (lookup_lt_is_Some_2 solvers i Hi) as [f Hf].
  destruct (lawful_solve Hlaw (launcher.table (sys s)) i f _ _ _ t Hf HInv Ht) as (r & w & E & H0 & HI & Hdom & Hlog).
  exists r, w. unfold attempt. set (s1 := set_cur _ _).
  rewrite (bind_eq (gets cur) _ s1 (cur s1) s1) by done. rewrite (bind_eq _ _ s1 t s1) by done.
  assert (Ef : lift (idx (solvers !! Z.to_nat (cur_solver_index (cur s1)))) s1 = (Ok f, s1)).
  { unfold lift, idx. cbn [s1 cur set_cur cur_solver_index]. rewrite Nat2Z.id. by rewrite Hf. }
  rewrite (bind_eq _ _ _ _ _ Ef). clear Ef.
  unfold bind, gets, lift, modify. cbn [s1 id sys set_cur set_queue tasks output_buf solver_data]. rewrite E.
  assert (Hq : Forall (fun t => is_Some (sv_tasks w !! t)) q') by (eapply Forall_impl; [exact Hq'|]; auto).
  pose proof (Hdom t Ht) as Ht'.
  assert (Hz : Z.to_nat (Z.of_nat i) = i) by lia.
  destruct r; cbn [set_state skip_task modify count].
  - eexists _, _, q'. split; [reflexivity|]. split_and!; try done.
    + split; [|done]. split; [done|done|]. cbn. intros ? [= <-]. split_and!; try done; [lia|lia|]. intros. by rewrite Hst0.
    + unfold agenda. cbn. destruct st; [by destruct (H0 (Hst0 eq_refl))|by rewrite Hz|done].
  - destruct SaveSolved; (eexists _, _, q'; split; [reflexivity|]; split_and!; try done);
      try (split; [split; [done|done|]|done]; cbn; intros ? [= <-]; split_and!; try done; lia);
      unfold agenda; cbn; by rewrite Hz.
  - eexists _, _, q'. split; [reflexivity|]. split_and!; try done.
    split; [|by apply (lawful_skip Hlaw)]. split; [done| |done]. cbn.
    eapply Forall_impl; [exact Hq|]. intros. by apply is_Some_alter.
  - eexists _, _, q'. split; [reflexivity|]. split_and!; try done.
    + split; [|done]. split; [done|done|]. cbn. intros ? [= <-]. split_and!; try done; lia.
    + unfold agenda. cbn. by rewrite Hz.
Qed.

Lemma report_spec e q (s : mutator) : good q s ->
  exists s', afl_custom_queue_new_entry e s = (Ok 0, s') /\ good q s' /\ solver_data s' = solver_data s /\
    (agenda (cur s') q = agenda (cur s) q \/ agenda (cur s') q = agenda_of q).
Proof.
  intros [[Hq Ht Hc] HI]. unfold afl_custom_queue_new_entry, bind, gets. cbn [id].
  destruct ((cur_queue_entry s =? e) && _) eqn:Eb; [|by eexists; split_and!; auto].
  apply andb_true_iff in Eb as [_ Eb%bool_decide_eq_true_1].
  destruct (cur_task (cur s)) as [t|] eqn:Et.
  - eexists. split; [reflexivity|]. cbn. split; [split; [split|]|].
    + done.
    + eapply Forall_impl; [exact Ht|]. intros. by apply is_Some_alter.
    + cbn. intros t' Ht'. rewrite Et in Ht'. destruct (Hc t') as (H1 & H2 & _); [congruence|].
      split; [by apply is_Some_alter|done].
    + by apply (lawful_skip Hlaw).
    + split; [done|]. right. unfold agenda. cbn. by rewrite Et.
  - eexists. split; [reflexivity|]. cbn. split; [split; [split|done]|].
    + done.
    + done.
    + cbn. by rewrite Et.
    + split; [done|]. right. unfold agenda. cbn. by rewrite Et.
Qed.

(** AFL++ calls [afl_custom_fuzz], and may report a new entry of the queue. *)
Definition round (report : option Z) : M mutator unit :=
  let! _ := afl_custom_fuzz solvers SaveSolved MAX_FILE buf in
  match report with
  | Some e => let! _ := afl_custom_queue_new_entry e in ret tt
  | None => ret tt
  end.

Context (Hbuf : Z.of_nat (length buf) <= MAX_FILE).

Lemma fuzz_exhausted q (s : mutator) : ready q s -> agenda (cur s) q = [] ->
  exists i, afl_custom_fuzz solvers SaveSolved MAX_FILE buf s =
    (Ok (InputBuf, 0), set_cur (mk_stage None i MUTATION_INVALID) (set_queue [] (tasks s) s)).
Proof.
  intros Hr Ha. pose proof (select_spec q s Hr) as Hs. rewrite Ha in Hs. destruct Hs as [i Hs].
  exists i. rewrite fuzz_select by done. by rewrite (bind_eq _ _ _ _ _ Hs).
Qed.

Lemma round_after rep q (s s1 : mutator) o : afl_custom_fuzz solvers SaveSolved MAX_FILE buf s = (Ok o, s1) -> good q s1 ->
  exists s', round rep s = (Ok tt, s') /\ good q s' /\ solver_data s' = solver_data s1 /\
    (agenda (cur s') q = agenda (cur s1) q \/ rep <> None /\ agenda (cur s') q = agenda_of q).
Proof.
  intros E Hg. unfold round. rewrite (bind_eq _ _ _ _ _ E). destruct rep as [e|]; [|by exists s1; auto].
  destruct (report_spec e q s1 Hg) as (s' & E' & Hg' & Hd & Ha). rewrite (bind_eq _ _ _ _ _ E').
  exists s'. split_and!; try done. destruct Ha; [by left|by right].
Qed.

Lemma round_spec rep q (s : mutator) : good q s ->
  match agenda (cur s) q with
  | [] => exists s', round rep s = (Ok tt, s') /\ good [] s' /\ agenda (cur s') [] = [] /\ solver_data s' = solver_data s
  | (t, i) :: rest => exists r s' q', round rep s = (Ok tt, s') /\ good q' s' /\
      rest = stages t (Datatypes.S i) ++ agenda_of q' /\ log (solver_data s') = log (solver_data s) ++ [(t, i, r)] /\
      (agenda (cur s') q' = rest \/ agenda (cur s') q' = agenda_of q' /\ (r = SOLVER_UNSAT \/ rep <> None))
  end.
Proof.
  intros [Hr HI]. pose proof (select_spec q s Hr) as Hs.
  destruct (agenda (cur s) q) as [|[t i] rest] eqn:Ea.
  - destruct (fuzz_exhausted q s Hr Ea) as [k E].
    destruct (round_after rep [] s _ _ E) as (s' & E' & Hg & Hd & Ha); [by split|].
    exists s'. split_and!; try done. by destruct Ha as [Ha|[_ Ha]].
  - destruct Hs as (s1 & E1 & Hch). destruct (attempt_spec s s1 t i rest Hch HI)
      as (r & w & o & s2 & q' & E2 & _ & Hlog & _ & Hg & Hrest & Ha).
    assert (E : afl_custom_fuzz solvers SaveSolved MAX_FILE buf s = (Ok o, s2))
      by (rewrite fuzz_select by done; by rewrite (bind_eq _ _ _ _ _ E1)).
    destruct (round_after rep q' s s2 o E Hg) as (s' & E' & Hg' & Hd & Ha').
    exists r, s', q'. rewrite Hd. split_and!; try done.
    case_bool_decide; destruct Ha' as [Ha'|[Hrep Ha']]; rewrite ?Ha', ?Ha; auto.
Qed.

Lemma elem_of_stages t i t' i' : (t', i') ∈ stages t i <-> t' = t /\ (i <= i' < K)%nat.
Proof.
  unfold stages. rewrite list_elem_of_fmap. split.
  - intros (j & [= -> ->] & Hj%elem_of_seq). lia.
  - intros [-> Hi]. exists i'. split; [done|]. apply elem_of_seq. lia.
Qed.

(** The calls made in some rounds: those that were due, without the later solvers of
    a task that is unsolvable or for which an entry was reported. *)
Definition accounts (reports : list (option Z)) (due : list (Z * nat)) (made : list (Z * nat * solver_result_t)) : Prop :=
  made.*1 `sublist_of` due /\
  forall t i, (t, i) ∈ due -> (t, i) ∈ made.*1 \/
    exists j r, (j < i)%nat /\ (t, j, r) ∈ made /\ (r = SOLVER_UNSAT \/ exists e, Some e ∈ reports).

Lemma accounts_step rep reports t i r q made rest due' :
  rest = stages t (Datatypes.S i) ++ agenda_of q ->
  due' = rest \/ due' = agenda_of q /\ (r = SOLVER_UNSAT \/ rep <> None) ->
  accounts reports due' made -> accounts (rep :: reports) ((t, i) :: rest) ((t, i, r) :: made).
Proof.
  intros -> Hdue [Hsub Hall]. split.
  - cbn. apply sublist_skip. etrans; [exact Hsub|]. destruct Hdue as [->|[-> _]]; [done|]. by apply sublist_inserts_l.
  - intros t' i' Hin. cbn. apply elem_of_cons in Hin as [[= -> ->]|Hin]; [left; left|].
    assert (Hmono : (t', i') ∈ due' -> (t', i') ∈ (t, i) :: made.*1 \/ exists j r0, (j < i')%nat /\
      (t', j, r0) ∈ (t, i, r) :: made /\ (r0 = SOLVER_UNSAT \/ exists e, Some e ∈ rep :: reports)).
    { intros H. destruct (Hall t' i' H) as [Hm|(j & r0 & Hj & Hm & Hw)]; [left; by right|right].
      exists j, r0. split_and!; [done|by right|]. destruct Hw as [|[e He]]; [by left|right; exists e; by right]. }
    destruct Hdue as [->|[-> Hwhy]]; [by apply Hmono|].
    apply elem_of_app in Hin as [[-> Hi]%elem_of_stages|Hin]; [|by apply Hmono].
    right. exists i, r. split_and!; [lia|left|]. destruct Hwhy as [|Hrep]; [by left|right].
    destruct rep as [e|]; [|done]. exists e. left.
Qed.

Lemma rounds_spec reports : forall q (s : mutator), good q s -> (length (agenda (cur s) q) <= length reports)%nat ->
  exists q' s' made, for_each reports round s = (Ok tt, s') /\ good q' s' /\ agenda (cur s') q' = [] /\
    log (solver_data s') = log (solver_data s) ++ made /\ accounts reports (agenda (cur s) q) made.
Proof.
  assert (Hnil : forall reports, accounts reports [] []) by (split; [done|intros ?? []%not_elem_of_nil]).
  induction reports as [|rep reports IH]; intros q s Hg Hlen.
  - exists q, s, []. rewrite app_nil_r. destruct (agenda (cur s) q) eqn:Ea; [|cbn in Hlen; lia]. by split_and!.
  - pose proof (round_spec rep q s Hg) as Hr. cbn [for_each].
    destruct (agenda (cur s) q) as [|[t i] rest] eqn:Ea.
    + destruct Hr as (s1 & E1 & Hg1 & Ha1 & Hd1). rewrite (bind_eq _ _ _ _ _ E1).
      destruct (IH [] s1 Hg1) as (q' & s' & made & E & Hg' & Ha' & Hlog & Hsub & Hacc); [rewrite Ha1; cbn; lia|].
      rewrite Ha1 in Hsub. apply sublist_nil_r in Hsub. apply fmap_nil_inv in Hsub as ->.
      exists q', s', []. rewrite Hlog, Hd1. by split_and!.
    + destruct Hr as (r & s1 & q1 & E1 & Hg1 & Hrest & Hlog1 & Hdue). rewrite (bind_eq _ _ _ _ _ E1).
      destruct (IH q1 s1 Hg1) as (q' & s' & made & E & Hg' & Ha' & Hlog & Hacc).
      { cbn in Hlen. destruct Hdue as [->|[-> _]]; [lia|]. rewrite Hrest, length_app in Hlen. lia. }
      exists q', s', ((t, i, r) :: made). rewrite Hlog, Hlog1, <- app_assoc. split_and!; try done.
      by eapply accounts_step.
Qed.

End schedule.

(** The first solver is the input-to-state solver, which never reports an error. *)
Lemma i2s_no_error {L : Libm} infos in_buf t s s' r : i2s_solve infos in_buf t s = (Ok r, s') -> r <> SOLVER_ERROR.
Proof.
  unfold i2s_solve. intros H. run_step H. revert H. generalize (length (constraints_ t)) as n. generalize 0%nat as i.
  assert (H0 : SOLVER_TIMEOUT <> SOLVER_ERROR) by done. revert H0. generalize SOLVER_TIMEOUT as r0.
  generalize (set_out (out_buf s) 0 s) as s0. intros s0 r0 H0 i n. revert i r0 H0 s0.
  induction n as [|n IH]; intros i r0 H0 s0 H; cbn [solve_loop] in H; [by run H|].
  run_step H. run_step H. run_step H. run_step H. eapply IH, H.
  destruct (rgd.isRelationalKind _); [|destruct (bool_decide _); [|destruct (bool_decide _)]].
  - run_step Hr2. destruct (bool_decide _); run Hr2; subst; done.
  - run_step Hr2. destruct (bool_decide _); run Hr2; subst; done.
  - run_step Hr2. run Hr2. by subst.
  - run Hr2. by subst.
Qed.

(** ** A record of the calls *)

Section logged.
Context {S : Type}.

(** A solver that keeps a record of its calls. *)
Definition logged (k : nat) (f : Solver S) : Solver (list (Z * nat * solver_result_t) * S) := fun infos buf tid w =>
  let '(r, w') := f infos buf tid (mk_solving (sv_tasks w) (sv_buf w) (sv_size w) (snd (sv_state w))) in
  (r, mk_solving (sv_tasks w') (sv_buf w') (sv_size w')
        (match r with Ok r => fst (sv_state w) ++ [(tid, k, r)] | Err _ => fst (sv_state w) end, sv_state w')).

(** Solvers that return on the tasks of a store, the first without an error. *)
Record returning (solvers : list (Solver S)) (buf : list Z) (Inv : gmap Z SearchTask -> list Z -> S -> Prop) : Prop := {
  returns infos i f T b x t : solvers !! i = Some f -> Inv T b x -> is_Some (T !! t) ->
    exists r w, f infos buf t (mk_solving T b 0 x) = (Ok r, w) /\ (i = 0%nat -> r <> SOLVER_ERROR) /\
      Inv (sv_tasks w) (sv_buf w) (sv_state w) /\ (forall t, is_Some (T !! t) -> is_Some (sv_tasks w !! t));
  returns_skip T b x t : Inv T b x -> Inv (alter Z3Solver.skip t T) b x
}.

Lemma logged_lawful solvers buf Inv : returning solvers buf Inv ->
  lawful (imap logged solvers) buf (fun T b x => Inv T b (snd x)) fst.
Proof.
  intros [Hret Hskip]. split; [|intros; by apply Hskip]. intros infos i f T b [l x] t Hf HI Ht.
  rewrite list_lookup_imap in Hf. destruct (solvers !! i) as [g|] eqn:Eg; [|done]. injection Hf as <-.
  destruct (Hret infos i g T b x t Eg HI Ht) as (r & w & E & H0 & HI' & Hdom).
  exists r. unfold logged. cbn. rewrite E. eexists. by split_and!.
Qed.

End logged.

(** C15: the number of mutations that [afl_custom_fuzz_count] announces, tasks in the
    queue times solvers, is enough for all of them: after so many calls of
    [afl_custom_fuzz], with or without reports of new queue entries in between, the
    calls of solvers that were made are the pairs of a task and a solver, in the order
    of the queue and of the solvers, each at most once; no task is left out, and a
    solver only if an earlier one proved the task unsolvable or had an entry reported;
    and a further call finds nothing to do. *)
Theorem all_tasks_tried {S} (solvers : list (Solver S)) SaveSolved MAX_FILE buf Inv q reports
    (s : my_mutator_t (list (Z * nat * solver_result_t) * S)) :
  let logged_solvers := imap logged solvers in
  let K := length solvers in
  (0 < K)%nat -> Z.of_nat K < 2 ^ 64 -> Z.of_nat (length buf) <= MAX_FILE -> returning solvers buf Inv ->
  task_mgr s = Some <$> q -> Forall (fun t => is_Some (tasks s !! t)) q -> cur_task (cur s) = None ->
  fst (solver_data s) = [] -> Inv (tasks s) (output_buf s) (snd (solver_data s)) ->
  length reports = (get_num_tasks (task_mgr s) * K)%nat ->
  exists s', for_each reports (round logged_solvers SaveSolved MAX_FILE buf) s = (Ok tt, s') /\
    let made := fst (solver_data s') in
    made.*1 `sublist_of` (q ≫= fun t => pair t <$> seq 0 K) /\
    (forall t, t ∈ q -> (t, 0%nat) ∈ made.*1) /\
    (forall t i, t ∈ q -> (i < K)%nat -> (t, i) ∈ made.*1 \/
      exists j r, (j < i)%nat /\ (t, j, r) ∈ made /\ (r = SOLVER_UNSAT \/ exists e, Some e ∈ reports)) /\
    fst (afl_custom_fuzz logged_solvers SaveSolved MAX_FILE buf s') = Ok (InputBuf, 0).
Proof.
  intros ls K HK HK64 Hb Hret Hq Ht Hc Hl HI Hlen.
  assert (HKl : length ls = K) by apply length_imap.
  assert (HK' : (0 < length ls)%nat) by by rewrite HKl.
  assert (HK64' : Z.of_nat (length ls) < 2 ^ 64) by by rewrite HKl.
  pose proof (logged_lawful solvers buf Inv Hret) as Hlaw.
  assert (Hdue : agenda ls (cur s) q = q ≫= fun t => pair t <$> seq 0 K).
  { unfold agenda, agenda_of, stages. by rewrite Hc, HKl, Nat.sub_0_r. }
  assert (Hlen' : (length (agenda ls (cur s) q) <= length reports)%nat).
  { unfold agenda. rewrite Hc, length_agenda_of, HKl, Hlen, Hq. unfold get_num_tasks. by rewrite length_fmap. }
  assert (Hgood : good ls (fun T b x => Inv T b (snd x)) q s) by (split; [split; [done|done|by rewrite Hc]|done]).
  destruct (rounds_spec ls SaveSolved MAX_FILE buf HK' HK64' _ fst Hlaw Hb reports q s Hgood Hlen')
    as (q' & s' & made & E & [Hr' _] & Ha & Hlog & Hsub & Hall).
  exists s'. split; [done|]. rewrite Hlog, Hl. cbn [app]. rewrite Hdue in Hsub, Hall.
  assert (Hin : forall t i, t ∈ q -> (i < K)%nat -> (t, i) ∈ q ≫= fun t => pair t <$> seq 0 K).
  { intros t i Hti Hi. apply list_elem_of_bind. exists t. split; [|done].
    apply list_elem_of_fmap. exists i. split; [done|]. apply elem_of_seq. lia. }
  split_and!; [done| |by eauto|].
  - intros t Hti. destruct (Hall t 0%nat) as [|(j & r & Hj & _)]; [by apply Hin|done|lia].
  - destruct (fuzz_exhausted ls SaveSolved MAX_FILE buf HK' HK64' Hb q' s' Hr' Ha) as [i ->]. done.
Qed.

(** ** Branches that become tasks *)

Section branches.
Context {S : Type} {LLVM : InstructionDef} (unordered : gset nat -> list nat).
Abbreviation mutator := (my_mutator_t S).

(** The branch at [a] has gone in direction [d]. *)
Definition covered (a : Z) (d : bool) (m : EdgeCovManager) : Prop :=
  exists t f, branches m !! a = Some (t, f) /\ (if d then t else f) = true.

Lemma add_branch_covered a d m : covered a d (snd (add_branch a d m)).
Proof.
  unfold add_branch. destruct (default (false, false) (branches m !! a)) as [t f]. cbn.
  eexists _, _. split; [apply lookup_insert_eq|]. by destruct d, t, f.
Qed.

Lemma add_branch_mono a d m a' d' : covered a' d' m -> covered a' d' (snd (add_branch a d m)).
Proof.
  intros (t & f & E & H). unfold add_branch. destruct (decide (a = a')) as [<-|Hne].
  - rewrite E. cbn. eexists _, _. split; [apply lookup_insert_eq|]. by destruct d, d', t, f.
  - destruct (default (false, false) (branches m !! a)) as [t1 f1]. cbn.
    exists t, f. cbn. by rewrite lookup_insert_ne.
Qed.

Lemma covered_not_interesting a d m : covered a d m -> is_branch_interesting (mk_ctx a d) m = Ok false.
Proof.
  intros (t & f & E & H). unfold is_branch_interesting. cbn [addr direction]. rewrite E. cbn. by destruct d; rewrite H.
Qed.

Lemma in_parser_frame {A} (m : M parser A) (s s' : mutator) r : in_parser m s = (r, s') ->
  cov_mgr s' = cov_mgr s /\ task_mgr s' = task_mgr s.
Proof. unfold in_parser. destruct (m (parser_ s)). by intros [= _ <-]. Qed.

Lemma add_tasks_frame ids : forall (s s' : mutator) r, add_tasks ids s = (r, s') -> cov_mgr s' = cov_mgr s.
Proof.
  unfold add_tasks. induction ids as [|id ids IH]; intros s s' r; cbn [for_each]; [by intros [= _ <-]|].
  intros E. unfold bind at 1, bind at 1 in E. destruct (in_parser (retrieve_task id) s) as [[t|e] s1] eqn:E1.
  - destruct (in_parser_frame _ _ _ _ E1) as [Hc _]. apply IH in E. rewrite E. by destruct t.
  - injection E as _ <-. by destruct (in_parser_frame _ _ _ _ E1).
Qed.

(** A branch that is looked at is recorded; what was recorded stays; and nothing is
    queued for a direction that was taken before. *)
Lemma handle_cond_covered (msg : pipe_msg) (s s' : mutator) r :
  m_label msg <> 0 -> m_label msg <> kInitializingLabel ->
  default 0 (local_counter (filter_ s) !! m_id msg) <= MAX_LOCAL_BRANCH_COUNTER ->
  handle_cond unordered msg s = (r, s') ->
  let d := negb (m_result msg =? 0) in
  covered (m_addr msg) d (cov_mgr s') /\
  (forall a d', covered a d' (cov_mgr s) -> covered a d' (cov_mgr s')) /\
  (covered (m_addr msg) (negb d) (cov_mgr s) -> r = Ok tt /\ task_mgr s' = task_mgr s).
Proof.
  intros Hl Hi Hlc E d. unfold handle_cond in E.
  rewrite (proj2 (Z.eqb_neq _ _)), (proj2 (Z.eqb_neq _ _)) in E by done.
  unfold bind at 1, count at 1, modify at 1 in E. cbn beta iota zeta in E.
  unfold bind at 1, gets at 1 in E. cbn [filter_ set_stats] in E.
  rewrite (proj2 (Z.ltb_ge _ _)) in E by done.
  unfold bind at 1, modify at 1, bind at 1, gets at 1 in E. cbn [cov_mgr set_filters set_stats] in E. fold d in E.
  pose proof (add_branch_covered (m_addr msg) d (cov_mgr s)) as Hnew.
  pose proof (add_branch_mono (m_addr msg) d (cov_mgr s)) as Hmono.
  assert (Hctx : fst (add_branch (m_addr msg) d (cov_mgr s)) = mk_ctx (m_addr msg) d).
  { unfold add_branch. by destruct (default (false, false) _). }
  destruct (add_branch (m_addr msg) d (cov_mgr s)) as [ctx cov]. cbn [fst snd] in *. subst ctx.
  cbn [addr direction] in E.
  assert (Hs' : cov_mgr s' = cov /\ (is_branch_interesting (mk_ctx (m_addr msg) (negb d)) cov = Ok false ->
    r = Ok tt /\ task_mgr s' = task_mgr s)).
  { unfold bind at 1, modify at 1, bind at 1, lift at 1 in E.
    destruct (is_branch_interesting _ cov) as [[|]|e].
    - split; [|done]. cbn [negb] in E. unfold bind at 1 in E. destruct (in_parser _ _) as [[[n ids]|e] s1] eqn:E1.
      + destruct (in_parser_frame _ _ _ _ E1) as [Hc _]. destruct (negb (n =? 0)); [by injection E as _ <-|].
        unfold bind at 1 in E. destruct (add_tasks ids s1) as [[u|e] s2] eqn:E2;
          apply add_tasks_frame in E2; injection E as _ <-; cbn; by rewrite E2.
      + injection E as _ <-. by destruct (in_parser_frame _ _ _ _ E1).
    - injection E as <- <-. done.
    - injection E as <- <-. done. }
  destruct Hs' as [-> Hskip]. split_and!; [done|by auto|].
  intros Hc. apply Hskip, covered_not_interesting, Hmono, Hc.
Qed.

End branches.

(** ** Fuel *)

Section fuel.
Context {S : Type} {LLVM : InstructionDef} {P : launcher.Posix} (unordered : gset nat -> list nat).
Abbreviation mutator := (my_mutator_t S).

(** The bytes that are left in the pipe. *)
Definition left_ (s : mutator) : nat := length (launcher.events (sys s)).

Lemma read_shrinks n timeout : shrinks left_ (read_event n timeout).
Proof.
  intros s. unfold left_, read_event, in_launcher. destruct (launcher.symsan_read_event n timeout (sys s)) as [r w] eqn:E.
  destruct (read_event_rest _ _ _ _ _ E) as (k & _ & Hk & _). cbn. rewrite Hk, length_drop. lia.
Qed.

Lemma parser_shrinks {A} (m : M parser A) : shrinks left_ (in_parser m).
Proof. intros s. unfold left_, in_parser. destruct (m (parser_ s)). cbn. lia. Qed.

Lemma add_tasks_shrinks ids : shrinks left_ (add_tasks ids).
Proof.
  unfold add_tasks. apply shrinks_for_each. intros id. apply shrinks_bind; [apply parser_shrinks|].
  intros t. apply shrinks_modify. by destruct t.
Qed.

Lemma handle_shrinks msg : shrinks left_ (handle unordered msg).
Proof.
  unfold handle, handle_cond, handle_gep, count.
  shrink ltac:(first [apply read_shrinks | apply parser_shrinks | apply add_tasks_shrinks]).
Qed.

Lemma clock_left {A} (f : nat -> A) (s : mutator) : left_ (snd (in_launcher (launcher.syscall f) s)) = left_ s.
Proof. done. Qed.

(** A message read is gone from the pipe. *)
Lemma read_message timeout (s s' : mutator) r : read_event (size_of pipe_msg) timeout s = (r, s') ->
  (exists bs, r = Ok bs /\ bool_decide (length <$> bs = Some (size_of pipe_msg)) = true /\ (left_ s' < left_ s)%nat) \/
  (forall bs, r = Ok bs -> bool_decide (length <$> bs = Some (size_of pipe_msg)) = false).
Proof.
  intros E. unfold read_event, in_launcher in E.
  destruct (launcher.symsan_read_event _ _ (sys s)) as [r0 w] eqn:E0. injection E as <- <-.
  destruct (read_event_rest _ _ _ _ _ E0) as (k & Hk & He & Hbs). destruct r0 as [bs|e]; [|by right].
  destruct (bool_decide (length <$> bs = Some (size_of pipe_msg))) eqn:Eb; [left|right; by intros ? [= <-]].
  exists bs. split_and!; [done|done|]. apply bool_decide_eq_true in Eb. destruct bs as [bs|]; [|done].
  injection Eb as Eb. rewrite (Hbs bs eq_refl), length_take in Eb. unfold left_. cbn. rewrite He, length_drop.
  assert (0 < size_of pipe_msg)%nat by (vm_compute; lia). lia.
Qed.

(** The number of bytes in the pipe is enough: with more fuel nothing changes. *)
Lemma trace_loop_fuel timeout start n : forall m k (s : mutator), (left_ s <= n)%nat -> (n <= m)%nat ->
  trace_loop unordered m timeout start k s = trace_loop unordered n timeout start k s.
Proof.
  induction n as [|n IH]; intros m k s Hs Hm; (destruct m as [|m]; [done || lia|]); cbn [trace_loop]; unfold bind at 1 5;
    destruct (read_event _ _ s) as [r s1] eqn:E; destruct (read_message _ _ _ _ E) as [(bs & -> & Hb & Hl)|Hf];
    try (destruct r as [bs|e]; [by rewrite (Hf bs eq_refl)|done]); [lia|].
  rewrite Hb. unfold bind at 1 4. pose proof (handle_shrinks (decode (default [] bs)) s1) as Hh.
  destruct (handle _ _ s1) as [[u|e] s2]; [|done]. cbn [snd] in Hh.
  destruct (negb (Z.land _ _ =? 0)); [|unfold bind, ret; apply IH; lia].
  unfold bind, ret. destruct (in_launcher (launcher.syscall launcher.now) s2) as [[t|e] s3] eqn:E3; [|done].
  pose proof (clock_left launcher.now s2) as Hc. rewrite E3 in Hc. cbn [snd] in Hc.
  destruct (timeout <? _); [done|]. apply IH; lia.
Qed.

End fuel.

(** ** A sample *)

#[local] Instance sample_log2 : Libm.
Proof. refine {| log2_u64 := Z.log2 |}. intros n Hn. apply Z.log2_pow2. lia. Defined.

(** A library that always gives up. *)
#[local] Instance silent_library : z3.Library := { simplify e := e; check _ := z3.unknown }.

(** Tasks without constraints. *)
Definition trivial_tasks (T : gmap Z SearchTask) (b : list Z) (x : solver_state) : Prop :=
  forall t k, T !! t = Some k -> constraints_ k = [] /\ base_task k = None.

Lemma sample_returning buf : returning [I2SSolver; aflpp.Z3Solver] buf trivial_tasks.
Proof.
  split.
  - intros infos i f T b x t Hf HI [k Hk]. destruct (HI t k Hk) as [Hc Hb].
    destruct i as [|[|i]]; [injection Hf as <-|injection Hf as <-|done].
    + unfold I2SSolver. cbn [sv_tasks sv_state]. rewrite Hk. unfold i2s_solve. rewrite Hc. cbn. eexists _, _. by split_and!.
    + unfold aflpp.Z3Solver, Z3Solver.solve, Z3Solver.solve_checked, Z3Solver.get_task, catch, bind, gets. cbn.
      generalize (size T) as n. intros n. rewrite Hk. cbn. rewrite Hb.
      destruct n; repeat first [rewrite Hk | rewrite Hc | progress cbn]; eexists _, _; by split_and!.
  - intros T b x t HI t' k Hk. destruct (decide (t = t')) as [<-|].
    + rewrite lookup_alter_eq in Hk. destruct (T !! t) as [k'|] eqn:E; [|done]. injection Hk as <-. by apply (HI t k').
    + rewrite lookup_alter_ne in Hk by done. by apply (HI t' k).
Qed.

(** Two tasks in the queue, and a report after the third mutation. *)
Definition sample_mutator : my_mutator_t (list (Z * nat * solver_result_t) * solver_state) :=
  mk_mutator (launcher.mk_world (launcher.mk_config None None None None (-1) 0 (-1) (-1) (-1) 0 false false false
      false false false false false false false (-1) 0 false) ∅ ∅ ∅ ∅ [] 0)
    "input" 3 None 7 (mk_stage None 0 MUTATION_INVALID) [0; 0; 0] ∅ [Some 10; Some 11] (mk_cov ∅ (mk_ctx 0 false))
    (new_parser ∅ uniontable_size false MAX_AST_SIZE) {[10 := new_task; 11 := new_task]}
    ([], mk_states 0 0 (mk_jit new_fCache 0 0 0 0 0 ∅ ∅ ∅ [] 0)) (mk_filters ∅ ∅) (mk_stats 0 0 0 0 0) [].

Lemma all_tasks_tried_witness :
  let reports := [None; None; Some 7; None] in
  exists s', for_each reports (round (imap logged [I2SSolver; aflpp.Z3Solver]) false 100 [1; 2]) sample_mutator = (Ok tt, s') /\
    (11, 0%nat) ∈ (fst (solver_data s')).*1 /\
    fst (afl_custom_fuzz (imap logged [I2SSolver; aflpp.Z3Solver]) false 100 [1; 2] s') = Ok (InputBuf, 0).
Proof.
  intros reports.
  destruct (all_tasks_tried [I2SSolver; aflpp.Z3Solver] false 100 [1; 2] trivial_tasks [10; 11] reports sample_mutator)
    as (s' & E & _ & H0 & _ & Hend).
  - cbn. lia.
  - by vm_compute.
  - cbn. lia.
  - apply sample_returning.
  - reflexivity.
  - repeat constructor; vm_compute; eauto.
  - reflexivity.
  - reflexivity.
  - intros t k Hk. cbn [tasks sample_mutator] in Hk. apply lookup_insert_Some in Hk as [[_ <-]|[_ Hk]]; [done|].
    apply lookup_singleton_Some in Hk as [_ <-]. done.
  - reflexivity.
  - exists s'. split; [exact E|]. split; [|exact Hend]. apply H0. right. left.
Defined.
