(* ===== verification/Rl.v ===== *)
(** * The driver for reinforcement learning: [driver/rl/main.cpp]

    Serves requests for an input that takes the named branches in the named
    directions: runs the program on inputs from a queue until every branch has been
    seen, asks the solver for an input, and runs the program on it. The gRPC
    service around the handlers and the msgpack files that the line table comes
    from are not part of the model, nor are the messages it logs. *)

From stdpp Require Import strings pretty.
From S2P Require Import Prelude Dfsan Cstr Pipe Z3 Z3Ts Launcher.
Import Z3AstParser.
Local Open Scope prog_scope.

Module rl.

Record LineInfo := mk_line { file : string; line : Z; line_is_if : bool }.

Record BranchInfo := mk_branch {
  line_id : Z;
  cid : Z;
  is_if : bool;
  seen : bool;
  symbolic : bool;
  taken : bool;
  not_taken : bool;
  last_result : bool
}.

Definition no_branch : BranchInfo := mk_branch 0 0 false false false false false false.

(** The settings that the functions below read. *)
Record Config := mk_cfg {
  target : string;
  args : list string;
  input_path : string;
  output_dir : string;
  use_stdin : bool;
  debug : bool;
  bounds_check : bool;
  solve_ub : bool;
  run_timeout_ms : Z;
  max_runs : nat
}.

Record CondEntry := mk_cond { c_label : Z; c_result : Z }.

Record RunResult := mk_run {
  timed_out : bool;
  new_inputs : list string;
  input_bytes : list Z;
  run_input : string;
  run_branches : gmap Z BranchInfo;
  line_hits : gset Z
}.

Definition no_run : RunResult := mk_run false [] [] EmptyString ∅ ∅.

(** The driver, and the locals of [run_once]: the result being filled and
    [new_cov_since_task]. The vector of tasks is the parser's [out_tasks]. *)
Record RLDriver := mk_driver {
  sys : launcher.world;
  parser_ : state;
  union_base : Z;                    (* 0 for null *)
  line_table : gmap Z LineInfo;
  branches_ : gmap Z BranchInfo;
  line_to_cid : gmap Z Z;
  conds : gmap Z CondEntry;
  input_queue : list string;
  last_input_path : string;
  session_id : Z;
  next_input_id : Z;                 (* uint32_t *)
  res_ : RunResult;
  new_cov_since_task : bool
}.

Definition set_sys x d := mk_driver x (parser_ d) (union_base d) (line_table d) (branches_ d) (line_to_cid d)
  (conds d) (input_queue d) (last_input_path d) (session_id d) (next_input_id d) (res_ d) (new_cov_since_task d).
Definition set_parser x d := mk_driver (sys d) x (union_base d) (line_table d) (branches_ d) (line_to_cid d)
  (conds d) (input_queue d) (last_input_path d) (session_id d) (next_input_id d) (res_ d) (new_cov_since_task d).
Definition set_union_base x d := mk_driver (sys d) (parser_ d) x (line_table d) (branches_ d) (line_to_cid d)
  (conds d) (input_queue d) (last_input_path d) (session_id d) (next_input_id d) (res_ d) (new_cov_since_task d).
Definition set_branches x c d := mk_driver (sys d) (parser_ d) (union_base d) (line_table d) x c
  (conds d) (input_queue d) (last_input_path d) (session_id d) (next_input_id d) (res_ d) (new_cov_since_task d).
Definition set_conds x d := mk_driver (sys d) (parser_ d) (union_base d) (line_table d) (branches_ d) (line_to_cid d)
  x (input_queue d) (last_input_path d) (session_id d) (next_input_id d) (res_ d) (new_cov_since_task d).
Definition set_queue x d := mk_driver (sys d) (parser_ d) (union_base d) (line_table d) (branches_ d) (line_to_cid d)
  (conds d) x (last_input_path d) (session_id d) (next_input_id d) (res_ d) (new_cov_since_task d).
Definition set_last x d := mk_driver (sys d) (parser_ d) (union_base d) (line_table d) (branches_ d) (line_to_cid d)
  (conds d) (input_queue d) x (session_id d) (next_input_id d) (res_ d) (new_cov_since_task d).
Definition set_next_id x d := mk_driver (sys d) (parser_ d) (union_base d) (line_table d) (branches_ d) (line_to_cid d)
  (conds d) (input_queue d) (last_input_path d) (session_id d) x (res_ d) (new_cov_since_task d).
Definition set_run r c d := mk_driver (sys d) (parser_ d) (union_base d) (line_table d) (branches_ d) (line_to_cid d)
  (conds d) (input_queue d) (last_input_path d) (session_id d) (next_input_id d) r c.

Definition in_launcher {A} (m : M launcher.world A) : M RLDriver A := fun d =>
  let '(r, w) := m (sys d) in (r, set_sys w d).
Definition in_parser {A} (m : M state A) : M RLDriver A := fun d =>
  let '(r, p) := m (parser_ d) in (r, set_parser p d).

Section driver.
Context {LLVM : InstructionDef} {L : z3.Library} {P : launcher.Posix}.
(** The order in which an [unordered_map] is iterated, and whether [errno] says
    after a run that a call was interrupted. *)
Context (iterate : gmap Z bool -> list (Z * bool)) (interrupted : launcher.world -> bool).
Context (cfg : Config) (pid : Z).

Definition size_ : Z := uniontable_size / sizeof_label_info.

(** ** Inputs *)

(** The bytes of a file and a descriptor for it; [None] when it cannot be opened. *)
Definition mmap_input (path : string) : M RLDriver (option (list Z * Z)) :=
  let! f := gets (fun d => launcher.files (sys d) !! path) in
  match f with
  | None => ret None
  | Some buf =>
      let! fd := in_launcher (launcher.open (launcher.Foreign 0)) in
      if fd =? -1 then ret None
      else
        let! b := in_launcher (launcher.syscall launcher.ok) in                 (* fstat *)
        let! b := (if b && negb (length buf =? 0)%nat then in_launcher (launcher.syscall launcher.ok)   (* mmap *)
                   else ret b) in
        if b : bool then ret (Some (buf, fd)) else in_launcher (launcher.close fd) ;;; ret None
  end.

(** The path of a new file with these bytes; the empty path when it cannot be
    written. *)
Definition materialize_input (buf : list Z) : M RLDriver string :=
  let! d := gets id in
  let path := output_dir cfg +:+ "/id-" +:+ pretty (session_id d) +:+ "-" +:+ pretty (next_input_id d) in
  modify (set_next_id (u32 (next_input_id d + 1))) ;;;
  let! b := in_launcher (launcher.syscall launcher.ok) in
  if b : bool then
    in_launcher (modify (fun w => launcher.set_files (<[path := buf]> (launcher.files w)) w)) ;;; ret path
  else ret EmptyString.

(** The bytes of a solution that are inside the input. *)
Definition apply_solution (solutions : list solution_val) (buf : list Z) : list Z :=
  foldl (fun b v => if sv_offset v <? Z.of_nat (length b) then <[Z.to_nat (sv_offset v) := sv_val v]> b else b)
    buf solutions.

Definition is_sat (st : solving_status) : bool :=
  match st with opt_sat | nested_sat | opt_sat_nested_timeout | opt_sat_nested_unsat => true | _ => false end.

(** ** One run *)

Definition placeholder : string := "{input}".

(** The first placeholder of an argument is replaced. *)
Definition substitute (input a : string) : string :=
  match String.index 0 placeholder a with
  | Some pos => String.substring 0 pos a +:+ input +:+ String.substring (pos + 7) (String.length a) a
  | None => a
  end.

Definition run_args (input : string) : list string :=
  match args cfg with [] => [target cfg; input] | l => substitute input <$> l end.

Definition tasks_size : M RLDriver nat := gets (fun d => length (out_tasks (parser_ d))).

(** A call of the parser, which may add tasks. *)
Definition try_tasks (parse : gmap Z dfsan_label_info -> M state Z) : M RLDriver unit :=
  let! before := tasks_size in
  let! t := gets (fun d => launcher.table (sys d)) in
  let! _ := in_parser (parse t) in
  let! after := tasks_size in
  if (before <? after)%nat then modify (fun d => set_run (res_ d) false d) else ret tt.

Definition read_event (n : nat) (timeout : Z) : M RLDriver (option (list Z)) :=
  in_launcher (launcher.symsan_read_event n timeout).

(** The record of a branch after one more message about it. *)
Definition cover_branch (id : Z) (msg : pipe_msg) (if_ : bool) (b : BranchInfo) : BranchInfo :=
  let has f := negb (Z.land (m_flags msg) f =? 0) in
  mk_branch id (m_id msg) if_ true (symbolic b || has F_BRANCH_SYMBOLIC) (taken b || has F_BRANCH_TAKEN_HISTORY)
    (not_taken b || has F_BRANCH_NOT_TAKEN_HISTORY) (negb (m_result msg =? 0)).

Definition cover_id (msg : pipe_msg) : Z := Z.lor (u64 (Z.shiftl (m_context msg) 32)) (m_label msg).

Definition cover (report_all : bool) (msg : pipe_msg) : M RLDriver unit :=
  let lid := cover_id msg in
  let! d := gets id in
  let if_ := match line_table d !! lid with Some l => line_is_if l | None => false end in
  let r := res_ d in
  let upd (m : gmap Z BranchInfo) := <[lid := cover_branch lid msg if_ (default no_branch (m !! lid))]> m in
  (if if_ || negb (m_id msg =? 0) then
     modify (set_branches (upd (branches_ d)) (<[lid := m_id msg]> (line_to_cid d))) ;;;
     modify (set_run (mk_run (timed_out r) (new_inputs r) (input_bytes r) (run_input r) (upd (run_branches r))
       (line_hits r)) (new_cov_since_task d))
   else ret tt) ;;;
  modify (fun d => let r := res_ d in
    set_run (mk_run (timed_out r) (new_inputs r) (input_bytes r) (run_input r) (run_branches r)
      ({[lid]} ∪ line_hits r)) (if report_all then new_cov_since_task d else true) d).

Definition handle (report_all : bool) (msg : pipe_msg) : M RLDriver unit :=
  if m_type msg =? type_num cond_type then
    modify (fun d => set_conds (<[m_id msg := mk_cond (m_label msg) (u8 (m_result msg))]> (conds d)) d) ;;;
    let! fresh := gets new_cov_since_task in
    if negb fresh then ret tt
    else try_tasks (fun t => parse_cond t size_ (m_label msg) (negb (m_result msg =? 0))
           (negb (Z.land (m_flags msg) F_ADD_CONS =? 0)))
  else if m_type msg =? type_num gep_type then
    let! fresh := gets new_cov_since_task in
    let! bs := read_event (size_of gep_msg) 0 in
    if negb fresh then ret tt
    else if bool_decide (length <$> bs = Some (size_of gep_msg)) then
      let g := decode (default [] bs) : gep_msg in
      try_tasks (fun t => parse_gep t size_ (g_ptr_label g) (g_ptr g) (g_index_label g) (s64 (g_index g))
        (g_num_elems g) (g_elem_size g) (s64 (g_current_offset g)) true)
    else ret tt
  else if m_type msg =? type_num memcmp_type then
    if m_label msg =? 0 then ret tt
    else
      let n := u64 (4 + m_result msg) in
      let! bs := read_event (Z.to_nat n) 0 in
      match bs with
      | Some bs =>
          if negb (Z.of_nat (length bs) =? n) then ret tt
          else let! _ := in_parser (record_memcmp (m_label msg) (drop 4 bs)) in ret tt
      | None => ret tt
      end
  else if m_type msg =? type_num cover_type then cover report_all msg
  else ret tt.

(** Every round takes the bytes of a message. *)
Fixpoint event_loop (fuel : nat) (report_all : bool) : M RLDriver unit :=
  let! bs := read_event (size_of pipe_msg) (run_timeout_ms cfg) in
  if bool_decide (length <$> bs = Some (size_of pipe_msg)) then
    match fuel with
    | O => throw NoFuel
    | S fuel' => handle report_all (decode (default [] bs)) ;;; event_loop fuel' report_all
    end
  else ret tt.

Definition solve_tasks : M RLDriver unit :=
  let! tasks := gets (fun d => out_tasks (parser_ d)) in
  for_each tasks (fun tid =>
    let! (st, solutions) := in_parser (solve_task tid) in
    if is_sat st && negb (length solutions =? 0)%nat then
      let! buf := gets (fun d => input_bytes (res_ d)) in
      let! np := materialize_input (apply_solution solutions buf) in
      if bool_decide (np = EmptyString) then ret tt
      else modify (fun d => let r := res_ d in
        set_run (mk_run (timed_out r) (new_inputs r ++ [np]) (input_bytes r) (run_input r) (run_branches r)
          (line_hits r)) (new_cov_since_task d) d)
    else ret tt).

(** The launcher is set up and the program started; [false] when that fails. *)
Definition launch (input : string) (report_all : bool) (fd : Z) : M RLDriver bool :=
  let source := if use_stdin cfg then "stdin"%string else input in
  in_launcher (launcher.symsan_set_input (Some source)) ;;;
  let! r := in_launcher (launcher.symsan_set_input (Some source)) in
  if negb (r =? 0) then ret false
  else
    let! r := in_launcher (launcher.symsan_set_args (Some (Some <$> run_args input))) in
    if negb (r =? 0) then ret false
    else
      in_launcher (
        launcher.symsan_set_debug (debug cfg) ;;;
        launcher.symsan_set_bounds_check (bounds_check cfg) ;;;
        launcher.symsan_set_solve_ub (solve_ub cfg) ;;;
        launcher.symsan_set_force_stdin (use_stdin cfg) ;;;
        launcher.symsan_set_always_report_coverage report_all) ;;;
      let! r := in_launcher (launcher.symsan_run fd) in
      ret (r =? 0).

(** The label table is mapped once. *)
Definition init_table : M RLDriver bool :=
  let! base := gets union_base in
  if base =? 0 then
    let! base := in_launcher (launcher.symsan_init (Some (target cfg)) uniontable_size pid) in
    modify (set_union_base base) ;;;
    ret (negb (base =? -1))
  else ret true.

(** The result is left in [res_]; [false] is an error. *)
Definition run_once (input : string) (report_all : bool) : M RLDriver bool :=
  modify (fun d => set_run (mk_run false (new_inputs (res_ d)) (input_bytes (res_ d)) input ∅ ∅)
    (new_cov_since_task d) d) ;;;
  let! f := mmap_input input in
  match f with
  | None => ret false
  | Some (buf, fd) =>
      modify (fun d => let r := res_ d in
        set_run (mk_run (timed_out r) (new_inputs r) buf (run_input r) (run_branches r) (line_hits r)) true d) ;;;
      let! mapped := init_table in
      if negb mapped then ret false
      else
        modify (set_parser new_state) ;;;
        let! started := launch input report_all fd in
        if negb started then in_launcher (launcher.close fd) ;;; ret false
        else
          in_parser (restart [buf]) ;;;
          let! n := gets (fun d => length (launcher.events (sys d))) in
          event_loop n report_all ;;;
          modify (fun d => let r := res_ d in
            set_run (mk_run (interrupted (sys d)) (new_inputs r) (input_bytes r) (run_input r) (run_branches r)
              (line_hits r)) (new_cov_since_task d) d) ;;;
          in_launcher (launcher.close fd) ;;;
          solve_tasks ;;;
          modify (set_last input) ;;;
          ret true
  end.

(** ** Requests *)

Definition branches_covered (targets : gmap Z bool) (b : gmap Z BranchInfo) : bool :=
  forallb (fun kv => match b !! fst kv with Some i => seen i | None => false end) (iterate targets).

(** Inputs from the queue are run until the targets have been seen, there are no
    more, or [runs] have been made. A run starts from an empty result. *)
Fixpoint explore_loop (runs : nat) (targets : gmap Z bool) (last_run : RunResult) : M RLDriver (bool * RunResult) :=
  let! d := gets id in
  if branches_covered targets (branches_ d) then ret (true, last_run)
  else
    match input_queue d, runs with
    | ip :: queue, S runs' =>
        modify (set_queue queue) ;;;
        modify (set_run no_run (new_cov_since_task d)) ;;;
        let! done_ := run_once ip false in
        if negb done_ then ret (false, last_run)
        else
          let! r := gets res_ in
          modify (fun d => set_queue (input_queue d ++ new_inputs r) d) ;;;
          explore_loop runs' targets r
    | _, _ => ret (false, last_run)
    end.

Definition explore_until_covered (targets : gmap Z bool) : M RLDriver (bool * RunResult) :=
  explore_loop (max_runs cfg) targets no_run.

Inductive BranchTraceType := NOT_REACHED | TAKEN | NOT_TAKEN | TAKEN_AND_NOT_TAKEN.

(** What is told about a branch: whether it is symbolic, and how it went in the run. *)
Definition build_branch_maps (id : Z) (source : gmap Z BranchInfo) (global : gmap Z BranchInfo)
    : option (bool * BranchTraceType) :=
  let found := match source !! id with Some i => if seen i then Some i else None | None => None end in
  match found with
  | Some i =>
      Some (symbolic i,
        if taken i && not_taken i then TAKEN_AND_NOT_TAKEN
        else if taken i then TAKEN else if not_taken i then NOT_TAKEN else NOT_REACHED)
  | None => (fun i => (symbolic i, NOT_REACHED)) <$> global !! id
  end.

(** [add_constraints_as_task] for every symbolic branch, up to one that is not
    known; the number of the task. *)
Fixpoint add_requests (trace : list (Z * bool)) (task_id : Z) : M RLDriver (option Z) :=
  match trace with
  | [] => ret (Some task_id)
  | (bid, want) :: trace' =>
      let! d := gets id in
      match branches_ d !! bid with
      | None => ret None
      | Some b =>
          if negb (symbolic b) then add_requests trace' task_id
          else
            match line_to_cid d !! bid with
            | None => ret None
            | Some c =>
                match conds d !! c with
                | None => ret None
                | Some e =>
                    let! (_, task_id) := in_parser (add_constraints_as_task (launcher.table (sys d)) size_
                      (c_label e) (if want : bool then 1 else 0) task_id) in
                    add_requests trace' task_id
                end
            end
      end
  end.

(** The run on a new input. *)
Definition check_input (buf : list Z) : M RLDriver (option RunResult) :=
  let! path := materialize_input buf in
  if bool_decide (path = EmptyString) then ret None
  else
    modify (fun d => set_run no_run (new_cov_since_task d) d) ;;;
    let! done_ := run_once path true in
    if negb done_ then ret None else let! r := gets res_ in ret (Some r).

(** The directions that the new run took are not checked but logged. *)
Definition solve_for_trace (branch_trace : gmap Z bool) (input : list Z) : M RLDriver (option RunResult) :=
  in_parser (restart [input]) ;;;
  let! task := add_requests (iterate branch_trace) (2 ^ 64 - 1) in
  match task with
  | None => ret None
  | Some task_id =>
      let! (st, solutions) := in_parser (solve_task task_id) in
      if negb (is_sat st) then ret None else check_input (apply_solution solutions input)
  end.

Record TraceResponse := mk_response {
  reached : bool;
  timeout : bool;
  sat : option bool;                 (* not set after a timeout *)
  branch_traces : gmap Z (bool * BranchTraceType)
}.

(** [HandleTrace]; the initial input is read again, and if it is gone the buffer
    for it cannot be made. *)
Definition HandleTrace (line_to_reach : Z) (requested : gmap Z bool) : M RLDriver TraceResponse :=
  let! lt := gets line_table in
  let branch_trace := filter (fun kv => line_is_if <$> lt !! fst kv = Some true) requested in
  let! (covered, last_run) := explore_until_covered branch_trace in
  if negb covered then ret (mk_response false true None ∅)
  else
    let! (sat, last_run) :=
      (if bool_decide (branch_trace = ∅) then ret (true, last_run)
       else
         let! buf := gets (fun d => launcher.files (sys d) !! input_path cfg) in
         let! buf := lift (match buf with Some b => Ok b | None => Err RuntimeError end) in
         let! r := solve_for_trace branch_trace buf in
         ret (match r with Some r => (true, r) | None => (false, last_run) end)) in
    let! d := gets id in
    ret (mk_response (bool_decide (line_to_reach ∈ line_hits last_run)) false (Some sat)
      (omap id (map_imap (fun id _ => Some (build_branch_maps id (run_branches last_run) (branches_ d))) branch_trace))).

Definition HandleReadLines : M RLDriver (gmap Z LineInfo) := gets line_table.

(** [init]: the initial input is the first in the queue. *)
Definition init : M RLDriver bool :=
  if bool_decide (target cfg = EmptyString) || bool_decide (input_path cfg = EmptyString) then ret false
  else modify (fun d => set_queue (input_queue d ++ [input_path cfg]) d) ;;; ret true.

End driver.

End rl.
