(* ===== verification/RlSpec.v ===== *)
(** * What the driver for reinforcement learning guarantees *)

From stdpp Require Import strings pretty.
From S2P Require Import Prelude Dfsan LabelSem Cstr Pipe Z3 Z3Ts Z3Spec Z3PathSpec Fgtest FgtestSpec Launcher LauncherSpec Rl.
Import Z3AstParser rl.
Local Open Scope prog_scope.
#[local] Existing Instance ts_naming.

(** ** Solutions *)

(** Inside the input, a solution is applied as the driver of the tests does. *)
Lemma apply_solution_write sol : forall buf, Forall (byte_value (Z.of_nat (length buf))) sol ->
  apply_solution sol buf = foldl (fun f v => fgtest.write_at (sv_offset v) (sv_val v) f) buf sol.
Proof.
  unfold apply_solution. induction sol as [|v sol IH]; intros buf Hsol; [done|].
  apply Forall_cons in Hsol as [[Ho Hv] Hsol]. cbn [foldl]. unfold fgtest.write_at at 2.
  rewrite (proj2 (Z.ltb_lt _ _)) by lia. apply IH. by rewrite length_insert.
Qed.

Lemma apply_solution_env buf sol : Forall (is_u 8) buf -> Forall (byte_value (Z.of_nat (length buf))) sol ->
  length (apply_solution sol buf) = length buf /\
  forall o, env_of (apply_solution sol buf) o = new_input sol (env_of buf) o.
Proof.
  intros Hb Hs. rewrite apply_solution_write by done. by destruct (file_run buf Hb sol Hs) as (? & _ & ?).
Qed.

(** ** Requests *)

(** The labels and values that are asked for, one for each symbolic branch; [None]
    when one of the branches is not known. *)
Fixpoint requests (trace : list (Z * bool)) (d : RLDriver) : option (list (Z * Z)) :=
  match trace with
  | [] => Some []
  | (bid, want) :: trace' =>
      b ← branches_ d !! bid;
      if symbolic b then
        c ← line_to_cid d !! bid;
        e ← conds d !! c;
        rest ← requests trace' d;
        Some ((c_label e, Z.b2z want) :: rest)
      else requests trace' d
  end.

Lemma requests_parser trace d p : requests trace (set_parser p d) = requests trace d.
Proof. induction trace as [|[bid want] trace IH]; [done|]. cbn. by rewrite IH. Qed.

Section trace.
Context {LLVM : InstructionDef} {L : z3.Library} {LL : z3.LibraryLaws}.
Context (last : Z) (buf : list Z).
Let len := Z.of_nat (length buf).

(** The label table of the last run. *)
Record table_ok (t : gmap Z dfsan_label_info) : Prop := {
  ok_dag : dag t last;
  ok_sized : sized t last;
  ok_labels : forall l, 1 <= l <= last -> z3_ok t len (info_at t l)
}.

Context (t : gmap Z dfsan_label_info) (Ht : table_ok t).
Context (Hsize : last < size_) (Hlen : len <= 2 ^ 32) (Hinit : last < kInitializingLabel).

Definition condition (f : Z * Z) : Prop := 1 <= fst f <= last /\ is_u (label_width t (fst f)) (snd f).

Lemma add_requests_run trace : forall wants d tid facts done_ cs,
  requests trace d = Some wants -> Forall condition wants -> launcher.table (sys d) = t ->
  parser_inv t last len facts (parser_ d) -> default [] (tasks_ (parser_ d) !! tid) = cs ->
  Forall2 (asked t len) done_ cs ->
  exists p tid', add_requests trace tid d = (Ok (Some tid'), set_parser p d) /\
    (exists cs', default [] (tasks_ p !! tid') = cs' /\ Forall2 (asked t len) (done_ ++ wants) cs').
Proof.
  induction trace as [|[bid want] trace IH]; intros wants d tid facts done_ cs Hr Hw Htab Hp Hcs Ha; cbn [requests] in Hr; cbn [add_requests].
  { injection Hr as <-. exists (parser_ d), tid. rewrite app_nil_r. split; [by destruct d|by exists cs]. }
  unfold bind at 1, gets at 1. cbn [id].
  destruct (branches_ d !! bid) as [b|]; [|done]. cbn in Hr. destruct (symbolic b); cbn [negb]; [|by eapply IH].
  destruct (line_to_cid d !! bid) as [c|]; [|done]. cbn in Hr. destruct (conds d !! c) as [e|]; [|done]. cbn in Hr.
  destruct (requests trace d) as [rest|] eqn:Er; [|done]. injection Hr as <-. apply Forall_cons in Hw as [[Hl Hv] Hw].
  destruct (as_task_run t size_ last len (ok_dag _ Ht) (ok_sized _ Ht) Hsize ltac:(lia) (ok_labels _ Ht) Hinit
    facts (parser_ d) (c_label e) (Z.b2z want) tid Hp Hl Hv) as (p1 & x & E1 & Hp1 & Hx & Ht1).
  assert (in_parser (add_constraints_as_task (launcher.table (sys d)) size_ (c_label e) (if want then 1 else 0) tid) d
    = (Ok (0, prev_task_id_ (parser_ d)), set_parser p1 d)) as E.
  { unfold in_parser. rewrite Htab. change (if want then 1 else 0) with (Z.b2z want). by rewrite E1. }
  erewrite bind_eq by exact E. cbv beta iota.
  destruct (IH rest (set_parser p1 d) (prev_task_id_ (parser_ d)) (facts ++ [(c_label e, Z.b2z want)]) (done_ ++ [(c_label e, Z.b2z want)]) (cs ++ [x]))
    as (p & tid' & E' & cs' & Hcs' & Hall).
  - by rewrite requests_parser.
  - done.
  - done.
  - exact Hp1.
  - cbn. rewrite Ht1. cbn. by rewrite Hcs.
  - apply Forall2_app; [done|by repeat constructor].
  - exists p, tid'. split; [by rewrite E'|]. exists cs'. split; [done|]. by rewrite <- app_assoc in Hall.
Qed.

End trace.

(** C28: a request is answered by one task that asks for all the symbolic branches
    together: the task that [add_requests] makes has one assertion for each of them,
    which says that the condition label of the branch has the requested value, and
    [solve_for_trace] runs the input that [solve_task] finds for this task, if it
    finds one. What that answer means: with [nested_sat], the labels of all the
    branches have the requested values on the input that is run, which is as long as
    the first one; with the other two answers that give an input the first branch is
    as requested, and no input suits all of them or Z3 gave up on the task; with
    [opt_unsat] no input suits even the first branch, and with [opt_timeout] Z3 gave
    up on it; then no input is run. *)
Theorem trace_solution {LLVM : InstructionDef} {L : z3.Library} {LL : z3.LibraryLaws} {P : launcher.Posix}
    iterate interrupted cfg pid last buf branch_trace wants d :
  let t := launcher.table (sys d) in
  let holds env (f : Z * Z) := eval t env (fst f) = snd f in
  table_ok last buf t -> last < size_ -> Z.of_nat (length buf) <= 2 ^ 32 -> 0 <= last < kInitializingLabel ->
  Forall (is_u 8) buf -> tasks_ (parser_ d) !! (2 ^ 64 - 1) = None ->
  requests (iterate branch_trace) d = Some wants -> wants <> [] -> Forall (condition last t) wants ->
  exists tid p1 cs status sol p2,
    (in_parser (restart [buf]) ;;; add_requests (iterate branch_trace) (2 ^ 64 - 1)) d =
      (Ok (Some tid), set_parser p1 d) /\
    tasks_ p1 !! tid = Some cs /\
    Forall2 (fun f c => forall env, z3.value (input_assignment env) c = 1 <-> holds env f) wants cs /\
    solve_task tid p1 = (Ok (status, sol), p2) /\
    let out := apply_solution sol buf in
    solve_for_trace iterate interrupted cfg pid branch_trace buf d =
      (if is_sat status then check_input interrupted cfg pid out (set_parser p2 d)
       else (Ok None, set_parser p2 d)) /\
    length out = length buf /\
    match status with
    | nested_sat => Forall (holds (env_of out)) wants
    | opt_sat_nested_unsat => Forall (holds (env_of out)) (take 1 wants) /\ forall env, ~ Forall (holds env) wants
    | opt_sat_nested_timeout => Forall (holds (env_of out)) (take 1 wants) /\ z3.check cs = z3.unknown
    | opt_unsat => forall env, ~ Forall (holds env) (take 1 wants)
    | opt_timeout => z3.check (take 1 cs) = z3.unknown
    | _ => False
    end.
Proof.
  intros t holds Ht Hsize Hlen Hlast Hbuf Htid Hr Hne Hw.
  set (p0 := snd (restart [buf] (parser_ d))). set (d0 := set_parser p0 d).
  assert (in_parser (restart [buf]) d = (Ok 0, d0)) as E0 by done.
  destruct (add_requests_run last buf t Ht Hsize Hlen ltac:(lia) (iterate branch_trace) wants d0 (2 ^ 64 - 1) [] [] [])
    as (p1 & tid & E1 & cs & Hcs & Ha).
  - unfold d0. by rewrite requests_parser.
  - done.
  - done.
  - apply restart_inv; [done|lia].
  - cbn. by rewrite Htid.
  - constructor.
  - cbn [app] in Ha. assert (tasks_ p1 !! tid = Some cs) as Hcs'.
    { destruct (tasks_ p1 !! tid) as [cs1|] eqn:Et; cbn in Hcs; [by subst|].
      subst cs. by apply Forall2_nil_inv_r in Ha as ->. }
    destruct (solve_asked_run t size_ last (Z.of_nat (length buf)) (ok_dag _ _ _ Ht) (ok_sized _ _ _ Ht) Hsize
      ltac:(lia) (ok_labels _ _ _ Ht) ltac:(lia) wants cs p1 tid (env_of buf) Ha Hne Hcs')
      as (status & sol & p2 & E2 & Hsol & Hans).
    destruct (apply_solution_env buf sol Hbuf Hsol) as [Hl Henv].
    exists tid, p1, cs, status, sol, p2. split_and!; [|done| |done|cbn zeta; split_and!; [|done|]].
    + by erewrite bind_eq by exact E0.
    + eapply Forall2_impl; [exact Ha|]. intros f c Hf env.
      pose proof (asked_values t (Z.of_nat (length buf)) [f] [c] env ltac:(by repeat constructor)) as Hv.
      by rewrite !Forall_singleton in Hv.
    + unfold solve_for_trace. erewrite bind_eq by exact E0. erewrite bind_eq by exact E1. cbv beta iota.
      assert (in_parser (solve_task tid) (set_parser p1 d0) = (Ok (status, sol), set_parser p2 d)) as E
        by (unfold in_parser; cbn [parser_ set_parser]; by rewrite E2).
      erewrite bind_eq by exact E. cbv beta iota. by destruct (is_sat status).
    + assert (forall fs, Forall (holds (env_of (apply_solution sol buf))) fs <-> Forall (holds (new_input sol (env_of buf))) fs) as Hext.
      { intros fs. apply Forall_iff. intros f. unfold holds. by rewrite (eval_proper t _ _ Henv (fst f) (fst f) eq_refl). }
      by destruct status; rewrite ?Hext.
Qed.

(** ** Branches that are not symbolic *)

(** When none of the requested branches is symbolic there is no task to solve, and
    the request is answered as unsatisfiable. *)
Lemma concrete_trace_fails {LLVM : InstructionDef} {L : z3.Library} {P : launcher.Posix}
    iterate interrupted cfg pid branch_trace buf d :
  tasks_ (parser_ d) !! (2 ^ 64 - 1) = None -> requests (iterate branch_trace) d = Some [] ->
  exists d', solve_for_trace iterate interrupted cfg pid branch_trace buf d = (Ok None, d').
Proof.
  intros Htid Hr. unfold solve_for_trace. set (d0 := set_parser (snd (restart [buf] (parser_ d))) d).
  rewrite (bind_eq _ _ d 0 d0) by done.
  assert (forall tr, requests tr d = Some [] -> add_requests tr (2 ^ 64 - 1) d0 = (Ok (Some (2 ^ 64 - 1)), d0)) as H.
  { induction tr as [|[bid want] tr IH]; intros H; [done|]. cbn [add_requests]. unfold bind at 1, gets at 1. cbn [id].
    cbn [requests] in H. change (branches_ d0) with (branches_ d). destruct (branches_ d !! bid) as [b|]; [|done].
    cbn in H. destruct (symbolic b); cbn [negb]; [|by apply IH].
    destruct (line_to_cid d !! bid) as [c|]; [|done]. cbn in H. destruct (conds d !! c) as [e|]; [|done]. cbn in H.
    by destruct (requests tr d). }
  erewrite bind_eq by (by apply H). cbv beta iota.
  assert (in_parser (solve_task (2 ^ 64 - 1)) d0 = (Ok (invalid_task, []), d0)) as E.
  { unfold in_parser, solve_task, retrieve_task, bind, gets. cbn [parser_ d0 set_parser restart snd tasks_].
    rewrite Htid. done. }
  erewrite bind_eq by exact E. by eexists.
Qed.

(** ** Exploration *)

(** [true] is returned only when every target has been seen. *)
Lemma explore_covered {LLVM : InstructionDef} {L : z3.Library} {P : launcher.Posix} iterate interrupted cfg pid targets
    runs : forall r0 d r d', explore_loop iterate interrupted cfg pid runs targets r0 d = (Ok (true, r), d') ->
  branches_covered iterate targets (branches_ d') = true.
Proof.
  induction runs as [|runs IH]; intros r0 d r d' E; cbn [explore_loop] in E; run_step E; cbn [id] in E.
  - destruct (branches_covered _ _ _) eqn:Ec; [by injection E as _ <-|]. by destruct (input_queue _).
  - destruct (branches_covered _ _ _) eqn:Ec; [by injection E as _ <-|].
    destruct (input_queue _); [done|]. run_step E. run_step E. run_step E.
    destruct (negb _); [done|]. run_step E. run_step E. by eapply IH.
Qed.

(** ** Fuel *)

Section fuel.
Context {LLVM : InstructionDef} {L : z3.Library} {P : launcher.Posix}.

(** The bytes that are left in the pipe. *)
Definition left_ (d : RLDriver) : nat := length (launcher.events (sys d)).

Lemma rl_read_shrinks n timeout : shrinks left_ (read_event n timeout).
Proof.
  intros d. unfold left_, read_event, in_launcher. destruct (launcher.symsan_read_event n timeout (sys d)) as [r w] eqn:E.
  destruct (read_event_rest _ _ _ _ _ E) as (k & _ & Hk & _). cbn. rewrite Hk, length_drop. lia.
Qed.

Lemma rl_parser_shrinks {A} (m : M state A) : shrinks left_ (in_parser m).
Proof. intros d. unfold left_, in_parser. destruct (m (parser_ d)). cbn. lia. Qed.

Lemma try_tasks_shrinks f : shrinks left_ (try_tasks f).
Proof. unfold try_tasks, tasks_size. shrink ltac:(apply rl_parser_shrinks). Qed.

Lemma cover_shrinks report_all msg : shrinks left_ (cover report_all msg).
Proof. unfold cover. shrink fail. Qed.

Lemma rl_handle_shrinks report_all msg : shrinks left_ (handle report_all msg).
Proof.
  unfold handle.
  shrink ltac:(first [apply rl_read_shrinks | apply rl_parser_shrinks | apply try_tasks_shrinks | apply cover_shrinks]).
Qed.

(** The number of bytes in the pipe is enough: with more fuel nothing changes. *)
Lemma event_loop_fuel cfg report_all n : forall m d, (left_ d <= n)%nat -> (n <= m)%nat ->
  event_loop cfg m report_all d = event_loop cfg n report_all d.
Proof.
  assert (Hread : forall d r d', read_event (size_of pipe_msg) (run_timeout_ms cfg) d = (r, d') ->
    (exists bs, r = Ok bs /\ bool_decide (length <$> bs = Some (size_of pipe_msg)) = true /\ (left_ d' < left_ d)%nat) \/
    (forall bs, r = Ok bs -> bool_decide (length <$> bs = Some (size_of pipe_msg)) = false)).
  { intros d r d' E. unfold read_event, in_launcher in E.
    destruct (launcher.symsan_read_event _ _ (sys d)) as [r0 w] eqn:E0. injection E as <- <-.
    destruct (read_event_rest _ _ _ _ _ E0) as (k & Hk & He & Hbs). destruct r0 as [bs|e]; [|by right].
    destruct (bool_decide (length <$> bs = Some (size_of pipe_msg))) eqn:Eb; [left|right; by intros ? [= <-]].
    exists bs. split_and!; [done|done|]. apply bool_decide_eq_true in Eb. destruct bs as [bs|]; [|done].
    injection Eb as Eb. rewrite (Hbs bs eq_refl), length_take in Eb. unfold left_. cbn. rewrite He, length_drop.
    assert (0 < size_of pipe_msg)%nat by (vm_compute; lia). lia. }
  induction n as [|n IH]; intros m d Hd Hm.
  - destruct m as [|m]; [done|]. cbn [event_loop]. unfold bind at 1 3.
    destruct (read_event _ _ d) as [r d1] eqn:E. destruct (Hread _ _ _ E) as [(bs & -> & _ & Hl)|Hf]; [lia|].
    destruct r as [bs|e]; [|done]. by rewrite (Hf bs eq_refl).
  - destruct m as [|m]; [lia|]. cbn [event_loop]. unfold bind at 1 3.
    destruct (read_event _ _ d) as [r d1] eqn:E. destruct (Hread _ _ _ E) as [(bs & -> & Hb & Hl)|Hf].
    + rewrite Hb. unfold bind. pose proof (rl_handle_shrinks report_all (decode (default [] bs)) d1) as Hs.
      destruct (handle _ _ d1) as [[u|e] d2]; [|done]. cbn in Hs. apply IH; lia.
    + destruct r as [bs|e]; [|done]. by rewrite (Hf bs eq_refl).
Qed.

End fuel.

(** ** Comparisons of two symbolic blocks *)

(** The back end sends no content for them, but the driver reads some: the message
    that follows is taken for it, and its branch is lost. *)
Definition symbolic_memcmp : pipe_msg := mk_msg (type_num memcmp_type) 0 0 0x1000 0 0 5 36.
Definition next_branch : pipe_msg := mk_msg (type_num cond_type) F_ADD_CONS 0 0x1010 0 3 4 1.

#[local] Existing Instances llvm14 sample_library benign.

Definition sample_world (bytes : list Z) : launcher.world :=
  launcher.mk_world (launcher.mk_config None None None None (-1) 0 3 (-1) 100 0 false false false
    false false false false false false false (-1) 0 false) {[3 := launcher.PipeRead]} {[100]} ∅ z3_sample bytes 0.

Definition sample_driver (bytes : list Z) : RLDriver :=
  mk_driver (sample_world bytes) (snd (restart [[3; 4]] new_state)) 1 ∅ ∅ ∅ ∅ [] EmptyString 0 0 no_run true.

Definition sample_cfg : Config := mk_cfg "target" [] "input" "out" false false false false 5000 8.

Lemma symbolic_memcmp_desyncs :
  let run ms := snd (event_loop sample_cfg 10 false (sample_driver (mjoin (encode <$> ms)))) in
  conds (run [next_branch]) !! 3 = Some (mk_cond 4 1) /\
  conds (run [symbolic_memcmp; next_branch]) = ∅.
Proof. cbn zeta. split; by vm_compute. Qed.

(** ** A request

    Two lines, whose branches have the comparison of the sum and the first byte as
    their conditions, are to be false and true. *)

Definition asked_driver : RLDriver :=
  mk_driver (sample_world []) new_state 1 ∅
    (<[1 := mk_branch 1 11 true true true true false true]> {[2 := mk_branch 2 12 true true true true false true]})
    (<[1 := 11]> {[2 := 12]}) (<[11 := mk_cond 4 1]> {[12 := mk_cond 1 1]}) [] EmptyString 0 0 no_run true.
Definition asked_trace : gmap Z bool := <[1 := false]> {[2 := true]}.

Definition not_seven : z3.expr :=
  z3.Bin z3.Eq (z3.Bin z3.Eq (z3.BvVal 7 8)
    (z3.Bin (z3.BvOp z3.BvAdd) (input_byte 0 0) (input_byte 0 1))) (z3.BoolVal false).
Definition one : z3.expr := z3.Bin z3.Eq (input_byte 0 0) (z3.BvVal 1 8).
Definition first_byte : z3.symbol * z3.sort * Z := (z3.StrSymbol (input_name 0 0), z3.BvSort 8, 1).
Definition second_byte : z3.symbol * z3.sort * Z := (z3.StrSymbol (input_name 0 1), z3.BvSort 8, 0).

(** A library that knows these assertions. *)
Definition asked_library : z3.Library := {|
  z3.simplify e := e;
  z3.check l := if bool_decide (l = [one]) then z3.sat [first_byte]
                else if bool_decide (l = [one; not_seven]) then z3.sat [first_byte; second_byte]
                else z3.unknown
|}.

#[local] Existing Instance asked_library | 0.

Lemma asked_check l m : z3.check l = z3.sat m ->
  l = [one] /\ m = [first_byte] \/ l = [one; not_seven] /\ m = [first_byte; second_byte].
Proof. simpl. case_bool_decide; [|case_bool_decide; [|done]]; intros [= <-]; auto. Qed.

Lemma asked_laws : z3.LibraryLaws.
Proof.
  split; [done..| | | | |].
  - intros l m Hc a Ha. pose proof (fun s u v H => Ha s u v H) as Hv.
    apply asked_check in Hc as [[-> ->]|[-> ->]].
    + apply Forall_singleton. unfold one, input_byte. cbn [z3.value]. by rewrite (Hv _ _ 1 ltac:(by left)).
    + repeat constructor; unfold not_seven, one, input_byte; cbn [z3.value]; rewrite (Hv (z3.StrSymbol (input_name 0 0)) (z3.BvSort 8) 1 ltac:(by left));
        [done|]. by rewrite (Hv (z3.StrSymbol (input_name 0 1)) (z3.BvSort 8) 0 ltac:(by right; left)).
  - intros l. simpl. case_bool_decide; [done|]. by case_bool_decide.
  - intros l m s u v [[-> ->]|[-> ->]]%asked_check Hm.
    + apply list_elem_of_singleton in Hm as [= -> -> ->]. exists one. by repeat constructor.
    + apply elem_of_cons in Hm as [[= -> -> ->]|[= -> -> ->]%list_elem_of_singleton].
      * exists one. by repeat constructor.
      * exists not_seven. split; [by right; left|]. by right; left.
  - intros l m [[_ ->]|[_ ->]]%asked_check; apply (bool_decide_unpack _); by vm_compute.
  - intros l m s n v [[_ ->]|[_ ->]]%asked_check Hm.
    + by apply list_elem_of_singleton in Hm as [= -> -> ->].
    + by apply elem_of_cons in Hm as [[= -> -> ->]|[= -> -> ->]%list_elem_of_singleton].
Qed.

#[local] Existing Instance asked_laws.

Definition asked_run : res (option Z) * RLDriver :=
  (in_parser (restart [[3; 4]]) ;;; add_requests (map_to_list asked_trace) (2 ^ 64 - 1)) asked_driver.

(** The input that is run: its first byte is 1, and the sum is not 7. *)
Lemma trace_solution_witness : exists p,
  solve_for_trace map_to_list (fun _ => false) sample_cfg 7 asked_trace [3; 4] asked_driver =
    check_input (fun _ => false) sample_cfg 7 [1; 0] (set_parser p asked_driver) /\
  eval z3_sample (env_of [1; 0]) 1 = 1 /\ eval z3_sample (env_of [1; 0]) 4 = 0.
Proof.
  destruct (trace_solution map_to_list (fun _ => false) sample_cfg 7 4 [3; 4] asked_trace [(1, 1); (4, 0)]
    asked_driver) as (tid & p1 & cs & status & sol & p2 & E1 & _ & _ & E2 & E3 & _ & H).
  - split; [apply z3_sample_dag|apply z3_sample_sized|apply z3_sample_ok].
  - by vm_compute.
  - by vm_compute.
  - unfold kInitializingLabel. lia.
  - repeat constructor; by vm_compute.
  - by vm_compute.
  - by vm_compute.
  - done.
  - by repeat constructor; vm_compute.
  - change (asked_run = (Ok (Some tid), set_parser p1 asked_driver)) in E1.
    assert (fst asked_run = Ok (Some 1)) as E4 by (vm_compute; reflexivity). rewrite E1 in E4.
    cbn [fst] in E4. injection E4 as ->.
    assert (parser_ (snd asked_run) = p1) as E5 by (rewrite E1; reflexivity).
    assert (fst (solve_task 1 (parser_ (snd asked_run))) = Ok (nested_sat, [mk_val 0 0 1; mk_val 0 1 0])) as E6
      by (vm_compute; reflexivity).
    rewrite E5, E2 in E6. cbn [fst] in E6. injection E6 as -> ->.
    assert (apply_solution [mk_val 0 0 1; mk_val 0 1 0] [3; 4] = [1; 0]) as Eo by (vm_compute; reflexivity).
    rewrite Eo in E3, H. exists p2. split; [exact E3|].
    apply Forall_cons in H as [H1 H2]. apply Forall_inv in H2. by split.
Defined.
